(* ===== verification/_CoqProject ===== *)
-Q . S2P
Prelude.v
F64.v
Text.v
GbtModel.v
Knapsack.v
Python.v
PyKnapsack.v
PyModel.v
PyEvaluation.v
Relation.v
Stats.v
HashUtils.v
JoinTypes.v
JoinHashMap.v
ArrayMap.v
JoinMap.v
Columnar.v
Datum.v
Scatter.v
CaseExpr.v
BinaryExpr.v
InList.v
HashExprs.v
CaseMethods.v
PhysicalExprs.v
CaseConstruct.v
ExprEvaluation.v
Streams.v
JoinIndices.v
Coalesce.v
FilterExec.v
LimitExec.v
ProjectionExec.v
BloomExec.v
Metrics.v
Transfer.v
PhysicalPlan.v
JoinCardinality.v
HashJoinStream.v
HashJoinRows.v
HashJoinCorrect.v
HashJoinRun.v
HashJoinTyping.v
HashJoinParallel.v
JoinSelection.v
MemoryPool.v
SpillPool.v
DistributorChannels.v
Repartition.v
DynamicFilter.v
DynamicFilterCorrect.v
DynamicFilterJoin.v
RepartitionExec.v
RepartitionStream.v
RepartitionJoin.v
BloomRule.v
