(* ===== verification/Prelude.v ===== *)
(** * Verification of the ML-guided predicate-transfer query engine

    The repository is a fork of Apache DataFusion (Rust, under
    [src/datafusion/datafusion/]) with a physical optimizer rule that puts Bloom
    filters around hash joins, chosen by a gradient-boosted-tree model, and the
    Python scripts (under [src/ml/]) that train, export and evaluate that model.
    This library models the rule, the operators it inserts, the model and its
    training-side twins, and the parts of DataFusion their correctness rests on:
    the hash join operator with its indexes, row hashes, output coalescing,
    dynamic filters, statistics and join tables, the repartitioning that feeds a partitioned join,
    with its channels, spill files and memory accounting, and the physical
    expressions and row-wise operators (filter, limit, projection) of its plans.

    ** The program and how its parts interact

    Join selection (physical-optimizer/src/join_selection.rs) fixes the sides and
    the partition modes of the joins of a physical plan.  The planner then hands
    it to [MultiHopBloomFilterRule::optimize]
    (physical-optimizer/src/bloom_filter_transfer.rs).  The rule collects the join
    edges of the plan, and either filters every inner-join key it can resolve to a
    column ([always_build]) or scores each key with the model (bf_model.rs),
    selects a set within a memory budget by a 0/1 knapsack and filters that.
    A filtered key becomes a [BloomFilterBuildExec] on the build side and a
    [BloomFilterProbeExec] on the probe side, linked by a broadcast channel.  At
    run time the hash join (physical-plan/src/joins) polls the build side, which
    fills and broadcasts the filter, and then the probe side, which drops the rows
    the filter rules out and logs metrics.  The join has filters of its own: the
    partitions report bounds and members of their build keys, and the last one to
    report turns them into a predicate that the operators below the probe side
    apply.  The inputs of a partitioned join come
    from [RepartitionExec]: a task per input splits batches by the hash of the key
    and sends them through gated channels to one stream per partition, within a
    memory reservation, or through a spill pool when the reservation cannot grow.
    Keys, predicates and projections are physical expressions, evaluated batch by
    batch (physical-expr/src/expressions); filters, limits and projections are
    streams over the stream below them.
    The scripts read those metrics, fit the model, export it as JSON for the planner
    and replay the selection offline.

    ** Files

    Shared definitions.
    - [Prelude]: panics as [None], [Result] and its monads, vectors with checked
      indices, list lemmas.
    - [F64]: binary64 arithmetic over the Standard Library's [spec_float], with
      monotonicity of rounding and addition.
    - [Text], [Python]: what the sources use of Rust's strings and Python's lists.
    - [Relation]: values, arrays, batches, schemas and rows.

    The rule and its operators (physical-optimizer/src).
    - [GbtModel] (Module [Gbt]): [walk_tree], [predict_proba], the model cache
      of bf_model.rs.
    - [Knapsack]: [knapsack_select] of bloom_filter_transfer.rs.
    - [BloomExec]: the two [execute] methods as functions from input streams to
      events; [Metrics]: [FilterMetrics], the two CSV logs.
    - [PhysicalPlan] (Modules [Expr], [JoinSchema], [Plan]): plan trees, key
      expressions, [build_join_schema], [HashJoinExecBuilder::build], evaluation of
      a plan on one partition.
    - [Transfer]: the streams composed with one join.
    - [BloomRule] (Module [Rule]): [collect_join_edges], [insert_bloom_filters],
      [collect_ml_candidates], [insert_bloom_filters_ml], [optimize].

    The hash join (physical-plan/src/joins, physical-plan/src/coalesce,
    common/src).
    - [JoinTypes]: [JoinType], [NullEquality], the tables of join_type.rs and
      exec.rs, and a reference semantics of the ten join types.
    - [HashUtils]: [create_hashes] of hash_utils.rs.
    - [JoinHashMap], [ArrayMap]: the two indexes of a build side
      (join_hash_map.rs, chain.rs, array_map.rs).  The class [Pager] states what
      both promise to the join: pages of matches that lose and repeat nothing.
      [JoinMap]: either of the two (joins/mod.rs).
    - [JoinIndices]: index alignment and the visited bitmap of utils.rs.
    - [Coalesce]: [LimitedBatchCoalescer].
    - [HashJoinStream] (Modules [JoinBatch], [HashJoinStream]): output batches,
      residual filters, [collect_left_input] with [try_create_array_map], the
      state machine of stream.rs one poll at a time, [execute].
    - [HashJoinRows], [HashJoinCorrect], [HashJoinRun]: proofs about rows, about
      one probe batch over either index, and about whole runs of a partition.
    - [HashJoinTyping]: rows against the declared schema.
    - [HashJoinParallel]: partitions that share a build side, as a step relation
      in which any partition may be polled next.
    - [DynamicFilter]: the reports of the partitions, the predicate built from
      them and the shared expression that holds it (shared_bounds.rs,
      inlist_builder.rs, dynamic_filters.rs), reports and updates as steps;
      [DynamicFilterCorrect]: what the predicate is on a probe row;
      [DynamicFilterJoin] (Module [FilterJoin]): joins of filtered probe sides.
    - [JoinSelection]: the rule that exchanges join inputs and picks partition
      modes before the filter rule runs (join_selection.rs, [swap_inputs] of the
      three joins, [transform_up] of tree_node.rs).

    Repartitioning (physical-plan/src/repartition, physical-plan/src/spill,
    execution/src/memory_pool).
    - [MemoryPool] (Module [Memory]): the pools and [MemoryReservation], atomic
      operations as steps.
    - [SpillPool] (Module [Spill]): [SpillPoolWriter] and [SpillPoolReader],
      critical sections as steps.
    - [DistributorChannels] (Module [Distributor]): senders, receivers and the gate,
      accesses to the gate as steps.
    - [Repartition]: [BatchPartitioner], and joins run by partition.
    - [RepartitionExec]: the tasks and streams of a repartition, sends and polls as
      steps; [RepartitionStream]: its coalescing output; [RepartitionJoin]: a
      partitioned join over two repartitions.

    Physical expressions (physical-expr/src/expressions, physical-expr-common/src,
    expr-common/src).
    - [Columnar], [Datum], [Scatter]: scalars and arrays, Arrow's kernels as a
      class, operators on mixtures of both, [scatter].
    - [BinaryExpr], [InList]: the two expressions with their evaluation strategies.
    - [HashExprs]: hashes of key columns and lookups of keys in an index
      (partitioned_hash_eval.rs).
    - [CaseExpr], [CaseMethods]: the loops over branches of a CASE, its special
      methods and lookup tables.
    - [PhysicalExprs] (Module [Exprs]): the expression tree, its [evaluate],
      and the rewriting of a CASE body to the columns it uses; [CaseConstruct] (Module [Construct]): [CaseExpr::try_new];
      [ExprEvaluation] (Module [Evaluate]): what evaluation returns.

    Row-wise operators (physical-plan/src).
    - [Streams]: streams as traces of polls, driven to their end.
    - [FilterExec], [LimitExec], [ProjectionExec]: filter.rs, limit.rs and
      projection.rs, one poll at a time.

    Statistics (common/src/stats.rs, physical-plan/src/joins/utils.rs).
    - [Stats], [JoinCardinality]: [Precision], [Statistics] and the estimates of
      join sizes.

    The scripts (src/ml).
    - [PyKnapsack], [PyModel], [PyEvaluation]: the selection policies, the
      export and replay of the model, the offline evaluation.

    ** What the theorems show

    - The rule: executed on one partition, a rewritten plan has the schema and the
      rows, in order, of the original for every environment, model and statistics,
      when resolved keys name their own columns and nulls do not match; the filters
      inserted are the resolvable keys, or exactly the knapsack's selection.
      Examples show the rows that are lost when a key is resolved by a substring of
      its name, is an expression, when nulls match, or when a probe receives the
      filter of another partition.
    - Selection: the knapsack never panics, its selection fits the capacity and is
      optimal for binary64 sums; the Python version selects the same set; how the
      rounding to kilobytes lets a selection exceed the budget in bytes.
    - The model: the index walk returns and computes the encoded tree, predictions
      are probabilities, and from the exported JSON the planner and the scripts
      compute the same score, that of the exported arrays under binary64
      comparisons.
    - Filters at run time: the build side broadcasts a filter that reports every
      key and replays its input, the probe side keeps exactly the rows the filter
      does not rule out, and a join of what both yield gives the rows of the
      unfiltered join.
    - The hash join: for all ten join types a run ends, does not panic, and yields
      the reference join cut to the fetch limit, for every batching, page size,
      hash function and index; inner joins in the order of the plan semantics,
      null-aware anti joins as SQL's [NOT IN]; its rows fit the declared schema; an
      error of the build input is the only thing it yields; and every schedule of
      partitions over a shared build side ends with the join, unmatched build rows
      once.
    - Dynamic filters: for every join type the guard admits, when nulls do not match,
      the join of the probe rows a filter keeps is the join of all of them,
      whatever partitions have reported when a batch is filtered; the filter can be
      completed from every reachable state; the members and bounds a partition
      reports are true of the build side it collected.  An example shows the rows
      that change when nulls match or the join is null-aware, which the guard does
      not look at.
    - Join selection: on a valid plan the rule succeeds, and the plan it returns
      has the same schema and the same rows up to order, whatever statistics it
      sees; no join stays in an undecided mode and null-aware joins are not
      partitioned.  An example shows the null-aware flag lost in the conversion to
      a symmetric join.
    - Repartitioning: in every reachable state of tasks and streams nothing
      panics, the streams can be run to their end under back-pressure (no write to
      a spill pool being started after one to it has failed), and a stream
      that ends without an error has yielded exactly its partition; joins of
      corresponding partitions together give the join of the whole inputs.
      Channels lose no wake-up and keep order, spill pools give batches back in
      order and report the end exactly when all is read and the writers are gone,
      reservations are accounted for and bounded by the limit under
      every interleaving.  Examples: overlapping writes of cloned spill writers
      lose a batch, as does a write after a failed one, and ends dropped at the same
      time disable a gate.
    - Indexes and hashes: lookups return the inserted rows, pages concatenate to
      all matches, the array map is exact for every integer type including the
      wrapped offsets of negative keys, and every row gets the hash of its own
      cells.
    - Expressions: a well-typed expression evaluates on a batch to the values of
      its rows under a row-by-row semantics, whichever short circuit, set or CASE
      method is taken, and a branch is evaluated only on the rows that reach it;
      the constructors of IN and CASE return expressions with that meaning.
      Examples show a CASE with fixed-size binary literals that panics and an IN
      item that is taken for a constant although it depends on the row.
    - Operators: polled to their end, filter, limit and projection yield the kept,
      counted or computed rows of their input, pass errors on and stop reading at
      their limit; the output of a limit does not depend on what follows it.
    - Statistics: what is marked exact stays true under projection, limits and
      merging; join estimates return while the product of the row counts fits
      64 bits and respect what each join type preserves, full joins while the sum in
      their estimate does not saturate; inputs declared exactly disjoint join to
      nothing.  Examples: a semi join that is counted as empty although it is not,
      and a full join whose saturated estimate is zero.
    - Logs: a metrics file stays one header with one line of thirteen fields per
      query.

    ** Integers, fuel and bounds

    [usize] subtraction, indexing and the [u32] and [u64] entries of the indexes
    are checked: what panics or overflows in the source is [None] here, and
    theorems say when it does not happen.  Array-map keys are cast and
    subtracted modulo 2^64.  Build sides have at most 2^64 - 1 rows, the largest a
    [u64] index can hold.  Counters of the metrics that cannot reach their width
    are [nat] or [N].

    Loops that are not structural take fuel.  A tree walk takes one step per node
    of the array and the fuel is its length.  A chain of an index visits a row at
    most once and the fuel is one more than the number of links.  Reading a batch in pages is
    given more fuel than probe rows and matches together, since a page with a
    positive limit advances the offset or yields a pair.  [run] polls a stream:
    the theorems state that some fuel suffices and that more changes nothing.
    [drive] does the same for filters, limits and projections, with a measure that
    each poll decreases.  The rewriting of expressions takes the height of the tree
    as fuel, and the constructor of CASE is proved to return with it; for the
    predicate of a dynamic filter it is [filter_height], computed from the keys.
    The step relation of the partitions is proved to have no infinite run.  For
    repartitioning, channels and spill pools completion is proved from every
    reachable state by a measure that some enabled step decreases.  Counters of
    pools and gates wrap at 2^64; row indices of a batch are cast to 32 bits, and
    batches have at most 2^32 rows.

    ** Parameters

    Code outside the repository is an argument with documented behaviour as
    named hypotheses or class laws: Arrow's kernels, cell by cell, and its
    [BatchCoalescer] and batch constructor, the Bloom filter (no false negatives),
    foldhash (a function), the exponential functions of Rust and NumPy (two), [Interval::cardinality], the order and arithmetic of [ScalarValue],
    other plan operators, the file system and the environment, and for the
    scripts NumPy, pandas and the layout of scikit-learn's fitted trees.  Classes
    have instances by which the witnesses evaluate.  Of the repository's own code the
    tables that coerce two different types to a common one (expr-common's
    type_coercion/binary.rs) are an argument of the result types of operators; the
    theorems hold for every table.  So is the struct of several keys that a dynamic
    filter compares with an IN list: theorems allow an IN list for a single key
    only.  The order of values behind bounds is any order with the laws [OrderOk].

    ** Not modelled

    - Asynchrony below a poll of the hash join (the lock and atomics of its shared
      build side): a poll is one step and the shared state changes only in steps.
      The tokio runtime: any task may run next.
    - Plans on several partitions: the plans the rule rewrites are evaluated on one,
      with the build side of a join read before its probe side.
    - In [RepartitionExec] a channel and a spill pool are queues, as their own files
      show them to be; a pool is one until a write to it fails, and writes to it
      exclude each other by the lock an input holds while it spills.
    - scikit-learn's own predictions, which round features to single precision.
    - The casts of row numbers of a probe batch to 32 bits in the indexes: they are
      the identity on batches of at most 2^32 rows.
    - LIKE, CAST, scalar functions and the statistics, intervals and orderings of
      expressions; dictionary and view arrays, which no array of the model is.
    - The reservations of the hash join and timers; metrics of sizes; the merge of a
      sort-preserving repartition.
    - In dynamic filters: children remapped when the filter moves through a
      projection, tasks that wait for completion, bounds of keys that are not
      integers as they are collected (the predicate is proved for any bounds that
      enclose the keys), and the search for operators that accept the filter.
    - Hashes and keys of nested, dictionary, view and run-length arrays.
    - Fitting the model, plots and reports of the scripts.
    - Sort requirements of symmetric joins; boundedness and statistics of plans
      are arguments of join selection.
    - The other operators, optimizer rules, SQL front end, data sources and
      serialisation of DataFusion: the rule does not look into them; plans carry
      other operators behind an interface, and the rule is proved for every valid
      plan. *)

From stdpp Require Import base gmap strings list sorting.
From Stdlib Require Import ZArith Lia.

Declare Scope engine_scope.
Delimit Scope engine_scope with engine.
#[global] Open Scope engine_scope.

(** ** Panics

    A Rust routine that indexes a slice or subtracts [usize]s may panic.  Such
    routines are modelled in [option]; [None] stands for the panic.  stdpp's
    monad notation on [option] threads it. *)

Notation "'panic!'" := None (at level 0) : engine_scope.

(** [v[i]] and [v[i] = x] of a Rust [Vec] or slice. *)
Definition vec_get {A} (v : list A) (i : nat) : option A := v !! i.

Definition vec_set {A} (v : list A) (i : nat) (x : A) : option (list A) :=
  if decide (i < length v) then Some (<[i := x]> v) else panic!.

(** [a - b] on [usize], which aborts on underflow. *)
Definition usize_sub (a b : nat) : option nat :=
  if decide (b ≤ a) then Some (a - b) else panic!.

(** A loop that may fail. *)
Fixpoint foldM {A S} (f : S → A → option S) (l : list A) (s : S) : option S :=
  match l with
  | [] => Some s
  | a :: l => s' ← f s a; foldM f l s'
  end.

Lemma foldM_app {A S} (f : S → A → option S) l1 l2 s :
  foldM f (l1 ++ l2) s = (foldM f l1 s ≫= foldM f l2).
Proof.
  revert s. induction l1 as [|a l1 IH]; intros s; [done|]. cbn. destruct (f s a); [apply IH|done].
Qed.

Lemma foldM_map {A B S} (f : S → B → option S) (g : A → B) l s :
  foldM f (g <$> l) s = foldM (λ s a, f s (g a)) l s.
Proof. revert s. induction l as [|a l IH]; intros s; cbn; [done|]. destruct (f s (g a)); cbn; auto. Qed.

Lemma foldM_ext_in {A S} (f g : S → A → option S) l s :
  (∀ s a, a ∈ l → f s a = g s a) → foldM f l s = foldM g l s.
Proof.
  revert s. induction l as [|a l IH]; intros s H; cbn; [done|].
  rewrite H by set_solver. destruct (g s a); cbn; [|done]. apply IH. intros s' b Hb. apply H. set_solver.
Qed.

(** A loop that keeps up with one that returns. *)
Lemma foldM_sim {A S T} (R : S → T → Prop) (f : S → A → option S) (g : T → A → option T) l s t t' :
  (∀ s t a t', a ∈ l → R s t → g t a = Some t' → ∃ s', f s a = Some s' ∧ R s' t') →
  R s t → foldM g l t = Some t' → ∃ s', foldM f l s = Some s' ∧ R s' t'.
Proof.
  revert s t. induction l as [|a l IH]; intros s t Hs HR; cbn; [intros [= <-]; eauto|].
  intros (t1 & Hg & Hl)%bind_Some. destruct (Hs s t a t1) as (s1 & -> & HR1); [set_solver|done..|]. cbn.
  eapply IH; [|done..]. intros s2 t2 b t3 Hb. apply Hs. set_solver.
Qed.

(** ** Errors

    [Result<A, DataFusionError>]; [?] is the monadic bind. *)

Inductive DataFusionError :=
| Plan (msg : string)
| Execution (msg : string)
| NotImplemented (msg : string)
| ArrowError (msg : string)
| ResourcesExhausted (msg : string)
| Internal (msg : string)
| External (msg : string).

Inductive Result (A : Type) :=
| Ok (a : A)
| Err (e : DataFusionError).
Arguments Ok {A} a.
Arguments Err {A} e.

#[global] Instance Result_ret : MRet Result := λ A a, Ok a.
#[global] Instance Result_bind : MBind Result :=
  λ A B f m, match m with Ok a => f a | Err e => Err e end.
#[global] Instance Result_fmap : FMap Result :=
  λ A B f m, match m with Ok a => Ok (f a) | Err e => Err e end.

Definition ok_or {A} (o : option A) (e : DataFusionError) : Result A :=
  match o with Some a => Ok a | None => Err e end.

(** [iter.map(f).collect::<Result<Vec<_>>>()] *)
Fixpoint collect {A B} (f : A → Result B) (l : list A) : Result (list B) :=
  match l with
  | [] => Ok []
  | a :: l => b ← f a; bs ← collect f l; Ok (b :: bs)
  end.

(** Fallible code that may also panic. *)
Definition try_bind {A B} (m : option (Result A)) (f : A → option (Result B)) : option (Result B) :=
  match m with
  | Some (Ok a) => f a
  | Some (Err e) => Some (Err e)
  | None => None
  end.

Notation "x '←?' m ; k" := (try_bind m (λ x, k))
  (at level 20, m at level 100, k at level 200, right associativity) : engine_scope.

Create HintDb engine.

Lemma vec_set_in {A} (v : list A) i x :
  i < length v → vec_set v i x = Some (<[i := x]> v).
Proof. intros H. unfold vec_set. by rewrite decide_True. Qed.

Lemma usize_sub_le a b : b ≤ a → usize_sub a b = Some (a - b).
Proof. intros H. unfold usize_sub. by rewrite decide_True. Qed.

(** ** Lists *)

Lemma forallb_Forall {A} (f : A → bool) l : forallb f l = true ↔ Forall (λ x, f x = true) l.
Proof. rewrite forallb_forall, Forall_forall. by setoid_rewrite list_elem_of_In. Qed.

Lemma mapM_total {A B} (f : A → option B) (g : A → B) l :
  (∀ x, x ∈ l → f x = Some (g x)) → mapM f l = Some (g <$> l).
Proof.
  induction l as [|x l IH]; intros Hf; [done|]. cbn. rewrite (Hf x) by apply list_elem_of_here. cbn.
  by rewrite IH by (intros y Hy; apply Hf; by right).
Qed.

Lemma mapM_app_Some {A B} (f : A → option B) l k l' k' :
  mapM f l = Some l' → mapM f k = Some k' → mapM f (l ++ k) = Some (l' ++ k').
Proof. rewrite !mapM_Some. apply Forall2_app. Qed.

Lemma list_filter_iff_in {A} (P Q : A → Prop) `{!∀ x, Decision (P x), !∀ x, Decision (Q x)} (l : list A) :
  (∀ x, x ∈ l → P x ↔ Q x) → filter P l = filter Q l.
Proof.
  induction l as [|x l IH]; intros HPQ; [done|]. rewrite !filter_cons.
  rewrite IH by (intros y Hy; apply HPQ; by right). specialize (HPQ x ltac:(apply list_elem_of_here)).
  destruct (decide (P x)), (decide (Q x)); tauto.
Qed.

(** ** Tables

    A vector of length [n] filled from a function: the state of a loop that
    writes each index is described by the function alone. *)

Definition tab {A} (n : nat) (f : nat → A) : list A := map f (seq 0 n).

Lemma length_tab {A} n (f : nat → A) : length (tab n f) = n.
Proof. unfold tab. by rewrite length_map, length_seq. Qed.

Lemma lookup_tab {A} n (f : nat → A) i : i < n → tab n f !! i = Some (f i).
Proof. intros H. unfold tab. rewrite list_lookup_fmap, lookup_seq_lt by done. done. Qed.

Lemma tab_ext {A} n (f g : nat → A) : (∀ i, i < n → f i = g i) → tab n f = tab n g.
Proof.
  intros H. unfold tab. apply map_ext_in. intros i Hi. apply H.
  apply in_seq in Hi. lia.
Qed.

Lemma insert_tab {A} n (f : nat → A) i x :
  <[i := x]> (tab n f) = tab n (λ j, if decide (j = i) then x else f j).
Proof.
  apply list_eq. intros j. destruct (decide (j < n)) as [Hj|Hj].
  - destruct (decide (j = i)) as [->|Hne].
    + rewrite list_lookup_insert_eq by (by rewrite length_tab). rewrite lookup_tab by done.
      by rewrite decide_True.
    + rewrite list_lookup_insert_ne, !lookup_tab by done. by rewrite decide_False.
  - rewrite !lookup_ge_None_2; rewrite ?length_insert, ?length_tab; (done || lia).
Qed.

Lemma replicate_tab {A} n (x : A) : replicate n x = tab n (λ _, x).
Proof.
  apply list_eq. intros j. destruct (decide (j < n)) as [Hj|Hj].
  - by rewrite lookup_replicate_2, lookup_tab.
  - rewrite !lookup_ge_None_2; rewrite ?length_replicate, ?length_tab; (done || lia).
Qed.

Lemma vec_get_tab {A} n (f : nat → A) i : i < n → vec_get (tab n f) i = Some (f i).
Proof. apply lookup_tab. Qed.

Lemma vec_set_tab {A} n (f : nat → A) i x :
  i < n → vec_set (tab n f) i x = Some (tab n (λ j, if decide (j = i) then x else f j)).
Proof. intros H. rewrite vec_set_in by (by rewrite length_tab). by rewrite insert_tab. Qed.

(** ** Selections *)

(** The elements a selection marks. *)
Definition marked {A} (l : list A) (sel : list bool) : list A :=
  omap (λ p : A * bool, if p.2 then Some p.1 else None) (zip l sel).

Lemma filter_marked {A} (P : A → Prop) `{∀ x, Decision (P x)} (l : list A) (sel : list bool) :
  length sel = length l → (∀ i x, l !! i = Some x → (P x ↔ sel !! i = Some true)) →
  filter P l = marked l sel.
Proof.
  revert sel. induction l as [|x l IH]; intros sel Hlen HP; [by destruct sel|].
  destruct sel as [|b sel]; [done|]. unfold marked. cbn [zip zip_with omap list_omap snd fst].
  assert (Hx : P x ↔ b = true) by (rewrite (HP 0 x eq_refl); cbn; split; congruence).
  rewrite filter_cons. specialize (IH sel ltac:(cbn in Hlen; lia) (λ i, HP (S i))). fold (marked l sel).
  destruct b; [rewrite decide_True by tauto|rewrite decide_False by (rewrite Hx; done)]; by rewrite IH.
Qed.

Lemma elem_of_marked {A} (l : list A) sel x :
  length sel = length l → x ∈ marked l sel ↔ ∃ i, l !! i = Some x ∧ sel !! i = Some true.
Proof.
  revert sel. induction l as [|y l IH]; intros sel Hlen.
  { destruct sel; [|done]. split; [by intros ?%elem_of_nil|by intros (i & ? & _)]. }
  destruct sel as [|b sel]; [done|]. unfold marked. cbn [zip zip_with omap list_omap snd fst].
  fold (marked l sel). specialize (IH sel ltac:(cbn in Hlen; lia)).
  assert (Htail : (∃ i, (y :: l) !! i = Some x ∧ (b :: sel) !! i = Some true) ↔
    (x = y ∧ b = true) ∨ x ∈ marked l sel).
  { rewrite IH. split.
    - intros ([|i] & Hi & Hb); cbn in *; [left; split; congruence|right; eauto].
    - intros [[-> ->]|(i & ? & ?)]; [by exists 0|by exists (S i)]. }
  rewrite Htail. destruct b; [rewrite elem_of_cons|]; intuition congruence.
Qed.

Lemma map_marked {A B} (f : A → B) l sel : map f (marked l sel) = marked (map f l) sel.
Proof.
  revert sel. induction l as [|x l IH]; intros [|[] sel]; unfold marked in *; cbn; [done..| |].
  - f_equal. apply IH.
  - apply IH.
Qed.

(** Membership in the marked part of a list without repetitions. *)
Lemma marked_nodup {A} (l : list A) sel i x :
  NoDup l → length sel = length l → l !! i = Some x → (x ∈ marked l sel ↔ sel !! i = Some true).
Proof.
  intros Hnd Hlen Hi. rewrite elem_of_marked by done. split; [|eauto].
  intros (j & Hj & Hs). by rewrite (NoDup_lookup _ _ _ _ Hnd Hi Hj).
Qed.
