(* ===== verification/F64.v ===== *)
(** * IEEE binary64 arithmetic

    The program's [f64] values are [spec_float]s of precision 53 and maximal
    exponent 1024; the operations are the Standard Library's bit-exact,
    computable definitions.  The lemmas relate the positive floats to integers
    counted in units of [2^-1074] (the smallest subnormal), prove that rounding
    is monotone there, and derive that addition is monotone and that comparison
    is a total preorder: what the knapsack and the model inference need. *)

From stdpp Require Import base list.
From Stdlib Require Import ZArith Lia.
From Stdlib Require Export SpecFloat.
From S2P Require Import Prelude.

#[local] Open Scope Z_scope.

Abbreviation f64 := spec_float.

Definition f64_add : f64 → f64 → f64 := SFadd 53 1024.
Definition f64_sub : f64 → f64 → f64 := SFsub 53 1024.
Definition f64_mul : f64 → f64 → f64 := SFmul 53 1024.
Definition f64_div : f64 → f64 → f64 := SFdiv 53 1024.
Definition f64_neg : f64 → f64 := SFopp.
(** [a < b], [a > b] and [a <= b]; false when an operand is a NaN. *)
Definition f64_lt (a b : f64) : bool := SFltb a b.
Definition f64_gt (a b : f64) : bool := SFltb b a.
Definition f64_le (a b : f64) : bool := SFleb a b.
Definition f64_eq (a b : f64) : bool := SFeqb a b.

Definition f64_zero : f64 := S754_zero false.

(** [n as f64]: round to nearest, ties to even. *)
Definition f64_of_Z (n : Z) : f64 := binary_normalize 53 1024 n 0 false.

(** A decimal literal [n / 10^k]; both operands are exact for the literals of
    the program, so the quotient is the correctly rounded literal. *)
Definition f64_lit (n k : Z) : f64 := f64_div (f64_of_Z n) (f64_of_Z (10 ^ k)).

(** [f64::max]: the other operand when one is a NaN. *)
Definition f64_max (a b : f64) : f64 :=
  match a, b with
  | S754_nan, _ => b
  | _, S754_nan => a
  | _, _ => if f64_lt a b then b else a
  end.

(** Integer part of a finite positive magnitude, and [f64::ceil]'s counterpart. *)
Definition f64_trunc_pos (m : positive) (e : Z) : Z := Z.shiftl (Zpos m) e.

Definition usize_max : Z := 2 ^ 64 - 1.

(** [x as usize]: truncation toward zero, saturating; NaN goes to 0. *)
Definition f64_to_usize (x : f64) : Z :=
  match x with
  | S754_finite false m e => Z.min usize_max (f64_trunc_pos m e)
  | S754_infinity false => usize_max
  | _ => 0
  end.

Example lit_08 : f64_lit 8 1 = S754_finite false 7205759403792794 (-53).
Proof. vm_compute. reflexivity. Qed.

Example cast_back : f64_to_usize (f64_mul (f64_of_Z 10000) (f64_of_Z 2)) = 20000.
Proof. vm_compute. reflexivity. Qed.

(** ** Integer rounding

    [rne N k] is [N / 2^k] rounded to nearest, ties to even; [RN N] rounds the
    integer [N] to 53 significant bits. *)

Definition rne (N k : Z) : Z :=
  let q := N / 2 ^ k in
  let t := N mod 2 ^ k in
  if 2 * t <? 2 ^ k then q
  else if 2 * t =? 2 ^ k then (if Z.even q then q else q + 1)
  else q + 1.

Definition RN_shift (N : Z) : Z := Z.max 0 (Z.log2 N - 52).

Definition RN (N : Z) : Z := rne N (RN_shift N) * 2 ^ RN_shift N.

Lemma rne_0 N : rne N 0 = N.
Proof. unfold rne. rewrite Z.pow_0_r, Z.div_1_r, Z.mod_1_r. reflexivity. Qed.

Lemma rne_bounds N k : 0 ≤ k → N / 2 ^ k ≤ rne N k ≤ N / 2 ^ k + 1.
Proof.
  intros Hk. unfold rne.
  destruct (2 * _ <? _); [lia|]. destruct (2 * _ =? _); [|lia].
  destruct (Z.even _); lia.
Qed.

Lemma rne_mono N M k : 0 ≤ k → N ≤ M → rne N k ≤ rne M k.
Proof.
  intros Hk HNM. assert (Hp : 0 < 2 ^ k) by (apply Z.pow_pos_nonneg; lia).
  pose proof (Z.div_mod N (2 ^ k) ltac:(lia)) as HN.
  pose proof (Z.div_mod M (2 ^ k) ltac:(lia)) as HM.
  pose proof (Z.mod_pos_bound N (2 ^ k) Hp) as HrN.
  pose proof (Z.mod_pos_bound M (2 ^ k) Hp) as HrM.
  assert (N / 2 ^ k ≤ M / 2 ^ k) as Hq by (apply Z.div_le_mono; lia).
  destruct (Z.eq_dec (N / 2 ^ k) (M / 2 ^ k)) as [E|NE].
  - unfold rne. rewrite <- E in HM |- *.
    destruct (Z.ltb_spec (2 * (N mod 2 ^ k)) (2 ^ k));
    destruct (Z.ltb_spec (2 * (M mod 2 ^ k)) (2 ^ k));
    destruct (Z.eqb_spec (2 * (N mod 2 ^ k)) (2 ^ k));
    destruct (Z.eqb_spec (2 * (M mod 2 ^ k)) (2 ^ k));
    destruct (Z.even (N / 2 ^ k)); lia.
  - pose proof (rne_bounds N k Hk). pose proof (rne_bounds M k Hk). lia.
Qed.

Lemma rne_shift_exact N k j : 0 ≤ k → 0 ≤ j → rne (N * 2 ^ j) (k + j) = rne N k.
Proof.
  intros Hk Hj. unfold rne.
  assert (0 < 2 ^ k) by (apply Z.pow_pos_nonneg; lia).
  assert (0 < 2 ^ j) by (apply Z.pow_pos_nonneg; lia).
  rewrite Z.pow_add_r, Z.div_mul_cancel_r, Zmult_mod_distr_r by lia.
  replace (2 * (N mod 2 ^ k * 2 ^ j)) with (2 * (N mod 2 ^ k) * 2 ^ j) by ring.
  replace (2 * (N mod 2 ^ k) * 2 ^ j <? 2 ^ k * 2 ^ j)
    with (2 * (N mod 2 ^ k) <? 2 ^ k).
  2: { apply eq_true_iff_eq. rewrite !Z.ltb_lt. nia. }
  replace (2 * (N mod 2 ^ k) * 2 ^ j =? 2 ^ k * 2 ^ j)
    with (2 * (N mod 2 ^ k) =? 2 ^ k); [reflexivity|].
  apply eq_true_iff_eq. rewrite !Z.eqb_eq. nia.
Qed.

Lemma RN_shift_nonneg N : 0 ≤ RN_shift N.
Proof. unfold RN_shift. lia. Qed.

(** Closes [0 < 2 ^ k] for the exponents of this file. *)
Ltac pow2_pos :=
  apply Z.pow_pos_nonneg; [lia | first [lia | apply RN_shift_nonneg | apply Z.log2_nonneg]].

Lemma RN_0 : RN 0 = 0.
Proof. reflexivity. Qed.

Lemma pow2_pred n : 0 < n → 2 ^ n = 2 ^ (n - 1) * 2.
Proof. intros. rewrite <- (Z.pow_1_r 2) at 3. rewrite <- Z.pow_add_r by lia. f_equal. lia. Qed.

(** The quotient has 53 significant bits. *)
Lemma RN_quot_upper N : 0 < N → N / 2 ^ RN_shift N < 2 ^ 53.
Proof.
  intros HN. apply Z.div_lt_upper_bound; [pow2_pos|].
  rewrite <- Z.pow_add_r by (unfold RN_shift; lia).
  destruct (Z.log2_spec N HN) as [_ H]. eapply Z.lt_le_trans; [exact H|].
  apply Z.pow_le_mono_r; unfold RN_shift; lia.
Qed.

Lemma RN_quot_lower N : 0 < N → 0 < RN_shift N → 2 ^ 52 ≤ N / 2 ^ RN_shift N.
Proof.
  intros HN Hk. apply Z.div_le_lower_bound; [pow2_pos|].
  rewrite <- Z.pow_add_r by (unfold RN_shift; lia).
  destruct (Z.log2_spec N HN) as [H _]. etransitivity; [|exact H].
  apply Z.pow_le_mono_r; unfold RN_shift in *; lia.
Qed.

Lemma RN_lower N : 0 < N → 2 ^ Z.log2 N ≤ RN N.
Proof.
  intros HN. unfold RN. destruct (Z.eq_dec (RN_shift N) 0) as [E|E].
  - rewrite E, rne_0, Z.pow_0_r. destruct (Z.log2_spec N HN). lia.
  - pose proof (RN_shift_nonneg N).
    pose proof (rne_bounds N (RN_shift N) ltac:(lia)) as [Hb _].
    pose proof (RN_quot_lower N HN ltac:(lia)).
    assert (Z.log2 N = 52 + RN_shift N) as -> by (unfold RN_shift in *; lia).
    rewrite Z.pow_add_r by lia. apply Z.mul_le_mono_nonneg_r; lia.
Qed.

Lemma RN_upper N : 0 < N → RN N ≤ 2 ^ (Z.log2 N + 1).
Proof.
  intros HN. unfold RN. destruct (Z.eq_dec (RN_shift N) 0) as [E|E].
  - rewrite E, rne_0, Z.pow_0_r. destruct (Z.log2_spec N HN). lia.
  - pose proof (RN_shift_nonneg N).
    pose proof (rne_bounds N (RN_shift N) ltac:(lia)) as [_ Hb].
    pose proof (RN_quot_upper N HN).
    replace (Z.log2 N + 1) with (53 + RN_shift N) by (unfold RN_shift in *; lia).
    rewrite Z.pow_add_r by lia. apply Z.mul_le_mono_nonneg_r; lia.
Qed.

Lemma RN_mono N M : 0 ≤ N → N ≤ M → RN N ≤ RN M.
Proof.
  intros HN HNM. destruct (Z.eq_dec N 0) as [->|].
  { rewrite RN_0. destruct (Z.eq_dec M 0) as [->|]; [done|].
    pose proof (RN_lower M ltac:(lia)).
    assert (0 < 2 ^ Z.log2 M) by pow2_pos.
    lia. }
  pose proof (Z.log2_le_mono N M HNM) as HL.
  destruct (Z.eq_dec (RN_shift N) (RN_shift M)) as [E|E].
  - unfold RN. rewrite E. apply Z.mul_le_mono_nonneg_r; [lia|].
    apply rne_mono; auto using RN_shift_nonneg.
  - etransitivity; [apply RN_upper; lia|].
    etransitivity; [|apply RN_lower; lia].
    apply Z.pow_le_mono_r; unfold RN_shift in E; lia.
Qed.

(** Integers that already have 53 significant bits are not changed. *)
Lemma RN_exact q k : 0 ≤ q < 2 ^ 53 → 0 ≤ k → RN (q * 2 ^ k) = q * 2 ^ k.
Proof.
  intros Hq Hk. destruct (Z.eq_dec q 0) as [->|Hq0]; [done|].
  assert (Hl : Z.log2 (q * 2 ^ k) = Z.log2 q + k).
  { rewrite <- (Z.shiftl_mul_pow2 q k) by lia. rewrite Z.log2_shiftl; lia. }
  assert (Z.log2 q < 53) by (apply Z.log2_lt_pow2; lia).
  pose proof (Z.log2_nonneg q).
  set (s := RN_shift (q * 2 ^ k)). assert (Hs : 0 ≤ s ≤ k).
  { unfold s, RN_shift. rewrite Hl. lia. }
  unfold RN. fold s.
  replace (q * 2 ^ k) with (q * 2 ^ (k - s) * 2 ^ s).
  2: { rewrite <- Z.mul_assoc, <- Z.pow_add_r by lia. do 2 f_equal. lia. }
  f_equal. rewrite <- (rne_0 (q * 2 ^ (k - s))) at 2.
  rewrite <- (rne_shift_exact (q * 2 ^ (k - s)) 0 s) by lia. reflexivity.
Qed.

(** ** The rounding routine of the float library *)

(** Shifting a nonnegative mantissa right by one bit. *)
Lemma shr_1_nonneg m r s :
  0 ≤ m →
  shr_1 {| shr_m := m; shr_r := r; shr_s := s |} =
  {| shr_m := m / 2; shr_r := Z.odd m; shr_s := r || s |}.
Proof.
  intros Hm. rewrite <- Z.div2_div. by destruct m as [|[p|p|]|p].
Qed.

(** The record after shifting [m] right by [n] bits. *)
Definition shr_state (m n : Z) : shr_record :=
  {| shr_m := m / 2 ^ n;
     shr_r := (0 <? n) && Z.odd (m / 2 ^ (n - 1));
     shr_s := (0 <? n) && negb (m mod 2 ^ (n - 1) =? 0) |}.

Lemma shr_state_step m n :
  0 ≤ m → 0 ≤ n → shr_1 (shr_state m n) = shr_state m (n + 1).
Proof.
  intros Hm Hn. unfold shr_state at 1.
  rewrite shr_1_nonneg by (apply Z.div_pos; [lia|pow2_pos]).
  unfold shr_state. replace (n + 1 - 1) with n by lia.
  rewrite (proj2 (Z.ltb_lt 0 (n + 1))) by lia. cbn [andb].
  f_equal.
  - rewrite Z.pow_add_r by lia. rewrite Z.div_div by lia. reflexivity.
  - destruct (Z.eq_dec n 0) as [->|Hn0].
    { cbn. by rewrite Z.mod_1_r. }
    rewrite (proj2 (Z.ltb_lt 0 n)) by lia. cbn [andb].
    pose proof (pow2_pred n ltac:(lia)) as Hp.
    assert (0 < 2 ^ (n - 1)) by pow2_pos.
    rewrite Hp, Z.rem_mul_r by lia. rewrite Zmod_odd.
    pose proof (Z.mod_pos_bound m (2 ^ (n - 1)) ltac:(lia)).
    destruct (Z.odd (m / 2 ^ (n - 1))); cbn.
    + symmetry. rewrite negb_true_iff. apply Z.eqb_neq. lia.
    + do 2 f_equal. lia.
Qed.

Lemma shr_state_iter m p n :
  0 ≤ m → 0 ≤ n → iter_pos shr_1 p (shr_state m n) = shr_state m (n + Zpos p).
Proof.
  intros Hm. revert n. induction p as [p IH|p IH|]; intros n Hn; cbn [iter_pos].
  - rewrite shr_state_step by lia. rewrite !IH by lia. f_equal. lia.
  - rewrite !IH by lia. f_equal. lia.
  - by rewrite shr_state_step.
Qed.

(** Rounding the shifted record is [rne]. *)
Lemma round_shr_state m n :
  0 ≤ m → 0 ≤ n →
  round_nearest_even (shr_m (shr_state m n)) (loc_of_shr_record (shr_state m n)) = rne m n.
Proof.
  intros Hm Hn. destruct (Z.eq_dec n 0) as [->|Hn0].
  { rewrite rne_0. cbn. apply Z.div_1_r. }
  unfold shr_state, rne. rewrite (proj2 (Z.ltb_lt 0 n)) by lia. cbn [andb shr_m].
  pose proof (pow2_pred n ltac:(lia)) as Hp.
  assert (0 < 2 ^ (n - 1)) by pow2_pos.
  assert (Hr : m mod 2 ^ n = m mod 2 ^ (n - 1) + 2 ^ (n - 1) * (m / 2 ^ (n - 1) mod 2)).
  { rewrite Hp. apply Z.rem_mul_r; lia. }
  pose proof (Z.mod_pos_bound m (2 ^ (n - 1)) ltac:(lia)).
  rewrite Zmod_odd in Hr.
  destruct (Z.odd (m / 2 ^ (n - 1)));
  destruct (Z.eqb_spec (m mod 2 ^ (n - 1)) 0) as [E0|E0]; cbn [loc_of_shr_record negb round_nearest_even];
  destruct (Z.ltb_spec (2 * (m mod 2 ^ n)) (2 ^ n)); try lia;
  destruct (Z.eqb_spec (2 * (m mod 2 ^ n)) (2 ^ n)); lia.
Qed.

Lemma digits2_pos_log2 p : Zpos (digits2_pos p) = Z.log2 (Zpos p) + 1.
Proof.
  induction p as [p IH|p IH|]; cbn [digits2_pos]; [| |done].
  - rewrite Pos2Z.inj_succ, IH, Pos2Z.inj_xI, Z.log2_succ_double; lia.
  - rewrite Pos2Z.inj_succ, IH, Pos2Z.inj_xO, Z.log2_double; lia.
Qed.

Lemma Zdigits2_log2 m : 0 < m → Zdigits2 m = Z.log2 m + 1.
Proof. destruct m; try lia. intros _. apply digits2_pos_log2. Qed.

Lemma fexp_64 e : fexp 53 1024 e = Z.max (e - 53) (-1074).
Proof. reflexivity. Qed.

Lemma shr_nonneg m e n :
  0 ≤ m → 0 ≤ n →
  shr {| shr_m := m; shr_r := false; shr_s := false |} e n = (shr_state m n, e + n).
Proof.
  intros Hm Hn.
  assert ({| shr_m := m; shr_r := false; shr_s := false |} = shr_state m 0) as ->
    by (unfold shr_state; cbn; by rewrite Z.div_1_r).
  destruct n as [|p|p]; [|cbn [shr]; by rewrite shr_state_iter|lia].
  cbn. by rewrite Z.add_0_r.
Qed.

Definition f64_top : Z := 2 ^ 2098.

(** [x] has sign [s] and counts [V] units of [2^-1074], infinity when [V] overflows. *)
Definition rounds_to (s : bool) (V : Z) (x : f64) : Prop :=
  match x with
  | S754_finite s' m e => s' = s ∧ bounded 53 1024 m e = true ∧ Zpos m * 2 ^ (e + 1074) = V
  | S754_infinity s' => s' = s ∧ f64_top ≤ V
  | _ => False
  end.

Lemma bounded_64 m e :
  bounded 53 1024 m e = true ↔
  Z.max (Z.log2 (Zpos m) + 1 + e - 53) (-1074) = e ∧ e ≤ 971.
Proof.
  unfold bounded, canonical_mantissa.
  rewrite andb_true_iff, Z.eqb_eq, Z.leb_le, fexp_64, digits2_pos_log2.
  replace (1024 - 53) with 971 by lia. reflexivity.
Qed.

(** Normalising a 53-bit quotient after rounding (the carry to [2^53] included). *)
Lemma renormalise s q ex V :
  0 < q ≤ 2 ^ 53 → -1074 ≤ ex → (2 ^ 52 ≤ q ∨ ex = -1074) →
  q * 2 ^ (ex + 1074) = V →
  rounds_to s V
    (let '(mrs, e') := shr_fexp 53 1024 q ex loc_Exact in
     match shr_m mrs with
     | Z0 => S754_zero s
     | Zpos m => if e' <=? 1024 - 53 then S754_finite s m e' else S754_infinity s
     | _ => S754_nan
     end).
Proof.
  intros Hq Hex Hn HV. unfold shr_fexp. rewrite Zdigits2_log2, fexp_64 by lia.
  replace (1024 - 53) with 971 by lia.
  destruct (Z.eq_dec q (2 ^ 53)) as [->|Hne].
  - replace (Z.log2 (2 ^ 53)) with 53 by reflexivity.
    replace (Z.max (53 + 1 + ex - 53) (-1074) - ex) with 1 by lia.
    cbn [shr_record_of_loc]. rewrite shr_nonneg by lia.
    assert (Hv : 2 ^ 52 * 2 ^ (ex + 1 + 1074) = V).
    { rewrite <- HV, <- !Z.pow_add_r by lia. f_equal. lia. }
    change (shr_m (shr_state (2 ^ 53) 1)) with (2 ^ 52).
    change (2 ^ 52) with (Zpos (2 ^ 52)) in *. cbv beta iota.
    destruct (Z.leb_spec (ex + 1) 971); cbn [rounds_to].
    + split_and!; [done| |done]. apply bounded_64.
      replace (Z.log2 (Zpos (2 ^ 52))) with 52 by reflexivity. lia.
    + split; [done|]. rewrite <- Hv. unfold f64_top. change (Zpos (2 ^ 52)) with (2 ^ 52).
      rewrite <- Z.pow_add_r by lia. apply Z.pow_le_mono_r; lia.
  - assert (Z.log2 q < 53) as Hl by (apply Z.log2_lt_pow2; lia).
    assert (Hs : ∀ mrs, shr mrs ex (Z.max (Z.log2 q + 1 + ex - 53) (-1074) - ex) = (mrs, ex)).
    { intros mrs. destruct (Z.max _ _ - ex) eqn:E; [done|lia|done]. }
    rewrite Hs. cbn [shr_record_of_loc shr_m]. destruct q as [|p|p]; [lia| |lia].
    assert (Hlow : 2 ^ 52 ≤ Zpos p → 52 ≤ Z.log2 (Zpos p)) by (intros; apply Z.log2_le_pow2; lia).
    destruct (Z.leb_spec ex 971); cbn [rounds_to].
    + split_and!; [done| |done]. apply bounded_64. pose proof (Z.log2_nonneg (Zpos p)). lia.
    + split; [done|]. rewrite <- HV. unfold f64_top.
      replace 2098 with (52 + 2046) by lia. rewrite Z.pow_add_r by lia.
      apply Z.mul_le_mono_nonneg; [lia|lia|lia|]. apply Z.pow_le_mono_r; lia.
Qed.

Lemma round_aux_exact s m e :
  0 < m → -1074 ≤ e → e ≤ Z.max (Z.log2 m + 1 + e - 53) (-1074) →
  rounds_to s (RN (m * 2 ^ (e + 1074))) (binary_round_aux 53 1024 s m e loc_Exact).
Proof.
  intros Hm He Hn. unfold binary_round_aux.
  unfold shr_fexp at 1. rewrite Zdigits2_log2, fexp_64 by lia.
  set (n := Z.max _ _ - e). assert (Hn0 : 0 ≤ n) by lia.
  cbn [shr_record_of_loc]. rewrite shr_nonneg by lia. rewrite round_shr_state by lia.
  set (N := m * 2 ^ (e + 1074)).
  assert (HN : 0 < N) by (apply Z.mul_pos_pos; [lia|pow2_pos]).
  assert (Hk : RN_shift N = n + (e + 1074)).
  { unfold RN_shift, N. rewrite <- Z.shiftl_mul_pow2, Z.log2_shiftl by lia. lia. }
  assert (Hq : rne m n = rne N (RN_shift N)).
  { rewrite Hk. unfold N. symmetry. apply rne_shift_exact; lia. }
  pose proof (rne_bounds N _ (RN_shift_nonneg N)) as Hb.
  pose proof (RN_quot_upper N HN) as Hup.
  assert (Hlow : 0 < rne N (RN_shift N) ∧ (2 ^ 52 ≤ rne N (RN_shift N) ∨ RN_shift N = 0)).
  { pose proof (RN_shift_nonneg N). destruct (Z.eq_dec (RN_shift N) 0) as [E|E].
    - rewrite E, rne_0. lia.
    - pose proof (RN_quot_lower N HN ltac:(lia)). lia. }
  apply renormalise; rewrite ?Hq; [lia|lia| |].
  - destruct Hlow as [_ [?|?]]; [by left|right; lia].
  - unfold RN. do 2 f_equal. lia.
Qed.

Lemma binary_round_spec s m e :
  -1074 ≤ e →
  rounds_to s (RN (Zpos m * 2 ^ (e + 1074))) (binary_round 53 1024 s m e).
Proof.
  intros He. unfold binary_round. rewrite fexp_64, digits2_pos_log2.
  set (ex := Z.max (Z.log2 (Zpos m) + 1 + e - 53) (-1074)).
  unfold shl_align. destruct (ex - e) as [|d|d] eqn:Ed.
  1,2: apply round_aux_exact; lia.
  assert (Hm : Zpos (Pos.iter xO m d) = Zpos m * 2 ^ Zpos d).
  { rewrite <- Z.shiftl_mul_pow2 by lia. cbn [Z.shiftl].
    apply (Pos.iter_swap_gen _ _ Zpos xO (Z.mul 2)). by intros. }
  replace (Zpos m * 2 ^ (e + 1074)) with (Zpos (Pos.iter xO m d) * 2 ^ (ex + 1074)).
  2: { rewrite Hm, <- Z.mul_assoc, <- Z.pow_add_r by lia. do 2 f_equal. lia. }
  apply round_aux_exact; [lia|lia|].
  rewrite Hm, <- Z.shiftl_mul_pow2, Z.log2_shiftl by lia. lia.
Qed.

(** ** Nonnegative floats as integers

    [units] counts a nonnegative float in multiples of [2^-1074]; infinity
    counts as [2^2098], the first integer that rounds to it. *)

Definition f64_valid (x : f64) : bool := valid_binary 53 1024 x.

Definition f64_nonneg (x : f64) : bool :=
  f64_valid x &&
  match x with
  | S754_zero _ | S754_infinity false | S754_finite false _ _ => true
  | _ => false
  end.

Definition units (x : f64) : Z :=
  match x with
  | S754_finite _ m e => Zpos m * 2 ^ (e + 1074)
  | S754_infinity _ => f64_top
  | _ => 0
  end.

(** A finite positive float has a 53-bit mantissa and a value below [2^2098]. *)
Lemma bounded_val m e :
  bounded 53 1024 m e = true →
  -1074 ≤ e ≤ 971 ∧ Zpos m < 2 ^ 53 ∧ (2 ^ 52 ≤ Zpos m ∨ e = -1074).
Proof.
  rewrite bounded_64. intros [H1 H2]. pose proof (Z.log2_spec (Zpos m) ltac:(lia)) as [Hl Hu].
  split_and!; [lia|lia| |].
  - eapply Z.lt_le_trans; [exact Hu|]. apply Z.pow_le_mono_r; lia.
  - destruct (Z.eq_dec e (-1074)); [by right|left].
    etransitivity; [|exact Hl]. apply Z.pow_le_mono_r; lia.
Qed.

Lemma f64_top_pos : 0 < f64_top.
Proof. by vm_compute. Qed.

Lemma units_lt_top m e : bounded 53 1024 m e = true → Zpos m * 2 ^ (e + 1074) < f64_top.
Proof.
  intros (He & Hm & _)%bounded_val. unfold f64_top.
  replace 2098 with (53 + 2045) by lia. rewrite (Z.pow_add_r 2 53 2045) by lia.
  assert (0 < 2 ^ (e + 1074)) by pow2_pos.
  eapply Z.lt_le_trans; [apply Z.mul_lt_mono_pos_r; [done|exact Hm]|].
  apply Z.mul_le_mono_nonneg_l; [lia|]. apply Z.pow_le_mono_r; lia.
Qed.

Lemma units_pos m e : bounded 53 1024 m e = true → 0 < Zpos m * 2 ^ (e + 1074).
Proof. intros (He & _)%bounded_val. apply Z.mul_pos_pos; [lia|pow2_pos]. Qed.

Lemma units_nonneg x : f64_nonneg x = true → 0 ≤ units x ≤ f64_top.
Proof.
  unfold f64_nonneg. rewrite andb_true_iff. intros [Hv Hs].
  destruct x as [?|[]| |[] m e]; try done; cbn [units].
  pose proof (units_lt_top _ _ Hv). pose proof (units_pos _ _ Hv). lia.
Qed.

(** The lexicographic comparison of canonical floats compares values. *)
Lemma finite_compare m1 e1 m2 e2 :
  bounded 53 1024 m1 e1 = true → bounded 53 1024 m2 e2 = true →
  match e1 ?= e2 with
  | Lt => Lt | Gt => Gt | Eq => Pos.compare_cont Eq m1 m2
  end = (Zpos m1 * 2 ^ (e1 + 1074) ?= Zpos m2 * 2 ^ (e2 + 1074)).
Proof.
  assert (HW : ∀ m1 e1 m2 e2, bounded 53 1024 m1 e1 = true → bounded 53 1024 m2 e2 = true →
    e1 < e2 → Zpos m1 * 2 ^ (e1 + 1074) < Zpos m2 * 2 ^ (e2 + 1074)).
  { clear. intros m1 e1 m2 e2 (H1 & Hm1 & _)%bounded_val (H2 & Hm2 & Hl2)%bounded_val Hlt.
    assert (0 < 2 ^ (e1 + 1074)) by pow2_pos.
    apply Z.lt_le_trans with (2 ^ 53 * 2 ^ (e1 + 1074)); [apply Z.mul_lt_mono_pos_r; lia|].
    apply Z.le_trans with (2 ^ 52 * 2 ^ (e2 + 1074)).
    - rewrite <- !Z.pow_add_r by lia. apply Z.pow_le_mono_r; lia.
    - apply Z.mul_le_mono_nonneg_r; [apply Z.pow_nonneg; lia|lia]. }
  intros H1 H2. destruct (Z.compare_spec e1 e2) as [->|Hlt|Hgt].
  - change (Pos.compare_cont Eq m1 m2) with (Zpos m1 ?= Zpos m2).
    destruct (bounded_val _ _ H2) as [He _].
    apply Zmult_compare_compat_r. apply Z.lt_gt. pow2_pos.
  - symmetry. apply Z.compare_lt_iff. eauto.
  - symmetry. apply Z.compare_gt_iff. eauto.
Qed.

Lemma compare_units x y :
  f64_nonneg x = true → f64_nonneg y = true → SFcompare x y = Some (units x ?= units y).
Proof.
  unfold f64_nonneg. rewrite !andb_true_iff. intros [Hx Sx] [Hy Sy].
  destruct x as [?|[]| |[] m1 e1]; try done; destruct y as [?|[]| |[] m2 e2]; try done;
    cbn [SFcompare units]; f_equal.
  - symmetry. apply Z.compare_lt_iff. by apply units_pos.
  - symmetry. apply Z.compare_gt_iff. by apply units_lt_top.
  - symmetry. apply Z.compare_gt_iff. by apply units_pos.
  - symmetry. apply Z.compare_lt_iff. by apply units_lt_top.
  - by apply finite_compare.
Qed.

Lemma f64_le_units x y :
  f64_nonneg x = true → f64_nonneg y = true → f64_le x y = (units x <=? units y).
Proof.
  intros Hx Hy. unfold f64_le, SFleb. rewrite compare_units by done.
  unfold Z.leb. by destruct (units x ?= units y).
Qed.

Lemma f64_lt_units x y :
  f64_nonneg x = true → f64_nonneg y = true → f64_lt x y = (units x <? units y).
Proof.
  intros Hx Hy. unfold f64_lt, SFltb. rewrite compare_units by done.
  unfold Z.ltb. by destruct (units x ?= units y).
Qed.

(** Rounding to a number of units gives a nonnegative float. *)
Lemma rounds_to_units V x :
  rounds_to false V x → f64_nonneg x = true ∧ units x = Z.min f64_top V.
Proof.
  destruct x as [?|s| |s m e]; cbn [rounds_to]; try done.
  - intros [-> H]. split; [done|]. cbn [units]. lia.
  - intros (-> & Hb & Hv). split; [unfold f64_nonneg; cbn; by rewrite Hb|].
    cbn [units]. rewrite Hv. pose proof (units_lt_top _ _ Hb). lia.
Qed.

Lemma RN_top : RN f64_top = f64_top.
Proof. unfold f64_top. rewrite <- (Z.mul_1_l (2 ^ 2098)). apply RN_exact; lia. Qed.

Lemma RN_units x : f64_nonneg x = true → RN (units x) = units x.
Proof.
  unfold f64_nonneg. rewrite andb_true_iff. intros [Hv Hs].
  destruct x as [?|[]| |[] m e]; try discriminate Hs; cbn [units]; auto using RN_0, RN_top.
  destruct (bounded_val _ _ Hv) as (He & Hm & _). apply RN_exact; lia.
Qed.

Lemma RN_top_mono N : f64_top ≤ N → f64_top ≤ RN N.
Proof.
  intros HN. rewrite <- RN_top at 1. pose proof f64_top_pos. apply RN_mono; lia.
Qed.

Lemma shl_align_min m e ez :
  ez ≤ e → Zpos (fst (shl_align m e ez)) = Zpos m * 2 ^ (e - ez).
Proof.
  intros H. unfold shl_align. destruct (ez - e) as [|d|d] eqn:Ed; [|lia|].
  - replace (e - ez) with 0 by lia. cbn [fst]. lia.
  - cbn [fst]. replace (e - ez) with (Zpos d) by lia.
    rewrite <- Z.shiftl_mul_pow2 by lia. cbn [Z.shiftl].
    apply (Pos.iter_swap_gen _ _ Zpos xO (Z.mul 2)). by intros.
Qed.

(** Addition of nonnegative floats: the exact sum, rounded. *)
Lemma f64_add_units x y :
  f64_nonneg x = true → f64_nonneg y = true →
  f64_nonneg (f64_add x y) = true ∧
  units (f64_add x y) = Z.min f64_top (RN (units x + units y)).
Proof.
  intros Hx Hy. pose proof (units_nonneg x Hx) as Bx. pose proof (units_nonneg y Hy) as By.
  pose proof (RN_units x Hx) as Rx. pose proof (RN_units y Hy) as Ry.
  pose proof (RN_top_mono (units x + units y)) as HT.
  destruct (andb_prop _ _ Hx) as [Vx Sx], (andb_prop _ _ Hy) as [Vy Sy].
  destruct x as [sx|[]| |[] m1 e1]; try discriminate Sx;
    destruct y as [sy|[]| |[] m2 e2]; try discriminate Sy;
    unfold f64_add; cbn [SFadd].
  all: try (split; [done|]; cbn [units] in *;
            rewrite ?Z.add_0_r, ?Z.add_0_l in *; lia).
  { destruct sx, sy; (split; [done|]); cbn [units]; rewrite Z.add_0_l, RN_0;
      pose proof f64_top_pos; lia. }
  destruct (bounded_val _ _ Vx) as [He1 _], (bounded_val _ _ Vy) as [He2 _].
  cbn [cond_Zopp units]. rewrite !shl_align_min by lia.
  set (ez := Z.min e1 e2).
  assert (HS : (Zpos m1 * 2 ^ (e1 - ez) + Zpos m2 * 2 ^ (e2 - ez)) * 2 ^ (ez + 1074)
             = Zpos m1 * 2 ^ (e1 + 1074) + Zpos m2 * 2 ^ (e2 + 1074)).
  { rewrite Z.mul_add_distr_r, <- !Z.mul_assoc, <- !Z.pow_add_r by lia.
    f_equal; do 2 f_equal; lia. }
  assert (Hp : 0 < Zpos m1 * 2 ^ (e1 - ez) + Zpos m2 * 2 ^ (e2 - ez)).
  { apply Z.add_pos_pos; apply Z.mul_pos_pos; try lia; pow2_pos. }
  destruct (_ + _) as [|p|p] eqn:E in HS, Hp |- *; [lia| |lia].
  rewrite <- HS. apply rounds_to_units.
  apply binary_round_spec. lia.
Qed.

(** ** Order and monotonicity on nonnegative floats *)

Lemma f64_add_nonneg x y :
  f64_nonneg x = true → f64_nonneg y = true → f64_nonneg (f64_add x y) = true.
Proof. intros. by apply f64_add_units. Qed.

Lemma f64_add_mono x y v w :
  f64_nonneg x = true → f64_nonneg y = true → f64_nonneg v = true → f64_nonneg w = true →
  f64_le x y = true → f64_le v w = true → f64_le (f64_add x v) (f64_add y w) = true.
Proof.
  intros Hx Hy Hv Hw. rewrite !f64_le_units, !Z.leb_le by auto using f64_add_nonneg.
  intros Hle Hle'. rewrite (proj2 (f64_add_units x v Hx Hv)), (proj2 (f64_add_units y w Hy Hw)).
  pose proof (units_nonneg _ Hx). pose proof (units_nonneg _ Hv).
  pose proof (RN_mono (units x + units v) (units y + units w)). lia.
Qed.

Lemma f64_le_refl x : f64_nonneg x = true → f64_le x x = true.
Proof. intros. rewrite f64_le_units, Z.leb_le by done. lia. Qed.

Lemma f64_le_trans x y z :
  f64_nonneg x = true → f64_nonneg y = true → f64_nonneg z = true →
  f64_le x y = true → f64_le y z = true → f64_le x z = true.
Proof. intros. rewrite f64_le_units, Z.leb_le in * by done. lia. Qed.

Lemma f64_not_lt x y :
  f64_nonneg x = true → f64_nonneg y = true → f64_lt x y = false ↔ f64_le y x = true.
Proof. intros. rewrite f64_le_units, f64_lt_units, Z.leb_le, Z.ltb_ge by done. done. Qed.

Lemma f64_lt_le x y :
  f64_nonneg x = true → f64_nonneg y = true → f64_lt x y = true → f64_le x y = true.
Proof. intros ? ?. rewrite f64_le_units, f64_lt_units, Z.leb_le, Z.ltb_lt by done. lia. Qed.

Lemma f64_zero_le x : f64_nonneg x = true → f64_le f64_zero x = true.
Proof.
  intros. rewrite f64_le_units, Z.leb_le by done. cbn [units f64_zero]. by apply units_nonneg.
Qed.

#[export] Hint Resolve f64_le_refl f64_add_nonneg f64_zero_le : engine.

(** ** Division of one

    What the logistic function needs: the reciprocal of a float that is at
    least one is a float between zero and one. *)

Definition f64_one : f64 := f64_of_Z 1.

Lemma units_one : units f64_one = 2 ^ 1074.
Proof. vm_compute. reflexivity. Qed.

(** One shift step and rounding keep a mantissa within one of the quotient. *)
Lemma shr_iter_m p mrs :
  0 ≤ shr_m mrs → shr_m (iter_pos shr_1 p mrs) = shr_m mrs / 2 ^ Zpos p.
Proof.
  revert mrs. induction p as [p IH|p IH|]; intros mrs Hm; cbn [iter_pos].
  - destruct mrs as [m r s]. cbn [shr_m] in Hm. rewrite shr_1_nonneg by done.
    assert (0 ≤ m / 2) by (apply Z.div_pos; lia).
    assert (0 ≤ m / 2 / 2 ^ Zpos p) by (apply Z.div_pos; [lia|pow2_pos]).
    rewrite IH, IH; cbn [shr_m]; rewrite ?IH; cbn [shr_m]; try done.
    rewrite !Z.div_div by (try lia; pow2_pos). f_equal.
    replace (Zpos p~1) with (1 + Zpos p + Zpos p) by lia.
    rewrite !(Z.pow_add_r 2) by lia. ring.
  - assert (0 ≤ shr_m mrs / 2 ^ Zpos p) by (apply Z.div_pos; [lia|pow2_pos]).
    rewrite IH, IH; rewrite ?IH; try done.
    rewrite !Z.div_div by (try lia; pow2_pos). f_equal.
    rewrite <- Z.pow_add_r by lia. f_equal. lia.
  - destruct mrs as [m r s]. cbn [shr_m] in *. by rewrite shr_1_nonneg.
Qed.

Lemma round_nearest_even_bounds m l :
  m ≤ round_nearest_even m l ≤ m + 1 ∧ (l = loc_Exact → round_nearest_even m l = m).
Proof. destruct l as [|[]]; cbn; try destruct (Z.even m); split; try lia; done. Qed.

(** Rounding a positive mantissa that is not to be shifted left. *)
Lemma round_aux_bounds q e l :
  0 < q →
  let ex := Z.max (Z.log2 q + 1 + e - 53) (-1074) in
  e ≤ ex → 2 ^ (ex - e) ≤ q →
  ∃ q1, q1 ≤ q / 2 ^ (ex - e) + 1 ∧
        (l = loc_Exact → q1 = rne q (ex - e)) ∧
        rounds_to false (q1 * 2 ^ (ex + 1074)) (binary_round_aux 53 1024 false q e l).
Proof.
  intros Hq ex Hn Hge. unfold binary_round_aux, shr_fexp at 1.
  rewrite Zdigits2_log2, fexp_64 by lia. fold ex. set (n := ex - e) in *.
  assert (Hshr : ∃ mrs, shr (shr_record_of_loc q l) e n = (mrs, ex) ∧
            shr_m mrs = q / 2 ^ n ∧ (l = loc_Exact → mrs = shr_state q n)).
  { destruct n as [|p|p] eqn:En; [| |lia]; cbn [shr]; eexists.
    - split_and!; [f_equal; lia| |].
      + rewrite Z.pow_0_r, Z.div_1_r. by destruct l as [|[]].
      + intros ->. unfold shr_state. cbn. by rewrite Z.div_1_r.
    - split_and!; [f_equal; lia| |].
      + rewrite shr_iter_m; destruct l as [|[]]; cbn [shr_record_of_loc shr_m]; (lia || done).
      + intros ->. cbn [shr_record_of_loc].
        pose proof (shr_nonneg q e (Zpos p) ltac:(lia) ltac:(lia)) as H.
        cbn [shr] in H. by injection H. }
  destruct Hshr as (mrs & -> & Hm & Hex). cbv beta iota.
  pose proof (round_nearest_even_bounds (shr_m mrs) (loc_of_shr_record mrs)) as [Hq1 _].
  eexists. split_and!; [|intros El|apply renormalise; [| | |reflexivity]].
  - rewrite Hm in Hq1. rewrite Hm. lia.
  - rewrite (Hex El). apply round_shr_state; lia.
  - rewrite Hm in Hq1 |- *. 
    assert (q / 2 ^ n < 2 ^ 53).
    { apply Z.div_lt_upper_bound; [pow2_pos|]. rewrite <- Z.pow_add_r by lia.
      destruct (Z.log2_spec q Hq) as [_ Hu]. eapply Z.lt_le_trans; [exact Hu|].
      apply Z.pow_le_mono_r; lia. }
    assert (1 ≤ q / 2 ^ n) by (apply Z.div_le_lower_bound; [pow2_pos|lia]). lia.
  - lia.
  - destruct (Z.eq_dec ex (-1074)); [by right|left]. rewrite Hm in Hq1 |- *.
    assert (2 ^ 52 ≤ q / 2 ^ n); [|lia].
    apply Z.div_le_lower_bound; [pow2_pos|]. rewrite <- Z.pow_add_r by lia.
    destruct (Z.log2_spec q Hq) as [Hl _]. etransitivity; [|exact Hl].
    apply Z.pow_le_mono_r; lia.
Qed.

(** The quotient mantissa of [x / y] for finite [x] and [y] with [x] at most [y]. *)
Lemma div_quotient m1 e1 m2 e2 s :
  Zpos m1 * 2 ^ (e1 + 1074) ≤ Zpos m2 * 2 ^ (e2 + 1074) → -1074 ≤ e1 → -1074 ≤ e2 →
  0 ≤ s → 0 ≤ Z.log2 (Zpos m1) + s - Z.log2 (Zpos m2) - 1 → 0 ≤ s - e1 + e2 →
  let q := (Zpos m1 * 2 ^ s) / Zpos m2 in
  let r := (Zpos m1 * 2 ^ s) mod Zpos m2 in
  2 ^ (Z.log2 (Zpos m1) + s - Z.log2 (Zpos m2) - 1) ≤ q ≤ 2 ^ (s - e1 + e2) ∧
  (r ≠ 0 → q < 2 ^ (s - e1 + e2)).
Proof.
  intros Hd He1 He2 Hs Hl H0 q r. set (N := Zpos m1 * 2 ^ s) in *.
  pose proof (Z.div_mod N (Zpos m2) ltac:(lia)) as Hdm. fold q r in Hdm.
  pose proof (Z.mod_pos_bound N (Zpos m2) ltac:(lia)) as Hr. fold r in Hr.
  destruct (Z.log2_spec (Zpos m2) ltac:(lia)) as [_ Hu].
  destruct (Z.log2_spec (Zpos m1) ltac:(lia)) as [Hu1 _].
  pose proof (Z.log2_nonneg (Zpos m1)). pose proof (Z.log2_nonneg (Zpos m2)).
  set (d := Z.log2 (Zpos m1) + s - Z.log2 (Zpos m2) - 1) in *.
  assert (Hq : 2 ^ d ≤ q).
  { apply Z.div_le_lower_bound; [lia|].
    apply Z.le_trans with (2 ^ Z.succ (Z.log2 (Zpos m2)) * 2 ^ d).
    - apply Z.mul_le_mono_nonneg_r; [apply Z.pow_nonneg; lia|lia].
    - rewrite <- Z.pow_add_r by lia. subst N d.
      transitivity (2 ^ Z.log2 (Zpos m1) * 2 ^ s).
      + rewrite <- Z.pow_add_r by lia. apply Z.pow_le_mono_r; lia.
      + apply Z.mul_le_mono_nonneg_r; [apply Z.pow_nonneg; lia|done]. }
  assert (0 < q) by (pose proof (Z.pow_pos_nonneg 2 d); lia).
  assert (HP : N ≤ Zpos m2 * 2 ^ (s - e1 + e2)).
  { apply (Z.mul_le_mono_pos_r _ _ (2 ^ (e1 + 1074))); [pow2_pos|]. subst N.
    transitivity (2 ^ s * (Zpos m2 * 2 ^ (e2 + 1074))).
    - rewrite (Z.mul_comm (Zpos m1)), <- Z.mul_assoc.
      apply Z.mul_le_mono_nonneg_l; [apply Z.pow_nonneg; lia|done].
    - rewrite (Z.mul_comm (2 ^ s)), <- !Z.mul_assoc, <- !Z.pow_add_r by lia.
      apply Z.eq_le_incl. do 2 f_equal. lia. }
  split; [split; [done|]|]; nia.
Qed.

Lemma f64_one_eq : f64_one = S754_finite false 4503599627370496 (-52).
Proof. vm_compute. reflexivity. Qed.

Lemma log2_d_bounds m2 e2 :
  bounded 53 1024 m2 e2 = true → 2 ^ 1074 ≤ Zpos m2 * 2 ^ (e2 + 1074) →
  0 ≤ Z.log2 (Zpos m2) + e2 ≤ 1023.
Proof.
  intros Hb Hd. apply bounded_64 in Hb.
  destruct (Z.log2_spec (Zpos m2) ltac:(lia)) as [_ Hu]. pose proof (Z.log2_nonneg (Zpos m2)).
  split; [|lia].
  destruct (Z.lt_ge_cases (Z.log2 (Zpos m2) + e2) 0); [|done].
  assert (Zpos m2 * 2 ^ (e2 + 1074) < 2 ^ 1074); [|lia].
  apply Z.lt_le_trans with (2 ^ Z.succ (Z.log2 (Zpos m2)) * 2 ^ (e2 + 1074)).
  - apply Z.mul_lt_mono_pos_r; [pow2_pos|done].
  - rewrite <- Z.pow_add_r by lia. apply Z.pow_le_mono_r; lia.
Qed.

Lemma new_location_exact n r : new_location n r = loc_Exact ↔ r = 0.
Proof.
  unfold new_location, new_location_even, new_location_odd.
  destruct (Z.even n), (Z.eqb_spec r 0); split; done || lia.
Qed.

Lemma div_eucl_pair a b : Z.div_eucl a b = (a / b, a mod b).
Proof. unfold Z.div, Z.modulo. by destruct (Z.div_eucl a b). Qed.

(** Rounding a quotient that does not exceed one. *)
Lemma recip_round q e' m2 r (P : Prop) E :
  e' ≤ Z.max (E - 53) (-1074) → -1023 ≤ E ≤ 0 →
  2 ^ (E - e' - 1) ≤ q → q ≤ 2 ^ (- e') → (r ≠ 0 → q < 2 ^ (- e')) →
  (∀ V, rounds_to false V (binary_round_aux 53 1024 false q e' (new_location m2 r)) →
        V ≤ 2 ^ 1074 → P) → P.
Proof.
  intros He HE Hq1 Hq2 Hr Hgoal.
  assert (0 < q) as Hq0 by (pose proof (Z.pow_pos_nonneg 2 (E - e' - 1)); lia).
  assert (Hlo : E - e' - 1 ≤ Z.log2 q).
  { apply Z.log2_le_pow2; lia. }
  assert (Hhi : Z.log2 q ≤ - e').
  { rewrite <- (Z.log2_pow2 (- e')) by lia. by apply Z.log2_le_mono. }
  destruct (round_aux_bounds q e' (new_location m2 r) Hq0) as (q1 & Hb & Hex & HV).
  { lia. }
  { destruct (Z.log2_spec q Hq0) as [Hl _]. etransitivity; [|exact Hl].
    apply Z.pow_le_mono_r; lia. }
  set (ex := Z.max (Z.log2 q + 1 + e' - 53) (-1074)) in *. apply (Hgoal _ HV).
  assert (Hsplit : 2 ^ (- e') = 2 ^ (- ex) * 2 ^ (ex - e')).
  { rewrite <- Z.pow_add_r by lia. f_equal. lia. }
  assert (q1 ≤ 2 ^ (- ex)).
  { destruct (Z.eq_dec r 0) as [E0|E0].
    - rewrite Hex by (by apply new_location_exact).
      rewrite <- (rne_0 (2 ^ (- ex))), <- (rne_shift_exact (2 ^ (- ex)) 0 (ex - e')) by lia.
      rewrite <- Hsplit, Z.add_0_l. apply rne_mono; lia.
    - assert (q / 2 ^ (ex - e') < 2 ^ (- ex)); [|lia].
      apply Z.div_lt_upper_bound; [pow2_pos|]. specialize (Hr E0). lia. }
  apply Z.le_trans with (2 ^ (- ex) * 2 ^ (ex + 1074)).
  - apply Z.mul_le_mono_nonneg_r; [apply Z.pow_nonneg; lia|done].
  - rewrite <- Z.pow_add_r by lia. apply Z.pow_le_mono_r; lia.
Qed.

(** The quotient of two finite floats of at least one, the first at most the
    second, lies between zero and one. *)
Lemma f64_div_unit m1 e1 m2 e2 :
  let x := S754_finite false m1 e1 in
  let y := S754_finite false m2 e2 in
  bounded 53 1024 m1 e1 = true → bounded 53 1024 m2 e2 = true →
  2 ^ 1074 ≤ units x → units x ≤ units y →
  f64_nonneg (f64_div x y) = true ∧ f64_le (f64_div x y) f64_one = true.
Proof.
  intros x y V1 V2 Hx Hle. cbn [units x y] in Hx, Hle.
  assert (Hgoal : ∀ V, rounds_to false V (f64_div x y) → V ≤ 2 ^ 1074 →
    f64_nonneg (f64_div x y) = true ∧ f64_le (f64_div x y) f64_one = true).
  { intros V [Hn Hu]%rounds_to_units HV. split; [done|].
    rewrite f64_le_units, Z.leb_le, units_one by done. lia. }
  unfold f64_div, x, y in *. cbn [SFdiv xorb] in *. clear x y.
  unfold SFdiv_core_binary in *. rewrite !Zdigits2_log2, fexp_64 in * by lia.
  destruct (bounded_val _ _ V1) as (He1 & _), (bounded_val _ _ V2) as (He2 & _).
  pose proof (log2_d_bounds _ _ V1 Hx) as HL1.
  pose proof (log2_d_bounds _ _ V2 ltac:(lia)) as HL2.
  assert (HLL : Z.log2 (Zpos m1) + e1 ≤ Z.log2 (Zpos m2) + e2).
  { pose proof (Z.log2_le_mono _ _ Hle) as Hlog.
    rewrite <- !Z.shiftl_mul_pow2, !Z.log2_shiftl in Hlog by lia. lia. }
  set (L1 := Z.log2 (Zpos m1)) in *. set (L2 := Z.log2 (Zpos m2)) in *.
  assert (0 ≤ L1 ∧ 0 ≤ L2) as [HL10 HL20] by (split; apply Z.log2_nonneg).
  set (e' := Z.min _ _) in *. set (sh := e1 - e2 - e') in *.
  assert (Hm : match sh with Z0 => Zpos m1 | Zpos _ => Z.shiftl (Zpos m1) sh
               | Zneg _ => 0 end = Zpos m1 * 2 ^ sh).
  { destruct sh eqn:E; [lia| |lia]. rewrite <- E. rewrite Z.shiftl_mul_pow2 by lia. done. }
  rewrite Hm, div_eucl_pair in *. clear Hm. cbv beta iota in *.
  destruct (div_quotient m1 e1 m2 e2 sh Hle) as [[Hq1 Hq2] Hr]; [lia..|].
  fold L1 L2 in Hq1. replace (sh - e1 + e2) with (- e') in * by lia.
  eapply (recip_round _ e' (Zpos m2) _ _ (L1 + e1 - (L2 + e2)));
    [lia|lia| |exact Hq2|exact Hr|exact Hgoal].
  etransitivity; [|exact Hq1]. apply Z.pow_le_mono_r; lia.
Qed.

Lemma f64_recip_bounds d :
  f64_nonneg d = true → f64_le f64_one d = true →
  f64_nonneg (f64_div f64_one d) = true ∧ f64_le (f64_div f64_one d) f64_one = true.
Proof.
  intros Hd Hle. destruct (andb_prop _ _ Hd) as [Vd Sd].
  rewrite f64_le_units, Z.leb_le, units_one in Hle by done.
  destruct d as [s|[]| |[] m2 e2]; try discriminate Sd.
  { cbn [units] in Hle. by vm_compute in Hle. }
  { split; by vm_compute. }
  rewrite f64_one_eq. apply f64_div_unit; [done|done| |]; rewrite <- f64_one_eq, units_one; lia.
Qed.

(** ** Converting counts *)

Lemma f64_of_Z_units n :
  0 < n ≤ usize_max →
  ∃ m e, f64_of_Z n = S754_finite false m e ∧ bounded 53 1024 m e = true ∧
         units (f64_of_Z n) = RN (n * 2 ^ 1074) ∧ 2 ^ 1074 ≤ RN (n * 2 ^ 1074).
Proof.
  intros [Hn Hmax]. destruct n as [|p|p]; [lia| |lia].
  pose proof (binary_round_spec false p 0 ltac:(lia)) as Hr. rewrite Z.add_0_l in Hr.
  assert (Hlow : 2 ^ 1074 ≤ RN (Zpos p * 2 ^ 1074)).
  { rewrite <- (Z.mul_1_l (2 ^ 1074)) at 1. rewrite <- (RN_exact 1 1074) by lia.
    apply RN_mono; [apply Z.mul_nonneg_nonneg; [lia|apply Z.pow_nonneg; lia]|].
    apply Z.mul_le_mono_nonneg_r; [apply Z.pow_nonneg; lia|lia]. }
  assert (Htop : RN (Zpos p * 2 ^ 1074) < f64_top).
  { apply Z.le_lt_trans with (RN (1 * 2 ^ 1138)).
    - apply RN_mono; [apply Z.mul_nonneg_nonneg; [lia|apply Z.pow_nonneg; lia]|].
      rewrite Z.mul_1_l. replace 1138 with (64 + 1074) by lia. rewrite (Z.pow_add_r 2 64 1074) by lia.
      apply Z.mul_le_mono_nonneg_r; [apply Z.pow_nonneg; lia|]. unfold usize_max in Hmax. lia.
    - rewrite RN_exact, Z.mul_1_l by lia. apply Z.pow_lt_mono_r; lia. }
  change (f64_of_Z (Zpos p)) with (binary_round 53 1024 false p 0).
  destruct (binary_round 53 1024 false p 0) as [?|s| |s m e]; cbn [rounds_to] in Hr; try done; [lia|].
  destruct Hr as (-> & Hb & Hv). exists m, e. auto.
Qed.

(** The ratio of two counts, the first at most the second. *)
Lemma f64_ratio_unit a b :
  0 ≤ a ≤ b → 0 < b ≤ usize_max →
  f64_nonneg (f64_div (f64_of_Z a) (f64_of_Z b)) = true ∧
  f64_le (f64_div (f64_of_Z a) (f64_of_Z b)) f64_one = true.
Proof.
  intros [Ha Hab] Hb. destruct (f64_of_Z_units b Hb) as (m2 & e2 & E2 & B2 & U2 & _).
  destruct (Z.eq_dec a 0) as [->|Hn0].
  { change (f64_of_Z 0) with f64_zero. rewrite E2. split; by vm_compute. }
  destruct (f64_of_Z_units a) as (m1 & e1 & E1 & B1 & U1 & H1); [lia|].
  assert (HM : RN (a * 2 ^ 1074) ≤ RN (b * 2 ^ 1074)).
  { apply RN_mono; [apply Z.mul_nonneg_nonneg; [lia|apply Z.pow_nonneg; lia]|].
    apply Z.mul_le_mono_nonneg_r; [apply Z.pow_nonneg; lia|lia]. }
  rewrite E1, E2 in *. apply f64_div_unit; [done|done|lia|lia].
Qed.
