(* ===== verification/Text.v ===== *)
(** * Text: what the engine uses of Rust's string library

    [str::contains], [str::parse::<usize>] and [format!] of integers and of
    floats with a fixed number of digits, with a splitter that stands for the
    reader of the CSV files.  Proved: the text of a [usize] parses back, and
    formatted numbers contain no separator. *)

From stdpp Require Import base strings pretty list.
From Stdlib Require Import ZArith Lia Ascii.
From S2P Require Import Prelude F64.

Module Text.

(** ** Substrings *)

Fixpoint starts_with (p s : string) : bool :=
  match p, s with
  | EmptyString, _ => true
  | String a p, String b s => bool_decide (a = b) && starts_with p s
  | _, _ => false
  end.

(** [s.contains(p)] *)
Fixpoint contains (s p : string) : bool :=
  starts_with p s ||
  match s with
  | EmptyString => false
  | String _ s => contains s p
  end.

(** ** Parsing [usize] *)

Definition digit (c : ascii) : option Z :=
  let n := Z.of_nat (nat_of_ascii c) in
  if ((48 <=? n) && (n <=? 57))%Z then Some (n - 48)%Z else None.

(** The digit loop, with its overflow check. *)
Fixpoint parse_digits (acc : Z) (s : string) : option Z :=
  match s with
  | EmptyString => Some acc
  | String c s =>
      d ← digit c;
      let acc' := (acc * 10 + d)%Z in
      if (acc' <=? usize_max)%Z then parse_digits acc' s else None
  end.

(** [s.parse::<usize>().ok()]: an optional plus sign, then at least one digit. *)
Definition parse_usize (s : string) : option Z :=
  match s with
  | EmptyString => None
  | String "+" EmptyString => None
  | String "+" s' => parse_digits 0 s'
  | String _ _ => parse_digits 0 s
  end.

(** ** Formatting *)

Definition usize_text (n : nat) : string := pretty (N.of_nat n).

Fixpoint zeros (n : nat) : string :=
  match n with 0 => EmptyString | S n => String "0" (zeros n) end.

Definition pad (k : nat) (s : string) : string := zeros (k - String.length s) +:+ s.

(** [{:.k}] of a nonnegative number counted in [10^-k]. *)
Definition fixed_text (k : nat) (n : N) : string :=
  let b := (10 ^ N.of_nat k)%N in
  pretty (n / b)%N +:+ match k with 0 => EmptyString | _ => "." +:+ pad k (pretty (n mod b)%N) end.

(** [m * 2^e] in units of [10^-k], rounded to nearest, ties to even. *)
Definition fixed_units (k : nat) (m : positive) (e : Z) : N :=
  let n := (Zpos m * 10 ^ Z.of_nat k)%Z in
  Z.to_N (if (0 <=? e)%Z then Z.shiftl n e else rne n (- e)).

(** [format!("{:.k}", x)] *)
Definition fmt_fixed (k : nat) (x : f64) : string :=
  let sign s := if (s : bool) then "-" else EmptyString in
  match x with
  | S754_nan => "NaN"
  | S754_infinity s => sign s +:+ "inf"
  | S754_zero s => sign s +:+ fixed_text k 0
  | S754_finite s m e => sign s +:+ fixed_text k (fixed_units k m e)
  end%string.

Example fmt_tie_even : fmt_fixed 1 (f64_lit 25 2) = "0.2".
Proof. vm_compute. reflexivity. Qed.

Example fmt_benefit : fmt_fixed 4 (f64_sub (f64_lit 5 1) (f64_lit 123456 4)) = "-11.8456".
Proof. vm_compute. reflexivity. Qed.

(** ** Reading separated fields *)

Fixpoint split_on (c : ascii) (s : string) : list string :=
  match s with
  | EmptyString => [EmptyString]
  | String a s =>
      if bool_decide (a = c) then EmptyString :: split_on c s
      else match split_on c s with
           | [] => [String a EmptyString]
           | x :: xs => String a x :: xs
           end
  end.

(** Every character satisfies [P]. *)
Fixpoint all_chars (P : ascii → bool) (s : string) : bool :=
  match s with
  | EmptyString => true
  | String a s => P a && all_chars P s
  end.

Definition free_of (c : ascii) : string → bool := all_chars (λ a, negb (bool_decide (a = c))).

Lemma text_nil_app s : EmptyString +:+ s = s.
Proof. done. Qed.

Lemma text_cons_app a s1 s2 : String a s1 +:+ s2 = String a (s1 +:+ s2).
Proof. done. Qed.

Lemma all_chars_app P s1 s2 : all_chars P (s1 +:+ s2) = all_chars P s1 && all_chars P s2.
Proof. induction s1 as [|a s1 IH]; cbn; [done|]. by rewrite <- andb_assoc, <- IH. Qed.

Lemma all_chars_impl (P Q : ascii → bool) s :
  (∀ a, P a = true → Q a = true) → all_chars P s = true → all_chars Q s = true.
Proof.
  intros HPQ. induction s as [|a s IH]; cbn; [done|].
  rewrite !andb_true_iff. intros [Ha Hs]. auto.
Qed.

Lemma split_on_free c s : free_of c s = true → split_on c s = [s].
Proof.
  unfold free_of. induction s as [|a s IH]; cbn; [done|]. rewrite andb_true_iff, negb_true_iff.
  intros [-> Hs]. by rewrite IH.
Qed.

Lemma split_on_cons c s1 s2 :
  free_of c s1 = true → split_on c (s1 +:+ String c s2) = s1 :: split_on c s2.
Proof.
  unfold free_of. induction s1 as [|a s IH]; rewrite ?text_nil_app, ?text_cons_app;
    cbn [all_chars split_on]; [by rewrite bool_decide_true|].
  rewrite andb_true_iff, negb_true_iff. intros [-> Hs]. by rewrite IH.
Qed.

(** Splitting a text with one more separator. *)
Lemma split_on_ne c s : split_on c s ≠ [].
Proof. destruct s; cbn [split_on]; [done|]. case_bool_decide; [done|]. by destruct (split_on c s). Qed.

Lemma split_on_app c s1 s2 : split_on c (s1 +:+ String c s2) = split_on c s1 ++ split_on c s2.
Proof.
  induction s1 as [|a s IH]; rewrite ?text_nil_app, ?text_cons_app; cbn [split_on].
  { by rewrite bool_decide_true. }
  case_bool_decide; rewrite IH; [done|]. pose proof (split_on_ne c s). by destruct (split_on c s).
Qed.

(** ** Digits *)

Definition is_digit (c : ascii) : bool := bool_decide (is_Some (digit c)).

Lemma pretty_char_digit x : (x < 10)%N → digit (pretty_N_char x) = Some (Z.of_N x).
Proof.
  intros Hx.
  assert (x = 0 ∨ x = 1 ∨ x = 2 ∨ x = 3 ∨ x = 4 ∨ x = 5 ∨ x = 6 ∨ x = 7 ∨ x = 8 ∨ x = 9)%N
    as Hc by lia.
  by destruct Hc as [-> | [-> | [-> | [-> | [-> | [-> | [-> | [-> | [-> | ->]]]]]]]]].
Qed.

Lemma pretty_char_is_digit x : is_digit (pretty_N_char (x mod 10)) = true.
Proof.
  unfold is_digit. rewrite bool_decide_true; [done|].
  rewrite pretty_char_digit; [eauto|]. by apply N.mod_lt.
Qed.

Lemma pretty_go_digits x s :
  all_chars is_digit s = true → all_chars is_digit (pretty_N_go x s) = true.
Proof.
  revert s. induction (N.lt_wf_0 x) as [x _ IH]; intros s Hs.
  destruct (decide (x = 0)%N) as [->|Hx]; [by rewrite pretty_N_go_0|].
  rewrite pretty_N_go_step by lia. apply IH; [apply N.div_lt; lia|].
  cbn [all_chars]. by rewrite pretty_char_is_digit.
Qed.

Lemma pretty_digits (x : N) : all_chars is_digit (pretty x) = true.
Proof.
  unfold pretty, pretty_N. destruct (decide (x = 0)%N); [done|]. by apply pretty_go_digits.
Qed.

Lemma pretty_nonempty (x : N) : ∃ c s, pretty x = String c s.
Proof.
  destruct (pretty x) as [|c s] eqn:E; [|eauto]. exfalso.
  assert (H : ∀ y s, s ≠ EmptyString → pretty_N_go y s ≠ EmptyString).
  { intros y. induction (N.lt_wf_0 y) as [y _ IH]; intros s Hs.
    destruct (decide (y = 0)%N) as [->|Hy]; [by rewrite pretty_N_go_0|].
    rewrite pretty_N_go_step by lia. apply IH; [apply N.div_lt; lia|done]. }
  revert E. unfold pretty, pretty_N. destruct (decide (x = 0)%N) as [->|Hx]; [done|].
  rewrite pretty_N_go_step by lia. by apply H.
Qed.

Lemma parse_digits_go x s :
  (Z.of_N x <= usize_max)%Z → parse_digits 0 (pretty_N_go x s) = parse_digits (Z.of_N x) s.
Proof.
  revert s. induction (N.lt_wf_0 x) as [x _ IH]; intros s Hx.
  destruct (decide (x = 0)%N) as [->|Hx0]; [by rewrite pretty_N_go_0|].
  rewrite pretty_N_go_step by lia.
  pose proof (N.div_mod x 10 ltac:(lia)) as Hdm. pose proof (N.mod_lt x 10 ltac:(lia)) as Hm.
  pose proof (N.le_0_l (x mod 10)). rewrite IH by (try apply N.div_lt; lia). cbn [parse_digits].
  rewrite pretty_char_digit by done. cbn [mbind option_bind].
  replace (Z.of_N (x / 10) * 10 + Z.of_N (x mod 10))%Z with (Z.of_N x) by lia.
  destruct (Z.leb_spec (Z.of_N x) usize_max); [done|lia].
Qed.

Lemma parse_usize_digits s :
  s ≠ EmptyString → all_chars is_digit s = true → parse_usize s = parse_digits 0 s.
Proof.
  destruct s as [|c s]; [done|]. intros _ [Hc _]%andb_true_iff.
  assert (c ≠ "+"%char) by (by intros ->).
  destruct c as [[] [] [] [] [] [] [] []]; try done.
Qed.

(** The text of a machine integer parses back to it. *)
Lemma parse_usize_text n :
  (Z.of_nat n <= usize_max)%Z → parse_usize (usize_text n) = Some (Z.of_nat n).
Proof.
  intros Hn. unfold usize_text.
  destruct (pretty_nonempty (N.of_nat n)) as (c & s & E).
  rewrite parse_usize_digits; [|by rewrite E|apply pretty_digits].
  unfold pretty, pretty_N. destruct (decide (N.of_nat n = 0)%N) as [E0|_].
  - by replace n with 0 by lia.
  - rewrite parse_digits_go by lia. cbn. f_equal. lia.
Qed.

Lemma parse_digits_range acc s v :
  (0 <= acc)%Z → parse_digits acc s = Some v → (0 <= v)%Z.
Proof.
  revert acc. induction s as [|c s IH]; intros acc Hacc; cbn [parse_digits]; [by intros [= <-]|].
  intros (d & Hd & Hs)%bind_Some. unfold digit in Hd.
  destruct (Z.leb_spec 48 (Z.of_nat (nat_of_ascii c))); [|done].
  destruct (Z.leb_spec (Z.of_nat (nat_of_ascii c)) 57); [|done]. injection Hd as <-.
  destruct (_ <=? usize_max)%Z; [|done]. eapply IH; [|exact Hs]. lia.
Qed.

Lemma parse_usize_nonneg s v : parse_usize s = Some v → (0 <= v)%Z.
Proof.
  destruct s as [|c s]; [done|]. intros Hp.
  assert (parse_digits 0 (String c s) = Some v ∨ parse_digits 0 s = Some v) as [Hd|Hd];
    [|by eapply parse_digits_range..].
  revert Hp. destruct c as [[] [] [] [] [] [] [] []]; auto. destruct s; auto.
Qed.

(** ** Formatted numbers contain no separator *)

Definition number_char (c : ascii) : bool :=
  is_digit c || bool_decide (c = ".")%char || bool_decide (c = "-")%char.

Lemma digits_number s : all_chars is_digit s = true → all_chars number_char s = true.
Proof. apply all_chars_impl. intros a Ha. unfold number_char. by rewrite Ha. Qed.

Lemma zeros_digits n : all_chars is_digit (zeros n) = true.
Proof. by induction n. Qed.

Lemma fixed_text_number k n : all_chars number_char (fixed_text k n) = true.
Proof.
  unfold fixed_text, pad. destruct k;
    rewrite ?all_chars_app, ?(digits_number _ (pretty_digits _)), ?(digits_number _ (zeros_digits _));
    done.
Qed.

Lemma number_free c s : number_char c = false → all_chars number_char s = true → free_of c s = true.
Proof.
  intros Hc. apply all_chars_impl. intros a Ha.
  rewrite bool_decide_false; [done|]. intros ->. congruence.
Qed.

Lemma fmt_fixed_free c k x :
  number_char c = false → free_of c "NaN" = true → free_of c "inf" = true →
  free_of c (fmt_fixed k x) = true.
Proof.
  intros Hc Hn Hi.
  pose proof (λ n, number_free c _ Hc (fixed_text_number k n)) as Hf.
  pose proof (number_free c "-" Hc eq_refl) as Hd.
  destruct x as [[]|[]| |[] m e]; unfold free_of in *; cbn [fmt_fixed];
    rewrite ?all_chars_app, ?Hf, ?Hd, ?Hn, ?Hi; done.
Qed.

Lemma usize_text_free c n : number_char c = false → free_of c (usize_text n) = true.
Proof. intros Hc. apply number_free; [done|]. apply digits_number, pretty_digits. Qed.

#[export] Hint Resolve fmt_fixed_free usize_text_free : engine.

End Text.
