(* ===== verification/GbtModel.v ===== *)
(** * Gradient-boosted-tree inference (physical-optimizer/src/bf_model.rs)

    A tree is an array of nodes linked by [i32] indices, walked by a loop that
    ends at a leaf.  The loop is modelled with fuel; [walk_tree_refines] shows
    that on arrays whose children follow their parents (what the exporter
    writes) the walk returns, within as many steps as the array has nodes, the
    value of the inductive decision tree the array encodes.  The probability is
    proved to lie in [0, 1], and the process-wide model cache to be
    initialised once. *)

From stdpp Require Import base list strings.
From Stdlib Require Import ZArith Lia.
From S2P Require Import Prelude F64.

#[local] Open Scope Z_scope.

Module Gbt.

(** ** Data *)

Record Node := {
  feature : Z;                 (* i32 *)
  threshold : option f64;
  left : Z;                    (* i32 *)
  right : Z;                   (* i32 *)
  value : option f64;
}.

Record Tree := { nodes : list Node }.

Record GbtModel := {
  feature_names : list string;
  n_estimators : Z;
  learning_rate : f64;
  init_score : f64;
  trees : list Tree;
}.

(** ** Inference *)

(** [x as usize] for an [i32]: sign extension, modulo [2^64]. *)
Definition i32_as_usize (x : Z) : Z := x mod 2 ^ 64.

(** [slice.get(i)] for a [usize] index. *)
Definition slice_get {A} (v : list A) (i : Z) : option A :=
  if decide (0 ≤ i < Z.of_nat (length v)) then v !! Z.to_nat i else None.

(** What a loop with fuel ends in: a result, a panic (index out of bounds) or
    the fuel running out. *)
Inductive walk_result := Done (v : f64) | Panicked | OutOfFuel.

Fixpoint walk_loop (fuel : nat) (ns : list Node) (features : list f64) (idx : Z) : walk_result :=
  match fuel with
  | O => OutOfFuel
  | S fuel =>
      match slice_get ns idx with
      | None => Panicked
      | Some node =>
          if decide (feature node = -1) then Done (default f64_zero (value node))
          else
            let feat_val := default f64_zero (slice_get features (i32_as_usize (feature node))) in
            let thr := default f64_zero (threshold node) in
            walk_loop fuel ns features
              (if f64_le feat_val thr then i32_as_usize (left node) else i32_as_usize (right node))
      end
  end.

Definition walk_tree (fuel : nat) (ns : list Node) (features : list f64) : walk_result :=
  walk_loop fuel ns features 0.

(** The score loop of [predict_proba]; [None] when a walk does not return. *)
Fixpoint score_loop (fuel : nat) (lr : f64) (features : list f64) (ts : list Tree) (score : f64)
    : option f64 :=
  match ts with
  | [] => Some score
  | t :: ts =>
      match walk_tree fuel (nodes t) features with
      | Done v => score_loop fuel lr features ts (f64_add score (f64_mul lr v))
      | _ => None
      end
  end.

Section Proba.
(** [f64::exp]; the standard library leaves its precision unspecified. *)
Context (f64_exp : f64 → f64).

Definition sigmoid (score : f64) : f64 :=
  f64_div f64_one (f64_add f64_one (f64_exp (f64_neg score))).

Definition predict_proba (fuel : nat) (features : list f64) (model : GbtModel) : option f64 :=
  sigmoid <$> score_loop fuel (learning_rate model) features (trees model) (init_score model).
End Proba.

(** ** The global model cache

    [OnceLock<Option<GbtModel>>]: empty, or initialised with the outcome of the
    first load, a failure included.  Reading the file and parsing the JSON text
    are parameters. *)

Definition cache := option (option GbtModel).

Definition load_model_once (read_to_string : string → option string)
    (from_str : string → option GbtModel) (path : string) (c : cache) : option GbtModel * cache :=
  match c with
  | Some m => (m, c)
  | None => let m := read_to_string path ≫= from_str in (m, Some m)
  end.

(** ** Decision trees *)

Inductive dtree :=
| Leaf (v : f64)
| Split (feat : Z) (thr : f64) (l r : dtree).

Fixpoint eval_dtree (features : list f64) (t : dtree) : f64 :=
  match t with
  | Leaf v => v
  | Split f thr l r =>
      if f64_le (default f64_zero (slice_get features (i32_as_usize f))) thr
      then eval_dtree features l else eval_dtree features r
  end.

Fixpoint depth (t : dtree) : nat :=
  match t with Leaf _ => 1 | Split _ _ l r => S (Nat.max (depth l) (depth r)) end.

(** Node [i] of the array is the root of [t]. *)
Inductive encodes (ns : list Node) : Z → dtree → Prop :=
| enc_leaf i node :
    slice_get ns i = Some node → feature node = -1 →
    encodes ns i (Leaf (default f64_zero (value node)))
| enc_split i node l r :
    slice_get ns i = Some node → feature node ≠ -1 →
    encodes ns (i32_as_usize (left node)) l → encodes ns (i32_as_usize (right node)) r →
    encodes ns i (Split (feature node) (default f64_zero (threshold node)) l r).

(** Children come after their parent and inside the array. *)
Definition node_wf (len i : Z) (n : Node) : bool :=
  bool_decide (feature n = -1) ||
  bool_decide (i < left n < len) && bool_decide (i < right n < len).

Fixpoint nodes_wf (len i : Z) (ns : list Node) : bool :=
  match ns with
  | [] => true
  | n :: ns => node_wf len i n && nodes_wf len (i + 1) ns
  end.

Definition tree_wf (ns : list Node) : bool :=
  bool_decide (ns ≠ []) && bool_decide (Z.of_nat (length ns) ≤ 2 ^ 31) &&
  nodes_wf (Z.of_nat (length ns)) 0 ns.

(** ** Lemmas *)

Lemma slice_get_Some {A} (v : list A) i x :
  slice_get v i = Some x → 0 ≤ i < Z.of_nat (length v) ∧ v !! Z.to_nat i = Some x.
Proof. unfold slice_get. case_decide; [done|discriminate]. Qed.

Lemma slice_get_lt {A} (v : list A) i :
  0 ≤ i < Z.of_nat (length v) → ∃ x, slice_get v i = Some x.
Proof.
  intros H. unfold slice_get. rewrite decide_True by done.
  apply lookup_lt_is_Some. lia.
Qed.

Lemma nodes_wf_lookup len i ns k n :
  nodes_wf len i ns = true → ns !! k = Some n → node_wf len (i + Z.of_nat k) n = true.
Proof.
  revert i k. induction ns as [|m ns IH]; intros i k; cbn [nodes_wf]; [done|].
  rewrite andb_true_iff. intros [Hm Hns]. destruct k as [|k]; cbn [lookup list_lookup].
  - intros [= ->]. by rewrite Z.add_0_r.
  - intros Hk. specialize (IH _ _ Hns Hk).
    by replace (i + Z.of_nat (S k)) with (i + 1 + Z.of_nat k) by lia.
Qed.

Lemma tree_wf_node ns i n :
  tree_wf ns = true → slice_get ns i = Some n → feature n ≠ -1 →
  i < i32_as_usize (left n) < Z.of_nat (length ns) ∧
  i < i32_as_usize (right n) < Z.of_nat (length ns).
Proof.
  unfold tree_wf. rewrite !andb_true_iff, !bool_decide_eq_true. intros [[_ Hl] Hwf] [Hi Hk]%slice_get_Some Hf.
  pose proof (nodes_wf_lookup _ _ _ _ _ Hwf Hk) as Hn. unfold node_wf in Hn.
  rewrite orb_true_iff, andb_true_iff, !bool_decide_eq_true in Hn.
  destruct Hn as [?|[H1 H2]]; [done|]. unfold i32_as_usize.
  rewrite !Z.mod_small; lia.
Qed.

(** A well-formed array encodes a tree at every index, of bounded depth. *)
Lemma tree_wf_encodes ns i :
  tree_wf ns = true → 0 ≤ i < Z.of_nat (length ns) →
  ∃ t, encodes ns i t ∧ Z.of_nat (depth t) ≤ Z.of_nat (length ns) - i.
Proof.
  intros Hwf. remember (Z.to_nat (Z.of_nat (length ns) - i)) as k eqn:Hk.
  revert i Hk. induction k as [k IH] using lt_wf_ind. intros i Hk Hi.
  destruct (slice_get_lt ns i Hi) as [n Hn].
  destruct (decide (feature n = -1)) as [Hf|Hf].
  { exists (Leaf (default f64_zero (value n))). split; [by econstructor|]. cbn. lia. }
  destruct (tree_wf_node _ _ _ Hwf Hn Hf) as [HL HR].
  edestruct (IH (Z.to_nat (Z.of_nat (length ns) - i32_as_usize (left n)))) as (l & El & Dl);
    [lia|reflexivity|lia|].
  edestruct (IH (Z.to_nat (Z.of_nat (length ns) - i32_as_usize (right n)))) as (r & Er & Dr);
    [lia|reflexivity|lia|].
  eexists. split; [by eapply enc_split|]. cbn [depth]. lia.
Qed.

Lemma walk_loop_encodes fuel ns features i t :
  encodes ns i t → (depth t ≤ fuel)%nat →
  walk_loop fuel ns features i = Done (eval_dtree features t).
Proof.
  intros He. revert fuel. induction He as [i n Hn Hf|i n l r Hn Hf _ IHl _ IHr]; intros fuel Hd.
  - destruct fuel; [cbn in Hd; lia|]. cbn [walk_loop]. rewrite Hn. by rewrite decide_True.
  - destruct fuel; [cbn in Hd; lia|]. cbn [walk_loop depth eval_dtree] in *. rewrite Hn.
    rewrite decide_False by done. destruct (f64_le _ _); [apply IHl|apply IHr]; lia.
Qed.

Lemma walk_tree_wf ns fuel features :
  tree_wf ns = true → (length ns ≤ fuel)%nat →
  ∃ t, encodes ns 0 t ∧ walk_tree fuel ns features = Done (eval_dtree features t).
Proof.
  intros Hwf Hfuel. destruct (tree_wf_encodes ns 0 Hwf) as (t & He & Hd).
  { unfold tree_wf in Hwf. rewrite !andb_true_iff, !bool_decide_eq_true in Hwf.
    destruct Hwf as [[Hne _] _]. destruct ns; [done|]. cbn. lia. }
  exists t. split; [done|]. apply walk_loop_encodes; [done|lia].
Qed.

Definition model_wf (m : GbtModel) : bool := forallb (λ t, tree_wf (nodes t)) (trees m).

Definition model_fuel (m : GbtModel) : nat :=
  foldr Nat.max O (map (λ t, length (nodes t)) (trees m)).

Lemma score_loop_total ts fuel lr features score :
  forallb (λ t, tree_wf (nodes t)) ts = true →
  (foldr Nat.max O (map (λ t, length (nodes t)) ts) ≤ fuel)%nat →
  is_Some (score_loop fuel lr features ts score).
Proof.
  revert score. induction ts as [|t ts IH]; intros score; cbn [forallb map foldr score_loop]; [by eexists|].
  rewrite andb_true_iff. intros [Ht Hts] Hfuel.
  destruct (walk_tree_wf (nodes t) fuel features Ht) as (d & _ & ->); [lia|].
  apply IH; [done|lia].
Qed.

Lemma f64_one_nonneg : f64_nonneg f64_one = true.
Proof. by vm_compute. Qed.

Lemma sigmoid_bounds f64_exp score :
  f64_nonneg (f64_exp (f64_neg score)) = true →
  f64_nonneg (sigmoid f64_exp score) = true ∧ f64_le (sigmoid f64_exp score) f64_one = true.
Proof.
  intros He. pose proof f64_one_nonneg as H1.
  apply f64_recip_bounds; [auto with engine|].
  rewrite f64_le_units, Z.leb_le by auto with engine.
  rewrite (proj2 (f64_add_units _ _ H1 He)).
  pose proof (units_nonneg _ He). pose proof (units_nonneg _ H1).
  pose proof (RN_mono (units f64_one) (units f64_one + units (f64_exp (f64_neg score)))).
  pose proof (RN_units _ H1). lia.
Qed.

(** ** Properties *)

(** C27. Refinement of the array walk: on a well-formed node array the loop of
    [walk_tree] neither panics nor runs past [length ns] iterations, and returns
    the value of the decision tree that the array encodes, for every feature
    vector. *)
Theorem walk_tree_refines (ns : list Node) :
  tree_wf ns = true →
  ∃ t, encodes ns 0 t ∧
    ∀ fuel features, (length ns ≤ fuel)%nat →
      walk_tree fuel ns features = Done (eval_dtree features t).
Proof.
  intros Hwf. destruct (tree_wf_encodes ns 0 Hwf) as (t & He & Hd).
  { unfold tree_wf in Hwf. rewrite !andb_true_iff, !bool_decide_eq_true in Hwf.
    destruct Hwf as [[Hne _] _]. destruct ns; [done|]. cbn. lia. }
  exists t. split; [done|]. intros fuel features Hf.
  apply walk_loop_encodes; [done|lia].
Qed.

(** The two trees of the repository's test fixture. *)
Definition leaf (v : f64) : Node :=
  {| feature := -1; threshold := None; left := -1; right := -1; value := Some v |}.
Definition split_at (f : Z) (t : f64) : Node :=
  {| feature := f; threshold := Some t; left := 1; right := 2; value := None |}.
Definition fixture_tree1 : list Node :=
  [split_at 0 (f64_of_Z 100); leaf (f64_lit 5 1); leaf (f64_lit (-5) 1)].
Definition fixture_tree2 : list Node :=
  [split_at 1 (f64_of_Z 60); leaf (f64_lit 8 1); leaf (f64_lit (-8) 1)].
Definition fixture : GbtModel :=
  {| feature_names := ["build_cardinality"; "distinct_estimate"; "filter_size_bytes";
                       "build_time_ms"; "distinctness_ratio"]%string;
     n_estimators := 2; learning_rate := f64_lit 1 1; init_score := f64_zero;
     trees := [{| nodes := fixture_tree1 |}; {| nodes := fixture_tree2 |}] |}.

Lemma walk_tree_refines_witness :
  ∃ t, encodes fixture_tree1 0 t ∧
    ∀ fuel features, (3 ≤ fuel)%nat →
      walk_tree fuel fixture_tree1 features = Done (eval_dtree features t).
Proof. apply (walk_tree_refines fixture_tree1). vm_compute. reflexivity. Defined.

(** C28. On a model of well-formed trees the prediction returns, and whenever the
    accumulated score is a number the returned probability is a valid binary64
    number between 0 and 1.  [f64_exp] is any exponential that is nonnegative on
    numbers. *)
Theorem predict_proba_in_unit (f64_exp : f64 → f64) (m : GbtModel) (features : list f64) (fuel : nat) :
  (∀ x, x ≠ S754_nan → f64_nonneg (f64_exp x) = true) →
  model_wf m = true → (model_fuel m ≤ fuel)%nat →
  ∃ score, score_loop fuel (learning_rate m) features (trees m) (init_score m) = Some score ∧
    ∃ p, predict_proba f64_exp fuel features m = Some p ∧
      (score ≠ S754_nan → f64_nonneg p = true ∧ f64_le p f64_one = true).
Proof.
  intros Hexp Hwf Hfuel.
  destruct (score_loop_total (trees m) fuel (learning_rate m) features (init_score m) Hwf Hfuel)
    as [score Hs].
  exists score. split; [done|]. exists (sigmoid f64_exp score). split.
  - unfold predict_proba. by rewrite Hs.
  - intros Hnan. apply sigmoid_bounds. apply Hexp. by destruct score.
Qed.

(** A crude exponential, enough to instantiate the parameter. *)
Definition exp_step (x : f64) : f64 :=
  match x with
  | S754_nan => S754_nan
  | _ => if f64_le x f64_zero then f64_one else f64_of_Z 3
  end.

Lemma predict_proba_in_unit_witness :
  ∃ score, score_loop 3 (learning_rate fixture) (map f64_of_Z [50; 50; 100; 5; 1])
             (trees fixture) (init_score fixture) = Some score ∧
    ∃ p, predict_proba exp_step 3 (map f64_of_Z [50; 50; 100; 5; 1]) fixture = Some p ∧
      (score ≠ S754_nan → f64_nonneg p = true ∧ f64_le p f64_one = true).
Proof.
  apply (predict_proba_in_unit exp_step fixture); [|vm_compute; reflexivity|vm_compute; lia].
  intros x Hx. unfold exp_step. destruct x; try done; destruct (f64_le _ _); vm_compute; reflexivity.
Defined.

(** A process: loads with the file system and path of each moment. *)
Fixpoint load_all (from_str : string → option GbtModel)
    (calls : list ((string → option string) * string)) (c : cache) : list (option GbtModel) :=
  match calls with
  | [] => []
  | (read, path) :: calls =>
      let '(m, c') := load_model_once read from_str path c in m :: load_all from_str calls c'
  end.

Lemma load_all_cached from_str calls m :
  load_all from_str calls (Some m) = replicate (length calls) m.
Proof. induction calls as [|[read path] calls IH]; [done|]. cbn. by rewrite IH. Qed.

(** The model is loaded once per process: every call, with whatever path and
    at whatever later state of the file system, returns what the first call
    found, a failure to read or parse included. *)
Theorem load_model_once_first_wins (from_str : string → option GbtModel)
    (read : string → option string) (path : string)
    (calls : list ((string → option string) * string)) :
  load_all from_str ((read, path) :: calls) None =
  replicate (S (length calls)) (read path ≫= from_str).
Proof. cbn. by rewrite load_all_cached. Qed.

End Gbt.
