(* ===== verification/Knapsack.v ===== *)
(** * The filter budget: 0/1 knapsack (physical-optimizer/src/bloom_filter_transfer.rs)

    [knapsack_select] is transcribed with its mutable vectors, index checks and
    [usize] subtractions (a failed one is a panic).  Its dynamic program is
    related to a table defined by recursion on the candidates ([best]), from
    which follow that it never panics, that the selection fits the capacity,
    that it is optimal for the binary64 sum of the predicted probabilities, and
    how far the byte weights may exceed the budget because weights are counted
    in whole kilobytes. *)

From stdpp Require Import base list gmap strings.
From Stdlib Require Import ZArith Lia.
From S2P Require Import Prelude F64.

Module Knapsack.

Record MlCandidate := {
  key : string;
  build_col : string;
  probe_col : string;
  weight_bytes : Z;      (* usize *)
  pred_prob : f64;
}.

(** [|b| (b / 1024).max(1)] *)
Definition to_kb (b : Z) : nat := Z.to_nat (Z.max (b / 1024) 1).

(** Body of the inner loop at capacity [w] for candidate [i]. *)
Definition dp_step (i wi : nat) (vi : f64) (st : list f64 * list (list bool)) (w : nat)
    : option (list f64 * list (list bool)) :=
  let '(dp, chosen) := st in
  j ← usize_sub w wi;
  x ← vec_get dp j;
  let candidate := f64_add x vi in
  cur ← vec_get dp w;
  if f64_gt candidate cur then
    dp' ← vec_set dp w candidate;
    row ← vec_get chosen i;
    row' ← vec_set row w true;
    chosen' ← vec_set chosen i row';
    Some (dp', chosen')
  else Some (dp, chosen).

(** [(lo..=hi).rev()] *)
Definition rev_range (lo hi : nat) : list nat := rev (seq lo (S hi - lo)).

Definition dp_item (w_cap : nat) (ws : list nat) (vs : list f64)
    (st : list f64 * list (list bool)) (i : nat) : option (list f64 * list (list bool)) :=
  wi ← vec_get ws i;
  vi ← vec_get vs i;
  foldM (dp_step i wi vi) (rev_range wi w_cap) st.

(** Body of the traceback loop. *)
Definition trace_step (cs : list MlCandidate) (ws : list nat) (chosen : list (list bool))
    (st : gset string * nat) (i : nat) : option (gset string * nat) :=
  let '(selected, w) := st in
  row ← vec_get chosen i;
  b ← vec_get row w;
  if (b : bool) then
    c ← vec_get cs i;
    wi ← vec_get ws i;
    w' ← usize_sub w wi;
    Some ({[ key c ]} ∪ selected, w')
  else Some (selected, w).

Definition knapsack_select (cs : list MlCandidate) (budget_bytes : Z) : option (gset string) :=
  if bool_decide (cs = []) || bool_decide (budget_bytes = 0%Z) then Some ∅
  else
    let n := length cs in
    let w_cap := to_kb budget_bytes in
    let ws := map (λ c, to_kb (weight_bytes c)) cs in
    let vs := map pred_prob cs in
    let dp := replicate (w_cap + 1) f64_zero in
    let chosen := replicate n (replicate (w_cap + 1) false) in
    st ← foldM (dp_item w_cap ws vs) (seq 0 n) (dp, chosen);
    res ← foldM (trace_step cs ws (snd st)) (rev (seq 0 n)) (∅, w_cap);
    Some (fst res).

(** ** Specification *)

(** A selection is a list of booleans, one per candidate. *)
Definition total_kb (cs : list MlCandidate) (sel : list bool) : nat :=
  sum_list_with (λ p : MlCandidate * bool, if p.2 then to_kb (weight_bytes p.1) else 0) (zip cs sel).

Definition total_bytes (cs : list MlCandidate) (sel : list bool) : Z :=
  foldr (λ (p : MlCandidate * bool) acc, if p.2 then weight_bytes p.1 + acc else acc)%Z 0%Z (zip cs sel).

(** The predicted benefit of a selection, summed in candidate order. *)
Definition benefit (cs : list MlCandidate) (sel : list bool) : f64 :=
  foldl (λ acc (p : MlCandidate * bool), if p.2 then f64_add acc (pred_prob p.1) else acc)
    f64_zero (zip cs sel).

Definition selected_keys (cs : list MlCandidate) (sel : list bool) : gset string :=
  list_to_set (omap (λ p : MlCandidate * bool, if p.2 then Some (key p.1) else None) (zip cs sel)).

Definition well_scored (cs : list MlCandidate) : Prop :=
  Forall (λ c, f64_nonneg (pred_prob c) = true) cs.

(** ** The table the loops compute *)

Abbreviation item := (nat * f64)%type.

(** [rows] are the items in reverse order: the head is the last one processed. *)
Fixpoint best (rows : list item) (w : nat) : f64 :=
  match rows with
  | [] => f64_zero
  | (wi, vi) :: r =>
      let keep := best r w in
      if decide (wi ≤ w) then
        let c := f64_add (best r (w - wi)) vi in if f64_gt c keep then c else keep
      else keep
  end.

Definition take_item (wi : nat) (vi : f64) (r : list item) (w : nat) : bool :=
  bool_decide (wi ≤ w) && f64_gt (f64_add (best r (w - wi)) vi) (best r w).

Lemma best_cons wi vi r w :
  best ((wi, vi) :: r) w =
  if take_item wi vi r w then f64_add (best r (w - wi)) vi else best r w.
Proof.
  cbn [best]. unfold take_item. case_decide.
  - rewrite bool_decide_true by done. cbn. reflexivity.
  - by rewrite bool_decide_false.
Qed.

(** The items chosen at capacity [w], in the order of [rows]. *)
Fixpoint trace (rows : list item) (w : nat) : list bool :=
  match rows with
  | [] => []
  | (wi, vi) :: r =>
      if take_item wi vi r w then true :: trace r (w - wi) else false :: trace r w
  end.

Fixpoint rows_kb (rows : list item) (sel : list bool) : nat :=
  match rows, sel with
  | (wi, _) :: r, b :: sel => (if b then wi else 0) + rows_kb r sel
  | _, _ => 0
  end.

Fixpoint rows_benefit (rows : list item) (sel : list bool) : f64 :=
  match rows, sel with
  | (_, vi) :: r, b :: sel =>
      if b then f64_add (rows_benefit r sel) vi else rows_benefit r sel
  | _, _ => f64_zero
  end.

Lemma length_trace rows w : length (trace rows w) = length rows.
Proof. revert w. induction rows as [|[wi vi] r IH]; intros w; cbn; [done|]. destruct (take_item _ _ _ _); cbn; by rewrite IH. Qed.

Lemma trace_kb rows w : rows_kb rows (trace rows w) ≤ w.
Proof.
  revert w. induction rows as [|[wi vi] r IH]; intros w; cbn [trace rows_kb]; [lia|].
  destruct (take_item wi vi r w) eqn:E; cbn [rows_kb].
  - unfold take_item in E. apply andb_true_iff in E as [E _].
    apply bool_decide_eq_true in E. specialize (IH (w - wi)). lia.
  - apply IH.
Qed.

Lemma trace_benefit rows w : rows_benefit rows (trace rows w) = best rows w.
Proof.
  revert w. induction rows as [|[wi vi] r IH]; intros w; [done|].
  rewrite best_cons. cbn [trace]. destruct (take_item wi vi r w); cbn [rows_benefit]; by rewrite IH.
Qed.

Definition rows_ok (rows : list item) : Prop := Forall (λ p, f64_nonneg (p.2) = true) rows.

Lemma best_nonneg rows w : rows_ok rows → f64_nonneg (best rows w) = true.
Proof.
  intros H. revert w. induction H as [|[wi vi] r Hv _ IH]; intros w; [done|].
  rewrite best_cons. destruct (take_item _ _ _ _); auto with engine.
Qed.

Lemma rows_benefit_nonneg rows sel : rows_ok rows → f64_nonneg (rows_benefit rows sel) = true.
Proof.
  intros H. revert sel. induction H as [|[wi vi] r Hv _ IH]; intros [|[] sel]; cbn [rows_benefit]; auto with engine.
Qed.

Lemma best_cons_ge wi vi r w :
  rows_ok ((wi, vi) :: r) →
  f64_le (best r w) (best ((wi, vi) :: r) w) = true ∧
  (wi ≤ w → f64_le (f64_add (best r (w - wi)) vi) (best ((wi, vi) :: r) w) = true).
Proof.
  intros Hok. inversion Hok as [|? ? Hv Hr]; subst. cbn [snd] in Hv.
  pose proof (best_nonneg r w Hr) as H1.
  pose proof (f64_add_nonneg _ _ (best_nonneg r (w - wi) Hr) Hv) as H2.
  rewrite best_cons. destruct (take_item wi vi r w) eqn:E; unfold take_item in E.
  - apply andb_true_iff in E as [_ E]. split; intros; auto with engine. by apply f64_lt_le.
  - split; [auto with engine|]. intros Hw. rewrite bool_decide_true in E by done. cbn in E.
    by apply f64_not_lt.
Qed.

(** [best] bounds every selection that fits. *)
Lemma best_optimal rows sel w :
  rows_ok rows → length sel = length rows → rows_kb rows sel ≤ w →
  f64_le (rows_benefit rows sel) (best rows w) = true.
Proof.
  intros Hok. revert sel w. induction rows as [|[wi vi] r IH]; intros [|b sel] w Hlen Hw; try done.
  destruct (best_cons_ge wi vi r w Hok) as [Hk Ht].
  inversion Hok as [|? ? Hv Hr]; subst. cbn [snd rows_kb rows_benefit] in *.
  pose proof (rows_benefit_nonneg r sel Hr). pose proof (best_nonneg _ w Hok).
  destruct b.
  - pose proof (best_nonneg r (w - wi) Hr).
    eapply f64_le_trans; [..|apply Ht; lia]; auto with engine.
    apply f64_add_mono; auto with engine. apply IH; [done|cbn in *; lia|lia].
  - pose proof (best_nonneg r w Hr).
    eapply f64_le_trans; [..|exact Hk]; auto with engine.
Qed.

(** ** The loops compute the table *)

Lemma rev_seq_S lo k : rev (seq lo (S k)) = (lo + k) :: rev (seq lo k).
Proof. by rewrite seq_S, rev_app_distr. Qed.

Definition dp_state (n cap : nat) (F : nat → f64) (C : nat → nat → bool)
    : list f64 * list (list bool) :=
  (tab (cap + 1) F, tab n (λ j, tab (cap + 1) (C j))).

Lemma dp_state_ext n cap F F' C C' :
  (∀ w, w ≤ cap → F w = F' w) → (∀ j w, j < n → w ≤ cap → C j w = C' j w) →
  dp_state n cap F C = dp_state n cap F' C'.
Proof.
  intros HF HC. unfold dp_state. f_equal; apply tab_ext; [intros; apply HF; lia|].
  intros j Hj. apply tab_ext. intros w Hw. apply HC; lia.
Qed.

Lemma dp_step_state n cap i wi vi F C w :
  i < n → wi ≤ w ≤ cap →
  let c := f64_add (F (w - wi)) vi in
  dp_step i wi vi (dp_state n cap F C) w =
  Some (dp_state n cap
         (λ j, if decide (j = w) then (if f64_gt c (F w) then c else F w) else F j)
         (λ j u, if decide (j = i ∧ u = w) then f64_gt c (F w) || C i w else C j u)).
Proof.
  intros Hi Hw c. unfold dp_step, dp_state at 1.
  rewrite usize_sub_le by lia. cbn [mbind option_bind]. rewrite !vec_get_tab by lia.
  cbn [mbind option_bind]. fold c. destruct (f64_gt c (F w)) eqn:E.
  - do 3 (rewrite vec_set_tab by lia; cbn [mbind option_bind]). f_equal. unfold dp_state. f_equal.
    apply tab_ext. intros j Hj. case_decide; [subst j|].
    + apply tab_ext. intros u Hu. repeat case_decide; (done || lia).
    + apply tab_ext. intros u Hu. repeat case_decide; (done || lia).
  - f_equal. apply dp_state_ext.
    + intros u _. case_decide; [by subst|done].
    + intros j u _ _. case_decide as Hd; [by destruct Hd as [-> ->]|done].
Qed.

(** The capacities from [t] on have been updated for the item. *)
Lemma dp_item_loop n cap i wi vi r C k :
  i < n → wi + k ≤ cap + 1 → (∀ w, w ≤ cap → C i w = false) →
  foldM (dp_step i wi vi) (rev (seq wi k))
    (dp_state n cap (λ w, if decide (wi + k ≤ w) then best ((wi, vi) :: r) w else best r w)
       (λ j w, if decide (j = i ∧ wi + k ≤ w) then take_item wi vi r w else C j w)) =
  Some (dp_state n cap (λ w, if decide (wi ≤ w) then best ((wi, vi) :: r) w else best r w)
       (λ j w, if decide (j = i ∧ wi ≤ w) then take_item wi vi r w else C j w)).
Proof.
  intros Hi. induction k as [|k IH]; intros Hk HC.
  { cbn. by rewrite Nat.add_0_r. }
  rewrite rev_seq_S. cbn [foldM]. rewrite dp_step_state by lia. cbn [mbind option_bind].
  rewrite <- IH by (done || lia). f_equal. apply dp_state_ext.
  - intros w Hw. rewrite !(decide_False (P := wi + S k ≤ _)) by lia.
    destruct (decide (w = wi + k)) as [->|Hne].
    + rewrite (decide_True (P := wi + k ≤ wi + k)) by lia. rewrite best_cons.
      unfold take_item. rewrite bool_decide_true by lia. done.
    + repeat case_decide; (done || lia).
  - intros j w Hj Hw. rewrite !(decide_False (P := wi + S k ≤ _)) by lia.
    rewrite (decide_False (P := i = i ∧ _)) by lia. rewrite HC by lia. rewrite orb_false_r.
    destruct (decide (j = i ∧ w = wi + k)) as [[-> ->]|Hne].
    + rewrite decide_True by lia. unfold take_item. by rewrite bool_decide_true by lia.
    + repeat case_decide; (done || lia).
Qed.

Definition items (cs : list MlCandidate) : list item :=
  map (λ c, (to_kb (weight_bytes c), pred_prob c)) cs.

(** The first [i] items, last one first. *)
Definition rows (cs : list MlCandidate) (i : nat) : list item := rev (take i (items cs)).

Definition choice (cs : list MlCandidate) (j w : nat) : bool :=
  match items cs !! j with Some (wj, vj) => take_item wj vj (rows cs j) w | None => false end.

Lemma rows_S cs i wi vi :
  items cs !! i = Some (wi, vi) → rows cs (S i) = (wi, vi) :: rows cs i.
Proof. intros H. unfold rows. rewrite (take_S_r _ _ _ H), rev_app_distr. done. Qed.

Lemma items_lookup cs i :
  i < length cs →
  ∃ c, cs !! i = Some c ∧ items cs !! i = Some (to_kb (weight_bytes c), pred_prob c) ∧
       map (λ c, to_kb (weight_bytes c)) cs !! i = Some (to_kb (weight_bytes c)) ∧
       map pred_prob cs !! i = Some (pred_prob c).
Proof.
  intros [c Hc]%lookup_lt_is_Some_2. exists c.
  unfold items. rewrite !list_lookup_fmap, Hc. done.
Qed.

Lemma dp_outer_loop cs cap i :
  i ≤ length cs →
  foldM (dp_item cap (map (λ c, to_kb (weight_bytes c)) cs) (map pred_prob cs)) (seq 0 i)
    (replicate (cap + 1) f64_zero, replicate (length cs) (replicate (cap + 1) false)) =
  Some (dp_state (length cs) cap (best (rows cs i))
          (λ j w, if decide (j < i) then choice cs j w else false)).
Proof.
  induction i as [|i IH]; intros Hi.
  { cbn [seq foldM]. rewrite !replicate_tab. unfold rows. cbn. f_equal. }
  rewrite seq_S, foldM_app, IH by lia. cbn [mbind option_bind foldM plus].
  destruct (items_lookup cs i) as (c & Hc & Hit & Hw & Hv); [lia|].
  unfold dp_item, vec_get. rewrite Hw, Hv. cbn [mbind option_bind].
  set (wi := to_kb _) in *. set (vi := pred_prob c) in *. rewrite (rows_S cs i wi vi Hit).
  assert (Hch : ∀ w, choice cs i w = take_item wi vi (rows cs i) w)
    by (intros; unfold choice; by rewrite Hit).
  assert (Hsmall : ∀ w, ¬ wi ≤ w → take_item wi vi (rows cs i) w = false)
    by (intros; unfold take_item; by rewrite bool_decide_false).
  unfold rev_range. destruct (decide (wi ≤ cap)) as [Hle|Hgt].
  - set (C := λ j w, if decide (j < i) then choice cs j w else false).
    assert (dp_state (length cs) cap (best (rows cs i)) C =
      dp_state (length cs) cap
        (λ w, if decide (wi + (S cap - wi) ≤ w) then best ((wi, vi) :: rows cs i) w
              else best (rows cs i) w)
        (λ j w, if decide (j = i ∧ wi + (S cap - wi) ≤ w)
                then take_item wi vi (rows cs i) w else C j w)) as ->.
    { apply dp_state_ext; intros; by rewrite decide_False by lia. }
    rewrite dp_item_loop; [|lia|lia|intros; unfold C; by rewrite decide_False by lia].
    cbn [mbind option_bind]. f_equal. apply dp_state_ext.
    + intros w Hwc. case_decide; [done|]. rewrite best_cons, Hsmall by done. done.
    + intros j w Hj Hwc. unfold C. repeat case_decide; try lia; try done.
      * by replace j with i by lia.
      * replace j with i by lia. rewrite Hch, Hsmall by lia. done.
  - replace (S cap - wi) with 0 by lia. cbn [seq rev foldM mbind option_bind]. f_equal.
    apply dp_state_ext.
    + intros w Hwc. rewrite best_cons, Hsmall by lia. done.
    + intros j w Hj Hwc. repeat case_decide; try lia; try done.
      replace j with i by lia. rewrite Hch, Hsmall by lia. done.
Qed.

(** The keys a selection in reverse order stands for. *)
Fixpoint keys_of (cs : list MlCandidate) (sel : list bool) : gset string :=
  match cs, sel with
  | c :: cs, b :: sel => (if b then {[ key c ]} else ∅) ∪ keys_of cs sel
  | _, _ => ∅
  end.

Lemma choice_le cs i c w :
  items cs !! i = Some (to_kb (weight_bytes c), pred_prob c) →
  choice cs i w = true → to_kb (weight_bytes c) ≤ w.
Proof.
  unfold choice. intros ->. unfold take_item. rewrite andb_true_iff, bool_decide_eq_true. tauto.
Qed.

Lemma trace_step_eq cs cap i c S w :
  cs !! i = Some c → w ≤ cap →
  trace_step cs (map (λ c, to_kb (weight_bytes c)) cs)
    (tab (length cs) (λ j, tab (cap + 1) (choice cs j))) (S, w) i =
  Some (if choice cs i w then ({[ key c ]} ∪ S, w - to_kb (weight_bytes c)) else (S, w)).
Proof.
  intros Hc Hw. pose proof (lookup_lt_Some _ _ _ Hc) as Hi.
  destruct (items_lookup cs i Hi) as (c' & Hc' & Hit & Hwi & _).
  assert (c' = c) as -> by congruence.
  unfold trace_step. rewrite vec_get_tab by lia. cbn [mbind option_bind].
  rewrite vec_get_tab by lia. cbn [mbind option_bind].
  destruct (choice cs i w) eqn:Ec; [|done].
  unfold vec_get. rewrite Hc, Hwi. cbn [mbind option_bind].
  rewrite usize_sub_le by eauto using choice_le. done.
Qed.

Lemma trace_loop cs cap i S w :
  i ≤ length cs → w ≤ cap →
  ∃ w', foldM (trace_step cs (map (λ c, to_kb (weight_bytes c)) cs)
          (tab (length cs) (λ j, tab (cap + 1) (choice cs j)))) (rev (seq 0 i)) (S, w) =
        Some (keys_of (rev (take i cs)) (trace (rows cs i) w) ∪ S, w').
Proof.
  revert S w. induction i as [|i IH]; intros S w Hi Hw.
  { exists w. cbn. do 2 f_equal. set_solver. }
  rewrite rev_seq_S. cbn [foldM plus].
  destruct (items_lookup cs i) as (c & Hc & Hit & Hwi & _); [lia|].
  rewrite (rows_S cs i _ _ Hit), (take_S_r _ _ _ Hc), rev_app_distr. cbn [rev app trace].
  rewrite (trace_step_eq _ _ _ c) by done. cbn [mbind option_bind].
  unfold choice at 2. rewrite Hit. destruct (take_item _ _ _ w) eqn:Et.
  - destruct (IH ({[key c]} ∪ S) (w - to_kb (weight_bytes c))) as [w' ->]; [lia|lia|].
    exists w'. cbn [keys_of]. do 2 f_equal. set_solver.
  - destruct (IH S w) as [w' ->]; [lia|lia|].
    exists w'. cbn [keys_of]. do 2 f_equal. set_solver.
Qed.

(** ** From table rows to candidate selections *)

Lemma snoc_length_inv {A} (sel : list A) n :
  length sel = S n → ∃ sel' b, sel = sel' ++ [b] ∧ length sel' = n.
Proof.
  intros H. destruct sel as [|b sel _] using rev_ind; [done|].
  rewrite length_app in H. cbn in H. exists sel, b. split; [done|lia].
Qed.

(** Induction on candidates and a selection of the same length, from the end. *)
Lemma cands_sel_ind (P : list MlCandidate → list bool → Prop) :
  P [] [] →
  (∀ cs sel c b, length cs = length sel → P cs sel → P (cs ++ [c]) (sel ++ [b])) →
  ∀ cs sel, length cs = length sel → P cs sel.
Proof.
  intros H0 HS cs. induction cs as [|c cs IH] using rev_ind; intros sel Hlen.
  { by destruct sel. }
  rewrite length_app in Hlen. cbn in Hlen.
  destruct (snoc_length_inv sel (length cs)) as (sel' & b & -> & Hl); [lia|]. auto.
Qed.

Lemma zip_snoc {A B} (l : list A) (k : list B) x y :
  length l = length k → zip (l ++ [x]) (k ++ [y]) = zip l k ++ [(x, y)].
Proof. intros. by rewrite zip_with_app. Qed.

Lemma items_snoc cs c : items (cs ++ [c]) = items cs ++ [(to_kb (weight_bytes c), pred_prob c)].
Proof. unfold items. by rewrite map_app. Qed.

Ltac snoc_cases :=
  intros cs sel; revert cs sel; apply cands_sel_ind; [done|];
  intros cs sel c b Hl IH; rewrite ?items_snoc, ?rev_app_distr; cbn [rev app].

Lemma rows_kb_total : ∀ cs sel,
  length cs = length sel → rows_kb (rev (items cs)) (rev sel) = total_kb cs sel.
Proof.
  snoc_cases. cbn [rows_kb]. rewrite IH. unfold total_kb.
  rewrite zip_snoc, sum_list_with_app by done. cbn. lia.
Qed.

Lemma rows_benefit_total : ∀ cs sel,
  length cs = length sel → rows_benefit (rev (items cs)) (rev sel) = benefit cs sel.
Proof.
  snoc_cases. cbn [rows_benefit]. rewrite IH. unfold benefit.
  rewrite zip_snoc, foldl_app by done. cbn. by destruct b.
Qed.

Lemma keys_of_total : ∀ cs sel,
  length cs = length sel → keys_of (rev cs) (rev sel) = selected_keys cs sel.
Proof.
  snoc_cases. cbn [keys_of]. rewrite IH. unfold selected_keys.
  rewrite zip_snoc, omap_app, list_to_set_app_L by done. destruct b; cbn; set_solver.
Qed.

Lemma selected_keys_marked cs sel : selected_keys cs sel = list_to_set (map key (marked cs sel)).
Proof.
  unfold selected_keys, marked. f_equal. generalize (zip cs sel). intros l.
  induction l as [|[c []] l IH]; [done| |]; cbn; [by f_equal|done].
Qed.

(** Distinct keys identify the selected candidates. *)
Lemma selected_key_iff cs sel i c :
  NoDup (map key cs) → length sel = length cs → cs !! i = Some c →
  (key c ∈ selected_keys cs sel ↔ sel !! i = Some true).
Proof.
  intros Hnd Hlen Hi. rewrite selected_keys_marked, elem_of_list_to_set, map_marked.
  apply marked_nodup; [done|by rewrite length_map|by apply list_lookup_fmap_Some_2].
Qed.

(** The selection the code makes. *)
Definition selection (cs : list MlCandidate) (budget : Z) : list bool :=
  rev (trace (rev (items cs)) (to_kb budget)).

Lemma rows_all cs : rows cs (length cs) = rev (items cs).
Proof. unfold rows. rewrite take_ge; [done|]. unfold items. rewrite length_map. lia. Qed.

Lemma length_selection cs budget : length (selection cs budget) = length cs.
Proof.
  unfold selection. rewrite length_rev, length_trace, length_rev. unfold items. apply length_map.
Qed.

Lemma knapsack_select_eq cs budget :
  (0 < budget)%Z →
  knapsack_select cs budget = Some (selected_keys cs (selection cs budget)).
Proof.
  intros Hb. unfold knapsack_select. destruct cs as [|c0 cs0]; [done|].
  set (cs := c0 :: cs0). rewrite !bool_decide_false by (done || lia). cbn [orb].
  rewrite dp_outer_loop by lia. cbn [mbind option_bind snd dp_state].
  replace (tab (length cs) _) with (tab (length cs) (λ j, tab (to_kb budget + 1) (choice cs j))).
  2: { apply tab_ext. intros j Hj. apply tab_ext. intros w _. by rewrite decide_True. }
  destruct (trace_loop cs (to_kb budget) (length cs) ∅ (to_kb budget)) as [w' ->]; [lia|lia|].
  cbn [mbind option_bind fst]. f_equal. rewrite take_ge, rows_all by lia.
  rewrite <- keys_of_total by (by rewrite length_selection).
  unfold selection. rewrite rev_involutive. set_solver.
Qed.

Lemma selection_fits cs budget : total_kb cs (selection cs budget) ≤ to_kb budget.
Proof.
  rewrite <- rows_kb_total by (by rewrite length_selection).
  unfold selection. rewrite rev_involutive. apply trace_kb.
Qed.

Lemma selection_optimal cs budget sel :
  well_scored cs → length sel = length cs → total_kb cs sel ≤ to_kb budget →
  f64_le (benefit cs sel) (benefit cs (selection cs budget)) = true.
Proof.
  intros Hok Hl Hfit.
  rewrite <- !rows_benefit_total by (rewrite ?length_selection; done).
  unfold selection. rewrite rev_involutive, trace_benefit.
  apply best_optimal.
  - apply Forall_rev. unfold items. by apply Forall_fmap.
  - rewrite !length_rev. unfold items. by rewrite length_map.
  - by rewrite rows_kb_total.
Qed.

Definition count_selected (sel : list bool) : nat := sum_list_with Nat.b2n sel.

Lemma total_bytes_kb cs sel :
  Forall (λ c, 0 ≤ weight_bytes c)%Z cs →
  (total_bytes cs sel ≤ 1024 * Z.of_nat (total_kb cs sel) + 1023 * Z.of_nat (count_selected sel))%Z.
Proof.
  intros H. revert sel. induction H as [|c cs Hc _ IH]; intros [|b sel];
    unfold total_bytes, total_kb in *; cbn [zip zip_with foldr sum_list_with]; [lia..|].
  specialize (IH sel). unfold count_selected in *. cbn [sum_list_with fst snd].
  assert (weight_bytes c ≤ 1024 * Z.of_nat (to_kb (weight_bytes c)) + 1023)%Z.
  { unfold to_kb. pose proof (Z.div_mod (weight_bytes c) 1024 ltac:(lia)).
    pose proof (Z.mod_pos_bound (weight_bytes c) 1024 ltac:(lia)). lia. }
  destruct b; cbn [Nat.b2n]; lia.
Qed.

(** ** Properties *)

(** [knapsack_select] never panics, whatever the scores (NaNs included): it
    returns the keys of a selection whose kilobyte weights fit the capacity the
    budget is rounded to, and whose byte weights exceed the budget (one kilobyte
    at least) by less than one kilobyte per selected filter. *)
Theorem knapsack_select_fits (cs : list MlCandidate) (budget : Z) :
  (0 < budget)%Z → Forall (λ c, 0 ≤ weight_bytes c)%Z cs →
  ∃ sel, length sel = length cs ∧
    knapsack_select cs budget = Some (selected_keys cs sel) ∧
    total_kb cs sel ≤ to_kb budget ∧
    (total_bytes cs sel ≤ Z.max budget 1024 + 1023 * Z.of_nat (count_selected sel))%Z.
Proof.
  intros Hb Hw. exists (selection cs budget).
  pose proof (selection_fits cs budget) as Hf. split_and!; auto using length_selection, knapsack_select_eq.
  pose proof (total_bytes_kb cs (selection cs budget) Hw).
  assert (1024 * Z.of_nat (to_kb budget) ≤ Z.max budget 1024)%Z; [|lia].
  unfold to_kb. pose proof (Z.mul_div_le budget 1024 ltac:(lia)). lia.
Qed.

Definition cand (k : string) (p : f64) (w : Z) : MlCandidate :=
  {| key := k; build_col := k; probe_col := k; weight_bytes := w; pred_prob := p |}.

(** The candidates of the repository's tight-budget test. *)
Definition tight : list MlCandidate :=
  [cand "best1" (f64_lit 9 1) 3000; cand "best2" (f64_lit 8 1) 2500;
   cand "medium" (f64_lit 5 1) 4000; cand "low1" (f64_lit 3 1) 5000].

Example tight_selected : knapsack_select tight 5600 = Some {[ "best1"%string; "best2"%string ]}.
Proof. vm_compute. reflexivity. Qed.

Lemma knapsack_select_fits_witness :
  ∃ sel, length sel = 4 ∧ knapsack_select tight 5600 = Some (selected_keys tight sel) ∧
    total_kb tight sel ≤ 5 ∧
    (total_bytes tight sel ≤ 5600 + 1023 * Z.of_nat (count_selected sel))%Z.
Proof.
  apply (knapsack_select_fits tight 5600); [lia|]. repeat constructor; cbn; lia.
Defined.

(** C2. The selection is optimal: no other choice of candidates that fits the
    kilobyte capacity has a larger sum of predicted probabilities, the sums
    computed in binary64 in candidate order. *)
Theorem knapsack_select_optimal (cs : list MlCandidate) (budget : Z) :
  (0 < budget)%Z → well_scored cs →
  ∃ sel, length sel = length cs ∧
    knapsack_select cs budget = Some (selected_keys cs sel) ∧
    total_kb cs sel ≤ to_kb budget ∧
    ∀ sel', length sel' = length cs → total_kb cs sel' ≤ to_kb budget →
      f64_le (benefit cs sel') (benefit cs sel) = true.
Proof.
  intros Hb Hok. exists (selection cs budget).
  split_and!; auto using length_selection, knapsack_select_eq, selection_fits, selection_optimal.
Qed.

Lemma knapsack_select_optimal_witness :
  ∃ sel, length sel = 4 ∧ knapsack_select tight 5600 = Some (selected_keys tight sel) ∧
    total_kb tight sel ≤ 5 ∧
    ∀ sel', length sel' = 4 → total_kb tight sel' ≤ 5 →
      f64_le (benefit tight sel') (benefit tight sel) = true.
Proof.
  apply (knapsack_select_optimal tight 5600); [lia|].
  repeat constructor; vm_compute; reflexivity.
Defined.

(** Two filters of 2047 bytes count one kilobyte each. *)
Definition near_2k : list MlCandidate :=
  [cand "a" (f64_lit 9 1) 2047; cand "b" (f64_lit 8 1) 2047].

(** Because a weight is rounded down to kilobytes, the selected filters can
    need almost twice the byte budget: 4094 bytes are selected for a budget of
    2048. *)
Theorem knapsack_budget_exceeded :
  knapsack_select near_2k 2048 = Some (selected_keys near_2k [true; true]) ∧
  (2048 < total_bytes near_2k [true; true])%Z.
Proof. split; vm_compute; reflexivity. Qed.

End Knapsack.
