(* ===== verification/Python.v ===== *)
(** * What the Python scripts use of their language

    Lists with negative indices (an index out of range raises, [None]), [range]
    counting down, [float] of an integer, and the stable descending [sorted]. *)

From stdpp Require Import base list sorting.
From Stdlib Require Import ZArith Lia.
From S2P Require Import Prelude F64.

Module Py.

(** The position an index denotes in a list of length [n]. *)
Definition position (n : nat) (i : Z) : option nat :=
  if decide (0 ≤ i < Z.of_nat n)%Z then Some (Z.to_nat i)
  else if decide (- Z.of_nat n ≤ i < 0)%Z then Some (Z.to_nat (Z.of_nat n + i))
  else None.

(** [l[i]] *)
Definition index {A} (l : list A) (i : Z) : option A := position (length l) i ≫= λ k, l !! k.

(** [l[i] = x] *)
Definition store {A} (l : list A) (i : Z) (x : A) : option (list A) :=
  k ← position (length l) i; Some (<[k := x]> l).

(** [range(n)] and [range(start, stop, -1)] *)
Definition range (n : Z) : list Z := Z.of_nat <$> seq 0 (Z.to_nat n).
Definition range_down (start stop : Z) : list Z :=
  (λ k, start - Z.of_nat k)%Z <$> seq 0 (Z.to_nat (start - stop)).

(** [float(n)] raises when the number is too large. *)
Definition float_of_int (n : Z) : option f64 :=
  match f64_of_Z n with
  | S754_infinity _ => None
  | x => Some x
  end.

(** [sorted(l, key = ..., reverse = True)] of elements paired with their keys:
    larger keys first, elements with equal keys in their old order. *)
Fixpoint insert_desc {A} (x : f64 * A) (l : list (f64 * A)) : list (f64 * A) :=
  match l with
  | [] => [x]
  | y :: l => if f64_lt x.1 y.1 then y :: insert_desc x l else x :: y :: l
  end.

Definition sorted_desc {A} (l : list (f64 * A)) : list (f64 * A) := foldr insert_desc [] l.

Lemma position_nat n k : k < n → position n (Z.of_nat k) = Some k.
Proof. intros H. unfold position. rewrite decide_True by lia. by rewrite Nat2Z.id. Qed.

Lemma position_out n k : n ≤ k → position n (Z.of_nat k) = None.
Proof. intros H. unfold position. by rewrite !decide_False by lia. Qed.

Lemma index_nat {A} (l : list A) k : index l (Z.of_nat k) = l !! k.
Proof.
  unfold index. destruct (decide (k < length l)) as [H|H].
  - by rewrite position_nat.
  - rewrite position_out by lia. by rewrite lookup_ge_None_2 by lia.
Qed.

Lemma store_nat {A} (l : list A) k x : store l (Z.of_nat k) x = vec_set l k x.
Proof.
  unfold store, vec_set. destruct (decide (k < length l)) as [H|H].
  - by rewrite position_nat.
  - by rewrite position_out by lia.
Qed.

Lemma length_range n : length (range (Z.of_nat n)) = n.
Proof. unfold range. by rewrite length_fmap, length_seq, Nat2Z.id. Qed.

Lemma insert_desc_perm {A} (x : f64 * A) l : insert_desc x l ≡ₚ x :: l.
Proof.
  induction l as [|y l IH]; cbn; [done|]. destruct (f64_lt _ _); [|done].
  rewrite IH. apply Permutation_swap.
Qed.

Lemma sorted_desc_perm {A} (l : list (f64 * A)) : sorted_desc l ≡ₚ l.
Proof. induction l as [|x l IH]; cbn; [done|]. by rewrite insert_desc_perm, IH. Qed.

End Py.
