(* ===== verification/PyKnapsack.v ===== *)
(** * The offline budget policies (ml/knapsack.py)

    The Python dynamic program and the greedy policy that the evaluation
    compares with it.  [select_filters_exact] is proved to select what the Rust
    [knapsack_select] selects; the greedy policy is proved to respect the budget
    in bytes, which the exact one does not. *)

From stdpp Require Import base list gmap strings sorting.
From Stdlib Require Import ZArith Lia.
From S2P Require Import Prelude F64 Knapsack Python.

Module PyKnapsack.
Import Py.

Record candidate := { col_name : string; value : f64; weight : Z }.

Definition kb (bytes_val : Z) : Z := Z.max 1 (bytes_val / 1024).

(** Body of the loop over capacities. *)
Definition dp_body (i ws_i : Z) (vs_i : f64) (st : list f64 * list (list bool)) (w : Z)
    : option (list f64 * list (list bool)) :=
  let '(dp, chosen) := st in
  x ← index dp (w - ws_i);
  let candidate_val := f64_add x vs_i in
  cur ← index dp w;
  if f64_gt candidate_val cur then
    dp' ← store dp w candidate_val;
    row ← index chosen i;
    row' ← store row w true;
    chosen' ← store chosen i row';
    Some (dp', chosen')
  else Some (dp, chosen).

Definition dp_row (W : Z) (ws : list Z) (vs : list f64) (st : list f64 * list (list bool)) (i : Z)
    : option (list f64 * list (list bool)) :=
  ws_i ← index ws i;
  vs_i ← index vs i;
  foldM (dp_body i ws_i vs_i) (range_down W (ws_i - 1)) st.

Definition trace_body (candidates : list candidate) (ws : list Z) (chosen : list (list bool))
    (st : list string * Z) (i : Z) : option (list string * Z) :=
  let '(selected, w) := st in
  row ← index chosen i;
  b ← index row w;
  if (b : bool) then
    c ← index candidates i;
    ws_i ← index ws i;
    Some (selected ++ [col_name c], w - ws_i)%Z
  else Some (selected, w).

Definition select_filters_exact (candidates : list candidate) (budget_bytes : Z) : option (list string) :=
  if bool_decide (candidates = []) || bool_decide (budget_bytes ≤ 0)%Z then Some []
  else
    let n := Z.of_nat (length candidates) in
    let W := kb budget_bytes in
    let ws := map (λ c, kb (weight c)) candidates in
    let vs := map value candidates in
    let dp := replicate (Z.to_nat (W + 1)) f64_zero in
    let chosen := map (λ _, replicate (Z.to_nat (W + 1)) false) (range n) in
    st ← foldM (dp_row W ws vs) (range n) (dp, chosen);
    res ← foldM (trace_body candidates ws st.2) (range_down (n - 1) (-1)) ([], W);
    Some res.1.

(** ** The greedy policy *)

(** [c["value"] / max(c["weight"], 1)] *)
Definition ratio (c : candidate) : option f64 :=
  d ← float_of_int (Z.max (weight c) 1); Some (f64_div (value c) d).

Fixpoint greedy_loop (ranked : list candidate) (remaining : Z) : list string :=
  match ranked with
  | [] => []
  | c :: ranked =>
      if bool_decide (weight c ≤ remaining)%Z
      then col_name c :: greedy_loop ranked (remaining - weight c)
      else greedy_loop ranked remaining
  end.

Definition select_filters_greedy (candidates : list candidate) (budget_bytes : Z) : option (list string) :=
  if bool_decide (candidates = []) || bool_decide (budget_bytes ≤ 0)%Z then Some []
  else
    keyed ← mapM (λ c, r ← ratio c; Some (r, c)) candidates;
    let ranked := (sorted_desc keyed).*2 in
    Some (greedy_loop ranked budget_bytes).

(** ** Agreement with the Rust dynamic program *)

(** The dictionary that stands for a Rust candidate. *)
Definition of_ml (c : Knapsack.MlCandidate) : candidate :=
  {| col_name := Knapsack.key c; value := Knapsack.pred_prob c; weight := Knapsack.weight_bytes c |}.

Lemma kb_to_kb b : kb b = Z.of_nat (Knapsack.to_kb b).
Proof. unfold kb, Knapsack.to_kb. lia. Qed.

Lemma countdown lo n :
  (λ k, Z.of_nat (lo + n) - 1 - Z.of_nat k)%Z <$> seq 0 n = Z.of_nat <$> rev (seq lo n).
Proof.
  induction n as [|n IH]; [done|]. rewrite Knapsack.rev_seq_S. cbn [seq fmap list_fmap]. f_equal; [lia|].
  rewrite <- fmap_S_seq, <- list_fmap_compose. etrans; [|exact IH]. apply list_fmap_ext. intros _ k _. cbn. lia.
Qed.

Lemma range_down_rev lo hi :
  range_down (Z.of_nat hi) (Z.of_nat lo - 1) = Z.of_nat <$> Knapsack.rev_range lo hi.
Proof.
  unfold range_down, Knapsack.rev_range. rewrite <- countdown.
  replace (Z.to_nat (Z.of_nat hi - (Z.of_nat lo - 1))) with (S hi - lo) by lia.
  apply list_fmap_ext. intros j k [_ Hk]%lookup_seq. lia.
Qed.

Lemma dp_body_eq i wi vi st w :
  wi ≤ w → dp_body (Z.of_nat i) (Z.of_nat wi) vi st (Z.of_nat w) = Knapsack.dp_step i wi vi st w.
Proof.
  intros H. destruct st as [dp chosen]. unfold dp_body, Knapsack.dp_step, vec_get.
  rewrite usize_sub_le by done. cbn [mbind option_bind].
  replace (Z.of_nat w - Z.of_nat wi)%Z with (Z.of_nat (w - wi)) by lia. rewrite !index_nat.
  destruct (dp !! (w - wi)); cbn; [|done]. destruct (dp !! w); cbn; [|done].
  destruct (f64_gt _ _); [|done]. rewrite store_nat. destruct (vec_set dp w _); cbn; [|done].
  destruct (chosen !! i); cbn; [|done]. rewrite store_nat.
  destruct (vec_set _ w true); cbn; [|done]. by rewrite store_nat.
Qed.

Lemma dp_row_eq cap ws vs st i :
  dp_row (Z.of_nat cap) (Z.of_nat <$> ws) vs st (Z.of_nat i) = Knapsack.dp_item cap ws vs st i.
Proof.
  unfold dp_row, Knapsack.dp_item, vec_get. rewrite !index_nat, list_lookup_fmap.
  destruct (ws !! i) as [wi|]; cbn; [|done]. destruct (vs !! i) as [vi|]; cbn; [|done].
  rewrite range_down_rev, foldM_map. apply foldM_ext_in. intros s w Hw. apply dp_body_eq.
  unfold Knapsack.rev_range in Hw. rewrite list_elem_of_In, <- in_rev, in_seq in Hw. lia.
Qed.

(** The two traceback loops: the same capacity, the same selection. *)
Definition trace_rel (s : list string * Z) (t : gset string * nat) : Prop :=
  s.2 = Z.of_nat t.2 ∧ t.1 = list_to_set s.1.

Lemma trace_body_sim cs ws chosen s t i t' :
  trace_rel s t → Knapsack.trace_step cs ws chosen t i = Some t' →
  ∃ s', trace_body (of_ml <$> cs) (Z.of_nat <$> ws) chosen s (Z.of_nat i) = Some s' ∧ trace_rel s' t'.
Proof.
  destruct s as [sel zw], t as [S w]. intros [Hw HS]; cbn in Hw, HS. subst zw S.
  unfold Knapsack.trace_step, trace_body, vec_get. rewrite !index_nat, !list_lookup_fmap.
  destruct (chosen !! i) as [row|]; cbn; [|done]. rewrite index_nat.
  destruct (row !! w) as [[]|]; cbn; [| |done].
  - destruct (cs !! i) as [c|]; cbn; [|done]. destruct (ws !! i) as [wi|]; cbn; [|done].
    unfold usize_sub. case_decide; cbn; [|done]. intros [= <-]. eexists. split; [done|]. split; cbn; [lia|].
    rewrite list_to_set_app_L. set_solver.
  - intros [= <-]. eexists. split; [done|]. by split.
Qed.

(** The names are appended in the order of the loop. *)
Lemma trace_names cs ws chosen idxs s s' :
  foldM (trace_body cs ws chosen) idxs s = Some s' →
  ∃ l, s'.1 = s.1 ++ l ∧ l `sublist_of` (omap (λ i, col_name <$> index cs i) idxs).
Proof.
  revert s. induction idxs as [|i idxs IH]; intros [sel w]; cbn.
  { intros [= <-]. exists []. by rewrite app_nil_r. }
  destruct (index chosen i) as [row|]; cbn; [|done]. destruct (index row w) as [[]|]; cbn; [| |done].
  - destruct (index cs i) as [c|]; cbn; [|done]. destruct (index ws i) as [wi|]; cbn; [|done].
    intros (l & Hl & Hs)%IH. exists (col_name c :: l). cbn in Hl. rewrite Hl, <- app_assoc. split; [done|].
    by apply sublist_skip.
  - intros (l & Hl & Hs)%IH. exists l. split; [done|].
    destruct (index cs i); cbn; [by apply sublist_cons|done].
Qed.

Lemma map_const {A B} (x : B) (l : list A) : map (λ _, x) l = replicate (length l) x.
Proof. induction l as [|a l IH]; cbn; congruence. Qed.

Lemma names_down {A B} (f : A → B) (l : list A) k :
  omap (λ i, f <$> l !! i) (rev (seq 0 k)) = rev (f <$> take k l).
Proof.
  induction k as [|k IH]; [by rewrite take_0|]. rewrite Knapsack.rev_seq_S. cbn. rewrite IH.
  destruct (l !! k) as [x|] eqn:E; cbn.
  - by rewrite (take_S_r _ _ _ E), fmap_app, rev_app_distr.
  - apply lookup_ge_None in E. by rewrite !take_ge by lia.
Qed.

Lemma omap_fmap_comp {A B C} (f : B → option C) (g : A → B) (l : list A) : omap f (g <$> l) = omap (f ∘ g) l.
Proof. induction l as [|a l IH]; cbn; [done|]. by rewrite IH. Qed.

Lemma dp_rows_eq cap n ws vs st :
  foldM (dp_row (Z.of_nat cap) (Z.of_nat <$> ws) vs) (range (Z.of_nat n)) st =
  foldM (Knapsack.dp_item cap ws vs) (seq 0 n) st.
Proof.
  unfold range. rewrite Nat2Z.id, foldM_map. apply foldM_ext_in. intros s i _. apply dp_row_eq.
Qed.

Lemma trace_down cs ws chosen cap t' :
  cs ≠ [] →
  foldM (Knapsack.trace_step cs ws chosen) (rev (seq 0 (length cs))) (∅, cap) = Some t' →
  ∃ s', foldM (trace_body (of_ml <$> cs) (Z.of_nat <$> ws) chosen)
          (range_down (Z.of_nat (length cs) - 1) (-1)) ([], Z.of_nat cap) = Some s' ∧
    t'.1 = list_to_set s'.1 ∧ s'.1 `sublist_of` rev (Knapsack.key <$> cs).
Proof.
  intros Hcs ET. assert (Hn : 0 < length cs) by (destruct cs; [done|cbn; lia]).
  replace (Z.of_nat (length cs) - 1)%Z with (Z.of_nat (length cs - 1)) by lia.
  change (-1)%Z with (Z.of_nat 0 - 1)%Z. rewrite range_down_rev. unfold Knapsack.rev_range.
  replace (S (length cs - 1) - 0) with (length cs) by lia.
  destruct (foldM_sim trace_rel (λ s i, trace_body (of_ml <$> cs) (Z.of_nat <$> ws) chosen s (Z.of_nat i))
              (Knapsack.trace_step cs ws chosen) (rev (seq 0 (length cs))) ([], Z.of_nat cap) (∅, cap) t') as (s' & ES & [_ Hset]);
    [intros s t i t1 _; apply trace_body_sim|by split|exact ET|].
  rewrite <- (foldM_map (trace_body (of_ml <$> cs) (Z.of_nat <$> ws) chosen) Z.of_nat) in ES. exists s'. split_and!; [done..|].
  apply trace_names in ES as (l & Hl & Hsub). cbn in Hl. rewrite Hl.
  rewrite omap_fmap_comp in Hsub. rewrite <- (take_ge cs (length cs)), <- names_down by done.
  etrans; [exact Hsub|]. apply reflexive_eq. apply list_omap_ext. apply Forall_Forall2_diag, Forall_true.
  intros i. cbn. rewrite index_nat, list_lookup_fmap. by destruct (cs !! i).
Qed.

(** What is read from the dictionaries. *)
Lemma of_ml_fields cs :
  map (λ c, kb (weight c)) (of_ml <$> cs) =
    Z.of_nat <$> map (λ c, Knapsack.to_kb (Knapsack.weight_bytes c)) cs ∧
  map value (of_ml <$> cs) = map Knapsack.pred_prob cs.
Proof.
  split; change (map ?f ?l) with (f <$> l); rewrite <- !list_fmap_compose; apply list_fmap_ext;
    intros _ c _; cbn; [apply kb_to_kb|done].
Qed.

Lemma select_exact_run (cs : list Knapsack.MlCandidate) (budget : Z) :
  cs ≠ [] → (0 < budget)%Z →
  ∃ names, select_filters_exact (of_ml <$> cs) budget = Some names ∧
    Knapsack.knapsack_select cs budget = Some (list_to_set names) ∧
    names `sublist_of` rev (Knapsack.key <$> cs).
Proof.
  intros Hcs Hpos. unfold select_filters_exact.
  pose proof (Knapsack.knapsack_select_eq cs budget Hpos) as HR. revert HR. unfold Knapsack.knapsack_select.
  rewrite !bool_decide_false by (try lia; destruct cs; done). cbn [orb].
  rewrite kb_to_kb, length_fmap, map_const, length_range. destruct (of_ml_fields cs) as [-> ->].
  rewrite dp_rows_eq. replace (Z.to_nat (Z.of_nat (Knapsack.to_kb budget) + 1)) with (Knapsack.to_kb budget + 1) by lia.
  destruct (foldM (Knapsack.dp_item _ _ _) _ _) as [st|]; cbn [mbind option_bind]; [|done].
  destruct (foldM (Knapsack.trace_step _ _ _) _ _) as [t'|] eqn:ET; cbn [mbind option_bind]; [|done].
  intros _. destruct (trace_down _ _ _ _ _ Hcs ET) as (s' & -> & Hset & Hsub).
  exists s'.1. split; [done|]. by rewrite <- Hset.
Qed.

(** The selected names are the keys of the selection. *)
Lemma select_run_keys (cs : list Knapsack.MlCandidate) (budget : Z) :
  (0 < budget)%Z →
  ∃ names, select_filters_exact (of_ml <$> cs) budget = Some names ∧
    (list_to_set names : gset string) = Knapsack.selected_keys cs (Knapsack.selection cs budget).
Proof.
  intros Hb. destruct (decide (cs = [])) as [->|Hcs]; [by exists []|].
  destruct (select_exact_run cs budget Hcs Hb) as (names & E & HR & _). exists names. split; [done|].
  rewrite Knapsack.knapsack_select_eq in HR by done. congruence.
Qed.

(** ** Properties *)

(** C19. The Python dynamic program and the Rust one select the same filters: on
    the dictionaries of the Rust candidates, with any scores (NaNs included) and
    any budget a [usize] can hold, [select_filters_exact] raises nothing, and its
    list holds exactly the keys of the set [knapsack_select] returns, each
    candidate at most once, the last candidate first. *)
Theorem select_filters_exact_agrees (cs : list Knapsack.MlCandidate) (budget : Z) :
  (0 ≤ budget)%Z →
  ∃ names, select_filters_exact (of_ml <$> cs) budget = Some names ∧
    Knapsack.knapsack_select cs budget = Some (list_to_set names) ∧
    names `sublist_of` rev (Knapsack.key <$> cs).
Proof.
  intros Hb. destruct (decide (cs = [] ∨ budget = 0%Z)) as [H0|H0].
  - exists []. unfold select_filters_exact, Knapsack.knapsack_select.
    destruct H0 as [->| ->]; cbn; rewrite ?orb_true_r; by auto using sublist_nil_l.
  - apply select_exact_run; [tauto|lia].
Qed.

Lemma select_filters_exact_agrees_witness :
  ∃ names, select_filters_exact (of_ml <$> Knapsack.tight) 5600 = Some names ∧
    Knapsack.knapsack_select Knapsack.tight 5600 = Some (list_to_set names) ∧
    names `sublist_of` rev (Knapsack.key <$> Knapsack.tight).
Proof. apply (select_filters_exact_agrees Knapsack.tight 5600). lia. Defined.

(** ** The greedy policy *)

Lemma ratio_total c : (0 ≤ weight c ≤ usize_max)%Z → ∃ r, ratio c = Some r.
Proof.
  intros H. unfold ratio, float_of_int.
  destruct (f64_of_Z_units (Z.max (weight c) 1)) as (m & e & -> & _); [unfold usize_max in *; lia|]. by eexists.
Qed.

Definition weights (l : list candidate) : Z := foldr (λ c acc, weight c + acc)%Z 0%Z l.

Lemma greedy_loop_spec ranked remaining :
  Forall (λ c, 0 ≤ weight c)%Z ranked → (0 ≤ remaining)%Z →
  ∃ sel rest, greedy_loop ranked remaining = col_name <$> sel ∧ sel ++ rest ≡ₚ ranked ∧
    (weights sel ≤ remaining)%Z ∧ Forall (λ c, remaining - weights sel < weight c)%Z rest.
Proof.
  intros Hw. revert remaining. induction Hw as [|c ranked Hc Hw IH]; intros remaining Hr; cbn.
  { exists [], []. by cbn. }
  case_bool_decide as Hf.
  - destruct (IH (remaining - weight c)%Z) as (sel & rest & -> & Hp & Hs & Hrest); [lia|].
    exists (c :: sel), rest. change (weights (c :: sel)) with (weight c + weights sel)%Z. cbn. rewrite Hp. split_and!; [done..|lia|].
    eapply Forall_impl; [exact Hrest|]. cbn. lia.
  - destruct (IH remaining Hr) as (sel & rest & -> & Hp & Hs & Hrest).
    exists sel, (c :: rest). rewrite <- Permutation_middle, Hp. split_and!; [done..|].
    constructor; [|done]. assert (0 ≤ weights sel)%Z; [|lia].
    assert (Hall : Forall (λ c, 0 ≤ weight c)%Z sel).
    { rewrite <- Hp in Hw. by apply Forall_app in Hw as [? _]. }
    clear -Hall. induction Hall; unfold weights in *; cbn; lia.
Qed.

(** The greedy policy respects the budget in bytes: it raises nothing, the
    selected candidates weigh no more than the budget, and no candidate that was
    left out would still fit. *)
Theorem select_filters_greedy_fits (cs : list candidate) (budget : Z) :
  (0 < budget)%Z → Forall (λ c, 0 ≤ weight c ≤ usize_max)%Z cs →
  ∃ sel rest, select_filters_greedy cs budget = Some (col_name <$> sel) ∧ sel ++ rest ≡ₚ cs ∧
    (weights sel ≤ budget)%Z ∧ Forall (λ c, budget < weights sel + weight c)%Z rest.
Proof.
  intros Hb Hw. unfold select_filters_greedy. destruct (decide (cs = [])) as [->|Hcs].
  { exists [], []. cbn. split_and!; done || lia. }
  rewrite !bool_decide_false by (done || lia). cbn [orb].
  assert (Hk : ∃ keyed, mapM (λ c, r ← ratio c; Some (r, c)) cs = Some keyed ∧ keyed.*2 = cs).
  { clear Hcs. induction Hw as [|c cs Hc _ (keyed & E & E2)]; [by exists []|]. cbn.
    destruct (ratio_total c Hc) as [d ->]. cbn. rewrite E. cbn.
    eexists. split; [done|]. cbn. by rewrite E2. }
  destruct Hk as (keyed & -> & E2). cbn [mbind option_bind].
  assert (Hp : (sorted_desc keyed).*2 ≡ₚ cs) by (rewrite sorted_desc_perm; by rewrite E2).
  destruct (greedy_loop_spec (sorted_desc keyed).*2 budget) as (sel & rest & -> & Hp' & Hs & Hrest); [|lia|].
  { rewrite Hp. eapply Forall_impl; [exact Hw|]. cbn. lia. }
  exists sel, rest. split_and!; [done|by rewrite Hp'|done|].
  eapply Forall_impl; [exact Hrest|]. cbn. lia.
Qed.

Lemma select_filters_greedy_fits_witness :
  ∃ sel rest, select_filters_greedy (of_ml <$> Knapsack.tight) 5600 = Some (col_name <$> sel) ∧
    sel ++ rest ≡ₚ of_ml <$> Knapsack.tight ∧
    (weights sel ≤ 5600)%Z ∧ Forall (λ c, 5600 < weights sel + weight c)%Z rest.
Proof.
  apply (select_filters_greedy_fits (of_ml <$> Knapsack.tight) 5600); [lia|].
  repeat constructor; cbn; unfold usize_max; lia.
Defined.

(** Three small filters. *)
Definition small_filters : list candidate :=
  [{| col_name := "a"; value := f64_lit 9 1; weight := 100 |};
   {| col_name := "b"; value := f64_lit 8 1; weight := 100 |};
   {| col_name := "c"; value := f64_lit 7 1; weight := 100 |}].

(** A filter smaller than a kilobyte counts as one: with 1024 bytes the exact
    policy selects one of three filters of 100 bytes, the greedy policy all of
    them. *)
Theorem exact_refuses_small_filters :
  select_filters_exact small_filters 1024 = Some ["a"%string] ∧
  select_filters_greedy small_filters 1024 = Some ["a"; "b"; "c"]%string ∧
  (weights small_filters ≤ 1024)%Z.
Proof. split_and!; vm_compute; congruence. Qed.

End PyKnapsack.
