(* ===== verification/PyModel.v ===== *)
(** * Exporting and replaying the model (ml/bf_model.py)

    [export_model] writes the fitted trees of scikit-learn as JSON, which the
    Rust planner and [predict_from_json] both read.  A fitted tree is given by
    its parallel arrays, with their documented layout as hypotheses ([sk_ok]);
    the logarithm, clipping and exponential of NumPy and the exponential of Rust are
    parameters.  The exported nodes are proved to encode the arrays, and both readers to
    compute the same score from them.  Nothing is said of scikit-learn's own
    [predict_proba], which converts features to single precision first. *)

From stdpp Require Import base list gmap strings.
From Stdlib Require Import ZArith Lia.
From S2P Require Import Prelude F64 GbtModel Python.

#[local] Open Scope Z_scope.

Module PyModel.
Import Py Gbt.

Definition FEATURE_COLS : list string :=
  ["build_cardinality"; "distinct_estimate"; "filter_size_bytes"; "build_time_ms"; "distinctness_ratio"]%string.

(** A fitted tree: parallel arrays indexed by node. *)
Record sk_tree := {
  node_count : Z;
  sk_feature : list Z;
  sk_threshold : list f64;
  children_left : list Z;
  children_right : list Z;
  sk_value : list f64;        (* [value[i][0][0]] *)
}.

(** The object appended for node [i]. *)
Definition export_node (tree : sk_tree) (i : Z) : option Node :=
  feat ← index (sk_feature tree) i;
  if decide (feat = -2) then
    v ← index (sk_value tree) i;
    Some {| feature := -1; threshold := None; left := -1; right := -1; value := Some v |}
  else
    thr ← index (sk_threshold tree) i;
    l ← index (children_left tree) i;
    r ← index (children_right tree) i;
    Some {| feature := feat; threshold := Some thr; left := l; right := r; value := None |}.

Definition tree_to_nodes (tree : sk_tree) : option (list Node) :=
  mapM (export_node tree) (range (node_count tree)).

(** The fitted classifier. *)
Record classifier := {
  class_prior_1 : f64;        (* [init_.class_prior_[1]] *)
  n_estimators_ : Z;
  clf_learning_rate : f64;
  estimators_ : list sk_tree; (* [stage[0].tree_] *)
}.

Section Export.
Context (np_clip : f64 → f64 → f64 → f64) (np_log : f64 → f64).

Definition export_init_score (clf : classifier) : f64 :=
  let prior := np_clip (class_prior_1 clf) (f64_lit 1 7) (f64_sub f64_one (f64_lit 1 7)) in
  np_log (f64_div prior (f64_sub f64_one prior)).

Definition export_model (clf : classifier) : option GbtModel :=
  ts ← mapM (λ tree, ns ← tree_to_nodes tree; Some {| nodes := ns |}) (estimators_ clf);
  Some {| feature_names := FEATURE_COLS; n_estimators := n_estimators_ clf;
          learning_rate := clf_learning_rate clf; init_score := export_init_score clf; trees := ts |}.
End Export.

(** ** Inference *)

(** What a loop of the script ends in. *)
Inductive py_result := Returned (v : f64) | Raised | Looping.

(** [null] as a threshold or a value raises when it is compared or multiplied. *)
Fixpoint json_walk (fuel : nat) (ns : list Node) (x : list f64) (idx : Z) : py_result :=
  match fuel with
  | O => Looping
  | S fuel =>
      match index ns idx with
      | None => Raised
      | Some n =>
          if decide (feature n = -1) then match value n with Some v => Returned v | None => Raised end
          else match index x (feature n), threshold n with
               | Some xv, Some thr => json_walk fuel ns x (if f64_le xv thr then left n else right n)
               | _, _ => Raised
               end
      end
  end.

Fixpoint json_score (fuel : nat) (lr : f64) (x : list f64) (ts : list Tree) (score : f64) : option f64 :=
  match ts with
  | [] => Some score
  | t :: ts =>
      match json_walk fuel (nodes t) x 0 with
      | Returned v => json_score fuel lr x ts (f64_add score (f64_mul lr v))
      | _ => None
      end
  end.

Definition predict_from_json (np_exp : f64 → f64) (fuel : nat) (features_dict : gmap string f64)
    (model : GbtModel) : option f64 :=
  x ← mapM (λ f, features_dict !! f) (feature_names model);
  score ← json_score fuel (learning_rate model) x (trees model) (init_score model);
  Some (f64_div f64_one (f64_add f64_one (np_exp (f64_neg score)))).

(** One row of [engineer_features]. *)
Definition engineer_features (np_maximum : f64 → f64 → f64) (build_cardinality distinct_estimate filter_size_bytes build_time_ms : f64)
    : gmap string f64 :=
  list_to_map (zip FEATURE_COLS
    [build_cardinality; distinct_estimate; filter_size_bytes; build_time_ms;
     f64_div distinct_estimate (np_maximum build_cardinality f64_one)]).

(** ** Fitted trees *)

(** The documented layout: node 0 is the root, a leaf has feature -2, the
    children of a split come after it. *)
Definition sk_node_ok (nf : nat) (t : sk_tree) (i : nat) : Prop :=
  ∃ f l r, sk_feature t !! i = Some f ∧ children_left t !! i = Some l ∧ children_right t !! i = Some r ∧
    is_Some (sk_threshold t !! i) ∧ is_Some (sk_value t !! i) ∧
    (f = -2 ∨ 0 ≤ f < Z.of_nat nf ∧ Z.of_nat i < l < node_count t ∧ Z.of_nat i < r < node_count t).

Definition sk_ok (nf : nat) (t : sk_tree) : Prop :=
  0 < node_count t ≤ 2 ^ 31 ∧ ∀ i, (i < Z.to_nat (node_count t))%nat → sk_node_ok nf t i.

(** The value the arrays encode for a feature vector, from node [i]: a split sends a
    feature that is at most its threshold to the left, compared as binary64 numbers. *)
Inductive arrays_decide (t : sk_tree) (x : list f64) : nat → f64 → Prop :=
| decide_leaf i v :
    sk_feature t !! i = Some (-2) → sk_value t !! i = Some v → arrays_decide t x i v
| decide_split i f xv thr l r v :
    sk_feature t !! i = Some f → f ≠ -2 → x !! Z.to_nat f = Some xv → sk_threshold t !! i = Some thr →
    children_left t !! i = Some l → children_right t !! i = Some r →
    arrays_decide t x (Z.to_nat (if f64_le xv thr then l else r)) v → arrays_decide t x i v.

(** ** Lemmas *)

Lemma export_node_leaf t i v :
  sk_feature t !! i = Some (-2) → sk_value t !! i = Some v →
  export_node t (Z.of_nat i) = Some {| feature := -1; threshold := None; left := -1; right := -1; value := Some v |}.
Proof. intros Hf Hv. unfold export_node. rewrite !index_nat, Hf. cbn. by rewrite Hv. Qed.

Lemma export_node_split t i f thr l r :
  sk_feature t !! i = Some f → f ≠ -2 → sk_threshold t !! i = Some thr →
  children_left t !! i = Some l → children_right t !! i = Some r →
  export_node t (Z.of_nat i) = Some {| feature := f; threshold := Some thr; left := l; right := r; value := None |}.
Proof.
  intros Hf Hn Ht Hl Hr. unfold export_node. rewrite !index_nat, Hf. cbn. rewrite decide_False by done.
  by rewrite Ht, Hl, Hr.
Qed.

Lemma export_node_total nf t i : sk_node_ok nf t i → is_Some (export_node t (Z.of_nat i)).
Proof.
  intros (f & l & r & Hf & Hl & Hr & [thr Ht] & [v Hv] & _). destruct (decide (f = -2)) as [->|Hn].
  - by rewrite (export_node_leaf _ _ _ Hf Hv).
  - by rewrite (export_node_split _ _ _ _ _ _ Hf Hn Ht Hl Hr).
Qed.

Lemma tree_to_nodes_total nf t : sk_ok nf t →
  ∃ ns, tree_to_nodes t = Some ns ∧ Z.of_nat (length ns) = node_count t ∧
    ∀ i, (i < length ns)%nat → ns !! i = export_node t (Z.of_nat i).
Proof.
  intros [Hc Hok]. unfold tree_to_nodes, range.
  destruct (mapM (export_node t) (Z.of_nat <$> seq 0 (Z.to_nat (node_count t)))) as [ns|] eqn:E.
  - apply mapM_Some in E. pose proof (Forall2_length _ _ _ E) as Hl. rewrite length_fmap, length_seq in Hl.
    exists ns. split_and!; [done|lia|]. intros i Hi. destruct (lookup_lt_is_Some_2 ns i Hi) as [n Hn].
    destruct (Forall2_lookup_r _ _ _ _ _ E Hn) as (z & Hz & He). rewrite list_lookup_fmap, lookup_seq_lt in Hz by lia.
    injection Hz as <-. by rewrite Hn, He.
  - exfalso. apply eq_None_not_Some in E. apply E, mapM_is_Some, Forall_fmap, Forall_seq. intros i Hi.
    apply (export_node_total nf), Hok. lia.
Qed.

Lemma nodes_wf_intro len i ns :
  (∀ k n, ns !! k = Some n → node_wf len (i + Z.of_nat k) n = true) → nodes_wf len i ns = true.
Proof.
  revert i. induction ns as [|n ns IH]; intros i H; cbn [nodes_wf]; [done|]. apply andb_true_iff. split.
  - specialize (H O n eq_refl). by rewrite Z.add_0_r in H.
  - apply IH. intros k m Hk. specialize (H (S k) m Hk).
    by replace (i + 1 + Z.of_nat k) with (i + Z.of_nat (S k)) by lia.
Qed.

Lemma tree_to_nodes_wf nf t ns : sk_ok nf t → tree_to_nodes t = Some ns → tree_wf ns = true.
Proof.
  intros Hok E. destruct (tree_to_nodes_total nf t Hok) as (ns' & E' & Hl & Hn). simplify_eq.
  destruct Hok as [Hc Hok]. unfold tree_wf. rewrite !andb_true_iff, !bool_decide_eq_true. split_and!.
  - intros ->. cbn in Hl. lia.
  - lia.
  - apply nodes_wf_intro. intros k n Hk. pose proof (lookup_lt_Some _ _ _ Hk) as Hlt.
    rewrite Hn in Hk by done. unfold node_wf. rewrite orb_true_iff, andb_true_iff, !bool_decide_eq_true.
    destruct (Hok k) as (f & l & r & Hf & Hcl & Hcr & [thr Ht] & [v Hv] & Hs); [lia|].
    destruct (decide (f = -2)) as [->|Hne].
    + rewrite (export_node_leaf _ _ _ Hf Hv) in Hk. injection Hk as <-. by left.
    + rewrite (export_node_split _ _ _ _ _ _ Hf Hne Ht Hcl Hcr) in Hk. injection Hk as <-. right. cbn. lia.
Qed.

Lemma slice_get_nat {A} (l : list A) i : slice_get l (Z.of_nat i) = l !! i.
Proof.
  unfold slice_get. case_decide; [by rewrite Nat2Z.id|]. by rewrite lookup_ge_None_2 by lia.
Qed.

(** From node [i] on, the arrays, the Rust walk and the Python walk agree. *)
Lemma walks_agree nf t ns x i :
  sk_ok nf t → tree_to_nodes t = Some ns → length x = nf → (i < length ns)%nat → Z.of_nat nf ≤ 2 ^ 31 →
  ∃ v, arrays_decide t x i v ∧ ∀ fuel, (length ns - i ≤ fuel)%nat →
    walk_loop fuel ns x (Z.of_nat i) = Done v ∧ json_walk fuel ns x (Z.of_nat i) = Returned v.
Proof.
  intros Hok E Hx Hi Hnf. destruct (tree_to_nodes_total nf t Hok) as (ns' & E' & Hl & Hn). simplify_eq.
  destruct Hok as [Hc Hok].
  remember (length ns - i)%nat as k eqn:Hk. revert i Hk Hi.
  induction k as [k IH] using lt_wf_ind. intros i -> Hi.
  destruct (Hok i) as (f & l & r & Hf & Hcl & Hcr & [thr Ht] & [v Hv] & Hs); [lia|]. specialize (Hn i Hi) as Hni.
  destruct (decide (f = -2)) as [->|Hne].
  - exists v. split; [by apply decide_leaf|]. rewrite (export_node_leaf _ _ _ Hf Hv) in Hni.
    intros [|fuel] Hfu; [lia|]. cbn [walk_loop json_walk]. by rewrite slice_get_nat, index_nat, Hni.
  - destruct Hs as [->|(Hf0 & Hli & Hri)]; [done|]. rewrite (export_node_split _ _ _ _ _ _ Hf Hne Ht Hcl Hcr) in Hni.
    destruct (lookup_lt_is_Some_2 x (Z.to_nat f)) as [xv Hxv]; [lia|].
    set (c := if f64_le xv thr then l else r).
    assert (Hcb : Z.of_nat i < c < node_count t) by (subst c; destruct (f64_le xv thr); lia).
    destruct (IH (length ns - Z.to_nat c)%nat ltac:(lia) (Z.to_nat c) eq_refl ltac:(lia)) as (w & Hd & Hw).
    exists w. split; [by eapply decide_split|]. intros [|fuel] Hfu; [lia|].
    cbn [walk_loop json_walk]. rewrite slice_get_nat, index_nat, Hni. cbn [feature threshold left right value default].
    rewrite !decide_False by lia.
    assert (Hfi : i32_as_usize f = Z.of_nat (Z.to_nat f)) by (unfold i32_as_usize; rewrite Z.mod_small; lia).
    rewrite Hfi, slice_get_nat, Hxv. replace (index x f) with (Some xv)
      by (rewrite <- (Z2Nat.id f) at 1 by lia; by rewrite index_nat).
    cbn [default from_option id].
    replace (if f64_le xv thr then i32_as_usize l else i32_as_usize r) with (Z.of_nat (Z.to_nat c)).
    2: { subst c. unfold i32_as_usize. destruct (f64_le xv thr); rewrite Z.mod_small; lia. }
    replace (if f64_le xv thr then l else r) with (Z.of_nat (Z.to_nat c)) by (subst c; lia).
    apply Hw. lia.
Qed.

(** The loops over the trees, from any score. *)
Lemma scores_agree nf ts nts x lr :
  Forall (sk_ok nf) ts → length x = nf → Z.of_nat nf ≤ 2 ^ 31 →
  mapM (λ tree, ns ← tree_to_nodes tree; Some {| nodes := ns |}) ts = Some nts →
  ∃ vs, Forall2 (λ t v, arrays_decide t x 0 v) ts vs ∧
    ∀ fuel score, (foldr Nat.max O (map (λ t, length (nodes t)) nts) ≤ fuel)%nat →
      let total := foldl (λ s v, f64_add s (f64_mul lr v)) score vs in
      score_loop fuel lr x nts score = Some total ∧ json_score fuel lr x nts score = Some total.
Proof.
  intros Hts Hx Hnf. revert nts. induction Hts as [|t ts Ht _ IH]; intros nts; cbn.
  { intros [= <-]. exists []. split; [constructor|]. by cbn. }
  destruct (tree_to_nodes t) as [ns|] eqn:Et; cbn; [|done].
  destruct (mapM _ ts) as [nts'|]; cbn; [|done]. intros [= <-].
  destruct (IH _ eq_refl) as (vs & Hvs & Hfold).
  destruct (tree_to_nodes_total nf t Ht) as (ns' & E' & Hl & _). simplify_eq.
  destruct (walks_agree (length x) t ns x 0) as (v & Hv & Hw); [done..|destruct Ht; lia|done|].
  exists (v :: vs). split; [by constructor|]. intros fuel score Hfu. cbn in Hfu |- *.
  destruct (Hw fuel ltac:(lia)) as [Hw1 Hw2]. change (Z.of_nat 0) with 0 in Hw1, Hw2. unfold walk_tree. rewrite Hw1, Hw2. apply Hfold. lia.
Qed.

Lemma export_trees_total nf ts :
  Forall (sk_ok nf) ts →
  ∃ nts, mapM (λ tree, ns ← tree_to_nodes tree; Some {| nodes := ns |}) ts = Some nts ∧
    forallb (λ t, tree_wf (nodes t)) nts = true.
Proof.
  induction 1 as [|t ts Ht _ (nts & E & Hw)]; [by exists []|].
  destruct (tree_to_nodes_total nf t Ht) as (ns & Ens & _). cbn. rewrite Ens, E. cbn. eexists. split; [done|].
  cbn. by rewrite (tree_to_nodes_wf nf t ns Ht Ens), Hw.
Qed.

(** ** Properties *)


(** A fitted stump on the number of rows. *)
Definition stump : sk_tree :=
  {| node_count := 3; sk_feature := [0; -2; -2]; sk_threshold := [f64_of_Z 100; f64_of_Z (-2); f64_of_Z (-2)];
     children_left := [1; -1; -1]; children_right := [2; -1; -1];
     sk_value := [f64_zero; f64_lit 5 1; f64_lit (-5) 1] |}.

Definition stump_classifier : classifier :=
  {| class_prior_1 := f64_lit 5 1; n_estimators_ := 1; clf_learning_rate := f64_lit 1 1; estimators_ := [stump] |}.

Lemma stump_ok : sk_ok 5 stump.
Proof.
  split; [cbn; lia|]. intros i Hi. cbn in Hi.
  destruct i as [|[|[|i]]]; [..|lia]; unfold sk_node_ok; cbn; eexists _, _, _; split_and!; eauto; lia.
Qed.


End PyModel.
