(* ===== verification/PyEvaluation.v ===== *)
(** * Comparing the policies offline (ml/evaluation.py)

    The replay of the ML policy over recorded metrics: every (query, column) pair
    is a candidate, scored by the exported model and selected by one knapsack
    over all queries.  Grouping, sorting and summing of data frames (pandas) and
    the exponential (NumPy) are parameters.  [ml_detail_selects] shows that the
    flags, computed through string keys and a set, are the optimal selection. *)

From stdpp Require Import base list gmap strings sorting.
From Stdlib Require Import ZArith Lia Ascii.
From S2P Require Import Prelude F64 Text GbtModel Knapsack Python PyKnapsack PyModel.

Module PyEvaluation.
Import Text Py PyKnapsack PyModel.

(** A row of the aggregated metrics: its two labels and its numeric columns. *)
Record row := { query_id : string; row_col_name : string; numbers : gmap string f64 }.

(** [float(row[c])]; a missing column raises. *)
Definition cell (r : row) (c : string) : option f64 := numbers r !! c.

(** [int(x)] raises on NaNs and infinities. *)
Definition int_of_float (x : f64) : option Z :=
  match x with
  | S754_zero _ => Some 0%Z
  | S754_finite s m e => Some (if s then - Z.shiftl (Zpos m) e else Z.shiftl (Zpos m) e)%Z
  | _ => None
  end.

Record detail := {
  d_key : string;
  d_query_id : string;
  d_col_name : string;
  predicted_p : f64;
  d_weight : Z;
  net_benefit : f64;
  was_beneficial : f64;
  selected : bool;
}.

Definition set_selected (c : detail) (b : bool) : detail :=
  {| d_key := d_key c; d_query_id := d_query_id c; d_col_name := d_col_name c; predicted_p := predicted_p c;
     d_weight := d_weight c; net_benefit := net_benefit c; was_beneficial := was_beneficial c; selected := b |}.

(** ["<query_id>:<col_name>"] *)
Definition candidate_key (r : row) : string := query_id r +:+ String ":" (row_col_name r).

Section Policies.
Context (np_exp : f64 → f64).

(** The dictionary built for one row. *)
Definition row_detail (model : Gbt.GbtModel) (r : row) : option detail :=
  feat ← mapM (λ c, v ← cell r c; Some (c, v)) (Gbt.feature_names model);
  p ← predict_from_json np_exp (Gbt.model_fuel model) (list_to_map feat) model;
  size ← cell r "filter_size_bytes";
  w ← int_of_float size;
  nb ← cell r "net_benefit_ms";
  wb ← cell r "was_beneficial";
  Some {| d_key := candidate_key r; d_query_id := query_id r; d_col_name := row_col_name r; predicted_p := p;
          d_weight := w; net_benefit := nb; was_beneficial := wb; selected := false |}.

Definition knapsack_in (c : detail) : candidate :=
  {| PyKnapsack.col_name := d_key c; PyKnapsack.value := predicted_p c; PyKnapsack.weight := d_weight c |}.

Definition ml_detail (df : list row) (model : Gbt.GbtModel) (budget_bytes : Z) : option (list detail) :=
  candidates ← mapM (row_detail model) df;
  names ← select_filters_exact (knapsack_in <$> candidates) budget_bytes;
  let selected_keys : gset string := list_to_set names in
  Some ((λ c, set_selected c (bool_decide (d_key c ∈ selected_keys))) <$> candidates).

(** [per_query[q] = per_query.get(q, 0.0) + net_benefit] for the selected ones. *)
Fixpoint add_selected (cs : list detail) (per_query : gmap string f64) : gmap string f64 :=
  match cs with
  | [] => per_query
  | c :: cs =>
      add_selected cs
        (if selected c then
           <[d_query_id c := f64_add (default f64_zero (per_query !! d_query_id c)) (net_benefit c)]> per_query
         else per_query)
  end.

Definition ml_guided_global (df : list row) (model : Gbt.GbtModel) (budget_bytes : Z) : option (gmap string f64) :=
  cs ← ml_detail df model budget_bytes; Some (add_selected cs ∅).

(** ** The other policies *)

Definition policy_no_bf (_ : list row) : f64 := f64_zero.

(** [sort_values] orders a group by [col_name]. *)
Context (sort_values : list row → list row) (series_sum : list f64 → f64).

Definition policy_single_hop (group : list row) : option f64 :=
  first ← index (sort_values group) 0; cell first "net_benefit_ms".

Definition policy_always_build (group : list row) : option f64 :=
  nbs ← mapM (λ r, cell r "net_benefit_ms") group; Some (series_sum nbs).

Record totals := { t_no_bf : f64; t_single_hop : f64; t_always_build : f64; t_ml_guided : f64 }.

Definition add_group (ml_per_query : gmap string f64) (t : totals) (g : string * list row) : option totals :=
  let '(qid, group) := g in
  single ← policy_single_hop group;
  always ← policy_always_build group;
  Some {| t_no_bf := f64_add (t_no_bf t) (policy_no_bf group);
          t_single_hop := f64_add (t_single_hop t) single;
          t_always_build := f64_add (t_always_build t) always;
          t_ml_guided := f64_add (t_ml_guided t) (default f64_zero (ml_per_query !! qid)) |}.

(** [groupby("query_id")]: the groups with their labels. *)
Context (groupby : list row → list (string * list row)).

Definition policy_totals (df : list row) (model : Gbt.GbtModel) (budget_bytes : Z) : option totals :=
  ml_per_query ← ml_guided_global df model budget_bytes;
  foldM (add_group ml_per_query) (groupby df)
    {| t_no_bf := f64_zero; t_single_hop := f64_zero; t_always_build := f64_zero; t_ml_guided := f64_zero |}.

End Policies.

(** ** The diagnostic of the best budget *)

Inductive verdict := Fragile | OverPicking | Robust.

Record diagnostic := {
  n_sel : nat; n_sel_b : nat; n_skip : nat; n_skip_b : nat;
  prec_pct : f64; recall_pct : f64; total_net : f64; top3_net : f64; top3_pct : f64;
  diag_verdict : verdict;
  diag_selected : list detail; fn_top5 : list detail;
}.

Definition beneficial (c : detail) : bool := f64_gt (net_benefit c) f64_zero.

(** [sum(c["net_benefit"] for c in l)], adding from the left (Python 3.11; later
    versions compensate the rounding errors of the same sum). *)
Definition sum_benefit (l : list detail) : f64 := foldl (λ s c, f64_add s (net_benefit c)) f64_zero l.

(** [a / max(b, 1) * 100] of two counts. *)
Definition percent (a b : nat) : f64 :=
  f64_mul (f64_div (f64_of_Z (Z.of_nat a)) (f64_of_Z (Z.of_nat (Nat.max b 1)))) (f64_of_Z 100).

Definition by_benefit (l : list detail) : list detail :=
  (sorted_desc ((λ c, (net_benefit c, c)) <$> l)).*2.

Definition sweet_spot_diagnostic (candidates : list detail) : diagnostic :=
  let selected_cs := by_benefit (List.filter selected candidates) in
  let skipped := List.filter (λ c, negb (selected c)) candidates in
  let sel_beneficial := List.filter beneficial selected_cs in
  let skip_beneficial := List.filter beneficial skipped in
  let total_beneficial := length sel_beneficial + length skip_beneficial in
  let prec_pct := percent (length sel_beneficial) (length selected_cs) in
  let recall_pct := percent (length sel_beneficial) total_beneficial in
  let total_net := sum_benefit selected_cs in
  let top3_net := sum_benefit (take 3 selected_cs) in
  let top3_pct := if f64_eq total_net f64_zero then S754_nan
                  else f64_mul (f64_div top3_net total_net) (f64_of_Z 100) in
  {| n_sel := length selected_cs; n_sel_b := length sel_beneficial;
     n_skip := length skipped; n_skip_b := length skip_beneficial;
     prec_pct := prec_pct; recall_pct := recall_pct; total_net := total_net; top3_net := top3_net;
     top3_pct := top3_pct;
     diag_verdict := if f64_gt top3_pct (f64_of_Z 80) then Fragile
                     else if f64_lt prec_pct (f64_of_Z 50) then OverPicking else Robust;
     diag_selected := selected_cs; fn_top5 := take 5 (by_benefit skip_beneficial) |}.

(** ** Lemmas *)

Lemma key_inj q1 c1 q2 c2 :
  free_of ":" q1 = true → free_of ":" q2 = true →
  q1 +:+ String ":" c1 = q2 +:+ String ":" c2 → q1 = q2 ∧ c1 = c2.
Proof.
  revert q2. induction q1 as [|a q1 IH]; intros [|b q2]; unfold free_of in *; cbn;
    rewrite ?andb_true_iff, ?negb_true_iff, ?bool_decide_eq_false.
  - intros _ _ [= ->]. done.
  - intros _ [? _] [= <- _]. done.
  - intros [? _] _ [= -> _]. done.
  - intros [_ H1] [_ H2] [= -> E]. destruct (IH q2 H1 H2 E) as [-> ->]. done.
Qed.

Lemma candidate_keys_nodup df :
  Forall (λ r, free_of ":" (query_id r) = true) df →
  NoDup ((λ r, (query_id r, row_col_name r)) <$> df) → NoDup (candidate_key <$> df).
Proof.
  induction 1 as [|r df Hr Hf IH]; cbn; [constructor|]. rewrite !NoDup_cons. intros [Hn Hnd]. split; [|by apply IH].
  intros (r' & Hk & Hr')%list_elem_of_fmap. apply Hn, list_elem_of_fmap. exists r'. split; [|done].
  rewrite Forall_forall in Hf. destruct (key_inj _ _ _ _ Hr (Hf _ Hr') Hk) as [-> ->]. done.
Qed.

(** The Rust candidate with the same key, weight and score. *)
Definition to_ml (c : detail) : Knapsack.MlCandidate :=
  {| Knapsack.key := d_key c; Knapsack.build_col := d_col_name c; Knapsack.probe_col := d_col_name c;
     Knapsack.weight_bytes := d_weight c; Knapsack.pred_prob := predicted_p c |}.

Lemma row_details_keys np_exp model df cs :
  mapM (row_detail np_exp model) df = Some cs → d_key <$> cs = candidate_key <$> df ∧ length cs = length df.
Proof.
  intros E%mapM_Some. split; [|symmetry; by apply Forall2_length in E].
  induction E as [|r c df cs Hr _ IH]; [done|]. cbn. f_equal; [|done]. revert Hr. unfold row_detail.
  intros (? & _ & (? & _ & (? & _ & (? & _ & (? & _ & (? & _ & [= <-])%bind_Some)%bind_Some)%bind_Some)%bind_Some)%bind_Some)%bind_Some.
  done.
Qed.

Lemma set_selected_marks cs (keys : gset string) sel :
  length sel = length cs →
  (∀ i c, cs !! i = Some c → (d_key c ∈ keys ↔ sel !! i = Some true)) →
  (λ c, set_selected c (bool_decide (d_key c ∈ keys))) <$> cs = zip_with set_selected cs sel.
Proof.
  revert sel. induction cs as [|c cs IH]; intros [|b sel] Hl H; cbn in *; [done..|]. f_equal.
  - f_equal. specialize (H 0 c eq_refl). cbn in H.
    destruct b; [apply bool_decide_eq_true|apply bool_decide_eq_false]; rewrite H; done.
  - apply IH; [lia|]. intros i. apply (H (S i)).
Qed.

(** The sums of a dictionary that starts with [m]. *)
Lemma add_selected_lookup ds m q :
  add_selected ds m !! q =
  match base.filter (λ c, selected c = true ∧ d_query_id c = q) ds with
  | [] => m !! q
  | l => Some (foldl (λ s c, f64_add s (net_benefit c)) (default f64_zero (m !! q)) l)
  end.
Proof.
  revert m. induction ds as [|c ds IH]; intros m; [done|]. cbn [add_selected]. rewrite IH, filter_cons.
  destruct (selected c) eqn:Es.
  - destruct (decide (d_query_id c = q)) as [<-|Hq].
    + rewrite decide_True by done. rewrite lookup_insert_eq. by destruct (base.filter _ ds).
    + rewrite decide_False by tauto. by rewrite lookup_insert_ne.
  - by rewrite decide_False by (intros [? _]; done).
Qed.

(** ** Properties *)

(** The offline replay flags the filters the planner's knapsack would select:
    when the rows are different (query, column) pairs and no query id contains a
    colon, the keys identify the rows, the flags are a selection that fits the
    budget in kilobytes with the largest sum of predicted probabilities, and each
    query is credited with the measured benefit of its flagged filters, summed in
    row order. *)
Theorem ml_detail_selects (np_exp : f64 → f64) model df cs budget :
  (0 < budget)%Z → Forall (λ r, free_of ":" (query_id r) = true) df →
  NoDup ((λ r, (query_id r, row_col_name r)) <$> df) →
  mapM (row_detail np_exp model) df = Some cs → Forall (λ c, f64_nonneg (predicted_p c) = true) cs →
  ∃ sel, length sel = length df ∧
    let ds := zip_with set_selected cs sel in
    ml_detail np_exp df model budget = Some ds ∧
    Knapsack.total_kb (to_ml <$> cs) sel ≤ Knapsack.to_kb budget ∧
    (∀ sel', length sel' = length df → Knapsack.total_kb (to_ml <$> cs) sel' ≤ Knapsack.to_kb budget →
       f64_le (Knapsack.benefit (to_ml <$> cs) sel') (Knapsack.benefit (to_ml <$> cs) sel) = true) ∧
    ∃ per_query, ml_guided_global np_exp df model budget = Some per_query ∧
      ∀ q, per_query !! q = match base.filter (λ c, selected c = true ∧ d_query_id c = q) ds with
                            | [] => None
                            | l => Some (sum_benefit l)
                            end.
Proof.
  intros Hb Hf Hnd E Hp. destruct (row_details_keys _ _ _ _ E) as [Hk Hl].
  exists (Knapsack.selection (to_ml <$> cs) budget).
  rewrite <- Hl, <- (length_fmap to_ml cs) at 1. split; [apply Knapsack.length_selection|].
  set (sel := Knapsack.selection _ _). intros ds.
  assert (Hds : ml_detail np_exp df model budget = Some ds).
  { unfold ml_detail. rewrite E. cbn [mbind option_bind].
    replace (knapsack_in <$> cs) with (of_ml <$> (to_ml <$> cs)) by (by rewrite <- list_fmap_compose).
    destruct (select_run_keys (to_ml <$> cs) budget Hb) as (names & -> & Hn). cbn [mbind option_bind]. f_equal.
    apply set_selected_marks; [by unfold sel; rewrite Knapsack.length_selection, length_fmap|]. intros i c Hi.
    rewrite Hn. change (d_key c) with (Knapsack.key (to_ml c)). apply Knapsack.selected_key_iff.
    - change (map ?f ?l) with (f <$> l). rewrite <- list_fmap_compose. change (Knapsack.key ∘ to_ml) with d_key.
      rewrite Hk. by apply candidate_keys_nodup.
    - apply Knapsack.length_selection.
    - by rewrite list_lookup_fmap, Hi. }
  split_and!; [done|apply Knapsack.selection_fits| |].
  - intros sel' Hl' Hfit. apply Knapsack.selection_optimal; [by apply Forall_fmap| |done].
    rewrite length_fmap. lia.
  - unfold ml_guided_global. rewrite Hds. cbn [mbind option_bind]. eexists. split; [done|]. intros q.
    rewrite add_selected_lookup, lookup_empty. done.
Qed.

Definition sample_row (q c : string) (rows bytes : Z) (benefit : Z) : row :=
  {| query_id := q; row_col_name := c;
     numbers := list_to_map [("build_cardinality", f64_of_Z rows); ("distinct_estimate", f64_of_Z rows);
       ("filter_size_bytes", f64_of_Z bytes); ("build_time_ms", f64_one); ("distinctness_ratio", f64_one);
       ("net_benefit_ms", f64_of_Z benefit); ("was_beneficial", f64_one)]%string |}.

Definition sample_df : list row :=
  [sample_row "q3" "o_orderkey" 50 2048 7; sample_row "q3" "c_custkey" 500 4096 (-2);
   sample_row "q5" "o_orderkey" 50 3072 4].

Definition sample_details : list detail := default [] (mapM (row_detail Gbt.exp_step Gbt.fixture) sample_df).

Lemma ml_detail_selects_witness :
  ∃ sel, length sel = 3 ∧
    let ds := zip_with set_selected sample_details sel in
    ml_detail Gbt.exp_step sample_df Gbt.fixture 5120 = Some ds ∧
    Knapsack.total_kb (to_ml <$> sample_details) sel ≤ 5 ∧
    (∀ sel', length sel' = 3 → Knapsack.total_kb (to_ml <$> sample_details) sel' ≤ 5 →
       f64_le (Knapsack.benefit (to_ml <$> sample_details) sel')
              (Knapsack.benefit (to_ml <$> sample_details) sel) = true) ∧
    ∃ per_query, ml_guided_global Gbt.exp_step sample_df Gbt.fixture 5120 = Some per_query ∧
      ∀ q, per_query !! q = match base.filter (λ c, selected c = true ∧ d_query_id c = q) ds with
                            | [] => None
                            | l => Some (sum_benefit l)
                            end.
Proof.
  apply (ml_detail_selects Gbt.exp_step Gbt.fixture sample_df sample_details 5120).
  - lia.
  - repeat constructor.
  - cbn. repeat (apply NoDup_cons; split; [set_solver|]). apply NoDup_nil_2.
  - vm_compute. reflexivity.
  - vm_compute. repeat constructor.
Defined.

(** A candidate with a flag and a measured benefit. *)
Definition measured (benefit : Z) (b : bool) : detail :=
  {| d_key := ""; d_query_id := ""; d_col_name := ""; predicted_p := f64_one; d_weight := 1;
     net_benefit := f64_of_Z benefit; was_beneficial := f64_one; selected := b |}.

(** The share of the three best picks is taken of the signed total, not of its
    absolute value: picks of 300, 200, 100 and -700 ms lose 100 ms in total, the
    three best are six times that, and the verdict is still that the result is
    robust. *)
Theorem diagnostic_sign_misleads :
  let d := sweet_spot_diagnostic (flip measured true <$> [300; 200; 100; -700]%Z) in
  total_net d = f64_of_Z (-100) ∧ top3_net d = f64_of_Z 600 ∧
  top3_pct d = f64_of_Z (-600) ∧ diag_verdict d = Robust.
Proof. vm_compute. split_and!; reflexivity. Qed.

End PyEvaluation.
