(* ===== verification/Relation.v ===== *)
(** * Columns, batches and rows

    Arrow's in-memory data as the program uses it: typed arrays with nulls,
    record batches, schemas.  A batch is also read as a list of rows, which is
    how the join semantics and the filters are stated.  [filter_record_batch]
    is Arrow's; it is a parameter with its documented behaviour as a class. *)

From stdpp Require Import base list strings gmap.
From Stdlib Require Import ZArith Lia.
From S2P Require Import Prelude Text.

(** ** Data types, fields, schemas *)

Inductive DataType := DBoolean | DInt32 | DInt64 | DUtf8 | DOther (name : string).

#[global] Instance DataType_eq_dec : EqDecision DataType.
Proof. solve_decision. Defined.

Record Field := { f_name : string; f_type : DataType; f_nullable : bool }.

#[global] Instance Field_eq_dec : EqDecision Field.
Proof. solve_decision. Defined.

Abbreviation Schema := (list Field).

(** [schema.fields().iter().position(|f| f.name() == name)] *)
Fixpoint position (s : Schema) (name : string) : option nat :=
  match s with
  | [] => None
  | f :: s => if decide (f_name f = name) then Some 0 else S <$> position s name
  end.

(** [can_project]: the indices are columns of the schema. *)
Definition can_project {F} (s : list F) (projection : option (list nat)) : Result unit :=
  match projection with
  | None => Ok ()
  | Some columns =>
      if forallb (λ i, bool_decide (i < length s)) columns then Ok ()
      else Err (ArrowError ("project index " +:+ Text.usize_text (max_list columns)
                            +:+ " out of bounds, max field " +:+ Text.usize_text (length s)))
  end.

(** ** Arrays *)

(** The array types the filters downcast to; an array of any other type keeps
    its values as codes. *)
Inductive array :=
| BooleanArray (vs : list (option bool))
| Int32Array (vs : list (option Z))
| Int64Array (vs : list (option Z))
| StringArray (vs : list (option string))
| OtherArray (ty : string) (vs : list (option Z)).

Inductive value :=
| VBoolean (b : bool) | VInt32 (z : Z) | VInt64 (z : Z) | VUtf8 (s : string) | VOther (ty : string) (z : Z).

#[global] Instance value_eq_dec : EqDecision value.
Proof. solve_decision. Defined.

Definition value_type (v : value) : DataType :=
  match v with
  | VBoolean _ => DBoolean
  | VInt32 _ => DInt32
  | VInt64 _ => DInt64
  | VUtf8 _ => DUtf8
  | VOther ty _ => DOther ty
  end.

(** The cells of an array; [None] is null. *)
Definition cells (a : array) : list (option value) :=
  match a with
  | BooleanArray vs => map (fmap VBoolean) vs
  | Int32Array vs => map (fmap VInt32) vs
  | Int64Array vs => map (fmap VInt64) vs
  | StringArray vs => map (fmap VUtf8) vs
  | OtherArray ty vs => map (fmap (VOther ty)) vs
  end.

Definition array_len (a : array) : nat :=
  match a with
  | BooleanArray vs => length vs
  | Int32Array vs | Int64Array vs => length vs
  | StringArray vs => length vs
  | OtherArray _ vs => length vs
  end.

Fixpoint mask_list {A} (mask : list bool) (l : list A) : list A :=
  match mask, l with
  | b :: mask, x :: l => if b then x :: mask_list mask l else mask_list mask l
  | _, _ => []
  end.

Definition mask_array (mask : list bool) (a : array) : array :=
  match a with
  | BooleanArray vs => BooleanArray (mask_list mask vs)
  | Int32Array vs => Int32Array (mask_list mask vs)
  | Int64Array vs => Int64Array (mask_list mask vs)
  | StringArray vs => StringArray (mask_list mask vs)
  | OtherArray ty vs => OtherArray ty (mask_list mask vs)
  end.

(** ** Record batches *)

Record RecordBatch := { columns : list array; num_rows : nat }.

Definition batch_wf (b : RecordBatch) : Prop :=
  Forall (λ a, array_len a = num_rows b) (columns b).

Abbreviation row := (list (option value)).

(** Row [i]: the [i]-th cell of every column. *)
Definition row_at (b : RecordBatch) (i : nat) : row :=
  map (λ a, default None (cells a !! i)) (columns b).

Definition rows (b : RecordBatch) : list row := tab (num_rows b) (row_at b).

Definition mask_batch (mask : list bool) (b : RecordBatch) : RecordBatch :=
  {| columns := map (mask_array mask) (columns b); num_rows := length (mask_list mask (rows b)) |}.

(** [arrow::compute::filter_record_batch]; the right summand is an [ArrowError]. *)
Class ArrowFilter := {
  filter_record_batch : RecordBatch → list bool → RecordBatch + string;
}.

(** Documented: "Returns a filtered RecordBatch where the corresponding
    elements of predicate are true". *)
Class ArrowFilterOk `{ArrowFilter} : Prop := {
  filter_record_batch_ok : ∀ b mask,
    batch_wf b → length mask = num_rows b →
    filter_record_batch b mask = inl (mask_batch mask b);
}.

(** ** Lemmas *)

Lemma seq_lookup {A} (d : A) l : map (λ i, default d (l !! i)) (seq 0 (length l)) = l.
Proof.
  apply list_eq. intros i. change (map ?f ?k) with (f <$> k). rewrite list_lookup_fmap.
  destruct (decide (i < length l)) as [Hi|Hi].
  - rewrite lookup_seq_lt by done. destruct (lookup_lt_is_Some_2 l i Hi) as [x Hx]. cbn. by rewrite Hx.
  - by rewrite lookup_seq_ge, lookup_ge_None_2 by lia.
Qed.

Lemma length_cells a : length (cells a) = array_len a.
Proof. destruct a; apply length_map. Qed.

Lemma length_rows b : length (rows b) = num_rows b.
Proof. apply length_tab. Qed.

Lemma position_Some s name i :
  position s name = Some i → ∃ f, s !! i = Some f ∧ f_name f = name.
Proof.
  revert i. induction s as [|f s IH]; intros i; [done|]. cbn. case_decide.
  - intros [= <-]. eauto.
  - destruct (position s name) as [j|]; [|done]. intros [= <-]. by apply IH.
Qed.

Lemma mask_list_map {A B} (f : A → B) mask l :
  mask_list mask (map f l) = map f (mask_list mask l).
Proof.
  revert l. induction mask as [|b mask IH]; intros [|x l]; [done..|]. cbn.
  destruct b; cbn; by rewrite IH.
Qed.

Lemma length_mask_list {A B} mask (l : list A) (k : list B) :
  length l = length k → length (mask_list mask l) = length (mask_list mask k).
Proof.
  revert l k. induction mask as [|b mask IH]; intros [|x l] [|y k]; try done. cbn. intros [= Hl].
  destruct b; cbn; by rewrite (IH l k Hl).
Qed.

Lemma mask_list_le {A} mask (l : list A) : length (mask_list mask l) ≤ length l.
Proof.
  revert l. induction mask as [|b mask IH]; intros [|x l]; cbn; [lia..|].
  destruct b; cbn; specialize (IH l); lia.
Qed.

(** A mask computed from the elements is a filter. *)
Lemma mask_list_filter {A} (p : A → bool) l : mask_list (map p l) l = filter (λ x, p x = true) l.
Proof.
  induction l as [|x l IH]; [done|]. cbn [map mask_list]. rewrite filter_cons.
  destruct (p x) eqn:E; [rewrite decide_True by done|rewrite decide_False by congruence]; by rewrite IH.
Qed.

Lemma cells_mask mask a : cells (mask_array mask a) = mask_list mask (cells a).
Proof. destruct a; cbn; by rewrite mask_list_map. Qed.

Lemma array_len_mask mask a : array_len (mask_array mask a) = length (mask_list mask (cells a)).
Proof. by rewrite <- length_cells, cells_mask. Qed.

(** Masking two lists of the same length keeps the same positions. *)
Lemma lookup_mask_list_zip {A B} mask (l : list A) (k : list B) i x :
  length l = length k → mask_list mask l !! i = Some x →
  ∃ j, l !! j = Some x ∧ j < length k ∧ mask_list mask k !! i = k !! j.
Proof.
  revert l k i. induction mask as [|b mask IH]; intros [|y l] [|z k] i; try done.
  cbn [length mask_list]. intros [= Hl].
  destruct b; [destruct i as [|i]; cbn|].
  - intros [= ->]. exists 0. split_and!; [done|lia|done].
  - intros Hx. destruct (IH l k i Hl Hx) as (j & H1 & H2 & H3). exists (S j). split_and!; [done|lia|done].
  - intros Hx. destruct (IH l k i Hl Hx) as (j & H1 & H2 & H3). exists (S j). split_and!; [done|lia|done].
Qed.

Lemma mask_batch_wf mask b : batch_wf b → batch_wf (mask_batch mask b).
Proof.
  intros H. unfold batch_wf in *. cbn. apply Forall_fmap. eapply Forall_impl; [exact H|].
  intros a Ha. cbn. rewrite array_len_mask. apply length_mask_list.
  by rewrite length_cells, length_rows.
Qed.

Lemma mask_list_tab {A} mask n (f : nat → A) :
  mask_list mask (tab n f) = map f (mask_list mask (seq 0 n)).
Proof. unfold tab. by rewrite mask_list_map. Qed.

(** The rows of a masked batch are the masked rows. *)
Lemma rows_mask mask b : batch_wf b → rows (mask_batch mask b) = mask_list mask (rows b).
Proof.
  intros Hwf. apply list_eq. intros i.
  destruct (decide (i < num_rows (mask_batch mask b))) as [Hi|Hi].
  2: { rewrite !lookup_ge_None_2; [done| |]; rewrite ?length_rows; cbn in *; lia. }
  unfold rows at 1. rewrite lookup_tab by done. cbn [mask_batch num_rows] in Hi.
  destruct (lookup_lt_is_Some_2 _ _ Hi) as [r Hr]. rewrite Hr. f_equal.
  unfold rows in Hr. rewrite mask_list_tab, list_lookup_fmap in Hr.
  destruct (mask_list mask (seq 0 (num_rows b)) !! i) as [j|] eqn:Hj; [|done].
  cbn in Hr. injection Hr as <-. unfold row_at. cbn [mask_batch columns]. rewrite map_map.
  apply map_ext_in. intros a Ha. rewrite cells_mask.
  assert (Hlen : length (seq 0 (num_rows b)) = length (cells a)).
  { rewrite length_seq, length_cells. unfold batch_wf in Hwf. rewrite Forall_forall in Hwf.
    symmetry. apply Hwf. by apply list_elem_of_In. }
  destruct (lookup_mask_list_zip mask _ (cells a) i j Hlen Hj) as (j' & Hj' & Hlt & ->).
  rewrite lookup_seq in Hj'. destruct Hj' as [-> _]. done.
Qed.

#[export] Hint Resolve mask_batch_wf : engine.

(** A filter that does what is documented, for examples. *)
#[local] Instance plain_filter : ArrowFilter := {
  filter_record_batch b mask := inl (mask_batch mask b);
}.

#[local] Instance plain_filter_ok : ArrowFilterOk.
Proof. split. done. Qed.
