(* ===== verification/Stats.v ===== *)
(** * Statistics (common/src/stats.rs, common/src/utils/aggregate.rs)

    [Precision] values, column and table statistics, and the operations the
    planner derives statistics with.  [ScalarValue] is an interface: its order,
    checked arithmetic and distance.  Proved: what is marked exact stays true
    under the arithmetic, under [with_fetch] and under merging; projection
    moves the right columns. *)

From stdpp Require Import base list strings pretty sets.
From Stdlib Require Import ZArith Lia.
From S2P Require Import Prelude F64 Relation.

#[local] Open Scope Z_scope.

(** ** [usize] *)

Definition checked_add (a b : Z) : option Z := if a + b <=? usize_max then Some (a + b) else None.
Definition checked_sub (a b : Z) : option Z := if b <=? a then Some (a - b) else None.
Definition checked_mul (a b : Z) : option Z := if a * b <=? usize_max then Some (a * b) else None.
Definition saturating_add (a b : Z) : Z := Z.min usize_max (a + b).
Definition saturating_sub (a b : Z) : Z := Z.max 0 (a - b).
Definition saturating_mul (a b : Z) : Z := Z.min usize_max (a * b).

(** [x.ceil() as usize] and [x.round() as usize] *)
Definition f64_ceil_usize (x : f64) : Z :=
  match x with
  | S754_infinity false => usize_max
  | S754_finite false m e =>
      Z.min usize_max (if 0 <=? e then Z.shiftl (Zpos m) e else - (- Zpos m / 2 ^ (- e)))
  | _ => 0
  end.

Definition f64_round_usize (x : f64) : Z :=
  match x with
  | S754_infinity false => usize_max
  | S754_finite false m e =>
      Z.min usize_max (if 0 <=? e then Z.shiftl (Zpos m) e else (Zpos m + 2 ^ (- e - 1)) / 2 ^ (- e))
  | _ => 0
  end.

(** ** Scalars *)

(** What statistics use of [ScalarValue]; [scalar_ge a b] is [a >= b] of its
    partial order, [false] when incomparable. *)
Class ScalarOps := {
  ScalarValue : Type;
  scalar_type : ScalarValue → string;
  scalar_ge : ScalarValue → ScalarValue → bool;
  scalar_add_checked : ScalarValue → ScalarValue → Result ScalarValue;
  scalar_sub : ScalarValue → ScalarValue → Result ScalarValue;
  scalar_mul_checked : ScalarValue → ScalarValue → Result ScalarValue;
  scalar_cast_to_sum_type : ScalarValue → Result ScalarValue;
  scalar_distance : ScalarValue → ScalarValue → option Z;
}.

(** Values of one type are totally preordered. *)
Class ScalarOrd `{ScalarOps} : Prop := {
  scalar_ge_total : ∀ a b, scalar_type a = scalar_type b → scalar_ge a b = true ∨ scalar_ge b a = true;
  scalar_ge_trans : ∀ a b c, scalar_ge a b = true → scalar_ge b c = true → scalar_ge a c = true;
}.

(** ** Precision *)

Inductive Precision (T : Type) :=
| Exact (v : T)
| Inexact (v : T)
| Absent.
Arguments Exact {T} v.
Arguments Inexact {T} v.
Arguments Absent {T}.

Module Precision.

Section Ops.
Context {T : Type}.

Definition get_value (p : Precision T) : option T :=
  match p with Exact v | Inexact v => Some v | Absent => None end.

Definition map {U} (f : T → U) (p : Precision T) : Precision U :=
  match p with
  | Exact v => Exact (f v)
  | Inexact v => Inexact (f v)
  | Absent => Absent
  end.

Definition is_exact (p : Precision T) : option bool :=
  match p with
  | Exact _ => Some true
  | Inexact _ => Some false
  | Absent => None
  end.

Definition to_inexact (p : Precision T) : Precision T :=
  match p with Exact v => Inexact v | _ => p end.

(** [max] and [min] choose by [a >= b]. *)
Definition max (ge : T → T → bool) (p q : Precision T) : Precision T :=
  match p, q with
  | Exact a, Exact b => Exact (if ge a b then a else b)
  | Inexact a, Exact b | Exact a, Inexact b | Inexact a, Inexact b =>
      Inexact (if ge a b then a else b)
  | _, _ => Absent
  end.

Definition min (ge : T → T → bool) (p q : Precision T) : Precision T :=
  match p, q with
  | Exact a, Exact b => Exact (if ge a b then b else a)
  | Inexact a, Exact b | Exact a, Inexact b | Inexact a, Inexact b =>
      Inexact (if ge a b then b else a)
  | _, _ => Absent
  end.
End Ops.

(** [checked.map_or_else(|| Inexact(saturated), Exact)] *)
Definition exact_or (checked : option Z) (saturated : Z) : Precision Z :=
  match checked with Some v => Exact v | None => Inexact saturated end.

Definition add (p q : Precision Z) : Precision Z :=
  match p, q with
  | Exact a, Exact b => exact_or (checked_add a b) (saturating_add a b)
  | Inexact a, Exact b | Exact a, Inexact b | Inexact a, Inexact b => Inexact (saturating_add a b)
  | _, _ => Absent
  end.

Definition sub (p q : Precision Z) : Precision Z :=
  match p, q with
  | Exact a, Exact b => exact_or (checked_sub a b) (saturating_sub a b)
  | Inexact a, Exact b | Exact a, Inexact b | Inexact a, Inexact b => Inexact (saturating_sub a b)
  | _, _ => Absent
  end.

Definition multiply (p q : Precision Z) : Precision Z :=
  match p, q with
  | Exact a, Exact b => exact_or (checked_mul a b) (saturating_mul a b)
  | Inexact a, Exact b | Exact a, Inexact b | Inexact a, Inexact b => Inexact (saturating_mul a b)
  | _, _ => Absent
  end.

Definition with_estimated_selectivity (p : Precision Z) (selectivity : f64) : Precision Z :=
  to_inexact (map (λ v, f64_ceil_usize (f64_mul (f64_of_Z v) selectivity)) p).

Section Scalar.
Context `{ScalarOps}.

(** [.map(tag).unwrap_or(Absent)] *)
Definition or_absent (tag : ScalarValue → Precision ScalarValue) (r : Result ScalarValue)
    : Precision ScalarValue :=
  match r with Ok v => tag v | Err _ => Absent end.

Definition scalar_op (op : ScalarValue → ScalarValue → Result ScalarValue)
    (p q : Precision ScalarValue) : Precision ScalarValue :=
  match p, q with
  | Exact a, Exact b => or_absent Exact (op a b)
  | Inexact a, Exact b | Exact a, Inexact b | Inexact a, Inexact b => or_absent Inexact (op a b)
  | _, _ => Absent
  end.

Definition scalar_add : Precision ScalarValue → Precision ScalarValue → Precision ScalarValue :=
  scalar_op scalar_add_checked.
Definition scalar_subtract : Precision ScalarValue → Precision ScalarValue → Precision ScalarValue :=
  scalar_op scalar_sub.
Definition scalar_multiply : Precision ScalarValue → Precision ScalarValue → Precision ScalarValue :=
  scalar_op scalar_mul_checked.

Definition cast_to_sum_type (p : Precision ScalarValue) : Precision ScalarValue :=
  match is_exact p, get_value p with
  | Some true, Some v => or_absent Exact (scalar_cast_to_sum_type v)
  | Some false, Some v => or_absent Inexact (scalar_cast_to_sum_type v)
  | _, _ => Absent
  end.

(** [precision_add]: [lhs] is taken, so every early return leaves [Absent]. *)
Definition precision_add (lhs rhs : Precision ScalarValue) : Precision ScalarValue :=
  match lhs with
  | Absent => Absent
  | Exact l | Inexact l =>
      match rhs with
      | Absent => Absent
      | Exact r | Inexact r =>
          match scalar_add_checked l r with
          | Err _ => Absent
          | Ok v => if default false (is_exact lhs) && default false (is_exact rhs) then Exact v
                    else Inexact v
          end
      end
  end.

Definition add_for_sum (p q : Precision ScalarValue) : Precision ScalarValue :=
  precision_add (cast_to_sum_type p) (cast_to_sum_type q).
End Scalar.
End Precision.

(** ** Column and table statistics *)

Module Statistics.
Section Statistics.
Context `{ScalarOps}.

Record ColumnStatistics := {
  null_count : Precision Z;
  max_value : Precision ScalarValue;
  min_value : Precision ScalarValue;
  sum_value : Precision ScalarValue;
  distinct_count : Precision Z;
  byte_size : Precision Z;
}.

Record Statistics := {
  num_rows : Precision Z;
  total_byte_size : Precision Z;
  column_statistics : list ColumnStatistics;
}.

Definition new_unknown_column : ColumnStatistics :=
  {| null_count := Absent; max_value := Absent; min_value := Absent; sum_value := Absent;
     distinct_count := Absent; byte_size := Absent |}.

Definition unknown_column (schema : Schema) : list ColumnStatistics :=
  map (λ _, new_unknown_column) schema.

Definition new_unknown (schema : Schema) : Statistics :=
  {| num_rows := Absent; total_byte_size := Absent; column_statistics := unknown_column schema |}.

Definition column_to_inexact (cs : ColumnStatistics) : ColumnStatistics :=
  {| null_count := Precision.to_inexact (null_count cs);
     max_value := Precision.to_inexact (max_value cs);
     min_value := Precision.to_inexact (min_value cs);
     sum_value := Precision.to_inexact (sum_value cs);
     distinct_count := Precision.to_inexact (distinct_count cs);
     byte_size := Precision.to_inexact (byte_size cs) |}.

Definition to_inexact (s : Statistics) : Statistics :=
  {| num_rows := Precision.to_inexact (num_rows s);
     total_byte_size := Precision.to_inexact (total_byte_size s);
     column_statistics := map column_to_inexact (column_statistics s) |}.

(** [a + b] on [usize], which aborts on overflow. *)
Definition usize_add (a b : Z) : option Z := checked_add a b.

(** The width of a row, unless a field has no fixed width. *)
Fixpoint row_width (primitive_width : DataType → option Z) (schema : Schema) (size : Z)
    : option (option Z) :=
  match schema with
  | [] => Some (Some size)
  | f :: schema =>
      match primitive_width (f_type f) with
      | Some width => size' ← usize_add size width; row_width primitive_width schema size'
      | None => Some None
      end
  end.

Definition calculate_total_byte_size (primitive_width : DataType → option Z) (schema : Schema)
    (s : Statistics) : option Statistics :=
  row_size ← row_width primitive_width schema 0;
  Some {| num_rows := num_rows s;
          total_byte_size :=
            match row_size with
            | None => Precision.to_inexact (total_byte_size s)
            | Some size => Precision.multiply (num_rows s) (Exact size)
            end;
          column_statistics := column_statistics s |}.

(** *** Projection *)

Inductive Slot := Taken (prev_idx : nat) | Present (c : ColumnStatistics).

(** One projected index: the column is moved out, or copied from where it went. *)
Definition project_step (st : list Slot * list ColumnStatistics) (idx : nat)
    : option (list Slot * list ColumnStatistics) :=
  let '(columns, out) := st in
  slot ← vec_get columns idx;
  columns' ← vec_set columns idx (Taken (length out));
  match slot with
  | Present col => Some (columns', out ++ [col])
  | Taken prev_idx => c ← vec_get out prev_idx; Some (columns', out ++ [c])
  end.

Fixpoint project_loop (projection : list nat) (st : list Slot * list ColumnStatistics)
    : option (list Slot * list ColumnStatistics) :=
  match projection with
  | [] => Some st
  | idx :: projection => st' ← project_step st idx; project_loop projection st'
  end.

Definition project_impl (s : Statistics) (projection : option (list nat)) : option Statistics :=
  match projection with
  | None => Some s
  | Some projection =>
      st ← project_loop projection (map Present (column_statistics s), []);
      Some {| num_rows := num_rows s; total_byte_size := total_byte_size s;
              column_statistics := st.2 |}
  end.

(** *** Limits *)

Definition check_num_rows (v : option Z) (is_exact : bool) : Precision Z :=
  match v with
  | Some v => if is_exact then Exact v else Inexact v
  | None => Absent
  end.

(** The number of rows after [skip] and [fetch]; [inl] is the early return of
    the statistics as they are. *)
Definition fetched_rows (n : Precision Z) (fetch : option Z) (skip n_partitions : Z)
    : option (unit + Precision Z) :=
  let fetch_val := default usize_max fetch in
  match n with
  | Exact nr | Inexact nr =>
      if nr <=? skip then Some (inr (Exact 0))
      else if (nr <=? fetch_val) && (skip =? 0) then Some (inl ())
      else
        is_exact ← Precision.is_exact n;
        Some (inr (check_num_rows
                     (if nr - skip <=? fetch_val then checked_mul (nr - skip) n_partitions
                      else checked_mul fetch_val n_partitions) is_exact))
  | Absent => Some (inr (check_num_rows (v ← fetch; checked_mul v n_partitions) false))
  end.

Definition row_ratio (before after : Precision Z) : f64 :=
  match Precision.get_value before, Precision.get_value after with
  | Some nr_before, Some nr_after =>
      if nr_before =? 0 then f64_zero else f64_div (f64_of_Z nr_after) (f64_of_Z nr_before)
  | _, _ => f64_zero
  end.

Definition scale (ratio : f64) (p : Precision Z) : Precision Z :=
  match p with
  | Exact n | Inexact n => Inexact (f64_to_usize (f64_mul (f64_of_Z n) ratio))
  | Absent => Absent
  end.

(** [try_fold(0, |acc, val| val.map(|v| acc + v))] *)
Fixpoint sum_sizes (l : list (Precision Z)) (acc : Z) : option (option Z) :=
  match l with
  | [] => Some (Some acc)
  | p :: l =>
      match Precision.get_value p with
      | None => Some None
      | Some v => acc' ← usize_add acc v; sum_sizes l acc'
      end
  end.

Definition with_byte_size (cs : ColumnStatistics) (b : Precision Z) : ColumnStatistics :=
  {| null_count := null_count cs; max_value := max_value cs; min_value := min_value cs;
     sum_value := sum_value cs; distinct_count := distinct_count cs; byte_size := b |}.

Definition with_fetch (s : Statistics) (fetch : option Z) (skip n_partitions : Z)
    : option (Result Statistics) :=
  r ← fetched_rows (num_rows s) fetch skip n_partitions;
  match r with
  | inl _ => Some (Ok s)
  | inr rows =>
      let ratio := row_ratio (num_rows s) rows in
      let columns := map (λ cs, let cs := column_to_inexact cs in
                                with_byte_size cs (scale ratio (byte_size cs)))
                         (column_statistics s) in
      sum_scan_bytes ← sum_sizes (map byte_size columns) 0;
      Some (Ok {| num_rows := rows;
                  total_byte_size :=
                    match sum_scan_bytes with
                    | Some sum => Inexact sum
                    | None => scale ratio (total_byte_size s)
                    end;
                  column_statistics := columns |})
  end.

(** *** Merging *)

Definition scalar_le (a b : ScalarValue) : bool := scalar_ge b a.
Definition scalar_gt (a b : ScalarValue) : bool := scalar_ge a b && negb (scalar_ge b a).

(** The outer [option] is [None] for a panic, the inner the function's own. *)
Definition estimate_ndv_with_overlap (left right : ColumnStatistics) (ndv_left ndv_right : Z)
    : option (option Z) :=
  match Precision.get_value (min_value left), Precision.get_value (max_value left),
        Precision.get_value (min_value right), Precision.get_value (max_value right) with
  | Some left_min, Some left_max, Some right_min, Some right_max =>
      match scalar_distance left_max left_min, scalar_distance right_max right_min with
      | Some range_left, Some range_right =>
          if (range_left =? 0) || (range_right =? 0) then
            if scalar_le left_min right_max && scalar_le right_min left_max
            then Some (Some (Z.max ndv_left ndv_right))
            else Some <$> usize_add ndv_left ndv_right
          else
            let overlap_min := if scalar_ge left_min right_min then left_min else right_min in
            let overlap_max := if scalar_le left_max right_max then left_max else right_max in
            if scalar_gt overlap_min overlap_max then Some <$> usize_add ndv_left ndv_right
            else
              match scalar_distance overlap_max overlap_min with
              | None => Some None
              | Some d =>
                  let overlap_range := f64_of_Z d in
                  let overlap_left := f64_div overlap_range (f64_of_Z range_left) in
                  let overlap_right := f64_div overlap_range (f64_of_Z range_right) in
                  let intersection := f64_max (f64_mul overlap_left (f64_of_Z ndv_left))
                                              (f64_mul overlap_right (f64_of_Z ndv_right)) in
                  let only_left := f64_mul (f64_sub f64_one overlap_left) (f64_of_Z ndv_left) in
                  let only_right := f64_mul (f64_sub f64_one overlap_right) (f64_of_Z ndv_right) in
                  Some (Some (f64_round_usize (f64_add (f64_add intersection only_left) only_right)))
              end
      | _, _ => Some None
      end
  | _, _, _, _ => Some None
  end.

(** One column of the accumulator and of the next item. *)
Definition merge_column (c item : ColumnStatistics) : option ColumnStatistics :=
  distinct ←
    match Precision.get_value (distinct_count c), Precision.get_value (distinct_count item) with
    | Some l, Some r =>
        e ← estimate_ndv_with_overlap c item l r; Some (Inexact (default (Z.max l r) e))
    | _, _ => Some Absent
    end;
  Some {| null_count := Precision.add (null_count c) (null_count item);
          max_value := Precision.max scalar_ge (max_value c) (max_value item);
          min_value := Precision.min scalar_ge (min_value c) (min_value item);
          sum_value := Precision.precision_add (sum_value c)
                         (Precision.cast_to_sum_type (sum_value item));
          distinct_count := distinct;
          byte_size := Precision.add (byte_size c) (byte_size item) |}.

(** The inner loop; indexing past the item's columns panics. *)
Fixpoint merge_columns (acc item : list ColumnStatistics) : option (list ColumnStatistics) :=
  match acc, item with
  | [], _ => Some []
  | _ :: _, [] => panic!
  | c :: acc, i :: item =>
      c' ← merge_column c i; acc' ← merge_columns acc item; Some (c' :: acc')
  end.

Fixpoint merge_items (acc : list ColumnStatistics) (items : list Statistics)
    : option (list ColumnStatistics) :=
  match items with
  | [] => Some acc
  | s :: items => acc' ← merge_columns acc (column_statistics s); merge_items acc' items
  end.

(** The first item with another number of columns than the first. *)
Fixpoint column_mismatch (num_cols i : nat) (items : list Statistics) : option (nat * nat) :=
  match items with
  | [] => None
  | s :: items =>
      if decide (length (column_statistics s) = num_cols) then column_mismatch num_cols (S i) items
      else Some (length (column_statistics s), i)
  end.

Definition first_columns (s : Statistics) : list ColumnStatistics :=
  map (λ cs, {| null_count := null_count cs; max_value := max_value cs; min_value := min_value cs;
                sum_value := Precision.cast_to_sum_type (sum_value cs);
                distinct_count := distinct_count cs; byte_size := byte_size cs |})
      (column_statistics s).

Definition try_merge_iter (items : list Statistics) (schema : Schema) : option (Result Statistics) :=
  match items with
  | [] => Some (Ok (new_unknown schema))
  | [s] => Some (Ok s)
  | first :: rest =>
      match column_mismatch (length (column_statistics first)) 1 rest with
      | Some (n, i) =>
          Some (Err (Plan ("Cannot merge statistics with different number of columns: "
            +:+ pretty (length (column_statistics first)) +:+ " vs " +:+ pretty n
            +:+ " (item " +:+ pretty i +:+ ")")))
      | None =>
          columns ← merge_items (first_columns first) rest;
          Some (Ok {| num_rows := foldl (λ n s, Precision.add n (num_rows s)) (Exact 0) items;
                      total_byte_size :=
                        foldl (λ n s, Precision.add n (total_byte_size s)) (Exact 0) items;
                      column_statistics := columns |})
      end
  end.

(** ** What statistics claim *)

Abbreviation column := (list (option ScalarValue)).

Definition nulls (col : column) : Z := Z.of_nat (length (filter (λ v, v = None) col)).

(** [p] is right about [v] if it is marked exact. *)
Definition truthful {T} (p : Precision T) (P : T → Prop) : Prop :=
  match p with Exact v => P v | _ => True end.

Definition is_min (col : column) (m : ScalarValue) : Prop :=
  Some m ∈ col ∧ ∀ v, Some v ∈ col → scalar_ge v m = true.

Definition is_max (col : column) (m : ScalarValue) : Prop :=
  Some m ∈ col ∧ ∀ v, Some v ∈ col → scalar_ge m v = true.

Record describes_column (cs : ColumnStatistics) (col : column) : Prop := {
  dc_nulls : truthful (null_count cs) (λ n, n = nulls col);
  dc_min : truthful (min_value cs) (is_min col);
  dc_max : truthful (max_value cs) (is_max col);
}.

(** A table: its columns, of equal length. *)
Record describes (s : Statistics) (rows : Z) (cols : list column) : Prop := {
  ds_rows : truthful (num_rows s) (λ n, n = rows);
  ds_cols : Forall2 describes_column (column_statistics s) cols;
}.

(** Values of one column have one type. *)
Definition typed (t : string) (col : column) : Prop :=
  ∀ v, Some v ∈ col → scalar_type v = t.

(** ** Arithmetic *)

Lemma truthful_exact_or c s (P : Z → Prop) :
  (∀ v, c = Some v → P v) → truthful (Precision.exact_or c s) P.
Proof. destruct c; cbn; auto. Qed.

Lemma add_truthful p q a b :
  truthful p (λ n, n = a) → truthful q (λ n, n = b) → truthful (Precision.add p q) (λ n, n = a + b).
Proof.
  destruct p, q; cbn [truthful Precision.add]; try done. intros -> ->. apply truthful_exact_or.
  unfold checked_add. intros v. case_match; [|done]. by intros [= <-].
Qed.

Lemma sub_truthful p q a b :
  truthful p (λ n, n = a) → truthful q (λ n, n = b) → truthful (Precision.sub p q) (λ n, n = a - b).
Proof.
  destruct p, q; cbn [truthful Precision.sub]; try done. intros -> ->. apply truthful_exact_or.
  unfold checked_sub. intros v. case_match; [|done]. by intros [= <-].
Qed.

Lemma multiply_truthful p q a b :
  truthful p (λ n, n = a) → truthful q (λ n, n = b) →
  truthful (Precision.multiply p q) (λ n, n = a * b).
Proof.
  destruct p, q; cbn [truthful Precision.multiply]; try done. intros -> ->. apply truthful_exact_or.
  unfold checked_mul. intros v. case_match; [|done]. by intros [= <-].
Qed.

(** ** Projection *)

(** A column is where the slots say: in place, or already moved to the output. *)
Definition slots_ok (cols : list ColumnStatistics) (slots : list Slot) (out : list ColumnStatistics) : Prop :=
  Forall2 (λ c slot, match slot with Present c' => c' = c | Taken j => out !! j = Some c end) cols slots.

Lemma project_step_ok cols slots out idx :
  slots_ok cols slots out →
  match cols !! idx with
  | Some c => ∃ slots', project_step (slots, out) idx = Some (slots', out ++ [c]) ∧
                        slots_ok cols slots' (out ++ [c])
  | None => project_step (slots, out) idx = None
  end.
Proof.
  intros Hok. unfold project_step, vec_get. pose proof (Forall2_length _ _ _ Hok) as Hlen.
  destruct (cols !! idx) as [c|] eqn:Hc.
  - destruct (Forall2_lookup_l _ _ _ _ _ Hok Hc) as (slot & Hs & Hslot). rewrite Hs.
    cbn [mbind option_bind]. rewrite vec_set_in by (by eapply lookup_lt_Some). cbn [mbind option_bind].
    exists (<[idx := Taken (length out)]> slots). split.
    { destruct slot as [j|c']; [|by subst]. by rewrite Hslot. }
    apply Forall2_lookup. intros i. destruct (decide (i = idx)) as [->|Hne].
    + rewrite Hc, list_lookup_insert_eq by (by eapply lookup_lt_Some). constructor.
      by apply list_lookup_middle.
    + rewrite list_lookup_insert_ne by done.
      pose proof (proj1 (Forall2_lookup _ _ _) Hok i) as Hi. inversion Hi as [c0 s0 H0|]; constructor.
      destruct s0; [|done]. rewrite lookup_app_l; [done|]. by eapply lookup_lt_Some.
  - apply lookup_ge_None_1 in Hc. rewrite Hlen in Hc. by rewrite (lookup_ge_None_2 slots idx Hc).
Qed.

Lemma project_loop_ok cols projection slots out :
  slots_ok cols slots out →
  snd <$> project_loop projection (slots, out) =
  app out <$> mapM (λ i, cols !! i) projection.
Proof.
  revert slots out. induction projection as [|idx projection IH]; intros slots out Hok.
  { cbn. by rewrite app_nil_r. }
  cbn [project_loop mapM]. pose proof (project_step_ok cols slots out idx Hok) as Hstep.
  destruct (cols !! idx) as [c|].
  - destruct Hstep as (slots' & -> & Hok'). cbn [mbind option_bind]. rewrite IH by done.
    destruct (mapM _ projection); [|done]. cbn. by rewrite <- app_assoc.
  - by rewrite Hstep.
Qed.

Lemma slots_ok_init cols : slots_ok cols (map Present cols) [].
Proof. unfold slots_ok. induction cols; constructor; auto. Qed.

(** ** Merging *)

Lemma nulls_app c1 c2 : nulls (c1 ++ c2) = nulls c1 + nulls c2.
Proof. unfold nulls. rewrite filter_app, length_app. lia. Qed.

Context `{!ScalarOrd}.

Lemma is_min_app t c1 c2 a b :
  typed t c1 → typed t c2 → is_min c1 a → is_min c2 b →
  is_min (c1 ++ c2) (if scalar_ge a b then b else a).
Proof.
  intros T1 T2 [A1 B1] [A2 B2]. rewrite <- (T1 a A1) in T2. specialize (T2 b A2).
  destruct (scalar_ge a b) eqn:E; split.
  1,3: apply elem_of_app; auto.
  all: intros v [Hv|Hv]%elem_of_app; eauto using scalar_ge_trans.
  destruct (scalar_ge_total a b (eq_sym T2)) as [?|?]; [congruence|eauto using scalar_ge_trans].
Qed.

Lemma is_max_app t c1 c2 a b :
  typed t c1 → typed t c2 → is_max c1 a → is_max c2 b →
  is_max (c1 ++ c2) (if scalar_ge a b then a else b).
Proof.
  intros T1 T2 [A1 B1] [A2 B2]. rewrite <- (T1 a A1) in T2. specialize (T2 b A2).
  destruct (scalar_ge a b) eqn:E; split.
  1,3: apply elem_of_app; auto.
  all: intros v [Hv|Hv]%elem_of_app; eauto using scalar_ge_trans.
  destruct (scalar_ge_total a b (eq_sym T2)) as [?|?]; [congruence|eauto using scalar_ge_trans].
Qed.

Lemma merge_column_ok t c i c' col1 col2 :
  typed t col1 → typed t col2 → describes_column c col1 → describes_column i col2 →
  merge_column c i = Some c' → describes_column c' (col1 ++ col2).
Proof.
  intros T1 T2 [N1 Mi1 Ma1] [N2 Mi2 Ma2]. unfold merge_column.
  intros (d & _ & [= <-])%bind_Some. split; cbn.
  - rewrite nulls_app. by apply add_truthful.
  - destruct (min_value c), (min_value i); cbn in *; try done. by eapply is_min_app.
  - destruct (max_value c), (max_value i); cbn in *; try done. by eapply is_max_app.
Qed.

Lemma merge_columns_ok ts acc item acc' cols1 cols2 :
  Forall2 typed ts cols1 → Forall2 typed ts cols2 →
  Forall2 describes_column acc cols1 → Forall2 describes_column item cols2 →
  merge_columns acc item = Some acc' →
  Forall2 describes_column acc' (zip_with app cols1 cols2).
Proof.
  intros T1 T2 H1. revert ts item acc' cols2 T1 T2.
  induction H1 as [|c col1 acc cols1 Hc H1 IH]; intros ts item acc' cols2 T1 T2 H2.
  { intros [= <-]. constructor. }
  inversion T1 as [|t ? ts' ? Ht T1']; subst. inversion T2 as [|? col2 ? cols2' Ht2 T2']; subst.
  inversion H2 as [|i ? item' ? Hi H2']; subst. cbn [merge_columns].
  intros (c' & Hc' & (acc'' & Ha & [= <-])%bind_Some)%bind_Some.
  constructor; [by eapply merge_column_ok|]. by eapply IH.
Qed.

(** The table made of several, one after another. *)
Definition stacked (cols : list column) (parts : list (list column)) : list column :=
  foldl (zip_with app) cols parts.

Lemma typed_zip ts cols1 cols2 :
  Forall2 typed ts cols1 → Forall2 typed ts cols2 → Forall2 typed ts (zip_with app cols1 cols2).
Proof.
  intros T1. revert cols2. induction T1; intros cols2 T2; inversion T2; subst; constructor; eauto.
  intros v [?|?]%elem_of_app; auto.
Qed.

Lemma merge_items_ok ts acc items acc' cols parts :
  Forall2 typed ts cols → Forall (Forall2 typed ts) parts →
  Forall2 describes_column acc cols →
  Forall2 (λ s p, Forall2 describes_column (column_statistics s) p) items parts →
  merge_items acc items = Some acc' →
  Forall2 describes_column acc' (stacked cols parts).
Proof.
  intros T TP HD HI. revert acc cols T HD TP.
  induction HI as [|s p items parts Hs HI IH]; intros acc cols T HD TP; cbn [merge_items].
  { by intros [= <-]. }
  apply Forall_cons in TP as [Tp TP]. intros (a & Ha & Hm)%bind_Some.
  eapply IH; [..|exact Hm]; [by apply typed_zip| |done]. by eapply merge_columns_ok.
Qed.

Lemma sum_rows_truthful items (ns : list Z) p n :
  truthful p (λ k, k = n) → Forall2 (λ s n, truthful (num_rows s) (λ k, k = n)) items ns →
  truthful (foldl (λ n s, Precision.add n (num_rows s)) p items) (λ k, k = foldl Z.add n ns).
Proof.
  intros Hp HI. revert p n Hp. induction HI; intros p n Hp; cbn [foldl]; [done|].
  apply IHHI. by apply add_truthful.
Qed.

(** With no distinct counts the merge cannot overflow. *)
Definition no_ndv (s : Statistics) : Prop := Forall (λ c, distinct_count c = Absent) (column_statistics s).

Lemma merge_columns_total acc item :
  Forall (λ c, distinct_count c = Absent) acc → length acc = length item →
  ∃ acc', merge_columns acc item = Some acc' ∧ Forall (λ c, distinct_count c = Absent) acc' ∧
          length acc' = length acc.
Proof.
  intros HA. revert item. induction HA as [|c acc Hc HA IH]; intros item Hl.
  { exists []. by split_and!. }
  destruct item as [|i item]; [done|]. cbn [length] in Hl. injection Hl as Hl.
  destruct (IH item Hl) as (acc' & E & HA' & Hl'). cbn [merge_columns].
  unfold merge_column. rewrite Hc, E. cbn. eexists. split; [done|]. split; [by constructor|cbn; lia].
Qed.

Lemma merge_items_total acc items :
  Forall (λ c, distinct_count c = Absent) acc →
  Forall (λ s, length (column_statistics s) = length acc) items →
  is_Some (merge_items acc items).
Proof.
  intros HA HI. revert acc HA HI. induction items as [|s items IH]; intros acc HA HI; [by eexists|].
  apply Forall_cons in HI as [Hs HI]. cbn [merge_items].
  destruct (merge_columns_total acc (column_statistics s) HA (eq_sym Hs)) as (acc' & -> & HA' & Hl).
  apply IH; [done|]. by rewrite Hl.
Qed.

Lemma column_mismatch_none n i items :
  Forall (λ s, length (column_statistics s) = n) items → column_mismatch n i items = None.
Proof. intros HI. revert i. induction HI; intros i; cbn; [done|]. by rewrite decide_True. Qed.

Lemma first_columns_ok s cols :
  Forall2 describes_column (column_statistics s) cols →
  Forall2 describes_column (first_columns s) cols.
Proof. intros HD. unfold first_columns. apply Forall2_fmap_l. eapply Forall2_impl; [exact HD|]. by intros c col []. Qed.

(** ** Limits *)

(** What the rows are after [skip] and [fetch]. *)
Definition limited {A} (fetch : option nat) (skip : nat) (rows : list A) : list A :=
  match fetch with
  | Some n => take n (drop skip rows)
  | None => drop skip rows
  end.

(** An exact count is the count, an inexact one an upper bound. *)
Definition bounds_rows (p : Precision Z) (n : nat) : Prop :=
  match p with
  | Exact v => v = Z.of_nat n
  | Inexact v => Z.of_nat n <= v
  | Absent => True
  end.

Lemma bounds_checked x (b : bool) n :
  (if b then x = Z.of_nat n else Z.of_nat n <= x) →
  bounds_rows (check_num_rows (checked_mul x 1) b) n.
Proof. intros Hx. unfold checked_mul. rewrite Z.mul_1_r. by destruct (x <=? usize_max), b. Qed.

Lemma length_limited {A} fetch skip (rows : list A) :
  length (limited fetch skip rows) =
  match fetch with Some n => Nat.min n (length rows - skip)%nat | None => (length rows - skip)%nat end.
Proof. destruct fetch; cbn; rewrite ?length_take, length_drop; lia. Qed.

Lemma fetched_rows_ok {A} p (rows : list A) fetch skip :
  Z.of_nat (length rows) <= usize_max → bounds_rows p (length rows) →
  match fetched_rows p (Z.of_nat <$> fetch) (Z.of_nat skip) 1 with
  | Some (inl _) => bounds_rows p (length (limited fetch skip rows))
  | Some (inr q) => bounds_rows q (length (limited fetch skip rows))
  | None => False
  end.
Proof.
  intros Hmax Hp. rewrite length_limited. unfold fetched_rows.
  destruct p as [nr|nr|]; cbn [bounds_rows Precision.is_exact mbind option_bind] in *.
  3: { destruct fetch; cbn [fmap option_fmap option_map mbind option_bind]; [|done].
       apply bounds_checked. cbv iota. lia. }
  all: destruct (Z.leb_spec nr (Z.of_nat skip)) as [H1|H1]; [destruct fetch; cbn; lia|].
  all: destruct fetch as [n|]; cbn [fmap option_fmap option_map default]; unfold id.
  all: repeat match goal with
         | |- context [?a <=? ?b] => destruct (Z.leb_spec a b); cbn [andb]
         | |- context [?a =? ?b] => destruct (Z.eqb_spec a b); cbn [andb]
         end; cbn [bounds_rows]; try (apply bounds_checked; cbv iota); lia.
Qed.

Lemma describes_parts items ns parts :
  Forall3 describes items ns parts →
  Forall2 (λ s n, truthful (num_rows s) (λ k, k = n)) items ns ∧
  Forall2 (λ s p, Forall2 describes_column (column_statistics s) p) items parts.
Proof. induction 1 as [|s n p ? ? ? [] _ []]; split; constructor; auto. Qed.

(** ** Properties *)

(** Counts marked exact stay right under the checked arithmetic: a sum,
    difference or product of exact counts is exact only when it is the true
    value (overflow and underflow demote it). *)
Theorem precision_arith_sound p q a b :
  truthful p (λ n, n = a) → truthful q (λ n, n = b) →
  truthful (Precision.add p q) (λ n, n = a + b) ∧
  truthful (Precision.sub p q) (λ n, n = a - b) ∧
  truthful (Precision.multiply p q) (λ n, n = a * b).
Proof. auto using add_truthful, sub_truthful, multiply_truthful. Qed.

(** [project_impl], which moves columns out of the vector and copies only
    repeated ones, is the projection: column [i] of the result is the column
    the projection names, and a projection out of range panics. *)
Theorem project_impl_lookup s projection :
  project_impl s (Some projection) =
  (λ cols, {| num_rows := num_rows s; total_byte_size := total_byte_size s;
              column_statistics := cols |}) <$> mapM (λ i, column_statistics s !! i) projection.
Proof.
  unfold project_impl.
  pose proof (project_loop_ok (column_statistics s) projection _ _ (slots_ok_init _)) as Hloop.
  destruct (project_loop _ _) as [[slots out]|], (mapM _ _) as [cols|]; try discriminate Hloop; [|done].
  by injection Hloop as ->.
Qed.

(** [with_fetch] on one partition: if the row count is exact or an upper
    bound, so is the count it returns for the rows left by the skip and the
    fetch; it never returns an error and cannot panic without byte sizes. *)
Theorem with_fetch_sound {A} s (rows : list A) fetch skip :
  Z.of_nat (length rows) <= usize_max → bounds_rows (num_rows s) (length rows) →
  match with_fetch s (Z.of_nat <$> fetch) (Z.of_nat skip) 1 with
  | Some (Ok s') => bounds_rows (num_rows s') (length (limited fetch skip rows))
  | Some (Err _) => False
  | None => ¬ Forall (λ c, byte_size c = Absent) (column_statistics s)
  end.
Proof.
  intros Hmax Hp. pose proof (fetched_rows_ok (num_rows s) rows fetch skip Hmax Hp) as Hr.
  unfold with_fetch. destruct (fetched_rows _ _ _ _) as [[[]|q]|]; cbn [mbind option_bind]; [done| |done].
  destruct (sum_sizes _ 0) as [o|] eqn:E; [done|]. intros HA.
  destruct HA as [|c cs Hc HA]; [done|]. cbn in E. by rewrite Hc in E.
Qed.

(** Merging is sound: the merged statistics describe the parts stacked one
    after another (row count, null counts, minima and maxima marked exact are
    right), for parts of one schema.  The merge cannot fail then, and panics
    only by overflow of distinct-value estimates. *)
Theorem try_merge_sound ts items ns cols parts schema :
  Forall2 typed ts cols → Forall (Forall2 typed ts) parts →
  Forall3 describes items ns (cols :: parts) →
  match try_merge_iter items schema with
  | Some (Ok m) => describes m (foldl Z.add 0 ns) (stacked cols parts)
  | Some (Err _) => False
  | None => ¬ Forall no_ndv items
  end.
Proof.
  intros T TP HI. inversion HI as [|first n ? rest ns' ? [Hn Hf] HI']; subst; clear HI.
  destruct (describes_parts _ _ _ HI') as [Hns Hcs].
  assert (Hrows : truthful (foldl (λ n s, Precision.add n (num_rows s)) (Exact 0) (first :: rest))
                    (λ k, k = foldl Z.add 0 (n :: ns'))).
  { apply sum_rows_truthful; [done|]. by constructor. }
  destruct rest as [|second rest].
  { inversion Hns; inversion Hcs; subst. done. }
  assert (Hl : Forall (λ s, length (column_statistics s) = length (column_statistics first)) (second :: rest)).
  { apply Forall_forall. intros s Hs. apply list_elem_of_lookup in Hs as [i Hi].
    destruct (Forall2_lookup_l _ _ _ _ _ Hcs Hi) as (p & Hp & HD).
    rewrite (Forall2_length _ _ _ HD), (Forall2_length _ _ _ Hf), <- (Forall2_length _ _ _ T).
    apply list_elem_of_lookup_2 in Hp. rewrite Forall_forall in TP. by rewrite (Forall2_length _ _ _ (TP p Hp)). }
  unfold try_merge_iter. rewrite column_mismatch_none by done.
  destruct (merge_items _ _) as [columns|] eqn:E; cbn [mbind option_bind].
  - split; [done|]. by eapply merge_items_ok; [| |apply first_columns_ok| |].
  - intros [Hfirst _]%Forall_cons.
    destruct (merge_items_total (first_columns first) (second :: rest)) as [? ?]; [| |congruence].
    + unfold first_columns, no_ndv in *. apply Forall_map. by eapply Forall_impl.
    + unfold first_columns. by rewrite length_map.
Qed.

End Statistics.

(** ** Integers as scalars, and examples *)

Section Examples.

Definition int_scalars : ScalarOps :=
  {| ScalarValue := Z; scalar_type := λ _, "Int64"; scalar_ge := λ a b, b <=? a;
     scalar_add_checked := λ a b, Ok (a + b); scalar_sub := λ a b, Ok (a - b);
     scalar_mul_checked := λ a b, Ok (a * b); scalar_cast_to_sum_type := Ok;
     scalar_distance := λ a b, Some (Z.abs (a - b)) |}.

Lemma int_scalars_ord : @ScalarOrd int_scalars.
Proof.
  split; cbn; intros.
  - destruct (Z.leb_spec b a); [by left|right]. apply Z.leb_le. lia.
  - apply Z.leb_le. apply Z.leb_le in H, H0. lia.
Qed.

#[local] Existing Instances int_scalars int_scalars_ord.

Lemma precision_arith_sound_witness :
  truthful (Precision.add (Exact 2) (Exact 3)) (λ n, n = 2 + 3) ∧
  truthful (Precision.sub (Exact 2) (Exact 3)) (λ n, n = 2 - 3) ∧
  truthful (Precision.multiply (Exact 2) (Exact 3)) (λ n, n = 2 * 3).
Proof. apply precision_arith_sound; reflexivity. Defined.

Definition col_stats (nulls mn mx : Z) : ColumnStatistics :=
  {| null_count := Exact nulls; max_value := Exact mx; min_value := Exact mn; sum_value := Absent;
     distinct_count := Absent; byte_size := Exact 80 |}.

Definition ten_rows : Statistics :=
  {| num_rows := Exact 10; total_byte_size := Exact 80; column_statistics := [col_stats 1 3 8] |}.

Lemma with_fetch_sound_witness :
  match with_fetch ten_rows (Some 4) 8 1 with
  | Some (Ok s') => bounds_rows (num_rows s') (length (limited (Some 4%nat) 8 (seq 0 10)))
  | Some (Err _) => False
  | None => ¬ Forall (λ c, byte_size c = Absent) (column_statistics ten_rows)
  end.
Proof. apply (with_fetch_sound ten_rows (seq 0 10) (Some 4%nat) 8); [by vm_compute|reflexivity]. Defined.

(** With several partitions the early return of [with_fetch] hands back the
    per-partition statistics: four partitions of ten rows under a fetch of
    twenty per partition count ten rows, not forty, while skipping one row of
    each counts thirty-six. *)
Theorem with_fetch_forgets_partitions :
  num_rows <$> (s ← with_fetch ten_rows (Some 20) 0 4; match s with Ok s => Some s | Err _ => None end)
    = Some (Exact 10) ∧
  num_rows <$> (s ← with_fetch ten_rows (Some 20) 1 4; match s with Ok s => Some s | Err _ => None end)
    = Some (Exact 36).
Proof. split; vm_compute; reflexivity. Qed.

Lemma try_merge_sound_witness :
  match try_merge_iter [ {| num_rows := Exact 3; total_byte_size := Absent;
                            column_statistics := [col_stats 1 3 8] |};
                         {| num_rows := Exact 2; total_byte_size := Absent;
                            column_statistics := [col_stats 0 1 5] |} ] [] with
  | Some (Ok m) => describes m 5 [[Some 3; None; Some 8; Some 5; Some 1]]
  | Some (Err _) => False
  | None => ¬ Forall no_ndv [ {| num_rows := Exact 3; total_byte_size := Absent;
                            column_statistics := [col_stats 1 3 8] |};
                         {| num_rows := Exact 2; total_byte_size := Absent;
                            column_statistics := [col_stats 0 1 5] |} ]
  end.
Proof.
  apply (try_merge_sound (H := int_scalars) ["Int64"%string] _ [3; 2] [[Some 3; None; Some 8]] [[[Some 5; Some 1]]]).
  - repeat constructor.
  - repeat constructor.
  - repeat constructor; try set_solver.
    all: cbn; intros v Hv; rewrite !elem_of_cons, elem_of_nil in Hv; apply Z.leb_le.
    all: destruct_or!; simplify_eq; lia.
Defined.

End Examples.
End Statistics.
