(* ===== verification/HashUtils.v ===== *)
(** * Row hashes (common/src/hash_utils.rs)

    [create_hashes] hashes a batch column by column into one buffer; the loops
    for arrays with and without nulls are separate.  Proved: every row gets the
    hash of its own cells, whatever the other rows hold, so rows with equal keys
    have equal hashes on both sides of a join.  The hash function itself
    (foldhash) is a parameter.  Nested, dictionary, view and run-length arrays
    are not arrays of this model. *)

From stdpp Require Import base list strings.
From Stdlib Require Import ZArith Lia.
From S2P Require Import Prelude Relation.

(** [RandomState::hash_one] on a value and on the constant 1, and a value
    written to a hasher seeded with a previous hash. *)
Class Foldhash := {
  hash_one : value → N;
  hash_one_null : N;
  hash_seeded : N → value → N;
}.

Module HashUtils.

(** Wrapping arithmetic on [u64]. *)
Definition u64_modulus : N := (2 ^ 64)%N.
Definition wrapping_add (a b : N) : N := ((a + b) mod u64_modulus)%N.
Definition wrapping_mul (a b : N) : N := ((a * b) mod u64_modulus)%N.

Definition combine_hashes (l r : N) : N :=
  let hash := wrapping_add (17 * 37) l in
  wrapping_add (wrapping_mul hash 37) r.

Section Hash.
Context `{Foldhash}.

Definition hash_null (hashes_buffer : list N) (mul_col : bool) : list N :=
  if mul_col then map (λ hash, combine_hashes hash_one_null hash) hashes_buffer
  else map (λ _, hash_one_null) hashes_buffer.

Definition null_count (array : list (option value)) : nat := length (filter (λ o, o = None) array).

(** [hashes_buffer[i] = f(value, hashes_buffer[i])] for the valid indices. *)
Fixpoint for_valid (f : value → N → N) (array : list (option value)) (hashes_buffer : list N) : list N :=
  match array, hashes_buffer with
  | Some v :: array, h :: hashes_buffer => f v h :: for_valid f array hashes_buffer
  | None :: array, h :: hashes_buffer => h :: for_valid f array hashes_buffer
  | _, _ => hashes_buffer
  end.

Definition hash_array_primitive (array : list (option value)) (hashes_buffer : list N) (rehash : bool)
    : option (list N) :=
  if bool_decide (length hashes_buffer = length array) then
    Some (if bool_decide (null_count array = 0) then
            if rehash then zip_with (λ hash value, hash_seeded hash value) hashes_buffer (omap id array)
            else zip_with (λ _ value, hash_one value) hashes_buffer (omap id array)
          else if rehash then for_valid (λ value hash, hash_seeded hash value) array hashes_buffer
          else for_valid (λ value _, hash_one value) array hashes_buffer)
  else panic!.

Definition hash_array (array : list (option value)) (hashes_buffer : list N) (rehash : bool)
    : option (list N) :=
  if bool_decide (length hashes_buffer = length array) then
    Some (if bool_decide (null_count array = 0) then
            if rehash then
              zip_with (λ hash value, combine_hashes (hash_one value) hash) hashes_buffer (omap id array)
            else zip_with (λ _ value, hash_one value) hashes_buffer (omap id array)
          else if rehash then
            for_valid (λ value hash, combine_hashes (hash_one value) hash) array hashes_buffer
          else for_valid (λ value _, hash_one value) array hashes_buffer)
  else panic!.

(** The types of [downcast_primitive_array!], and those hashed by [hash_array]. *)
Definition primitive_types : list string :=
  ["Int8"; "Int16"; "UInt8"; "UInt16"; "UInt32"; "UInt64"; "Float16"; "Float32"; "Float64";
   "Date32"; "Date64"; "Time32"; "Time64"; "Timestamp"; "Interval";
   "Duration(Second)"; "Duration(Millisecond)"; "Duration(Microsecond)"; "Duration(Nanosecond)";
   "Decimal32"; "Decimal64"; "Decimal128"; "Decimal256"].

Definition byte_types : list string :=
  ["LargeUtf8"; "Binary"; "LargeBinary"; "FixedSizeBinary"].

Definition hash_single_array (a : array) (hashes_buffer : list N) (rehash : bool)
    : option (Result (list N)) :=
  match a with
  | Int32Array _ | Int64Array _ => Ok <$> hash_array_primitive (cells a) hashes_buffer rehash
  | BooleanArray _ | StringArray _ => Ok <$> hash_array (cells a) hashes_buffer rehash
  | OtherArray ty _ =>
      if bool_decide (ty ∈ primitive_types) then Ok <$> hash_array_primitive (cells a) hashes_buffer rehash
      else if bool_decide (ty = "Null") then Some (Ok (hash_null hashes_buffer rehash))
      else if bool_decide (ty ∈ byte_types) then Ok <$> hash_array (cells a) hashes_buffer rehash
      else Some (Err (Internal ("Unsupported data type in hasher: " +:+ ty)))
  end.

Fixpoint create_hashes_from (i : nat) (arrays : list array) (hashes_buffer : list N)
    : option (Result (list N)) :=
  match arrays with
  | [] => Some (Ok hashes_buffer)
  | a :: arrays =>
      r ← hash_single_array a hashes_buffer (bool_decide (1 ≤ i));
      match r with
      | Ok hashes_buffer => create_hashes_from (i + 1) arrays hashes_buffer
      | Err e => Some (Err e)
      end
  end.

Definition create_hashes (arrays : list array) (hashes_buffer : list N) : option (Result (list N)) :=
  create_hashes_from 0 arrays hashes_buffer.

(** ** One row *)

Inductive kind := Primitive | Bytes.

Definition value_kind (v : value) : kind :=
  match v with
  | VInt32 _ | VInt64 _ => Primitive
  | VBoolean _ | VUtf8 _ => Bytes
  | VOther ty _ => if bool_decide (ty ∈ primitive_types) then Primitive else Bytes
  end.

(** What a cell does to the hash of its row. *)
Definition cell_hash (rehash : bool) (o : option value) (hash : N) : N :=
  match o with
  | None => hash
  | Some v =>
      if rehash then
        match value_kind v with
        | Primitive => hash_seeded hash v
        | Bytes => combine_hashes (hash_one v) hash
        end
      else hash_one v
  end.

Fixpoint row_hash_from (i : nat) (r : row) (hash : N) : N :=
  match r with
  | [] => hash
  | o :: r => row_hash_from (i + 1) r (cell_hash (bool_decide (1 ≤ i)) o hash)
  end.

Definition row_hash (r : row) : N := row_hash_from 0 r 0.

(** Arrays this model hashes by their cells: of a type [hash_single_array]
    accepts, other than the all-null type. *)
Definition flat (a : array) : Prop :=
  match a with
  | OtherArray ty _ => ty ∈ primitive_types ∨ ty ∈ byte_types
  | _ => True
  end.

Lemma for_valid_zip f array buf :
  length buf = length array →
  for_valid f array buf = zip_with (λ o h, match o with Some v => f v h | None => h end) array buf.
Proof.
  revert buf. induction array as [|[v|] array IH]; intros [|h buf] Hl; try done; cbn; f_equal; apply IH; by inversion Hl.
Qed.

Lemma no_nulls_zip (f : value → N → N) array buf :
  length buf = length array → null_count array = 0 →
  zip_with (λ h v, f v h) buf (omap id array) =
  zip_with (λ o h, match o with Some v => f v h | None => h end) array buf.
Proof.
  unfold null_count.
  revert buf. induction array as [|[v|] array IH]; intros [|h buf] Hl Hn; try done; cbn in *.
  f_equal. apply IH; [by inversion Hl|done].
Qed.

Lemma hash_loops (f : value → N → N) array buf :
  length buf = length array →
  (if bool_decide (null_count array = 0) then zip_with (λ h v, f v h) buf (omap id array)
   else for_valid f array buf) =
  zip_with (λ o h, match o with Some v => f v h | None => h end) array buf.
Proof. intros Hl. case_bool_decide; [by apply no_nulls_zip|by apply for_valid_zip]. Qed.

Lemma zip_with_ext_l {A B C} (P : A → Prop) (f g : A → B → C) l k :
  Forall P l → (∀ a b, P a → f a b = g a b) → zip_with f l k = zip_with g l k.
Proof. intros HP Hfg. revert k. induction HP; intros [|b k]; [done..|]. cbn. f_equal; auto. Qed.

Definition of_kind (k : kind) (o : option value) : Prop :=
  match o with Some v => value_kind v = k | None => True end.

Lemma hash_array_primitive_cells array buf rehash :
  length buf = length array → Forall (of_kind Primitive) array →
  hash_array_primitive array buf rehash = Some (zip_with (cell_hash rehash) array buf).
Proof.
  intros Hl Hk. unfold hash_array_primitive. rewrite bool_decide_true by done. f_equal.
  destruct rehash.
  - rewrite (hash_loops (λ v h, hash_seeded h v)) by done.
    eapply zip_with_ext_l; [exact Hk|]. intros [v|] h; cbn; [by intros ->|done].
  - rewrite (hash_loops (λ v _, hash_one v)) by done. eapply zip_with_ext_l; [exact Hk|]. by intros [v|] h.
Qed.

Lemma hash_array_cells array buf rehash :
  length buf = length array → Forall (of_kind Bytes) array →
  hash_array array buf rehash = Some (zip_with (cell_hash rehash) array buf).
Proof.
  intros Hl Hk. unfold hash_array. rewrite bool_decide_true by done. f_equal.
  destruct rehash.
  - rewrite (hash_loops (λ v h, combine_hashes (hash_one v) h)) by done.
    eapply zip_with_ext_l; [exact Hk|]. intros [v|] h; cbn; [by intros ->|done].
  - rewrite (hash_loops (λ v _, hash_one v)) by done. eapply zip_with_ext_l; [exact Hk|]. by intros [v|] h.
Qed.

Lemma cells_kind {A} (f : A → value) k (vs : list (option A)) :
  (∀ a, value_kind (f a) = k) → Forall (of_kind k) (map (fmap f) vs).
Proof. intros Hf. induction vs as [|[a|] vs IH]; constructor; cbn; auto. Qed.

Lemma hash_single_array_cells a buf rehash :
  flat a → length buf = array_len a →
  hash_single_array a buf rehash = Some (Ok (zip_with (cell_hash rehash) (cells a) buf)).
Proof.
  intros Hf Hl. rewrite <- length_cells in Hl. destruct a as [vs|vs|vs|vs|ty vs]; unfold hash_single_array.
  - rewrite hash_array_cells; [done|done|by apply cells_kind].
  - rewrite hash_array_primitive_cells; [done|done|by apply cells_kind].
  - rewrite hash_array_primitive_cells; [done|done|by apply cells_kind].
  - rewrite hash_array_cells; [done|done|by apply cells_kind].
  - case_bool_decide as Hp.
    { rewrite hash_array_primitive_cells; [done|done|]. apply cells_kind. intros z. cbn.
      by rewrite bool_decide_true. }
    destruct Hf as [?|Hb]; [done|].
    rewrite (bool_decide_false (ty = "Null")) by (intros ->; revert Hb; by apply (bool_decide_unpack (_ ∉ _))).
    rewrite bool_decide_true by done.
    rewrite hash_array_cells; [done|done|]. apply cells_kind. intros z. cbn. by rewrite bool_decide_false.
Qed.

Lemma length_hash_cells rehash (l : list (option value)) buf :
  length buf = length l → length (zip_with (cell_hash rehash) l buf) = length buf.
Proof. intros Hl. rewrite length_zip_with. lia. Qed.

Lemma create_hashes_from_rows i arrays buf :
  Forall (λ a, flat a ∧ array_len a = length buf) arrays →
  create_hashes_from i arrays buf =
  Some (Ok (imap (λ k h, row_hash_from i (map (λ a, default None (cells a !! k)) arrays) h) buf)).
Proof.
  revert i buf. induction arrays as [|a arrays IH]; intros i buf HF; cbn [create_hashes_from map row_hash_from].
  { do 2 f_equal. apply list_eq. intros k. rewrite list_lookup_imap. by destruct (buf !! k). }
  apply Forall_cons in HF as [[Hf Hl] HF].
  rewrite hash_single_array_cells by done. cbn [mbind option_bind].
  rewrite IH.
  2: { eapply Forall_impl; [exact HF|]. intros a' [? ?]. split; [done|].
       rewrite length_hash_cells; [done|by rewrite length_cells]. }
  do 2 f_equal. apply list_eq. intros k. rewrite !list_lookup_imap, lookup_zip_with.
  destruct (buf !! k) as [h|] eqn:Ek; [|by destruct (cells a !! k)].
  assert (k < length (cells a)) as [o Ho]%lookup_lt_is_Some_2.
  { rewrite length_cells, Hl. by eapply lookup_lt_Some. }
  by rewrite Ho.
Qed.

End Hash.

(** ** Properties *)

(** [create_hashes], into a zeroed buffer as the join calls it, gives every
    row of a well-formed batch of flat arrays the hash of its own cells: the
    loops with and without nulls agree and no row's hash depends on another row.
    Rows with equal cells therefore hash equally, in whatever batches they lie. *)
Theorem create_hashes_rows `{Foldhash} (b : RecordBatch) :
  batch_wf b → Forall flat (columns b) →
  create_hashes (columns b) (replicate (num_rows b) 0%N) = Some (Ok (row_hash <$> rows b)).
Proof.
  intros Hwf Hflat. unfold create_hashes. rewrite create_hashes_from_rows.
  - do 2 f_equal. apply list_eq. intros k. rewrite list_lookup_imap, list_lookup_fmap. unfold rows.
    destruct (decide (k < num_rows b)) as [Hk|Hk].
    + by rewrite lookup_replicate_2, lookup_tab by done.
    + by rewrite !lookup_ge_None_2 by (rewrite ?length_replicate, ?length_tab; lia).
  - rewrite length_replicate. apply Forall_and. by split.
Qed.

Definition sample_hash : Foldhash := {|
  hash_one v := match v with VBoolean b => N.b2n b | VInt32 z | VInt64 z => Z.to_N z | VUtf8 s => N.of_nat (String.length s)
                | VOther _ z => Z.to_N z end;
  hash_one_null := 1;
  hash_seeded h v := (31 * h + match v with VInt32 z | VInt64 z => Z.to_N z | _ => 7 end)%N;
|}.

Definition sample_batch : RecordBatch :=
  {| columns := [Int32Array [Some 5%Z; None; Some 6%Z]; StringArray [Some "ab"; Some "c"; None]];
     num_rows := 3 |}.

Lemma create_hashes_rows_witness :
  @create_hashes sample_hash (columns sample_batch) [0; 0; 0]%N =
  Some (Ok (@row_hash sample_hash <$> rows sample_batch)) ∧
  @row_hash sample_hash <$> rows sample_batch = [23352; 23310; 6]%N.
Proof.
  split; [|by vm_compute].
  apply (@create_hashes_rows sample_hash sample_batch); unfold batch_wf; cbn; by repeat constructor.
Defined.

End HashUtils.
