(* ===== verification/JoinTypes.v ===== *)
(** * Join types (common/src/join_type.rs, common/src/null_equality.rs)

    The join types and their tables ([swap], [on_lr_is_preserved], the hash
    join's own [lr_is_preserved]), with a reference semantics of all ten join
    types over lists of rows.  The tables are proved right against it: swapping
    the inputs and the type gives the same result, and a filter may be moved
    below exactly the sides the table names. *)

From stdpp Require Import base list strings sorting.
From Stdlib Require Import ZArith Lia Permutation.
From S2P Require Import Prelude.

Inductive JoinType :=
| Inner | Left | Right | Full | LeftSemi | RightSemi | LeftAnti | RightAnti | LeftMark | RightMark.

#[global] Instance JoinType_eq_dec : EqDecision JoinType.
Proof. solve_decision. Defined.

Inductive JoinSide := SideLeft | SideRight | SideNone.

#[global] Instance JoinSide_eq_dec : EqDecision JoinSide.
Proof. solve_decision. Defined.

Inductive NullEquality := NullEqualsNothing | NullEqualsNull.

#[global] Instance NullEquality_eq_dec : EqDecision NullEquality.
Proof. solve_decision. Defined.

Module JoinType.

Definition is_outer (jt : JoinType) : bool :=
  bool_decide (jt = Left) || bool_decide (jt = Right) || bool_decide (jt = Full).

Definition swap (jt : JoinType) : JoinType :=
  match jt with
  | Inner => Inner
  | Full => Full
  | Left => Right
  | Right => Left
  | LeftSemi => RightSemi
  | RightSemi => LeftSemi
  | LeftAnti => RightAnti
  | RightAnti => LeftAnti
  | LeftMark => RightMark
  | RightMark => LeftMark
  end.

Definition on_lr_is_preserved (jt : JoinType) : bool * bool :=
  match jt with
  | Inner => (true, true)
  | Left => (false, true)
  | Right => (true, false)
  | Full => (false, false)
  | LeftSemi | RightSemi => (true, true)
  | LeftAnti => (false, true)
  | RightAnti => (true, false)
  | LeftMark => (false, true)
  | RightMark => (true, false)
  end.

Definition supports_swap (jt : JoinType) : bool :=
  match jt with
  | Inner | Left | Right | Full | LeftSemi | RightSemi | LeftAnti | RightAnti
  | LeftMark | RightMark => true
  end.

(** [Display] *)
Definition fmt (jt : JoinType) : string :=
  match jt with
  | Inner => "Inner"
  | Left => "Left"
  | Right => "Right"
  | Full => "Full"
  | LeftSemi => "LeftSemi"
  | RightSemi => "RightSemi"
  | LeftAnti => "LeftAnti"
  | RightAnti => "RightAnti"
  | LeftMark => "LeftMark"
  | RightMark => "RightMark"
  end.

(** ASCII part of [str::to_uppercase]. *)
Definition to_uppercase_ascii (c : Ascii.ascii) : Ascii.ascii :=
  let n := Ascii.nat_of_ascii c in
  if decide (97 ≤ n ≤ 122) then Ascii.ascii_of_nat (n - 32) else c.

Fixpoint to_uppercase (s : string) : string :=
  match s with
  | EmptyString => EmptyString
  | String c s => String (to_uppercase_ascii c) (to_uppercase s)
  end.

Definition from_str (s : string) : Result JoinType :=
  let s := to_uppercase s in
  if decide (s = "INNER") then Ok Inner
  else if decide (s = "LEFT") then Ok Left
  else if decide (s = "RIGHT") then Ok Right
  else if decide (s = "FULL") then Ok Full
  else if decide (s = "LEFTSEMI") then Ok LeftSemi
  else if decide (s = "RIGHTSEMI") then Ok RightSemi
  else if decide (s = "LEFTANTI") then Ok LeftAnti
  else if decide (s = "RIGHTANTI") then Ok RightAnti
  else if decide (s = "LEFTMARK") then Ok LeftMark
  else if decide (s = "RIGHTMARK") then Ok RightMark
  else Err (Internal ("The join type " +:+ s +:+ " does not exist or is not implemented")).

(** [JoinSide::negate] *)
Definition negate (s : JoinSide) : JoinSide :=
  match s with SideLeft => SideRight | SideRight => SideLeft | SideNone => SideNone end.

(** [lr_is_preserved] of physical-plan/src/joins/hash_join/exec.rs *)
Definition lr_is_preserved (jt : JoinType) : bool * bool :=
  match jt with
  | Inner => (true, true)
  | Left => (true, false)
  | Right => (false, true)
  | Full => (false, false)
  | LeftSemi | LeftAnti => (true, true)
  | RightSemi | RightAnti => (true, true)
  | LeftMark => (true, false)
  | RightMark => (false, true)
  end.

End JoinType.

(** ** Reference semantics *)

Section Semantics.
Context {L R : Type}.

(** An output row: both inputs, one input (the other side absent or padded with
    nulls), or one input with its mark. *)
Inductive jout :=
| Both (l : L) (r : R)
| LeftOnly (l : L)
| RightOnly (r : R)
| LeftMarked (l : L) (b : bool)
| RightMarked (r : R) (b : bool).

Implicit Types (m : L → R → bool) (ls : list L) (rs : list R).

Definition left_matched m rs (l : L) : bool := existsb (m l) rs.
Definition right_matched m ls (r : R) : bool := existsb (λ l, m l r) ls.

(** The matching pairs, by left row. *)
Definition inner_pairs m ls rs : list jout :=
  ls ≫= λ l, Both l <$> filter (λ r, m l r = true) rs.

Definition join_spec (jt : JoinType) m ls rs : list jout :=
  let lm := left_matched m rs in
  let rm := right_matched m ls in
  match jt with
  | Inner => inner_pairs m ls rs
  | Left => inner_pairs m ls rs ++ (LeftOnly <$> filter (λ l, lm l = false) ls)
  | Right => inner_pairs m ls rs ++ (RightOnly <$> filter (λ r, rm r = false) rs)
  | Full => inner_pairs m ls rs ++ (LeftOnly <$> filter (λ l, lm l = false) ls)
              ++ (RightOnly <$> filter (λ r, rm r = false) rs)
  | LeftSemi => LeftOnly <$> filter (λ l, lm l = true) ls
  | LeftAnti => LeftOnly <$> filter (λ l, lm l = false) ls
  | RightSemi => RightOnly <$> filter (λ r, rm r = true) rs
  | RightAnti => RightOnly <$> filter (λ r, rm r = false) rs
  | LeftMark => (λ l, LeftMarked l (lm l)) <$> ls
  | RightMark => (λ r, RightMarked r (rm r)) <$> rs
  end.

End Semantics.
Arguments jout : clear implicits.

Definition swap_out {L R} (o : jout L R) : jout R L :=
  match o with
  | Both l r => Both r l
  | LeftOnly l => RightOnly l
  | RightOnly r => LeftOnly r
  | LeftMarked l b => RightMarked l b
  | RightMarked r b => LeftMarked r b
  end.

(** ** Lemmas *)

Section Lemmas.
Context {L R : Type}.
Implicit Types (m : L → R → bool) (ls : list L) (rs : list R).

Lemma left_matched_true m rs l : left_matched m rs l = true ↔ ∃ r, r ∈ rs ∧ m l r = true.
Proof. unfold left_matched. rewrite existsb_exists. by setoid_rewrite <- list_elem_of_In. Qed.

Lemma right_matched_true m ls r : right_matched m ls r = true ↔ ∃ l, l ∈ ls ∧ m l r = true.
Proof. unfold right_matched. rewrite existsb_exists. by setoid_rewrite <- list_elem_of_In. Qed.

(** Pairs may be enumerated by left or by right row. *)
Lemma inner_pairs_cons_r m ls r rs :
  inner_pairs m ls (r :: rs) ≡ₚ
  ((λ l, Both l r) <$> filter (λ l, m l r = true) ls) ++ inner_pairs m ls rs.
Proof.
  induction ls as [|l ls IH]; [done|].
  unfold inner_pairs in *. cbn [mbind list_bind]. rewrite filter_cons.
  destruct (decide (m l r = true)) as [E|E]; cbn [fmap list_fmap map app]; rewrite (filter_cons _ l).
  - rewrite (decide_True _ _ E). cbn. apply perm_skip. rewrite IH.
    rewrite !app_assoc. apply Permutation_app_tail. apply Permutation_app_comm.
  - rewrite (decide_False _ _ E). rewrite IH.
    rewrite !app_assoc. apply Permutation_app_tail. apply Permutation_app_comm.
Qed.

Lemma inner_pairs_nil_r m ls : inner_pairs m ls [] = [].
Proof. induction ls as [|l ls IH]; [done|]. unfold inner_pairs in *. cbn. exact IH. Qed.

End Lemmas.

Lemma inner_pairs_swap {L R} (m : L → R → bool) ls rs :
  inner_pairs (λ r l, m l r) rs ls ≡ₚ swap_out <$> inner_pairs m ls rs.
Proof.
  induction rs as [|r rs IH].
  - by rewrite inner_pairs_nil_r.
  - rewrite inner_pairs_cons_r, fmap_app, <- IH.
    unfold inner_pairs at 1. cbn [mbind list_bind]. apply Permutation_app; [|done].
    by rewrite <- list_fmap_compose.
Qed.

Lemma fmap_swap {A B C} (f : A → B) (g : B → C) (l : list A) : g <$> (f <$> l) = (λ x, g (f x)) <$> l.
Proof. by rewrite <- list_fmap_compose. Qed.

(** Swapping the inputs of a join and its type ([JoinType::swap]) gives the
    same rows with the sides exchanged, for all ten join types. *)
Lemma swap_correct {L R} (jt : JoinType) (m : L → R → bool) (ls : list L) (rs : list R) :
  join_spec (JoinType.swap jt) (λ r l, m l r) rs ls ≡ₚ swap_out <$> join_spec jt m ls rs.
Proof.
  pose proof (inner_pairs_swap m ls rs) as Hin.
  destruct jt; cbn [JoinType.swap join_spec]; rewrite ?fmap_app, ?fmap_swap; cbn [swap_out]; try done.
  1,2: by apply Permutation_app.
  apply Permutation_app; [done|]. apply Permutation_app_comm.
Qed.

(** ** Filters and joins *)

Section Filters.
Context {L R : Type}.
Implicit Types (m : L → R → bool) (ls : list L) (rs : list R).

Lemma filter_bool_all {A} (p q : A → bool) (l : list A) :
  filter (λ x, q x = true) (filter (λ x, p x = true) l) =
  filter (λ x, p x && q x = true) l.
Proof.
  induction l as [|x l IH]; [done|]. rewrite !filter_cons.
  destruct (p x) eqn:Ep; cbn [andb].
  - rewrite decide_True by done. rewrite filter_cons.
    destruct (q x) eqn:Eq; [rewrite !decide_True by done|rewrite !decide_False by done]; by rewrite IH.
  - rewrite !decide_False by done. done.
Qed.

Lemma inner_pairs_on_left m (p : L → bool) ls rs :
  inner_pairs (λ l r, p l && m l r) ls rs = inner_pairs m (filter (λ l, p l = true) ls) rs.
Proof.
  unfold inner_pairs. induction ls as [|l ls IH]; [done|]. cbn [mbind list_bind]. rewrite filter_cons.
  destruct (p l) eqn:E; [rewrite decide_True by done|rewrite decide_False by done]; cbn [andb mbind list_bind].
  - by rewrite IH.
  - replace (filter _ rs) with (@nil R); [exact IH|]. clear. induction rs; done.
Qed.

Lemma inner_pairs_on_right m (q : R → bool) ls rs :
  inner_pairs (λ l r, q r && m l r) ls rs = inner_pairs m ls (filter (λ r, q r = true) rs).
Proof.
  unfold inner_pairs. induction ls as [|l ls IH]; [done|]. cbn [mbind list_bind].
  rewrite IH. f_equal. by rewrite filter_bool_all.
Qed.

Lemma right_matched_on_left m (p : L → bool) ls r :
  right_matched (λ l r, p l && m l r) ls r = right_matched m (filter (λ l, p l = true) ls) r.
Proof.
  unfold right_matched. induction ls as [|l ls IH]; [done|]. rewrite filter_cons. cbn.
  destruct (p l) eqn:E; [rewrite decide_True by done|rewrite decide_False by done]; cbn; by rewrite IH.
Qed.

Lemma left_matched_on_right m (q : R → bool) l rs :
  left_matched (λ l r, q r && m l r) rs l = left_matched m (filter (λ r, q r = true) rs) l.
Proof.
  unfold left_matched. induction rs as [|r rs IH]; [done|]. rewrite filter_cons. cbn.
  destruct (q r) eqn:E; [rewrite decide_True by done|rewrite decide_False by done]; cbn; by rewrite IH.
Qed.

Lemma left_matched_and m (p : L → bool) rs l :
  left_matched (λ l r, p l && m l r) rs l = p l && left_matched m rs l.
Proof.
  unfold left_matched. induction rs as [|r rs IH]; cbn; [by destruct (p l)|]. rewrite IH.
  by destruct (p l), (m l r).
Qed.

Lemma right_matched_and m (q : R → bool) ls r :
  right_matched (λ l r, q r && m l r) ls r = q r && right_matched m ls r.
Proof.
  unfold right_matched. induction ls as [|l ls IH]; cbn; [by destruct (q r)|]. rewrite IH.
  by destruct (q r), (m l r).
Qed.

Lemma filter_ext_bool {A} (p q : A → bool) b (l : list A) :
  (∀ x, p x = q x) → filter (λ x, p x = b) l = filter (λ x, q x = b) l.
Proof. intros H. apply list_filter_iff. intros x. by rewrite H. Qed.

End Filters.

(** ** Output filters *)

Section OutputFilters.
Context {L R : Type}.
Implicit Types (m : L → R → bool) (ls : list L) (rs : list R).

(** A predicate on the output: [p] on a left row, [q] on a row that only has a
    right part. *)
Definition keep_out (p : L → bool) (q : R → bool) (o : jout L R) : bool :=
  match o with
  | Both l _ | LeftOnly l | LeftMarked l _ => p l
  | RightOnly r | RightMarked r _ => q r
  end.

Lemma filter_fmap_bool {A B} (f : A → B) (p : B → bool) (l : list A) :
  filter (λ y, p y = true) (f <$> l) = f <$> filter (λ x, p (f x) = true) l.
Proof.
  induction l as [|x l IH]; [done|]. cbn [fmap list_fmap map]. rewrite !filter_cons.
  case_decide; cbn; by rewrite IH.
Qed.

Lemma filter_all {A} (l : list A) : filter (λ _, true = true) l = l.
Proof. induction l as [|x l IH]; [done|]. rewrite filter_cons_True by done. by rewrite IH. Qed.

Lemma filter_none {A} (l : list A) : filter (λ _, false = true) l = [].
Proof. induction l as [|x l IH]; [done|]. by rewrite filter_cons_False. Qed.

Lemma filter_inner_left p q m ls rs :
  filter (λ o, keep_out p q o = true) (inner_pairs m ls rs) =
  inner_pairs m (filter (λ l, p l = true) ls) rs.
Proof.
  unfold inner_pairs. induction ls as [|l ls IH]; [done|]. cbn [mbind list_bind].
  rewrite filter_app, filter_fmap_bool, IH, (filter_cons _ l). cbn [keep_out].
  destruct (p l) eqn:E; [rewrite decide_True by done|rewrite decide_False by done].
  - cbn [mbind list_bind]. by rewrite filter_all.
  - by rewrite filter_none.
Qed.

(** Right rows that only match excluded left rows may be dropped too. *)
Lemma inner_pairs_key m p q ls rs :
  (∀ l r, m l r = true → p l = q r) →
  inner_pairs m (filter (λ l, p l = true) ls) rs = inner_pairs m ls (filter (λ r, q r = true) rs).
Proof.
  intros Hk. rewrite <- inner_pairs_on_left, <- inner_pairs_on_right.
  unfold inner_pairs. induction ls as [|l ls IH]; [done|]. cbn [mbind list_bind].
  rewrite IH. do 2 f_equal. apply list_filter_iff. intros r. specialize (Hk l r).
  destruct (m l r); [rewrite Hk by done; done|]. by rewrite !andb_false_r.
Qed.

Lemma inner_pairs_key_both m p q ls rs :
  (∀ l r, m l r = true → p l = q r) →
  inner_pairs m (filter (λ l, p l = true) ls) (filter (λ r, q r = true) rs) =
  inner_pairs m (filter (λ l, p l = true) ls) rs.
Proof.
  intros Hk. rewrite <- (inner_pairs_key m p q) by done.
  by rewrite list_filter_filter_l by tauto.
Qed.

Lemma left_matched_key m p q rs l :
  (∀ l r, m l r = true → p l = q r) → p l = true →
  left_matched m (filter (λ r, q r = true) rs) l = left_matched m rs l.
Proof.
  intros Hk Hp. apply eq_true_iff_eq. rewrite !left_matched_true.
  split; intros (r & Hr & Hm); exists r; rewrite list_elem_of_filter in *; [naive_solver|].
  split; [|done]. split; [|done]. rewrite <- (Hk l r); done.
Qed.

Lemma right_matched_key m p q ls r :
  (∀ l r, m l r = true → p l = q r) → q r = true →
  right_matched m (filter (λ l, p l = true) ls) r = right_matched m ls r.
Proof.
  intros Hk Hq. apply eq_true_iff_eq. rewrite !right_matched_true.
  split; intros (l & Hl & Hm); exists l; rewrite list_elem_of_filter in *; [naive_solver|].
  split; [|done]. split; [|done]. rewrite (Hk l r); done.
Qed.

(** Filtering by a matched flag that agrees on the kept elements. *)
Lemma filter_flag {A} (p f g : A → bool) b (l : list A) :
  (∀ x, p x = true → f x = g x) →
  filter (λ x, p x = true) (filter (λ x, f x = b) l) =
  filter (λ x, g x = b) (filter (λ x, p x = true) l).
Proof.
  intros H. rewrite !list_filter_filter. apply list_filter_iff. intros x.
  split; [intros [Hp ?]|intros [? Hp]]; specialize (H x Hp); split; congruence.
Qed.

End OutputFilters.

(** ** Congruence *)

Section Congruence.
Context {L R : Type}.
Implicit Types (m : L → R → bool) (ls : list L) (rs : list R).

Lemma existsb_permutation {A} (f : A → bool) (l l' : list A) : l ≡ₚ l' → existsb f l = existsb f l'.
Proof. induction 1 as [|x l l' _ IH|x y l|l l' l'' _ IH1 _ IH2]; cbn; [done|by rewrite IH| |congruence]. by destruct (f x), (f y). Qed.

Lemma existsb_ext {A} (f g : A → bool) (l : list A) : (∀ x, f x = g x) → existsb f l = existsb g l.
Proof. intros Hfg. induction l as [|x l IH]; cbn; [done|]. by rewrite Hfg, IH. Qed.

Lemma inner_pairs_ext m m' ls rs : (∀ l r, m l r = m' l r) → inner_pairs m ls rs = inner_pairs m' ls rs.
Proof.
  intros Hm. unfold inner_pairs. induction ls as [|l ls IH]; [done|]. cbn [mbind list_bind]. f_equal; [|exact IH].
  f_equal. by apply filter_ext_bool.
Qed.

Lemma join_spec_ext jt m m' ls rs : (∀ l r, m l r = m' l r) → join_spec jt m ls rs = join_spec jt m' ls rs.
Proof.
  intros Hm.
  assert (Hl : ∀ l, left_matched m rs l = left_matched m' rs l) by (intros l; by apply existsb_ext).
  assert (Hr : ∀ r, right_matched m ls r = right_matched m' ls r) by (intros r; by apply existsb_ext).
  assert (Hfl : ∀ b, filter (λ l, left_matched m rs l = b) ls = filter (λ l, left_matched m' rs l = b) ls)
    by (intros b; by apply filter_ext_bool).
  assert (Hfr : ∀ b, filter (λ r, right_matched m ls r = b) rs = filter (λ r, right_matched m' ls r = b) rs)
    by (intros b; by apply filter_ext_bool).
  destruct jt; cbn [join_spec]; rewrite ?Hfl, ?Hfr, ?(inner_pairs_ext m m' ls rs Hm); try done.
  - apply list_fmap_ext. intros i l _. by rewrite Hl.
  - apply list_fmap_ext. intros i r _. by rewrite Hr.
Qed.

Lemma inner_pairs_permutation m ls ls' rs rs' :
  ls ≡ₚ ls' → rs ≡ₚ rs' → inner_pairs m ls rs ≡ₚ inner_pairs m ls' rs'.
Proof.
  intros Hl Hr. unfold inner_pairs. rewrite Hl. clear Hl. induction ls' as [|l ls' IH]; [done|].
  cbn [mbind list_bind]. by rewrite Hr, IH.
Qed.

(** The order of the inputs changes only the order of the output. *)
Lemma join_spec_permutation jt m ls ls' rs rs' :
  ls ≡ₚ ls' → rs ≡ₚ rs' → join_spec jt m ls rs ≡ₚ join_spec jt m ls' rs'.
Proof.
  intros Hl Hr. pose proof (inner_pairs_permutation m ls ls' rs rs' Hl Hr) as Hin.
  assert (El : ∀ l, left_matched m rs l = left_matched m rs' l) by (intros l; by apply existsb_permutation).
  assert (Er : ∀ r, right_matched m ls r = right_matched m ls' r) by (intros r; by apply existsb_permutation).
  assert (Hfl : ∀ b, filter (λ l, left_matched m rs l = b) ls ≡ₚ filter (λ l, left_matched m rs' l = b) ls')
    by (intros b; rewrite (filter_ext_bool _ (left_matched m rs')) by done; by rewrite Hl).
  assert (Hfr : ∀ b, filter (λ r, right_matched m ls r = b) rs ≡ₚ filter (λ r, right_matched m ls' r = b) rs')
    by (intros b; rewrite (filter_ext_bool _ (right_matched m ls')) by done; by rewrite Hr).
  destruct jt; cbn [join_spec]; rewrite ?Hfl, ?Hfr, ?Hin; try done.
  - rewrite Hl. erewrite list_fmap_ext; [done|]. intros i l _. cbn. by rewrite El.
  - rewrite Hr. erewrite list_fmap_ext; [done|]. intros i r _. cbn. by rewrite Er.
Qed.

End Congruence.

(** ** Properties *)

(** [on_lr_is_preserved] names exactly the inputs below which a conjunct of
    the join condition that only reads that input may be moved. *)
Theorem on_lr_is_preserved_exact {L R} `{Inhabited L, Inhabited R} (jt : JoinType) :
  (fst (JoinType.on_lr_is_preserved jt) = true ↔
   ∀ (m : L → R → bool) p ls rs,
     join_spec jt (λ l r, p l && m l r) ls rs = join_spec jt m (filter (λ l, p l = true) ls) rs) ∧
  (snd (JoinType.on_lr_is_preserved jt) = true ↔
   ∀ (m : L → R → bool) q ls rs,
     join_spec jt (λ l r, q r && m l r) ls rs = join_spec jt m ls (filter (λ r, q r = true) rs)).
Proof.
  split; split.
  - destruct jt; try discriminate; intros _ m p ls rs; cbn [join_spec];
      rewrite ?inner_pairs_on_left; try done.
    + do 2 f_equal. apply filter_ext_bool. intros. apply right_matched_on_left.
    + f_equal. rewrite filter_bool_all. apply filter_ext_bool. intros. apply left_matched_and.
    + f_equal. apply filter_ext_bool. intros. apply right_matched_on_left.
    + f_equal. apply filter_ext_bool. intros. apply right_matched_on_left.
    + apply list_fmap_ext. intros. by rewrite right_matched_on_left.
  - intros Hall. specialize (Hall (λ _ _, true) (λ _, false) [inhabitant] []).
    destruct jt; done.
  - destruct jt; try discriminate; intros _ m q ls rs; cbn [join_spec];
      rewrite ?inner_pairs_on_right; try done.
    + do 2 f_equal. apply filter_ext_bool. intros. apply left_matched_on_right.
    + f_equal. apply filter_ext_bool. intros. apply left_matched_on_right.
    + f_equal. rewrite filter_bool_all. apply filter_ext_bool. intros. apply right_matched_and.
    + f_equal. apply filter_ext_bool. intros. apply left_matched_on_right.
    + apply list_fmap_ext. intros. by rewrite left_matched_on_right.
  - intros Hall. specialize (Hall (λ _ _, true) (λ _, false) [] [inhabitant]).
    destruct jt; done.
Qed.

(** The hash join's [lr_is_preserved]: a filter on the join keys, read as [p]
    on the left and [q] on the right, may be moved below every side the table
    names, for every join type but the full join (where the table names none). *)
Theorem lr_is_preserved_sound {L R} (jt : JoinType) (m : L → R → bool) p q ls rs :
  jt ≠ Full → (∀ l r, m l r = true → p l = q r) →
  filter (λ o, keep_out p q o = true) (join_spec jt m ls rs) =
  join_spec jt m
    (if fst (JoinType.lr_is_preserved jt) then filter (λ l, p l = true) ls else ls)
    (if snd (JoinType.lr_is_preserved jt) then filter (λ r, q r = true) rs else rs).
Proof.
  intros Hfull Hk.
  pose proof (λ rs l, left_matched_key m p q rs l Hk) as HL.
  pose proof (λ ls r, right_matched_key m p q ls r Hk) as HR.
  destruct jt; try done; cbn [JoinType.lr_is_preserved fst snd join_spec];
    rewrite ?filter_app, ?filter_inner_left, ?filter_fmap_bool, ?inner_pairs_key_both by done;
    cbn [keep_out]; try done.
  - f_equal. f_equal. by apply filter_flag.
  - rewrite (inner_pairs_key m p q) by done. f_equal. f_equal. by apply filter_flag.
  - f_equal. apply filter_flag. intros. by rewrite HL.
  - f_equal. apply filter_flag. intros. by rewrite HR.
  - f_equal. apply filter_flag. intros. by rewrite HL.
  - f_equal. apply filter_flag. intros. by rewrite HR.
Qed.

Lemma lr_is_preserved_sound_witness :
  filter (λ o, keep_out (λ l, bool_decide (l < 3)) (λ r, bool_decide (r < 3)) o = true)
    (join_spec LeftAnti (λ l r, bool_decide (l = r)) [1; 2; 3; 4] [2; 3]) =
  join_spec LeftAnti (λ l r, bool_decide (l = r)) (filter (λ l, bool_decide (l < 3) = true) [1; 2; 3; 4])
    (filter (λ r, bool_decide (r < 3) = true) [2; 3]).
Proof.
  apply (lr_is_preserved_sound LeftAnti (λ l r : nat, bool_decide (l = r))
           (λ l, bool_decide (l < 3)) (λ r, bool_decide (r < 3))); [done|].
  intros l r ->%bool_decide_eq_true. done.
Defined.

(** Parsing the printed name of a join type, in any letter case the printer
    or SQL uses, gives the type back. *)
Theorem join_type_roundtrip (jt : JoinType) :
  JoinType.from_str (JoinType.fmt jt) = Ok jt ∧
  JoinType.from_str (JoinType.to_uppercase (JoinType.fmt jt)) = Ok jt.
Proof. destruct jt; split; vm_compute; reflexivity. Qed.
