(* ===== verification/JoinHashMap.v ===== *)
(** * The join hash map (physical-plan/src/joins/join_hash_map.rs, chain.rs)

    A hash table from hash values to the last row with that hash, and a vector
    of links to the previous ones.  Links are row numbers plus one, zero ends a
    chain.  [tmax] is the largest index of the integer type ([u32] or [u64]) the
    map was built for.  Proved: the chain of a hash is the rows inserted with
    it, last first, and reading the matches of a batch page by page gives all of
    them, in order, in pages within the limit. *)

From stdpp Require Import base list gmap.
From Stdlib Require Import ZArith Lia.
From S2P Require Import Prelude.

Module JoinHashMap.

(** [hashbrown::HashTable] keyed by equality of hashes is a finite map. *)
Record JoinHashMap := { map : gmap N nat; next : list nat }.

Definition with_capacity (cap : nat) : JoinHashMap := {| map := ∅; next := replicate cap 0 |}.

Section Index.
Context (tmax : N).

(** [T::try_from(i).unwrap()] *)
Definition try_from (i : nat) : option nat := if (N.of_nat i <=? tmax)%N then Some i else panic!.

Definition update_step (deleted_offset : nat) (m : JoinHashMap) (p : nat * N) : option JoinHashMap :=
  let '(row, hash_value) := p in
  index ← try_from (row + 1);
  match map m !! hash_value with
  | Some prev_index =>
      i ← usize_sub row deleted_offset;
      next' ← vec_set (next m) i prev_index;
      Some {| map := <[hash_value := index]> (map m); next := next' |}
  | None => Some {| map := <[hash_value := index]> (map m); next := next m |}
  end.

Fixpoint update_from_iter (deleted_offset : nat) (m : JoinHashMap) (iter : list (nat * N))
    : option JoinHashMap :=
  match iter with
  | [] => Some m
  | p :: iter => m' ← update_step deleted_offset m p; update_from_iter deleted_offset m' iter
  end.
End Index.

(** ** Looking up *)

(** The chain loop of [get_matched_indices] from index [i]; [None] when an index
    is out of range or the fuel ends. *)
Fixpoint match_loop (fuel : nat) (nxt : list nat) (deleted_offset : option nat) (i : nat)
    : option (list nat) :=
  match fuel with
  | 0 => None
  | S fuel =>
      let in_list match_row_idx :=
        next_chain ← vec_get nxt match_row_idx;
        if bool_decide (next_chain = 0) then Some [match_row_idx]
        else rest ← match_loop fuel nxt deleted_offset (next_chain - 1); Some (match_row_idx :: rest) in
      match deleted_offset with
      | Some offset => if bool_decide (i < offset) then Some [] else in_list (i - offset)
      | None => in_list i
      end
  end.

Fixpoint get_matched_indices (m : JoinHashMap) (iter : list (nat * N)) (deleted_offset : option nat)
    : option (list nat * list nat) :=
  match iter with
  | [] => Some ([], [])
  | (row_idx, hash_value) :: iter =>
      found ← match map m !! hash_value with
              | Some index =>
                  i ← usize_sub index 1;
                  match_loop (S (length (next m))) (next m) deleted_offset i
              | None => Some []
              end;
      rest ← get_matched_indices m iter deleted_offset;
      Some (replicate (length found) row_idx ++ rest.1, found ++ rest.2)
  end.

Abbreviation MapOffset := (nat * option nat)%type.

(** The state of a paged lookup: outputs left, and the two output vectors. *)
Record page := { remaining : nat; input_indices : list nat; match_indices : list nat }.

(** [traverse_chain] *)
Fixpoint traverse_chain (fuel : nat) (nxt : list nat) (prob_idx start_chain_idx : nat) (pg : page)
    (is_last_input : bool) : option (page * option MapOffset) :=
  match fuel with
  | 0 => None
  | S fuel =>
      match_row_idx ← usize_sub start_chain_idx 1;
      rem ← usize_sub (remaining pg) 1;
      let pg := {| remaining := rem;
                   input_indices := input_indices pg ++ [prob_idx];
                   match_indices := match_indices pg ++ [match_row_idx] |} in
      nx ← vec_get nxt match_row_idx;
      if bool_decide (rem = 0) then
        Some (pg, if is_last_input && bool_decide (nx = 0) then None else Some (prob_idx, Some nx))
      else if bool_decide (nx = 0) then Some (pg, None)
      else traverse_chain fuel nxt prob_idx nx pg is_last_input
  end.

(** The fast path: one probe per hash value. *)
Fixpoint unique_loop (m : JoinHashMap) (row : nat) (hashes : list N) (pg : page) : option page :=
  match hashes with
  | [] => Some pg
  | hash :: hashes =>
      match map m !! hash with
      | Some idx =>
          i ← usize_sub idx 1;
          unique_loop m (row + 1) hashes
            {| remaining := remaining pg; input_indices := input_indices pg ++ [row];
               match_indices := match_indices pg ++ [i] |}
      | None => unique_loop m (row + 1) hashes pg
      end
  end.

(** The loop over the remaining hash values. *)
Fixpoint probe_hashes (m : JoinHashMap) (total row : nat) (hashes : list N) (pg : page)
    : option (page * option MapOffset) :=
  match hashes with
  | [] => Some (pg, None)
  | hash :: hashes =>
      match map m !! hash with
      | Some idx =>
          r ← traverse_chain (S (length (next m))) (next m) row idx pg (bool_decide (row = total - 1));
          match r with
          | (pg, Some off) => Some (pg, Some off)
          | (pg, None) => probe_hashes m total (row + 1) hashes pg
          end
      | None => probe_hashes m total (row + 1) hashes pg
      end
  end.

Definition get_matched_indices_with_limit_offset (m : JoinHashMap) (hash_values : list N) (limit : nat)
    (offset : MapOffset) : option (page * option MapOffset) :=
  let pg := {| remaining := limit; input_indices := []; match_indices := [] |} in
  let total := length hash_values in
  if bool_decide (size (map m) = length (next m)) then
    let start := offset.1 in
    let stop := Nat.min (start + limit) total in
    if bool_decide (start ≤ stop) then
      pg ← unique_loop m start (take (stop - start) (drop start hash_values)) pg;
      Some (pg, if bool_decide (stop = total) then None else Some (stop, None))
    else panic!
  else
    start ← match offset with
            | (idx, None) => Some (inl (idx, pg))
            | (idx, Some 0) => Some (inl (idx + 1, pg))
            | (idx, Some next_idx) =>
                last ← usize_sub total 1;
                r ← traverse_chain (S (length (next m))) (next m) idx next_idx pg (bool_decide (idx = last));
                match r with
                | (pg, Some off) => Some (inr (pg, off))
                | (pg, None) => Some (inl (idx + 1, pg))
                end
            end;
    match start with
    | inr (pg, off) => Some (pg, Some off)
    | inl (to_skip, pg) =>
        if bool_decide (to_skip ≤ total) then probe_hashes m total to_skip (drop to_skip hash_values) pg
        else panic!
    end.

Definition contain_hashes (m : JoinHashMap) (hash_values : list N) : list bool :=
  List.map (λ hash, bool_decide (is_Some (map m !! hash))) hash_values.

(** ** Paged lookups

    What a map promises to the stream that reads it page by page. *)

Definition page_pairs (pg : page) : list (nat * nat) := zip (input_indices pg) (match_indices pg).

(** The outcome of a page at offset [off] where [ps0] was left: a prefix of it
    within the limit, and the offset of the rest, which is further on. *)
Definition page_outcome (at_off : MapOffset → list (nat * nat) → Prop) (limit : nat) (off : MapOffset)
    (ps0 : list (nat * nat)) (r : option (page * option MapOffset)) : Prop :=
  ∃ pg off' ps, r = Some (pg, off') ∧
    input_indices pg = ps.*1 ∧ match_indices pg = ps.*2 ∧ length ps ≤ limit ∧
    match off' with
    | None => ps = ps0
    | Some o => ∃ ps1, ps0 = ps ++ ps1 ∧ at_off o ps1 ∧ off.1 ≤ o.1 ∧ (off.1 < o.1 ∨ 0 < length ps)
    end.

(** [look] reads pages of a batch of [total] rows; [at_off off ps] says that
    [ps] is what is left at [off]. *)
Class Pager (total : nat) (look : nat → MapOffset → option (page * option MapOffset))
    (at_off : MapOffset → list (nat * nat) → Prop) : Prop := {
  pager_page : ∀ limit off ps0, 0 < limit → at_off off ps0 → page_outcome at_off limit off ps0 (look limit off);
  pager_bound : ∀ off ps, at_off off ps → off.1 ≤ total;
}.

(** The pages of a batch, read until the last one. *)
Fixpoint pages (fuel : nat) (look : nat → MapOffset → option (page * option MapOffset)) (limit : nat)
    (off : MapOffset) : option (list page) :=
  match fuel with
  | 0 => None
  | S fuel =>
      r ← look limit off;
      match r with
      | (pg, None) => Some [pg]
      | (pg, Some off) => rest ← pages fuel look limit off; Some (pg :: rest)
      end
  end.

Lemma pages_ok `{Hp : Pager len look at_off} fuel limit off ps0 :
  0 < limit → at_off off ps0 → (len - off.1) + length ps0 < fuel →
  ∃ pgs, pages fuel look limit off = Some pgs ∧ concat (List.map page_pairs pgs) = ps0 ∧
         Forall (λ pg, length (page_pairs pg) ≤ limit) pgs.
Proof.
  intros Hlim. revert off ps0. induction fuel as [|fuel IH]; intros off ps0 Hat Hf; [lia|].
  destruct (pager_page limit off ps0 Hlim Hat) as (pg & off' & ps & E & Hi & Hm & Hlen & Ho).
  assert (Hpp : page_pairs pg = ps) by (unfold page_pairs; rewrite Hi, Hm; apply zip_fst_snd).
  cbn [pages]. rewrite E. cbn [mbind option_bind]. destruct off' as [o|].
  - destruct Ho as (ps1 & -> & Hat1 & Hle & Hprog). rewrite length_app in Hf.
    pose proof (pager_bound o ps1 Hat1).
    destruct (IH o ps1 Hat1) as (pgs & -> & Hc & HF); [lia|].
    exists (pg :: pgs). cbn. rewrite Hpp, Hc. split_and!; [done|done|]. constructor; [by rewrite Hpp|done].
  - subst ps0. exists [pg]. cbn. rewrite app_nil_r, Hpp. split_and!; [done|done|].
    constructor; [by rewrite Hpp|constructor].
Qed.

(** ** Chains *)

(** [l] are the rows on the chain that starts at link [i]. *)
Inductive chain (nxt : list nat) : nat → list nat → Prop :=
| chain_nil : chain nxt 0 []
| chain_cons i nx l : nxt !! i = Some nx → chain nxt nx l → chain nxt (S i) (i :: l).

(** The rows inserted with hash [h], last first. *)
Definition rows_with (h : N) (ops : list (nat * N)) : list nat :=
  reverse (filter (λ p, p.2 = h) ops).*1.

(** The map holds exactly the rows of [ops]. *)
Record holds (ops : list (nat * N)) (m : JoinHashMap) : Prop := {
  h_map : ∀ h, match map m !! h with
               | Some idx => 0 < idx ∧ chain (next m) idx (rows_with h ops)
               | None => rows_with h ops = []
               end;
  h_free : ∀ row, row ∉ ops.*1 → row < length (next m) → next m !! row = Some 0;
}.

Lemma rows_with_snoc h ops row h' :
  rows_with h (ops ++ [(row, h')]) = if decide (h' = h) then row :: rows_with h ops else rows_with h ops.
Proof.
  unfold rows_with. rewrite filter_app. cbn [filter list_filter snd].
  destruct (decide (h' = h)); cbn; rewrite ?app_nil_r; [|done]. rewrite fmap_app. apply reverse_snoc.
Qed.

Lemma rows_with_in h ops row : row ∈ rows_with h ops → row ∈ ops.*1.
Proof.
  unfold rows_with. rewrite elem_of_reverse, !list_elem_of_fmap. intros (p & -> & Hp). exists p. split; [done|].
  by apply list_elem_of_filter in Hp as [_ Hp].
Qed.

Lemma chain_insert nxt i l row v : row ∉ l → chain nxt i l → chain (<[row := v]> nxt) i l.
Proof.
  intros Hr Hc. induction Hc as [|i nx l Hi Hc IH]; [constructor|].
  rewrite not_elem_of_cons in Hr. destruct Hr. econstructor; [|by apply IH].
  by rewrite list_lookup_insert_ne by done.
Qed.

Lemma holds_init cap : holds [] (with_capacity cap).
Proof.
  split; cbn.
  - intros h. by rewrite lookup_empty.
  - intros row _ Hr. rewrite length_replicate in Hr. by apply lookup_replicate_2.
Qed.

Lemma update_step_ok tmax ops m row h :
  holds ops m → row ∉ ops.*1 → row < length (next m) → (N.of_nat (row + 1) <= tmax)%N →
  ∃ m', update_step tmax 0 m (row, h) = Some m' ∧ holds (ops ++ [(row, h)]) m' ∧
        length (next m') = length (next m) ∧ dom (map m') = {[h]} ∪ dom (map m).
Proof.
  intros [Hm Hf] Hrow Hlen Hmax. cbn [update_step]. unfold try_from.
  destruct (N.leb_spec (N.of_nat (row + 1)) tmax); [|lia]. cbn [mbind option_bind].
  assert (Hother : ∀ (v : nat) (idx : nat) h', idx ≠ 0 → chain (next m) idx (rows_with h' ops) →
    chain (<[row := v]> (next m)) idx (rows_with h' ops)).
  { intros v idx h' _ Hc. apply chain_insert; [|done]. by intros ?%rows_with_in. }
  pose proof (Hm h) as Hh. destruct (map m !! h) as [prev|].
  - destruct Hh as [Hp Hc]. rewrite usize_sub_le by lia. cbn [mbind option_bind].
    rewrite vec_set_in by lia. cbn [mbind option_bind]. rewrite Nat.sub_0_r.
    eexists. split; [done|]. cbn [map next]. split_and!; [|by rewrite length_insert|by rewrite dom_insert_L].
    split; cbn [map next].
    + intros h'. rewrite rows_with_snoc. destruct (decide (h = h')) as [<-|Hne].
      * rewrite lookup_insert_eq. split; [lia|]. replace (row + 1) with (S row) by lia.
        econstructor; [by apply list_lookup_insert_eq|].
        apply Hother; [lia|done].
      * rewrite lookup_insert_ne by done. specialize (Hm h'). destruct (map m !! h'); [|done].
        destruct Hm as [? ?]. split; [done|]. apply Hother; [lia|done].
    + intros r Hr. rewrite fmap_app in Hr.
      assert ((r ∉ ops.*1) ∧ row ≠ r) as [Hr1 Hr2] by set_solver.
      rewrite length_insert. intros Hr3. rewrite list_lookup_insert_ne by done. by apply Hf.
  - eexists. split; [done|]. cbn [map next]. split_and!; [|done|by rewrite dom_insert_L].
    split; cbn [map next].
    + intros h'. rewrite rows_with_snoc. destruct (decide (h = h')) as [<-|Hne].
      * rewrite lookup_insert_eq, Hh. split; [lia|]. replace (row + 1) with (S row) by lia.
        econstructor; [by apply Hf|constructor].
      * rewrite lookup_insert_ne by done. specialize (Hm h'). by destruct (map m !! h').
    + intros r Hr Hr3. apply Hf; [|done]. rewrite fmap_app in Hr. set_solver.
Qed.

(** Building: every row once, within the capacity and the index type. *)
Lemma update_from_iter_ok tmax ops0 ops m :
  holds ops0 m → NoDup (ops0 ++ ops).*1 →
  Forall (λ p, p.1 < length (next m) ∧ (N.of_nat (p.1 + 1) <= tmax)%N) ops →
  ∃ m', update_from_iter tmax 0 m ops = Some m' ∧ holds (ops0 ++ ops) m' ∧
        length (next m') = length (next m) ∧ dom (map m') = list_to_set ops.*2 ∪ dom (map m).
Proof.
  revert ops0 m. induction ops as [|[row h] ops IH]; intros ops0 m Hm Hnd Hops.
  { exists m. rewrite app_nil_r. split_and!; try done. set_solver. }
  apply Forall_cons in Hops as [[H1 H2] Hops]. cbn [fst] in *.
  destruct (update_step_ok tmax ops0 m row h) as (m1 & E1 & Hm1 & Hl1 & Hd1); [done| |done|done|].
  { rewrite fmap_app in Hnd. apply NoDup_app in Hnd as (_ & Hd & _). intros Hin.
    apply (Hd row Hin). apply list_elem_of_here. }
  destruct (IH (ops0 ++ [(row, h)]) m1) as (m' & E & Hm' & Hl & Hd); [done| | |].
  { by rewrite <- app_assoc. }
  { by rewrite Hl1. }
  exists m'. cbn [update_from_iter]. rewrite E1. cbn. rewrite E, Hl, Hd, Hd1, <- app_assoc in *.
  split_and!; [done|done|done|]. cbn. set_solver.
Qed.

(** A map built from the rows [ops]. *)
Record built (ops : list (nat * N)) (m : JoinHashMap) : Prop := {
  b_holds : holds ops m;
  b_rows : NoDup ops.*1;
  b_range : Forall (λ p, p.1 < length (next m)) ops;
  b_dom : dom (map m) = list_to_set ops.*2;
}.

Lemma build_ok tmax cap ops :
  NoDup ops.*1 → Forall (λ p, p.1 < cap ∧ (N.of_nat (p.1 + 1) <= tmax)%N) ops →
  ∃ m, update_from_iter tmax 0 (with_capacity cap) ops = Some m ∧ built ops m ∧ length (next m) = cap.
Proof.
  intros Hnd Hops.
  destruct (update_from_iter_ok tmax [] ops (with_capacity cap)) as (m & E & Hm & Hl & Hd);
    [apply holds_init|done|cbn; by rewrite length_replicate|].
  cbn [next with_capacity] in Hl. rewrite length_replicate in Hl. exists m. split_and!; [done| |done].
  split; [done|done| |].
  - rewrite Hl. eapply Forall_impl; [exact Hops|]. by intros p [? _].
  - rewrite Hd. cbn. by rewrite dom_empty_L, union_empty_r_L.
Qed.

Section Lookup.
Context (ops : list (nat * N)) (m : JoinHashMap) (Hb : built ops m).

Lemma length_ops : length ops ≤ length (next m).
Proof.
  destruct Hb as [_ Hnd Hr _]. rewrite <- (length_fmap fst ops), <- (length_seq (length (next m)) 0).
  apply submseteq_length, NoDup_submseteq; [done|]. intros r (p & -> & Hp)%list_elem_of_fmap.
  rewrite Forall_forall in Hr. apply elem_of_seq. specialize (Hr p Hp). lia.
Qed.

Lemma length_rows_with h : length (rows_with h ops) ≤ length (next m).
Proof.
  unfold rows_with. rewrite length_reverse, length_fmap. etransitivity; [apply length_filter|apply length_ops].
Qed.

Lemma nodup_of_size (l : list N) : size (list_to_set l : gset N) = length l → NoDup l.
Proof.
  assert (Hle : ∀ l : list N, size (list_to_set l : gset N) ≤ length l).
  { intros l0. induction l0 as [|x l0 IH]; cbn; [done|]. rewrite size_union_alt, size_singleton.
    pose proof (subseteq_size (list_to_set l0 ∖ {[x]} : gset N) (list_to_set l0) ltac:(set_solver)). lia. }
  induction l as [|x l IH]; [constructor|]. cbn. intros Hs.
  destruct (decide (x ∈ l)) as [Hx|Hx].
  - replace ({[x]} ∪ list_to_set l : gset N) with (list_to_set l : gset N) in Hs by set_solver.
    specialize (Hle l). lia.
  - constructor; [done|]. apply IH. rewrite size_union, size_singleton in Hs by set_solver. lia.
Qed.

(** As many hashes as rows: no two rows share a hash. *)
Lemma unique_rows h : size (map m) = length (next m) → length (rows_with h ops) ≤ 1.
Proof.
  intros Hs. destruct Hb as [_ Hnd Hr Hd].
  assert (Hl : size (list_to_set ops.*2 : gset N) = length ops.*2).
  { apply Nat.le_antisymm.
    - clear. induction ops.*2 as [|x l IH]; cbn; [done|]. rewrite size_union_alt, size_singleton.
      pose proof (subseteq_size (list_to_set l ∖ {[x]} : gset N) (list_to_set l) ltac:(set_solver)). lia.
    - rewrite <- Hd, size_dom, Hs, length_fmap. apply length_ops. }
  apply nodup_of_size in Hl. unfold rows_with. rewrite length_reverse, length_fmap. clear -Hl.
  induction ops as [|[r h'] l IH]; [cbn; lia|]. cbn in Hl. apply NoDup_cons in Hl as [Hh Hl].
  rewrite filter_cons. cbn [snd]. case_decide as E; [|by apply IH].
  subst h'. cbn [length]. replace (filter _ l) with (@nil (nat * N)); [done|]. symmetry.
  clear -Hh. induction l as [|[r' h''] l IH]; [done|]. cbn in Hh. rewrite not_elem_of_cons in Hh.
  rewrite filter_cons_False by (cbn; intros ->; naive_solver). apply IH. naive_solver.
Qed.

(** ** Pages *)

(** The matches of hash values, numbered from [row]. *)
Fixpoint pairs_from (row : nat) (hashes : list N) : list (nat * nat) :=
  match hashes with
  | [] => []
  | h :: hashes => ((λ r, (row, r)) <$> rows_with h ops) ++ pairs_from (row + 1) hashes
  end.

(** [ps] is appended to the output. *)
Record emits (pg : page) (ps : list (nat * nat)) (pg' : page) : Prop := {
  e_inputs : input_indices pg' = input_indices pg ++ ps.*1;
  e_matches : match_indices pg' = match_indices pg ++ ps.*2;
  e_remaining : remaining pg = remaining pg' + length ps;
}.

Lemma emits_nil pg : emits pg [] pg.
Proof. split; cbn; rewrite ?app_nil_r; auto with lia. Qed.

Lemma emits_app pg1 ps1 pg2 ps2 pg3 : emits pg1 ps1 pg2 → emits pg2 ps2 pg3 → emits pg1 (ps1 ++ ps2) pg3.
Proof.
  intros [A1 B1 C1] [A2 B2 C2]. split; rewrite ?fmap_app, ?length_app.
  - by rewrite A2, A1, app_assoc.
  - by rewrite B2, B1, app_assoc.
  - lia.
Qed.

(** A chain is read to its end, or until the page is full. *)
Lemma traverse_chain_ok fuel p i l pg is_last :
  chain (next m) (S i) (i :: l) → length l < fuel → 0 < remaining pg →
  ∃ pg' off ps, traverse_chain fuel (next m) p (S i) pg is_last = Some (pg', off) ∧ emits pg ps pg' ∧
    match off with
    | None => ps = (λ r, (p, r)) <$> i :: l ∧ (0 < remaining pg' ∨ is_last = true)
    | Some (p', None) => False
    | Some (p', Some nx) => p' = p ∧ remaining pg' = 0 ∧
        ∃ l', (λ r, (p, r)) <$> i :: l = ps ++ ((λ r, (p, r)) <$> l') ∧ chain (next m) nx l' ∧ length l' < fuel
    end.
Proof.
  revert i l pg. induction fuel as [|fuel IH]; intros i l pg Hc Hf Hrem; [lia|].
  inversion Hc as [|? nx ? Hi Hc']; subst. cbn [traverse_chain].
  rewrite !usize_sub_le by lia. cbn [mbind option_bind]. replace (S i - 1) with i by lia.
  unfold vec_get. rewrite Hi. cbn [mbind option_bind].
  set (pg1 := Build_page _ _ _).
  assert (He : emits pg [(p, i)] pg1) by (split; cbn; auto with lia).
  case_bool_decide as Hr.
  - destruct is_last; cbn [andb]; [destruct (bool_decide_reflect (nx = 0)) as [->|Hnx]|].
    + inversion Hc'; subst. exists pg1, None, [(p, i)]. split_and!; auto.
    + exists pg1, (Some (p, Some nx)), [(p, i)]. split_and!; auto. exists l. split_and!; auto with lia.
    + exists pg1, (Some (p, Some nx)), [(p, i)]. split_and!; auto. exists l. split_and!; auto with lia.
  - case_bool_decide as Hnx.
    + subst nx. inversion Hc'; subst. exists pg1, None, [(p, i)]. split_and!; auto. left. cbn. lia.
    + inversion Hc' as [|i' nx' l' Hi' Hc'']; subst; [done|]. cbn [length] in Hf.
      destruct (IH i' l' pg1) as (pg' & off & ps & E & He' & Ho); [done|lia|cbn; lia|].
      exists pg', off, ((p, i) :: ps). split_and!; [done|by apply (emits_app _ [(p, i)] pg1)|].
      destruct off as [[p' [nx2|]]|]; [|done|].
      * destruct Ho as (-> & ? & l'' & El & ? & ?). split_and!; auto. exists l''. cbn in *.
        split_and!; [by rewrite El|done|lia].
      * destruct Ho as [-> ?]. done.
Qed.

Lemma pairs_from_app row hs1 hs2 :
  pairs_from row (hs1 ++ hs2) = pairs_from row hs1 ++ pairs_from (row + length hs1) hs2.
Proof.
  revert row. induction hs1 as [|h hs1 IH]; intros row; cbn; [by rewrite Nat.add_0_r|].
  rewrite IH, app_assoc. do 2 f_equal. lia.
Qed.

(** What is left to output at an offset of hash values [hs]. *)
Inductive at_offset (hs : list N) : MapOffset → list (nat * nat) → Prop :=
| at_row idx : idx ≤ length hs → at_offset hs (idx, None) (pairs_from idx (drop idx hs))
| at_chain idx nx l :
    size (map m) ≠ length (next m) → idx < length hs →
    chain (next m) nx l → length l ≤ length (next m) →
    at_offset hs (idx, Some nx)
      (((λ r, (idx, r)) <$> l) ++ pairs_from (idx + 1) (drop (idx + 1) hs)).

Lemma map_lookup h :
  match map m !! h with
  | Some idx => ∃ i l, idx = S i ∧ rows_with h ops = i :: l ∧ chain (next m) (S i) (i :: l)
  | None => rows_with h ops = []
  end.
Proof.
  destruct Hb as [[Hm _] _ _ _]. specialize (Hm h). destruct (map m !! h) as [idx|]; [|done].
  destruct Hm as [Hpos Hc]. inversion Hc as [E|i nx l Hi Hc' E El]; [lia|].
  exists i, l. split_and!; [done|done|by econstructor].
Qed.

Lemma probe_hashes_ok hs row pg :
  size (map m) ≠ length (next m) → row ≤ length hs → 0 < remaining pg →
  ∃ pg' off ps, probe_hashes m (length hs) row (drop row hs) pg = Some (pg', off) ∧ emits pg ps pg' ∧
    match off with
    | None => ps = pairs_from row (drop row hs)
    | Some o => ∃ ps', pairs_from row (drop row hs) = ps ++ ps' ∧ at_offset hs o ps' ∧
                       row ≤ o.1 ∧ remaining pg' = 0
    end.
Proof.
  intros Hu Hrow. remember (length hs - row) as d eqn:Ed. revert row Hrow Ed pg.
  induction d as [|d IH]; intros row Hrow Ed pg Hrem.
  { rewrite (drop_ge hs row) by lia. exists pg, None, []. split_and!; [done|apply emits_nil|done]. }
  destruct (lookup_lt_is_Some_2 hs row ltac:(lia)) as [h Hh]. rewrite (drop_S hs h row Hh).
  cbn [probe_hashes pairs_from]. replace (row + 1) with (S row) by lia.
  pose proof (map_lookup h) as Hl. destruct (map m !! h) as [idx|].
  - destruct Hl as (i & l & -> & Hl & Hc). rewrite Hl.
    pose proof (length_rows_with h) as Hlen. rewrite Hl in Hlen. cbn [length] in Hlen.
    destruct (traverse_chain_ok (S (length (next m))) row i l pg (bool_decide (row = length hs - 1)))
      as (pg1 & off & ps & E & He & Ho); [done|lia|done|]. rewrite E. cbn [mbind option_bind].
    destruct off as [[p' [nx|]]|]; [|done|].
    + destruct Ho as (-> & Hr & l' & El & Hc' & Hl'). exists pg1, (Some (row, Some nx)), ps.
      split_and!; [done|done|]. rewrite El, <- app_assoc.
      eexists. split_and!; [reflexivity| |done|done].
      replace (S row) with (row + 1) by lia. constructor; [done|lia|done|lia].
    + destruct Ho as [-> Hr]. destruct (bool_decide_reflect (row = length hs - 1)) as [Hlast|Hlast].
      * rewrite (drop_ge hs (S row)) by lia. cbn [probe_hashes pairs_from].
        exists pg1, None, ((λ r, (row, r)) <$> i :: l). rewrite app_nil_r. split_and!; done.
      * destruct Hr as [Hr|]; [|done].
        destruct (IH (S row) ltac:(lia) ltac:(lia) pg1 Hr) as (pg2 & off & ps2 & E2 & He2 & Ho2).
        exists pg2, off, (((λ r, (row, r)) <$> i :: l) ++ ps2). split_and!; [done|by eapply emits_app|].
        destruct off as [o|]; [|by rewrite Ho2]. destruct Ho2 as (ps' & -> & ? & ? & ?).
        exists ps'. split_and!; [by rewrite app_assoc|done|lia|done].
  - rewrite Hl. cbn [fmap list_fmap app].
    destruct (IH (S row) ltac:(lia) ltac:(lia) pg Hrem) as (pg2 & off & ps2 & E2 & He2 & Ho2).
    exists pg2, off, ps2. split_and!; [done|done|]. destruct off as [o|]; [|done].
    destruct Ho2 as (ps' & ? & ? & ? & ?). exists ps'. split_and!; auto with lia.
Qed.

Lemma unique_loop_ok row hashes pg :
  size (map m) = length (next m) →
  ∃ pg', unique_loop m row hashes pg = Some pg' ∧
    input_indices pg' = input_indices pg ++ (pairs_from row hashes).*1 ∧
    match_indices pg' = match_indices pg ++ (pairs_from row hashes).*2 ∧
    length (pairs_from row hashes) ≤ length hashes.
Proof.
  intros Hu. revert row pg. induction hashes as [|h hashes IH]; intros row pg; cbn [unique_loop pairs_from].
  { exists pg. by rewrite !app_nil_r. }
  pose proof (map_lookup h) as Hl. pose proof (unique_rows h Hu) as H1. destruct (map m !! h) as [idx|].
  - destruct Hl as (i & l & -> & Hl & _). rewrite Hl in *. destruct l; [|cbn in H1; lia].
    rewrite usize_sub_le by lia. cbn [mbind option_bind]. replace (S i - 1) with i by lia.
    destruct (IH (row + 1) (Build_page (remaining pg) (input_indices pg ++ [row]) (match_indices pg ++ [i])))
      as (pg' & -> & Hi & Hm & Hlen).
    exists pg'. cbn in *. rewrite Hi, Hm, <- !app_assoc. split_and!; [done..|lia].
  - rewrite Hl. cbn. destruct (IH (row + 1) pg) as (pg' & -> & Hi & Hm & Hlen).
    exists pg'. split_and!; [done..|lia].
Qed.

Abbreviation page_result hs := (page_outcome (at_offset hs)).

(** The rest of a page, after [ps1] were written. *)
Lemma page_rest hs limit off ps0 row pg1 ps1 :
  size (map m) ≠ length (next m) → row ≤ length hs → off.1 ≤ row →
  emits (Build_page limit [] []) ps1 pg1 → 0 < remaining pg1 ∨ row = length hs →
  ps0 = ps1 ++ pairs_from row (drop row hs) →
  page_result hs limit off ps0 (probe_hashes m (length hs) row (drop row hs) pg1).
Proof.
  intros Hu Hrow Hoff He Hrem Hps.
  assert (∃ pg' off' ps, probe_hashes m (length hs) row (drop row hs) pg1 = Some (pg', off') ∧
    emits pg1 ps pg' ∧ match off' with
    | None => ps = pairs_from row (drop row hs)
    | Some o => ∃ ps', pairs_from row (drop row hs) = ps ++ ps' ∧ at_offset hs o ps' ∧
                       row ≤ o.1 ∧ remaining pg' = 0 end) as (pg & off' & ps & E & He' & Ho).
  { destruct (decide (row = length hs)) as [->|Hne].
    - rewrite drop_all. exists pg1, None, []. split_and!; [done|apply emits_nil|done].
    - destruct Hrem as [Hrem|]; [|done]. by apply probe_hashes_ok. }
  destruct He as [Hi0 Hm0 Hr0]. cbn in Hi0, Hm0, Hr0.
  destruct He' as [Hi Hm Hr]. rewrite Hi0 in Hi. rewrite Hm0 in Hm.
  exists pg, off', (ps1 ++ ps). rewrite !fmap_app, length_app. split_and!; [done|done|done|lia|].
  destruct off' as [o|]; [|by rewrite Hps, Ho]. destruct Ho as (ps' & Hp & Hat' & Hle & H0).
  exists ps'. rewrite Hps, Hp, app_assoc. split_and!; [done|done|lia|].
  destruct Hrem as [Hrem|Hrem]; [right; lia|].
  subst row. by rewrite drop_all in E.
Qed.

(** The fast path. *)
Lemma page_unique hs limit idx :
  0 < limit → size (map m) = length (next m) → idx ≤ length hs →
  page_result hs limit (idx, None) (pairs_from idx (drop idx hs))
    (get_matched_indices_with_limit_offset m hs limit (idx, None)).
Proof.
  intros Hlim Hu Hidx. unfold get_matched_indices_with_limit_offset. rewrite bool_decide_true by done.
  cbn [fst]. set (stop := Nat.min (idx + limit) (length hs)). rewrite bool_decide_true by lia.
  destruct (unique_loop_ok idx (take (stop - idx) (drop idx hs)) (Build_page limit [] []) Hu)
    as (pg & -> & Hi & Hm & Hlen).
  cbn [mbind option_bind]. rewrite length_take, length_drop in Hlen.
  assert (Hsplit : pairs_from idx (drop idx hs) =
    pairs_from idx (take (stop - idx) (drop idx hs)) ++ pairs_from stop (drop stop hs)).
  { rewrite <- (take_drop (stop - idx) (drop idx hs)) at 1. rewrite pairs_from_app, drop_drop.
    rewrite length_take, length_drop. f_equal. f_equal; [lia|]. f_equal. lia. }
  eexists pg, _, _. split_and!; [reflexivity|exact Hi|exact Hm|lia|].
  case_bool_decide as Hstop.
  - rewrite Hsplit, Hstop, drop_all. cbn. by rewrite app_nil_r.
  - eexists. split_and!; [exact Hsplit|constructor; lia|cbn; lia|cbn; left; lia].
Qed.

Lemma page_ok hs limit off ps0 :
  0 < limit → at_offset hs off ps0 →
  page_result hs limit off ps0 (get_matched_indices_with_limit_offset m hs limit off).
Proof.
  intros Hlim Hat. destruct (decide (size (map m) = length (next m))) as [Hu|Hu].
  { inversion Hat; subst; [by apply page_unique|done]. }
  unfold get_matched_indices_with_limit_offset. rewrite bool_decide_false by done.
  set (pg0 := Build_page limit [] []).
  inversion Hat as [idx Hidx|idx nx l _ Hidx Hc Hl]; subst.
  { cbn [mbind option_bind]. rewrite bool_decide_true by done.
    apply (page_rest hs limit _ _ idx pg0 []); [done|done|cbn; lia|apply emits_nil|by left|done]. }
  inversion Hc as [|i nx' l' Hi Hc']; subst.
  { cbn [mbind option_bind]. rewrite bool_decide_true by lia.
    apply (page_rest hs limit _ _ (idx + 1) pg0 []); [done|lia|cbn; lia|apply emits_nil|by left|done]. }
  rewrite usize_sub_le by lia. cbn [mbind option_bind].
  destruct (traverse_chain_ok (S (length (next m))) idx i l' pg0 (bool_decide (idx = length hs - 1)))
    as (pg1 & o & ps & E & He & Ho); [done|cbn in Hl; lia|done|].
  rewrite E. cbn [mbind option_bind]. destruct o as [[p' [nx2|]]|]; [|done|].
  - destruct Ho as (-> & Hr & l2 & El & Hc2 & Hl2). destruct He as [Hi1 Hm1 Hr1]. cbn in Hi1, Hm1, Hr1.
    exists pg1, (Some (idx, Some nx2)), ps. split_and!; [done|done|done|lia|].
    rewrite El, <- app_assoc. eexists.
    split_and!; [reflexivity|constructor; [done|done|done|lia]|done|right; lia].
  - destruct Ho as [-> Hr]. cbn [mbind option_bind]. rewrite bool_decide_true by lia.
    apply (page_rest hs limit _ _ (idx + 1) pg1 ((λ r, (idx, r)) <$> i :: l'));
      [done|lia|cbn; lia|done| |done].
    destruct Hr as [?|Hr%bool_decide_eq_true]; [by left|right; lia].
Qed.

Lemma hash_pager hs : Pager (length hs) (get_matched_indices_with_limit_offset m hs) (at_offset hs).
Proof.
  split; [intros limit off ps0; apply page_ok|]. intros off ps Hat. inversion Hat; cbn; lia.
Qed.

Lemma match_loop_ok fuel i l :
  chain (next m) (S i) (i :: l) → length l < fuel → match_loop fuel (next m) None i = Some (i :: l).
Proof.
  revert i l. induction fuel as [|fuel IH]; intros i l Hc Hf; [lia|].
  inversion Hc as [|? nx ? Hi Hc']; subst. cbn [match_loop]. unfold vec_get. rewrite Hi. cbn [mbind option_bind].
  inversion Hc' as [|i' nx' l' Hi' Hc'']; subst; [done|]. cbn [length] in Hf.
  rewrite bool_decide_false by lia. replace (S i' - 1) with i' by lia. by rewrite (IH i' l') by (done || lia).
Qed.

Lemma get_matched_indices_ok row hs :
  get_matched_indices m (zip (seq row (length hs)) hs) None =
  Some ((pairs_from row hs).*1, (pairs_from row hs).*2).
Proof.
  revert row. induction hs as [|h hs IH]; intros row; [done|].
  cbn [length seq zip zip_with get_matched_indices pairs_from].
  replace (S row) with (row + 1) by lia. rewrite IH, !fmap_app.
  pose proof (map_lookup h) as Hl. pose proof (length_rows_with h) as Hlen. destruct (map m !! h) as [idx|].
  - destruct Hl as (i & l & -> & Hl & Hc). rewrite Hl in *. rewrite usize_sub_le by lia.
    cbn [mbind option_bind]. replace (S i - 1) with i by lia.
    rewrite (match_loop_ok _ i l) by (done || (cbn in Hlen; lia)). cbn [mbind option_bind fst snd].
    do 2 f_equal; f_equal.
    + clear. induction (i :: l) as [|x l' IH]; [done|]. cbn. by f_equal.
    + clear. induction (i :: l) as [|x l' IH]; [done|]. cbn. by f_equal.
  - rewrite Hl. done.
Qed.

Lemma contain_hashes_ok hs : contain_hashes m hs = List.map (λ h, bool_decide (h ∈ ops.*2)) hs.
Proof.
  unfold contain_hashes. apply map_ext. intros h. apply bool_decide_ext.
  rewrite <- elem_of_dom, (b_dom _ _ Hb). set_solver.
Qed.

End Lookup.

(** ** Properties *)

(** A map built by [update_from_iter] from rows that are all different,
    within the capacity and the index type, answers exactly: it contains the
    inserted hashes, and [get_matched_indices] lists, for every probe row in
    order, the inserted rows with its hash, the last inserted first. *)
Theorem join_map_lookup tmax cap ops :
  NoDup ops.*1 → Forall (λ p, p.1 < cap ∧ (N.of_nat (p.1 + 1) <= tmax)%N) ops →
  ∃ m, update_from_iter tmax 0 (with_capacity cap) ops = Some m ∧
    (∀ hs, contain_hashes m hs = List.map (λ h, bool_decide (h ∈ ops.*2)) hs) ∧
    ∀ hs, get_matched_indices m (zip (seq 0 (length hs)) hs) None =
          Some ((pairs_from ops 0 hs).*1, (pairs_from ops 0 hs).*2).
Proof.
  intros Hnd Hops. destruct (build_ok tmax cap ops Hnd Hops) as (m & E & Hb & _).
  exists m. split_and!; [done|..]; intros hs; [by apply contain_hashes_ok|by apply get_matched_indices_ok].
Qed.

(** C23. Reading the matches of a batch in pages ends, and loses and repeats
    nothing: whatever the positive limit, the pages concatenated are all matches
    in order, each page within the limit (the shortcut for maps without
    duplicate hashes included). *)
Theorem join_map_pages tmax cap ops hs limit fuel :
  NoDup ops.*1 → Forall (λ p, p.1 < cap ∧ (N.of_nat (p.1 + 1) <= tmax)%N) ops →
  0 < limit → length hs + length (pairs_from ops 0 hs) < fuel →
  ∃ m pgs, update_from_iter tmax 0 (with_capacity cap) ops = Some m ∧
    pages fuel (get_matched_indices_with_limit_offset m hs) limit (0, None) = Some pgs ∧
    concat (List.map page_pairs pgs) = pairs_from ops 0 hs ∧
    Forall (λ pg, length (page_pairs pg) ≤ limit) pgs.
Proof.
  intros Hnd Hops Hlim Hf. destruct (build_ok tmax cap ops Hnd Hops) as (m & E & Hb & _).
  pose proof (hash_pager ops m Hb hs) as Hpager.
  destruct (pages_ok fuel limit (0, None) (pairs_from ops 0 hs)) as (pgs & ? & ? & ?);
    [done|exact (at_row ops m hs 0 ltac:(lia))|cbn; lia|].
  exists m, pgs. by split_and!.
Qed.

(** Rows 2, 1, 0 with hashes 10, 20, 10 inserted in reverse. *)
Definition sample_rows : list (nat * N) := [(2, 10%N); (1, 20%N); (0, 10%N)].

Lemma sample_ok :
  NoDup sample_rows.*1 ∧ Forall (λ p, p.1 < 3 ∧ (N.of_nat (p.1 + 1) <= 4294967295)%N) sample_rows.
Proof.
  split; [|repeat constructor; by vm_compute]. cbn.
  repeat (apply NoDup_cons; split; [set_solver|]). apply NoDup_nil_2.
Qed.

Lemma join_map_lookup_witness :
  ∃ m, update_from_iter 4294967295 0 (with_capacity 3) sample_rows = Some m ∧
    (∀ hs, contain_hashes m hs = List.map (λ h, bool_decide (h ∈ sample_rows.*2)) hs) ∧
    ∀ hs, get_matched_indices m (zip (seq 0 (length hs)) hs) None =
          Some ((pairs_from sample_rows 0 hs).*1, (pairs_from sample_rows 0 hs).*2).
Proof. apply (join_map_lookup 4294967295 3 sample_rows); apply sample_ok. Defined.

Lemma join_map_pages_witness :
  ∃ m pgs, update_from_iter 4294967295 0 (with_capacity 3) sample_rows = Some m ∧
    pages 10 (get_matched_indices_with_limit_offset m [10%N; 20%N; 30%N; 10%N]) 2 (0, None) = Some pgs ∧
    concat (List.map page_pairs pgs) = [(0, 0); (0, 2); (1, 1); (3, 0); (3, 2)] ∧
    Forall (λ pg, length (page_pairs pg) ≤ 2) pgs.
Proof.
  apply (join_map_pages 4294967295 3 sample_rows); [apply sample_ok|apply sample_ok|lia|vm_compute; lia].
Defined.

End JoinHashMap.
