(* ===== verification/ArrayMap.v ===== *)
(** * The array map for dense integer keys (physical-plan/src/joins/array_map.rs, hash_join/exec.rs)

    A join on one integer key whose values lie close together uses a vector
    indexed by [key - min] instead of a hash map.  Signed keys are cast to [u64]
    and subtracted with wrap-around.  Entries and links are row numbers plus one,
    zero is the end; the links are allocated at the first duplicate key.  Proved:
    the map answers exactly for every key of the type, and reading the matches of
    a batch in pages gives all pairs of equal keys in order. *)

From stdpp Require Import base list strings gmap.
From Stdlib Require Import ZArith Lia.
From S2P Require Import Prelude F64 Text Stats JoinTypes JoinHashMap.

Module ArrayMap.
Import JoinHashMap(page, Build_page, remaining, input_indices, match_indices, traverse_chain, chain).
#[local] Open Scope Z_scope.

Abbreviation MapOffset := (nat * option nat)%type.

(** ** Integer arrays *)

Inductive IntType := Int8 | Int16 | Int32 | Int64 | UInt8 | UInt16 | UInt32 | UInt64.

Definition int_min (t : IntType) : Z :=
  match t with
  | Int8 => - 2 ^ 7 | Int16 => - 2 ^ 15 | Int32 => - 2 ^ 31 | Int64 => - 2 ^ 63
  | UInt8 | UInt16 | UInt32 | UInt64 => 0
  end.

Definition int_max (t : IntType) : Z :=
  match t with
  | Int8 => 2 ^ 7 - 1 | Int16 => 2 ^ 15 - 1 | Int32 => 2 ^ 31 - 1 | Int64 => 2 ^ 63 - 1
  | UInt8 => 2 ^ 8 - 1 | UInt16 => 2 ^ 16 - 1 | UInt32 => 2 ^ 32 - 1 | UInt64 => 2 ^ 64 - 1
  end.

(** An array: of an integer type the map is compiled for, or of another type. *)
Inductive KeyArray :=
| IntegerArray (t : IntType) (vs : list (option Z))
| UnsupportedArray (type_name : string).

Definition is_supported_type (a : KeyArray) : bool :=
  match a with IntegerArray _ _ => true | UnsupportedArray _ => false end.

(** [v as u64] *)
Definition as_u64 (v : Z) : Z := v mod 2 ^ 64.
Definition wrapping_sub (a b : Z) : Z := (a - b) mod 2 ^ 64.

(** [i as u32] and [x + 1] on [u32], which panics on overflow. *)
Definition as_u32 (i : nat) : nat := Z.to_nat (Z.of_nat i mod 2 ^ 32).
Definition u32_succ (x : nat) : option nat := if Z.of_nat x =? 2 ^ 32 - 1 then panic! else Some (S x).

(** [key_to_u64] of a scalar: its type and value, [None] when null. *)
Inductive KeyScalar := IntScalar (t : IntType) (v : option Z) | OtherScalar (is_null : bool).

Definition key_to_u64 (v : KeyScalar) : option Z :=
  match v with IntScalar _ (Some v) => Some (as_u64 v) | _ => None end.

Definition calculate_range (min_val max_val : Z) : Z := wrapping_sub max_val min_val.

Definition estimate_memory_size (min_val max_val num_rows : Z) : Z :=
  let range := calculate_range min_val max_val in
  if usize_max <=? range then usize_max
  else saturating_add (saturating_mul (range + 1) 4) (saturating_mul num_rows 4).

(** ** The map *)

Record ArrayMap := {
  data : list nat;
  offset : Z;
  next : list nat;
  num_of_distinct_key : nat;
}.

(** The vectors being filled. *)
Record filling := { f_data : list nat; f_next : list nat; f_distinct : nat }.

(** The body of the loop of [fill_data] for row [i]. *)
Definition fill_step (len : nat) (offset_val : Z) (st : filling) (row : nat * option Z) : option (Result filling) :=
  let '(i, val) := row in
  match val with
  | None => Some (Ok st)
  | Some val =>
      let idx := wrapping_sub (as_u64 val) offset_val in
      if Z.of_nat (length (f_data st)) <=? idx then Some (Err (Internal "failed build Array idx >= data.len()"))
      else
        head ← vec_get (f_data st) (Z.to_nat idx);
        links ← (if bool_decide (head ≠ 0%nat) then
                   let nxt := if bool_decide (f_next st = []) then replicate len 0%nat else f_next st in
                   nxt' ← vec_set nxt i head; Some (nxt', f_distinct st)
                 else Some (f_next st, S (f_distinct st)));
        entry ← u32_succ (as_u32 i);
        data' ← vec_set (f_data st) (Z.to_nat idx) entry;
        Some (Ok {| f_data := data'; f_next := links.1; f_distinct := links.2 |})
  end.

(** The loop, in the order of [iter]. *)
Fixpoint fill_loop (len : nat) (offset_val : Z) (iter : list (nat * option Z)) (st : filling)
    : option (Result filling) :=
  match iter with
  | [] => Some (Ok st)
  | row :: iter => st ←? fill_step len offset_val st row; fill_loop len offset_val iter st
  end.

(** [arr.iter().enumerate().rev()] *)
Definition fill_data (vs : list (option Z)) (offset_val : Z) (st : filling) : option (Result filling) :=
  fill_loop (length vs) offset_val (reverse (imap pair vs)) st.

Definition unsupported {A} (type_name : string) : Result A :=
  Err (Internal ("Unsupported type for ArrayMap: " +:+ type_name)).

Definition try_new (array : KeyArray) (min_val max_val : Z) : option (Result ArrayMap) :=
  let range := wrapping_sub max_val min_val in
  if usize_max <=? range then Some (Err (Internal "ArrayMap key range is too large to be allocated."))
  else
    let size := Z.to_nat (range + 1) in
    match array with
    | IntegerArray _ vs =>
        st ←? fill_data vs min_val {| f_data := replicate size 0%nat; f_next := []; f_distinct := 0 |};
        Some (Ok {| data := f_data st; offset := min_val; next := f_next st; num_of_distinct_key := f_distinct st |})
    | UnsupportedArray ty => Some (unsupported ty)
    end.

(** ** Looking up *)

(** The entry of a probe value; zero when it is null, out of range or absent. *)
Definition entry_of (m : ArrayMap) (val : option Z) : option nat :=
  match val with
  | None => Some 0%nat
  | Some val =>
      let idx := wrapping_sub (as_u64 val) (offset m) in
      if Z.of_nat (length (data m)) <=? idx then Some 0%nat else vec_get (data m) (Z.to_nat idx)
  end.

(** Without links: one entry per value, until the page is full. *)
Fixpoint unique_lookup (m : ArrayMap) (limit prob_idx : nat) (vals : list (option Z)) (pg : page)
    : option (page * option MapOffset) :=
  match vals with
  | [] => Some (pg, None)
  | val :: vals =>
      if bool_decide (length (match_indices pg) = limit) then Some (pg, Some (prob_idx, None))
      else
        entry ← entry_of m val;
        match entry with
        | O => unique_lookup m limit (prob_idx + 1) vals pg
        | S i => unique_lookup m limit (prob_idx + 1) vals
                   {| remaining := remaining pg; input_indices := input_indices pg ++ [prob_idx];
                      match_indices := match_indices pg ++ [i] |}
        end
  end.

(** With links: the chain of every value. *)
Fixpoint chain_lookup (m : ArrayMap) (total prob_idx : nat) (vals : list (option Z)) (pg : page)
    : option (page * option MapOffset) :=
  match vals with
  | [] => Some (pg, None)
  | val :: vals =>
      if bool_decide (remaining pg = 0%nat) then Some (pg, Some (prob_idx, None))
      else
        entry ← entry_of m val;
        match entry with
        | O => chain_lookup m total (prob_idx + 1) vals pg
        | S _ =>
            r ← traverse_chain (S (length (next m))) (next m) prob_idx entry pg (bool_decide (prob_idx = (total - 1)%nat));
            match r with
            | (pg, Some off) => Some (pg, Some off)
            | (pg, None) => chain_lookup m total (prob_idx + 1) vals pg
            end
        end
  end.

Definition lookup_and_get_indices (m : ArrayMap) (vals : list (option Z)) (limit : nat) (current_offset : MapOffset)
    : option (page * option MapOffset) :=
  let pg := {| remaining := limit; input_indices := []; match_indices := [] |} in
  let total := length vals in
  if bool_decide (next m = []) then
    unique_lookup m limit current_offset.1 (drop current_offset.1 vals) pg
  else
    start ← match current_offset with
            | (idx, None) => Some (inl (idx, pg))
            | (idx, Some 0%nat) => Some (inl ((idx + 1)%nat, pg))
            | (idx, Some next_idx) =>
                last ← usize_sub total 1;
                r ← traverse_chain (S (length (next m))) (next m) idx next_idx pg (bool_decide (idx = last));
                match r with
                | (pg, Some off) => Some (inr (pg, off))
                | (pg, None) => Some (inl ((idx + 1)%nat, pg))
                end
            end;
    match start with
    | inr (pg, off) => Some (pg, Some off)
    | inl (to_skip, pg) => chain_lookup m total to_skip (drop to_skip vals) pg
    end.

Definition get_matched_indices_with_limit_offset (m : ArrayMap) (prob_side_keys : list KeyArray) (limit : nat)
    (current_offset : MapOffset) : option (Result (page * option MapOffset)) :=
  match prob_side_keys with
  | [IntegerArray _ vals] => r ← lookup_and_get_indices m vals limit current_offset; Some (Ok r)
  | [UnsupportedArray ty] => Some (unsupported ty)
  | _ => Some (Err (Internal ("ArrayMap expects 1 join key, but got " +:+ Text.usize_text (length prob_side_keys))))
  end.

Definition contain_hashes_helper (m : ArrayMap) (vals : list (option Z)) : option (list bool) :=
  mapM (λ val, entry ← entry_of m val; Some (bool_decide (entry ≠ 0%nat))) vals.

Definition contain_keys (m : ArrayMap) (probe_side_keys : list KeyArray) : option (Result (list bool)) :=
  match probe_side_keys with
  | [IntegerArray _ vals] => r ← contain_hashes_helper m vals; Some (Ok r)
  | [UnsupportedArray ty] => Some (unsupported ty)
  | _ => Some (Err (Internal ("ArrayMap join expects 1 join key, but got " +:+ Text.usize_text (length probe_side_keys))))
  end.

(** ** Casts and wrap-around *)

Definition in_type (t : IntType) (v : Z) : Prop := int_min t <= v <= int_max t.

Lemma type_width t : int_max t - int_min t < 2 ^ 64.
Proof. by destruct t. Qed.

Lemma slot_of a b : wrapping_sub (as_u64 a) (as_u64 b) = (a - b) mod 2 ^ 64.
Proof. unfold wrapping_sub, as_u64. symmetry. apply Zminus_mod. Qed.

(** A value between the bounds has its distance from the minimum as index. *)
Lemma slot_inside t mn mx v :
  in_type t mn → in_type t mx → mn <= v <= mx → wrapping_sub (as_u64 v) (as_u64 mn) = v - mn.
Proof. intros Hn Hx Hv. rewrite slot_of. apply Z.mod_small. pose proof (type_width t). unfold in_type in *. lia. Qed.

(** A value of the type outside the bounds has an index past the array. *)
Lemma slot_outside t mn mx v :
  in_type t mn → in_type t mx → in_type t v → ¬ mn <= v <= mx → mx - mn < wrapping_sub (as_u64 v) (as_u64 mn).
Proof.
  intros Hn Hx Hv Hout. rewrite slot_of. pose proof (type_width t). unfold in_type in *.
  destruct (decide (mn <= v)).
  - rewrite Z.mod_small; lia.
  - rewrite <- (Z_mod_plus_full (v - mn) 1). rewrite Z.mod_small; lia.
Qed.

(** ** Filling *)

(** The rows of [vs], numbered from [start], whose key is [k]. *)
Fixpoint rows_of (k : Z) (start : nat) (vs : list (option Z)) : list nat :=
  match vs with
  | [] => []
  | v :: vs => if decide (v = Some k) then start :: rows_of k (S start) vs else rows_of k (S start) vs
  end.

Lemma rows_of_range k start vs i : i ∈ rows_of k start vs → (start ≤ i < start + length vs)%nat.
Proof.
  revert start. induction vs as [|v vs IH]; intros start; cbn; [by intros ?%elem_of_nil|].
  case_decide; [intros [->|Hi]%elem_of_cons|intros Hi]; [lia|specialize (IH _ Hi); lia..].
Qed.

Lemma rows_of_nil k start vs : rows_of k start vs = [] ↔ Some k ∉ vs.
Proof.
  revert start. induction vs as [|v vs IH]; intros start; cbn.
  { split; [by intros _ ?%elem_of_nil|done]. }
  rewrite not_elem_of_cons, <- (IH (S start)). case_decide; naive_solver.
Qed.

Definition distinct_keys (vs : list (option Z)) : gset Z := list_to_set (omap id vs).

Lemma elem_of_distinct k vs : k ∈ distinct_keys vs ↔ Some k ∈ vs.
Proof. unfold distinct_keys. rewrite elem_of_list_to_set, list_elem_of_omap. naive_solver. Qed.

Section Fill.
Context (t : IntType) (mn mx : Z) (len : nat).
Context (Hmn : in_type t mn) (Hmx : in_type t mx) (Hle : mn <= mx) (Hlen : Z.of_nat len < 2 ^ 32 - 1).

Abbreviation slot k := (Z.to_nat (k - mn)).

(** The vectors after the rows from [j] on, the values [suf], were put in. *)
Record filled (j : nat) (suf : list (option Z)) (st : filling) : Prop := {
  fl_size : length (f_data st) = Z.to_nat (mx - mn + 1);
  fl_data : ∀ k, mn <= k <= mx →
    f_data st !! slot k = Some (match rows_of k j suf with [] => 0%nat | i :: _ => S i end);
  fl_chain : ∀ k i l, rows_of k j suf = i :: l → if decide (f_next st = []) then l = [] else chain (f_next st) (S i) (i :: l);
  fl_free : f_next st ≠ [] → length (f_next st) = len ∧ ∀ r, (r < j)%nat → f_next st !! r = Some 0%nat;
  fl_distinct : f_distinct st = size (distinct_keys suf);
}.

Lemma filled_init j :
  filled j [] {| f_data := replicate (Z.to_nat (mx - mn + 1)) 0%nat; f_next := []; f_distinct := 0 |}.
Proof.
  split; cbn; try done.
  - by rewrite length_replicate.
  - intros k Hk. apply lookup_replicate_2. lia.
Qed.

Lemma filled_null j suf st : filled (S j) suf st → filled j (None :: suf) st.
Proof.
  intros [H1 H2 H3 H4 H5]. split; cbn [rows_of]; try done.
  intros Hn. destruct (H4 Hn) as [? Hr]. split; [done|]. intros r ?. apply Hr. lia.
Qed.

Lemma entry_fits j : (j < len)%nat → u32_succ (as_u32 j) = Some (S j).
Proof.
  intros Hj. assert (E : as_u32 j = j) by (unfold as_u32; rewrite Z.mod_small by lia; lia). unfold u32_succ. rewrite E.
  destruct (Z.eqb_spec (Z.of_nat j) (2 ^ 32 - 1)); [lia|done].
Qed.

(** The data vector with the entry of row [j]. *)
Lemma data_insert j suf st v k :
  filled (S j) suf st → mn <= v <= mx → mn <= k <= mx →
  <[slot v := S j]> (f_data st) !! slot k =
  Some (match rows_of k j (Some v :: suf) with [] => 0%nat | i :: _ => S i end).
Proof.
  intros [Hsize Hdata _ _ _] Hv Hk. cbn [rows_of]. destruct (decide (Some v = Some k)) as [[= ->]|Hne].
  - apply list_lookup_insert_eq. rewrite Hsize. lia.
  - rewrite list_lookup_insert_ne; [by apply Hdata|]. intros E. apply Hne. f_equal. lia.
Qed.

(** A new key. *)
Lemma filled_first j suf st v :
  filled (S j) suf st → mn <= v <= mx → rows_of v (S j) suf = [] →
  filled j (Some v :: suf) {| f_data := <[slot v := S j]> (f_data st); f_next := f_next st; f_distinct := S (f_distinct st) |}.
Proof.
  intros Hf Hv Hr. pose proof Hf as [Hsize _ Hchain Hfree Hdist]. split; cbn [f_data f_next f_distinct].
  - by rewrite length_insert.
  - intros k Hk. by apply data_insert.
  - intros k i l. cbn [rows_of]. destruct (decide (Some v = Some k)) as [[= <-]|_]; [|apply Hchain].
    rewrite Hr. intros [= <- <-].
    case_decide as En; [done|]. econstructor; [|constructor]. apply Hfree; [done|lia].
  - intros Hn. destruct (Hfree Hn) as [? Hz]. split; [done|]. intros r ?. apply Hz. lia.
  - rewrite Hdist. apply rows_of_nil in Hr. rewrite <- elem_of_distinct in Hr.
    change (distinct_keys (Some v :: suf)) with ({[v]} ∪ distinct_keys suf).
    rewrite size_union, size_singleton by set_solver. done.
Qed.

(** A key seen before: the links, allocated if there are none yet. *)
Lemma filled_again j suf st v i l :
  filled (S j) suf st → mn <= v <= mx → (S j + length suf = len)%nat → rows_of v (S j) suf = i :: l →
  let nxt := if bool_decide (f_next st = []) then replicate len 0%nat else f_next st in
  (j < length nxt)%nat ∧
  filled j (Some v :: suf)
    {| f_data := <[slot v := S j]> (f_data st); f_next := <[j := S i]> nxt; f_distinct := f_distinct st |}.
Proof.
  intros Hf Hv Hj Hr nxt. pose proof Hf as [Hsize _ Hchain Hfree Hdist].
  assert (Hlen' : length nxt = len).
  { unfold nxt. case_bool_decide; [apply length_replicate|]. by apply Hfree. }
  assert (Hzero : ∀ r, (r ≤ j)%nat → nxt !! r = Some 0%nat).
  { intros r ?. unfold nxt. case_bool_decide; [apply lookup_replicate_2; lia|]. apply Hfree; [done|lia]. }
  assert (Hch : ∀ k i l x, rows_of k (S j) suf = i :: l → chain (<[j := x]> nxt) (S i) (i :: l)).
  { intros k i' l' x E. assert (Hj' : j ∉ i' :: l'). { rewrite <- E. intros ?%rows_of_range. lia. }
    assert (chain nxt (S i') (i' :: l')).
    { specialize (Hchain k i' l' E). unfold nxt. case_decide as En; [|by rewrite bool_decide_false].
      rewrite bool_decide_true by done. subst l'. econstructor; [|constructor]. apply lookup_replicate_2.
      assert (i' ∈ rows_of k (S j) suf) as Hi by (rewrite E; left). apply rows_of_range in Hi. lia. }
    by apply JoinHashMap.chain_insert. }
  split; [lia|]. split; cbn [f_data f_next f_distinct].
  - by rewrite length_insert.
  - intros k Hk. by apply data_insert.
  - intros k i' l'. assert (Hne : <[j := S i]> nxt ≠ []).
    { intros E%(f_equal length). rewrite length_insert, Hlen' in E. cbn in E. lia. }
    rewrite decide_False by done. cbn [rows_of].
    destruct (decide (Some v = Some k)) as [[= <-]|_]; [|intros E'; by apply (Hch k)]. rewrite Hr. intros [= <- <-]. econstructor; [apply list_lookup_insert_eq; lia|by apply (Hch v)].
  - intros _. rewrite length_insert. split; [done|]. intros r ?. rewrite list_lookup_insert_ne by lia. apply Hzero. lia.
  - rewrite Hdist. f_equal. change (distinct_keys (Some v :: suf)) with ({[v]} ∪ distinct_keys suf).
    assert (v ∈ distinct_keys suf); [|set_solver]. apply elem_of_distinct. apply dec_stable.
    rewrite <- (rows_of_nil v (S j)). by rewrite Hr.
Qed.

Lemma fill_step_ok j suf st x :
  filled (S j) suf st → (∀ v, x = Some v → mn <= v <= mx) → (S j + length suf = len)%nat →
  ∃ st', fill_step len (as_u64 mn) st (j, x) = Some (Ok st') ∧ filled j (x :: suf) st'.
Proof.
  intros Hf Hx Hj. destruct x as [v|]; [|exists st; split; [done|by apply filled_null]].
  specialize (Hx v eq_refl). cbn [fill_step]. rewrite (slot_inside t mn mx v) by done.
  pose proof Hf as [Hsize Hdata _ _ _].
  destruct (Z.leb_spec (Z.of_nat (length (f_data st))) (v - mn)); [lia|].
  unfold vec_get. rewrite (Hdata v Hx). cbn [mbind option_bind].
  rewrite (entry_fits j) by lia. destruct (rows_of v (S j) suf) as [|i l] eqn:Er.
  - rewrite bool_decide_false by (by intros []). cbn [mbind option_bind fst snd]. rewrite vec_set_in by lia. cbn.
    eexists. split; [done|]. by apply filled_first.
  - rewrite bool_decide_true by done. destruct (filled_again j suf st v i l Hf Hx Hj Er) as [Hjl Hfill].
    rewrite vec_set_in by done. cbn [mbind option_bind fst snd]. rewrite vec_set_in by lia. cbn.
    eexists. split; [done|]. exact Hfill.
Qed.

Lemma fill_loop_app l1 l2 st : fill_loop len (as_u64 mn) (l1 ++ l2) st =
  (st' ←? fill_loop len (as_u64 mn) l1 st; fill_loop len (as_u64 mn) l2 st').
Proof.
  revert st. induction l1 as [|x l1 IH]; intros st; [done|]. cbn [fill_loop app].
  destruct (fill_step _ _ _ _) as [[st1|e]|]; cbn [try_bind]; auto.
Qed.

Lemma fill_loop_ok j suf st0 :
  (∀ j, filled j [] st0) → (j + length suf = len)%nat → (∀ v, Some v ∈ suf → mn <= v <= mx) →
  ∃ st, fill_loop len (as_u64 mn) (reverse (imap (λ i v, ((j + i)%nat, v)) suf)) st0 = Some (Ok st) ∧ filled j suf st.
Proof.
  intros H0. revert j. induction suf as [|x suf IH]; intros j Hj Hv; [by exists st0|]. cbn [length] in Hj.
  rewrite imap_cons, reverse_cons, fill_loop_app, Nat.add_0_r.
  destruct (IH (S j)) as (st & E & Hf); [lia|intros v ?; apply Hv; by right|].
  rewrite (imap_ext _ (λ i v, ((S j + i)%nat, v))); [|intros; cbn; f_equal; lia]. rewrite E. cbn [try_bind fill_loop].
  destruct (fill_step_ok j suf st x Hf) as (st' & -> & Hf'); [intros v ->; apply Hv; left|lia|].
  exists st'. done.
Qed.

End Fill.

(** A map that answers for the keys [keys] of type [t]. *)
Record built (t : IntType) (keys : list (option Z)) (m : ArrayMap) : Prop := {
  am_entry : ∀ v, in_type t v →
    entry_of m (Some v) = Some (match rows_of v 0 keys with [] => 0%nat | i :: _ => S i end);
  am_chain : ∀ v i l, rows_of v 0 keys = i :: l →
    if decide (next m = []) then l = [] else chain (next m) (S i) (i :: l);
  am_links : next m ≠ [] → length (next m) = length keys;
  am_distinct : num_of_distinct_key m = size (distinct_keys keys);
}.

Lemma try_new_ok t mn mx keys :
  in_type t mn → in_type t mx → mn <= mx → mx - mn < usize_max → Z.of_nat (length keys) < 2 ^ 32 - 1 →
  (∀ v, Some v ∈ keys → mn <= v <= mx) →
  ∃ m, try_new (IntegerArray t keys) (as_u64 mn) (as_u64 mx) = Some (Ok m) ∧ built t keys m.
Proof.
  intros Hmn Hmx Hle Hr Hlen Hk. unfold try_new, fill_data. rewrite (slot_inside t mn mx mx) by (done || lia).
  destruct (Z.leb_spec usize_max (mx - mn)); [lia|].
  destruct (fill_loop_ok t mn mx (length keys) Hmn Hmx Hle Hlen 0 keys
    {| f_data := replicate (Z.to_nat (mx - mn + 1)) 0%nat; f_next := []; f_distinct := 0 |})
    as (st & E & [Hsize Hdata Hchain Hfree Hdist]); [by apply filled_init|done|done|].
  cbn [Nat.add] in E. change (imap (λ i v, (i, v)) keys) with (imap pair keys) in E. rewrite E. cbn [try_bind].
  eexists. split; [done|]. split; cbn [next num_of_distinct_key]; [|done|by apply Hfree|done].
  intros v Hv. unfold entry_of. cbn [data offset]. rewrite Hsize. destruct (decide (mn <= v <= mx)) as [Hin|Hout].
  - rewrite (slot_inside t mn mx v) by done. destruct (Z.leb_spec (Z.of_nat (Z.to_nat (mx - mn + 1))) (v - mn)); [lia|].
    by apply Hdata.
  - pose proof (slot_outside t mn mx v Hmn Hmx Hv Hout). rewrite Z2Nat.id by lia.
    destruct (Z.leb_spec (mx - mn + 1) (wrapping_sub (as_u64 v) (as_u64 mn))); [|lia].
    assert (rows_of v 0 keys = []) as ->; [|done]. apply rows_of_nil. intros Hin. by apply Hout, Hk.
Qed.

(** ** Pages *)

Section Lookup.
Context (t : IntType) (keys : list (option Z)) (m : ArrayMap) (Hb : built t keys m).

(** The rows with the key of a probe value. *)
Definition key_rows (val : option Z) : list nat := match val with Some v => rows_of v 0 keys | None => [] end.

Definition probe_typed (val : option Z) : Prop := match val with Some v => in_type t v | None => True end.

Fixpoint key_pairs (row : nat) (vals : list (option Z)) : list (nat * nat) :=
  match vals with
  | [] => []
  | val :: vals => ((λ r, (row, r)) <$> key_rows val) ++ key_pairs (row + 1) vals
  end.

Lemma entry_ok val :
  probe_typed val → entry_of m val = Some (match key_rows val with [] => 0%nat | i :: _ => S i end).
Proof. destruct val as [v|]; [apply (am_entry _ _ _ Hb)|done]. Qed.

Lemma length_rows_of v start vs : (length (rows_of v start vs) ≤ length vs)%nat.
Proof. revert start. induction vs as [|x vs IH]; intros start; cbn; [done|]. specialize (IH (S start)). case_decide; cbn; lia. Qed.

Lemma key_chain val i l :
  key_rows val = i :: l →
  if decide (next m = []) then l = [] else chain (next m) (S i) (i :: l) ∧ (length l < length (next m))%nat.
Proof.
  destruct val as [v|]; [|done]. cbn. intros E. pose proof (am_chain _ _ _ Hb v i l E) as Hc.
  case_decide as En; [done|]. split; [done|]. rewrite (am_links _ _ _ Hb En).
  pose proof (length_rows_of v 0 keys) as Hl. rewrite E in Hl. cbn in Hl. lia.
Qed.

(** What is left to output at an offset of probe values [vals]. *)
Inductive at_offset (vals : list (option Z)) : MapOffset → list (nat * nat) → Prop :=
| at_row idx : (idx ≤ length vals)%nat → at_offset vals (idx, None) (key_pairs idx (drop idx vals))
| at_chain idx nx l :
    next m ≠ [] → (idx < length vals)%nat → chain (next m) nx l → (length l ≤ length (next m))%nat →
    at_offset vals (idx, Some nx) (((λ r, (idx, r)) <$> l) ++ key_pairs (idx + 1) (drop (idx + 1) vals)).

Import JoinHashMap(emits, emits_nil, emits_app, e_inputs, e_matches, e_remaining).

Lemma unique_lookup_ok vals limit row pg :
  next m = [] → Forall probe_typed vals → (row ≤ length vals)%nat → (length (match_indices pg) ≤ limit)%nat →
  ∃ pg' off ps, unique_lookup m limit row (drop row vals) pg = Some (pg', off) ∧
    input_indices pg' = input_indices pg ++ ps.*1 ∧ match_indices pg' = match_indices pg ++ ps.*2 ∧
    (length (match_indices pg) + length ps ≤ limit)%nat ∧
    match off with
    | None => ps = key_pairs row (drop row vals)
    | Some o => ∃ ps1, key_pairs row (drop row vals) = ps ++ ps1 ∧ at_offset vals o ps1 ∧ (row ≤ o.1)%nat ∧
                       (length (match_indices pg) + length ps = limit)%nat
    end.
Proof.
  intros Hn Ht Hrow. remember (length vals - row)%nat as d eqn:Ed. revert row Hrow Ed pg.
  induction d as [|d IH]; intros row Hrow Ed pg Hpg.
  { rewrite (drop_ge vals row) by lia. exists pg, None, []. cbn. rewrite !app_nil_r. split_and!; try done; lia. }
  destruct (lookup_lt_is_Some_2 vals row ltac:(lia)) as [val Hval]. pose proof (at_row vals row Hrow) as Hat.
  rewrite (drop_S vals val row Hval) in Hat |- *. cbn [unique_lookup key_pairs] in Hat |- *.
  replace (row + 1)%nat with (S row) in Hat |- * by lia. case_bool_decide as Hfull.
  { exists pg, (Some (row, None)), []. cbn [fmap list_fmap length]. rewrite !app_nil_r, Nat.add_0_r.
    split_and!; [done..|lia|]. eexists. split_and!; [done|exact Hat|done|done]. }
  rewrite (entry_ok val) by (by eapply Forall_lookup_1). cbn [mbind option_bind].
  destruct (key_rows val) as [|i l] eqn:Er.
  - destruct (IH (S row) ltac:(lia) ltac:(lia) pg Hpg) as (pg' & off & ps & E & Hi & Hm & Hl & Ho).
    exists pg', off, ps. split_and!; try done. destruct off; [|done]. destruct Ho as (ps1 & ? & ? & ? & ?).
    exists ps1. split_and!; try done. lia.
  - pose proof (key_chain val i l Er) as Hc. rewrite decide_True in Hc by done. subst l.
    destruct (IH (S row) ltac:(lia) ltac:(lia) (Build_page (remaining pg) (input_indices pg ++ [row]) (match_indices pg ++ [i])))
      as (pg' & off & ps & E & Hi & Hm & Hl & Ho); [cbn; rewrite length_app; cbn; lia|].
    cbn in Hi, Hm, Hl, Ho. rewrite length_app in Hl, Ho. cbn in Hl, Ho.
    exists pg', off, ((row, i) :: ps). cbn. rewrite Hi, Hm, <- !app_assoc. split_and!; try done; [lia|].
    destruct off; [|by rewrite Ho]. destruct Ho as (ps1 & -> & ? & ? & ?). exists ps1. split_and!; try done; lia.
Qed.

(** The loop with links: the page so far and what it adds. *)
Lemma chain_lookup_ok vals row pg :
  next m ≠ [] → Forall probe_typed vals → (row ≤ length vals)%nat → (0 < remaining pg)%nat ∨ row = length vals →
  ∃ pg' off ps, chain_lookup m (length vals) row (drop row vals) pg = Some (pg', off) ∧ emits pg ps pg' ∧
    match off with
    | None => ps = key_pairs row (drop row vals)
    | Some o => ∃ ps1, key_pairs row (drop row vals) = ps ++ ps1 ∧ at_offset vals o ps1 ∧ (row ≤ o.1)%nat ∧
                       remaining pg' = 0%nat ∧ (0 < remaining pg)%nat
    end.
Proof.
  intros Hn Ht Hrow. remember (length vals - row)%nat as d eqn:Ed. revert row Hrow Ed pg.
  induction d as [|d IH]; intros row Hrow Ed pg Hrem.
  { rewrite (drop_ge vals row) by lia. exists pg, None, []. split_and!; [done|apply emits_nil|done]. }
  destruct Hrem as [Hrem|]; [|lia].
  destruct (lookup_lt_is_Some_2 vals row ltac:(lia)) as [val Hval]. rewrite (drop_S vals val row Hval).
  cbn [chain_lookup key_pairs]. replace (row + 1)%nat with (S row) by lia.
  rewrite bool_decide_false by lia. rewrite (entry_ok val) by (by eapply Forall_lookup_1). cbn [mbind option_bind].
  destruct (key_rows val) as [|i l] eqn:Er.
  { destruct (IH (S row) ltac:(lia) ltac:(lia) pg (or_introl Hrem)) as (pg' & off & ps & E & He & Ho).
    exists pg', off, ps. split_and!; try done. destruct off; [|done]. destruct Ho as (ps1 & ? & ? & ? & ? & ?).
    exists ps1. split_and!; try done. lia. }
  pose proof (key_chain val i l Er) as Hc. rewrite decide_False in Hc by done. destruct Hc as [Hc Hl].
  destruct (JoinHashMap.traverse_chain_ok {| JoinHashMap.map := ∅; JoinHashMap.next := next m |} (S (length (next m)))
    row i l pg (bool_decide (row = (length vals - 1)%nat))) as (pg1 & off & ps & E & He & Ho); [done|lia|done|].
  cbn [JoinHashMap.next] in E, Ho. rewrite E. cbn [mbind option_bind].
  destruct off as [[p' [nx|]]|]; [|done|].
  - destruct Ho as (-> & Hr & l' & El & Hc' & Hl'). exists pg1, (Some (row, Some nx)), ps. split_and!; [done|done|].
    rewrite El, <- app_assoc. eexists. split_and!; [reflexivity| |done|done|done].
    replace (S row) with (row + 1)%nat by lia. constructor; [done|lia|done|lia].
  - destruct Ho as [-> Hr]. destruct (IH (S row) ltac:(lia) ltac:(lia) pg1) as (pg' & off & ps2 & E2 & He2 & Ho2).
    { destruct Hr as [?|Hr%bool_decide_eq_true]; [by left|right; lia]. }
    exists pg', off, (((λ r, (row, r)) <$> i :: l) ++ ps2). split_and!; [done|by eapply emits_app|].
    destruct off as [o|]; [|by rewrite Ho2]. destruct Ho2 as (ps1 & -> & ? & ? & ? & ?).
    exists ps1. rewrite (assoc_L (++)). split_and!; try done. lia.
Qed.

(** The rest of a page, after [ps1] were written. *)
Lemma array_page_rest vals limit off ps0 row pg1 ps1 :
  next m ≠ [] → Forall probe_typed vals → (row ≤ length vals)%nat → (off.1 ≤ row)%nat →
  emits (Build_page limit [] []) ps1 pg1 → (0 < remaining pg1)%nat ∨ row = length vals →
  ps0 = ps1 ++ key_pairs row (drop row vals) →
  JoinHashMap.page_outcome (at_offset vals) limit off ps0 (chain_lookup m (length vals) row (drop row vals) pg1).
Proof.
  intros Hn Ht Hrow Hoff He Hrem Hps.
  destruct (chain_lookup_ok vals row pg1 Hn Ht Hrow Hrem) as (pg & off' & ps & E & He' & Ho).
  pose proof (emits_app _ _ _ _ _ He He') as [Hi Hm Hr]. cbn in Hi, Hm, Hr.
  exists pg, off', (ps1 ++ ps). split_and!; [done|done|done|lia|].
  destruct off' as [o|]; [|by rewrite Hps, Ho]. destruct Ho as (ps' & Hp & Hat & Hle & H0 & Hpos).
  exists ps'. rewrite Hps, Hp, (assoc_L (++)). split_and!; [done|done|lia|].
  right. rewrite length_app. pose proof (e_remaining _ _ _ He'). lia.
Qed.

Lemma array_page_ok vals limit off ps0 :
  Forall probe_typed vals → (0 < limit)%nat → at_offset vals off ps0 →
  JoinHashMap.page_outcome (at_offset vals) limit off ps0 (lookup_and_get_indices m vals limit off).
Proof.
  intros Ht Hlim Hat. unfold lookup_and_get_indices. set (pg0 := Build_page limit [] []).
  destruct (decide (next m = [])) as [Hn|Hn].
  { rewrite bool_decide_true by done. inversion Hat as [idx Hidx|]; subst; [|done]. cbn [fst].
    destruct (unique_lookup_ok vals limit idx pg0 Hn Ht Hidx) as (pg & off' & ps & E & Hi & Hm & Hl & Ho); [cbn; lia|].
    exists pg, off', ps. split_and!; [done|done|done|exact Hl|]. destruct off' as [o|]; [|done].
    destruct Ho as (ps1 & ? & ? & ? & Hfull). exists ps1. cbn in Hfull. split_and!; try done. right. lia. }
  rewrite bool_decide_false by done.
  inversion Hat as [idx Hidx|idx nx l _ Hidx Hc Hl]; subst.
  { cbn [mbind option_bind]. apply (array_page_rest vals limit _ _ idx pg0 []); [done|done|done|cbn; lia|apply emits_nil|by left|done]. }
  inversion Hc as [|i nx' l' Hi Hc']; subst.
  { cbn [mbind option_bind].
    apply (array_page_rest vals limit _ _ (idx + 1)%nat pg0 []); [done|done|lia|cbn; lia|apply emits_nil|by left|done]. }
  rewrite usize_sub_le by lia. cbn [mbind option_bind].
  destruct (JoinHashMap.traverse_chain_ok {| JoinHashMap.map := ∅; JoinHashMap.next := next m |} (S (length (next m)))
    idx i l' pg0 (bool_decide (idx = (length vals - 1)%nat))) as (pg1 & o & ps & E & He & Ho); [done|cbn in Hl |- *; lia|done|].
  cbn [JoinHashMap.next] in E, Ho. rewrite E. cbn [mbind option_bind]. destruct o as [[p' [nx2|]]|]; [|done|].
  - destruct Ho as (-> & Hr & l2 & El & Hc2 & Hl2). destruct He as [Hi1 Hm1 Hr1]. cbn in Hi1, Hm1, Hr1.
    exists pg1, (Some (idx, Some nx2)), ps. split_and!; [done|done|done|lia|].
    rewrite El, <- app_assoc. eexists.
    split_and!; [reflexivity|constructor; [done|done|done|lia]|done|right; lia].
  - destruct Ho as [-> Hr]. cbn [mbind option_bind].
    apply (array_page_rest vals limit _ _ (idx + 1)%nat pg1 ((λ r, (idx, r)) <$> i :: l'));
      [done|done|lia|cbn; lia|done| |done].
    destruct Hr as [?|Hr%bool_decide_eq_true]; [by left|right; lia].
Qed.

Lemma array_pager vals :
  Forall probe_typed vals → JoinHashMap.Pager (length vals) (lookup_and_get_indices m vals) (at_offset vals).
Proof.
  intros Ht. split; [intros limit off ps0; by apply array_page_ok|]. intros off ps Hat. inversion Hat; cbn; lia.
Qed.

Lemma contain_keys_ok vals :
  Forall probe_typed vals →
  contain_hashes_helper m vals = Some ((λ val, bool_decide (val ≠ None ∧ val ∈ keys)) <$> vals).
Proof.
  intros Ht. unfold contain_hashes_helper. apply mapM_Some. induction Ht as [|val vals Hv Ht IH]; [constructor|].
  cbn. constructor; [|done]. rewrite entry_ok by done. cbn. f_equal. apply bool_decide_ext.
  destruct val as [v|]; cbn; [|naive_solver]. pose proof (rows_of_nil v 0 keys) as Hr.
  destruct (rows_of v 0 keys) as [|i l].
  - split; [done|]. intros [_ Hin]. by apply Hr in Hin.
  - split; [|done]. intros _. split; [done|]. apply dec_stable. intros Hnot. by apply Hr in Hnot.
Qed.

End Lookup.

(** ** Properties *)

(** C24. Wrap-around is harmless and the array map is exact: built from keys of an
    integer type between two bounds (signed or unsigned, the range and the number
    of rows allocatable), it counts the distinct keys, contains a probe key of
    the type iff it is a build key (also outside the bounds), and its pages, read
    with any positive limit, end and list exactly the pairs of equal keys, in
    probe order and then build order, nulls matching nothing. *)
Theorem array_map_exact t mn mx keys vals limit fuel :
  in_type t mn → in_type t mx → mn <= mx → mx - mn < usize_max → Z.of_nat (length keys) < 2 ^ 32 - 1 →
  (∀ v, Some v ∈ keys → mn <= v <= mx) → Forall (probe_typed t) vals →
  (0 < limit)%nat → (length vals + length (key_pairs keys 0 vals) < fuel)%nat →
  ∃ m pgs, try_new (IntegerArray t keys) (as_u64 mn) (as_u64 mx) = Some (Ok m) ∧
    num_of_distinct_key m = size (distinct_keys keys) ∧
    contain_keys m [IntegerArray t vals] = Some (Ok ((λ val, bool_decide (val ≠ None ∧ val ∈ keys)) <$> vals)) ∧
    JoinHashMap.pages fuel (lookup_and_get_indices m vals) limit (0%nat, None) = Some pgs ∧
    concat (List.map JoinHashMap.page_pairs pgs) = key_pairs keys 0 vals ∧
    Forall (λ pg, (length (JoinHashMap.page_pairs pg) ≤ limit)%nat) pgs.
Proof.
  intros Hmn Hmx Hle Hr Hlen Hk Ht Hlim Hf. destruct (try_new_ok t mn mx keys) as (m & E & Hb); [done..|].
  pose proof (array_pager t keys m Hb vals Ht) as Hpager.
  destruct (JoinHashMap.pages_ok fuel limit (0%nat, None) (key_pairs keys 0 vals)) as (pgs & Ep & Hc & Hp);
    [done|exact (at_row keys m vals 0 ltac:(lia))|cbn; lia|].
  exists m, pgs. split_and!; [done|apply (am_distinct _ _ _ Hb)| |done|done|done].
  cbn. by rewrite (contain_keys_ok t keys m Hb vals Ht).
Qed.

Lemma array_map_exact_witness :
  ∃ m pgs, try_new (IntegerArray Int8 [Some (-5); None; Some 3; Some (-5)]) (as_u64 (-5)) (as_u64 3) = Some (Ok m) ∧
    num_of_distinct_key m = 2%nat ∧
    contain_keys m [IntegerArray Int8 [Some (-5); Some (-128); None; Some 3]] = Some (Ok [true; false; false; true]) ∧
    JoinHashMap.pages 20 (lookup_and_get_indices m [Some (-5); Some (-128); None; Some 3]) 2 (0%nat, None) = Some pgs ∧
    concat (List.map JoinHashMap.page_pairs pgs) = [(0, 0); (0, 3); (3, 2)]%nat ∧
    Forall (λ pg, (length (JoinHashMap.page_pairs pg) ≤ 2)%nat) pgs.
Proof.
  apply (array_map_exact Int8 (-5) 3 [Some (-5); None; Some 3; Some (-5)] [Some (-5); Some (-128); None; Some 3] 2 20);
    try (vm_compute; lia); try done.
  - intros v Hv. rewrite !elem_of_cons, elem_of_nil in Hv. naive_solver lia.
  - repeat constructor; vm_compute; congruence.
Defined.

End ArrayMap.
