(* ===== verification/JoinMap.v ===== *)
(** * The index of a build side (physical-plan/src/joins/mod.rs and array_map.rs)

    A build side is indexed by the hashes of its keys or, when its single key is
    a dense integer, by an array of offsets.  The columns of batches are read as
    the integer arrays the array map is compiled for. *)

From stdpp Require Import base list strings gmap.
From Stdlib Require Import ZArith Lia.
From S2P Require Import Prelude Relation JoinHashMap ArrayMap.

Module JoinMap.
Import JoinHashMap(JoinHashMap).

(** The index of the build side. *)
Inductive Map := HashMap (map : JoinHashMap) | ArrayMap (array_map : ArrayMap.ArrayMap).

Definition num_of_distinct_key (m : Map) : nat :=
  match m with
  | HashMap map => size (JoinHashMap.map map)
  | ArrayMap array_map => ArrayMap.num_of_distinct_key array_map
  end.

Definition map_is_empty (m : Map) : bool := bool_decide (num_of_distinct_key m = 0).

(** ** Integer keys *)

(** The types the array map is compiled for. *)
Definition int_type (ty : DataType) : option ArrayMap.IntType :=
  match ty with
  | DInt32 => Some ArrayMap.Int32
  | DInt64 => Some ArrayMap.Int64
  | DBoolean | DUtf8 => None
  | DOther name =>
      if decide (name = "Int8") then Some ArrayMap.Int8
      else if decide (name = "Int16") then Some ArrayMap.Int16
      else if decide (name = "UInt8") then Some ArrayMap.UInt8
      else if decide (name = "UInt16") then Some ArrayMap.UInt16
      else if decide (name = "UInt32") then Some ArrayMap.UInt32
      else if decide (name = "UInt64") then Some ArrayMap.UInt64
      else None
  end.

Definition int_of (v : value) : option Z :=
  match v with VInt32 z | VInt64 z | VOther _ z => Some z | VBoolean _ | VUtf8 _ => None end.

(** A cell of an array of type [ty]; a value of another type panics in
    [as_primitive]. *)
Definition int_cell (ty : DataType) (c : option value) : option (option Z) :=
  match c with
  | None => Some None
  | Some v => if decide (value_type v = ty) then z ← int_of v; Some (Some z) else panic!
  end.

Definition key_array (ty : DataType) (col : list (option value)) : option ArrayMap.KeyArray :=
  match int_type ty with
  | Some t => vs ← mapM (int_cell ty) col; Some (ArrayMap.IntegerArray t vs)
  | None => Some (ArrayMap.UnsupportedArray match ty with DOther name => name | DBoolean => "Boolean" | _ => "Utf8" end)
  end.

End JoinMap.
