(* ===== verification/Columnar.v ===== *)
(** * Columnar values (expr-common/src/columnar_value.rs) and Arrow's kernels

    What physical expressions compute with: scalars, arrays, boolean arrays and
    the kernels of the Arrow library.  A kernel is a field of the class [Arrow];
    [ArrowOk] states the documented behaviour the expressions rely on, cell by
    cell, and [plain_arrow] is an implementation by which examples evaluate. *)

From stdpp Require Import base list strings.
From Stdlib Require Import ZArith Lia.
From S2P Require Import Prelude Relation.

(** ** Arrays by type and cells *)

Definition array_type (a : array) : DataType :=
  match a with
  | BooleanArray _ => DBoolean
  | Int32Array _ => DInt32
  | Int64Array _ => DInt64
  | StringArray _ => DUtf8
  | OtherArray ty _ => DOther ty
  end.

Definition has_type (ty : DataType) (c : option value) : Prop :=
  match c with Some v => value_type v = ty | None => True end.

#[global] Instance has_type_dec ty c : Decision (has_type ty c).
Proof. destruct c; cbn; apply _. Defined.

(** The array of a type with the given cells. *)
Definition array_of (ty : DataType) (cs : list (option value)) : array :=
  match ty with
  | DBoolean => BooleanArray (map (λ c, match c with Some (VBoolean b) => Some b | _ => None end) cs)
  | DInt32 => Int32Array (map (λ c, match c with Some (VInt32 z) => Some z | _ => None end) cs)
  | DInt64 => Int64Array (map (λ c, match c with Some (VInt64 z) => Some z | _ => None end) cs)
  | DUtf8 => StringArray (map (λ c, match c with Some (VUtf8 s) => Some s | _ => None end) cs)
  | DOther ty => OtherArray ty (map (λ c, match c with Some (VOther _ z) => Some z | _ => None end) cs)
  end.

Lemma array_type_of ty cs : array_type (array_of ty cs) = ty.
Proof. by destruct ty. Qed.

Lemma array_len_of ty cs : array_len (array_of ty cs) = length cs.
Proof. destruct ty; cbn; apply length_map. Qed.

Lemma cells_array_of ty cs : Forall (has_type ty) cs → cells (array_of ty cs) = cs.
Proof.
  intros Hcs. destruct ty; cbn; rewrite map_map; apply map_id_in || idtac.
  all: induction Hcs as [|c cs Hc Hcs IH]; [done|]; cbn; f_equal; [|exact IH];
    destruct c as [[]|]; cbn in *; congruence.
Qed.

Lemma cells_typed a : Forall (has_type (array_type a)) (cells a).
Proof. destruct a; cbn; apply Forall_fmap, Forall_true; by intros [?|]. Qed.

Lemma array_of_cells a : array_of (array_type a) (cells a) = a.
Proof.
  destruct a; cbn; rewrite map_map; f_equal; rewrite <- (map_id vs) at 2;
    apply map_ext; by intros [?|].
Qed.

(** An array is its type and its cells. *)
Lemma array_ext a a' : array_type a = array_type a' → cells a = cells a' → a = a'.
Proof. intros Ht Hc. by rewrite <- (array_of_cells a), <- (array_of_cells a'), Ht, Hc. Qed.

Lemma array_type_mask m a : array_type (mask_array m a) = array_type a.
Proof. by destruct a. Qed.

(** ** Boolean arrays *)

Abbreviation DNull := (DOther "Null").
Abbreviation bools := (list (option bool)).

Definition value_bool (v : value) : bool := match v with VBoolean b => b | _ => false end.

(** [as_boolean_opt]: the downcast to a boolean array. *)
Definition as_bools (a : array) : option bools := match a with BooleanArray vs => Some vs | _ => None end.

Definition truthy (c : option bool) : bool := match c with Some b => b | None => false end.

(** The rows a boolean array selects; null selects nothing. *)
Definition selection (m : bools) : list bool := map truthy m.

Definition true_count (m : bools) : nat := length (filter (λ c, c = Some true) m).
Definition null_count {A} (m : list (option A)) : nat := length (filter (λ c, c = None) m).

Lemma as_bools_cells a :
  array_type a = DBoolean → as_bools a = Some (map (fmap value_bool) (cells a)).
Proof.
  destruct a; try done. intros _. cbn. rewrite map_map. f_equal. rewrite <- (map_id vs) at 1.
  apply map_ext. by intros [[]|].
Qed.

Lemma array_of_bools m : array_of DBoolean (map (fmap VBoolean) m) = BooleanArray m.
Proof. cbn. rewrite map_map. f_equal. rewrite <- (map_id m) at 2. apply map_ext. by intros [[]|]. Qed.

(** The cells of a boolean column as values. *)
Definition bool_cell (c : option bool) : option value := VBoolean <$> c.
Definition cell_bool (c : option value) : option bool := value_bool <$> c.

(** Three-valued logic. *)
Definition and3 (a b : option bool) : option bool :=
  match a, b with
  | Some false, _ | _, Some false => Some false
  | Some true, Some true => Some true
  | _, _ => None
  end.

Definition or3 (a b : option bool) : option bool :=
  match a, b with
  | Some true, _ | _, Some true => Some true
  | Some false, Some false => Some false
  | _, _ => None
  end.

(** ** Scalars and columnar values *)

(** [ScalarValue]: the type of a scalar and its value, [None] for a typed null. *)
Record ScalarValue := mkScalar { s_type : DataType; s_value : option value }.

#[global] Instance ScalarValue_eq_dec : EqDecision ScalarValue.
Proof. solve_decision. Defined.

Inductive ColumnarValue :=
| Array (a : array)
| Scalar (s : ScalarValue).

Definition ScalarBoolean (b : option bool) : ScalarValue := mkScalar DBoolean (VBoolean <$> b).

Definition is_null (s : ScalarValue) : bool := bool_decide (s_value s = None).

Definition columnar_type (v : ColumnarValue) : DataType :=
  match v with Array a => array_type a | Scalar s => s_type s end.

Definition to_array_of_size (s : ScalarValue) (size : nat) : array :=
  array_of (s_type s) (replicate size (s_value s)).

Definition into_array (v : ColumnarValue) (num_rows : nat) : array :=
  match v with Array a => a | Scalar s => to_array_of_size s num_rows end.

(** [ScalarValue::try_from_array(array, index)]; reading past the end panics. *)
Definition try_from_array (a : array) (index : nat) : option ScalarValue :=
  mkScalar (array_type a) <$> cells a !! index.

Definition iter_to_array (scalars : list ScalarValue) : Result array :=
  match scalars with
  | [] => Err (Execution "Empty iterator passed to ScalarValue::iter_to_array")
  | s :: _ =>
      if forallb (λ t, bool_decide (s_type t = s_type s)) scalars
      then Ok (array_of (s_type s) (map s_value scalars))
      else Err (Execution "Inconsistent types in ScalarValue::iter_to_array")
  end.

(** The cells a columnar value stands for in a batch of [n] rows. *)
Definition spread (n : nat) (v : ColumnarValue) : list (option value) :=
  match v with Array a => cells a | Scalar s => replicate n (s_value s) end.

(** A columnar value of a type that fits a batch of [n] rows. *)
Definition fits (n : nat) (ty : DataType) (v : ColumnarValue) : Prop :=
  columnar_type v = ty ∧
  match v with Array a => array_len a = n | Scalar s => has_type ty (s_value s) end.

Lemma fits_array n a : array_len a = n → fits n (array_type a) (Array a).
Proof. done. Qed.

Lemma length_spread n ty v : fits n ty v → length (spread n v) = n.
Proof. intros [_ H]. destruct v; cbn in *; [by rewrite length_cells|by rewrite length_replicate]. Qed.

Lemma spread_typed n ty v : fits n ty v → Forall (has_type ty) (spread n v).
Proof.
  intros [<- H]. destruct v as [a|s]; cbn in *; [apply cells_typed|]. by apply Forall_replicate.
Qed.

Lemma into_array_type v n : array_type (into_array v n) = columnar_type v.
Proof. destruct v; [done|]. apply array_type_of. Qed.

Lemma cells_into_array n ty v : fits n ty v → cells (into_array v n) = spread n v.
Proof.
  intros H. destruct v as [a|s]; [done|]. apply cells_array_of.
  destruct H as [<- H]. by apply Forall_replicate.
Qed.

Lemma into_array_len n ty v : fits n ty v → array_len (into_array v n) = n.
Proof. intros H. by rewrite <- length_cells, (cells_into_array _ _ _ H), (length_spread _ _ _ H). Qed.

Lemma fits_array_of n ty cs : length cs = n → fits n ty (Array (array_of ty cs)).
Proof. intros <-. split; cbn; [apply array_type_of|apply array_len_of]. Qed.

Lemma fits_bools n m : length m = n → fits n DBoolean (Array (BooleanArray m)).
Proof. by intros <-. Qed.

Lemma iter_to_array_ok ss ty :
  ss ≠ [] → Forall (λ s, s_type s = ty ∧ has_type ty (s_value s)) ss →
  iter_to_array ss = Ok (array_of ty (map s_value ss)) ∧ cells (array_of ty (map s_value ss)) = map s_value ss.
Proof.
  intros Hne HF. split.
  - destruct ss as [|s ss]; [done|]. unfold iter_to_array. apply Forall_cons in HF as [[Hs Hsv] HF].
    assert (forallb (λ t, bool_decide (s_type t = s_type s)) (s :: ss) = true) as ->; [|by rewrite Hs].
    apply forallb_forall. intros t [<-|Ht]; apply bool_decide_eq_true; [done|].
    rewrite Forall_forall in HF. rewrite Hs. by apply HF, list_elem_of_In.
  - apply cells_array_of, Forall_fmap. eapply Forall_impl; [exact HF|]. by intros s [_ ?].
Qed.

(** ** Projection of a batch *)

Definition schema_of (b : RecordBatch) : list DataType := map array_type (columns b).

(** [RecordBatch::project] *)
Definition project_batch (b : RecordBatch) (indices : list nat) : Result RecordBatch :=
  cols ← collect (λ f, ok_or (columns b !! f) (ArrowError "project index out of bounds")) indices;
  Ok {| columns := cols; num_rows := num_rows b |}.

(** [RecordBatch::new_empty] *)
Definition new_empty_batch (schema : list DataType) : RecordBatch :=
  {| columns := map (λ ty, array_of ty []) schema; num_rows := 0 |}.

(** ** Kernels *)

Inductive kernel :=
| K_add | K_add_wrapping | K_sub | K_sub_wrapping | K_mul | K_mul_wrapping | K_div | K_rem
| K_eq | K_neq | K_lt | K_lt_eq | K_gt | K_gt_eq | K_distinct | K_not_distinct
| K_like | K_ilike | K_nlike | K_nilike.

(** The kernels of Arrow that expressions call; the right summand is an [ArrowError].
    [arrow_filter] is [FilterPredicate::filter] with the predicate of a boolean
    array, [arrow_slices] is [SlicesIterator], [arrow_cast] the cast that yields
    null where a value has no counterpart, [arrow_compare] is [make_comparator],
    which compares cell [i] of one array with cell [j] of the other. *)
Class Arrow := {
  arrow_kernel : kernel → ColumnarValue → ColumnarValue → array + string;
  arrow_and_kleene : bools → bools → bools + string;
  arrow_or_kleene : bools → bools → bools + string;
  arrow_not : bools → bools + string;
  arrow_is_null : array → bools + string;
  arrow_is_not_null : array → bools + string;
  prep_null_mask_filter : bools → bools;
  arrow_filter : array → bools → array + string;
  arrow_slices : bools → list (nat * nat);
  arrow_merge_n : list array → list (option nat) → array + string;
  arrow_merge : bools → ColumnarValue → ColumnarValue → array + string;
  arrow_zip : bools → ScalarValue → ScalarValue → array + string;
  arrow_nullif : array → bools → array + string;
  arrow_take : array → list nat → array + string;
  can_cast_types : DataType → DataType → bool;
  arrow_cast : array → DataType → array + string;
  arrow_compare : array → array → (nat → nat → comparison) + string;
}.

(** What kernels and casts do to single cells: the type of the result, and the
    cell of the result or [None] for an error (overflow, division by zero). *)
Class ArrowCells := {
  kernel_type : kernel → DataType → DataType → option DataType;
  kernel_cell : kernel → option value → option value → option (option value);
  cast_cell : DataType → DataType → option value → option value;
}.

(** Taking the values of several arrays in order, each row from the array its
    index names; a row without an index is null. *)
Fixpoint merge_cells (qs : list (list (option value))) (ix : list (option nat))
    : option (list (option value)) :=
  match ix with
  | [] => Some []
  | None :: ix => cons None <$> merge_cells qs ix
  | Some k :: ix =>
      match qs !! k with
      | Some (c :: q) => cons c <$> merge_cells (<[k := q]> qs) ix
      | _ => None
      end
  end.

Definition is_scalar (v : ColumnarValue) : bool := match v with Scalar _ => true | Array _ => false end.

(** Cells of equal values compare as equal; null compares as null. *)
Definition eq_cell (a b : option value) : option bool :=
  match a, b with Some x, Some y => Some (bool_decide (x = y)) | _, _ => None end.

(** [DataType::is_nested] *)
Definition is_nested (ty : DataType) : bool :=
  match ty with
  | DOther name =>
      bool_decide (name ∈ ["List"; "FixedSizeList"; "LargeList"; "ListView"; "LargeListView";
                           "Struct"; "Union"; "Map"; "RunEndEncoded"])
  | _ => false
  end.

(** Indices of the set bits of a mask. *)
Fixpoint set_indices (from : nat) (m : list bool) : list nat :=
  match m with
  | [] => []
  | b :: m => if b then from :: set_indices (S from) m else set_indices (S from) m
  end.

Definition zip_cells (f : option value → option value → option (option value))
    (l r : list (option value)) : option (list (option value)) :=
  mapM (λ p, f p.1 p.2) (zip l r).

(** The documented behaviour of the kernels. *)
Class ArrowOk `{Arrow, ArrowCells} : Prop := {
  arrow_kernel_ok : ∀ k l r n ty cs,
    fits n (columnar_type l) l → fits n (columnar_type r) r →
    (is_scalar l = true → is_scalar r = true → n = 1) →
    kernel_type k (columnar_type l) (columnar_type r) = Some ty →
    zip_cells (kernel_cell k) (spread n l) (spread n r) = Some cs →
    arrow_kernel k l r = inl (array_of ty cs);
  kernel_cell_typed : ∀ k tl tr ty a b c,
    kernel_type k tl tr = Some ty → has_type tl a → has_type tr b →
    kernel_cell k a b = Some c → has_type ty c;
  kernel_eq_type : ∀ ty, is_nested ty = false → kernel_type K_eq ty ty = Some DBoolean;
  kernel_eq_cell : ∀ a b, kernel_cell K_eq a b = Some (VBoolean <$> eq_cell a b);
  arrow_and_kleene_ok : ∀ l r, length l = length r → arrow_and_kleene l r = inl (zip_with and3 l r);
  arrow_or_kleene_ok : ∀ l r, length l = length r → arrow_or_kleene l r = inl (zip_with or3 l r);
  arrow_not_ok : ∀ m, arrow_not m = inl (map (fmap negb) m);
  arrow_is_null_ok : ∀ a, arrow_is_null a = inl (map (λ c, Some (bool_decide (c = None))) (cells a));
  arrow_is_not_null_ok : ∀ a,
    arrow_is_not_null a = inl (map (λ c, Some (bool_decide (c ≠ None))) (cells a));
  prep_null_mask_filter_ok : ∀ m, prep_null_mask_filter m = map (λ c, Some (truthy c)) m;
  arrow_filter_ok : ∀ a m, length m = array_len a → arrow_filter a m = inl (mask_array (selection m) a);
  arrow_slices_ok : ∀ m,
    concat (map (λ p : nat * nat, seq p.1 (p.2 - p.1)) (arrow_slices m)) = set_indices 0 (selection m)
    ∧ Forall (λ p : nat * nat, p.1 < p.2) (arrow_slices m);
  arrow_merge_n_ok : ∀ arrays ix ty cs,
    arrays ≠ [] → Forall (λ a, array_type a = ty) arrays → merge_cells (map cells arrays) ix = Some cs →
    arrow_merge_n arrays ix = inl (array_of ty cs);
  arrow_merge_ok : ∀ m t f ty cs,
    fits (true_count m) ty t → fits (length m - true_count m) ty f →
    merge_cells [spread (true_count m) t; spread (length m - true_count m) f]
      (map (λ c, Some (if truthy c then 0 else 1)) m) = Some cs →
    arrow_merge m t f = inl (array_of ty cs);
  arrow_zip_ok : ∀ m s t,
    s_type s = s_type t →
    arrow_zip m s t = inl (array_of (s_type s) (map (λ c, if truthy c then s_value s else s_value t) m));
  arrow_nullif_ok : ∀ a m,
    length m = array_len a →
    arrow_nullif a m =
      inl (array_of (array_type a) (zip_with (λ (v : option value) c, if truthy c then None else v) (cells a) m));
  arrow_take_ok : ∀ a ix cs,
    mapM (λ i, cells a !! i) ix = Some cs → arrow_take a ix = inl (array_of (array_type a) cs);
  arrow_cast_ok : ∀ a ty,
    can_cast_types (array_type a) ty = true →
    arrow_cast a ty = inl (array_of ty (map (cast_cell (array_type a) ty) (cells a)));
  cast_cell_typed : ∀ ty ty' c, can_cast_types ty ty' = true → has_type ty c → has_type ty' (cast_cell ty ty' c);
  arrow_compare_ok : ∀ a b,
    array_type a = array_type b →
    ∃ cmp, arrow_compare a b = inl cmp ∧
      ∀ i j x y, cells a !! i = Some (Some x) → cells b !! j = Some (Some y) →
        cmp i j = Eq ↔ x = y;
}.

(** ** An implementation of the kernels *)

(** The integers of a type: their range, for the checked and wrapping operations. *)
Definition int_range (ty : DataType) : option (Z * Z) :=
  match ty with
  | DInt32 => Some (- 2 ^ 31, 2 ^ 32)%Z
  | DInt64 => Some (- 2 ^ 63, 2 ^ 64)%Z
  | DOther "UInt64" => Some (0, 2 ^ 64)%Z
  | _ => None
  end.

Definition int_value (v : value) : Z :=
  match v with VInt32 z | VInt64 z | VOther _ z => z | VBoolean _ | VUtf8 _ => 0 end.

Definition value_int (ty : DataType) (z : Z) : value :=
  match ty with DBoolean => VBoolean (negb (z =? 0)%Z) | DInt32 => VInt32 z | DInt64 => VInt64 z | DUtf8 => VUtf8 EmptyString | DOther n => VOther n z end.

Definition checked (ty : DataType) (z : Z) : option (option value) :=
  '(lo, width) ← int_range ty;
  if decide (lo ≤ z < lo + width)%Z then Some (Some (value_int ty z)) else None.

Definition wrapping (ty : DataType) (z : Z) : option (option value) :=
  '(lo, width) ← int_range ty; Some (Some (value_int ty (lo + (z - lo) mod width)%Z)).

Definition value_compare (a b : value) : comparison :=
  match a, b with
  | VUtf8 s, VUtf8 t => String.compare s t
  | _, _ => Z.compare (int_value a) (int_value b)
  end.

Definition compares (k : kernel) (a b : value) : option bool :=
  match k with
  | K_eq => Some (bool_decide (a = b))
  | K_neq => Some (bool_decide (a ≠ b))
  | K_lt => Some (bool_decide (value_compare a b = Lt))
  | K_lt_eq => Some (bool_decide (value_compare a b ≠ Gt))
  | K_gt => Some (bool_decide (value_compare a b = Gt))
  | K_gt_eq => Some (bool_decide (value_compare a b ≠ Lt))
  | _ => None
  end.

Definition arithmetic (k : kernel) (ty : DataType) (a b : Z) : option (option value) :=
  match k with
  | K_add => checked ty (a + b)
  | K_add_wrapping => wrapping ty (a + b)
  | K_sub => checked ty (a - b)
  | K_sub_wrapping => wrapping ty (a - b)
  | K_mul => checked ty (a * b)
  | K_mul_wrapping => wrapping ty (a * b)
  | K_div => if decide (b = 0%Z) then None else checked ty (Z.quot a b)
  | K_rem => if decide (b = 0%Z) then None else checked ty (Z.rem a b)
  | _ => None
  end.

Definition is_compare (k : kernel) : bool :=
  match k with K_eq | K_neq | K_lt | K_lt_eq | K_gt | K_gt_eq | K_distinct | K_not_distinct => true | _ => false end.

Definition plain_kernel_type (k : kernel) (l r : DataType) : option DataType :=
  if decide (l = r) then
    if is_compare k then if is_nested l then None else Some DBoolean
    else match k with K_like | K_ilike | K_nlike | K_nilike => None | _ => _ ← int_range l; Some l end
  else None.

Definition plain_kernel_cell (k : kernel) (a b : option value) : option (option value) :=
  match k with
  | K_distinct => Some (Some (VBoolean (bool_decide (a ≠ b))))
  | K_not_distinct => Some (Some (VBoolean (bool_decide (a = b))))
  | _ =>
      match a, b with
      | Some x, Some y =>
          if is_compare k then Some (VBoolean <$> compares k x y)
          else arithmetic k (value_type x) (int_value x) (int_value y)
      | _, _ => Some None
      end
  end.

Definition plain_kernel (k : kernel) (l r : ColumnarValue) : array + string :=
  let n := match l, r with
           | Array a, _ => array_len a
           | Scalar _, Array b => array_len b
           | Scalar _, Scalar _ => 1
           end in
  match plain_kernel_type k (columnar_type l) (columnar_type r),
        zip_cells (plain_kernel_cell k) (spread n l) (spread n r) with
  | Some ty, Some cs => inl (array_of ty cs)
  | _, _ => inr "kernel failed"
  end.

Definition plain_cast_cell (ty ty' : DataType) (c : option value) : option value :=
  c ← c;
  match checked ty' (int_value c) with Some c' => c' | None => None end.

#[global] Instance plain_cells : ArrowCells := {
  kernel_type := plain_kernel_type;
  kernel_cell := plain_kernel_cell;
  cast_cell := plain_cast_cell;
}.

#[global] Instance plain_arrow : Arrow := {
  arrow_kernel := plain_kernel;
  arrow_and_kleene l r := inl (zip_with and3 l r);
  arrow_or_kleene l r := inl (zip_with or3 l r);
  arrow_not m := inl (map (fmap negb) m);
  arrow_is_null a := inl (map (λ c, Some (bool_decide (c = None))) (cells a));
  arrow_is_not_null a := inl (map (λ c, Some (bool_decide (c ≠ None))) (cells a));
  prep_null_mask_filter := map (λ c, Some (truthy c));
  arrow_filter a m := inl (mask_array (selection m) a);
  arrow_slices m := map (λ i, (i, S i)) (set_indices 0 (selection m));
  arrow_merge_n arrays ix :=
    match arrays, merge_cells (map cells arrays) ix with
    | a :: _, Some cs => inl (array_of (array_type a) cs)
    | _, _ => inr "merge_n failed"
    end;
  arrow_merge m t f :=
    match merge_cells [spread (true_count m) t; spread (length m - true_count m) f]
            (map (λ c, Some (if truthy c then 0 else 1)) m) with
    | Some cs => inl (array_of (columnar_type t) cs)
    | None => inr "merge failed"
    end;
  arrow_zip m s t := inl (array_of (s_type s) (map (λ c, if truthy c then s_value s else s_value t) m));
  arrow_nullif a m :=
    inl (array_of (array_type a) (zip_with (λ (v : option value) c, if truthy c then None else v) (cells a) m));
  arrow_take a ix :=
    match mapM (λ i, cells a !! i) ix with
    | Some cs => inl (array_of (array_type a) cs)
    | None => inr "take index out of bounds"
    end;
  can_cast_types ty ty' := bool_decide (is_Some (int_range ty) ∧ is_Some (int_range ty'));
  arrow_cast a ty := inl (array_of ty (map (plain_cast_cell (array_type a) ty) (cells a)));
  arrow_compare a b := inl (λ i j, if decide (cells a !! i = cells b !! j) then Eq else Lt);
}.

Lemma value_int_type ty z : is_Some (int_range ty) → value_type (value_int ty z) = ty.
Proof. intros [? H]. by destruct ty. Qed.

Lemma checked_typed ty z c : checked ty z = Some c → has_type ty c.
Proof.
  unfold checked. destruct (int_range ty) as [[lo w]|] eqn:E; [|done]. cbn. case_decide; [|done].
  intros [= <-]. by apply value_int_type.
Qed.

Lemma wrapping_typed ty z c : wrapping ty z = Some c → has_type ty c.
Proof.
  unfold wrapping. destruct (int_range ty) as [[lo w]|] eqn:E; [|done]. intros [= <-]. by apply value_int_type.
Qed.

Lemma arithmetic_typed k ty a b c : arithmetic k ty a b = Some c → has_type ty c.
Proof.
  destruct k; cbn; repeat case_decide; intros E; try done;
    by (apply checked_typed in E || apply wrapping_typed in E).
Qed.

Lemma plain_kernel_cell_typed k tl tr ty a b c :
  plain_kernel_type k tl tr = Some ty → has_type tl a → has_type tr b →
  plain_kernel_cell k a b = Some c → has_type ty c.
Proof.
  unfold plain_kernel_type. intros Ht Ha Hb Hc. case_decide as E; [|done]. subst tr.
  destruct (is_compare k) eqn:Ek.
  - assert (ty = DBoolean) as -> by (by destruct (is_nested tl); simplify_eq).
    destruct k; try done; cbn in Hc; try (by injection Hc as <-);
      destruct a, b; cbn in Hc; by injection Hc as <-.
  - assert (ty = tl) as -> by (destruct k; cbn in Ht; try done; destruct (int_range tl); cbn in Ht; congruence).
    unfold plain_kernel_cell in Hc. rewrite Ek in Hc. destruct a as [x|], b as [y|].
    1: destruct k; try done; cbn in Ha; rewrite Ha in Hc; by apply arithmetic_typed in Hc.
    all: destruct k; try done; by injection Hc as <-.
Qed.

Lemma map_set_indices from m :
  concat (map (λ p : nat * nat, seq p.1 (p.2 - p.1)) (map (λ i, (i, S i)) (set_indices from m)))
  = set_indices from m.
Proof.
  revert from. induction m as [|b m IH]; intros from; [done|]. cbn. destruct b; [|apply IH].
  cbn [map concat]. rewrite IH. cbn [fst snd]. by replace (S from - from) with 1 by lia.
Qed.

#[global] Instance plain_arrow_ok : ArrowOk.
Proof.
  split; cbn; try done.
  - intros k l r n ty cs Hl Hr Hn Ht Hc. unfold plain_kernel.
    replace (match l, r with Array a, _ => array_len a | Scalar _, Array b => array_len b
             | Scalar _, Scalar _ => 1 end) with n; [by rewrite Ht, Hc|].
    destruct l, r, Hl as [_ Hl], Hr as [_ Hr]; cbn in *; auto.
  - apply plain_kernel_cell_typed.
  - intros ty Hty. unfold plain_kernel_type. rewrite decide_True by done. cbn. by rewrite Hty.
  - by intros [x|] [y|].
  - intros m. split; [apply map_set_indices|]. apply Forall_fmap, Forall_true. cbn. lia.
  - intros [|a arrays] ix ty cs ? Hty Hm; [done|]. apply Forall_cons in Hty as [<- _]. cbn in Hm |- *. by rewrite Hm.
  - intros m t f ty cs [<- _] _ ->. done.
  - intros a ix cs ->. done.
  - intros ty ty' [v|] Hc _; cbn; [|done].
    destruct (checked ty' (int_value v)) eqn:E; [by apply checked_typed in E|done].
  - intros a b _. eexists. split; [done|]. intros i j x y Hi Hj. cbn. rewrite Hi, Hj. case_decide; naive_solver.
Qed.

Lemma mapM_map {A B C} (f : B → option C) (g : A → B) l : mapM f (map g l) = mapM (λ x, f (g x)) l.
Proof. induction l as [|x l IH]; [done|]. cbn. by rewrite IH. Qed.

(** ** Expressions *)

(** Results of kernels in the code's error type. *)
Definition arrow_result {A} (r : A + string) : Result A :=
  match r with inl a => Ok a | inr msg => Err (ArrowError msg) end.

(** [Arc<dyn PhysicalExpr>] as its callers use it. *)
Record dyn := {
  evaluate : RecordBatch → option (Result ColumnarValue);
  data_type : list DataType → Result DataType;
}.

(** An expression computes [f] over batches of a schema: on a batch whose every
    row has a value under [f], evaluation returns these values and neither fails
    nor panics.  The batch has a row, and its row numbers are [u32]. *)
Definition computes (schema : list DataType) (d : dyn) (ty : DataType) (f : row → option (option value)) : Prop :=
  data_type d schema = Ok ty ∧
  ∀ b vs, batch_wf b → schema_of b = schema → 0 < num_rows b → (Z.of_nat (num_rows b) < 2 ^ 32)%Z →
    mapM f (rows b) = Some vs →
    ∃ v, evaluate d b = Some (Ok v) ∧ fits (num_rows b) ty v ∧ spread (num_rows b) v = vs.

Lemma schema_of_mask m b : schema_of (mask_batch m b) = schema_of b.
Proof. unfold schema_of. cbn. rewrite map_map. apply map_ext, array_type_mask. Qed.

Lemma selection_length m : length (selection m) = length m.
Proof. apply length_map. Qed.

Lemma mask_selection_length {A} m (l : list A) :
  length m = length l → length (mask_list (selection m) l) = true_count m.
Proof.
  unfold true_count. revert l. induction m as [|c m IH]; intros [|x l] Hl; try done.
  specialize (IH l ltac:(cbn in Hl; lia)). cbn [selection map mask_list]. rewrite filter_cons.
  fold (selection m). case_decide; destruct c as [[]|]; cbn; congruence.
Qed.

(** A row on its own. *)
Definition only_row (i : nat) (b : RecordBatch) : RecordBatch :=
  mask_batch (map (λ j, bool_decide (j = i)) (seq 0 (num_rows b))) b.

Lemma rows_only i b : batch_wf b → i < num_rows b → rows (only_row i b) = [row_at b i].
Proof.
  intros Hwf Hi. unfold only_row. rewrite rows_mask by done. unfold rows, tab.
  rewrite mask_list_map, mask_list_filter.
  assert (filter (λ j, bool_decide (j = i) = true) (seq 0 (num_rows b)) = [i]) as ->; [|done].
  replace (num_rows b) with (i + (1 + (num_rows b - S i))) by lia. rewrite !seq_app, !filter_app. cbn [seq].
  rewrite filter_cons, decide_True by (apply bool_decide_eq_true; lia). rewrite filter_nil.
  assert (∀ l, (∀ j, j ∈ l → j ≠ i) → filter (λ j, bool_decide (j = i) = true) l = []) as Hnil.
  { intros l Hl. induction l as [|j l IH]; [done|]. rewrite filter_cons, decide_False.
    - apply IH. intros k Hk. apply Hl. by right.
    - rewrite bool_decide_eq_true. apply Hl. by left. }
  rewrite !Hnil; [done|..]; intros j Hj%elem_of_seq; lia.
Qed.

(** The values of an expression on the rows of a batch have its type. *)
Lemma computes_typed schema d ty f b i c :
  computes schema d ty f → batch_wf b → schema_of b = schema → i < num_rows b →
  f (row_at b i) = Some c → has_type ty c.
Proof.
  intros [_ Hc] Hwf Hs Hi Hf. pose proof (rows_only i b Hwf Hi) as Hr.
  assert (num_rows (only_row i b) = 1) as Hn by (by rewrite <- length_rows, Hr).
  destruct (Hc (only_row i b) [c]) as (v & _ & Hv & Hsp).
  - by apply mask_batch_wf.
  - unfold only_row. by rewrite schema_of_mask.
  - lia.
  - rewrite Hn. lia.
  - rewrite Hr. cbn. by rewrite Hf.
  - apply spread_typed in Hv. rewrite Hsp in Hv. by inversion Hv.
Qed.
