(* ===== verification/Datum.v ===== *)
(** * Operators on columnar values (physical-expr-common/src/datum.rs)

    [apply] runs a kernel on arrays and scalars, [apply_cmp] chooses the kernel of
    a comparison, and nested types are compared cell by cell.  Proved: with a
    kernel that works cell by cell, the result is that of the cells, whatever
    mixture of arrays and scalars the operands are. *)

From stdpp Require Import base list strings.
From Stdlib Require Import ZArith Lia.
From S2P Require Import Prelude Relation Columnar.

Module Datum.

(** [Operator] of expr-common/src/operator.rs. *)
Inductive Operator :=
| Eq | NotEq | Lt | LtEq | Gt | GtEq | Plus | Minus | Multiply | Divide | Modulo | And | Or
| IsDistinctFrom | IsNotDistinctFrom
| RegexMatch | RegexIMatch | RegexNotMatch | RegexNotIMatch
| LikeMatch | ILikeMatch | NotLikeMatch | NotILikeMatch
| BitwiseAnd | BitwiseOr | BitwiseXor | BitwiseShiftRight | BitwiseShiftLeft
| StringConcat | AtArrow | ArrowAt | Arrow_ | LongArrow | HashArrow | HashLongArrow | AtAt
| IntegerDivide | HashMinus | AtQuestion | Question | QuestionAnd | QuestionPipe | Colon.

#[global] Instance Operator_eq_dec : EqDecision Operator.
Proof. solve_decision. Defined.

Section Datum.
Context `{Arrow}.

Definition apply (lhs rhs : ColumnarValue) (f : ColumnarValue → ColumnarValue → option (Result array))
    : option (Result ColumnarValue) :=
  a ←? f lhs rhs;
  match lhs, rhs with
  | Scalar _, Scalar _ => scalar ← try_from_array a 0; Some (Ok (Scalar scalar))
  | _, _ => Some (Ok (Array a))
  end.

(** [Datum::get]: the array of an operand; that of a scalar has one row. *)
Definition get (d : ColumnarValue) : array * bool := (into_array d 1, is_scalar d).

Definition cmp_with_op (op : Operator) (c : comparison) : option bool :=
  match op with
  | Eq | IsNotDistinctFrom => Some (bool_decide (c = Datatypes.Eq))
  | Lt => Some (bool_decide (c = Datatypes.Lt))
  | Gt => Some (bool_decide (c = Datatypes.Gt))
  | LtEq => Some (bool_decide (c ≠ Datatypes.Gt))
  | GtEq => Some (bool_decide (c ≠ Datatypes.Lt))
  | NotEq | IsDistinctFrom => Some (bool_decide (c ≠ Datatypes.Eq))
  | _ => panic!
  end.

Definition is_distinct_op (op : Operator) : bool :=
  match op with IsDistinctFrom | IsNotDistinctFrom => true | _ => false end.

(** [BooleanArray::new(values, nulls)]: the null buffer says where a value is. *)
Definition with_nulls (values : list bool) (valid : list bool) : bools :=
  zip_with (λ (v ok : bool), if ok then Some v else None) values valid.

Definition validity (a : array) : list bool := map (λ c : option value, bool_decide (c ≠ None)) (cells a).

Definition compare_op_for_nested (op : Operator) (lhs rhs : ColumnarValue) : option (Result bools) :=
  let '(l, is_l_scalar) := get lhs in
  let '(r, is_r_scalar) := get rhs in
  let l_len := array_len l in
  let r_len := array_len r in
  if negb (bool_decide (l_len = r_len) || is_l_scalar || is_r_scalar) then Some (Err (Internal "len mismatch"))
  else
    let len := if is_l_scalar then r_len else l_len in
    if negb (is_distinct_op op)
       && (is_l_scalar && bool_decide (null_count (cells l) = 1) || is_r_scalar && bool_decide (null_count (cells r) = 1))
    then Some (Ok (replicate len None))
    else
      cmp ←? Some (arrow_result (arrow_compare l r));
      values ← match is_l_scalar, is_r_scalar with
               | false, false => mapM (λ i, cmp_with_op op (cmp i i)) (seq 0 len)
               | true, false => mapM (λ i, cmp_with_op op (cmp 0 i)) (seq 0 len)
               | false, true => mapM (λ i, cmp_with_op op (cmp i 0)) (seq 0 len)
               | true, true => mapM (λ _ : nat, cmp_with_op op (cmp 0 0)) [0]
               end;
      if is_distinct_op op then Some (Ok (map Some values))
      else
        let nulls := match is_l_scalar, is_r_scalar with
                     | false, false | true, true => zip_with andb (validity l) (validity r)
                     | true, false =>
                         if bool_decide (cells l !! 0 = Some None) then replicate len false else validity r
                     | false, true =>
                         if bool_decide (cells r !! 0 = Some None) then replicate len false else validity l
                     end in
        Some (Ok (with_nulls values nulls)).

Definition compare_with_eq (lhs rhs : ColumnarValue) (nested : bool) : option (Result bools) :=
  if nested then compare_op_for_nested Eq lhs rhs
  else
    a ←? Some (arrow_result (arrow_kernel K_eq lhs rhs));
    m ← as_bools a; Some (Ok m).

Definition cmp_kernel (op : Operator) : option kernel :=
  match op with
  | Eq => Some K_eq
  | NotEq => Some K_neq
  | Lt => Some K_lt
  | LtEq => Some K_lt_eq
  | Gt => Some K_gt
  | GtEq => Some K_gt_eq
  | IsDistinctFrom => Some K_distinct
  | IsNotDistinctFrom => Some K_not_distinct
  | LikeMatch => Some K_like
  | ILikeMatch => Some K_ilike
  | NotLikeMatch => Some K_nlike
  | NotILikeMatch => Some K_nilike
  | _ => None
  end.

Definition apply_cmp_for_nested (op : Operator) (lhs rhs : ColumnarValue) : option (Result ColumnarValue) :=
  if bool_decide (op ∈ [Eq; NotEq; Lt; Gt; LtEq; GtEq; IsDistinctFrom; IsNotDistinctFrom])
     && bool_decide (columnar_type lhs = columnar_type rhs)
  then apply lhs rhs (λ l r, m ←? compare_op_for_nested op l r; Some (Ok (BooleanArray m)))
  else Some (Err (Internal "invalid operator or data type mismatch for nested data")).

(** A kernel as an argument of [apply]. *)
Definition run_kernel (k : kernel) (l r : ColumnarValue) : option (Result array) :=
  Some (arrow_result (arrow_kernel k l r)).

Definition apply_cmp (op : Operator) (lhs rhs : ColumnarValue) : option (Result ColumnarValue) :=
  if is_nested (columnar_type lhs) then apply_cmp_for_nested op lhs rhs
  else match cmp_kernel op with
       | Some k => apply lhs rhs (run_kernel k)
       | None => Some (Err (Internal "Invalid compare operator"))
       end.

(** ** Cell by cell *)

Context `{!ArrowCells, !ArrowOk}.

Lemma zip_cells_length f l r cs :
  zip_cells f l r = Some cs → length l = length r → length cs = length l.
Proof. intros Hz Hl. apply length_mapM in Hz. rewrite <- Hz, length_zip. lia. Qed.

Lemma zip_cells_replicate f n a b cs :
  0 < n → zip_cells f (replicate n a) (replicate n b) = Some cs →
  ∃ c, f a b = Some c ∧ cs = replicate n c.
Proof.
  intros Hn Hz. destruct n as [|n]; [lia|]. clear Hn. unfold zip_cells in Hz. cbn in Hz.
  apply bind_Some in Hz as (c & Hc & Hz). exists c. split; [done|].
  apply bind_Some in Hz as (cs' & Hz & [= <-]). cbn. f_equal.
  revert cs' Hz. induction n as [|n IH]; intros cs'; cbn; [by intros [= <-]|].
  rewrite Hc. cbn. intros (cs & Hz & [= <-])%bind_Some. cbn. f_equal. by apply IH.
Qed.

Lemma zip_cells_typed k tl tr ty l r cs :
  kernel_type k tl tr = Some ty → Forall (has_type tl) l → Forall (has_type tr) r →
  zip_cells (kernel_cell k) l r = Some cs → Forall (has_type ty) cs.
Proof.
  intros Hk Hl. revert r cs. induction Hl as [|a l Ha Hl IH]; intros r cs Hr; cbn.
  { by intros [= <-]. }
  destruct Hr as [|b r Hb Hr]; cbn; [by intros [= <-]|].
  intros (c & Hc & (cs' & Hcs & [= <-])%bind_Some)%bind_Some. constructor.
  - by eapply kernel_cell_typed.
  - by eapply IH.
Qed.

Lemma apply_ok k n tl tr ty l r cs :
  fits n tl l → fits n tr r → 0 < n → kernel_type k tl tr = Some ty →
  zip_cells (kernel_cell k) (spread n l) (spread n r) = Some cs →
  ∃ v, apply l r (run_kernel k) = Some (Ok v) ∧ fits n ty v ∧ spread n v = cs.
Proof.
  intros Hl Hr Hn Hk Hz.
  pose proof (zip_cells_typed _ _ _ _ _ _ _ Hk (spread_typed _ _ _ Hl) (spread_typed _ _ _ Hr) Hz) as Hcs.
  pose proof (zip_cells_length _ _ _ _ Hz ltac:(by rewrite (length_spread _ _ _ Hl), (length_spread _ _ _ Hr)))
    as Hlen. rewrite (length_spread _ _ _ Hl) in Hlen. unfold apply, run_kernel.
  destruct (is_scalar l && is_scalar r) eqn:Hs.
  - destruct l as [|s], r as [|t]; try done. cbn [spread] in Hz.
    apply zip_cells_replicate in Hz as (c & Hc & ->); [|done].
    destruct Hl as [Hsl Hl], Hr as [Hsr Hr]. cbn in Hsl, Hsr, Hl, Hr. subst tl tr.
    erewrite arrow_kernel_ok with (n := 1) (cs := [c]); [|done..|cbn; by rewrite Hc]. cbn.
    assert (has_type ty c) as Hty by (destruct n; [lia|]; by inversion Hcs).
    unfold try_from_array. rewrite array_type_of, cells_array_of by (by constructor). cbn.
    eexists. split; [done|]. done.
  - erewrite arrow_kernel_ok with (n := n) (cs := cs); cbn [arrow_result try_bind].
    + exists (Array (array_of ty cs)). split; [by destruct l, r|].
      split; [by apply fits_array_of|]. by apply cells_array_of.
    + by rewrite (proj1 Hl).
    + by rewrite (proj1 Hr).
    + intros El Er. by rewrite El, Er in Hs.
    + by rewrite (proj1 Hl), (proj1 Hr).
    + done.
Qed.

Lemma with_nulls_eq_cell (f : nat → bool) l r n :
  length l = n → length r = n →
  (∀ i x y, l !! i = Some (Some x) → r !! i = Some (Some y) → f i = bool_decide (x = y)) →
  with_nulls (map f (seq 0 n))
    (zip_with andb (map (λ c : option value, bool_decide (c ≠ None)) l)
                   (map (λ c : option value, bool_decide (c ≠ None)) r)) = zip_with eq_cell l r.
Proof.
  revert f l r. induction n as [|n IH]; intros f [|a l] [|b r] Hl Hr Hf; try done.
  unfold with_nulls. cbn [seq map zip_with]. f_equal.
  - destruct a as [x|], b as [y|]; cbn; try done. by rewrite (Hf 0 x y).
  - rewrite <- seq_shift, map_map. apply (IH (λ i, f (S i))); [cbn in *; lia..|].
    intros i x y. apply (Hf (S i)).
Qed.

Lemma validity_replicate {A} (b : bool) (l : list A) (g : A → bool) :
  zip_with andb (replicate (length l) b) (map g l) = if b then map g l else replicate (length l) false.
Proof. induction l as [|x l IH]; cbn; [by destruct b|]. rewrite IH. by destruct b. Qed.

Lemma cmp_with_eq_values (cmp : nat → comparison) l :
  mapM (λ i, cmp_with_op Eq (cmp i)) l = Some (map (λ i, bool_decide (cmp i = Datatypes.Eq)) l).
Proof. by apply mapM_total. Qed.

Lemma zip_eq_cell_null n l : length l = n → zip_with eq_cell (replicate n None) l = replicate n None.
Proof. intros <-. induction l as [|c l IH]; [done|]. cbn. by rewrite IH. Qed.

(** The equality kernel on operands that are not both scalars. *)
Lemma kernel_eq_ok n ty l r :
  fits n ty l → fits n ty r → is_nested ty = false → is_scalar l && is_scalar r = false →
  arrow_kernel K_eq l r = inl (BooleanArray (zip_with eq_cell (spread n l) (spread n r))).
Proof.
  intros Hl Hr Hn Hs. erewrite arrow_kernel_ok with (n := n) (ty := DBoolean)
    (cs := map (fmap VBoolean) (zip_with eq_cell (spread n l) (spread n r))).
  - by rewrite array_of_bools.
  - by rewrite (proj1 Hl).
  - by rewrite (proj1 Hr).
  - intros El Er. by rewrite El, Er in Hs.
  - rewrite (proj1 Hl), (proj1 Hr). by apply kernel_eq_type.
  - unfold zip_cells. erewrite mapM_total; [|intros p _; apply kernel_eq_cell].
    f_equal. generalize (spread n l) (spread n r). intros cs ds. revert ds.
    induction cs as [|c cs IH]; intros [|d ds]; cbn; [done..|]. by rewrite IH.
Qed.

(** Equality with the base values of a CASE. *)
Lemma compare_with_eq_ok n ty l a :
  fits n ty l → array_type a = ty → array_len a = n →
  compare_with_eq l (Array a) (is_nested ty) = Some (Ok (zip_with eq_cell (spread n l) (cells a))).
Proof.
  intros Hl Hty Hn. unfold compare_with_eq. destruct (is_nested ty) eqn:En.
  - unfold compare_op_for_nested, get. cbn [is_scalar into_array].
    destruct (arrow_compare_ok (into_array l 1) a) as (cmp & Hcmp & Heq).
    { rewrite into_array_type, Hty. apply Hl. }
    destruct l as [b|s]; cbn [is_scalar into_array spread] in *.
    + destruct Hl as [_ Hb]. rewrite Hb, Hn, bool_decide_true, Hcmp by done. cbn [negb orb andb is_distinct_op arrow_result try_bind].
      rewrite (cmp_with_eq_values (λ i, cmp i i)). cbn [mbind option_bind]. unfold validity. do 2 f_equal.
      apply with_nulls_eq_cell; [by rewrite length_cells..|].
      intros i x y Hx Hy. apply bool_decide_ext. eauto.
    + destruct Hl as [Hs Hv]. cbn in Hs. unfold to_array_of_size in *.
      rewrite array_len_of, orb_true_r, Hn, Hcmp. cbn [negb orb andb is_distinct_op arrow_result try_bind].
      rewrite cells_array_of in * by (rewrite Hs; by constructor). cbn [replicate] in *.
      destruct (s_value s) as [v|]; cbn -[seq zip_with replicate];
        [|rewrite zip_eq_cell_null by (by rewrite length_cells); done].
      rewrite (cmp_with_eq_values (λ i, cmp 0 i)). cbn [mbind option_bind]. do 2 f_equal.
      replace (validity a) with (zip_with andb (map (λ c : option value, bool_decide (c ≠ None)) (replicate n (Some v)))
                                  (validity a)).
      * apply with_nulls_eq_cell; [by rewrite length_replicate|by rewrite length_cells|].
        intros i x y [[= ->] _]%lookup_replicate Hy. apply bool_decide_ext. apply (Heq 0 i v y); done.
      * change (map ?f (replicate n (Some v))) with (f <$> replicate n (Some v)). rewrite fmap_replicate, <- Hn, <- length_cells. apply (validity_replicate true).
  - rewrite (kernel_eq_ok n ty l (Array a)); [done|done| |done|by rewrite andb_false_r].
    rewrite <- Hty. by apply fits_array.
Qed.

End Datum.

End Datum.
