(* ===== verification/Scatter.v ===== *)
(** * Scattering (physical-expr-common/src/utils.rs)

    [scatter] spreads the values of a filtered array over the rows its mask
    selects and fills the others with null.  There is a loop over slices and one
    over single indices, chosen by selectivity, for every physical layout of
    arrays.  Proved: all of them compute the same, the values in order at the set
    positions. *)

From stdpp Require Import base list strings.
From Stdlib Require Import ZArith Lia Ascii.
From S2P Require Import Prelude F64 Relation HashUtils Columnar.

Module Scatter.

(** The values of [src] at the set positions of a mask, [d] elsewhere. *)
Fixpoint spread_mask {A} (mask : list bool) (src : list A) (d : A) : list A :=
  match mask with
  | [] => []
  | true :: mask => match src with x :: src => x :: spread_mask mask src d | [] => d :: spread_mask mask [] d end
  | false :: mask => d :: spread_mask mask src d
  end.

Section Scatter.
Context `{Arrow}.

Definition SCATTER_SLICES_SELECTIVITY_THRESHOLD : f64 := f64_lit 8 1.

(** [BooleanBuffer::set_slices] is the iterator of a boolean array's slices. *)
Definition set_slices (mask : list bool) : list (nat * nat) := arrow_slices (map Some mask).

(** [&src[off..off + len]] *)
Definition slice {A} (src : list A) (off len : nat) : option (list A) :=
  if decide (off + len ≤ length src) then Some (take len (drop off src)) else panic!.

(** [out[start..end].copy_from_slice(chunk)], with [end - start] the length of the chunk. *)
Definition copy_from_slice {A} (out : list A) (start : nat) (chunk : list A) : option (list A) :=
  if decide (start + length chunk ≤ length out)
  then Some (take start out ++ chunk ++ drop (start + length chunk) out) else panic!.

Fixpoint copy_slices {A} (slices : list (nat * nat)) (src : list A) (src_offset : nat) (output : list A)
    : option (list A) :=
  match slices with
  | [] => Some output
  | (start, end_) :: slices =>
      let len := end_ - start in
      chunk ← slice src src_offset len;
      output ← copy_from_slice output start chunk;
      copy_slices slices src (src_offset + len) output
  end.

Fixpoint copy_indices {A} (indices : list nat) (src : list A) (src_offset : nat) (output : list A)
    : option (list A) :=
  match indices with
  | [] => Some output
  | dst_idx :: indices =>
      x ← vec_get src src_offset;
      output ← vec_set output dst_idx x;
      copy_indices indices src (src_offset + 1) output
  end.

Definition scatter_native {A} (default : A) (src : list A) (mask : list bool) (output_len : nat) (selectivity : f64)
    : option (list A) :=
  let output := replicate output_len default in
  if f64_gt selectivity SCATTER_SLICES_SELECTIVITY_THRESHOLD then copy_slices (set_slices mask) src 0 output
  else copy_indices (set_indices 0 mask) src 0 output.

(** Bits start unset and are only set. *)
Fixpoint set_bits (indices : list nat) (src : list bool) (src_offset : nat) (builder : list bool)
    : option (list bool) :=
  match indices with
  | [] => Some builder
  | i :: indices =>
      x ← vec_get src src_offset;
      builder ← if (x : bool) then vec_set builder i true else Some builder;
      set_bits indices src (src_offset + 1) builder
  end.

Definition scatter_bits (src mask : list bool) (output_len : nat) (selectivity : f64) : option (list bool) :=
  let builder := replicate output_len false in
  if f64_gt selectivity SCATTER_SLICES_SELECTIVITY_THRESHOLD
  then set_bits (concat (map (λ p : nat * nat, seq p.1 (p.2 - p.1)) (set_slices mask))) src 0 builder
  else set_bits (set_indices 0 mask) src 0 builder.

Definition count_set_bits (mask : list bool) : nat := length (filter (λ b, b = true) mask).
Definition null_bits (valid : list bool) : nat := length (filter (λ b, b = false) valid).

Definition scatter_null_mask (src_nulls : option (list bool)) (mask : list bool) (output_len : nat)
    (selectivity : f64) : option (option (list bool)) :=
  false_count ← usize_sub output_len (count_set_bits mask);
  let src_null_count := default 0 (null_bits <$> src_nulls) in
  if decide (src_null_count = 0) then Some (if decide (false_count = 0) then None else Some mask)
  else
    src_nulls ← src_nulls;
    scattered ← scatter_bits src_nulls mask output_len selectivity;
    Some (if decide (0 < null_bits scattered) then Some scattered else None).

(** ** Physical layouts

    An array with a buffer of values and one that says which of them are valid;
    what a value buffer holds at a null is arbitrary. *)

Definition buffer_cells {A} (values : list A) (nulls : option (list bool)) : list (option A) :=
  match nulls with
  | Some valid => zip_with (λ v (ok : bool), if ok then Some v else None) values valid
  | None => map Some values
  end.

Definition value_buffer {A} (at_null : A) (cs : list (option A)) : list A := map (default at_null) cs.

Definition null_buffer {A} (cs : list (option A)) : option (list bool) :=
  if decide (null_count cs = 0) then None else Some (map (λ c, bool_decide (c ≠ None)) cs).

(** Values and validity scattered alike: [scatter_primitive]. *)
Definition scatter_primitive (at_null : Z) (vs : list (option Z)) (mask : list bool) (output_len : nat)
    (selectivity : f64) : option (list (option Z)) :=
  values ← scatter_native 0%Z (value_buffer at_null vs) mask output_len selectivity;
  nulls ← scatter_null_mask (null_buffer vs) mask output_len selectivity;
  Some (buffer_cells values nulls).

Definition scatter_boolean (at_null : bool) (vs : list (option bool)) (mask : list bool) (output_len : nat)
    (selectivity : f64) : option (list (option bool)) :=
  values ← scatter_bits (value_buffer at_null vs) mask output_len selectivity;
  nulls ← scatter_null_mask (null_buffer vs) mask output_len selectivity;
  Some (buffer_cells values nulls).

(** Strings are slices of one data buffer, delimited by offsets. *)
Record byte_buffers := mkBytes { value_offsets : list nat; value_data : list ascii }.

Fixpoint byte_values (offsets : list nat) (data : list ascii) : list (list ascii) :=
  match offsets with
  | o :: ((o' :: _) as offsets') => take (o' - o) (drop o data) :: byte_values offsets' data
  | _ => []
  end.

Fixpoint bytes_offsets (src_offsets : list nat) (mask : list bool) (src_idx cur_offset : nat)
    : option (list nat * nat) :=
  match mask with
  | [] => Some ([], src_idx)
  | b :: mask =>
      '(cur_offset, src_idx) ← (if (b : bool) then
          hi ← vec_get src_offsets (src_idx + 1);
          lo ← vec_get src_offsets src_idx;
          len ← usize_sub hi lo;
          Some (cur_offset + len, src_idx + 1)
        else Some (cur_offset, src_idx));
      '(dst_offsets, src_idx) ← bytes_offsets src_offsets mask src_idx cur_offset;
      Some (cur_offset :: dst_offsets, src_idx)
  end.

Definition scatter_byte_values (truthy : byte_buffers) (mask : list bool) : option byte_buffers :=
  '(dst_offsets, src_idx) ← bytes_offsets (value_offsets truthy) mask 0 0;
  byte_start ← vec_get (value_offsets truthy) 0;
  byte_end ← vec_get (value_offsets truthy) src_idx;
  if decide (byte_start ≤ byte_end ≤ length (value_data truthy)) then
    Some (mkBytes (0 :: dst_offsets) (take (byte_end - byte_start) (drop byte_start (value_data truthy))))
  else panic!.

(** The buffers of strings, the data of the first starting at an offset. *)
Fixpoint offsets_from (o : nat) (ss : list (list ascii)) : list nat :=
  match ss with [] => [o] | s :: ss => o :: offsets_from (o + length s) ss end.

Definition bytes_of (before : list ascii) (ss : list (list ascii)) : byte_buffers :=
  mkBytes (offsets_from (length before) ss) (before ++ concat ss).

Definition scatter_bytes (before at_null : string) (vs : list (option string)) (mask : list bool) (output_len : nat)
    (selectivity : f64) : option (list (option string)) :=
  dst ← scatter_byte_values
          (bytes_of (String.list_ascii_of_string before)
             (map String.list_ascii_of_string (value_buffer at_null vs))) mask;
  nulls ← scatter_null_mask (null_buffer vs) mask output_len selectivity;
  Some (buffer_cells (map String.string_of_list_ascii (byte_values (value_offsets dst) (value_data dst))) nulls).

(** Filling the gaps between the slices of a mask, for arrays of any layout. *)
Fixpoint fill_slices {A} (gap : A) (slices : list (nat * nat)) (src : list A) (true_pos filled : nat) (out : list A)
    : option (list A * nat) :=
  match slices with
  | [] => Some (out, filled)
  | (start, end_) :: slices =>
      let out := if decide (filled < start) then out ++ replicate (start - filled) gap else out in
      let len := end_ - start in
      chunk ← slice src true_pos len;
      fill_slices gap slices src (true_pos + len) end_ (out ++ chunk)
  end.

Definition fill_gaps {A} (gap : A) (slices : list (nat * nat)) (src : list A) (output_len : nat) : option (list A) :=
  '(out, filled) ← fill_slices gap slices src 0 0 [];
  Some (if decide (filled < output_len) then out ++ replicate (output_len - filled) gap else out).

Definition scatter_fallback (cs : list (option value)) (mask : list bool) (output_len : nat)
    : option (list (option value)) :=
  fill_gaps None (arrow_slices (map Some mask)) cs output_len.

(** What the buffers of an array hold at nulls and before the first string. *)
Record hidden := { hidden_int : Z; hidden_bool : bool; hidden_string : string; hidden_prefix : string }.

Definition scatter_array (h : hidden) (truthy : array) (mask : list bool) (output_len : nat) (selectivity : f64)
    : option (Result array) :=
  match truthy with
  | BooleanArray vs => Ok ∘ BooleanArray <$> scatter_boolean (hidden_bool h) vs mask output_len selectivity
  | Int32Array vs => Ok ∘ Int32Array <$> scatter_primitive (hidden_int h) vs mask output_len selectivity
  | Int64Array vs => Ok ∘ Int64Array <$> scatter_primitive (hidden_int h) vs mask output_len selectivity
  | StringArray vs =>
      Ok ∘ StringArray <$> scatter_bytes (hidden_prefix h) (hidden_string h) vs mask output_len selectivity
  | OtherArray ty vs =>
      if bool_decide (ty ∈ HashUtils.primitive_types) then
        Ok ∘ OtherArray ty <$> scatter_primitive (hidden_int h) vs mask output_len selectivity
      else Ok ∘ array_of (DOther ty) <$> scatter_fallback (cells truthy) mask output_len
  end.

Definition scatter (h : hidden) (mask : bools) (truthy : array) : option (Result array) :=
  let all_null := Some (Ok (array_of (array_type truthy) (replicate (length mask) None))) in
  if decide (null_count mask = length mask ∧ null_count mask ≠ 0) then all_null
  else
    let mask := if decide (null_count mask = 0) then mask else prep_null_mask_filter mask in
    let output_len := length mask in
    let count := true_count mask in
    if decide (count = 0) then Some (Ok (array_of (array_type truthy) (replicate output_len None)))
    else if decide (count = output_len) then Some (Ok truthy)
    else
      let selectivity := f64_div (f64_of_Z (Z.of_nat count)) (f64_of_Z (Z.of_nat output_len)) in
      scatter_array h truthy (selection mask) output_len selectivity.

(** ** Masks *)

Lemma length_spread_mask {A} mask (src : list A) d : length (spread_mask mask src d) = length mask.
Proof. revert src. induction mask as [|[] mask IH]; intros [|x src]; cbn; auto. Qed.

Lemma count_set_bits_cons b mask : count_set_bits (b :: mask) = (if b then 1 else 0) + count_set_bits mask.
Proof. unfold count_set_bits. rewrite filter_cons. by destruct b. Qed.

Lemma count_set_bits_app m m' : count_set_bits (m ++ m') = count_set_bits m + count_set_bits m'.
Proof. unfold count_set_bits. by rewrite filter_app, length_app. Qed.

Lemma count_set_bits_le mask : count_set_bits mask ≤ length mask.
Proof. apply length_filter. Qed.

Lemma length_set_indices from mask : length (set_indices from mask) = count_set_bits mask.
Proof.
  revert from. induction mask as [|b mask IH]; intros from; [done|].
  rewrite count_set_bits_cons. destruct b; cbn; by rewrite IH.
Qed.

Lemma elem_of_set_indices from mask i : i ∈ set_indices from mask → from ≤ i < from + length mask.
Proof.
  revert from. induction mask as [|[] mask IH]; intros from; cbn.
  - by intros ?%elem_of_nil.
  - intros [->|Hi%IH]%elem_of_cons; lia.
  - intros Hi%IH. lia.
Qed.

Lemma spread_mask_map {A B} (f : A → B) mask src d :
  map f (spread_mask mask src d) = spread_mask mask (map f src) (f d).
Proof.
  revert src. induction mask as [|[] mask IH]; intros [|x src]; cbn; rewrite ?IH; done.
Qed.

Lemma spread_mask_zip {A B C} (f : A → B → C) mask (l : list A) (k : list B) d e :
  length l = length k →
  zip_with f (spread_mask mask l d) (spread_mask mask k e) = spread_mask mask (zip_with f l k) (f d e).
Proof.
  revert l k. induction mask as [|[] mask IH]; intros [|x l] [|y k] Hl; cbn; try done; rewrite ?IH; done || (by inversion Hl).
Qed.

(** The mask itself is the scattering of set bits. *)
Lemma spread_mask_self mask n : count_set_bits mask ≤ n → spread_mask mask (replicate n true) false = mask.
Proof.
  revert n. induction mask as [|b mask IH]; intros n; [done|]. rewrite count_set_bits_cons.
  destruct b; cbn; intros Hn; [destruct n as [|n]; [lia|]; cbn|]; by rewrite IH by lia.
Qed.

Lemma spread_mask_none {A} mask (src : list A) d :
  count_set_bits mask = 0 → spread_mask mask src d = replicate (length mask) d.
Proof.
  revert src. induction mask as [|b mask IH]; intros src; [done|]. rewrite count_set_bits_cons.
  destruct b; [lia|]. intros Hc. cbn. by rewrite IH.
Qed.

Lemma spread_mask_all {A} mask (src : list A) d :
  count_set_bits mask = length mask → length src = length mask → spread_mask mask src d = src.
Proof.
  revert src. induction mask as [|b mask IH]; intros [|x src]; try done. rewrite count_set_bits_cons.
  pose proof (count_set_bits_le mask). destruct b; cbn; [|lia]. intros Hc [= Hl]. by rewrite IH by lia.
Qed.

Lemma spread_mask_same {A} mask n (d : A) : spread_mask mask (replicate n d) d = replicate (length mask) d.
Proof. revert n. induction mask as [|[] mask IH]; intros n; [done|destruct n as [|n]|]; cbn; f_equal; [apply (IH 0)|apply IH..]. Qed.

(** ** The two loops *)

Lemma drop_S_get {A} (src : list A) off x : src !! off = Some x → drop off src = x :: drop (S off) src.
Proof. intros Hx. by rewrite (drop_S _ _ _ Hx). Qed.

Lemma vec_set_middle {A} (pre l : list A) x y : vec_set (pre ++ x :: l) (length pre) y = Some (pre ++ y :: l).
Proof.
  rewrite vec_set_in by (rewrite length_app; cbn; lia). f_equal.
  rewrite insert_app_r_alt, Nat.sub_diag by lia. done.
Qed.

Lemma copy_indices_ok {A} (d : A) mask pre src off :
  off + count_set_bits mask ≤ length src →
  copy_indices (set_indices (length pre) mask) src off (pre ++ replicate (length mask) d)
  = Some (pre ++ spread_mask mask (drop off src) d).
Proof.
  revert pre off. induction mask as [|b mask IH]; intros pre off; [done|]. rewrite count_set_bits_cons.
  destruct b; cbn [set_indices copy_indices length replicate spread_mask]; intros Hle.
  - destruct (lookup_lt_is_Some_2 src off ltac:(lia)) as [x Hx]. unfold vec_get. rewrite Hx. cbn [mbind option_bind].
    rewrite vec_set_middle. cbn [mbind option_bind]. rewrite (drop_S_get _ _ _ Hx).
    specialize (IH (pre ++ [x]) (off + 1)). rewrite length_app, <- !app_assoc in IH. cbn in IH.
    replace (length pre + 1) with (S (length pre)) in IH by lia. rewrite Nat.add_1_r in IH |- *. apply IH. lia.
  - specialize (IH (pre ++ [d]) off). rewrite length_app, <- !app_assoc in IH. cbn in IH.
    replace (length pre + 1) with (S (length pre)) in IH by lia. apply IH. lia.
Qed.

Lemma scatter_set_bits_ok mask pre src off :
  off + count_set_bits mask ≤ length src →
  set_bits (set_indices (length pre) mask) src off (pre ++ replicate (length mask) false)
  = Some (pre ++ spread_mask mask (drop off src) false).
Proof.
  revert pre off. induction mask as [|b mask IH]; intros pre off; [done|]. rewrite count_set_bits_cons.
  destruct b; cbn [set_indices set_bits length replicate spread_mask]; intros Hle.
  - destruct (lookup_lt_is_Some_2 src off ltac:(lia)) as [x Hx]. unfold vec_get. rewrite Hx. cbn [mbind option_bind].
    assert ((if x then vec_set (pre ++ false :: replicate (length mask) false) (length pre) true
             else Some (pre ++ false :: replicate (length mask) false))
            = Some (pre ++ x :: replicate (length mask) false)) as ->.
    { destruct x; [apply vec_set_middle|done]. }
    cbn [mbind option_bind]. rewrite (drop_S_get _ _ _ Hx).
    specialize (IH (pre ++ [x]) (off + 1)). rewrite length_app, <- !app_assoc in IH. cbn in IH.
    replace (length pre + 1) with (S (length pre)) in IH by lia. rewrite Nat.add_1_r in IH |- *. apply IH. lia.
  - specialize (IH (pre ++ [false]) off). rewrite length_app, <- !app_assoc in IH. cbn in IH.
    replace (length pre + 1) with (S (length pre)) in IH by lia. apply IH. lia.
Qed.

Lemma copy_indices_seq {A} start len rest (src : list A) off out :
  off + len ≤ length src → start + len ≤ length out →
  copy_indices (seq start len ++ rest) src off out
  = copy_indices rest src (off + len) (take start out ++ take len (drop off src) ++ drop (start + len) out).
Proof.
  revert start off out. induction len as [|len IH]; intros start off out Hs Ho.
  { cbn [seq app]. rewrite !Nat.add_0_r, take_0. cbn [app]. by rewrite take_drop. }
  cbn [seq app copy_indices]. destruct (lookup_lt_is_Some_2 src off ltac:(lia)) as [x Hx]. unfold vec_get.
  rewrite Hx. cbn [mbind option_bind]. rewrite vec_set_in by lia. cbn [mbind option_bind].
  rewrite IH by (rewrite ?length_insert; lia). rewrite (drop_S_get _ _ _ Hx). f_equal; [lia|].
  rewrite (take_S_r _ _ x) by (rewrite list_lookup_insert_eq by lia; done).
  rewrite take_insert_ge, drop_insert_lt by lia. rewrite <- !app_assoc. cbn [app take].
  replace (off + 1) with (S off) by lia. by replace (S start + len) with (start + S len) by lia.
Qed.

Lemma copy_slices_indices {A} slices (src : list A) off out :
  Forall (λ p : nat * nat, p.1 < p.2) slices →
  (∀ i, i ∈ concat (map (λ p : nat * nat, seq p.1 (p.2 - p.1)) slices) → i < length out) →
  off + length (concat (map (λ p : nat * nat, seq p.1 (p.2 - p.1)) slices)) ≤ length src →
  copy_slices slices src off out
  = copy_indices (concat (map (λ p : nat * nat, seq p.1 (p.2 - p.1)) slices)) src off out.
Proof.
  intros Hs. revert off out. induction Hs as [|[s e] slices Hse Hs IH]; intros off out Hlt Hle; [done|].
  cbn [map concat fst snd copy_slices] in *. rewrite length_app, length_seq in Hle.
  assert (e - 1 < length out) as He.
  { apply Hlt, elem_of_app. left. apply elem_of_seq. lia. }
  unfold slice. rewrite decide_True by lia. cbn [mbind option_bind].
  rewrite copy_indices_seq by lia. unfold copy_from_slice.
  assert (length (take (e - s) (drop off src)) = e - s) as Hl by (rewrite length_take, length_drop; lia).
  rewrite Hl, decide_True by lia. cbn [mbind option_bind]. apply IH; [|lia].
  intros i Hi. rewrite !length_app, Hl, length_take, length_drop.
  assert (i < length out) by (apply Hlt, elem_of_app; by right). lia.
Qed.

Context `{!ArrowCells, !ArrowOk}.

Lemma selection_Some mask : selection (map Some mask) = mask.
Proof. unfold selection. rewrite map_map. apply map_id. Qed.

Lemma set_slices_ok mask :
  concat (map (λ p : nat * nat, seq p.1 (p.2 - p.1)) (set_slices mask)) = set_indices 0 mask
  ∧ Forall (λ p : nat * nat, p.1 < p.2) (set_slices mask).
Proof. unfold set_slices. rewrite <- (selection_Some mask) at 2. apply arrow_slices_ok. Qed.

Lemma scatter_native_ok {A} (d : A) src mask sel :
  count_set_bits mask ≤ length src →
  scatter_native d src mask (length mask) sel = Some (spread_mask mask src d).
Proof.
  intros Hc. unfold scatter_native.
  pose proof (copy_indices_ok d mask [] src 0 Hc) as Hix. rewrite drop_0 in Hix.
  destruct (f64_gt _ _); [|exact Hix]. destruct (set_slices_ok mask) as [Hs Hlt].
  rewrite copy_slices_indices; rewrite ?Hs; [exact Hix|done| |].
  - intros i Hi%elem_of_set_indices. rewrite length_replicate. lia.
  - rewrite length_set_indices. lia.
Qed.

Lemma scatter_bits_ok src mask sel :
  count_set_bits mask ≤ length src →
  scatter_bits src mask (length mask) sel = Some (spread_mask mask src false).
Proof.
  intros Hc. unfold scatter_bits. rewrite (proj1 (set_slices_ok mask)).
  pose proof (scatter_set_bits_ok mask [] src 0 Hc) as Hix. rewrite drop_0 in Hix. by destruct (f64_gt _ _).
Qed.

(** ** Values and validity *)

Lemma buffer_cells_valid {A} (values : list A) valid :
  null_bits valid = 0 → length values = length valid → buffer_cells values (Some valid) = buffer_cells values None.
Proof.
  unfold null_bits. revert values. induction valid as [|b valid IH]; intros [|x values]; try done.
  rewrite filter_cons. case_decide; [done|]. destruct b; [|done]. intros Hv [= Hl]. cbn. f_equal. by apply IH.
Qed.

Lemma value_null_buffers {A} (g : A) cs :
  buffer_cells (value_buffer g cs) (Some (map (λ c, bool_decide (c ≠ None)) cs)) = cs.
Proof.
  unfold value_buffer. induction cs as [|c cs IH]; [done|]. cbn in *. rewrite IH. f_equal.
  by destruct c.
Qed.

Lemma null_bits_validity {A} (cs : list (option A)) :
  null_bits (map (λ c, bool_decide (c ≠ None)) cs) = null_count cs.
Proof.
  unfold null_bits, null_count. induction cs as [|c cs IH]; [done|]. cbn [map]. rewrite !filter_cons.
  destruct c; cbn; rewrite ?IH; repeat case_decide; cbn; by rewrite ?IH.
Qed.

Lemma valid_no_nulls {A} (cs : list (option A)) :
  null_count cs = 0 → map (λ c, bool_decide (c ≠ None)) cs = replicate (length cs) true.
Proof.
  unfold null_count. induction cs as [|c cs IH]; [done|]. rewrite filter_cons. case_decide as Hc; [done|].
  intros Hn. cbn. rewrite IH by done. by rewrite bool_decide_true.
Qed.

Lemma null_bits_count mask : null_bits mask + count_set_bits mask = length mask.
Proof.
  unfold null_bits, count_set_bits. induction mask as [|b mask IH]; [done|]. rewrite !filter_cons.
  repeat case_decide; cbn; destruct b; try done; lia.
Qed.

(** A buffer of values and its validity, scattered alike, are the cells scattered. *)
Lemma scatter_buffers_ok {A} (g d : A) cs mask sel :
  count_set_bits mask ≤ length cs →
  ∃ nulls, scatter_null_mask (null_buffer cs) mask (length mask) sel = Some nulls
    ∧ buffer_cells (spread_mask mask (value_buffer g cs) d) nulls = spread_mask mask cs None.
Proof.
  intros Hc. unfold scatter_null_mask. rewrite usize_sub_le by apply count_set_bits_le. cbn [mbind option_bind].
  set (valid := map (λ c : option A, bool_decide (c ≠ None)) cs).
  assert (Hvalid : buffer_cells (spread_mask mask (value_buffer g cs) d) (Some (spread_mask mask valid false))
                   = spread_mask mask cs None).
  { cbn [buffer_cells]. rewrite (spread_mask_zip _ mask _ _ d false) by (unfold value_buffer, valid; by rewrite !length_map).
    f_equal. apply value_null_buffers. }
  assert (Hall : null_bits (spread_mask mask valid false) = 0 →
    buffer_cells (spread_mask mask (value_buffer g cs) d) None = spread_mask mask cs None).
  { intros Hz. by rewrite <- Hvalid, buffer_cells_valid by (rewrite ?length_spread_mask; done). }
  unfold null_buffer. destruct (decide (null_count cs = 0)) as [Hn|Hn].
  - cbn [fmap option_fmap option_map default]. rewrite decide_True by done.
    assert (spread_mask mask valid false = mask) as Hm.
    { unfold valid. rewrite valid_no_nulls by done. by apply spread_mask_self. }
    case_decide as Hf; eexists; (split; [done|]); [|by rewrite <- Hm at 2].
    apply Hall. rewrite Hm. pose proof (null_bits_count mask). lia.
  - cbn [fmap option_fmap option_map default]. fold valid.
    assert (null_bits valid ≠ 0) as Hv by (unfold valid; by rewrite null_bits_validity).
    rewrite decide_False by exact Hv. cbn [mbind option_bind]. rewrite scatter_bits_ok by (unfold valid; by rewrite length_map).
    cbn [mbind option_bind]. case_decide as Hz; eexists; (split; [done|]); [done|apply Hall; lia].
Qed.

(** ** Strings *)

Lemma lookup_offsets o ss k :
  k ≤ length ss → offsets_from o ss !! k = Some (o + length (concat (take k ss))).
Proof.
  revert o k. induction ss as [|s ss IH]; intros o [|k] Hk; cbn in *; try lia; rewrite ?Nat.add_0_r; try done.
  rewrite IH by lia. rewrite length_app. f_equal. lia.
Qed.

Lemma byte_values_of before ss after :
  byte_values (offsets_from (length before) ss) (before ++ concat ss ++ after) = ss.
Proof.
  revert before. induction ss as [|s ss IH]; intros before; [done|].
  cbn [offsets_from concat]. rewrite <- app_assoc. specialize (IH (before ++ s)).
  rewrite length_app, <- app_assoc in IH.
  assert (offsets_from (length before + length s) ss
    = (length before + length s) :: tail (offsets_from (length before + length s) ss)) as Ho by (by destruct ss).
  rewrite Ho in IH |- *. cbn [byte_values]. f_equal; [|exact IH].
  rewrite drop_app_length. replace (length before + length s - length before) with (length s) by lia.
  apply take_app_length.
Qed.

Lemma bytes_offsets_ok o ss mask idx cur :
  idx + count_set_bits mask ≤ length ss →
  ∃ dst, bytes_offsets (offsets_from o ss) mask idx cur = Some (dst, idx + count_set_bits mask)
    ∧ cur :: dst = offsets_from cur (spread_mask mask (drop idx ss) []).
Proof.
  revert idx cur. induction mask as [|b mask IH]; intros idx cur.
  { intros _. exists []. split; [|done]. cbn. by rewrite Nat.add_0_r. }
  rewrite count_set_bits_cons. destruct b; cbn [bytes_offsets spread_mask]; intros Hle.
  - destruct (lookup_lt_is_Some_2 ss idx ltac:(lia)) as [s Hs]. unfold vec_get.
    rewrite !lookup_offsets by lia. cbn [mbind option_bind].
    rewrite Nat.add_1_r, (take_S_r _ _ _ Hs), concat_app, length_app. cbn [concat]. rewrite app_nil_r.
    rewrite usize_sub_le by lia. cbn [mbind option_bind].
    destruct (IH (S idx) (cur + length s) ltac:(lia)) as (dst & Hd & Ho).
    replace (cur + (o + (length (concat (take idx ss)) + length s) - (o + length (concat (take idx ss)))))
      with (cur + length s) by lia.
    rewrite Hd. cbn [mbind option_bind]. rewrite (drop_S_get _ _ _ Hs). eexists. split; [do 2 f_equal; lia|].
    cbn. by rewrite Ho.
  - cbn [mbind option_bind]. destruct (IH idx cur ltac:(lia)) as (dst & -> & Ho). cbn [mbind option_bind].
    eexists. split; [done|]. cbn. by rewrite Nat.add_0_r, Ho.
Qed.

Lemma concat_spread_mask {A} mask (ss : list (list A)) :
  concat (spread_mask mask ss []) = concat (take (count_set_bits mask) ss).
Proof.
  revert ss. induction mask as [|b mask IH]; intros ss; [done|]. rewrite count_set_bits_cons.
  destruct b; cbn; [|apply IH]. destruct ss as [|s ss]; cbn; rewrite IH; [by rewrite take_nil|done].
Qed.

Lemma scatter_byte_values_ok before ss mask :
  count_set_bits mask ≤ length ss →
  ∃ dst, scatter_byte_values (bytes_of before ss) mask = Some dst
    ∧ byte_values (value_offsets dst) (value_data dst) = spread_mask mask ss [].
Proof.
  intros Hc. unfold scatter_byte_values, bytes_of. cbn [value_offsets value_data].
  destruct (bytes_offsets_ok (length before) ss mask 0 0 Hc) as (dst & -> & Ho). cbn [mbind option_bind].
  unfold vec_get. rewrite !lookup_offsets by lia. cbn [mbind option_bind take concat length]. rewrite Nat.add_0_r.
  assert (length (concat (take (0 + count_set_bits mask) ss)) ≤ length (concat ss)) as Hle.
  { rewrite <- (take_drop (0 + count_set_bits mask) ss) at 2. rewrite concat_app, length_app. lia. }
  rewrite decide_True by (rewrite length_app; lia). eexists. split; [done|]. cbn [value_offsets value_data].
  rewrite drop_app_length, Ho, drop_0. cbn [Nat.add] in *.
  replace (length before + length (concat (take (count_set_bits mask) ss)) - length before)
    with (length (concat (take (count_set_bits mask) ss))) by lia.
  assert (take (length (concat (take (count_set_bits mask) ss))) (concat ss)
    = concat (take (count_set_bits mask) ss)) as ->.
  { rewrite <- (take_drop (count_set_bits mask) ss) at 2. rewrite concat_app. apply take_app_length. }
  rewrite <- concat_spread_mask. pose proof (byte_values_of [] (spread_mask mask ss []) []) as Hb.
  cbn [length app] in Hb. by rewrite app_nil_r in Hb.
Qed.

(** ** Slices with gaps *)

Lemma set_indices_split from mask s k l :
  set_indices from mask = seq s (S k) ++ l →
  ∃ mask', from ≤ s ∧ mask = replicate (s - from) false ++ replicate (S k) true ++ mask'
    ∧ set_indices (s + S k) mask' = l.
Proof.
  revert from s k l. induction mask as [|b mask IH]; intros from s k l; [done|]. cbn [set_indices].
  destruct b.
  - cbn. intros [= <- He]. destruct k as [|k].
    + exists mask. split; [done|]. rewrite Nat.sub_diag. split; [done|]. rewrite Nat.add_1_r. done.
    + destruct (IH (S from) (S from) k l He) as (mask' & _ & Hm & Hl). exists mask'. split; [done|].
      rewrite Nat.sub_diag in *. cbn in *. split; [by rewrite Hm at 1|]. by rewrite Nat.add_succ_r.
  - intros He. destruct (IH (S from) s k l He) as (mask' & Hle & Hm & Hl). exists mask'. split; [lia|].
    split; [|done]. replace (s - from) with (S (s - S from)) by lia. cbn. by rewrite Hm at 1.
Qed.

Lemma spread_mask_false {A} k mask (src : list A) d :
  spread_mask (replicate k false ++ mask) src d = replicate k d ++ spread_mask mask src d.
Proof. induction k as [|k IH]; [done|]. cbn. by rewrite IH. Qed.

Lemma spread_mask_true {A} k mask (src : list A) d :
  k ≤ length src →
  spread_mask (replicate k true ++ mask) src d = take k src ++ spread_mask mask (drop k src) d.
Proof.
  revert src. induction k as [|k IH]; intros src Hk; [done|]. destruct src as [|x src]; cbn in *; [lia|].
  by rewrite IH by lia.
Qed.

Lemma count_set_bits_replicate k b : count_set_bits (replicate k b) = if b then k else 0.
Proof.
  induction k as [|k IH]; [by destruct b|]. cbn [replicate]. rewrite count_set_bits_cons, IH. by destruct b.
Qed.

Lemma fill_slices_ok {A} (gap : A) slices from mask src pos out :
  concat (map (λ p : nat * nat, seq p.1 (p.2 - p.1)) slices) = set_indices from mask →
  Forall (λ p : nat * nat, p.1 < p.2) slices → pos + count_set_bits mask ≤ length src →
  ∃ out' filled, fill_slices gap slices src pos from out = Some (out', filled) ∧ filled ≤ from + length mask
    ∧ out' ++ replicate (from + length mask - filled) gap = out ++ spread_mask mask (drop pos src) gap.
Proof.
  intros Hs Hlt. revert from mask pos out Hs. induction Hlt as [|[s e] slices Hse Hlt IH]; intros from mask pos out Hs Hc.
  - exists out, from. split; [done|]. split; [lia|]. rewrite spread_mask_none.
    + do 2 f_equal. lia.
    + rewrite <- (length_set_indices from), <- Hs. done.
  - cbn [map concat fst snd] in Hs. replace (e - s) with (S (e - s - 1)) in Hs by (cbn in Hse; lia).
    symmetry in Hs. apply set_indices_split in Hs as (mask' & Hle & -> & Hs). symmetry in Hs.
    replace (s + S (e - s - 1)) with e in Hs by (cbn in Hse; lia).
    replace (S (e - s - 1)) with (e - s) in * by (cbn in Hse; lia).
    rewrite !count_set_bits_app, !count_set_bits_replicate in Hc. simpl in Hse, Hc. cbn [fill_slices].
    assert (slice src pos (e - s) = Some (take (e - s) (drop pos src))) as ->
      by (unfold slice; by rewrite decide_True by lia).
    cbn [mbind option_bind]. set (out1 := if decide (from < s) then out ++ replicate (s - from) gap else out).
    assert (out1 = out ++ replicate (s - from) gap) as ->.
    { unfold out1. case_decide; [done|]. replace (s - from) with 0 by lia. by rewrite app_nil_r. }
    edestruct (IH e mask' (pos + (e - s))) as (out' & filled & -> & Hf & Ho); [done|lia|].
    eexists _, _. split; [done|]. rewrite !length_app, !length_replicate in *. cbn in Hse. split; [lia|].
    replace (from + (s - from + (e - s + length mask')) - filled) with (e + length mask' - filled) by lia.
    rewrite Ho, spread_mask_false, spread_mask_true, drop_drop by (rewrite length_drop; lia). by rewrite <- !app_assoc.
Qed.

Lemma fill_gaps_ok {A} (gap : A) m (src : list A) :
  count_set_bits (selection m) ≤ length src →
  fill_gaps gap (arrow_slices m) src (length m) = Some (spread_mask (selection m) src gap).
Proof.
  intros Hc. destruct (arrow_slices_ok m) as [Hs Hlt]. unfold fill_gaps.
  destruct (fill_slices_ok gap _ 0 (selection m) src 0 [] Hs Hlt Hc) as (out & filled & -> & Hf & Ho).
  cbn [mbind option_bind app Nat.add] in *. rewrite drop_0, selection_length in *. rewrite <- Ho. f_equal.
  case_decide; [done|]. replace (length m - filled) with 0 by lia. by rewrite app_nil_r.
Qed.

(** ** All layouts *)

Lemma scatter_primitive_ok g vs mask sel :
  count_set_bits mask ≤ length vs →
  scatter_primitive g vs mask (length mask) sel = Some (spread_mask mask vs None).
Proof.
  intros Hc. unfold scatter_primitive. rewrite scatter_native_ok by (unfold value_buffer; by rewrite length_map).
  cbn [mbind option_bind]. destruct (scatter_buffers_ok g 0%Z vs mask sel Hc) as (nulls & -> & Hb).
  cbn [mbind option_bind]. by rewrite Hb.
Qed.

Lemma scatter_boolean_ok g vs mask sel :
  count_set_bits mask ≤ length vs →
  scatter_boolean g vs mask (length mask) sel = Some (spread_mask mask vs None).
Proof.
  intros Hc. unfold scatter_boolean. rewrite scatter_bits_ok by (unfold value_buffer; by rewrite length_map).
  cbn [mbind option_bind]. destruct (scatter_buffers_ok g false vs mask sel Hc) as (nulls & -> & Hb).
  cbn [mbind option_bind]. by rewrite Hb.
Qed.

Lemma scatter_bytes_ok before g vs mask sel :
  count_set_bits mask ≤ length vs →
  scatter_bytes before g vs mask (length mask) sel = Some (spread_mask mask vs None).
Proof.
  intros Hc. unfold scatter_bytes.
  edestruct scatter_byte_values_ok as (dst & -> & Hd); [|cbn [mbind option_bind]].
  { unfold value_buffer. by rewrite !length_map. }
  destruct (scatter_buffers_ok g EmptyString vs mask sel Hc) as (nulls & -> & Hb).
  cbn [mbind option_bind]. rewrite Hd, spread_mask_map, map_map. cbn [String.string_of_list_ascii].
  rewrite (map_ext _ (λ x, x)) by apply String.string_of_list_ascii_of_string.
  by rewrite map_id, Hb.
Qed.

(** The scattered array: the cells at the selected rows, null elsewhere. *)
Definition scattered (mask : list bool) (a : array) : array :=
  array_of (array_type a) (spread_mask mask (cells a) None).

Lemma spread_mask_typed ty mask cs :
  Forall (has_type ty) cs → Forall (has_type ty) (spread_mask mask cs None).
Proof.
  intros Hcs. revert cs Hcs. induction mask as [|[] mask IH]; intros cs Hcs; cbn; [constructor| |by constructor; auto].
  destruct Hcs; constructor; try done; auto.
Qed.

Lemma cells_scattered mask a : cells (scattered mask a) = spread_mask mask (cells a) None.
Proof. apply cells_array_of, spread_mask_typed, cells_typed. Qed.

Lemma spread_mask_fmap {A} (f : A → value) mask vs :
  spread_mask mask (map (fmap f) vs) None = map (fmap f) (spread_mask mask vs None).
Proof. revert vs. induction mask as [|[] mask IH]; intros [|v vs]; cbn; by rewrite <- ?IH. Qed.

Lemma scatter_array_ok h a mask sel :
  count_set_bits mask ≤ array_len a →
  scatter_array h a mask (length mask) sel = Some (Ok (scattered mask a)).
Proof.
  intros Hc. rewrite <- length_cells in Hc. unfold scatter_array, scattered.
  destruct a as [vs|vs|vs|vs|ty vs]; cbn [cells array_type] in *; rewrite ?length_map in Hc.
  - rewrite scatter_boolean_ok by done. cbn [fmap option_fmap option_map]. unfold compose. do 2 f_equal. rewrite spread_mask_fmap.
    symmetry. apply (array_of_cells (BooleanArray _)).
  - rewrite scatter_primitive_ok by done. cbn [fmap option_fmap option_map]. unfold compose. do 2 f_equal. rewrite spread_mask_fmap.
    symmetry. apply (array_of_cells (Int32Array _)).
  - rewrite scatter_primitive_ok by done. cbn [fmap option_fmap option_map]. unfold compose. do 2 f_equal. rewrite spread_mask_fmap.
    symmetry. apply (array_of_cells (Int64Array _)).
  - rewrite scatter_bytes_ok by done. cbn [fmap option_fmap option_map]. unfold compose. do 2 f_equal. rewrite spread_mask_fmap.
    symmetry. apply (array_of_cells (StringArray _)).
  - case_bool_decide.
    + rewrite scatter_primitive_ok by done. cbn [fmap option_fmap option_map]. unfold compose. do 2 f_equal. rewrite spread_mask_fmap.
      symmetry. apply (array_of_cells (OtherArray ty _)).
    + unfold scatter_fallback. pose proof (fill_gaps_ok (None : option value) (map Some mask) (map (fmap (VOther ty)) vs)) as Hf.
      rewrite selection_Some, !length_map in Hf. by rewrite Hf.
Qed.

Lemma count_selection m : count_set_bits (selection m) = true_count m.
Proof.
  unfold count_set_bits, true_count, selection. induction m as [|c m IH]; [done|]. cbn [map].
  rewrite !filter_cons. repeat case_decide; destruct c as [[]|]; cbn in *; congruence.
Qed.

Lemma prep_selection m : selection (prep_null_mask_filter m) = selection m.
Proof. rewrite prep_null_mask_filter_ok. unfold selection. by rewrite map_map. Qed.

Lemma all_null_count m : null_count m = length m → true_count m = 0.
Proof.
  unfold null_count, true_count. induction m as [|c m IH]; [done|]. rewrite !filter_cons. cbn.
  pose proof (length_filter (λ c : option bool, c = None) m). repeat case_decide; cbn; try lia; subst; done.
Qed.

Lemma scattered_none m a : true_count m = 0 → scattered (selection m) a = array_of (array_type a) (replicate (length m) None).
Proof.
  intros Hc. unfold scattered. by rewrite spread_mask_none, selection_length by (by rewrite count_selection).
Qed.

(** Scattering puts the values of an array, in order, at the rows the mask selects. *)
Lemma scatter_le_ok h m a :
  true_count m ≤ array_len a → (true_count m = length m → array_len a = length m) →
  scatter h m a = Some (Ok (scattered (selection m) a)).
Proof.
  intros Hc Hfull. unfold scatter. case_decide as Hall.
  { by rewrite scattered_none by (apply all_null_count, Hall). }
  set (m' := if decide (null_count m = 0) then m else prep_null_mask_filter m).
  assert (Hsel : selection m' = selection m) by (unfold m'; case_decide; [done|apply prep_selection]).
  assert (Hlen : length m' = length m) by (by rewrite <- selection_length, Hsel, selection_length).
  assert (Hcount : true_count m' = true_count m) by (by rewrite <- !count_selection, Hsel).
  rewrite Hlen, Hcount. case_decide as Hz; [by rewrite scattered_none|]. case_decide as Hf.
  - do 2 f_equal. symmetry. rewrite <- (array_of_cells a) at 2. unfold scattered. f_equal.
    apply spread_mask_all; rewrite ?count_selection, ?selection_length, ?length_cells; [congruence|by apply Hfull].
  - rewrite Hsel. rewrite <- (selection_length m). apply scatter_array_ok. rewrite count_selection. lia.
Qed.

Theorem scatter_ok h m a : true_count m = array_len a → scatter h m a = Some (Ok (scattered (selection m) a)).
Proof. intros Hc. apply scatter_le_ok; lia. Qed.

End Scatter.
End Scatter.
