(* ===== verification/CaseExpr.v ===== *)
(** * CASE expressions (physical-expr/src/expressions/case.rs)

    A CASE over a batch evaluates its branches one after the other on the rows
    that are still open and merges the partial results.  Proved: the rows get the
    value of the first branch whose condition holds for them, or of ELSE, or null,
    and no branch is evaluated for rows that do not reach it, so a branch that
    fails elsewhere does not make the batch fail. *)

From stdpp Require Import base list list_numbers strings sets.
From Stdlib Require Import ZArith Lia.
From S2P Require Import Prelude Relation Columnar Datum.

(** The body of a CASE expression over expressions of type [E]. *)
Record CaseBody (E : Type) := mkCaseBody {
  expr : option E;
  when_then_expr : list (E * E);
  else_expr : option E;
}.
Arguments mkCaseBody {E}.
Arguments expr {E}.
Arguments when_then_expr {E}.
Arguments else_expr {E}.

Record ProjectedCaseBody (E : Type) := mkProjected {
  projection : list nat;
  pbody : CaseBody E;
}.
Arguments mkProjected {E}.
Arguments projection {E}.
Arguments pbody {E}.

Module Case.

Section Case.
Context `{Arrow}.

(** Debug assertions are compiled in or not. *)
Variable debug_assertions : bool.

(** ** Casts (try_cast.rs) *)

Definition cast_to (v : ColumnarValue) (cast_type : DataType) : option (Result ColumnarValue) :=
  match v with
  | Array a =>
      if decide (array_type a = cast_type) then Some (Ok (Array a))
      else casted ←? Some (arrow_result (arrow_cast a cast_type)); Some (Ok (Array casted))
  | Scalar s =>
      if decide (s_type s = cast_type) then Some (Ok (Scalar s))
      else
        casted ←? Some (arrow_result (arrow_cast (to_array_of_size s 1) cast_type));
        scalar ← try_from_array casted 0; Some (Ok (Scalar scalar))
  end.

Definition TryCastExpr_evaluate (e : dyn) (cast_type : DataType) (b : RecordBatch)
    : option (Result ColumnarValue) :=
  value ←? evaluate e b; cast_to value cast_type.

Definition try_cast (e : dyn) (input_schema : list DataType) (cast_type : DataType) : Result dyn :=
  expr_type ← data_type e input_schema;
  if decide (expr_type = cast_type) then Ok e
  else if can_cast_types expr_type cast_type
  then Ok {| evaluate := TryCastExpr_evaluate e cast_type; data_type _ := Ok cast_type |}
  else Err (NotImplemented "Unsupported TRY_CAST").

(** ** Partial results *)

Definition NONE_VALUE : Z := 2 ^ 32 - 1.

Definition index_try_new (index : nat) : Result Z :=
  if decide (Z.of_nat index < 2 ^ 32)%Z then
    if decide (Z.of_nat index = NONE_VALUE) then Err (Internal "Partial result index exceeds limit")
    else Ok (Z.of_nat index)
  else Err (Internal "Partial result index exceeds limit").

Definition index_of (index : Z) : option nat :=
  if decide (index = NONE_VALUE) then None else Some (Z.to_nat index).

Inductive ResultState :=
| Empty
| Partial (arrays : list array) (indices : list Z)
| Complete (v : ColumnarValue).

Record ResultBuilder := mkBuilder { rb_type : DataType; row_count : nat; state : ResultState }.

Definition builder_new (ty : DataType) (row_count : nat) : ResultBuilder := mkBuilder ty row_count Empty.

(** [as_primitive::<UInt32Type>().values()] *)
Definition u32_values (a : array) : option (list Z) :=
  match a with
  | OtherArray "UInt32" vs => Some (map (default 0%Z) vs)
  | _ => panic!
  end.

(** [for row_ix in rows { indices[row_ix] = array_index }]; the check for a second
    value of a row is a debug assertion of the branch that has it. *)
Fixpoint set_rows (check : bool) (array_index : Z) (rows : list Z) (indices : list Z)
    : option (Result (list Z)) :=
  match rows with
  | [] => Some (Ok indices)
  | r :: rows =>
      old ← vec_get indices (Z.to_nat r);
      if check && bool_decide (old ≠ NONE_VALUE) then Some (Err (Internal "Duplicate value for row"))
      else indices ← vec_set indices (Z.to_nat r) array_index; set_rows check array_index rows indices
  end.

Definition add_partial_result (b : ResultBuilder) (row_indices row_values : array)
    : option (Result ResultBuilder) :=
  if negb (bool_decide (null_count (cells row_indices) = 0))
  then Some (Err (Internal "Row indices must not contain nulls"))
  else match state b with
  | Empty =>
      rows ← u32_values row_indices;
      indices ←? set_rows false 0 rows (replicate (row_count b) NONE_VALUE);
      Some (Ok (mkBuilder (rb_type b) (row_count b) (Partial [row_values] indices)))
  | Partial arrays indices =>
      array_index ←? Some (index_try_new (length arrays));
      rows ← u32_values row_indices;
      indices ←? set_rows debug_assertions array_index rows indices;
      Some (Ok (mkBuilder (rb_type b) (row_count b) (Partial (arrays ++ [row_values]) indices)))
  | Complete _ => Some (Err (Internal "Cannot add a partial result when complete result is already set"))
  end.

Definition set_complete_result (b : ResultBuilder) (value : ColumnarValue) : Result ResultBuilder :=
  match state b with
  | Empty => Ok (mkBuilder (rb_type b) (row_count b) (Complete value))
  | Partial _ _ => Err (Internal "Cannot set a complete result when there are already partial results")
  | Complete _ => Err (Internal "Complete result already set")
  end.

Definition add_branch_result (b : ResultBuilder) (row_indices : array) (value : ColumnarValue)
    : option (Result ResultBuilder) :=
  match value with
  | Array a =>
      if negb (bool_decide (array_len a = array_len row_indices))
      then Some (Err (Internal "Array length must match row indices length"))
      else if bool_decide (array_len row_indices = row_count b) then Some (set_complete_result b (Array a))
      else add_partial_result b row_indices a
  | Scalar s =>
      if bool_decide (array_len row_indices = row_count b) then Some (set_complete_result b (Scalar s))
      else add_partial_result b row_indices (to_array_of_size s (array_len row_indices))
  end.

Definition finish (b : ResultBuilder) : Result ColumnarValue :=
  match state b with
  | Empty => Ok (Scalar (mkScalar (rb_type b) None))
  | Partial arrays indices => Array <$> arrow_result (arrow_merge_n arrays (map index_of indices))
  | Complete v => Ok v
  end.

(** ** Branches *)

Definition filter_record_batch (b : RecordBatch) (filter : bools) : Result RecordBatch :=
  filtered_columns ← collect (λ a, arrow_result (arrow_filter a filter)) (columns b);
  Ok {| columns := filtered_columns; num_rows := true_count filter |}.

(** [UInt32Array::from_iter_values(0..batch.num_rows() as u32)] *)
Definition row_numbers (num_rows : nat) : array :=
  OtherArray "UInt32" (map Some (seqZ 0 (Z.of_nat num_rows mod 2 ^ 32))).

(** The rows a CASE still has to evaluate: their numbers, the rows themselves and
    the base values. *)
Record remainder := mkRemainder {
  r_rows : array;
  r_batch : RecordBatch;
  r_base : option array;
}.

Definition filter_remainder (r : remainder) (filter : bools) : Result remainder :=
  batch ← filter_record_batch (r_batch r) filter;
  rows ← arrow_result (arrow_filter (r_rows r) filter);
  base ← match r_base r with
         | Some base => Some <$> arrow_result (arrow_filter base filter)
         | None => Ok None
         end;
  Ok (mkRemainder rows batch base).

(** The WHEN value of the two forms. *)
Definition when_equals (when_expr : dyn) (r : remainder) : option (Result bools) :=
  base_values ← r_base r;
  v ←? evaluate when_expr (r_batch r);
  Datum.compare_with_eq v (Array base_values) (is_nested (array_type base_values)).

Definition when_holds (when_predicate : dyn) (r : remainder) : option (Result bools) :=
  v ←? evaluate when_predicate (r_batch r);
  match as_bools (into_array v (num_rows (r_batch r))) with
  | Some m => Some (Ok m)
  | None => Some (Err (Internal "WHEN expression did not return a BooleanArray"))
  end.

Definition negated_selection (when_value : bools) : Result bools :=
  if bool_decide (null_count when_value = 0) then arrow_result (arrow_not when_value)
  else arrow_result (arrow_not (prep_null_mask_filter when_value)).

(** The loop over the branches: the finished result, or what is left for ELSE. *)
Fixpoint branches (when : dyn → remainder → option (Result bools)) (has_else : bool)
    (l : list (dyn * dyn)) (b : ResultBuilder) (r : remainder)
    : option (Result (ColumnarValue + ResultBuilder * remainder)) :=
  match l with
  | [] => Some (Ok (inr (b, r)))
  | (when_expr, then_expr) :: l =>
      when_value ←? when when_expr r;
      let when_true_count := true_count when_value in
      if bool_decide (when_true_count = 0) then branches when has_else l b r
      else if bool_decide (when_true_count = num_rows (r_batch r)) then
        then_value ←? evaluate then_expr (r_batch r);
        b ←? add_branch_result b (r_rows r) then_value;
        v ←? Some (finish b); Some (Ok (inl v))
      else
        then_batch ←? Some (filter_record_batch (r_batch r) when_value);
        then_rows ←? Some (arrow_result (arrow_filter (r_rows r) when_value));
        then_value ←? evaluate then_expr then_batch;
        b ←? add_branch_result b then_rows then_value;
        if negb has_else && bool_decide (l = []) then v ←? Some (finish b); Some (Ok (inl v))
        else
          next_selection ←? Some (negated_selection when_value);
          r ←? Some (filter_remainder r next_selection);
          branches when has_else l b r
  end.

(** ELSE for the rows no branch took. *)
Definition otherwise (body : CaseBody dyn) (schema : list DataType) (return_type : DataType)
    (res : ColumnarValue + ResultBuilder * remainder) : option (Result ColumnarValue) :=
  match res with
  | inl v => Some (Ok v)
  | inr (b, r) =>
      b ←? match else_expr body with
           | Some e =>
               e ←? Some (try_cast e schema return_type);
               else_value ←? evaluate e (r_batch r);
               add_branch_result b (r_rows r) else_value
           | None => Some (Ok b)
           end;
      Some (finish b)
  end.

Definition case_when_no_expr (body : CaseBody dyn) (batch : RecordBatch) (return_type : DataType)
    : option (Result ColumnarValue) :=
  let b := builder_new return_type (num_rows batch) in
  let r := mkRemainder (row_numbers (num_rows batch)) batch None in
  res ←? branches when_holds (bool_decide (is_Some (else_expr body))) (when_then_expr body) b r;
  otherwise body (schema_of batch) return_type res.

(** Rows whose base value is null take ELSE at once; the result when no other row
    is left. *)
Definition null_base_rows (body : CaseBody dyn) (batch : RecordBatch) (return_type : DataType)
    (b : ResultBuilder) (r : remainder) (base_values : array)
    : option (Result (ColumnarValue + ResultBuilder * remainder)) :=
  let base_null_count := null_count (cells base_values) in
  if bool_decide (base_null_count = 0) then Some (Ok (inr (b, r)))
  else
    base_not_nulls ←? Some (arrow_result (arrow_is_not_null base_values));
    let base_all_null := bool_decide (base_null_count = num_rows (r_batch r)) in
    b ←? match else_expr body with
         | Some e =>
             e ←? Some (try_cast e (schema_of batch) return_type);
             if base_all_null then
               nulls_value ←? evaluate e (r_batch r); add_branch_result b (r_rows r) nulls_value
             else
               nulls_filter ←? Some (arrow_result (arrow_not base_not_nulls));
               nulls_batch ←? Some (filter_record_batch (r_batch r) nulls_filter);
               nulls_rows ←? Some (arrow_result (arrow_filter (r_rows r) nulls_filter));
               nulls_value ←? evaluate e nulls_batch;
               add_branch_result b nulls_rows nulls_value
         | None => Some (Ok b)
         end;
    if base_all_null then v ←? Some (finish b); Some (Ok (inl v))
    else r ←? Some (filter_remainder r base_not_nulls); Some (Ok (inr (b, r))).

Definition case_when_with_expr (body : CaseBody dyn) (batch : RecordBatch) (return_type : DataType)
    : option (Result ColumnarValue) :=
  let b := builder_new return_type (num_rows batch) in
  base ← expr body;
  base_value ←? evaluate base batch;
  let base_values := into_array base_value (num_rows batch) in
  let r := mkRemainder (row_numbers (num_rows batch)) batch (Some base_values) in
  start ←? null_base_rows body batch return_type b r base_values;
  match start with
  | inl v => Some (Ok v)
  | inr (b, r) =>
      res ←? branches when_equals (bool_decide (is_Some (else_expr body))) (when_then_expr body) b r;
      otherwise body (schema_of batch) return_type res
  end.

(** ** Rows and positions *)

Section Positions.
Variable n : nat.

(** The positions of a batch that a predicate selects. *)
Definition at_ (O : nat → bool) : list nat := filter (λ i, O i = true) (seq 0 n).

Lemma elem_of_at O i : i ∈ at_ O ↔ i < n ∧ O i = true.
Proof. unfold at_. rewrite list_elem_of_filter, elem_of_seq. intuition lia. Qed.

Lemma at_nodup O : NoDup (at_ O).
Proof. apply NoDup_filter, NoDup_seq. Qed.

Lemma at_ext O O' : (∀ i, i < n → O i = O' i) → at_ O = at_ O'.
Proof. intros HO. apply list_filter_iff_in. intros i Hi%elem_of_seq. by rewrite HO by lia. Qed.

Lemma at_all O : (∀ i, i < n → O i = true) → at_ O = seq 0 n.
Proof.
  intros HO. rewrite (at_ext O (λ _, true)) by done. unfold at_. induction (seq 0 n) as [|i l IH]; [done|].
  rewrite filter_cons, decide_True by done. by rewrite IH.
Qed.

Lemma mask_at {A} (p O : nat → bool) (g : nat → A) :
  mask_list (map p (at_ O)) (map g (at_ O)) = map g (at_ (λ i, O i && p i)).
Proof.
  rewrite mask_list_map, mask_list_filter. f_equal. unfold at_. rewrite list_filter_filter.
  apply list_filter_iff. intros i. rewrite andb_true_iff. tauto.
Qed.

Lemma at_le O : length (at_ O) ≤ n.
Proof. unfold at_. etrans; [apply length_filter|]. by rewrite length_seq. Qed.

Lemma at_full O : length (at_ O) = n → ∀ i, i < n → O i = true.
Proof.
  intros Hl i Hi. apply not_false_iff_true. intros HO.
  enough (length (at_ O) < length (seq 0 n)) by (rewrite length_seq in *; lia).
  unfold at_. clear Hl. assert (i ∈ seq 0 n) as Hin by (apply elem_of_seq; lia).
  induction (seq 0 n) as [|j l IH]; [by apply elem_of_nil in Hin|]. rewrite filter_cons.
  apply elem_of_cons in Hin as [<-|Hin].
  - rewrite decide_False by (by rewrite HO). cbn. pose proof (length_filter (λ i, O i = true) l). lia.
  - case_decide; cbn; specialize (IH Hin); lia.
Qed.

Lemma at_or O R :
  (∀ i, i < n → R i = true → O i = false) → length (at_ (λ i, O i || R i)) = length (at_ O) + length (at_ R).
Proof.
  unfold at_. intros HR. assert (∀ i, i ∈ seq 0 n → R i = true → O i = false) as HR'.
  { intros i Hi%elem_of_seq. apply HR. lia. }
  clear HR. induction (seq 0 n) as [|j l IH]; [done|]. rewrite !filter_cons.
  specialize (IH ltac:(intros i Hi; apply HR'; by right)). specialize (HR' j ltac:(by left)).
  repeat case_decide; cbn; rewrite ?IH; destruct (O j), (R j); try done; try lia.
Qed.

End Positions.

(** Merging partial results whose rows are known. *)
Lemma merge_cells_rows (ix : nat → option nat) (g : nat → option value) ps qs :
  NoDup ps →
  (∀ k, k < length qs → qs !! k = Some (map g (filter (λ i, ix i = Some k) ps))) →
  (∀ i k, i ∈ ps → ix i = Some k → k < length qs) →
  merge_cells qs (map ix ps) = Some (map (λ i, match ix i with Some _ => g i | None => None end) ps).
Proof.
  intros Hnd. revert qs. induction Hnd as [|i ps Hi Hnd IH]; intros qs Hq Hix; [done|].
  cbn [map merge_cells]. destruct (ix i) as [k|] eqn:Ei.
  - assert (k < length qs) as Hk by (eapply Hix; [by left|done]).
    rewrite (Hq k Hk). rewrite filter_cons, decide_True by done. cbn [map].
    rewrite IH; [done| |].
    + intros j Hj. rewrite length_insert in Hj. destruct (decide (j = k)) as [->|Hne].
      * by rewrite list_lookup_insert_eq.
      * rewrite list_lookup_insert_ne, Hq by done. rewrite filter_cons, decide_False by congruence. done.
    + intros j k' Hj Hk'. rewrite length_insert. eapply Hix; [by right|done].
  - rewrite IH; [done| |].
    + intros j Hj. rewrite Hq by done. by rewrite filter_cons, decide_False by congruence.
    + intros j k' Hj Hk'. eapply Hix; [by right|done].
Qed.

Lemma set_rows_ok check k (g : nat → Z) n ps :
  NoDup ps → (∀ i, i ∈ ps → i < n) → (check = true → ∀ i, i ∈ ps → g i = NONE_VALUE) →
  set_rows check k (map Z.of_nat ps) (tab n g) =
    Some (Ok (tab n (λ i, if decide (i ∈ ps) then k else g i))).
Proof.
  intros Hnd. revert g. induction Hnd as [|i ps Hi Hnd IH]; intros g Hlt Hnone; cbn [map set_rows].
  { do 2 f_equal. }
  rewrite Nat2Z.id, vec_get_tab by (apply Hlt; by left). cbn [mbind option_bind].
  destruct (check && bool_decide (g i ≠ NONE_VALUE)) eqn:Ec.
  { apply andb_true_iff in Ec as [Ec Hg%bool_decide_eq_true]. destruct Hg. apply Hnone; [done|by left]. }
  rewrite vec_set_tab by (apply Hlt; by left). cbn [mbind option_bind]. rewrite IH.
  - do 2 f_equal. apply tab_ext. intros j Hj. repeat case_decide; try done; set_solver.
  - intros j Hj. apply Hlt. by right.
  - intros Hc j Hj. rewrite decide_False by (by intros ->). apply Hnone; [done|by right].
Qed.

(** ** The result builder

    [F i] is the value row [i] is to have; the builder holds it for the rows of [A]. *)

Section Builder.
Context `{!ArrowCells, !ArrowOk}.
Variables (n : nat) (ty : DataType) (F : nat → option value).
Hypotheses (Hn : 0 < n) (Hu32 : (Z.of_nat n < 2 ^ 32)%Z) (HF : ∀ i, i < n → has_type ty (F i)).

Definition encoded (ix : option nat) : Z := match ix with Some k => Z.of_nat k | None => NONE_VALUE end.

Definition holds_rows (A : nat → bool) (st : ResultState) : Prop :=
  match st with
  | Empty => ∀ i, i < n → A i = false
  | Partial arrays indices =>
      arrays ≠ [] ∧ Forall (λ a, array_type a = ty) arrays ∧ length arrays ≤ length (at_ n A) ∧
      ∃ ix : nat → option nat,
        indices = tab n (λ i, encoded (ix i)) ∧
        (∀ i, i < n → A i = bool_decide (is_Some (ix i))) ∧
        (∀ i k, i < n → ix i = Some k → k < length arrays) ∧
        ∀ k, k < length arrays →
          cells <$> arrays !! k = Some (map F (filter (λ i, ix i = Some k) (seq 0 n)))
  | Complete v => (∀ i, i < n → A i = true) ∧ fits n ty v ∧ spread n v = tab n F
  end.

Definition built (A : nat → bool) (b : ResultBuilder) : Prop :=
  row_count b = n ∧ rb_type b = ty ∧ holds_rows A (state b).

(** The array of row numbers of the selected rows. *)
Definition numbers (O : nat → bool) : array :=
  OtherArray "UInt32" (map (λ i, Some (Z.of_nat i)) (at_ n O)).

Lemma numbers_len O : array_len (numbers O) = length (at_ n O).
Proof. apply length_map. Qed.

Lemma numbers_no_null O : null_count (cells (numbers O)) = 0.
Proof.
  unfold null_count. cbn. rewrite map_map. induction (at_ n O) as [|i l IH]; [done|].
  cbn [map]. by rewrite filter_cons, decide_False by done.
Qed.

Lemma numbers_values O : u32_values (numbers O) = Some (map Z.of_nat (at_ n O)).
Proof. cbn. by rewrite map_map. Qed.

Lemma encoded_inv ix : (∀ k, ix = Some k → (Z.of_nat k < NONE_VALUE)%Z) → index_of (encoded ix) = ix.
Proof.
  intros Hk. unfold index_of. destruct ix as [k|]; cbn; [|by rewrite decide_True].
  rewrite decide_False by (specialize (Hk k eq_refl); lia). by rewrite Nat2Z.id.
Qed.

Lemma first_partial_ok A R a rc bty :
  (∀ i, i < n → A i = false) → rc = n → bty = ty → 0 < length (at_ n R) →
  array_type a = ty → cells a = map F (at_ n R) →
  ∃ b', add_partial_result (mkBuilder bty rc Empty) (numbers R) a = Some (Ok b') ∧ built (λ i, A i || R i) b'.
Proof.
  intros HA -> -> HRn Hty Ha. unfold add_partial_result. rewrite numbers_no_null, numbers_values.
  cbn [mbind option_bind negb bool_decide decide_rel state row_count]. rewrite replicate_tab.
  rewrite set_rows_ok; [|apply at_nodup|intros i Hi; by apply elem_of_at in Hi as [??]|done].
  cbn [try_bind]. eexists. split; [done|]. split_and!; [done..|]. cbn.
  split_and!; [done|by repeat constructor| |].
  { rewrite at_or by auto. lia. }
  exists (λ i, if decide (i ∈ at_ n R) then Some 0 else None). split_and!.
  - apply tab_ext. intros i Hi. by case_decide.
  - intros i Hi. rewrite (HA i Hi). cbn. case_decide as Hin; rewrite elem_of_at in Hin.
    + by rewrite (proj2 Hin).
    + destruct (R i); [tauto|done].
  - intros i k Hi. case_decide; [intros [= <-]; lia|done].
  - intros [|k] Hk; [|lia]. cbn. rewrite Ha. do 2 f_equal. apply list_filter_iff_in.
    intros i Hi%elem_of_seq. case_decide as Hin; rewrite elem_of_at in Hin; [naive_solver|].
    split; [|done]. intros HRi. destruct Hin. split; [lia|done].
Qed.

Lemma next_partial_ok A R a arrays indices rc bty :
  holds_rows A (Partial arrays indices) → rc = n → bty = ty →
  (∀ i, i < n → R i = true → A i = false) → 0 < length (at_ n R) →
  array_type a = ty → cells a = map F (at_ n R) →
  ∃ b', add_partial_result (mkBuilder bty rc (Partial arrays indices)) (numbers R) a = Some (Ok b')
    ∧ built (λ i, A i || R i) b'.
Proof.
  intros (Hne & Htys & Hlen & ix & -> & HA & Hix & Hcells) -> -> HR HRn Hty Ha.
  unfold add_partial_result. rewrite numbers_no_null, numbers_values. cbn [state row_count].
  pose proof (at_or n A R HR) as Hor. pose proof (at_le n (λ i, A i || R i)) as Hle.
  unfold index_try_new. rewrite decide_True by lia. rewrite decide_False by (unfold NONE_VALUE; lia).
  cbn [mbind option_bind try_bind negb bool_decide decide_rel].
  rewrite set_rows_ok; [|apply at_nodup|intros i Hi; by apply elem_of_at in Hi as [??]|].
  2: { intros _ i [Hi HRi]%elem_of_at. specialize (HA i Hi). rewrite HR in HA by done. by destruct (ix i). }
  cbn [try_bind]. eexists. split; [done|]. split_and!; [done..|]. cbn.
  split_and!; [by destruct arrays|apply Forall_app; split; [done|by constructor]|rewrite length_app; cbn; lia|].
  exists (λ i, if decide (i ∈ at_ n R) then Some (length arrays) else ix i). split_and!.
  - apply tab_ext. intros i Hi. by case_decide.
  - intros i Hi. rewrite (HA i Hi). case_decide as Hin; rewrite elem_of_at in Hin.
    + rewrite (proj2 Hin), orb_true_r. done.
    + destruct (R i); [tauto|]. by rewrite orb_false_r.
  - intros i k Hi. rewrite length_app. cbn. case_decide; [intros [= <-]; lia|]. intros Hk%Hix; [lia|done].
  - intros k Hk. rewrite length_app in Hk. cbn in Hk. destruct (decide (k = length arrays)) as [->|Hne'].
    + rewrite lookup_app_r, Nat.sub_diag by lia. cbn. rewrite Ha. do 2 f_equal. apply list_filter_iff_in.
      intros i Hi%elem_of_seq. case_decide as Hin; rewrite elem_of_at in Hin; [naive_solver|].
      split; [intros HRi; destruct Hin; split; [lia|done]|]. intros Hk'%Hix; lia.
    + rewrite lookup_app_l, Hcells by lia. do 2 f_equal. apply list_filter_iff_in.
      intros i Hi%elem_of_seq. case_decide as Hin; [|done]. apply elem_of_at in Hin as [Hin HRi].
      specialize (HA i Hin). rewrite HR in HA by done. destruct (ix i); [done|]. split; [done|congruence].
Qed.

(** Rows that have a value: not all of them when others are to be added. *)
Lemma built_open A R b :
  built A b → (∀ i, i < n → R i = true → A i = false) → 0 < length (at_ n R) →
  ∀ v, state b ≠ Complete v.
Proof.
  intros (_ & _ & Hst) HR HRn v Es. rewrite Es in Hst. destruct Hst as [HA _].
  destruct (at_ n R) as [|i l] eqn:El; [cbn in HRn; lia|].
  assert (i ∈ at_ n R) as [Hi HRi]%elem_of_at by (rewrite El; by left).
  specialize (HR i Hi HRi). by rewrite HA in HR.
Qed.

Lemma add_partial_ok A R b a :
  built A b → (∀ i, i < n → R i = true → A i = false) → 0 < length (at_ n R) →
  array_type a = ty → cells a = map F (at_ n R) →
  ∃ b', add_partial_result b (numbers R) a = Some (Ok b') ∧ built (λ i, A i || R i) b'.
Proof.
  intros Hb HR HRn Hty Ha. pose proof (built_open A R b Hb HR HRn) as Hopen.
  destruct b as [bty rc st], Hb as (Hc & Ht & Hst). cbn in *. destruct st; [| |by destruct (Hopen v)].
  - by apply first_partial_ok.
  - by apply next_partial_ok.
Qed.

Lemma at_nonempty O : 0 < length (at_ n O) → ∃ i, i < n ∧ O i = true.
Proof.
  destruct (at_ n O) as [|i l] eqn:E; cbn; [lia|]. intros _. exists i. apply elem_of_at. rewrite E. by left.
Qed.

Lemma add_branch_ok A R b v :
  built A b → (∀ i, i < n → R i = true → A i = false) → 0 < length (at_ n R) →
  fits (length (at_ n R)) ty v → spread (length (at_ n R)) v = map F (at_ n R) →
  ∃ b', add_branch_result b (numbers R) v = Some (Ok b') ∧ built (λ i, A i || R i) b'.
Proof.
  intros Hb HR HRn Hv Hs. unfold add_branch_result. rewrite !numbers_len.
  destruct (decide (length (at_ n R) = n)) as [Hall|Hpart].
  - pose proof (at_full n R Hall) as HRall.
    assert (∃ b', set_complete_result b v = Ok b' ∧ built (λ i, A i || R i) b') as (b' & Hset & Hb').
    { destruct b as [bty rc st], Hb as (Hc & Ht & Hst). cbn in Hc, Ht, Hst. unfold set_complete_result. cbn.
      destruct st as [|arrays indices|w]; cbn in Hst.
      - eexists. split; [done|]. split_and!; [done..|]. cbn. rewrite Hall, at_all in Hs by done.
        split_and!; [intros i Hi; by rewrite HRall, orb_true_r|by rewrite <- Hall|done].
      - destruct Hst as (Hne & _ & Hlen & _). destruct (at_nonempty A) as (i & Hi & HAi).
        { destruct arrays; [done|cbn in Hlen; lia]. }
        by rewrite HR in HAi by auto.
      - destruct Hst as [HA _]. specialize (HA 0 Hn). by rewrite HR in HA by auto. }
    rewrite (proj1 Hb), (bool_decide_true _ Hall). exists b'. split; [|done].
    destruct v as [a|s]; [|by rewrite Hset]. rewrite (proj2 Hv), bool_decide_true by done. cbn. by rewrite Hset.
  - rewrite (proj1 Hb), (bool_decide_false _ Hpart).
    destruct (add_partial_ok A R b (into_array v (length (at_ n R)))) as (b' & Hadd & Hb'); [done..| | |].
    + rewrite into_array_type. apply Hv.
    + by rewrite (cells_into_array _ _ _ Hv).
    + exists b'. split; [|done]. destruct v as [a|s]; [|done].
      by rewrite (proj2 Hv), bool_decide_true by done.
Qed.

Lemma builder_finish_ok A b :
  built A b → (∀ i, i < n → A i = false → F i = None) →
  ∃ v, finish b = Ok v ∧ fits n ty v ∧ spread n v = tab n F.
Proof.
  destruct b as [bty rc st]. intros (Hc & Ht & Hst) Hnull. cbn in *. subst bty rc.
  destruct st as [|arrays indices|w]; cbn in *.
  - eexists. split; [done|]. split; [done|]. cbn. rewrite replicate_tab. apply tab_ext.
    intros i Hi. symmetry. auto.
  - destruct Hst as (Hne & Htys & Hlen & ix & -> & HA & Hix & Hcells).
    pose proof (at_le n A) as Hle.
    assert (map index_of (tab n (λ i, encoded (ix i))) = map ix (seq 0 n)) as ->.
    { unfold tab. rewrite map_map. apply map_ext_in. intros i Hi%in_seq. apply encoded_inv.
      intros k Hk%Hix; [|lia]. unfold NONE_VALUE. lia. }
    erewrite arrow_merge_n_ok; [|done..|].
    2: { apply (merge_cells_rows ix F); [apply NoDup_seq| |].
      - intros k. rewrite length_map. intros Hk%Hcells. by rewrite list_lookup_fmap.
      - intros i k Hi%elem_of_seq. rewrite length_map. apply Hix. lia. }
    eexists. split; [done|]. split; [apply fits_array_of; by rewrite length_map, length_seq|].
    cbn. rewrite cells_array_of.
    + apply map_ext_in. intros i Hi%in_seq. destruct (ix i) eqn:Ei; [done|].
      symmetry. apply Hnull; [lia|]. rewrite HA by lia. by rewrite Ei.
    + apply Forall_fmap, Forall_forall. intros i Hi%elem_of_seq. cbn. destruct (ix i); [|done]. apply HF. lia.
  - destruct Hst as (_ & Hv & Hs). eauto.
Qed.

End Builder.

(** ** CASE on one row *)

(** The first branch whose condition is true, or ELSE; later conditions and the
    results of other branches are not evaluated.  [None] is an error. *)
Fixpoint case_row {X} (l : list ((X → option (option bool)) * (X → option (option value))))
    (otherwise : X → option (option value)) (x : X) : option (option value) :=
  match l with
  | [] => otherwise x
  | (when, then_) :: l => c ← when x; if truthy c then then_ x else case_row l otherwise x
  end.

Section Branches.
Context `{!ArrowCells, !ArrowOk}.
Variables (b0 : RecordBatch) (ty : DataType) (F : nat → option value).
Abbreviation n := (num_rows b0).
Hypotheses (Hn : 0 < n) (Hu32 : (Z.of_nat n < 2 ^ 32)%Z) (HF : ∀ i, i < n → has_type ty (F i)).

(** The rows of the batch that [O] selects, as a batch of their own. *)
Definition part (O : nat → bool) (b : RecordBatch) : Prop :=
  batch_wf b ∧ schema_of b = schema_of b0 ∧ rows b = map (row_at b0) (at_ n O).

Definition rem_ok (base_type : option DataType) (base : nat → option value) (O : nat → bool) (r : remainder)
    : Prop :=
  r_rows r = numbers n O ∧ part O (r_batch r) ∧
  match base_type, r_base r with
  | Some bt, Some a => array_type a = bt ∧ cells a = map base (at_ n O)
  | None, None => True
  | _, _ => False
  end.

Lemma part_rows O b : part O b → num_rows b = length (at_ n O).
Proof. intros (_ & _ & Hr). by rewrite <- length_rows, Hr, length_map. Qed.

Lemma filter_record_batch_ok b m :
  batch_wf b → length m = num_rows b → filter_record_batch b m = Ok (mask_batch (selection m) b).
Proof.
  intros Hwf Hm. unfold filter_record_batch.
  assert (collect (λ a, arrow_result (arrow_filter a m)) (columns b) = Ok (map (mask_array (selection m)) (columns b)))
    as ->.
  { unfold batch_wf in Hwf. induction Hwf as [|a l Ha Hl IH]; [done|]. cbn.
    rewrite arrow_filter_ok by congruence. cbn. by rewrite IH. }
  cbn. unfold mask_batch. do 2 f_equal. symmetry. apply mask_selection_length. by rewrite length_rows.
Qed.

Lemma filter_part O b (w : nat → option bool) :
  part O b →
  ∃ b', filter_record_batch b (map w (at_ n O)) = Ok b' ∧ part (λ i, O i && truthy (w i)) b'.
Proof.
  intros Hp. pose proof (part_rows O b Hp) as Hlen. destruct Hp as (Hwf & Hs & Hr).
  rewrite filter_record_batch_ok; [|done|by rewrite length_map]. eexists. split; [done|]. split_and!.
  - by apply mask_batch_wf.
  - by rewrite schema_of_mask.
  - rewrite rows_mask, Hr by done. unfold selection. rewrite map_map. apply (mask_at n (λ i, truthy (w i))).
Qed.

Lemma filter_numbers O (w : nat → option bool) :
  arrow_filter (numbers n O) (map w (at_ n O)) = inl (numbers n (λ i, O i && truthy (w i))).
Proof.
  rewrite arrow_filter_ok by (by rewrite numbers_len, length_map). unfold numbers. cbn. do 2 f_equal.
  unfold selection. rewrite map_map. apply (mask_at n (λ i, truthy (w i))).
Qed.

Lemma filter_remainder_ok bt base O r (w : nat → option bool) :
  rem_ok bt base O r →
  ∃ r', filter_remainder r (map w (at_ n O)) = Ok r' ∧ rem_ok bt base (λ i, O i && truthy (w i)) r'.
Proof.
  intros (Hrows & Hp & Hb). unfold filter_remainder. destruct (filter_part O _ w Hp) as (b' & -> & Hp').
  cbn [mbind Result_bind]. rewrite Hrows, filter_numbers. cbn [arrow_result mbind Result_bind].
  destruct bt as [bt|], (r_base r) as [a|]; try done; cbn [mbind Result_bind].
  - destruct Hb as [Ht Hc].
    rewrite arrow_filter_ok by (by rewrite <- length_cells, Hc, !length_map). cbn.
    eexists. split; [done|]. split_and!; [done|done|cbn]. rewrite array_type_mask, cells_mask, Hc. split; [done|].
    unfold selection. rewrite map_map. apply (mask_at n (λ i, truthy (w i))).
  - eexists. split; [done|]. by split_and!.
Qed.

Lemma true_count_at (w : nat → option bool) O :
  true_count (map w (at_ n O)) = length (at_ n (λ i, O i && truthy (w i))).
Proof.
  rewrite <- (mask_selection_length _ (map (λ i, i) (at_ n O))) by (by rewrite !length_map).
  unfold selection. rewrite map_map, (mask_at n (λ i, truthy (w i))). apply length_map.
Qed.

Lemma at_and_false O p : length (at_ n (λ i, O i && p i)) = 0 → ∀ i, i < n → O i = true → p i = false.
Proof.
  intros Hl i Hi HO. apply not_true_iff_false. intros Hp.
  assert (i ∈ at_ n (λ i, O i && p i)) as Hin by (apply elem_of_at; by rewrite HO, Hp).
  destruct (at_ n _); [by apply elem_of_nil in Hin|done].
Qed.

Lemma at_and_full O p :
  length (at_ n (λ i, O i && p i)) = length (at_ n O) → ∀ i, i < n → O i = true → p i = true.
Proof.
  intros Hl i Hi HO. apply not_false_iff_true. intros Hp.
  assert (length (at_ n O) = length (at_ n (λ i, O i && p i)) + length (at_ n (λ i, O i && negb (p i)))) as Hsum.
  { rewrite <- at_or.
    - f_equal. apply at_ext. intros j _. by destruct (O j), (p j).
    - intros j _. by destruct (O j), (p j). }
  assert (length (at_ n (λ i, O i && negb (p i))) = 0) as Hz by lia.
  pose proof (at_and_false O (λ i, negb (p i)) Hz i Hi HO) as Hc. cbn in Hc. by rewrite Hp in Hc.
Qed.

Lemma negated_selection_ok (w : nat → option bool) O :
  negated_selection (map w (at_ n O)) = Ok (map (λ i, Some (negb (truthy (w i)))) (at_ n O)).
Proof.
  unfold negated_selection. case_bool_decide as Hnull.
  - rewrite arrow_not_ok. cbn. f_equal. rewrite map_map. apply map_ext_in. intros i Hi.
    destruct (w i) as [c|] eqn:Ei; [done|]. exfalso. apply list_elem_of_In in Hi.
    unfold null_count in Hnull. apply nil_length_inv in Hnull.
    assert (w i ∈ filter (λ c, c = None) (map w (at_ n O))) as Hin.
    { apply list_elem_of_filter. split; [done|]. by apply list_elem_of_fmap_2. }
    rewrite Hnull in Hin. by apply elem_of_nil in Hin.
  - rewrite prep_null_mask_filter_ok, arrow_not_ok. cbn. f_equal. by rewrite !map_map.
Qed.

(** What the loop needs of the conditions and results of the branches. *)
Definition when_ok (when : dyn → remainder → option (Result bools)) bt base
    (w : dyn) (ws : nat → option (option bool)) : Prop :=
  ∀ O r, rem_ok bt base O r → 0 < length (at_ n O) → (∀ i, i ∈ at_ n O → is_Some (ws i)) →
    when w r = Some (Ok (map (λ i, default None (ws i)) (at_ n O))).

Definition then_ok (t : dyn) (ts : nat → option (option value)) : Prop :=
  ∀ O b, part O b → 0 < length (at_ n O) → (∀ i, i ∈ at_ n O → ts i = Some (F i)) →
    ∃ v, evaluate t b = Some (Ok v) ∧ fits (length (at_ n O)) ty v ∧ spread (length (at_ n O)) v = map F (at_ n O).

(** Rows that are neither built nor open are null. *)
Definition settled (A O : nat → bool) : Prop :=
  (∀ i, i < n → O i = true → A i = false) ∧ (∀ i, i < n → A i = false → O i = false → F i = None).

Definition result_ok (v : ColumnarValue) : Prop := fits n ty v ∧ spread n v = tab n F.

Definition loop_ok bt base (otherwise : nat → option (option value)) (res : ColumnarValue + ResultBuilder * remainder)
    : Prop :=
  match res with
  | inl v => result_ok v
  | inr (b, r) => ∃ A O, built n ty F A b ∧ rem_ok bt base O r ∧ settled A O ∧ 0 < length (at_ n O) ∧
      ∀ i, i ∈ at_ n O → otherwise i = Some (F i)
  end.

(** Adding the result of a branch for a part of the open rows. *)
Lemma case_take_rows_ok A O p b v :
  built n ty F A b → settled A O → 0 < length (at_ n (λ i, O i && p i)) →
  fits (length (at_ n (λ i, O i && p i))) ty v →
  spread (length (at_ n (λ i, O i && p i))) v = map F (at_ n (λ i, O i && p i)) →
  ∃ b', add_branch_result b (numbers n (λ i, O i && p i)) v = Some (Ok b')
    ∧ built n ty F (λ i, A i || O i && p i) b' ∧ settled (λ i, A i || O i && p i) (λ i, O i && negb (p i)).
Proof.
  intros Hb [HO Hnull] Hlen Hv Hs.
  destruct (add_branch_ok n ty F Hn Hu32 HF A (λ i, O i && p i) b v) as (b' & Hadd & Hb'); [done| |done..|].
  { intros i Hi [HOi _]%andb_true_iff. auto. }
  exists b'. split_and!; [done..|]. split; intros i Hi.
  - intros [HOi Hp]%andb_true_iff. rewrite (HO i Hi HOi), HOi. by apply negb_true_iff in Hp as ->.
  - specialize (Hnull i Hi). destruct (A i), (O i), (p i); cbn; auto; done.
Qed.

(** A branch that takes all open rows. *)
Lemma take_all_ok A O p b r t ts bt base :
  built n ty F A b → rem_ok bt base O r → settled A O → 0 < length (at_ n O) → then_ok t ts →
  (∀ i, i < n → O i = true → p i = true) → (∀ i, i ∈ at_ n (λ i, O i && p i) → ts i = Some (F i)) →
  ∃ v b' u, evaluate t (r_batch r) = Some (Ok v) ∧ add_branch_result b (r_rows r) v = Some (Ok b')
    ∧ finish b' = Ok u ∧ result_ok u.
Proof.
  intros Hb (Hnums & Hpart & _) HAO Hlen Ht Hall Hts.
  assert (at_ n (λ i, O i && p i) = at_ n O) as Heq.
  { apply at_ext. intros i Hi. destruct (O i) eqn:HOi; [|done]. by rewrite (Hall i Hi HOi). }
  rewrite Heq in Hts. destruct (Ht O _ Hpart Hlen Hts) as (v & Hev & Hfit & Hs).
  destruct (case_take_rows_ok A O p b v) as (b' & Hadd & Hb' & HAO'); [done|done|by rewrite Heq..|].
  destruct (builder_finish_ok n ty F Hn Hu32 HF _ b' Hb') as (u & Hfin & Hu).
  { intros i Hi HA. apply (proj2 HAO' i Hi HA). destruct (O i) eqn:HOi; [|done]. cbn. by rewrite (Hall i Hi HOi). }
  exists v, b', u. split_and!; [done| |done|done].
  rewrite Hnums. replace (numbers n O) with (numbers n (λ i, O i && p i)) by (unfold numbers; by rewrite Heq). done.
Qed.

(** A branch that takes some of them. *)
Lemma take_some_ok A O (w : nat → option bool) b r t ts bt base :
  let p i := truthy (w i) in
  built n ty F A b → rem_ok bt base O r → settled A O → then_ok t ts →
  0 < length (at_ n (λ i, O i && p i)) → (∀ i, i ∈ at_ n (λ i, O i && p i) → ts i = Some (F i)) →
  ∃ b1 v b', filter_record_batch (r_batch r) (map w (at_ n O)) = Ok b1 ∧ evaluate t b1 = Some (Ok v)
    ∧ arrow_filter (r_rows r) (map w (at_ n O)) = inl (numbers n (λ i, O i && p i))
    ∧ add_branch_result b (numbers n (λ i, O i && p i)) v = Some (Ok b')
    ∧ built n ty F (λ i, A i || O i && p i) b' ∧ settled (λ i, A i || O i && p i) (λ i, O i && negb (p i)).
Proof.
  intros p Hb (Hnums & Hpart & _) HAO Ht Hlen Hts.
  destruct (filter_part O _ w Hpart) as (b1 & Hb1 & Hp1).
  destruct (Ht _ _ Hp1 Hlen Hts) as (v & Hev & Hfit & Hs).
  destruct (case_take_rows_ok A O p b v) as (b' & Hadd & Hb' & HAO'); [done..|].
  exists b1, v, b'. rewrite Hnums, filter_numbers. done.
Qed.

Lemma some_open O p :
  length (at_ n (λ i, O i && p i)) ≠ length (at_ n O) → 0 < length (at_ n (λ i, O i && negb (p i))).
Proof.
  intros Hall. apply Nat.neq_0_lt_0. intros Hz. apply Hall. f_equal. apply at_ext. intros i Hi.
  destruct (O i) eqn:HOi; [|done]. pose proof (at_and_false O (λ i, negb (p i)) Hz i Hi HOi) as Hc.
  cbn in *. by destruct (p i).
Qed.

(** The result when the open rows are null. *)
Lemma finish_open_ok A O b :
  built n ty F A b → settled A O → (∀ i, i ∈ at_ n O → F i = None) →
  ∃ v, finish b = Ok v ∧ result_ok v.
Proof.
  intros Hb HAO Hnull. apply (builder_finish_ok n ty F Hn Hu32 HF A b Hb). intros i Hi HA.
  destruct (O i) eqn:HOi; [|by apply (proj2 HAO)]. apply Hnull. by apply elem_of_at.
Qed.

Lemma branches_ok when bt base has_else l sems otherwise A O b r :
  Forall2 (λ wt ws, when_ok when bt base wt.1 ws.1 ∧ then_ok wt.2 ws.2) l sems →
  (has_else = false → ∀ i, otherwise i = Some None) →
  built n ty F A b → rem_ok bt base O r → settled A O → 0 < length (at_ n O) →
  (∀ i, i ∈ at_ n O → case_row sems otherwise i = Some (F i)) →
  ∃ res, branches when has_else l b r = Some (Ok res) ∧ loop_ok bt base otherwise res.
Proof.
  intros Hl Helse. revert A O b r.
  induction Hl as [|[w t] [ws ts] l sems [Hw Ht] Hl IH]; intros A O b r Hb Hr HAO Hlen Hrow.
  { exists (inr (b, r)). split; [done|]. exists A, O. done. }
  cbn [fst snd] in Hw, Ht. cbn [branches]. set (wv := λ i, default None (ws i)). set (p := λ i, truthy (wv i)).
  assert (Hcase : ∀ i, i ∈ at_ n O → is_Some (ws i) ∧
    if p i then ts i = Some (F i) else case_row sems otherwise i = Some (F i)).
  { intros i Hi. specialize (Hrow i Hi). cbn in Hrow. unfold p, wv.
    apply bind_Some in Hrow as (c & -> & Hc). cbn. split; [eauto|]. by destruct (truthy c). }
  rewrite (Hw O r Hr Hlen) by (intros i Hi; by apply Hcase). fold wv. cbn [try_bind].
  rewrite true_count_at, (part_rows O _ (proj1 (proj2 Hr))).
  change (length (at_ n (λ i, O i && truthy (wv i)))) with (length (at_ n (λ i, O i && p i))).
  assert (Hthen : ∀ i, i ∈ at_ n (λ i, O i && p i) → ts i = Some (F i)).
  { intros i [Hi [HOi Hp]%andb_true_iff]%elem_of_at. destruct (Hcase i) as [_ Hc]; [by apply elem_of_at|].
    by rewrite Hp in Hc. }
  assert (Hrest : ∀ i, i ∈ at_ n O → p i = false → case_row sems otherwise i = Some (F i)).
  { intros i Hi Hp. destruct (Hcase i Hi) as [_ Hc]. by rewrite Hp in Hc. }
  case_bool_decide as Hnone; [|case_bool_decide as Hall].
  - apply (IH A O); try done. intros i Hi. apply Hrest; [done|]. apply elem_of_at in Hi as [Hi HOi].
    by apply (at_and_false O p).
  - destruct (take_all_ok A O p b r t ts bt base) as (v & b' & u & -> & Hadd & Hfin & Hu); [done..| |done|].
    { by apply at_and_full. }
    cbn [try_bind]. rewrite Hadd. cbn [try_bind]. rewrite Hfin. eexists. split; [done|]. done.
  - destruct (take_some_ok A O wv b r t ts bt base) as (b1 & v & b' & -> & Hev & Hf & Hadd & Hb' & HAO');
      [done..|by apply Nat.neq_0_lt_0|done|].
    cbn [try_bind]. rewrite Hf. cbn [arrow_result try_bind]. rewrite Hev. cbn [try_bind]. rewrite Hadd. cbn [try_bind].
    assert (Hrest' : ∀ i, i ∈ at_ n (λ i, O i && negb (p i)) → case_row sems otherwise i = Some (F i)).
    { intros i [Hi [HOi Hp%negb_true_iff]%andb_true_iff]%elem_of_at. apply Hrest; [by apply elem_of_at|done]. }
    destruct (negb has_else && bool_decide (l = [])) eqn:Elast.
    + apply andb_true_iff in Elast as [Eelse%negb_true_iff ->%bool_decide_eq_true]. inversion Hl; subst sems.
      destruct (finish_open_ok _ _ b' Hb' HAO') as (u & -> & Hu).
      { intros i Hi. specialize (Hrest' i Hi). cbn in Hrest'. rewrite Helse in Hrest' by done. by injection Hrest'. }
      eexists. split; [done|]. done.
    + rewrite negated_selection_ok. cbn [try_bind].
      destruct (filter_remainder_ok bt base O r (λ i, Some (negb (truthy (wv i)))) Hr) as (r' & -> & Hr').
      apply (IH _ _ _ _ Hb' Hr' HAO'); [by apply some_open|done].
Qed.

(** Expressions as branches. *)

Lemma part_computes d dty f O b g :
  batch_wf b0 → computes (schema_of b0) d dty f → part O b → 0 < length (at_ n O) →
  (∀ i, i ∈ at_ n O → f (row_at b0 i) = Some (g i)) →
  ∃ v, evaluate d b = Some (Ok v) ∧ fits (length (at_ n O)) dty v
    ∧ spread (length (at_ n O)) v = map g (at_ n O).
Proof.
  intros Hwf [_ Hc] Hp Hlen Hg. pose proof (part_rows O b Hp) as Hrows. destruct Hp as (Hwf' & Hs & Hr).
  rewrite <- Hrows in *. pose proof (at_le n O). apply Hc; [done..|lia|].
  rewrite Hr, mapM_map. by apply mapM_total.
Qed.

Lemma then_computes t ft :
  batch_wf b0 → computes (schema_of b0) t ty ft → then_ok t (λ i, ft (row_at b0 i)).
Proof. intros Hwf Hc O b Hp Hlen Hts. by apply (part_computes t ty ft O b F). Qed.

Lemma when_holds_ok w fw bt base :
  batch_wf b0 → computes (schema_of b0) w DBoolean fw →
  when_ok when_holds bt base w (λ i, cell_bool <$> fw (row_at b0 i)).
Proof.
  intros Hwf Hc O r (_ & Hp & _) Hlen Hws. unfold when_holds.
  destruct (part_computes w DBoolean fw O (r_batch r) (λ i, default None (fw (row_at b0 i)))) as (v & -> & Hv & Hs);
    [done..| |].
  { intros i Hi. specialize (Hws i Hi). rewrite fmap_is_Some in Hws. by destruct Hws as [c ->]. }
  cbn [try_bind]. rewrite (part_rows O _ Hp), as_bools_cells by (rewrite into_array_type; apply Hv).
  rewrite (cells_into_array _ _ _ Hv), Hs, map_map. do 2 f_equal. apply map_ext_in.
  intros i _. by destruct (fw (row_at b0 i)).
Qed.

Lemma zip_with_map {A B C D} (f : A → B → C) (g : D → A) (h : D → B) l :
  zip_with f (map g l) (map h l) = map (λ x, f (g x) (h x)) l.
Proof. induction l as [|x l IH]; cbn; [done|]. by rewrite IH. Qed.

Lemma when_equals_ok w fw bt base :
  batch_wf b0 → computes (schema_of b0) w bt fw →
  when_ok when_equals (Some bt) base w (λ i, v ← fw (row_at b0 i); Some (eq_cell v (base i))).
Proof.
  intros Hwf Hc O r (_ & Hp & Hb) Hlen Hws. unfold when_equals.
  destruct (r_base r) as [a|]; [|done]. destruct Hb as [Ht Ha]. cbn [mbind option_bind].
  destruct (part_computes w bt fw O (r_batch r) (λ i, default None (fw (row_at b0 i)))) as (v & -> & Hv & Hs);
    [done..| |].
  { intros i Hi. specialize (Hws i Hi). by destruct (fw (row_at b0 i)), Hws. }
  cbn [try_bind]. rewrite Ht.
  rewrite (Datum.compare_with_eq_ok _ bt v a Hv Ht) by (by rewrite <- length_cells, Ha, length_map).
  rewrite Hs, Ha, zip_with_map. do 2 f_equal. apply map_ext_in. intros i Hi%list_elem_of_In.
  specialize (Hws i Hi). by destruct (fw (row_at b0 i)), Hws.
Qed.

Lemma row_numbers_ok : row_numbers n = numbers n (λ _, true).
Proof.
  unfold row_numbers, numbers. rewrite Z.mod_small by lia. f_equal. rewrite at_all by done.
  unfold seqZ. rewrite Nat2Z.id, map_map. apply map_ext. intros i. f_equal. lia.
Qed.

Lemma part_all : batch_wf b0 → part (λ _, true) b0.
Proof. intros Hwf. split_and!; [done..|]. by rewrite at_all. Qed.

Lemma settled_start : settled (λ _, false) (λ _, true).
Proof. done. Qed.

Lemma built_start : built n ty F (λ _, false) (builder_new ty n).
Proof. done. Qed.

End Branches.

Lemma case_row_ext {X Y} l l' e e' (x : X) (y : Y) :
  Forall2 (λ p q, p.1 x = q.1 y ∧ p.2 x = q.2 y) l l' → e x = e' y → case_row l e x = case_row l' e' y.
Proof.
  intros Hl He. induction Hl as [|[w t] [w' t'] l l' [Hw Ht] Hl IH]; [done|]. cbn in *.
  rewrite Hw. destruct (w' y) as [c|]; [|done]. cbn. by destruct (truthy c).
Qed.

Lemma case_row_values {X} (P : option value → Prop) l e (x : X) c :
  Forall (λ wt, ∀ c, wt.2 x = Some c → P c) l → (∀ c, e x = Some c → P c) → case_row l e x = Some c → P c.
Proof.
  intros Hl He. induction Hl as [|[w t] l Ht Hl IH]; cbn in *; [apply He|].
  destruct (w x) as [b|]; [|done]. cbn. destruct (truthy b); auto.
Qed.

(** ** CASE over a batch *)

(** The meaning of ELSE: null when there is none. *)
Definition else_row (schema : list DataType) (ty : DataType) (e : option dyn) (fe : row → option (option value))
    : Prop :=
  match e with Some e => computes schema e ty fe | None => ∀ r, fe r = Some None end.

(** The branches of a body and their meaning. *)
Definition branch_rows (schema : list DataType) (wty ty : DataType) (l : list (dyn * dyn))
    (sems : list ((row → option (option value)) * (row → option (option value)))) : Prop :=
  Forall2 (λ wt fs, computes schema wt.1 wty fs.1 ∧ computes schema wt.2 ty fs.2) l sems.

(** CASE WHEN condition THEN ... *)
Definition no_expr_row (sems : list ((row → option (option value)) * (row → option (option value))))
    (fe : row → option (option value)) : row → option (option value) :=
  case_row (map (λ fs : (row → option (option value)) * (row → option (option value)),
                   (λ r, cell_bool <$> fs.1 r, fs.2)) sems) fe.

(** CASE base WHEN value THEN ...; a null base takes ELSE. *)
Definition with_expr_row (fb : row → option (option value))
    (sems : list ((row → option (option value)) * (row → option (option value))))
    (fe : row → option (option value)) (r : row) : option (option value) :=
  base ← fb r;
  match base with
  | None => fe r
  | Some _ => case_row (map (λ fs : (row → option (option value)) * (row → option (option value)),
                               (λ r, v ← fs.1 r; Some (eq_cell v base), fs.2)) sems) fe r
  end.

Section Batch.
Context `{!ArrowCells, !ArrowOk}.
Variables (b0 : RecordBatch) (ty wty : DataType).
Abbreviation n := (num_rows b0).
Hypotheses (Hwf : batch_wf b0) (Hn : 0 < n) (Hu32 : (Z.of_nat n < 2 ^ 32)%Z).
Variables (body : CaseBody dyn) (fe : row → option (option value))
  (sems : list ((row → option (option value)) * (row → option (option value)))).
Hypotheses (Hsems : branch_rows (schema_of b0) wty ty (when_then_expr body) sems)
  (Helse : else_row (schema_of b0) ty (else_expr body) fe).

Lemma else_typed i c : i < n → fe (row_at b0 i) = Some c → has_type ty c.
Proof.
  intros Hi. unfold else_row in Helse. destruct (else_expr body) as [e|].
  - by apply (computes_typed (schema_of b0) e).
  - rewrite Helse. by intros [= <-].
Qed.

Lemma thens_typed i (g : (row → option (option value)) * (row → option (option value)) →
                         (row → option (option bool)) * (row → option (option value))) :
  i < n → (∀ fs, (g fs).2 = fs.2) →
  Forall (λ wt : (row → option (option bool)) * (row → option (option value)),
    ∀ c, wt.2 (row_at b0 i) = Some c → has_type ty c) (map g sems).
Proof.
  intros Hi Hg. apply Forall_fmap. unfold branch_rows in Hsems.
  induction Hsems as [|[w t] [fw ft] l l' [_ Ht] _ IH]; [by constructor|].
  constructor; [|apply IH; by inversion Hsems].
  intros c. cbn. rewrite Hg. by apply (computes_typed (schema_of b0) t).
Qed.

(** ELSE on the rows the branches left open. *)
Lemma otherwise_ok F bt base res :
  (∀ i, i < n → has_type ty (F i)) →
  loop_ok b0 ty F bt base (λ i, fe (row_at b0 i)) res →
  ∃ v, otherwise body (schema_of b0) ty res = Some (Ok v) ∧ result_ok b0 ty F v.
Proof.
  intros HF. destruct res as [v|[b r]]; [by exists v|]. intros (A & O & Hb & Hr & HAO & Hlen & Hrow).
  unfold otherwise, else_row in *. destruct (else_expr body) as [e|].
  - unfold try_cast. rewrite (proj1 Helse). cbn [mbind Result_bind]. rewrite decide_True by done. cbn [try_bind].
    destruct (take_all_ok b0 ty F Hn Hu32 HF A O (λ _, true) b r e (λ i, fe (row_at b0 i)) bt base)
      as (v & b' & u & -> & Hadd & Hfin & Hu); [done..|by apply then_computes|done| |].
    { intros i [Hi [HOi _]%andb_true_iff]%elem_of_at. apply Hrow. by apply elem_of_at. }
    cbn [try_bind]. rewrite Hadd. cbn [try_bind]. rewrite Hfin. eauto.
  - cbn [try_bind]. destruct (finish_open_ok b0 ty F Hn Hu32 HF A O b Hb HAO) as (u & -> & Hu); [|eauto].
    intros i Hi. specialize (Hrow i Hi). cbn in Hrow. rewrite Helse in Hrow. by injection Hrow.
Qed.

Lemma else_null_ok : bool_decide (is_Some (else_expr body)) = false → ∀ i, fe (row_at b0 i) = Some None.
Proof.
  unfold else_row in Helse. intros Hnone i. destruct (else_expr body); [|done].
  by rewrite bool_decide_true in Hnone by eauto.
Qed.

Lemma values_at (f : row → option (option value)) vs :
  mapM f (rows b0) = Some vs →
  ∃ F, vs = tab n F ∧ ∀ i, i < n → f (row_at b0 i) = Some (F i).
Proof.
  intros Hvs. exists (λ i, default None (vs !! i)). apply mapM_Some in Hvs.
  pose proof (Forall2_length _ _ _ Hvs) as Hl. rewrite length_rows in Hl. split.
  - apply list_eq. intros i. destruct (decide (i < n)) as [Hi|Hi].
    + rewrite lookup_tab by done. by destruct (lookup_lt_is_Some_2 vs i ltac:(lia)) as [v ->].
    + rewrite !lookup_ge_None_2; rewrite ?length_tab; (done || lia).
  - intros i Hi. destruct (lookup_lt_is_Some_2 vs i ltac:(lia)) as [v Hv]. rewrite Hv. cbn.
    by eapply Forall2_lookup_lr in Hvs; [|apply lookup_tab|].
Qed.

Lemma case_when_no_expr_ok vs :
  wty = DBoolean → mapM (no_expr_row sems fe) (rows b0) = Some vs →
  ∃ v, case_when_no_expr body b0 ty = Some (Ok v) ∧ fits n ty v ∧ spread n v = vs.
Proof.
  intros Hw (F & -> & Hrow)%values_at.
  assert (HF : ∀ i, i < n → has_type ty (F i)).
  { intros i Hi. specialize (Hrow i Hi). revert Hrow. apply case_row_values; [by apply thens_typed|].
    intros c. by apply else_typed. }
  unfold case_when_no_expr.
  destruct (branches_ok b0 ty F Hn Hu32 HF when_holds None (λ _, None)
    (bool_decide (is_Some (else_expr body))) (when_then_expr body)
    (map (λ fs, (λ i, cell_bool <$> fs.1 (row_at b0 i), λ i, fs.2 (row_at b0 i))) sems)
    (λ i, fe (row_at b0 i)) (λ _, false) (λ _, true) (builder_new ty n)
    (mkRemainder (row_numbers n) b0 None)) as (res & -> & Hres).
  - apply Forall2_fmap_r. eapply Forall2_impl; [exact Hsems|]. intros [w t] [fw ft] [Hw' Ht]. cbn in *. subst wty.
    split; [by apply when_holds_ok|by apply then_computes].
  - apply else_null_ok.
  - apply built_start.
  - split_and!; [by apply row_numbers_ok|by apply part_all|done].
  - apply settled_start.
  - by rewrite at_all, length_seq.
  - intros i [Hi _]%elem_of_at. rewrite <- (Hrow i Hi). apply case_row_ext; [|done].
    apply Forall2_fmap. by apply Forall_Forall2_diag, Forall_true.
  - cbn [try_bind]. by apply (otherwise_ok F None (λ _, None)).
Qed.

(** ** The form with a base expression *)

Lemma rem_ok_ext bt base O O' r : (∀ i, i < n → O i = O' i) → rem_ok b0 bt base O r → rem_ok b0 bt base O' r.
Proof.
  intros HO (Hnums & (Hw & Hs & Hr) & Hb). unfold rem_ok, part, numbers in *.
  rewrite <- !(at_ext n O O' HO). done.
Qed.

Lemma null_count_at (base : nat → option value) O :
  null_count (map base (at_ n O)) = length (at_ n (λ i, O i && bool_decide (base i = None))).
Proof.
  unfold at_. rewrite (list_filter_iff (λ i, O i && bool_decide (base i = None) = true)
    (λ i, O i = true ∧ base i = None)).
  2: { intros i. rewrite andb_true_iff, bool_decide_eq_true. done. }
  unfold null_count. induction (seq 0 n) as [|i l IH]; [done|]. rewrite !filter_cons.
  destruct (decide (O i = true)) as [HO|HO]; [|rewrite decide_False by tauto; done].
  cbn [map]. rewrite filter_cons. destruct (decide (base i = None)).
  - rewrite decide_True by done. cbn. by rewrite IH.
  - rewrite decide_False by tauto. done.
Qed.

Section Base.
Variables (F base : nat → option value) (base_values : array).
Abbreviation isnull := (λ i, bool_decide (base i = None)).
Hypotheses (HF : ∀ i, i < n → has_type ty (F i)).
Hypotheses (Hbt : array_type base_values = wty) (Hbc : cells base_values = map base (seq 0 n)).
Hypotheses (Hnull : ∀ i, i < n → base i = None → fe (row_at b0 i) = Some (F i)).

Lemma start_rem : rem_ok b0 (Some wty) base (λ _, true) (mkRemainder (row_numbers n) b0 (Some base_values)).
Proof.
  split_and!; [by apply row_numbers_ok|by apply part_all|]. cbn. by rewrite at_all.
Qed.

(** ELSE for the rows with a null base, when others remain. *)
Lemma null_else_ok e :
  else_expr body = Some e → 0 < length (at_ n isnull) →
  ∃ b1 v b', filter_record_batch b0 (map (λ i, Some (isnull i)) (seq 0 n)) = Ok b1 ∧ evaluate e b1 = Some (Ok v)
    ∧ arrow_filter (row_numbers n) (map (λ i, Some (isnull i)) (seq 0 n)) = inl (numbers n isnull)
    ∧ add_branch_result (builder_new ty n) (numbers n isnull) v = Some (Ok b')
    ∧ built n ty F isnull b'.
Proof.
  intros He Hlen. unfold else_row in Helse. rewrite He in Helse.
  destruct (take_some_ok b0 ty F Hn Hu32 HF (λ _, false) (λ _, true) (λ i, Some (isnull i)) (builder_new ty n)
    (mkRemainder (row_numbers n) b0 (Some base_values)) e (λ i, fe (row_at b0 i)) (Some wty) base)
    as (b1 & v & b' & Hf & Hev & Hrows & Hadd & Hb' & _);
    [apply built_start|apply start_rem|apply settled_start|by apply then_computes|done| |].
  { intros i [Hi Hp%bool_decide_eq_true]%elem_of_at. by apply Hnull. }
  rewrite at_all in Hf, Hrows by done. exists b1, v, b'. done.
Qed.

Definition null_base_ok (res : ColumnarValue + ResultBuilder * remainder) : Prop :=
  match res with
  | inl v => result_ok b0 ty F v
  | inr (b, r) => ∃ A O, built n ty F A b ∧ rem_ok b0 (Some wty) base O r ∧ settled b0 F A O
      ∧ 0 < length (at_ n O) ∧ ∀ i, i ∈ at_ n O → base i ≠ None
  end.

Lemma all_null_ok :
  (∀ i, i < n → base i = None) →
  ∃ v, (b ←? match else_expr body with
             | Some e =>
                 e ←? Some (try_cast e (schema_of b0) ty);
                 nulls_value ←? evaluate e b0; add_branch_result (builder_new ty n) (row_numbers n) nulls_value
             | None => Some (Ok (builder_new ty n))
             end;
        v ←? Some (finish b); Some (Ok (inl v))) = Some (Ok (inl (B := ResultBuilder * remainder) v))
    ∧ result_ok b0 ty F v.
Proof.
  intros Hall. unfold else_row in Helse. destruct (else_expr body) as [e|].
  - unfold try_cast. rewrite (proj1 Helse). cbn [mbind Result_bind]. rewrite decide_True by done. cbn [try_bind].
    destruct (take_all_ok b0 ty F Hn Hu32 HF (λ _, false) (λ _, true) (λ _, true) (builder_new ty n)
      (mkRemainder (row_numbers n) b0 (Some base_values)) e (λ i, fe (row_at b0 i)) (Some wty) base)
      as (v & b' & u & Hev & Hadd & Hfin & Hu);
      [apply built_start|apply start_rem|apply settled_start|by rewrite at_all, length_seq|by apply then_computes|done| |].
    { intros i [Hi _]%elem_of_at. auto. }
    cbn [r_batch r_rows] in *. rewrite Hev. cbn [try_bind]. rewrite Hadd. cbn [try_bind]. rewrite Hfin. eauto.
  - cbn [try_bind].
    destruct (finish_open_ok b0 ty F Hn Hu32 HF (λ _, false) (λ _, true) (builder_new ty n)) as (u & -> & Hu);
      [apply built_start|apply settled_start| |eauto].
    intros i [Hi _]%elem_of_at. specialize (Hnull i Hi (Hall i Hi)). rewrite Helse in Hnull. congruence.
Qed.

Lemma null_base_rows_ok :
  ∃ res, null_base_rows body b0 ty (builder_new ty n) (mkRemainder (row_numbers n) b0 (Some base_values)) base_values
    = Some (Ok res) ∧ null_base_ok res.
Proof.
  unfold null_base_rows. cbn [r_batch r_rows]. rewrite Hbc, <- (at_all n (λ _, true)), null_count_at by done.
  cbn [andb]. case_bool_decide as Hnone.
  { eexists. split; [done|]. exists (λ _, false), (λ _, true).
    split_and!; [apply built_start|apply start_rem|apply settled_start|by rewrite at_all, length_seq|].
    intros i [Hi _]%elem_of_at.
    by apply (bool_decide_eq_false_1 (base i = None)), (at_and_false b0 (λ _, true) isnull Hnone i Hi). }
  rewrite arrow_is_not_null_ok, Hbc. cbn [arrow_result try_bind]. case_bool_decide as Hall.
  { destruct all_null_ok as (v & Heq & Hv); [|by exists (inl v)].
    intros i Hi. by apply (bool_decide_eq_true_1 (base i = None)), (at_full n isnull Hall). }
  rewrite map_map, arrow_not_ok. cbn [arrow_result].
  replace (map (fmap negb) (map (λ i, Some (bool_decide (base i ≠ None))) (seq 0 n)))
    with (map (λ i, Some (isnull i)) (seq 0 n)).
  2: { rewrite map_map. apply map_ext. intros i. cbn. f_equal. rewrite bool_decide_not. by rewrite negb_involutive. }
  destruct (filter_remainder_ok b0 (Some wty) base (λ _, true) _ (λ i, Some (bool_decide (base i ≠ None))) start_rem)
    as (r & Hr & Hrem). rewrite at_all in Hr by done.
  assert (Hopen : 0 < length (at_ n (λ i, true && negb (isnull i)))).
  { apply (some_open b0 (λ _, true) isnull). rewrite (at_all n (λ _, true)), length_seq by done. exact Hall. }
  apply (rem_ok_ext _ _ _ (λ i, true && negb (isnull i))) in Hrem; [|intros i _; cbn; by rewrite bool_decide_not].
  pose proof null_else_ok as Hsome. pose proof Helse as Hel. unfold else_row in Hel.
  destruct (else_expr body) as [e|] in Hsome, Hel |- *.
  - unfold try_cast. rewrite (proj1 Hel). cbn [mbind Result_bind]. rewrite decide_True by done. cbn [try_bind].
    destruct (Hsome e eq_refl) as (b1 & v & b' & -> & Hev & Hf & Hadd & Hb'); [by apply Nat.neq_0_lt_0|].
    cbn [try_bind]. rewrite Hf. cbn [arrow_result try_bind]. rewrite Hev. cbn [try_bind]. rewrite Hadd. cbn [try_bind].
    rewrite Hr. cbn [try_bind]. eexists. split; [done|]. exists isnull, (λ i, true && negb (isnull i)).
    split_and!; [done..| |done|]; [split; intros i Hi; by case_bool_decide|].
    intros i [Hi Hp%negb_true_iff%bool_decide_eq_false]%elem_of_at. done.
  - cbn [try_bind]. rewrite Hr. cbn [try_bind]. eexists. split; [done|].
    exists (λ _, false), (λ i, true && negb (isnull i)). split_and!; [apply built_start|done| |done|].
    + split; [done|]. intros i Hi _ Hp%negb_false_iff%bool_decide_eq_true.
      specialize (Hnull i Hi Hp). rewrite Hel in Hnull. congruence.
    + intros i [Hi Hp%negb_true_iff%bool_decide_eq_false]%elem_of_at. done.
Qed.

End Base.

Lemma with_expr_typed fb i c : i < n → with_expr_row fb sems fe (row_at b0 i) = Some c → has_type ty c.
Proof.
  intros Hi. unfold with_expr_row. intros ([v|] & _ & Hc)%bind_Some; [|by eapply else_typed].
  revert Hc. apply case_row_values; [by apply thens_typed|]. intros c'. by apply else_typed.
Qed.

Lemma case_when_with_expr_ok d fb vs :
  expr body = Some d → computes (schema_of b0) d wty fb → mapM (with_expr_row fb sems fe) (rows b0) = Some vs →
  ∃ v, case_when_with_expr body b0 ty = Some (Ok v) ∧ fits n ty v ∧ spread n v = vs.
Proof.
  intros Hd Hfb (F & -> & Hrow)%values_at.
  assert (HF : ∀ i, i < n → has_type ty (F i)) by (intros i Hi; by eapply with_expr_typed, Hrow).
  set (base := λ i, default None (fb (row_at b0 i))).
  assert (Hbase : ∀ i, i < n → fb (row_at b0 i) = Some (base i)).
  { intros i Hi. specialize (Hrow i Hi). unfold with_expr_row in Hrow. unfold base.
    by destruct (fb (row_at b0 i)). }
  unfold case_when_with_expr. rewrite Hd. cbn [mbind option_bind].
  destruct (proj2 Hfb b0 (map base (seq 0 n))) as (v & -> & Hv & Hs); [done..| |].
  { unfold rows, tab. rewrite mapM_map. apply mapM_total. intros i Hi%elem_of_seq. apply Hbase. lia. }
  cbn [try_bind]. set (bv := into_array v n).
  destruct (null_base_rows_ok F base bv) as (start & -> & Hstart); [done|..].
  { unfold bv. rewrite into_array_type. apply Hv. }
  { unfold bv. by rewrite (cells_into_array _ _ _ Hv). }
  { intros i Hi Hnull. specialize (Hrow i Hi). unfold with_expr_row in Hrow. by rewrite Hbase, Hnull in Hrow. }
  cbn [try_bind]. destruct start as [u|[b r]]; [by exists u|].
  destruct Hstart as (A & O & Hb & Hr & HAO & Hlen & Hnn).
  destruct (branches_ok b0 ty F Hn Hu32 HF when_equals (Some wty) base
    (bool_decide (is_Some (else_expr body))) (when_then_expr body)
    (map (λ fs, (λ i, v ← fs.1 (row_at b0 i); Some (eq_cell v (base i)), λ i, fs.2 (row_at b0 i))) sems)
    (λ i, fe (row_at b0 i)) A O b r) as (res & -> & Hres); [| |done..| |].
  - apply Forall2_fmap_r. eapply Forall2_impl; [exact Hsems|]. intros [w t] [fw ft] [Hw Ht]. cbn in *.
    split; [by apply when_equals_ok|by apply then_computes].
  - apply else_null_ok.
  - intros i Hi. pose proof (Hnn i Hi) as Hbi. apply elem_of_at in Hi as [Hi _]. rewrite <- (Hrow i Hi).
    unfold with_expr_row. rewrite Hbase by done. cbn. destruct (base i) as [x|] eqn:Ex; [|done].
    apply case_row_ext; [|done]. apply Forall2_fmap, Forall_Forall2_diag, Forall_true.
    intros fs. cbn. by rewrite Ex.
  - cbn [try_bind]. by apply (otherwise_ok F (Some wty) base).
Qed.

End Batch.

End Case.

End Case.
