(* ===== verification/BinaryExpr.v ===== *)
(** * Binary expressions (physical-expr/src/expressions/binary.rs)

    [BinaryExpr::evaluate] with the short circuits of AND and OR, the pre-selection
    that evaluates the right operand of AND only on the rows the left one leaves
    open, the kernels of the other operators, and the result types of
    expr-common/src/type_coercion/binary.rs.  Proved: whichever strategy is taken,
    a batch gets the three-valued AND and OR of its rows, and the cells of the
    kernels for arithmetic, comparison and bitwise operators. *)

From stdpp Require Import base list strings.
From Stdlib Require Import ZArith Lia.
From S2P Require Import Prelude F64 Relation HashUtils Columnar Datum Scatter.

(** What the sources use of Arrow besides the kernels of [Arrow]: bitwise
    operators, regular expressions, concatenation and dictionaries. *)
Class ArrowText := {
  arrow_bitwise : Datum.Operator → array → array → array + string;
  arrow_bitwise_scalar : Datum.Operator → array → value → array + string;
  regexp_is_match : array → array → bool → bools + string;
  regexp_is_match_scalar : array → value → bool → bools + string;
  concat_elements_utf8 : array → array → array + string;
  view_concat : Z → Z → Z + string;
  dictionary_value : DataType → option DataType;
  dictionary_parts : array → option (array * list (option nat));
  dictionary_scalar : ScalarValue → option ScalarValue;
}.

(** The coercion tables that decide the common type of two different types. *)
Class Coercions := {
  unequal_comparison_coercion : DataType → DataType → option DataType;
  regex_coercion : DataType → DataType → option DataType;
  bitwise_coercion : DataType → DataType → option DataType;
  string_concat_coercion : DataType → DataType → option DataType;
  array_coercion : DataType → DataType → option DataType;
  like_coercion : DataType → DataType → option DataType;
  temporal_math_coercion : DataType → DataType → option (DataType * DataType);
  temporal_coercion_strict_timezone : DataType → DataType → option DataType;
  math_decimal_coercion : DataType → DataType → option (DataType * DataType);
  mathematics_numerical_coercion : DataType → DataType → option DataType;
  is_temporal : DataType → bool;
}.

Module Binary.
Import Datum.

(** ** Result types *)

Record Signature := mkSignature { sig_lhs : DataType; sig_rhs : DataType; sig_ret : DataType }.

Definition uniform (t : DataType) : Signature := mkSignature t t t.
Definition comparison_sig (t : DataType) : Signature := mkSignature t t DBoolean.

Definition is_numerical_operators (op : Operator) : bool :=
  match op with Plus | Minus | Multiply | Divide | Modulo => true | _ => false end.

Definition is_date_minus_date (lhs rhs : DataType) : bool :=
  match lhs, rhs with
  | DOther "Date32", DOther "Date32" | DOther "Date64", DOther "Date64" => true
  | _, _ => false
  end.

Definition is_bool_or_null (ty : DataType) : bool :=
  match ty with DBoolean | DOther "Null" => true | _ => false end.

Section Types.
Context `{Arrow, Coercions}.

Definition null_coercion (lhs rhs : DataType) : option DataType :=
  if decide (lhs = DNull) then if can_cast_types DNull rhs then Some rhs else None
  else if decide (rhs = DNull) then if can_cast_types DNull lhs then Some lhs else None
  else None.

(** [comparison_coercion]: equal types need no coercion. *)
Definition comparison_coercion (lhs rhs : DataType) : option DataType :=
  if decide (lhs = rhs) then Some lhs else unequal_comparison_coercion lhs rhs.

(** The kernel that decides the type of an arithmetic result. *)
Definition result_kernel (op : Operator) : option kernel :=
  match op with
  | Plus => Some K_add_wrapping
  | Minus => Some K_sub_wrapping
  | Multiply => Some K_mul_wrapping
  | Divide => Some K_div
  | Modulo => Some K_rem
  | _ => None
  end.

(** The type of an arithmetic result, found by running the kernel on empty arrays. *)
Definition get_result (k : kernel) (lhs rhs : DataType) : Result DataType :=
  let l := Array (array_of lhs []) in
  let r := Array (array_of rhs []) in
  array_type <$> arrow_result (arrow_kernel k l r).

Definition infer (t : option DataType) (f : DataType → Signature) (msg : string) : Result Signature :=
  f <$> ok_or t (Plan msg).

Definition plan_error (r : Result DataType) (msg : string) : Result DataType :=
  match r with Ok t => Ok t | Err _ => Err (Plan msg) end.

Definition arithmetic_signature (k : kernel) (lhs rhs : DataType) : Result Signature :=
  match get_result k lhs rhs with
  | Ok ret => Ok (mkSignature lhs rhs ret)
  | Err _ =>
      match temporal_math_coercion lhs rhs with
      | Some (l, r) =>
          ret ← plan_error (get_result k l r) "Cannot get result type for temporal operation";
          Ok (mkSignature l r ret)
      | None =>
      match temporal_coercion_strict_timezone lhs rhs with
      | Some coerced =>
          ret ← plan_error (get_result k coerced coerced) "Cannot get result type for temporal operation";
          Ok (mkSignature coerced coerced ret)
      | None =>
      match math_decimal_coercion lhs rhs with
      | Some (l, r) =>
          ret ← plan_error (get_result k l r) "Cannot get result type for decimal operation";
          Ok (mkSignature l r ret)
      | None =>
          infer (mathematics_numerical_coercion lhs rhs) uniform "Cannot coerce arithmetic expression to valid types"
      end end end
  end.

Definition signature_inner (op : Operator) (lhs rhs : DataType) : Result Signature :=
  match op with
  | Eq | NotEq | Lt | LtEq | Gt | GtEq | IsDistinctFrom | IsNotDistinctFrom =>
      infer (comparison_coercion lhs rhs) comparison_sig "Cannot infer common argument type for comparison operation"
  | And | Or =>
      if is_bool_or_null lhs && is_bool_or_null rhs then Ok (uniform DBoolean)
      else Err (Plan "Cannot infer common argument type for logical boolean operation")
  | RegexMatch | RegexIMatch | RegexNotMatch | RegexNotIMatch
  | LikeMatch | ILikeMatch | NotLikeMatch | NotILikeMatch =>
      infer (regex_coercion lhs rhs) comparison_sig "Cannot infer common argument type for regex operation"
  | BitwiseAnd | BitwiseOr | BitwiseXor | BitwiseShiftRight | BitwiseShiftLeft =>
      infer (bitwise_coercion lhs rhs) uniform "Cannot infer common type for bitwise operation"
  | StringConcat =>
      infer (string_concat_coercion lhs rhs) uniform "Cannot infer common string type for string concat operation"
  | AtArrow | ArrowAt =>
      infer (match array_coercion lhs rhs with Some t => Some t | None => like_coercion lhs rhs end)
        comparison_sig "Cannot infer common argument type for operation"
  | AtAt => infer (like_coercion lhs rhs) comparison_sig "Cannot infer common argument type for AtAt operation"
  | Minus =>
      if is_date_minus_date lhs rhs then Ok (mkSignature lhs rhs DInt64)
      else arithmetic_signature K_sub_wrapping lhs rhs
  | Plus => arithmetic_signature K_add_wrapping lhs rhs
  | Multiply => arithmetic_signature K_mul_wrapping lhs rhs
  | Divide => arithmetic_signature K_div lhs rhs
  | Modulo => arithmetic_signature K_rem lhs rhs
  | Colon => Ok (mkSignature lhs rhs lhs)
  | IntegerDivide | Arrow_ | LongArrow | HashArrow | HashLongArrow
  | HashMinus | AtQuestion | Question | QuestionAnd | QuestionPipe =>
      Err (NotImplemented "Operator is not yet supported")
  end.

Definition signature (lhs : DataType) (op : Operator) (rhs : DataType) : Result Signature :=
  if bool_decide (lhs = DNull ∧ rhs = DNull) && is_numerical_operators op then Ok (uniform DInt64)
  else match null_coercion lhs rhs with
       | Some coerced =>
           match result_kernel op with
           | Some k =>
               if negb (is_temporal coerced) then
                 ret ← plan_error (get_result k coerced coerced) "Cannot get result type for arithmetic operation";
                 Ok (mkSignature coerced coerced ret)
               else signature_inner op coerced coerced
           | None => signature_inner op coerced coerced
           end
       | None => signature_inner op lhs rhs
       end.

Definition get_result_type (lhs : DataType) (op : Operator) (rhs : DataType) : Result DataType :=
  sig ← signature lhs op rhs; Ok (sig_ret sig).

End Types.

(** ** The kernels of binary/kernels.rs *)

Section Kernels.
Context `{Arrow, ArrowText}.

Definition is_string_type (ty : DataType) : bool :=
  match ty with DUtf8 | DOther "Utf8View" | DOther "LargeUtf8" => true | _ => false end.

Definition is_bitwise_type (ty : DataType) : bool :=
  match ty with
  | DInt32 | DInt64 => true
  | DOther name => bool_decide (name ∈ ["Int8"; "Int16"; "UInt8"; "UInt16"; "UInt32"; "UInt64"])
  | _ => false
  end.

(** [bitwise_and_dyn] and its kin: both operands are downcast to the type of the left. *)
Definition bitwise_dyn (op : Operator) (left right : array) : option (Result array) :=
  if is_bitwise_type (array_type left) then
    if decide (array_type right = array_type left) then Some (arrow_result (arrow_bitwise op left right))
    else panic!
  else Some (Err (Plan "Data type not supported for binary operation on dyn arrays")).

Definition bitwise_dyn_scalar (op : Operator) (a : array) (scalar : ScalarValue) : option (Result array) :=
  if is_bitwise_type (array_type a) then
    match s_value scalar with
    | None => Some (Ok (array_of (array_type a) (replicate (array_len a) None)))
    | Some v =>
        if decide (s_type scalar = array_type a) then
          match arrow_bitwise_scalar op a v with inl r => Some (Ok r) | inr _ => panic! end
        else panic!
    end
  else Some (Err (Plan "Data type not supported for binary operation on dyn arrays")).

(** [not(&array).unwrap()] when the match is negated. *)
Definition negate_match (not_match : bool) (m : bools) : option bools :=
  if not_match then match arrow_not m with inl m => Some m | inr _ => panic! end else Some m.

Definition regex_match_dyn (left right : array) (not_match flag : bool) : option (Result array) :=
  if is_string_type (array_type left) then
    if decide (array_type right = array_type left) then
      m ←? Some (arrow_result (regexp_is_match left right flag));
      m ← negate_match not_match m; Some (Ok (BooleanArray m))
    else panic!
  else Some (Err (Internal "Data type not supported for regex_match_dyn on string array")).

(** [ScalarValue::try_as_str], null as no string. *)
Definition try_as_str (s : ScalarValue) : option value :=
  let s := default s (dictionary_scalar s) in
  if is_string_type (s_type s) then s_value s else None.

Definition regexp_is_match_flag_scalar (left : array) (right : ScalarValue) (not_match flag : bool)
    : option (Result bools) :=
  match try_as_str right with
  | Some pattern =>
      match regexp_is_match_scalar left pattern flag with
      | inl m => m ← negate_match not_match m; Some (Ok m)
      | inr _ => Some (Err (Internal "failed to call 'regex_match_dyn_scalar'"))
      end
  | None => Some (Err (Internal "failed to cast literal value for operation 'regex_match_dyn_scalar'"))
  end.

(** Reading the evaluated dictionary values through the keys. *)
Definition take_iter (values : bools) (keys : list (option nat)) : option bools :=
  mapM (λ k : option nat, match k with None => Some None | Some k => values !! k end) keys.

Definition regex_match_dyn_scalar (left : array) (right : ScalarValue) (not_match flag : bool)
    : option (Result array) :=
  if is_string_type (array_type left) then
    m ←? regexp_is_match_flag_scalar left right not_match flag; Some (Ok (BooleanArray m))
  else match dictionary_parts left with
       | Some (values, keys) =>
           if is_string_type (array_type values) then
             m ←? regexp_is_match_flag_scalar values right not_match flag;
             m ← take_iter m keys; Some (Ok (BooleanArray m))
           else Some (Err (Internal "Data type not supported as a dictionary value type"))
       | None => Some (Err (Internal "Data type not supported for operation 'regex_match_dyn_scalar'"))
       end.

(** [concat_elements_utf8view]: null when an element is null, an error when an
    element gets too long. *)
Fixpoint concat_views (left right : list (option Z)) : list (option Z) + string :=
  match left, right with
  | l :: ls, r :: rs =>
      match (match l, r with
             | Some l, Some r => match view_concat l r with inl c => inl (Some c) | inr msg => inr msg end
             | _, _ => inl None
             end) with
      | inr msg => inr msg
      | inl c => match concat_views ls rs with inl cs => inl (c :: cs) | inr msg => inr msg end
      end
  | _, _ => inl []
  end.

Definition concat_elements_utf8view (left right : list (option Z)) : list (option Z) + string :=
  if decide (length left = length right) then concat_views left right
  else inr "Arrays must have the same length".

Definition concat_elements (left right : array) : option (Result array) :=
  match left, right with
  | StringArray _, StringArray _ | OtherArray "LargeUtf8" _, OtherArray "LargeUtf8" _ =>
      Some (arrow_result (concat_elements_utf8 left right))
  | OtherArray "Utf8View" l, OtherArray "Utf8View" r =>
      Some (OtherArray "Utf8View" <$> arrow_result (concat_elements_utf8view l r))
  | StringArray _, _ | OtherArray "LargeUtf8" _, _ | OtherArray "Utf8View" _, _ => panic!
  | _, _ => Some (Err (Internal "Data type not supported for binary operation 'concat_elements' on string arrays"))
  end.

End Kernels.

(** ** Date subtraction *)

Section Dates.
Context `{Arrow}.

Definition units_per_day (unit : DataType) : option Z :=
  match unit with
  | DOther "Duration(Second)" => Some 86400
  | DOther "Duration(Millisecond)" => Some 86400000
  | DOther "Duration(Microsecond)" => Some 86400000000
  | DOther "Duration(Nanosecond)" => Some 86400000000000
  | _ => None
  end%Z.

Definition duration_to_days (a : array) : Result array :=
  match units_per_day (array_type a), a with
  | Some per_day, OtherArray _ vs => Ok (Int64Array (map (fmap (λ v, Z.quot v per_day)) vs))
  | _, _ => Err (Internal "duration_to_days expected Duration type")
  end.

Definition apply_date_subtraction (lhs rhs : ColumnarValue) : option (Result ColumnarValue) :=
  duration_result ←? apply lhs rhs (run_kernel K_sub_wrapping);
  match duration_result with
  | Array a => int64_array ←? Some (duration_to_days a); Some (Ok (Array int64_array))
  | Scalar scalar =>
      int64_array ←? Some (duration_to_days (to_array_of_size scalar 1));
      int64_scalar ← try_from_array int64_array 0; Some (Ok (Scalar int64_scalar))
  end.

End Dates.

(** ** Short circuits *)

Inductive ShortCircuitStrategy :=
| NoShortCircuit
| ReturnLeft
| ReturnRight
| PreSelection (selection : bools).

(** [n as f32] and the quotient of two [f32]. *)
Definition f32_of (n : nat) : spec_float := binary_normalize 24 128 (Z.of_nat n) 0 false.
Definition f32_div : spec_float → spec_float → spec_float := SFdiv 24 128.

Definition PRE_SELECTION_THRESHOLD : spec_float := f32_div (f32_of 2) (f32_of 10).

Definition check_short_circuit (lhs : ColumnarValue) (op : Operator) : ShortCircuitStrategy :=
  match (match op with And => Some true | Or => Some false | _ => None end) with
  | None => NoShortCircuit
  | Some is_and =>
      if negb (bool_decide (columnar_type lhs = DBoolean)) then NoShortCircuit
      else match lhs with
           | Array (BooleanArray bool_array) =>
               if decide (0 < null_count bool_array) then NoShortCircuit
               else
                 let len := length bool_array in
                 if decide (len = 0) then NoShortCircuit
                 else
                   let tc := true_count bool_array in
                   if is_and then
                     if decide (tc = 0) then ReturnLeft
                     else if decide (tc = len) then ReturnRight
                     else if SFleb (f32_div (f32_of tc) (f32_of len)) PRE_SELECTION_THRESHOLD
                          then PreSelection bool_array
                     else NoShortCircuit
                   else if decide (tc = len) then ReturnLeft
                   else if decide (tc = 0) then ReturnRight
                   else NoShortCircuit
           | Array _ => NoShortCircuit
           | Scalar scalar =>
               match s_value scalar with
               | Some (VBoolean is_true) =>
                   if (is_and && negb is_true) || (negb is_and && is_true) then ReturnLeft else ReturnRight
               | _ => NoShortCircuit
               end
           end
  end.

(** The values of the right operand at the rows the left one selects, false
    elsewhere; without a right array the selected rows are null. *)
Definition pre_selection_scatter `{Arrow} (left_result : bools) (right_result : option bools)
    : option (Result ColumnarValue) :=
  let result_len := length left_result in
  let slices := arrow_slices left_result in
  out ← match right_result with
        | Some right_result => Scatter.fill_gaps (Some false) slices right_result result_len
        | None => Scatter.fill_gaps (Some false) slices (replicate result_len None) result_len
        end;
  Some (Ok (Array (BooleanArray out))).

(** ** Evaluation *)

Section Evaluate.
Context `{Arrow, ArrowText, Coercions, ArrowFilter}.

Definition boolean_op (left right : array) (op : bools → bools → bools + string) : option (Result array) :=
  ll ← as_bools left; rr ← as_bools right;
  Some (BooleanArray <$> arrow_result (op ll rr)).

Definition to_result_type_array (op : Operator) (a : array) (result_type : DataType) : Result array :=
  if decide (array_type a = result_type) then Ok a
  else if is_numerical_operators op then
    match dictionary_value (array_type a) with
    | Some value_type =>
        if decide (value_type = result_type) then arrow_result (arrow_cast a result_type)
        else Err (Internal "Incompatible Dictionary value type with result type of Binary operator")
    | None => Ok a
    end
  else Ok a.

Definition evaluate_array_scalar (op : Operator) (a : array) (scalar : ScalarValue) : option (option (Result array)) :=
  match op with
  | RegexMatch => Some <$> regex_match_dyn_scalar a scalar false false
  | RegexIMatch => Some <$> regex_match_dyn_scalar a scalar false true
  | RegexNotMatch => Some <$> regex_match_dyn_scalar a scalar true false
  | RegexNotIMatch => Some <$> regex_match_dyn_scalar a scalar true true
  | BitwiseAnd | BitwiseOr | BitwiseXor | BitwiseShiftRight | BitwiseShiftLeft =>
      Some <$> bitwise_dyn_scalar op a scalar
  | _ => Some None
  end.

Definition evaluate_with_resolved_args (op : Operator) (left : array) (left_data_type : DataType) (right : array)
    : option (Result array) :=
  match op with
  | IsDistinctFrom | IsNotDistinctFrom | Lt | LtEq | Gt | GtEq | Eq | NotEq
  | Plus | Minus | Multiply | Divide | Modulo | LikeMatch | ILikeMatch
  | NotLikeMatch | NotILikeMatch => panic!
  | And =>
      if decide (left_data_type = DBoolean) then boolean_op left right arrow_and_kleene
      else Some (Err (Internal "Cannot evaluate binary expression"))
  | Or =>
      if decide (left_data_type = DBoolean) then boolean_op left right arrow_or_kleene
      else Some (Err (Internal "Cannot evaluate binary expression"))
  | RegexMatch => regex_match_dyn left right false false
  | RegexIMatch => regex_match_dyn left right false true
  | RegexNotMatch => regex_match_dyn left right true false
  | RegexNotIMatch => regex_match_dyn left right true true
  | BitwiseAnd | BitwiseOr | BitwiseXor | BitwiseShiftRight | BitwiseShiftLeft => bitwise_dyn op left right
  | StringConcat => concat_elements left right
  | AtArrow | ArrowAt | Arrow_ | LongArrow | HashArrow | HashLongArrow | AtAt
  | HashMinus | AtQuestion | Question | QuestionAnd | QuestionPipe
  | IntegerDivide | Colon => Some (Err (NotImplemented "Binary operator is not supported in the physical expr"))
  end.

Definition BinaryExpr_data_type (left : dyn) (op : Operator) (right : dyn) (input_schema : list DataType)
    : Result DataType :=
  lhs ← data_type left input_schema;
  rhs ← data_type right input_schema;
  get_result_type lhs op rhs.

(** The right operand of AND on the rows [selection] leaves open. *)
Definition evaluate_pre_selected (right : dyn) (lhs : ColumnarValue) (selected : bools) (batch : RecordBatch)
    : option (Result ColumnarValue) :=
  batch ←? Some (arrow_result (filter_record_batch batch (selection selected)));
  right_ret ←? evaluate right batch;
  match right_ret with
  | Array a =>
      boolean_array ← as_bools a;
      let tc := true_count boolean_array in
      if decide (tc = length boolean_array) then Some (Ok lhs)
      else if bool_decide (tc = 0) && bool_decide (null_count boolean_array = 0)
      then Some (Ok (Scalar (ScalarBoolean (Some false))))
      else pre_selection_scatter selected (Some boolean_array)
  | Scalar scalar =>
      if decide (s_type scalar = DBoolean) then
        match s_value scalar with
        | Some v => if value_bool v then Some (Ok lhs) else Some (Ok right_ret)
        | None => pre_selection_scatter selected None
        end
      else Some (Err (Internal "Expected boolean scalar value"))
  end.

(** The arithmetic kernel of an operator. *)
Definition arithmetic_kernel (op : Operator) (fail_on_overflow : bool) : option kernel :=
  match op with
  | Plus => Some (if fail_on_overflow then K_add else K_add_wrapping)
  | Minus => Some (if fail_on_overflow then K_sub else K_sub_wrapping)
  | Multiply => Some (if fail_on_overflow then K_mul else K_mul_wrapping)
  | Divide => Some K_div
  | Modulo => Some K_rem
  | _ => None
  end.

Definition is_comparison (op : Operator) : bool := bool_decide (is_Some (cmp_kernel op)).

(** Operators that neither [apply] nor [apply_cmp] handles. *)
Definition evaluate_resolved (left : dyn) (op : Operator) (right : dyn) (lhs rhs : ColumnarValue) (batch : RecordBatch)
    : option (Result ColumnarValue) :=
  result_type ←? Some (BinaryExpr_data_type left op right (schema_of batch));
  optimized ← match lhs, rhs with
              | Array a, Scalar scalar => if is_null scalar then Some None else evaluate_array_scalar op a scalar
              | _, _ => Some None
              end;
  match optimized with
  | Some result_array =>
      a ←? Some result_array;
      a ←? Some (to_result_type_array op a result_type);
      Some (Ok (Array a))
  | None =>
      let l := into_array lhs (num_rows batch) in
      let r := into_array rhs (num_rows batch) in
      a ←? evaluate_with_resolved_args op l (columnar_type lhs) r;
      Some (Ok (Array a))
  end.

Definition BinaryExpr_evaluate (left : dyn) (op : Operator) (right : dyn) (fail_on_overflow : bool)
    (batch : RecordBatch) : option (Result ColumnarValue) :=
  lhs ←? evaluate left batch;
  match check_short_circuit lhs op with
  | ReturnLeft => Some (Ok lhs)
  | ReturnRight => evaluate right batch
  | PreSelection selected => evaluate_pre_selected right lhs selected batch
  | NoShortCircuit =>
      rhs ←? evaluate right batch;
      if bool_decide (op = Minus) && is_date_minus_date (columnar_type lhs) (columnar_type rhs)
      then apply_date_subtraction lhs rhs
      else match arithmetic_kernel op fail_on_overflow with
           | Some k => apply lhs rhs (run_kernel k)
           | None =>
               if is_comparison op then apply_cmp op lhs rhs
               else evaluate_resolved left op right lhs rhs batch
           end
  end.

Definition BinaryExpr_dyn (left : dyn) (op : Operator) (right : dyn) (fail_on_overflow : bool) : dyn := {|
  evaluate := BinaryExpr_evaluate left op right fail_on_overflow;
  data_type := BinaryExpr_data_type left op right;
|}.

End Evaluate.

(** ** Rows *)

(** What Arrow's bitwise operators do to values of a type. *)
Class BitwiseOk `{ArrowText} (bit_value : Operator → value → value → value) : Prop := {
  bit_value_type : ∀ op v w, value_type v = value_type w → value_type (bit_value op v w) = value_type v;
  arrow_bitwise_ok : ∀ op a b,
    array_type a = array_type b → array_len a = array_len b → is_bitwise_type (array_type a) = true →
    arrow_bitwise op a b =
      inl (array_of (array_type a)
             (zip_with (λ c d, v ← c; w ← d; Some (bit_value op v w)) (cells a) (cells b)));
  arrow_bitwise_scalar_ok : ∀ op a w,
    array_type a = value_type w → is_bitwise_type (array_type a) = true →
    arrow_bitwise_scalar op a w = inl (array_of (array_type a) (map (λ c, v ← c; Some (bit_value op v w)) (cells a)));
}.

Definition is_bitwise (op : Operator) : bool :=
  match op with BitwiseAnd | BitwiseOr | BitwiseXor | BitwiseShiftRight | BitwiseShiftLeft => true | _ => false end.

(** Days in a duration cell. *)
Definition days_cell (unit : DataType) (c : option value) : option value :=
  v ← c; per_day ← units_per_day unit;
  match v with VOther _ z => Some (VInt64 (Z.quot z per_day)) | _ => None end.

Section Rows.
Context `{ArrowCells} (bit_value : Operator → value → value → value).

(** The kernel an operator runs. *)
Definition op_kernel (op : Operator) (fail_on_overflow : bool) : option kernel :=
  match arithmetic_kernel op fail_on_overflow with Some k => Some k | None => cmp_kernel op end.

(** The type of an operator's result on operands of types it can evaluate. *)
Definition op_type (op : Operator) (fail_on_overflow : bool) (tl tr : DataType) : option DataType :=
  match op with
  | And | Or => if decide (tl = DBoolean ∧ tr = DBoolean) then Some DBoolean else None
  | _ =>
      if is_bitwise op then if decide (tl = tr ∧ is_bitwise_type tl = true) then Some tl else None
      else if bool_decide (op = Minus) && is_date_minus_date tl tr then
        unit ← kernel_type K_sub_wrapping tl tr; _ ← units_per_day unit; Some DInt64
      else if is_comparison op && is_nested tl then None
      else k ← op_kernel op fail_on_overflow; kernel_type k tl tr
  end.

(** The result for one pair of operands; [None] is an error. *)
Definition op_cell (op : Operator) (fail_on_overflow : bool) (tl tr : DataType) (l r : option value)
    : option (option value) :=
  match op with
  | And => Some (bool_cell (and3 (cell_bool l) (cell_bool r)))
  | Or => Some (bool_cell (or3 (cell_bool l) (cell_bool r)))
  | _ =>
      if is_bitwise op then Some (v ← l; w ← r; Some (bit_value op v w))
      else if bool_decide (op = Minus) && is_date_minus_date tl tr then
        unit ← kernel_type K_sub_wrapping tl tr;
        days_cell unit <$> kernel_cell K_sub_wrapping l r
      else k ← op_kernel op fail_on_overflow; kernel_cell k l r
  end.

Definition binary_row (op : Operator) (fail_on_overflow : bool) (tl tr : DataType)
    (fl fr : row → option (option value)) (r : row) : option (option value) :=
  x ← fl r; y ← fr r; op_cell op fail_on_overflow tl tr x y.

End Rows.

Lemma zip_rows {A} (fl fr : A → option (option value)) f rows vs :
  mapM (λ r, x ← fl r; y ← fr r; f x y) rows = Some vs →
  ∃ ls rs, mapM fl rows = Some ls ∧ mapM fr rows = Some rs ∧ zip_cells f ls rs = Some vs.
Proof.
  revert vs. induction rows as [|r rows IH]; intros vs; cbn; [intros [= <-]; by exists [], []|].
  intros (v & Hv & (vs' & Hvs & [= <-])%bind_Some)%bind_Some.
  apply bind_Some in Hv as (x & Hx & (y & Hy & Hf)%bind_Some).
  destruct (IH vs' Hvs) as (ls & rs & Hls & Hrs & Hz). exists (x :: ls), (y :: rs).
  rewrite Hx, Hy, Hls, Hrs. cbn. rewrite Hf. cbn. unfold zip_cells in Hz. by rewrite Hz.
Qed.

(** ** Correctness *)

Section Correct.
Context `{HA : Arrow, HT : ArrowText, Coercions, HF : ArrowFilter}.
Context `{!ArrowCells, !ArrowOk, !ArrowFilterOk} (bit_value : Operator → value → value → value).
Context `{!BitwiseOk bit_value}.

Lemma zip_cells_total f g l r :
  (∀ a b, f a b = Some (g a b)) → zip_cells f l r = Some (zip_with g l r).
Proof.
  intros Hf. unfold zip_cells. revert r. induction l as [|a l IH]; intros [|b r]; try done.
  cbn. rewrite Hf. cbn. by rewrite IH.
Qed.

Lemma cells_bools m : cells (BooleanArray m) = map bool_cell m.
Proof. done. Qed.

Lemma bool_fits n v :
  fits n DBoolean v → as_bools (into_array v n) = Some (map cell_bool (spread n v)).
Proof.
  intros Hv. rewrite as_bools_cells by (rewrite into_array_type; apply Hv). by rewrite (cells_into_array _ _ _ Hv).
Qed.

Lemma zip_bool_cells g (l r : list (option value)) :
  map bool_cell (zip_with g (map cell_bool l) (map cell_bool r))
  = zip_with (λ a b, bool_cell (g (cell_bool a) (cell_bool b))) l r.
Proof. revert r. induction l as [|a l IH]; intros [|b r]; cbn; [done..|]. by rewrite IH. Qed.

Lemma boolean_op_ok n l r f g :
  fits n DBoolean l → fits n DBoolean r →
  (∀ l r, length l = length r → f l r = inl (zip_with g l r)) →
  boolean_op (into_array l n) (into_array r n) f
  = Some (Ok (BooleanArray (zip_with g (map cell_bool (spread n l)) (map cell_bool (spread n r))))).
Proof.
  intros Hl Hr Hf. unfold boolean_op. rewrite (bool_fits _ _ Hl), (bool_fits _ _ Hr). cbn.
  by rewrite Hf by (rewrite !length_map, (length_spread _ _ _ Hl), (length_spread _ _ _ Hr); done).
Qed.

(** *** AND and OR *)

Definition absorbing (op : Operator) : bool := bool_decide (op = Or).

Definition logic (op : Operator) : option bool → option bool → option bool :=
  if absorbing op then or3 else and3.

Lemma no_true m : null_count m = 0 → true_count m = 0 → m = replicate (length m) (Some false).
Proof.
  unfold null_count, true_count. induction m as [|c m IH]; [done|]. rewrite !filter_cons.
  destruct c as [[]|]; repeat case_decide; try done. intros. cbn. f_equal. by apply IH.
Qed.

Lemma all_true m : true_count m = length m → m = replicate (length m) (Some true).
Proof.
  unfold true_count. induction m as [|c m IH]; [done|]. rewrite filter_cons.
  pose proof (length_filter (λ c : option bool, c = Some true) m). case_decide; cbn; [|lia].
  intros [= Hm]. subst c. f_equal. by apply IH.
Qed.

Lemma check_short_circuit_ok n lhs op :
  op = And ∨ op = Or → fits n DBoolean lhs →
  match check_short_circuit lhs op with
  | NoShortCircuit => True
  | ReturnLeft => spread n lhs = replicate n (Some (VBoolean (absorbing op)))
  | ReturnRight => spread n lhs = replicate n (Some (VBoolean (negb (absorbing op))))
  | PreSelection m => op = And ∧ lhs = Array (BooleanArray m) ∧ null_count m = 0 ∧ 0 < true_count m
  end.
Proof.
  intros Hop [Hty Hfit]. unfold check_short_circuit.
  assert (∀ m (b : bool), m = replicate (length m) (Some b) → length m = n →
    cells (BooleanArray m) = replicate n (Some (VBoolean b))) as Hcells.
  { intros m b Hm <-. rewrite Hm at 1. rewrite cells_bools.
    change (map bool_cell ?l) with (bool_cell <$> l). by rewrite fmap_replicate. }
  destruct lhs as [a|s]; cbn [columnar_type spread] in *.
  - destruct a as [m| | | |]; try done. destruct Hop as [-> | ->]; cbn [negb bool_decide columnar_type array_type];
      rewrite bool_decide_true by done; cbn [negb].
    all: repeat case_decide; try done; try (apply Hcells; [|done]; (by apply all_true) || (apply no_true; lia)).
    destruct (SFleb _ _); [|done]. split_and!; [done..|lia|lia].
  - rewrite bool_decide_true by done. destruct s as [ty [[]|]]; cbn in *; subst; destruct Hop as [-> | ->]; cbn; try done.
    all: by destruct b.
Qed.

Lemma zip_absorbing op n rs :
  op = And ∨ op = Or → length rs = n →
  zip_with (λ a b, bool_cell (logic op (cell_bool a) (cell_bool b))) (replicate n (Some (VBoolean (absorbing op)))) rs
  = replicate n (Some (VBoolean (absorbing op))).
Proof. intros Hop <-. induction rs as [|r rs IH]; [done|]. cbn. rewrite IH. by destruct Hop as [-> | ->]. Qed.

Lemma zip_neutral op n rs :
  op = And ∨ op = Or → length rs = n → Forall (has_type DBoolean) rs →
  zip_with (λ a b, bool_cell (logic op (cell_bool a) (cell_bool b)))
    (replicate n (Some (VBoolean (negb (absorbing op))))) rs = rs.
Proof.
  intros Hop <- Hty. induction Hty as [|r rs Hr Hty IH]; [done|]. cbn. rewrite IH. f_equal.
  destruct r as [[[]| | | |]|], Hop as [-> | ->]; try done.
Qed.

(** Pre-selection as a whole: the selected rows take the right value. *)
Lemma zip_selected m rs :
  null_count m = 0 → length rs = length m →
  zip_with (λ a b, bool_cell (and3 (cell_bool a) (cell_bool b))) (map bool_cell m) rs
  = map bool_cell (Scatter.spread_mask (selection m) (map cell_bool (mask_list (selection m) rs)) (Some false)).
Proof.
  unfold null_count. revert rs. induction m as [|c m IH]; intros [|r rs]; try done.
  rewrite filter_cons. case_decide; [done|]. intros Hm [= Hl]. specialize (IH rs Hm Hl).
  destruct c as [[]|]; [| |done]; cbn; f_equal; try apply IH. by destruct r as [[[]| | | |]|].
Qed.

Lemma mapM_mask {A B} (f : A → option B) mask l vs :
  mapM f l = Some vs → mapM f (mask_list mask l) = Some (mask_list mask vs).
Proof.
  revert mask vs. induction l as [|x l IH]; intros [|b mask] vs; cbn; try (by intros [= <-]); intros (y & Hy & (ys & Hys & [= <-])%bind_Some)%bind_Some.
  - done.
  - destruct b; cbn; [rewrite Hy; cbn|]; by rewrite (IH mask ys Hys).
Qed.

Lemma pre_selection_scatter_ok m rb :
  length rb = true_count m →
  pre_selection_scatter m (Some rb) = Some (Ok (Array (BooleanArray (Scatter.spread_mask (selection m) rb (Some false))))).
Proof.
  intros Hl. unfold pre_selection_scatter. rewrite Scatter.fill_gaps_ok; [done|]. rewrite Scatter.count_selection. lia.
Qed.

Lemma spread_mask_more {A} mask (x : A) n d :
  Scatter.count_set_bits mask ≤ n →
  Scatter.spread_mask mask (replicate n x) d = Scatter.spread_mask mask (replicate (Scatter.count_set_bits mask) x) d.
Proof.
  revert n. induction mask as [|b mask IH]; intros n; [done|]. rewrite Scatter.count_set_bits_cons. destruct b; cbn.
  - intros Hn. destruct n as [|n]; [lia|]. cbn. by rewrite IH by lia.
  - intros Hn. by rewrite IH by lia.
Qed.

Lemma pre_selection_nulls_ok m :
  pre_selection_scatter m None
  = Some (Ok (Array (BooleanArray (Scatter.spread_mask (selection m) (replicate (true_count m) None) (Some false))))).
Proof.
  unfold pre_selection_scatter. pose proof (Scatter.count_set_bits_le (selection m)) as Hc. rewrite selection_length in Hc.
  rewrite Scatter.fill_gaps_ok by (by rewrite length_replicate). cbn.
  by rewrite spread_mask_more, Scatter.count_selection.
Qed.

Lemma scatter_true m :
  null_count m = 0 →
  Scatter.spread_mask (selection m) (replicate (true_count m) (Some true)) (Some false) = m.
Proof.
  intros Hm.
  rewrite <- Scatter.count_selection.
  pose proof (Scatter.spread_mask_map Some (selection m) (replicate (Scatter.count_set_bits (selection m)) true) false) as Hs.
  change (map Some (replicate ?k true)) with (Some <$> replicate k true) in Hs. rewrite fmap_replicate in Hs.
  rewrite <- Hs, Scatter.spread_mask_self by done. clear Hs. unfold null_count, selection in *.
  induction m as [|c m IH]; [done|]. rewrite filter_cons in Hm. case_decide; [done|]. cbn. rewrite IH by done. by destruct c.
Qed.

Lemma evaluate_pre_selected_ok schema dr fr b m rs :
  computes schema dr DBoolean fr → batch_wf b → schema_of b = schema → (Z.of_nat (num_rows b) < 2 ^ 32)%Z →
  mapM fr (rows b) = Some rs → length m = num_rows b → null_count m = 0 → 0 < true_count m →
  ∃ v, evaluate_pre_selected dr (Array (BooleanArray m)) m b = Some (Ok v) ∧ fits (num_rows b) DBoolean v ∧
    spread (num_rows b) v
    = zip_with (λ a b, bool_cell (and3 (cell_bool a) (cell_bool b))) (map bool_cell m) rs.
Proof.
  intros [_ Hr] Hwf Hs Hu Hrs Hm Hnull Htrue. pose proof (length_mapM _ _ _ Hrs) as Hlen. rewrite length_rows in Hlen.
  rewrite zip_selected by (done || lia). unfold evaluate_pre_selected.
  rewrite filter_record_batch_ok by (rewrite ?selection_length; done). cbn [arrow_result try_bind].
  set (b' := mask_batch (selection m) b). assert (num_rows b' = true_count m) as Hn'.
  { unfold b'. cbn. apply mask_selection_length. by rewrite length_rows. }
  assert (true_count m ≤ length m) by apply length_filter.
  destruct (Hr b' (mask_list (selection m) rs)) as (v & -> & Hv & Hsp).
  { by apply mask_batch_wf. } { unfold b'. by rewrite schema_of_mask. } { lia. } { lia. }
  { unfold b'. rewrite rows_mask by done. by apply mapM_mask. }
  rewrite <- Hsp, Hn' in *. cbn [try_bind]. clear Hsp.
  assert (Hout : ∀ rb, length m = num_rows b →
    ∃ v, Some (Ok (Array (BooleanArray (Scatter.spread_mask (selection m) rb (Some false))))) = Some (Ok v)
      ∧ fits (num_rows b) DBoolean v
      ∧ spread (num_rows b) v = map bool_cell (Scatter.spread_mask (selection m) rb (Some false))).
  { intros rb Hb. eexists. split; [done|]. split; [|done]. apply fits_bools. by rewrite Scatter.length_spread_mask, selection_length. }
  destruct v as [a|s].
  - destruct Hv as [Hty Ha]. cbn in Hty, Ha. destruct a as [rb| | | |]; try done. cbn [as_bools mbind option_bind spread].
    cbn in Ha. assert (map cell_bool (cells (BooleanArray rb)) = rb) as ->.
    { cbn. rewrite map_map. rewrite <- (map_id rb) at 2. apply map_ext. by intros [[]|]. }
    case_decide as Hall.
    + apply all_true in Hall. rewrite Hall, Ha, scatter_true by done. eexists. split; [done|]. split; [by apply fits_bools|done].
    + case_bool_decide as Hz; [case_bool_decide as Hnn|]; cbn [andb].
      * apply no_true in Hnn; [|done]. rewrite Hnn, Scatter.spread_mask_same, selection_length, Hm. eexists. split; [done|].
        split; [done|]. cbn. change (map bool_cell ?l) with (bool_cell <$> l). by rewrite fmap_replicate.
      * rewrite pre_selection_scatter_ok by done. by apply Hout.
      * rewrite pre_selection_scatter_ok by done. by apply Hout.
  - destruct Hv as [Hty Hv]. cbn in Hty, Hv. rewrite decide_True by done. cbn [spread].
    change (map cell_bool (replicate ?k ?c)) with (cell_bool <$> replicate k c). rewrite fmap_replicate.
    destruct s as [sty [[bv| | | |]|]]; cbn in Hty, Hv; try congruence; cbn [s_value value_bool cell_bool fmap option_fmap option_map].
    + destruct bv.
      * rewrite scatter_true by done. eexists. split; [done|]. split; [by apply fits_bools|done].
      * rewrite Scatter.spread_mask_same, selection_length, Hm. eexists. split; [done|]. split; [by split|].
        cbn. change (map bool_cell ?l) with (bool_cell <$> l). by rewrite fmap_replicate.
    + rewrite pre_selection_nulls_ok. by apply Hout.
Qed.

Lemma logic_result_type op tl tr :
  op = And ∨ op = Or → tl = DBoolean → tr = DBoolean → get_result_type tl op tr = Ok DBoolean.
Proof. intros Hop -> ->. unfold get_result_type, signature. rewrite bool_decide_false by naive_solver. by destruct Hop as [-> | ->]. Qed.

Lemma resolved_logic_ok schema dl dr fl fr op b lhs rhs :
  op = And ∨ op = Or → computes schema dl DBoolean fl → computes schema dr DBoolean fr → schema_of b = schema →
  fits (num_rows b) DBoolean lhs → fits (num_rows b) DBoolean rhs →
  evaluate_resolved dl op dr lhs rhs b
  = Some (Ok (Array (BooleanArray (zip_with (logic op)
      (map cell_bool (spread (num_rows b) lhs)) (map cell_bool (spread (num_rows b) rhs)))))).
Proof.
  intros Hop Hl Hr Hs Hlf Hrf. unfold evaluate_resolved, BinaryExpr_data_type.
  rewrite Hs, (proj1 Hl). cbn [mbind Result_bind]. rewrite (proj1 Hr). cbn [mbind Result_bind].
  rewrite logic_result_type by done. cbn [try_bind].
  assert (match lhs, rhs with Array a, Scalar s => if is_null s then Some None else evaluate_array_scalar op a s
    | _, _ => Some None end = Some None) as ->.
  { destruct lhs, rhs; try done. destruct (is_null s); [done|]. by destruct Hop as [-> | ->]. }
  cbn [mbind option_bind]. rewrite (proj1 Hlf).
  destruct Hop as [-> | ->]; cbn [evaluate_with_resolved_args]; rewrite decide_True by done.
  - by rewrite (boolean_op_ok _ _ _ _ and3 Hlf Hrf arrow_and_kleene_ok).
  - by rewrite (boolean_op_ok _ _ _ _ or3 Hlf Hrf arrow_or_kleene_ok).
Qed.

(** Whichever strategy the left operand leads to, the rows get the three-valued
    AND or OR of the two operands. *)
Lemma logic_computes schema dl dr fl fr op fo :
  op = And ∨ op = Or → computes schema dl DBoolean fl → computes schema dr DBoolean fr →
  computes schema (BinaryExpr_dyn dl op dr fo) DBoolean (binary_row bit_value op fo DBoolean DBoolean fl fr).
Proof.
  intros Hop Hl Hr. split.
  { cbn. unfold BinaryExpr_data_type. rewrite (proj1 Hl). cbn. rewrite (proj1 Hr). cbn. by apply logic_result_type. }
  intros b vs Hwf Hs Hn Hu Hvs. apply zip_rows in Hvs as (ls & rs & Hls & Hrs & Hz).
  rewrite zip_cells_total with (g := λ x y, bool_cell (logic op (cell_bool x) (cell_bool y))) in Hz
    by (by destruct Hop as [-> | ->]). injection Hz as <-.
  destruct (proj2 Hl b ls) as (lhs & Hlhs & Hlf & Hlsp); [done..|].
  pose proof (length_mapM _ _ _ Hrs) as Hrl. rewrite length_rows in Hrl.
  pose proof (check_short_circuit_ok _ _ _ Hop Hlf) as Hck. cbn [evaluate BinaryExpr_dyn]. unfold BinaryExpr_evaluate. rewrite Hlhs.
  cbn [try_bind]. destruct (check_short_circuit lhs op) as [| | |m].
  - destruct (proj2 Hr b rs) as (rhs & Hrhs & Hrf & Hrsp); [done..|]. rewrite Hrhs. cbn [try_bind].
    rewrite <- Hlsp, <- Hrsp. eexists. split.
    { transitivity (evaluate_resolved dl op dr lhs rhs b); [by destruct Hop as [-> | ->]|]. by eapply resolved_logic_ok. }
    split.
    + apply fits_bools. rewrite length_zip_with, !length_map, (length_spread _ _ _ Hlf), (length_spread _ _ _ Hrf). lia.
    + cbn [spread]. rewrite cells_bools. apply zip_bool_cells.
  - exists lhs. split; [done|]. split; [done|]. rewrite <- Hlsp, Hck. symmetry. by apply zip_absorbing.
  - destruct (proj2 Hr b rs) as (rhs & Hrhs & Hrf & Hrsp); [done..|]. exists rhs. split; [done|]. split; [done|].
    rewrite <- Hlsp, Hck, Hrsp, zip_neutral; [done..|]. rewrite <- Hrsp. by apply spread_typed.
  - destruct Hck as (-> & -> & Hnull & Htrue). destruct Hlf as [_ Hlm]. cbn in Hlm.
    rewrite <- Hlsp. cbn [spread]. rewrite cells_bools. by eapply evaluate_pre_selected_ok.
Qed.

(** *** The other operators *)

Lemma no_short_circuit lhs op : op ≠ And → op ≠ Or → check_short_circuit lhs op = NoShortCircuit.
Proof. by destruct op. Qed.

(** Operands first, then one step on their values. *)
Lemma strict_computes schema dl dr tl tr ty fl fr op fo :
  computes schema dl tl fl → computes schema dr tr fr → get_result_type tl op tr = Ok ty →
  op ≠ And → op ≠ Or →
  (∀ b lhs rhs vs, schema_of b = schema → 0 < num_rows b →
    fits (num_rows b) tl lhs → fits (num_rows b) tr rhs →
    zip_cells (op_cell bit_value op fo tl tr) (spread (num_rows b) lhs) (spread (num_rows b) rhs) = Some vs →
    ∃ v, (if bool_decide (op = Minus) && is_date_minus_date tl tr then apply_date_subtraction lhs rhs
          else match arithmetic_kernel op fo with
               | Some k => apply lhs rhs (run_kernel k)
               | None => if is_comparison op then apply_cmp op lhs rhs
                         else evaluate_resolved dl op dr lhs rhs b
               end) = Some (Ok v) ∧ fits (num_rows b) ty v ∧ spread (num_rows b) v = vs) →
  computes schema (BinaryExpr_dyn dl op dr fo) ty (binary_row bit_value op fo tl tr fl fr).
Proof.
  intros Hl Hr Hty Hand Hor Hstep. split.
  { cbn. unfold BinaryExpr_data_type. rewrite (proj1 Hl). cbn. rewrite (proj1 Hr). done. }
  intros b vs Hwf Hs Hn Hu Hvs. apply zip_rows in Hvs as (ls & rs & Hls & Hrs & Hz).
  destruct (proj2 Hl b ls) as (lhs & Hlhs & Hlf & Hlsp); [done..|].
  destruct (proj2 Hr b rs) as (rhs & Hrhs & Hrf & Hrsp); [done..|].
  cbn [evaluate BinaryExpr_dyn]. unfold BinaryExpr_evaluate. rewrite Hlhs. cbn [try_bind].
  rewrite no_short_circuit, Hrhs by done. cbn [try_bind]. rewrite (proj1 Hlf), (proj1 Hrf).
  apply Hstep; [done..|]. by rewrite Hlsp, Hrsp.
Qed.

Lemma duration_to_days_ok a per_day :
  units_per_day (array_type a) = Some per_day →
  duration_to_days a = Ok (array_of DInt64 (map (days_cell (array_type a)) (cells a))).
Proof.
  intros Hu. unfold duration_to_days. rewrite Hu. destruct a as [| | | |ty vs]; try done.
  cbn [array_type] in *. cbn [cells]. rewrite map_map. cbn [array_of]. do 2 f_equal. rewrite map_map. apply map_ext.
  intros [z|]; cbn [fmap option_fmap option_map]; [|done]. unfold days_cell. cbn [mbind option_bind]. by rewrite Hu.
Qed.

Lemma days_typed unit c : has_type DInt64 (days_cell unit c).
Proof.
  unfold days_cell. destruct c as [v|]; [|done]. cbn [mbind option_bind].
  destruct (units_per_day unit); [|done]. by destruct v.
Qed.

Lemma zip_cells_fmap f (g : option value → option value) l r vs :
  zip_cells (λ a b, g <$> f a b) l r = Some vs → ∃ cs, zip_cells f l r = Some cs ∧ vs = map g cs.
Proof.
  unfold zip_cells. generalize (zip l r). clear l r. intros ps. revert vs.
  induction ps as [|p ps IH]; intros vs; cbn; [intros [= <-]; by exists []|].
  destruct (f p.1 p.2) as [c|]; cbn; [|done]. intros (vs' & Hvs & [= <-])%bind_Some.
  destruct (IH vs' Hvs) as (cs & -> & ->). by exists (c :: cs).
Qed.

Lemma date_subtraction_ok n tl tr unit per_day l r vs :
  fits n tl l → fits n tr r → 0 < n → kernel_type K_sub_wrapping tl tr = Some unit →
  units_per_day unit = Some per_day →
  zip_cells (λ a b, days_cell unit <$> kernel_cell K_sub_wrapping a b) (spread n l) (spread n r) = Some vs →
  ∃ v, apply_date_subtraction l r = Some (Ok v) ∧ fits n DInt64 v ∧ spread n v = vs.
Proof.
  intros Hl Hr Hn Hk Hu Hz. apply zip_cells_fmap in Hz as (cs & Hz & ->).
  destruct (apply_ok _ _ _ _ _ _ _ _ Hl Hr Hn Hk Hz) as (v & Hv & Hfit & Hsp).
  unfold apply_date_subtraction. rewrite Hv. cbn [try_bind]. rewrite <- Hsp.
  assert (Hty : ∀ l, Forall (has_type DInt64) (map (days_cell unit) l)) by (intros; apply Forall_fmap, Forall_true, days_typed).
  destruct v as [a|s]; destruct Hfit as [Ht Hf]; cbn in Ht.
  - rewrite (duration_to_days_ok _ per_day) by (by rewrite Ht). cbn [try_bind]. eexists. split; [done|]. split.
    + apply fits_array_of. by rewrite length_map, length_cells.
    + cbn [spread]. by rewrite cells_array_of, Ht by (rewrite Ht; apply Hty).
  - unfold to_array_of_size. rewrite (duration_to_days_ok _ per_day) by (by rewrite array_type_of, Ht). cbn [try_bind].
    rewrite array_type_of, Ht, cells_array_of by (by constructor). unfold try_from_array.
    rewrite cells_array_of by apply Hty. cbn [replicate map lookup list_lookup fmap option_fmap option_map mbind option_bind].
    eexists. split; [done|]. split; [split; [done|apply days_typed]|]. cbn [spread s_value].
    change (map ?f (replicate n ?c)) with (f <$> replicate n c). by rewrite fmap_replicate.
Qed.

Lemma bit_cell_typed op ty (c d : option value) :
  has_type ty c → has_type ty d → has_type ty (v ← c; w ← d; Some (bit_value op v w)).
Proof.
  destruct c as [v|], d as [w|]; cbn; try done. intros Hv Hw. rewrite bit_value_type by congruence. done.
Qed.

Lemma zip_bit_typed op ty l r :
  Forall (has_type ty) l → Forall (has_type ty) r →
  Forall (has_type ty) (zip_with (λ c d, v ← c; w ← d; Some (bit_value op v w)) l r).
Proof.
  intros Hl. revert r. induction Hl as [|c l Hc Hl IH]; intros r Hr; [by constructor|].
  destruct Hr as [|d r Hd Hr]; [by constructor|]. cbn. constructor; [by apply bit_cell_typed|by apply IH].
Qed.

Lemma zip_with_replicate_scalar {A B C} (f : A → B → C) l (y : B) :
  zip_with f l (replicate (length l) y) = map (λ x, f x y) l.
Proof. induction l as [|x l IH]; [done|]. cbn. by rewrite IH. Qed.

Lemma bitwise_resolved_ok schema dl dr fl fr op b ty lhs rhs :
  is_bitwise op = true → is_bitwise_type ty = true → get_result_type ty op ty = Ok ty →
  computes schema dl ty fl → computes schema dr ty fr → schema_of b = schema →
  fits (num_rows b) ty lhs → fits (num_rows b) ty rhs →
  evaluate_resolved dl op dr lhs rhs b
  = Some (Ok (Array (array_of ty (zip_with (λ c d, v ← c; w ← d; Some (bit_value op v w))
      (spread (num_rows b) lhs) (spread (num_rows b) rhs))))).
Proof.
  intros Hop Hbt Hty Hl Hr Hs Hlf Hrf. unfold evaluate_resolved, BinaryExpr_data_type.
  rewrite Hs, (proj1 Hl). cbn [mbind Result_bind]. rewrite (proj1 Hr). cbn [mbind Result_bind]. rewrite Hty. cbn [try_bind].
  set (optimized := match lhs, rhs with Array a, Scalar s => _ | _, _ => _ end).
  assert (optimized = Some None ∨ ∃ a s w, lhs = Array a ∧ rhs = Scalar s ∧ s_value s = Some w
    ∧ optimized = Some <$> bitwise_dyn_scalar op a s) as [-> | (a & s & w & -> & -> & Hw & ->)].
  { unfold optimized. destruct lhs as [a|s0], rhs as [a0|s]; auto. unfold is_null. case_bool_decide as Hn; [by left|].
    right. destruct (s_value s) as [w|] eqn:Hw; [|done]. exists a, s, w. split_and!; [done..|]. by destruct op. }
  - cbn [mbind option_bind]. assert (evaluate_with_resolved_args op (into_array lhs (num_rows b)) (columnar_type lhs)
      (into_array rhs (num_rows b)) = bitwise_dyn op (into_array lhs (num_rows b)) (into_array rhs (num_rows b))) as ->
      by (by destruct op). unfold bitwise_dyn. rewrite !into_array_type, (proj1 Hlf), (proj1 Hrf), Hbt, decide_True by done.
    rewrite (arrow_bitwise_ok (bit_value := bit_value));
      rewrite ?into_array_type, ?(proj1 Hlf), ?(proj1 Hrf), ?(into_array_len _ _ _ Hlf), ?(into_array_len _ _ _ Hrf); try done.
    by rewrite (cells_into_array _ _ _ Hlf), (cells_into_array _ _ _ Hrf).
  - destruct Hlf as [Ha Hla], Hrf as [Hst Hsv]. cbn in Ha, Hla, Hst. rewrite Hw in Hsv. cbn in Hsv.
    unfold bitwise_dyn_scalar. rewrite Ha, Hbt, Hw, decide_True by done.
    rewrite (arrow_bitwise_scalar_ok (bit_value := bit_value)) by congruence. cbn [fmap option_fmap option_map mbind option_bind try_bind].
    unfold to_result_type_array. rewrite array_type_of, decide_True by done. cbn [try_bind spread]. do 4 f_equal; [done|].
    rewrite Hw, <- Hla, <- length_cells, zip_with_replicate_scalar. apply map_ext. by intros [v|].
Qed.

(** An operator over two expressions computes its cells on the rows. *)
Lemma binary_computes schema dl dr tl tr ty fl fr op fo :
  computes schema dl tl fl → computes schema dr tr fr →
  get_result_type tl op tr = Ok ty → op_type op fo tl tr = Some ty →
  computes schema (BinaryExpr_dyn dl op dr fo) ty (binary_row bit_value op fo tl tr fl fr).
Proof.
  intros Hl Hr Hres Hty. destruct (decide (op = And ∨ op = Or)) as [Hop|Hop].
  { assert (tl = DBoolean ∧ tr = DBoolean ∧ ty = DBoolean) as (-> & -> & ->)
      by (destruct Hop as [-> | ->]; cbn in Hty; case_decide; naive_solver).
    by apply logic_computes. }
  assert (op ≠ And ∧ op ≠ Or) as [Hand Hor] by tauto. apply strict_computes; [done..|].
  intros b lhs rhs vs Hs Hn Hlf Hrf Hz. unfold op_type, op_cell in Hty, Hz.
  destruct (is_bitwise op) eqn:Hbit.
  - assert (tl = tr ∧ ty = tl ∧ is_bitwise_type tl = true) as (<- & -> & Hbt) by (destruct op; try done; cbn in Hty; case_decide; naive_solver).
    rewrite zip_cells_total with (g := λ l r, v ← l; w ← r; Some (bit_value op v w)) in Hz by (by destruct op).
    injection Hz as <-. eexists. split; [|split].
    + transitivity (evaluate_resolved dl op dr lhs rhs b); [by destruct op|]. by eapply (bitwise_resolved_ok schema dl dr fl fr).
    + apply fits_array_of. rewrite length_zip_with, (length_spread _ _ _ Hlf), (length_spread _ _ _ Hrf). lia.
    + apply cells_array_of. apply zip_bit_typed; by eapply spread_typed.
  - destruct (bool_decide (op = Minus) && is_date_minus_date tl tr) eqn:Hdate.
    + assert (op = Minus) as -> by (by apply andb_prop in Hdate as [?%bool_decide_eq_true_1 _]).
      apply bind_Some in Hty as (unit & Hunit & (per_day & Hday & [= <-])%bind_Some).
      rewrite Hunit in Hz. by eapply date_subtraction_ok.
    + assert (∃ k, op_kernel op fo = Some k ∧ kernel_type k tl tr = Some ty
        ∧ (is_comparison op = true → is_nested tl = false)
        ∧ zip_cells (kernel_cell k) (spread (num_rows b) lhs) (spread (num_rows b) rhs) = Some vs)
        as (k & Hk & Hkt & Hnest & Hkz).
      { destruct (op_kernel op fo) as [k|] eqn:Hk; destruct op; try done; destruct (is_comparison _ && is_nested tl) eqn:Hc;
          try done; exists k; split_and!; try done; intros; by rewrite ?andb_true_l in Hc. }
      unfold op_kernel in Hk. destruct (arithmetic_kernel op fo) as [k'|]; [injection Hk as ->; by eapply apply_ok|].
      unfold is_comparison in *. rewrite Hk, bool_decide_true in * by done. unfold apply_cmp.
      rewrite (proj1 Hlf), Hnest, Hk by done. by eapply apply_ok.
Qed.
End Correct.

(** ** An implementation of the operators *)

Definition plain_bit (op : Operator) (v w : value) : value :=
  let x := int_value v in
  let y := int_value w in
  let z := match op with
           | BitwiseAnd => Z.land x y
           | BitwiseOr => Z.lor x y
           | BitwiseXor => Z.lxor x y
           | BitwiseShiftRight => Z.shiftr x y
           | _ => Z.shiftl x y
           end in
  value_int (value_type v) (match int_range (value_type v) with Some (lo, width) => lo + (z - lo) mod width | None => z end)%Z.

#[global] Instance plain_text : ArrowText := {
  arrow_bitwise op a b :=
    inl (array_of (array_type a) (zip_with (λ c d, v ← c; w ← d; Some (plain_bit op v w)) (cells a) (cells b)));
  arrow_bitwise_scalar op a w := inl (array_of (array_type a) (map (λ c, v ← c; Some (plain_bit op v w)) (cells a)));
  regexp_is_match _ _ _ := inr "not supported";
  regexp_is_match_scalar _ _ _ := inr "not supported";
  concat_elements_utf8 _ _ := inr "not supported";
  view_concat _ _ := inr "not supported";
  dictionary_value _ := None;
  dictionary_parts _ := None;
  dictionary_scalar _ := None;
}.

#[global] Instance plain_bitwise_ok : BitwiseOk plain_bit.
Proof. split; [|done..]. intros op v w _. by destruct v. Qed.

(** Tables without entries: only equal types have a common type. *)
#[global] Instance plain_coercions : Coercions := {
  unequal_comparison_coercion _ _ := None;
  regex_coercion _ _ := None;
  bitwise_coercion l r := if decide (l = r) then Some l else None;
  string_concat_coercion _ _ := None;
  array_coercion _ _ := None;
  like_coercion _ _ := None;
  temporal_math_coercion _ _ := None;
  temporal_coercion_strict_timezone _ _ := None;
  math_decimal_coercion _ _ := None;
  mathematics_numerical_coercion _ _ := None;
  is_temporal _ := false;
}.

End Binary.
