(* ===== verification/InList.v ===== *)
(** * IN lists (physical-expr/src/expressions/in_list.rs)

    [x IN (a, b, ...)] searches a set built from the list when the list is made
    of constants, and otherwise compares with one list item after the other.
    The sets of primitive values work on value buffers and validity masks, the
    generic one is a hash table of indices into the list.  Proved: all three give
    the three-valued disjunction of the comparisons with the list items.
    No array of this model is dictionary encoded, so the arms that unwrap
    dictionaries have no counterpart. *)

From stdpp Require Import base list strings sets.
From Stdlib Require Import ZArith Lia.
From S2P Require Import Prelude Relation HashUtils Columnar Datum Scatter.

Module InList.

(** [StaticFilter]: the sets of one primitive type, or the hash table of
    [ArrayStaticFilter], whose entries are a hash and an index into the array. *)
Inductive StaticFilter :=
| PrimitiveFilter (ty : DataType) (null_count : nat) (values : list value)
| ArrayFilter (in_array : array) (map : list (N * nat)).

Definition filter_null_count (f : StaticFilter) : nat :=
  match f with PrimitiveFilter _ n _ => n | ArrayFilter a _ => null_count (cells a) end.

(** The types with a filter of their own. *)
Definition has_primitive_filter (ty : DataType) : bool :=
  match ty with
  | DInt32 | DInt64 => true
  | DOther name =>
      bool_decide (name ∈ ["Int8"; "Int16"; "UInt8"; "UInt16"; "UInt32"; "UInt64"; "Float32"; "Float64"])
  | _ => false
  end.

(** [is_primitive] on data types: the numeric and temporal ones. *)
Definition supports_arrow_eq (ty : DataType) : bool :=
  match ty with
  | DBoolean | DInt32 | DInt64 | DUtf8 => true
  | DOther name =>
      bool_decide (name ∈ ["Binary"; "LargeBinary"; "BinaryView"; "FixedSizeBinary"; "Null"; "LargeUtf8"; "Utf8View"])
      || bool_decide (name ∈ HashUtils.primitive_types)
  end.

Section Filters.
Context `{Arrow, Foldhash}.

(** [RawEntryMut::from_hash] and [raw_entry().from_hash]: an entry stored under
    the hash whose key matches. *)
Definition from_hash (map : list (N * nat)) (hash : N) (is_match : nat → bool) : bool :=
  existsb (λ e : N * nat, bool_decide (e.1 = hash) && is_match e.2) map.

Definition is_eq (c : comparison) : bool := match c with Datatypes.Eq => true | _ => false end.

Fixpoint insert_values (hashes : list N) (cmp : nat → nat → comparison) (indices : list nat) (map : list (N * nat))
    : option (list (N * nat)) :=
  match indices with
  | [] => Some map
  | idx :: indices =>
      hash ← hashes !! idx;
      let map := if from_hash map hash (λ x, is_eq (cmp x idx)) then map else map ++ [(hash, idx)] in
      insert_values hashes cmp indices map
  end.

(** [with_hashes([array], state, ..)] *)
Definition hashes_of (a : array) : option (Result (list N)) :=
  HashUtils.create_hashes [a] (replicate (array_len a) 0%N).

Definition array_filter_try_new (in_array : array) : option (Result StaticFilter) :=
  if decide (array_type in_array = DNull) then Some (Ok (ArrayFilter in_array []))
  else
    hashes ←? hashes_of in_array;
    cmp ←? Some (arrow_result (arrow_compare in_array in_array));
    let valid := match Scatter.null_buffer (cells in_array) with
                 | Some valid => set_indices 0 valid
                 | None => seq 0 (array_len in_array)
                 end in
    map ← insert_values hashes cmp valid [];
    Some (Ok (ArrayFilter in_array map)).

Definition instantiate_static_filter (in_array : array) : option (Result StaticFilter) :=
  if has_primitive_filter (array_type in_array)
  then Some (Ok (PrimitiveFilter (array_type in_array) (null_count (cells in_array)) (omap id (cells in_array))))
  else array_filter_try_new in_array.

(** [contains] of the primitive filters; [at_null] is what the value buffer of
    the searched array holds at a null. *)
Definition primitive_contains (ty : DataType) (nulls : nat) (values : list value) (at_null : value)
    (v : array) (negated : bool) : option (Result bools) :=
  if decide (array_type v = ty) then
    let haystack_has_nulls := bool_decide (0 < nulls) in
    let needle_values := Scatter.value_buffer at_null (cells v) in
    let needle_nulls := Scatter.null_buffer (cells v) in
    let needle_has_nulls := bool_decide (0 < null_count (cells v)) in
    let contains_buffer :=
      if negated then map (λ x, negb (bool_decide (x ∈ values))) needle_values
      else map (λ x, bool_decide (x ∈ values)) needle_values in
    let in_set := if negated then map negb contains_buffer else contains_buffer in
    let result_nulls :=
      match needle_has_nulls, haystack_has_nulls with
      | false, false => None
      | true, false => needle_nulls
      | false, true => Some in_set
      | true, true =>
          let needle_validity := default (replicate (length needle_values) true) needle_nulls in
          Some (zip_with andb needle_validity in_set)
      end in
    Some (Ok (Scatter.buffer_cells contains_buffer result_nulls))
  else Some (Err (Execution "Failed to downcast an array")).

Definition array_contains (in_array : array) (map : list (N * nat)) (v : array) (negated : bool)
    : option (Result bools) :=
  if bool_decide (array_type v = DNull) || bool_decide (array_type in_array = DNull)
  then Some (Ok (replicate (array_len v) None))
  else
    let haystack_has_nulls := negb (bool_decide (null_count (cells in_array) = 0)) in
    hashes ←? hashes_of v;
    cmp ←? Some (arrow_result (arrow_compare v in_array));
    r ← mapM (λ i,
           needle ← cells v !! i;
           match needle with
           | None => Some None
           | Some _ =>
               hash ← hashes !! i;
               let contains := from_hash map hash (λ idx, is_eq (cmp i idx)) in
               Some (if contains then Some (negb negated)
                     else if haystack_has_nulls then None else Some negated)
           end) (seq 0 (array_len v));
    Some (Ok r).

Definition contains (f : StaticFilter) (at_null : value) (v : array) (negated : bool) : option (Result bools) :=
  match f with
  | PrimitiveFilter ty nulls values => primitive_contains ty nulls values at_null v negated
  | ArrayFilter in_array map => array_contains in_array map v negated
  end.

(** ** Construction *)

Fixpoint evaluate_scalars (l : list dyn) (b : RecordBatch) : option (Result (list ScalarValue)) :=
  match l with
  | [] => Some (Ok [])
  | e :: l =>
      r ←? evaluate e b;
      match r with
      | Array _ => Some (Err (Execution "InList expression must evaluate to a scalar"))
      | Scalar s => rest ←? evaluate_scalars l b; Some (Ok (s :: rest))
      end
  end.

Definition evaluate_list (l : list dyn) (b : RecordBatch) : option (Result array) :=
  scalars ←? evaluate_scalars l b; Some (iter_to_array scalars).

Definition try_evaluate_constant_list (l : list dyn) (schema : list DataType) : option (option array) :=
  r ← evaluate_list l (new_empty_batch schema);
  Some (match r with Ok a => Some a | Err _ => None end).

(** [DFSchema::datatype_is_logically_equal] on the types of this model. *)
Definition datatype_is_logically_equal (t1 t2 : DataType) : bool :=
  match t1, t2 with
  | DUtf8, DOther "Utf8View" | DOther "Utf8View", DUtf8 => true
  | _, _ => bool_decide (t1 = t2)
  end.

Fixpoint check_types (ty : DataType) (l : list dyn) (schema : list DataType) : Result () :=
  match l with
  | [] => Ok ()
  | e :: l =>
      t ← data_type e schema;
      if datatype_is_logically_equal ty t then check_types ty l schema
      else Err (Internal "The data type inlist should be same")
  end.

(** [InListExpr::try_new]: the static filter of the new expression. *)
Definition try_new (e : dyn) (l : list dyn) (schema : list DataType) : option (Result (option StaticFilter)) :=
  expr_data_type ←? Some (data_type e schema);
  _ ←? Some (check_types expr_data_type l schema);
  constants ← try_evaluate_constant_list l schema;
  match constants with
  | Some in_array => f ←? instantiate_static_filter in_array; Some (Ok (Some f))
  | None => Some (Ok None)
  end.

(** [InListExpr::try_new_from_array]: the list items are the cells of the array. *)
Definition try_new_from_array (a : array) : option (Result (list ScalarValue * StaticFilter)) :=
  l ← mapM (try_from_array a) (seq 0 (array_len a));
  f ←? instantiate_static_filter a; Some (Ok (l, f)).

(** ** Evaluation *)

(** The comparison of the value with one list item. *)
Definition compare_one (value : array) (num_rows : nat) (batch : RecordBatch) (e : dyn) : option (Result bools) :=
  let lhs_supports_arrow_eq := supports_arrow_eq (array_type value) in
  r ←? evaluate e batch;
  match r with
  | Array a =>
      if lhs_supports_arrow_eq && supports_arrow_eq (array_type a) then
        m ←? Some (arrow_result (arrow_kernel K_eq (Array value) (Array a)));
        m ← as_bools m; Some (Ok m)
      else
        cmp ←? Some (arrow_result (arrow_compare value a));
        let buffer := map (λ i, is_eq (cmp i i)) (seq 0 num_rows) in
        let nulls := zip_with andb (Datum.validity value) (Datum.validity a) in
        Some (Ok (Datum.with_nulls buffer nulls))
  | Scalar scalar =>
      if is_null scalar then Some (Ok (replicate num_rows None))
      else if lhs_supports_arrow_eq then
        m ←? Some (arrow_result (arrow_kernel K_eq (Array value) (Scalar scalar)));
        m ← as_bools m; Some (Ok m)
      else
        cmp ←? Some (arrow_result (arrow_compare value (to_array_of_size scalar 1)));
        let buffer := map (λ i, is_eq (cmp i 0)) (seq 0 num_rows) in
        Some (Ok (Datum.with_nulls buffer (Datum.validity value)))
  end.

Fixpoint compare_rest (value : array) (num_rows : nat) (batch : RecordBatch) (found : bools) (l : list dyn)
    : option (Result bools) :=
  match l with
  | [] => Some (Ok found)
  | e :: l =>
      if bool_decide (null_count found = 0) && bool_decide (true_count found = num_rows) then Some (Ok found)
      else
        m ←? compare_one value num_rows batch e;
        found ←? Some (arrow_result (arrow_or_kleene found m));
        compare_rest value num_rows batch found l
  end.

Definition evaluate_static (f : StaticFilter) (at_null : Relation.value) (value : ColumnarValue) (num_rows : nat)
    (negated : bool) : option (Result bools) :=
  match value with
  | Array a => contains f at_null a negated
  | Scalar scalar =>
      if is_null scalar then Some (Ok (replicate num_rows None))
      else
        result_array ←? contains f at_null (to_array_of_size scalar 1) negated;
        first ← result_array !! 0;
        Some (Ok (replicate num_rows first))
  end.

Definition evaluate_dynamic (value : ColumnarValue) (l : list dyn) (negated : bool) (batch : RecordBatch)
    : option (Result bools) :=
  let n := num_rows batch in
  let value := into_array value n in
  found ←? match l with
           | first :: _ => compare_one value n batch first
           | [] => Some (Ok (replicate n (Some false)))
           end;
  found ←? compare_rest value n batch found (tail l);
  if negated then Some (arrow_result (arrow_not found)) else Some (Ok found).

Definition InListExpr_evaluate (e : dyn) (l : list dyn) (negated : bool) (static_filter : option StaticFilter)
    (at_null : value) (batch : RecordBatch) : option (Result ColumnarValue) :=
  value ←? evaluate e batch;
  r ←? match static_filter with
       | Some f => evaluate_static f at_null value (num_rows batch) negated
       | None => evaluate_dynamic value l negated batch
       end;
  Some (Ok (Array (BooleanArray r))).

Definition InListExpr_dyn (e : dyn) (l : list dyn) (negated : bool) (static_filter : option StaticFilter)
    (at_null : value) : dyn := {|
  evaluate := InListExpr_evaluate e l negated static_filter at_null;
  data_type := λ _, Ok DBoolean;
|}.

End Filters.

(** ** Three-valued membership *)

(** [x IN (l)]: the disjunction of the comparisons. *)
Definition in_cell (negated : bool) (x : option value) (l : list (option value)) : option bool :=
  let found := foldl or3 (Some false) (map (eq_cell x) l) in
  if negated then negb <$> found else found.

Definition in_list_row (negated : bool) (fx : row → option (option value)) (fs : list (row → option (option value)))
    (r : row) : option (option value) :=
  x ← fx r; vs ← mapM (λ f : row → option (option value), f r) fs; Some (bool_cell (in_cell negated x vs)).

Lemma foldl_or3_true l : foldl or3 (Some true) l = Some true.
Proof. by induction l. Qed.

Lemma foldl_or3 c l :
  foldl or3 c l = if decide (Some true ∈ c :: l) then Some true
                  else if decide (None ∈ c :: l) then None else Some false.
Proof.
  revert c. induction l as [|d l IH]; intros c; cbn [foldl].
  - destruct c as [[]|]; repeat case_decide; set_solver.
  - rewrite IH. destruct c as [[]|], d as [[]|]; cbn [or3]; repeat case_decide; set_solver.
Qed.

(** Against a non-empty set of values, by membership. *)
Definition set_cell (negated : bool) (values : list value) (has_null : bool) (x : option value) : option bool :=
  v ← x;
  if bool_decide (v ∈ values) then Some (negb negated) else if has_null then None else Some negated.

Lemma in_cell_set negated x l :
  l ≠ [] → in_cell negated x l = set_cell negated (omap id l) (bool_decide (0 < null_count l)) x.
Proof.
  intros Hne. unfold in_cell. rewrite foldl_or3. unfold set_cell. destruct x as [v|]; cbn [mbind option_bind].
  - assert (Hin : Some true ∈ Some false :: map (eq_cell (Some v)) l ↔ v ∈ omap id l).
    { rewrite elem_of_cons, list_elem_of_omap. change (map ?f l) with (f <$> l). rewrite list_elem_of_fmap. split.
      - intros [?|([w|] & Hc & Hw)]; try done. cbn in Hc. case_bool_decide; [subst|done]. by exists (Some w).
      - intros (c & Hc & Hv). cbn in Hv. subst c. right. exists (Some v). cbn. by rewrite bool_decide_true. }
    assert (Hnull : None ∈ Some false :: map (eq_cell (Some v)) l ↔ 0 < null_count l).
    { rewrite elem_of_cons. change (map ?f l) with (f <$> l). rewrite list_elem_of_fmap. unfold null_count. split.
      - intros [?|([w|] & Hc & Hw)]; try done. destruct (filter _ l) as [|y k] eqn:Hf; [|cbn; lia].
        assert (None ∈ filter (λ c : option value, c = None) l) as Hx by (by apply list_elem_of_filter). rewrite Hf in Hx. by apply elem_of_nil in Hx.
      - intros Hlen. right. destruct (filter _ l) as [|y k] eqn:Hf; [cbn in Hlen; lia|].
        assert (y ∈ filter (λ c : option value, c = None) l) as [-> Hy]%list_elem_of_filter by (rewrite Hf; by left).
        by exists None. }
    repeat case_decide; repeat case_bool_decide; destruct negated; cbn; tauto || done.
  - assert (map (eq_cell None) l = replicate (length l) None) as ->.
    { clear Hne. induction l as [|c l IH]; [done|]. cbn. by rewrite IH. }
    destruct l as [|c l]; [done|]. cbn [length replicate]. rewrite decide_False, decide_True.
    + by destruct negated.
    + set_solver.
    + rewrite elem_of_cons. intros [?|Hx]; [done|]. change (None :: replicate (length l) None) with (replicate (S (length l)) (None : option bool)) in Hx.
      by apply elem_of_replicate_inv in Hx.
Qed.

(** ** Static filters *)

Section Static.
Context `{HA : Arrow, HH : Foldhash, !ArrowCells, !ArrowOk}.

Lemma zip_with_same {A B C D} (f : B → C → D) (g : A → B) (h : A → C) l :
  zip_with f (map g l) (map h l) = map (λ x, f (g x) (h x)) l.
Proof. induction l as [|x l IH]; [done|]. cbn. by rewrite IH. Qed.

Lemma no_null_cell {A} (cs : list (option A)) c : null_count cs = 0 → In c cs → is_Some c.
Proof.
  unfold null_count. intros Hn Hc. destruct c as [x|]; [eauto|].
  apply nil_length_inv in Hn. assert (None ∈ filter (λ c : option A, c = None) cs) as Hx.
  { apply list_elem_of_filter. split; [done|]. by apply list_elem_of_In. }
  rewrite Hn in Hx. by apply elem_of_nil in Hx.
Qed.

Lemma primitive_contains_ok ty nulls values at_null v negated :
  array_type v = ty →
  primitive_contains ty nulls values at_null v negated
  = Some (Ok (map (set_cell negated values (bool_decide (0 < nulls))) (cells v))).
Proof.
  intros Hty. unfold primitive_contains. rewrite decide_True by done. do 2 f_equal.
  unfold Scatter.buffer_cells, Scatter.null_buffer, Scatter.value_buffer. set (cs := cells v). clearbody cs.
  destruct (bool_decide (0 < null_count cs)) eqn:Hn.
  - apply bool_decide_eq_true_1 in Hn. rewrite decide_False by lia. cbn [default]. unfold id.
    destruct (bool_decide (0 < nulls)), negated; rewrite !map_map, ?zip_with_same; apply map_ext; intros [w|]; cbn;
      rewrite ?negb_involutive; repeat case_bool_decide; done.
  - apply bool_decide_eq_false_1 in Hn. assert (null_count cs = 0) as Hz by lia.
    destruct (bool_decide (0 < nulls)), negated; rewrite !map_map, ?zip_with_same; apply map_ext_in; intros c Hc;
      destruct (no_null_cell _ _ Hz Hc) as [w ->]; cbn; rewrite ?negb_involutive; repeat case_bool_decide; done.
Qed.

(** *** The hash table *)

Lemma hashes_of_ok a :
  HashUtils.flat a → hashes_of a = Some (Ok (map (λ c, HashUtils.cell_hash false c 0%N) (cells a))).
Proof.
  intros Hf. unfold hashes_of, HashUtils.create_hashes. cbn [HashUtils.create_hashes_from].
  rewrite HashUtils.hash_single_array_cells by (rewrite ?length_replicate; done).
  cbn [mbind option_bind]. do 2 f_equal. rewrite <- length_cells.
  change (bool_decide (1 ≤ 0)) with false. induction (cells a) as [|c cs IH]; [done|]. cbn. by rewrite IH.
Qed.

Lemma from_hash_spec map hash p :
  from_hash map hash p = true ↔ ∃ idx, (hash, idx) ∈ map ∧ p idx = true.
Proof.
  unfold from_hash. rewrite existsb_exists. split.
  - intros ([h idx] & Hin & [Hh%bool_decide_eq_true_1 Hp]%andb_prop). cbn in Hh, Hp. subst h. exists idx.
    split; [by apply list_elem_of_In|done].
  - intros (idx & Hin & Hp). exists (hash, idx). split; [by apply list_elem_of_In|]. cbn. by rewrite bool_decide_true.
Qed.

Lemma is_eq_spec c : is_eq c = true ↔ c = Datatypes.Eq.
Proof. by destruct c. Qed.

(** The table holds the values at the inserted indices, each under its hash. *)
Definition table_ok (cs : list (option value)) (map : list (N * nat)) : Prop :=
  ∀ hash idx, (hash, idx) ∈ map → ∃ y, cs !! idx = Some (Some y) ∧ hash = hash_one y.

Definition table_has (cs : list (option value)) (map : list (N * nat)) (y : value) : Prop :=
  ∃ idx, (hash_one y, idx) ∈ map ∧ cs !! idx = Some (Some y).

Lemma insert_values_ok cs cmp indices map :
  (∀ i j x y, cs !! i = Some (Some x) → cs !! j = Some (Some y) → cmp i j = Datatypes.Eq ↔ x = y) →
  Forall (λ i, ∃ y, cs !! i = Some (Some y)) indices → table_ok cs map →
  ∃ map', insert_values (List.map (λ c, HashUtils.cell_hash false c 0%N) cs) cmp indices map = Some map' ∧ table_ok cs map' ∧
    (∀ y, table_has cs map y → table_has cs map' y) ∧
    (∀ i y, i ∈ indices → cs !! i = Some (Some y) → table_has cs map' y).
Proof.
  intros Hcmp Hidx. revert map. induction Hidx as [|i indices [y Hy] Hidx IH]; intros map Hmap; cbn [insert_values].
  { exists map. split_and!; [done..|]. by intros i y ?%elem_of_nil. }
  assert (List.map (λ c, HashUtils.cell_hash false c 0%N) cs !! i = Some (hash_one y)) as ->.
  { change (List.map ?f cs) with (f <$> cs). rewrite list_lookup_fmap, Hy. done. }
  cbn [mbind option_bind]. set (map1 := if from_hash _ _ _ then map else _).
  assert (table_ok cs map1 ∧ (∀ z, table_has cs map z → table_has cs map1 z) ∧ table_has cs map1 y) as (Hok & Hmono & Hhas).
  { unfold map1. destruct (from_hash _ _ _) eqn:Hf.
    - apply from_hash_spec in Hf as (idx & Hin & Hc%is_eq_spec). split_and!; [done..|].
      destruct (Hmap _ _ Hin) as (x & Hx & _). exists idx. split; [done|].
      apply (Hcmp idx i x y Hx Hy) in Hc. by subst x.
    - split_and!.
      + intros h idx [Hin|[= -> ->]%list_elem_of_singleton]%elem_of_app; [by apply Hmap|]. by exists y.
      + intros z (idx & Hin & Hz). exists idx. split; [|done]. apply elem_of_app. by left.
      + exists i. split; [|done]. apply elem_of_app. right. by left. }
  destruct (IH map1 Hok) as (map' & -> & Hok' & Hmono' & Hhas'). exists map'. split_and!; [done..| |].
  - intros z Hz. by apply Hmono', Hmono.
  - intros j z [->|Hj]%elem_of_cons Hz; [|by eapply Hhas']. rewrite Hy in Hz. injection Hz as <-. by apply Hmono'.
Qed.

(** The indices of the values of an array. *)
Lemma valid_indices cs :
  ∀ i, i ∈ match Scatter.null_buffer cs with Some valid => set_indices 0 valid | None => seq 0 (length cs) end
       ↔ ∃ y : value, cs !! i = Some (Some y).
Proof.
  assert (Hset : ∀ from i, i ∈ set_indices from (map (λ c, bool_decide (c ≠ None)) cs) ↔
    ∃ y : value, from ≤ i ∧ cs !! (i - from) = Some (Some y)).
  { induction cs as [|c cs IH]; intros from i; cbn.
    { rewrite elem_of_nil. split; [done|]. by intros (y & _ & ?). }
    assert (i ∈ set_indices (S from) (map (λ c, bool_decide (c ≠ None)) cs) ↔
      ∃ y : value, from < i ∧ (c :: cs) !! (i - from) = Some (Some y)) as Htail.
    { rewrite IH. split; intros (y & Hi & Hy); exists y; (split; [lia|]); replace (i - from) with (S (i - S from)) in * by lia; done. }
    case_bool_decide as Hc; rewrite ?elem_of_cons, Htail; clear Htail.
    - destruct c as [v|]; [|done]. split.
      + intros [->|(y & Hi & Hy)]; [exists v; split; [lia|]; by rewrite Nat.sub_diag|]. exists y. split; [lia|done].
      + intros (y & Hi & Hy). destruct (decide (i = from)); [by left|]. right. exists y. split; [lia|done].
    - destruct c as [v|]; [done|]. split; intros (y & Hi & Hy); exists y; (split; [|done]); [lia|].
      destruct (decide (i = from)) as [->|]; [|lia]. by rewrite Nat.sub_diag in Hy. }
  intros i. unfold Scatter.null_buffer. case_decide as Hn.
  - rewrite elem_of_seq. split.
    + intros [_ [c Hc]%lookup_lt_is_Some_2]. destruct (no_null_cell cs c Hn) as [y ->]; [|eauto].
      apply list_elem_of_In. by eapply list_elem_of_lookup_2.
    + intros (y & Hy). apply lookup_lt_Some in Hy. lia.
  - rewrite Hset, Nat.sub_0_r. split; intros (y & Hy); exists y; [tauto|]. split; [lia|done].
Qed.

Lemma omap_id_elem (cs : list (option value)) y : y ∈ omap id cs ↔ ∃ i, cs !! i = Some (Some y).
Proof.
  rewrite list_elem_of_omap. split.
  - intros (c & Hc & Hy). cbn in Hy. subst c. by apply list_elem_of_lookup_1.
  - intros (i & Hi). exists (Some y). split; [by eapply list_elem_of_lookup_2|done].
Qed.

Lemma flat_not_null a : HashUtils.flat a → array_type a ≠ DNull.
Proof.
  destruct a as [| | | |ty vs]; try done. intros Hf [= ->]. revert Hf. by apply (bool_decide_unpack (¬ _)).
Qed.

Lemma array_try_new_ok a :
  HashUtils.flat a →
  ∃ map, array_filter_try_new a = Some (Ok (ArrayFilter a map)) ∧ table_ok (cells a) map ∧
    ∀ y, y ∈ omap id (cells a) → table_has (cells a) map y.
Proof.
  intros Hf. unfold array_filter_try_new. rewrite decide_False by (by apply flat_not_null).
  rewrite hashes_of_ok by done. cbn [try_bind]. destruct (arrow_compare_ok a a eq_refl) as (cmp & -> & Hcmp).
  cbn [arrow_result try_bind]. rewrite <- length_cells.
  edestruct (insert_values_ok (cells a) cmp) as (map & -> & Hok & _ & Hhas); [exact Hcmp| |by intros ? ? ?%elem_of_nil|].
  { apply Forall_forall. intros i Hi. by apply valid_indices. }
  exists map. split_and!; [done..|]. intros y (i & Hi)%omap_id_elem. eapply Hhas; [|exact Hi]. apply valid_indices. eauto.
Qed.

Lemma array_contains_ok a map v negated :
  HashUtils.flat a → HashUtils.flat v → array_type v = array_type a → table_ok (cells a) map →
  (∀ y, y ∈ omap id (cells a) → table_has (cells a) map y) →
  array_contains a map v negated
  = Some (Ok (List.map (set_cell negated (omap id (cells a)) (bool_decide (0 < null_count (cells a)))) (cells v))).
Proof.
  intros Ha Hv Hty Hok Hhas. unfold array_contains.
  rewrite !bool_decide_false by (by apply flat_not_null). cbn [orb]. rewrite hashes_of_ok by done. cbn [try_bind].
  destruct (arrow_compare_ok v a Hty) as (cmp & -> & Hcmp). cbn [arrow_result try_bind].
  erewrite mapM_total with (g := λ i, set_cell negated (omap id (cells a)) (bool_decide (0 < null_count (cells a)))
    (default None (cells v !! i))).
  - cbn. do 2 f_equal. rewrite <- length_cells. apply list_eq. intros i.
    change (List.map ?f ?l) with (f <$> l). rewrite !list_lookup_fmap.
    destruct (decide (i < length (cells v))) as [Hi|Hi].
    + rewrite lookup_seq_lt by done. apply lookup_lt_is_Some_2 in Hi as [c Hc].
      cbn [fmap option_fmap option_map Nat.add]. by rewrite Hc.
    + by rewrite lookup_seq_ge, lookup_ge_None_2 by lia.
  - intros i Hi. assert (i < length (cells v)) as [c Hc]%lookup_lt_is_Some_2.
    { apply elem_of_seq in Hi. rewrite length_cells. lia. }
    rewrite Hc. cbn [mbind option_bind default]. unfold id. destruct c as [y|]; [|done].
    change (List.map ?f (cells v)) with (f <$> cells v). rewrite list_lookup_fmap, Hc.
    cbn [fmap option_fmap option_map mbind option_bind HashUtils.cell_hash]. unfold set_cell. cbn [mbind option_bind].
    assert (from_hash map (hash_one y) (λ idx, is_eq (cmp i idx)) = bool_decide (y ∈ omap id (cells a))) as ->.
    { apply eq_true_iff_eq. rewrite from_hash_spec, bool_decide_eq_true. split.
      - intros (idx & Hin & He%is_eq_spec). destruct (Hok _ _ Hin) as (x & Hx & _).
        apply (Hcmp i idx y x Hc Hx) in He. subst x. apply omap_id_elem. eauto.
      - intros (idx & Hin & Hx)%Hhas. exists idx. split; [done|]. apply is_eq_spec. by apply (Hcmp i idx y y Hc Hx). }
    destruct (bool_decide (y ∈ _)); [done|]. repeat case_bool_decide; cbn; done || lia.
Qed.

(** Types the filters handle by value. *)
Definition flat_type (ty : DataType) : Prop := HashUtils.flat (array_of ty []).

Lemma flat_array a : flat_type (array_type a) → HashUtils.flat a.
Proof. by destruct a. Qed.

(** Any filter built from an array answers membership in its values. *)
Lemma contains_ok a f at_null v negated :
  flat_type (array_type a) → instantiate_static_filter a = Some (Ok f) → array_type v = array_type a →
  contains f at_null v negated
  = Some (Ok (List.map (set_cell negated (omap id (cells a)) (bool_decide (0 < null_count (cells a)))) (cells v))).
Proof.
  intros Hflat Hf Hty. unfold instantiate_static_filter in Hf. destruct (has_primitive_filter _).
  - injection Hf as <-. by apply primitive_contains_ok.
  - destruct (array_try_new_ok a) as (map & Hnew & Hok & Hhas); [by apply flat_array|].
    rewrite Hnew in Hf. injection Hf as <-.
    apply array_contains_ok; try done; apply flat_array; by rewrite ?Hty.
Qed.

Lemma instantiate_total a : flat_type (array_type a) → ∃ f, instantiate_static_filter a = Some (Ok f).
Proof.
  intros Hf. unfold instantiate_static_filter. destruct (has_primitive_filter _); [eauto|].
  destruct (array_try_new_ok a) as (map & Hnew & _); [by apply flat_array|]. eauto.
Qed.

Lemma evaluate_static_ok n a f at_null value negated :
  flat_type (array_type a) → cells a ≠ [] → instantiate_static_filter a = Some (Ok f) →
  fits n (array_type a) value →
  evaluate_static f at_null value n negated
  = Some (Ok (List.map (λ x, in_cell negated x (cells a)) (spread n value))).
Proof.
  intros Hflat Hne Hf [Hty Hfit].
  assert (∀ x, in_cell negated x (cells a)
    = set_cell negated (omap id (cells a)) (bool_decide (0 < null_count (cells a))) x) as Hset
    by (intros x; by apply in_cell_set).
  unfold evaluate_static. destruct value as [v|s]; cbn [columnar_type spread] in *.
  - rewrite (contains_ok a) by done. do 2 f_equal. by apply map_ext.
  - assert (Hrep : List.map (λ x, in_cell negated x (cells a)) (replicate n (s_value s))
      = replicate n (in_cell negated (s_value s) (cells a))).
    { change (List.map ?g ?l) with (g <$> l). by rewrite fmap_replicate. }
    rewrite Hrep, Hset. unfold is_null.
    destruct (bool_decide (s_value s = None)) eqn:Hn; [apply bool_decide_eq_true_1 in Hn; by rewrite Hn|].
    unfold to_array_of_size. rewrite (contains_ok a); [|done|done|by rewrite array_type_of].
    rewrite cells_array_of by (rewrite Hty; by constructor). done.
Qed.

(** ** Comparison with one item after the other *)

Lemma arrow_eq_not_nested ty : supports_arrow_eq ty = true → is_nested ty = false.
Proof.
  destruct ty as [| | | |name]; try done. cbn. intros Hs. apply bool_decide_eq_false_2. intros Hn. revert Hs.
  apply not_true_iff_false, orb_false_iff.
  repeat (apply elem_of_cons in Hn as [->|Hn]; [by vm_compute|]). by apply elem_of_nil in Hn.
Qed.

Lemma eq_cell_sym x y : eq_cell x y = eq_cell y x.
Proof. destruct x, y; cbn; try done. f_equal. by apply bool_decide_ext. Qed.

Lemma is_eq_decide c : is_eq c = bool_decide (c = Datatypes.Eq).
Proof. by destruct c. Qed.

Lemma compare_one_ok value n b e ty v :
  array_type value = ty → array_len value = n → evaluate e b = Some (Ok v) → fits n ty v →
  compare_one value n b e = Some (Ok (zip_with eq_cell (cells value) (spread n v))).
Proof.
  intros Hty Hn Hev Hv. unfold compare_one. rewrite Hev. cbn [try_bind]. rewrite Hty.
  assert (Hval : fits n ty (Array value)) by (rewrite <- Hty; by apply fits_array).
  destruct v as [a|s].
  - destruct Hv as [Ha Hla]. cbn [columnar_type] in Ha. rewrite Ha, andb_diag. destruct (supports_arrow_eq ty) eqn:Hs.
    + by rewrite (Datum.kernel_eq_ok n ty) by (done || by apply arrow_eq_not_nested).
    + destruct (arrow_compare_ok value a) as (cmp & -> & Hcmp); [congruence|]. cbn [arrow_result try_bind]. do 2 f_equal.
      unfold Datum.validity. cbn [spread]. apply Datum.with_nulls_eq_cell; [by rewrite length_cells..|].
      intros i x y Hx Hy. rewrite is_eq_decide. apply bool_decide_ext. eauto.
  - unfold is_null. cbn [spread]. case_bool_decide as Hnull.
    { rewrite Hnull. do 2 f_equal. rewrite <- Hn, <- length_cells. clear.
      induction (cells value) as [|c cs IH]; [done|]. cbn. rewrite <- IH. by destruct c. }
    destruct (s_value s) as [w|] eqn:Hw; [|done]. destruct (supports_arrow_eq ty) eqn:Hs.
    + rewrite (Datum.kernel_eq_ok n ty) by (done || by apply arrow_eq_not_nested). cbn. by rewrite Hw.
    + destruct Hv as [Hst Hsv]. cbn in Hst. destruct (arrow_compare_ok value (to_array_of_size s 1)) as (cmp & -> & Hcmp).
      { unfold to_array_of_size. rewrite array_type_of. congruence. }
      cbn [arrow_result try_bind]. do 2 f_equal.
      assert (Datum.validity value = zip_with andb (Datum.validity value)
        (map (λ c : option Relation.value, bool_decide (c ≠ None)) (replicate n (Some w)))) as ->.
      { change (map ?f (replicate n ?c)) with (f <$> replicate n c). rewrite fmap_replicate, (bool_decide_true (Some w ≠ None)), <- Hn, <- length_cells by done.
        unfold Datum.validity. clear. induction (cells value) as [|c cs IH]; [done|]. cbn. rewrite <- IH. by rewrite andb_true_r. }
      unfold Datum.validity. apply Datum.with_nulls_eq_cell; [by rewrite length_cells|by rewrite length_replicate|].
      intros i x y Hx [[= ->] _]%lookup_replicate. rewrite is_eq_decide. apply bool_decide_ext.
      apply (Hcmp i 0 x _ Hx). unfold to_array_of_size. rewrite cells_array_of by (rewrite Hst; by constructor). by rewrite Hw.
Qed.

Lemma compare_rest_ok {X} (rs : list X) value n b ty (x : X → option Relation.value) es (cols : list (X → option Relation.value)) g :
  array_type value = ty → cells value = map x rs → length rs = n → 
  Forall2 (λ e c, ∃ v, evaluate e b = Some (Ok v) ∧ fits n ty v ∧ spread n v = map c rs) es cols →
  compare_rest value n b (map g rs) es
  = Some (Ok (map (λ r, foldl or3 (g r) (map (λ c, eq_cell (x r) (c r)) cols)) rs)).
Proof.
  intros Hty Hcells Hn Hes. assert (array_len value = n) as Hlen by (by rewrite <- length_cells, Hcells, length_map).
  revert g. induction Hes as [|e c es cols (v & Hev & Hv & Hsp) Hes IH]; intros g; [done|].
  cbn [compare_rest map foldl]. destruct (bool_decide (null_count (map g rs) = 0) && _) eqn:Hall.
  - apply andb_prop in Hall as [_ Ht%bool_decide_eq_true_1]. do 2 f_equal. apply map_ext_in. intros r Hr.
    assert (g r = Some true) as Hg.
    { unfold true_count in Ht. rewrite <- Hn, <- (length_map g rs) in Ht. clear -Ht Hr.
      assert (Forall (λ c, c = Some true) (map g rs)) as Hall.
      { revert Ht. generalize (map g rs). intros m. induction m as [|d m IH]; [by constructor|].
        rewrite filter_cons. pose proof (length_filter (λ c : option bool, c = Some true) m).
        case_decide; cbn; intros Ht; [|lia]. constructor; [done|]. apply IH. lia. }
      rewrite Forall_forall in Hall. apply Hall. change (map g rs) with (g <$> rs). apply list_elem_of_fmap. exists r. by rewrite list_elem_of_In. }
    rewrite Hg. cbn [or3]. by rewrite foldl_or3_true.
  - rewrite (compare_one_ok value n b e ty v) by done. cbn [try_bind]. rewrite Hsp, Hcells, zip_with_same.
    rewrite arrow_or_kleene_ok by (by rewrite !length_map). cbn [arrow_result try_bind]. rewrite zip_with_same. apply IH.
Qed.

(** ** Expressions *)

(** A cell where a function has one. *)
Abbreviation at_row f r := (default None (f r : option (option Relation.value))).

Lemma mapM_rows {A} (f : A → option (option Relation.value)) l vs :
  mapM f l = Some vs → vs = map (λ r, at_row f r) l ∧ Forall (λ r, is_Some (f r)) l.
Proof.
  revert vs. induction l as [|r l IH]; intros vs; cbn; [by intros [= <-]|].
  intros (v & Hv & (vs' & Hvs & [= <-])%bind_Some)%bind_Some. destruct (IH vs' Hvs) as [-> HF]. split.
  - by rewrite Hv.
  - constructor; [by rewrite Hv|done].
Qed.

Lemma rows_mapM {A} (f : A → option (option Relation.value)) l :
  Forall (λ r, is_Some (f r)) l → mapM f l = Some (map (λ r, at_row f r) l).
Proof.
  intros HF. apply mapM_total. intros r Hr. rewrite Forall_forall in HF.
  destruct (HF r Hr) as [v ->]. done.
Qed.

Lemma in_list_row_inv negated fx fs r c :
  in_list_row negated fx fs r = Some c →
  is_Some (fx r) ∧ Forall (λ f : row → option (option Relation.value), is_Some (f r)) fs ∧
  c = bool_cell (in_cell negated (at_row fx r) (map (λ f : row → option (option Relation.value), at_row f r) fs)).
Proof.
  unfold in_list_row. intros (x & Hx & (vs & Hvs & [= <-])%bind_Some)%bind_Some.
  rewrite <- mapM_map with (f := id) (g := λ f : row → option (option Relation.value), f r) in Hvs.
  apply mapM_rows in Hvs as [-> HF]. rewrite Hx. split_and!; [eauto| |].
  - by rewrite Forall_map in HF.
  - by rewrite map_map.
Qed.

Lemma in_list_rows_inv negated fx fs rs vs :
  mapM (in_list_row negated fx fs) rs = Some vs →
  mapM fx rs = Some (map (λ r, at_row fx r) rs) ∧
  Forall (λ f : row → option (option Relation.value), mapM f rs = Some (map (λ r, at_row f r) rs)) fs ∧
  vs = map (λ r, bool_cell (in_cell negated (at_row fx r) (map (λ f : row → option (option Relation.value), at_row f r) fs))) rs.
Proof.
  intros Hvs. apply mapM_rows in Hvs as [-> HF].
  assert (Hinv : ∀ r, r ∈ rs → ∃ c, in_list_row negated fx fs r = Some c) by (intros r Hr; rewrite Forall_forall in HF; by apply HF).
  split_and!.
  - apply rows_mapM, Forall_forall. intros r [c Hc]%Hinv. by apply in_list_row_inv in Hc as [? _].
  - apply Forall_forall. intros f Hf. apply rows_mapM, Forall_forall. intros r [c Hc]%Hinv.
    apply in_list_row_inv in Hc as (_ & HFs & _). rewrite Forall_forall in HFs. by apply HFs.
  - apply map_ext_in. intros r Hr%list_elem_of_In. destruct (Hinv r Hr) as [c Hc]. rewrite Hc.
    by apply in_list_row_inv in Hc as (_ & _ & ->).
Qed.

Lemma dynamic_computes schema dx ty fx ds fs negated at_null :
  computes schema dx ty fx → Forall2 (λ d f, computes schema d ty f) ds fs →
  computes schema (InListExpr_dyn dx ds negated None at_null) DBoolean (in_list_row negated fx fs).
Proof.
  intros Hx Hds. split; [done|]. intros b vs Hwf Hs Hn Hu Hvs.
  apply in_list_rows_inv in Hvs as (Hxs & Hfs & ->). destruct (proj2 Hx b _ Hwf Hs Hn Hu Hxs) as (v & Hev & Hv & Hsp).
  cbn [evaluate InListExpr_dyn]. unfold InListExpr_evaluate, evaluate_dynamic. rewrite Hev. cbn [try_bind].
  set (value := into_array v (num_rows b)).
  assert (array_type value = ty ∧ cells value = map (λ r, at_row fx r) (rows b)) as [Hty Hcells].
  { unfold value. rewrite into_array_type, (cells_into_array _ _ _ Hv). split; [apply Hv|done]. }
  pose proof (length_rows b) as Hlen.
  assert (Hes : Forall2 (λ d c, ∃ v, evaluate d b = Some (Ok v) ∧ fits (num_rows b) ty v
    ∧ spread (num_rows b) v = map c (rows b)) ds (map (λ f r, at_row f r) fs)).
  { clear -Hds Hfs Hwf Hs Hn Hu. induction Hds as [|d f ds fs Hd Hds IH]; [by constructor|].
    apply Forall_cons in Hfs as [Hf Hfs]. cbn. constructor; [by apply (proj2 Hd)|by apply IH]. }
  set (g := λ r, match map (λ f r, at_row f r) fs with [] => Some false | c :: _ => eq_cell (at_row fx r) (c r) end).
  assert (match ds with first :: _ => compare_one value (num_rows b) b first | [] => Some (Ok (replicate (num_rows b) (Some false))) end
    = Some (Ok (map g (rows b)))) as ->.
  { unfold g. destruct Hes as [|d c ds' cols (w & Hw & Hwf' & Hwsp) Hes].
    - do 2 f_equal. rewrite <- Hlen. clear. induction (rows b) as [|r l IH]; [done|]. cbn. by rewrite IH.
    - rewrite (compare_one_ok value _ b d ty w); [|done|by rewrite <- length_cells, Hcells, length_map|done..].
      by rewrite Hcells, Hwsp, zip_with_same. }
  cbn [try_bind].
  rewrite (compare_rest_ok (rows b) value _ b ty (λ r, at_row fx r) (tail ds) (tail (map (λ f r, at_row f r) fs)) g);
    [|done..|by destruct Hes].
  cbn [try_bind]. set (out := map _ (rows b)).
  assert (out = map (λ r, in_cell false (at_row fx r) (map (λ f : row → option (option Relation.value), at_row f r) fs)) (rows b)) as ->.
  { unfold out, in_cell, g. apply map_ext. intros r. destruct fs as [|f fs]; [done|]. cbn.
    assert (or3 (Some false) (eq_cell (at_row fx r) (at_row f r)) = eq_cell (at_row fx r) (at_row f r)) as Hor
      by (by destruct (eq_cell _ _) as [[]|]).
    cbn in Hor. rewrite Hor. by rewrite !map_map. }
  exists (Array (BooleanArray (map (λ r, in_cell negated (at_row fx r) (map (λ f : row → option (option Relation.value), at_row f r) fs)) (rows b)))).
  split; [|split].
  - destruct negated; [|done]. rewrite arrow_not_ok. cbn. do 4 f_equal. by rewrite map_map.
  - apply fits_bools. by rewrite length_map.
  - cbn. by rewrite map_map.
Qed.

(** List items that are the same scalar on every batch. *)
Definition constant_item (d : dyn) (s : ScalarValue) : Prop := ∀ b, evaluate d b = Some (Ok (Scalar s)).

Lemma constant_values schema b ds fs ss ty :
  Forall2 (λ d f, computes schema d ty f) ds fs → Forall2 constant_item ds ss →
  batch_wf b → schema_of b = schema → 0 < num_rows b → (Z.of_nat (num_rows b) < 2 ^ 32)%Z →
  Forall (λ f : row → option (option Relation.value), mapM f (rows b) = Some (map (λ r, at_row f r) (rows b))) fs →
  Forall (λ s, s_type s = ty ∧ has_type ty (s_value s)) ss ∧
  ∀ r, r ∈ rows b → map (λ f : row → option (option Relation.value), at_row f r) fs = map s_value ss.
Proof.
  intros Hds Hss Hwf Hs Hn Hu. revert ss Hss. induction Hds as [|d f ds fs Hd Hds IH]; intros ss Hss Hfs.
  { apply Forall2_nil_inv_l in Hss as ->. by split. }
  apply Forall2_cons_inv_l in Hss as (s & ss' & Hc & Hss & ->). apply Forall_cons in Hfs as [Hf Hfs].
  destruct (IH ss' Hss Hfs) as [HF Heq]. destruct (proj2 Hd b _ Hwf Hs Hn Hu Hf) as (v & Hev & Hv & Hsp).
  rewrite (Hc b) in Hev. injection Hev as <-. split.
  - constructor; [|done]. apply Hv.
  - intros r Hr. cbn. rewrite (Heq r Hr). f_equal. cbn in Hsp.
    assert (at_row f r ∈ map (λ r, at_row f r) (rows b)) as Hin
      by (change (map ?g ?l) with (g <$> l); apply list_elem_of_fmap; by exists r).
    rewrite <- Hsp in Hin. by apply elem_of_replicate in Hin as [-> _].
Qed.

Lemma static_computes schema dx ty fx ds fs ss negated a f at_null :
  computes schema dx ty fx → Forall2 (λ d f, computes schema d ty f) ds fs → Forall2 constant_item ds ss →
  ss ≠ [] → flat_type ty → iter_to_array ss = Ok a → instantiate_static_filter a = Some (Ok f) →
  computes schema (InListExpr_dyn dx ds negated (Some f) at_null) DBoolean (in_list_row negated fx fs).
Proof.
  intros Hx Hds Hss Hne Hflat Ha Hf. split; [done|]. intros b vs Hwf Hs Hn Hu Hvs.
  apply in_list_rows_inv in Hvs as (Hxs & Hfs & ->). destruct (proj2 Hx b _ Hwf Hs Hn Hu Hxs) as (v & Hev & Hv & Hsp).
  destruct (constant_values schema b ds fs ss ty) as [HF Hrow]; [done..|].
  destruct (iter_to_array_ok ss ty Hne HF) as [Ha' Hcells]. rewrite Ha in Ha'. injection Ha' as ->.
  cbn [evaluate InListExpr_dyn]. unfold InListExpr_evaluate. rewrite Hev. cbn [try_bind].
  rewrite (evaluate_static_ok (num_rows b) (array_of ty (map s_value ss))); rewrite ?array_type_of, ?Hcells; try done.
  2: by destruct ss.
  cbn [try_bind]. rewrite Hsp, map_map. eexists. split; [done|]. split; [apply fits_bools; by rewrite length_map, length_rows|].
  cbn. rewrite map_map. apply map_ext_in. intros r Hr%list_elem_of_In. by rewrite (Hrow r Hr).
Qed.

End Static.

End InList.
