(* ===== verification/HashExprs.v ===== *)
(** * Expressions over join keys (physical-plan/src/joins/hash_join/partitioned_hash_eval.rs)

    [HashExpr] hashes the values of some columns, [HashTableLookupExpr] asks an
    index of a build side whether it has them.  Proved: on a batch both compute
    their function of the keys of each row. *)

From stdpp Require Import base list strings gmap.
From Stdlib Require Import ZArith Lia.
From S2P Require Import Prelude Relation HashUtils JoinHashMap ArrayMap JoinMap Columnar InList.

Module HashExprs.

(** The state of a hash function with the seed it was made from. *)
Record SeededRandomState := { random_state : Foldhash; seed : N }.

(** What is computed from the key columns: [HashExpr] and [HashTableLookupExpr]. *)
Inductive KeysFunction :=
| HashKeys (state : SeededRandomState)
| LookupKeys (state : SeededRandomState) (map : JoinMap.Map).

Abbreviation DUInt64 := (DOther "UInt64").

Fixpoint evaluate_columns (columns : list dyn) (batch : RecordBatch) : option (Result (list array)) :=
  match columns with
  | [] => Some (Ok [])
  | c :: columns =>
      v ←? evaluate c batch;
      arrays ←? evaluate_columns columns batch;
      Some (Ok (into_array v (num_rows batch) :: arrays))
  end.

(** [with_hashes]: the hashes of the rows in a buffer of the length of the first array. *)
Definition with_hashes (state : SeededRandomState) (arrays : list array) : option (Result (list N)) :=
  match arrays with
  | [] => Some (Err (Internal "with_hashes requires at least one array"))
  | a :: _ => @HashUtils.create_hashes (random_state state) arrays (replicate (array_len a) 0%N)
  end.

Definition HashExpr_evaluate (on_columns : list dyn) (state : SeededRandomState) (batch : RecordBatch)
    : option (Result ColumnarValue) :=
  keys_values ←? evaluate_columns on_columns batch;
  hashes ←? @HashUtils.create_hashes (random_state state) keys_values (replicate (num_rows batch) 0%N);
  Some (Ok (Array (OtherArray "UInt64" (map (λ hash, Some (Z.of_N hash)) hashes)))).

Definition HashTableLookupExpr_evaluate (on_columns : list dyn) (state : SeededRandomState) (m : JoinMap.Map)
    (batch : RecordBatch) : option (Result ColumnarValue) :=
  join_keys ←? evaluate_columns on_columns batch;
  match m with
  | JoinMap.HashMap m =>
      hashes ←? with_hashes state join_keys;
      Some (Ok (Array (BooleanArray (map Some (JoinHashMap.contain_hashes m hashes)))))
  | JoinMap.ArrayMap m =>
      keys ← mapM (λ a, JoinMap.key_array (array_type a) (cells a)) join_keys;
      found ←? ArrayMap.contain_keys m keys;
      Some (Ok (Array (BooleanArray (map Some found))))
  end.

Definition keys_type (f : KeysFunction) : DataType :=
  match f with HashKeys _ => DUInt64 | LookupKeys _ _ => DBoolean end.

Definition KeysExpr_dyn (f : KeysFunction) (on_columns : list dyn) : dyn := {|
  evaluate :=
    match f with
    | HashKeys state => HashExpr_evaluate on_columns state
    | LookupKeys state m => HashTableLookupExpr_evaluate on_columns state m
    end;
  data_type := λ _, Ok (keys_type f);
|}.

(** ** One row *)

(** Whether an index has the keys of a row; [None] where the lookup panics. *)
Definition lookup_row (state : SeededRandomState) (m : JoinMap.Map) (keys : row) : option bool :=
  match m, keys with
  | JoinMap.HashMap m, _ => Some (bool_decide (is_Some (JoinHashMap.map m !! @HashUtils.row_hash (random_state state) keys)))
  | JoinMap.ArrayMap m, [key] =>
      val ← match key with None => Some None | Some v => Some <$> JoinMap.int_of v end;
      entry ← ArrayMap.entry_of m val;
      Some (bool_decide (entry ≠ 0))
  | JoinMap.ArrayMap _, _ => None
  end.

Definition keys_cell (f : KeysFunction) (keys : row) : option (option value) :=
  match f with
  | HashKeys state => Some (Some (VOther "UInt64" (Z.of_N (@HashUtils.row_hash (random_state state) keys))))
  | LookupKeys state m => found ← lookup_row state m keys; Some (Some (VBoolean found))
  end.

Definition keys_row (f : KeysFunction) (fs : list (row → option (option value))) (r : row) : option (option value) :=
  keys ← mapM (λ g : row → option (option value), g r) fs; keys_cell f keys.

(** The types of keys a function takes. *)
Definition keys_ok (f : KeysFunction) (tys : list DataType) : Prop :=
  match f with
  | HashKeys _ => Forall InList.flat_type tys
  | LookupKeys _ (JoinMap.HashMap _) => tys ≠ [] ∧ Forall InList.flat_type tys
  | LookupKeys _ (JoinMap.ArrayMap _) => ∃ ty, tys = [ty] ∧ is_Some (JoinMap.int_type ty)
  end.

(** ** Batches *)

Lemma evaluate_columns_ok schema ds tys fs b :
  Forall3 (computes schema) ds tys fs →
  batch_wf b → schema_of b = schema → 0 < num_rows b → (Z.of_nat (num_rows b) < 2 ^ 32)%Z →
  Forall (λ f : row → option (option value), Forall (λ r, is_Some (f r)) (rows b)) fs →
  ∃ arrays, evaluate_columns ds b = Some (Ok arrays) ∧ map array_type arrays = tys ∧
    map cells arrays = map (λ f : row → option (option value), map (λ r, default None (f r)) (rows b)) fs.
Proof.
  intros Hds Hwf Hs Hn Hu. induction Hds as [|d ty f ds tys fs Hd Hds IH]; intros Hfs; [by exists []|].
  apply Forall_cons in Hfs as [Hf Hfs]. destruct (IH Hfs) as (arrays & He & Hty & Hc).
  destruct (proj2 Hd b _ Hwf Hs Hn Hu (InList.rows_mapM f _ Hf)) as (v & Hv & Hfit & Hsp).
  exists (into_array v (num_rows b) :: arrays). cbn. rewrite Hv. cbn. rewrite He. cbn. split; [done|].
  rewrite into_array_type, Hty, (cells_into_array _ _ _ Hfit), Hsp, Hc. split; [|done]. f_equal. apply Hfit.
Qed.

(** The key arrays as a batch, row by row. *)
Lemma key_rows arrays (fs : list (row → option (option value))) rs n :
  length rs = n → map cells arrays = map (λ f : row → option (option value), map (λ r, default None (f r)) rs) fs →
  batch_wf {| columns := arrays; num_rows := n |} ∧
  rows {| columns := arrays; num_rows := n |} = map (λ r, map (λ f : row → option (option value), default None (f r)) fs) rs.
Proof.
  intros <- Hc. split.
  - unfold batch_wf. cbn. revert fs Hc. induction arrays as [|a arrays IH]; intros [|f fs] Hc; try done.
    cbn in Hc. injection Hc as Ha Hc. constructor; [|by eapply IH]. by rewrite <- length_cells, Ha, length_map.
  - apply list_eq. intros i. unfold rows. cbn [num_rows]. change (map ?g rs) with (g <$> rs). rewrite list_lookup_fmap.
    destruct (decide (i < length rs)) as [Hi|Hi]; [|by rewrite !lookup_ge_None_2 by (rewrite ?length_tab; lia)].
    rewrite lookup_tab by done. destruct (lookup_lt_is_Some_2 rs i Hi) as [r Hr]. rewrite Hr. cbn. f_equal.
    unfold row_at. cbn. revert fs Hc. induction arrays as [|a arrays IH]; intros [|f fs] Hc; try done.
    cbn in Hc. injection Hc as Ha Hc. cbn. rewrite (IH fs Hc), Ha. f_equal.
    change (map ?g rs) with (g <$> rs). by rewrite list_lookup_fmap, Hr.
Qed.

Lemma flat_arrays arrays : Forall InList.flat_type (map array_type arrays) → Forall HashUtils.flat arrays.
Proof. rewrite Forall_map. intros Hf. eapply Forall_impl; [exact Hf|]. intros a. apply InList.flat_array. Qed.

Lemma int_keys ty vs t :
  JoinMap.int_type ty = Some t → Forall (has_type ty) vs →
  ∃ zs, JoinMap.key_array ty vs = Some (ArrayMap.IntegerArray t zs) ∧
    Forall2 (λ v z, match v with None => Some None | Some v => Some <$> JoinMap.int_of v end = Some z) vs zs.
Proof.
  intros Ht Hvs. unfold JoinMap.key_array. rewrite Ht.
  assert (∃ zs, mapM (JoinMap.int_cell ty) vs = Some zs ∧
    Forall2 (λ v z, match v with None => Some None | Some v => Some <$> JoinMap.int_of v end = Some z) vs zs) as (zs & -> & Hz);
    [|by exists zs].
  induction Hvs as [|v vs Hv Hvs (zs & Hm & Hz)]; [by exists []|].
  destruct v as [v|]; cbn in Hv |- *; [|rewrite Hm; exists (None :: zs); by split; [|constructor]].
  rewrite decide_True by done. assert (is_Some (JoinMap.int_of v)) as [z Hzv].
  { destruct v; cbn in Hv; subst ty; cbn in Ht; try done; by eexists. }
  rewrite Hzv. cbn. rewrite Hm. exists (Some z :: zs). split; [done|]. constructor; [by rewrite Hzv|done].
Qed.

Lemma lookup_array_ok state m zs vs :
  Forall2 (λ v z, match v with None => Some None | Some v => Some <$> JoinMap.int_of v end = Some z) vs zs →
  ∀ found, mapM (λ v, lookup_row state (JoinMap.ArrayMap m) [v]) vs = Some found →
  ArrayMap.contain_hashes_helper m zs = Some found.
Proof.
  unfold ArrayMap.contain_hashes_helper. induction 1 as [|v z vs zs Hv Hvs IH]; intros found Hf; [done|].
  cbn [mapM] in Hf |- *. apply bind_Some in Hf as (x & Hx & (found' & Hf & [= <-])%bind_Some).
  cbn [lookup_row] in Hx. rewrite Hv in Hx. cbn in Hx.
  destruct (ArrayMap.entry_of m z); cbn in Hx |- *; [|done]. injection Hx as <-. by rewrite (IH found' Hf).
Qed.

(** Where every row has a value, every key has one. *)
Lemma keys_rows_inv f fs rs vs :
  mapM (keys_row f fs) rs = Some vs →
  Forall (λ g : row → option (option value), Forall (λ r, is_Some (g r)) rs) fs ∧
  mapM (keys_cell f) (map (λ r, map (λ g : row → option (option value), default None (g r)) fs) rs) = Some vs.
Proof.
  revert vs. induction rs as [|r rs IH]; intros vs Hvs; cbn [mapM map] in Hvs |- *.
  { split; [|done]. apply Forall_forall. by constructor. }
  apply bind_Some in Hvs as (v & Hv & (vs' & Hvs & [= <-])%bind_Some). destruct (IH vs' Hvs) as [Hall Hm].
  unfold keys_row in Hv. apply bind_Some in Hv as (keys & Hk & Hv).
  assert (keys = map (λ g : row → option (option value), default None (g r)) fs ∧
    Forall (λ g : row → option (option value), is_Some (g r)) fs) as [-> Hr].
  { clear -Hk. revert keys Hk. induction fs as [|g fs IH]; intros keys Hk; cbn in Hk; [by injection Hk as <-|].
    apply bind_Some in Hk as (x & Hx & (keys' & Hk & [= <-])%bind_Some). destruct (IH keys' Hk) as [-> HF].
    cbn. rewrite Hx. split; [done|]. constructor; [by eexists|done]. }
  rewrite Hm, Hv. split; [|done]. apply Forall_forall. intros g Hg. rewrite Forall_forall in Hr, Hall.
  constructor; [by apply Hr|by apply Hall].
Qed.

Lemma keys_computes schema f ds tys fs :
  Forall3 (computes schema) ds tys fs → keys_ok f tys →
  computes schema (KeysExpr_dyn f ds) (keys_type f) (keys_row f fs).
Proof.
  intros Hds Hok. split; [done|]. intros b vs Hwf Hs Hn Hu [Hfs Hvs]%keys_rows_inv.
  destruct (evaluate_columns_ok schema ds tys fs b Hds Hwf Hs Hn Hu Hfs) as (arrays & Hev & Hty & Hc).
  destruct (key_rows arrays fs (rows b) (num_rows b) (length_rows b) Hc) as [Hkwf Hkrows].
  rewrite <- Hkrows in Hvs.
  assert (Hhash : ∀ rs, Forall InList.flat_type tys → @HashUtils.create_hashes (random_state rs) arrays (replicate (num_rows b) 0%N)
    = Some (Ok (@HashUtils.row_hash (random_state rs) <$> rows {| columns := arrays; num_rows := num_rows b |}))).
  { intros rs Hflat. apply (HashUtils.create_hashes_rows {| columns := arrays; num_rows := num_rows b |}); [done|].
    apply (flat_arrays arrays). by rewrite Hty. }
  pose proof (length_rows {| columns := arrays; num_rows := num_rows b |}) as Hlen. cbn [num_rows] in Hlen.
  remember (rows {| columns := arrays; num_rows := num_rows b |}) as krows eqn:Hkdef.
  destruct f as [rs|rs [m|m]]; cbn [evaluate KeysExpr_dyn keys_type keys_ok] in *.
  - unfold HashExpr_evaluate. rewrite Hev. cbn [try_bind]. rewrite (Hhash rs Hok). cbn [try_bind].
    eexists. split; [done|]. split; [split; [done|]; cbn; by rewrite length_map, length_fmap|].
    cbn. rewrite map_map. apply mapM_Some_1 in Hvs. clear -Hvs. induction Hvs as [|r v rs' vs Hv Hvs IH]; [done|].
    cbn in Hv. injection Hv as <-. rewrite <- IH. done.
  - destruct Hok as [Hne Hflat]. unfold HashTableLookupExpr_evaluate. rewrite Hev. cbn [try_bind].
    assert (with_hashes rs arrays = Some (Ok (@HashUtils.row_hash (random_state rs) <$> krows))) as ->.
    { destruct arrays as [|a arrays]; [by subst tys|]. cbn [with_hashes]. rewrite <- (Hhash rs Hflat). f_equal.
      unfold batch_wf in Hkwf. apply Forall_cons in Hkwf as [Ha _]. cbn in Ha. by rewrite Ha. }
    cbn [try_bind]. eexists. split; [done|].
    split; [apply fits_bools; unfold JoinHashMap.contain_hashes; by rewrite !length_map|].
    cbn. rewrite map_map. unfold JoinHashMap.contain_hashes. rewrite map_map. apply mapM_Some_1 in Hvs.
    clear -Hvs. induction Hvs as [|r v rs' vs Hv Hvs IH]; [done|]. cbn in Hv. injection Hv as <-. by rewrite fmap_cons; cbn; rewrite <- IH.
  - destruct Hok as (ty & Htys & t & Ht). unfold HashTableLookupExpr_evaluate. rewrite Hev. cbn [try_bind].
    subst tys. destruct arrays as [|a [|? ?]]; try done. cbn in Hty. injection Hty as Hty.
    assert (krows = map (λ c, [c]) (cells a)) as Hkc.
    { rewrite Hkdef. unfold rows, tab, row_at. cbn. unfold batch_wf in Hkwf. apply Forall_cons in Hkwf as [Ha _]. cbn in Ha.
      rewrite <- Ha, <- length_cells. rewrite <- (seq_lookup None (cells a)) at 2. by rewrite map_map. }
    destruct (int_keys ty (cells a) t Ht) as (zs & Hkey & Hzs); [rewrite <- Hty; apply cells_typed|].
    cbn [mapM]. rewrite Hty, Hkey. cbn [mbind option_bind mret option_ret ArrayMap.contain_keys].
    assert (∃ found, mapM (λ v, lookup_row rs (JoinMap.ArrayMap m) [v]) (cells a) = Some found ∧
      vs = map (λ c, Some (VBoolean c)) found) as (found & Hfound & ->).
    { rewrite Hkc, mapM_map in Hvs. clear -Hvs. revert vs Hvs. induction (cells a) as [|c cs IH]; intros vs Hvs; cbn [mapM] in Hvs |- *.
      { injection Hvs as <-. by exists []. }
      apply bind_Some in Hvs as (v & Hv & (vs' & Hvs & [= <-])%bind_Some). destruct (IH vs' Hvs) as (found & -> & ->).
      cbn [keys_cell] in Hv. apply bind_Some in Hv as (x & -> & [= <-]). by exists (x :: found). }
    rewrite (lookup_array_ok rs m zs (cells a) Hzs found Hfound). cbn [mbind option_bind try_bind].
    eexists. split; [done|]. apply mapM_Some_1, Forall2_length in Hfound. rewrite Hkc, length_map in Hlen.
    split; [apply fits_bools; rewrite length_map; lia|]. cbn. by rewrite map_map.
Qed.

End HashExprs.
