(* ===== verification/CaseMethods.v ===== *)
(** * Evaluation methods of CASE (case.rs and case/literal_lookup_table)

    Besides the loops over branches, CASE has special methods: one condition with
    two results, a column or null, two literals, and a lookup table when the
    values and results are literals.  A body is also evaluated on a batch that
    keeps only the columns it uses.  Proved: every method yields the values of
    CASE row by row. *)

From stdpp Require Import base list list_numbers strings sets.
From Stdlib Require Import ZArith Lia.
From S2P Require Import Prelude Relation HashUtils Columnar Datum Scatter CaseExpr.

Module CaseMethods.

(** ** Lookup tables *)

(** The u32 index of a literal. *)
Definition as_u32 (i : nat) : Z := Z.of_nat i mod 2 ^ 32.

(** A hash map as the list of its insertions, the last one first. *)
Fixpoint get {A} (map : list (value * A)) (k : value) : option A :=
  match map with
  | [] => None
  | (k', x) :: map => if decide (k' = k) then Some x else get map k
  end.

(** [iter.enumerate().map(|(i, v)| (v, i as u32)).collect::<HashMap<_, _>>()] *)
Definition index_map (values : list value) : list (value * Z) :=
  rev (imap (λ i v, (v, as_u32 i)) values).

Inductive WhenLiteralIndexMap :=
| BooleanIndexMap (true_index false_index : option Z)
| PrimitiveIndexMap (ty : DataType) (map : list (value * Z))
| BytesLikeIndexMap (map : list (value * Z)).

Record LiteralLookupTable := mkTable {
  lookup_map : WhenLiteralIndexMap;
  else_index : Z;
  then_and_else_values : array;
}.

Section Tables.
Context `{Arrow}.

Fixpoint boolean_index_map (index : nat) (literals : list ScalarValue) (true_index false_index : option Z)
    : Result WhenLiteralIndexMap :=
  match literals with
  | [] => Ok (BooleanIndexMap true_index false_index)
  | literal :: literals =>
      if decide (s_type literal ≠ DBoolean)
      then Err (Internal "Non-boolean literal found in literals for BooleanIndexMap")
      else match cell_bool (s_value literal) with
      | Some true =>
          if bool_decide (is_Some true_index) then Err (Internal "Duplicate true literal found in literals for BooleanIndexMap")
          else boolean_index_map (S index) literals (Some (as_u32 index)) false_index
      | Some false =>
          if bool_decide (is_Some false_index) then Err (Internal "Duplicate false literal found in literals for BooleanIndexMap")
          else boolean_index_map (S index) literals true_index (Some (as_u32 index))
      | None => Err (Internal "Null literal found in non-null literals for BooleanIndexMap")
      end
  end.

Definition primitive_index_map (literals : list ScalarValue) : Result WhenLiteralIndexMap :=
  input ← iter_to_array literals;
  if decide (0 < null_count (cells input))
  then Err (Internal "Literal values for WHEN clauses cannot contain nulls")
  else Ok (PrimitiveIndexMap (array_type input) (index_map (omap id (cells input)))).

(** The types whose arrays iterate over byte slices.  The arm for fixed-size binary
    arrays downcasts them to a variable-size layout, which panics. *)
Definition try_get_bytes_iterator (a : array) : option (Result (list (option value))) :=
  match array_type a with
  | DUtf8 => Some (Ok (cells a))
  | DOther name =>
      if bool_decide (name ∈ ["LargeUtf8"; "Binary"; "LargeBinary"; "Utf8View"; "BinaryView"])
      then Some (Ok (cells a))
      else if bool_decide (name = "FixedSizeBinary") then panic!
      else Some (Err (Plan "Unsupported data type for bytes lookup table"))
  | _ => Some (Err (Plan "Unsupported data type for bytes lookup table"))
  end.

Definition bytes_like_index_map (literals : list ScalarValue) : option (Result WhenLiteralIndexMap) :=
  input ←? Some (iter_to_array literals);
  if decide (0 < null_count (cells input))
  then Some (Err (Internal "Literal values for WHEN clauses cannot contain nulls"))
  else values ←? try_get_bytes_iterator input; Some (Ok (BytesLikeIndexMap (index_map (omap id values)))).

Definition is_primitive (ty : DataType) : bool :=
  match ty with
  | DInt32 | DInt64 => true
  | DOther name => bool_decide (name ∈ HashUtils.primitive_types)
  | _ => false
  end.

Definition is_bytes_like (ty : DataType) : bool :=
  match ty with
  | DUtf8 => true
  | DOther name =>
      bool_decide (name ∈ ["LargeUtf8"; "Binary"; "LargeBinary"; "FixedSizeBinary"; "Utf8View"; "BinaryView"])
  | _ => false
  end.

Definition try_creating_lookup_table (unique_non_null_literals : list ScalarValue)
    : option (Result WhenLiteralIndexMap) :=
  first ← head unique_non_null_literals;
  if decide (s_type first = DBoolean) then Some (boolean_index_map 0 unique_non_null_literals None None)
  else if is_primitive (s_type first) then Some (primitive_index_map unique_non_null_literals)
  else if is_bytes_like (s_type first) then bytes_like_index_map unique_non_null_literals
  else Some (Err (Plan "Unsupported data type for lookup table")).

Definition map_to_when_indices (m : WhenLiteralIndexMap) (a : array) (else_index : Z) : option (Result (list Z)) :=
  match m with
  | BooleanIndexMap true_index false_index =>
      match as_bools a with
      | Some vs =>
          let true_index := default else_index true_index in
          let false_index := default else_index false_index in
          Some (Ok (map (λ v, match v with
                              | Some true => true_index
                              | Some false => false_index
                              | None => else_index
                              end) vs))
      | None => Some (Err (Internal "Expected boolean array for BooleanIndexMap"))
      end
  | PrimitiveIndexMap ty map_ =>
      if decide (array_type a = ty) then
        Some (Ok (map (λ v, match v with Some v => default else_index (get map_ v) | None => else_index end) (cells a)))
      else Some (Err (Internal "PrimitiveIndexMap expected array of another type"))
  | BytesLikeIndexMap map_ =>
      values ←? try_get_bytes_iterator a;
      Some (Ok (map (λ v, match v with Some v => default else_index (get map_ v) | None => else_index end) values))
  end.

(** Keep the first entry of each key, in order. *)
Fixpoint first_occurrences (l : list (ScalarValue * ScalarValue)) (seen : list ScalarValue)
    : list (ScalarValue * ScalarValue) :=
  match l with
  | [] => []
  | (when, then_) :: l =>
      if decide (when ∈ seen) then first_occurrences l seen
      else (when, then_) :: first_occurrences l (when :: seen)
  end.

(** [LiteralLookupTable::maybe_new]; [as_literal] is the downcast to a literal. *)
Definition maybe_new {E} (as_literal : E → option ScalarValue) (body : CaseBody E)
    : option (option LiteralLookupTable) :=
  if decide (length (when_then_expr body) < 2) then Some None
  else match mapM (λ wt : E * E, w ← as_literal wt.1; t ← as_literal wt.2; Some (w, t)) (when_then_expr body) with
  | None => Some None
  | Some literals =>
      let when_then_exprs_scalars := filter (λ wt : ScalarValue * ScalarValue, is_null wt.1 = false) literals in
      if bool_decide (when_then_exprs_scalars = []) then Some None
      else
        let map_ := first_occurrences when_then_exprs_scalars [] in
        let when := map fst map_ in
        let then_ := map snd map_ in
        first_when ← head when;
        first_then ← head then_;
        let else_value := match else_expr body with
                          | Some e => as_literal e
                          | None => Some (mkScalar (s_type first_then) None)
                          end in
        match else_value with
        | None => Some None
        | Some else_value =>
            if negb (forallb (λ l, bool_decide (s_type l = s_type first_when)) when) then Some None
            else if negb (forallb (λ l, bool_decide (s_type l = s_type first_then)) then_) then Some None
            else if negb (bool_decide (s_type else_value = s_type first_then)) then Some None
            else match iter_to_array (then_ ++ [else_value]) with
            | Err _ => Some None
            | Ok then_and_else_values =>
                else_index ← usize_sub (Z.to_nat (as_u32 (array_len then_and_else_values))) 1;
                r ← try_creating_lookup_table when;
                match r with
                | Ok lookup => Some (Some (mkTable lookup (Z.of_nat else_index) then_and_else_values))
                | Err _ => Some None
                end
            end
        end
  end.

Definition map_keys_to_values (t : LiteralLookupTable) (keys_array : array) : option (Result array) :=
  take_indices ←? map_to_when_indices (lookup_map t) keys_array (else_index t);
  Some (arrow_result (arrow_take (then_and_else_values t) (map Z.to_nat take_indices))).

End Tables.

(** ** What a table computes *)

(** The result of the first literal that equals a key. *)
Fixpoint literal_match (l : list (ScalarValue * ScalarValue)) (otherwise : option value) (key : option value)
    : option value :=
  match l with
  | [] => otherwise
  | (when, then_) :: l =>
      if truthy (eq_cell (s_value when) key) then s_value then_ else literal_match l otherwise key
  end.

(** The position of a value. *)
Fixpoint position_of (k : value) (l : list value) : option nat :=
  match l with
  | [] => None
  | v :: l => if decide (v = k) then Some 0 else S <$> position_of k l
  end.

Definition key_index (whens : list value) (else_index : Z) (key : option value) : Z :=
  match key with
  | Some v => default else_index (as_u32 <$> position_of v whens)
  | None => else_index
  end.

Section TableRows.
Context `{Arrow}.

Lemma get_app {A} (m m' : list (value * A)) k :
  get (m ++ m') k = match get m k with Some x => Some x | None => get m' k end.
Proof. induction m as [|[k' x] m IH]; cbn; [done|]. by case_decide. Qed.

Lemma get_not_in {A} (m : list (value * A)) k : k ∉ map fst m → get m k = None.
Proof.
  induction m as [|[k' x] m IH]; cbn; [done|]. intros [Hne Hk]%not_elem_of_cons.
  rewrite decide_False by congruence. by apply IH.
Qed.

Lemma get_rev {A} (m : list (value * A)) k : NoDup (map fst m) → get (rev m) k = get m k.
Proof.
  induction m as [|[k' x] m IH]; cbn; [done|]. intros [Hk Hm]%NoDup_cons. rewrite get_app, IH by done. cbn.
  case_decide as E; [|by destruct (get m k)]. subst k'. by rewrite get_not_in.
Qed.

Lemma map_fst_imap {A} (f : nat → A) (l : list value) : map fst (imap (λ i v, (v, f i)) l) = l.
Proof. revert f. induction l as [|v l IH]; intros f; [done|]. cbn. f_equal. apply (IH (f ∘ S)). Qed.

Lemma get_imap {A} (f : nat → A) l k : get (imap (λ i v, (v, f i)) l) k = f <$> position_of k l.
Proof.
  revert f. induction l as [|v l IH]; intros f; [done|]. cbn. case_decide; [done|].
  rewrite <- option_fmap_compose. apply (IH (f ∘ S)).
Qed.

Lemma get_index_map l k : NoDup l → get (index_map l) k = as_u32 <$> position_of k l.
Proof.
  intros Hl. unfold index_map. rewrite get_rev by (by rewrite map_fst_imap). apply get_imap.
Qed.

Lemma boolean_index_map_ok index literals ti fi m :
  boolean_index_map index literals ti fi = Ok m →
  Forall (λ s, has_type DBoolean (s_value s)) literals →
  ∃ vs, map s_value literals = map Some vs ∧
    m = BooleanIndexMap (match ti with Some i => Some i | None => (λ i, as_u32 (index + i)) <$> position_of (VBoolean true) vs end)
                        (match fi with Some i => Some i | None => (λ i, as_u32 (index + i)) <$> position_of (VBoolean false) vs end).
Proof.
  revert index ti fi. induction literals as [|[sty sv] literals IH]; intros index ti fi; cbn.
  { intros [= <-] _. exists []. split; [done|]. by destruct ti, fi. }
  case_decide; [done|]. destruct sv as [v|]; cbn; [|done]. intros Hm [Hv Hl]%Forall_cons. cbn in Hv.
  destruct v as [x| | | |]; try done. cbn in Hm.
  assert (∀ (k : bool) vs, (λ i, as_u32 (S index + i)) <$> position_of (VBoolean k) vs
    = (λ i, as_u32 (index + i)) <$> (S <$> position_of (VBoolean k) vs)) as Hshift.
  { intros k vs. destruct (position_of (VBoolean k) vs); cbn; [|done]. by rewrite Nat.add_succ_r. }
  destruct x; case_bool_decide as Hnone; try done; apply IH in Hm as (vs & Hvs & ->); try done.
  - exists (VBoolean true :: vs). cbn [map s_value]. rewrite Hvs. split; [done|]. cbn [position_of].
    destruct ti; [by destruct Hnone|]. rewrite decide_True, decide_False by done. f_equal.
    + cbn. by rewrite Nat.add_0_r.
    + destruct fi; [done|]. apply Hshift.
  - exists (VBoolean false :: vs). cbn [map s_value]. rewrite Hvs. split; [done|]. cbn [position_of].
    destruct fi; [by destruct Hnone|]. rewrite decide_False, decide_True by done. f_equal.
    + destruct ti; [done|]. apply Hshift.
    + cbn. by rewrite Nat.add_0_r.
Qed.

Lemma omap_id_Some (vs : list value) : omap id (map Some vs) = vs.
Proof. induction vs as [|v vs IH]; [done|]. cbn. f_equal. exact IH. Qed.

Lemma iter_to_array_typed ty scalars :
  scalars ≠ [] → Forall (λ s, s_type s = ty ∧ has_type ty (s_value s)) scalars →
  ∃ a, iter_to_array scalars = Ok a ∧ array_type a = ty ∧ cells a = map s_value scalars.
Proof.
  intros Hne Hs. destruct (iter_to_array_ok scalars ty Hne Hs) as [Ha Hc].
  eexists. split; [done|]. split; [apply array_type_of|done].
Qed.

Lemma null_count_Some {A} (vs : list A) : null_count (map Some vs) = 0.
Proof. unfold null_count. induction vs as [|v vs IH]; [done|]. cbn [map]. by rewrite filter_cons, decide_False. Qed.

(** Every kind of table maps a key to the position of its literal. *)
Lemma lookup_table_ok ty vs m a else_index :
  vs ≠ [] → NoDup vs → Forall (λ v, value_type v = ty) vs → array_type a = ty →
  try_creating_lookup_table (map (λ v, mkScalar ty (Some v)) vs) = Some (Ok m) →
  map_to_when_indices m a else_index = Some (Ok (map (key_index vs else_index) (cells a))).
Proof.
  intros Hne Hnd Hty Ha.
  destruct (iter_to_array_typed ty (map (λ v, mkScalar ty (Some v)) vs)) as (lit & Hlit & Hlt & Hlc).
  { by destruct vs. }
  { apply Forall_fmap. eapply Forall_impl; [exact Hty|]. done. }
  rewrite map_map in Hlc. change (cells lit = map Some vs) in Hlc.
  assert (Hget : map (λ c : option value, match c with Some v => default else_index (get (index_map vs) v) | None => else_index end)
                   (cells a) = map (key_index vs else_index) (cells a)).
  { apply map_ext. intros [v|]; [|done]. cbn. by rewrite get_index_map. }
  unfold try_creating_lookup_table. destruct vs as [|v0 vs0] eqn:Evs; [done|]. rewrite <- Evs in *. clear Evs v0 vs0.
  destruct (head (map (λ v, mkScalar ty (Some v)) vs)) as [first|] eqn:Eh; [|done]. cbn [mbind option_bind].
  assert (s_type first = ty) as ->.
  { destruct vs; [done|]. by injection Eh as <-. }
  case_decide as Eb; [|destruct (is_primitive ty) eqn:Ep; [|destruct (is_bytes_like ty) eqn:El; [|done]]].
  - intros [= Hm]. apply boolean_index_map_ok in Hm as (ws & Hws & ->).
    2: { apply Forall_fmap. eapply Forall_impl; [exact Hty|]. by rewrite Eb. }
    rewrite map_map in Hws. change (map Some vs = map Some ws) in Hws.
    assert (ws = vs) as -> by (by rewrite <- (omap_id_Some ws), <- Hws, omap_id_Some).
    unfold map_to_when_indices. rewrite as_bools_cells by congruence. do 2 f_equal. rewrite map_map. apply map_ext_in.
    intros c Hc%list_elem_of_In. pose proof (cells_typed a) as Hct. rewrite Forall_forall in Hct. specialize (Hct c Hc).
    rewrite Ha, Eb in Hct. destruct c as [[[]| | | |]|]; done.
  - unfold primitive_index_map. rewrite Hlit. cbn [mbind Result_bind]. rewrite Hlc, null_count_Some, decide_False by lia.
    rewrite omap_id_Some. intros [= <-]. unfold map_to_when_indices. rewrite decide_True by congruence. by rewrite Hget.
  - unfold bytes_like_index_map. rewrite Hlit. cbn [try_bind]. rewrite Hlc, null_count_Some, decide_False by lia.
    destruct (try_get_bytes_iterator lit) as [[values|]|] eqn:Ev; [|done..]. cbn [try_bind]. intros [= <-].
    unfold map_to_when_indices.
    assert (values = cells lit ∧ try_get_bytes_iterator a = Some (Ok (cells a))) as [-> ->].
    { unfold try_get_bytes_iterator in *. rewrite Hlt in Ev. rewrite Ha. destruct ty; try done.
      - by injection Ev as <-.
      - destruct (bool_decide (name ∈ _)); [by injection Ev as <-|]. by destruct (bool_decide (name = _)). }
    cbn [try_bind]. by rewrite Hlc, omap_id_Some, Hget.
Qed.

Lemma literal_match_filter l o k :
  literal_match (filter (λ wt : ScalarValue * ScalarValue, is_null wt.1 = false) l) o k = literal_match l o k.
Proof.
  induction l as [|[w t] l IH]; [done|]. rewrite filter_cons. case_decide as Hn; cbn; rewrite IH; [done|].
  unfold is_null in Hn. cbn in Hn. case_bool_decide as Hw; [|done]. by rewrite Hw.
Qed.

Lemma literal_match_first l seen o k :
  (∀ s, s ∈ seen → truthy (eq_cell (s_value s) k) = false) →
  literal_match (first_occurrences l seen) o k = literal_match l o k.
Proof.
  revert seen. induction l as [|[w t] l IH]; intros seen Hs; [done|]. cbn. case_decide as Hw.
  - rewrite (Hs w Hw). by apply IH.
  - cbn. destruct (truthy _) eqn:Ew; [done|]. apply IH. intros s [->|Hin]%elem_of_cons; [done|by apply Hs].
Qed.

Lemma first_occurrences_seen l seen w : w ∈ map fst (first_occurrences l seen) → w ∉ seen.
Proof.
  revert seen. induction l as [|[w' t] l IH]; intros seen; cbn; [by intros ?%elem_of_nil|].
  case_decide as Hw; [apply IH|]. cbn. intros [->|Hin]%elem_of_cons; [done|].
  intros Hs. apply (IH _ Hin). by right.
Qed.

Lemma first_occurrences_nodup l seen : NoDup (map fst (first_occurrences l seen)).
Proof.
  revert seen. induction l as [|[w t] l IH]; intros seen; cbn; [constructor|].
  case_decide; [apply IH|]. cbn. constructor; [|apply IH].
  intros Hin%first_occurrences_seen. apply Hin. by left.
Qed.

Lemma first_occurrences_sub l seen p : p ∈ first_occurrences l seen → p ∈ l.
Proof.
  revert seen. induction l as [|[w t] l IH]; intros seen; cbn; [done|].
  case_decide; [intros Hp%IH; by right|]. intros [->|Hp%IH]%elem_of_cons; [by left|by right].
Qed.

Lemma first_occurrences_le l seen : length (first_occurrences l seen) ≤ length l.
Proof.
  revert seen. induction l as [|[w t] l IH]; intros seen; cbn; [done|].
  case_decide; cbn; [specialize (IH seen)|specialize (IH (w :: seen))]; lia.
Qed.

(** The literals of a table as values. *)
Lemma when_values wty (l : list (ScalarValue * ScalarValue)) :
  Forall (λ wt, s_type wt.1 = wty ∧ has_type wty (s_value wt.1) ∧ is_null wt.1 = false) l →
  ∃ vs, map fst l = map (λ v, mkScalar wty (Some v)) vs ∧ Forall (λ v, value_type v = wty) vs
    ∧ (NoDup (map fst l) → NoDup vs).
Proof.
  intros Hl. induction Hl as [|[[wt wv] t] l (Ht & Hv & Hn) Hl (vs & Hvs & Hty & Hnd)].
  - exists []. split_and!; [done|constructor|by intros _; constructor].
  - cbn in *. destruct wv as [v|]; [|done]. exists (v :: vs). cbn. subst wt. rewrite Hvs. split_and!; [done|by constructor|].
    rewrite Hvs in Hnd. intros [Hv' Hvs']%NoDup_cons. constructor; [|auto].
    intros Hin. apply Hv'. by apply (list_elem_of_fmap_2 (λ v, mkScalar wty (Some v))).
Qed.

Lemma literal_match_position wty l vs o v :
  map fst l = map (λ v, mkScalar wty (Some v)) vs →
  literal_match l o (Some v) = match position_of v vs with
                               | Some i => default o (s_value ∘ snd <$> l !! i)
                               | None => o
                               end.
Proof.
  revert vs. induction l as [|[w t] l IH]; intros [|x vs] Hl; try done. cbn in Hl. injection Hl as -> Hl. cbn.
  case_bool_decide as Hx; [by rewrite decide_True|]. rewrite decide_False by done. rewrite (IH vs Hl).
  by destruct (position_of v vs).
Qed.

Lemma position_of_lt v vs i : position_of v vs = Some i → i < length vs.
Proof.
  revert i. induction vs as [|x vs IH]; intros i; cbn; [done|]. case_decide; [intros [= <-]; lia|].
  destruct (position_of v vs) as [j|]; [|done]. intros [= <-]. specialize (IH j eq_refl). lia.
Qed.

Lemma as_u32_small i : (Z.of_nat i < 2 ^ 32)%Z → Z.to_nat (as_u32 i) = i.
Proof. intros Hi. unfold as_u32. rewrite Z.mod_small by lia. lia. Qed.

(** Indices into the results and the ELSE value at the end. *)
Lemma key_index_value wty l vs o key :
  map fst l = map (λ v, mkScalar wty (Some v)) vs → (Z.of_nat (length l) < 2 ^ 32)%Z →
  (map (s_value ∘ snd) l ++ [o]) !! Z.to_nat (key_index vs (Z.of_nat (length l)) key) = Some (literal_match l o key).
Proof.
  intros Hl Hlen.
  assert (length vs = length l) as Hvl by (apply (f_equal length) in Hl; by rewrite !length_map in Hl).
  assert ((map (s_value ∘ snd) l ++ [o]) !! length l = Some o) as Ho.
  { rewrite lookup_app_r by (by rewrite length_map). by rewrite length_map, Nat.sub_diag. }
  destruct key as [v|]; cbn.
  - rewrite (literal_match_position wty l vs) by done. destruct (position_of v vs) as [i|] eqn:Ei; cbn.
    + pose proof (position_of_lt _ _ _ Ei). rewrite as_u32_small by lia. rewrite lookup_app_l by (rewrite length_map; lia).
      change (map (s_value ∘ snd) l) with (s_value ∘ snd <$> l). rewrite list_lookup_fmap.
      destruct (lookup_lt_is_Some_2 l i ltac:(lia)) as [p ->]. done.
    + by rewrite Nat2Z.id.
  - rewrite Nat2Z.id, Ho. f_equal. clear. induction l as [|[[wt [v|]] t] l IH]; cbn; done.
Qed.

Context `{!ArrowCells, !ArrowOk}.

(** The ELSE literal of a body, null when there is none. *)
Definition else_literal {E} (as_literal : E → option ScalarValue) (body : CaseBody E) : option (option value) :=
  match CaseExpr.else_expr body with
  | Some e => s_value <$> as_literal e
  | None => Some None
  end.

Lemma maybe_new_ok {E} (as_literal : E → option ScalarValue) (body : CaseBody E) table literals o wty ty a :
  maybe_new as_literal body = Some (Some table) →
  mapM (λ wt : E * E, w ← as_literal wt.1; t ← as_literal wt.2; Some (w, t)) (when_then_expr body) = Some literals →
  else_literal as_literal body = Some o → has_type ty o →
  Forall (λ wt, s_type wt.1 = wty ∧ has_type wty (s_value wt.1) ∧ s_type wt.2 = ty ∧ has_type ty (s_value wt.2)) literals →
  (Z.of_nat (length literals) < 2 ^ 32 - 1)%Z → array_type a = wty →
  map_keys_to_values table a = Some (Ok (array_of ty (map (literal_match literals o) (cells a)))).
Proof.
  unfold maybe_new. case_decide; [done|]. intros Hnew Hlit Ho Hoty Hl Hlen Ha. rewrite Hlit in Hnew.
  set (l0 := filter (λ wt : ScalarValue * ScalarValue, is_null wt.1 = false) literals) in *.
  case_bool_decide; [done|]. set (l := first_occurrences l0 []) in *.
  assert (Hmatch : ∀ k, literal_match l o k = literal_match literals o k).
  { intros k. unfold l. rewrite literal_match_first by (by intros ? ?%elem_of_nil). apply literal_match_filter. }
  assert (Hin : ∀ p, p ∈ l → is_null p.1 = false ∧ p ∈ literals).
  { intros p Hp%first_occurrences_sub. by apply list_elem_of_filter in Hp. }
  assert (Hle : length l ≤ length literals).
  { etrans; [apply first_occurrences_le|]. apply length_filter. }
  rewrite Forall_forall in Hl.
  destruct (when_values wty l) as (vs & Hvs & Hvty & Hnd).
  { apply Forall_forall. intros p Hp. destruct (Hin p Hp) as [Hn Hp']. destruct (Hl p Hp') as (? & ? & _). done. }
  specialize (Hnd (first_occurrences_nodup l0 [])).
  destruct (map fst l) as [|first_when whens] eqn:Ew; [done|]. cbn [head mbind option_bind] in Hnew. rewrite <- Ew in *.
  destruct (map snd l) as [|first_then thens] eqn:Et; [done|]. cbn [head mbind option_bind] in Hnew. rewrite <- Et in *.
  assert (s_type first_then = ty) as Hft.
  { assert (first_then ∈ map snd l) as Hf by (rewrite Et; by left).
    apply list_elem_of_fmap in Hf as (p & -> & Hp). apply Hin in Hp as [_ Hp]. by apply Hl in Hp as (_ & _ & ? & _). }
  destruct (match CaseExpr.else_expr body with Some e => as_literal e | None => Some (mkScalar (s_type first_then) None) end)
    as [ev|] eqn:Eev; [|done].
  assert (s_value ev = o) as Hev.
  { unfold else_literal in Ho. destruct (CaseExpr.else_expr body); [rewrite Eev in Ho; by injection Ho|].
    injection Eev as <-. by injection Ho. }
  destruct (negb _); [done|]. destruct (negb _); [done|]. case_bool_decide as Htv; [|done]. cbn [negb] in Hnew.
  destruct (iter_to_array_typed ty (map snd l ++ [ev])) as (ta & Hta & Htt & Htc).
  { by destruct (map snd l). }
  { apply Forall_app. split; [|constructor; [|constructor]; split; congruence].
    apply Forall_fmap, Forall_forall. intros p Hp. apply Hin in Hp as [_ Hp]. apply Hl in Hp as (_ & _ & ? & ?). done. }
  rewrite Hta in Hnew. rewrite map_app, map_map in Htc. cbn in Htc. rewrite Hev in Htc.
  assert (array_len ta = length l + 1) as Hlta by (by rewrite <- length_cells, Htc, length_app, length_map).
  rewrite Hlta, as_u32_small, usize_sub_le, Nat.add_sub in Hnew by lia. cbn [mbind option_bind] in Hnew.
  destruct (try_creating_lookup_table (map fst l)) as [[m|]|] eqn:Em; [|done..]. cbn [mbind option_bind] in Hnew.
  injection Hnew as <-. rewrite Hvs in Em.
  unfold map_keys_to_values. cbn [lookup_map else_index then_and_else_values].
  erewrite lookup_table_ok; [|..|exact Em]; [|by destruct vs|done..]. cbn [try_bind].
  erewrite arrow_take_ok; [by rewrite Htt|]. rewrite map_map, mapM_map. rewrite Htc. apply mapM_total. intros k _.
  rewrite <- Hmatch. apply (key_index_value wty); [done|lia].
Qed.

End TableRows.

Section Methods.
Context `{Arrow}.
Variable debug_assertions : bool.
Variable h : Scatter.hidden.

(** [CaseBody::data_type]: the first type of a result that is not the null type. *)
Fixpoint then_type (l : list (dyn * dyn)) (schema : list DataType) (ty : DataType) : Result DataType :=
  match l with
  | [] => Ok ty
  | (_, t) :: l =>
      ty ← data_type t schema;
      if decide (ty = DNull) then then_type l schema ty else Ok ty
  end.

Definition body_data_type (body : CaseBody dyn) (schema : list DataType) : Result DataType :=
  ty ← then_type (when_then_expr body) schema DNull;
  match CaseExpr.else_expr body with
  | Some e => if decide (ty = DNull) then data_type e schema else Ok ty
  | None => Ok ty
  end.

Definition no_nulls (m : bools) : bools := if decide (null_count m = 0) then m else prep_null_mask_filter m.

Definition body_expr_or_expr (body : CaseBody dyn) (batch : RecordBatch) (when_value : bools)
    : option (Result ColumnarValue) :=
  let when_value := no_nulls when_value in
  then_batch ←? Some (Case.filter_record_batch batch when_value);
  branch ← vec_get (when_then_expr body) 0;
  then_value ←? evaluate branch.2 then_batch;
  match CaseExpr.else_expr body with
  | None =>
      a ←? Scatter.scatter h when_value (into_array then_value (true_count when_value));
      Some (Ok (Array a))
  | Some e =>
      else_selection ←? Some (arrow_result (arrow_not when_value));
      else_batch ←? Some (Case.filter_record_batch batch else_selection);
      return_type ←? Some (body_data_type body (schema_of batch));
      let e := match Case.try_cast e (schema_of batch) return_type with Ok e' => e' | Err _ => e end in
      else_value ←? evaluate e else_batch;
      a ←? Some (arrow_result (arrow_merge when_value then_value else_value));
      Some (Ok (Array a))
  end.

(** The methods of [CaseExpr]; [body] is its own body and [p] the one over the
    columns it uses. *)

Definition CaseExpr_case_when_with_expr (body : CaseBody dyn) (p : ProjectedCaseBody dyn) (batch : RecordBatch)
    : option (Result ColumnarValue) :=
  return_type ←? Some (body_data_type body (schema_of batch));
  if decide (length (projection p) < length (columns batch)) then
    projected_batch ←? Some (project_batch batch (projection p));
    Case.case_when_with_expr debug_assertions (pbody p) projected_batch return_type
  else Case.case_when_with_expr debug_assertions body batch return_type.

Definition CaseExpr_case_when_no_expr (body : CaseBody dyn) (p : ProjectedCaseBody dyn) (batch : RecordBatch)
    : option (Result ColumnarValue) :=
  return_type ←? Some (body_data_type body (schema_of batch));
  if decide (length (projection p) < length (columns batch)) then
    projected_batch ←? Some (project_batch batch (projection p));
    Case.case_when_no_expr debug_assertions (pbody p) projected_batch return_type
  else Case.case_when_no_expr debug_assertions body batch return_type.

Definition case_column_or_null (body : CaseBody dyn) (batch : RecordBatch) : option (Result ColumnarValue) :=
  '(when_expr, then_expr) ← vec_get (when_then_expr body) 0;
  when_value ←? evaluate when_expr batch;
  match when_value with
  | Scalar s =>
      if decide (s = ScalarBoolean (Some true)) then evaluate then_expr batch
      else ty ←? Some (body_data_type body (schema_of batch)); Some (Ok (Scalar (mkScalar ty None)))
  | Array a =>
      bit_mask ← as_bools a;
      bit_mask ←? Some (arrow_result (arrow_not (no_nulls bit_mask)));
      then_value ←? evaluate then_expr batch;
      match then_value with
      | Array a => a ←? Some (arrow_result (arrow_nullif a bit_mask)); Some (Ok (Array a))
      | Scalar _ => Some (Err (Internal "expression did not evaluate to an array"))
      end
  end.

(** [Scalar::new(value.into_array(1)?)] *)
Definition to_datum_scalar (v : ColumnarValue) : option ScalarValue :=
  let a := into_array v 1 in
  if decide (array_len a = 1) then try_from_array a 0 else panic!.

Definition scalar_or_scalar (body : CaseBody dyn) (batch : RecordBatch) : option (Result ColumnarValue) :=
  return_type ←? Some (body_data_type body (schema_of batch));
  '(when_expr, then_expr) ← vec_get (when_then_expr body) 0;
  when_value ←? evaluate when_expr batch;
  match as_bools (into_array when_value (num_rows batch)) with
  | None => Some (Err (Internal "WHEN expression did not return a BooleanArray"))
  | Some when_value =>
      let when_value := no_nulls when_value in
      then_value ←? evaluate then_expr batch;
      then_value ← to_datum_scalar then_value;
      match CaseExpr.else_expr body with
      | None => Some (Err (Internal "expression did not evaluate to an array"))
      | Some e =>
          e ←? Some (Case.try_cast e (schema_of batch) return_type);
          else_value ←? evaluate e batch;
          else_ ← to_datum_scalar else_value;
          a ←? Some (arrow_result (arrow_zip when_value then_value else_)); Some (Ok (Array a))
      end
  end.

Definition expr_or_expr (body : CaseBody dyn) (p : ProjectedCaseBody dyn) (batch : RecordBatch)
    : option (Result ColumnarValue) :=
  '(when_expr, then_expr) ← vec_get (when_then_expr body) 0;
  when_value ←? evaluate when_expr batch;
  match as_bools (into_array when_value 1) with
  | None => Some (Err (Internal "WHEN expression did not return a BooleanArray"))
  | Some when_value =>
      let true_count := true_count when_value in
      if decide (true_count = length when_value) then evaluate then_expr batch
      else if decide (true_count = 0) then
        match CaseExpr.else_expr body with
        | Some e => evaluate e batch
        | None => ty ←? Some (body_data_type body (schema_of batch)); Some (Ok (Scalar (mkScalar ty None)))
        end
      else if decide (length (projection p) < length (columns batch)) then
        projected_batch ←? Some (project_batch batch (projection p));
        body_expr_or_expr (pbody p) projected_batch when_value
      else body_expr_or_expr body batch when_value
  end.

Definition with_lookup_table (body : CaseBody dyn) (lookup_table : LiteralLookupTable) (batch : RecordBatch)
    : option (Result ColumnarValue) :=
  base ← expr body;
  evaluated_expression ←? evaluate base batch;
  values ←? map_keys_to_values lookup_table (into_array evaluated_expression 1);
  if is_scalar evaluated_expression then s ← try_from_array values 0; Some (Ok (Scalar s))
  else Some (Ok (Array values)).

(** ** Projected batches *)

Definition project_row (indices : list nat) (r : row) : row := map (λ i, default None (r !! i)) indices.

Definition project_schema (indices : list nat) (schema : list DataType) : option (list DataType) :=
  mapM (λ i, schema !! i) indices.

Lemma project_batch_ok b indices schema' :
  batch_wf b → project_schema indices (schema_of b) = Some schema' →
  ∃ b', project_batch b indices = Ok b' ∧ batch_wf b' ∧ num_rows b' = num_rows b ∧ schema_of b' = schema'
    ∧ rows b' = map (project_row indices) (rows b).
Proof.
  intros Hwf Hs.
  assert (∃ cols, collect (λ f, ok_or (columns b !! f) (ArrowError "project index out of bounds")) indices = Ok cols
    ∧ Forall2 (λ i a, columns b !! i = Some a) indices cols ∧ map array_type cols = schema') as (cols & Hc & Hcols & Ht).
  { revert schema' Hs. unfold project_schema, schema_of. induction indices as [|i indices IH]; intros schema' Hs; cbn in Hs.
    - injection Hs as <-. by exists [].
    - apply bind_Some in Hs as (ty & Hty & (tys & Hs & [= <-])%bind_Some).
      rewrite list_lookup_fmap in Hty. destruct (columns b !! i) as [a|] eqn:Ha; [|done].
      destruct (IH tys Hs) as (cols & Hc & Hcols & Ht). exists (a :: cols). cbn. rewrite Ha. cbn. rewrite Hc. cbn in *.
      split_and!; [done|by constructor|congruence]. }
  unfold project_batch. rewrite Hc. cbn. eexists. split; [done|]. split_and!; [|done|done|].
  - unfold batch_wf in *. cbn. rewrite Forall_forall in *. intros a Ha.
    apply list_elem_of_lookup in Ha as [k Hk]. eapply Forall2_lookup_r in Hcols as (i & _ & Hi); [|done].
    apply Hwf. by eapply list_elem_of_lookup_2.
  - unfold rows, tab. rewrite map_map. cbn. apply map_ext. intros k. unfold row_at, project_row. cbn.
    clear Hc Ht Hs. induction Hcols as [|i a indices cols Ha _ IH]; [done|]. cbn. rewrite IH. f_equal.
    change (map ?f (columns b)) with (f <$> columns b). rewrite list_lookup_fmap, Ha. done.
Qed.

Section Rows.
Context `{!ArrowCells, !ArrowOk}.
Variables (schema : list DataType) (ty wty : DataType) (body : CaseBody dyn).
Variables (sems : list ((row → option (option value)) * (row → option (option value))))
  (fe : row → option (option value)).
Hypotheses (Hsems : Case.branch_rows schema wty ty (when_then_expr body) sems)
  (Helse : Case.else_row schema ty (CaseExpr.else_expr body) fe).

Lemma body_data_type_ok : when_then_expr body ≠ [] → body_data_type body schema = Ok ty.
Proof.
  intros Hne. unfold body_data_type.
  assert (∀ ty0, ty0 = ty ∨ when_then_expr body ≠ [] → then_type (when_then_expr body) schema ty0 = Ok ty) as Ht.
  { unfold Case.branch_rows in Hsems. clear Hne Helse. induction Hsems as [|[w t] fs l l' [_ Ht] Hl IH]; intros ty0 Hty.
    - by destruct Hty as [->|].
    - cbn in *. rewrite (proj1 Ht). cbn. case_decide; [|done]. apply IH; [done|by left]. }
  rewrite Ht by auto. cbn. unfold Case.else_row in Helse. destruct (CaseExpr.else_expr body); [|done].
  case_decide; [apply Helse|done].
Qed.

Lemma rows_length b r : r ∈ rows b → length r = length (columns b).
Proof. unfold rows, tab. intros (i & -> & _)%list_elem_of_fmap. apply length_map. Qed.

Lemma mapM_rows_ext {B} (f g : row → option B) b :
  (∀ r, length r = length (columns b) → f r = g r) → mapM f (rows b) = mapM g (rows b).
Proof.
  intros Hfg. assert (∀ r, r ∈ rows b → f r = g r) as Hin by (intros r Hr; by apply Hfg, rows_length).
  induction (rows b) as [|r l IH]; [done|]. cbn. rewrite Hin by (by left).
  destruct (g r); [|done]. cbn. by rewrite IH by (intros x Hx; apply Hin; by right).
Qed.

Lemma schema_columns b : length (schema_of b) = length (columns b).
Proof. apply length_map. Qed.

(** The projected body, its meaning on the projected rows. *)
Variables (p : ProjectedCaseBody dyn) (schema' : list DataType)
  (sems' : list ((row → option (option value)) * (row → option (option value)))) (fe' : row → option (option value)).
Hypotheses (Hproj : project_schema (projection p) schema = Some schema')
  (Hsems' : Case.branch_rows schema' wty ty (when_then_expr (pbody p)) sems')
  (Helse' : Case.else_row schema' ty (CaseExpr.else_expr (pbody p)) fe').
Hypothesis (Hne : when_then_expr body ≠ []).

Lemma no_expr_computes :
  wty = DBoolean →
  (∀ r, length r = length schema → Case.no_expr_row sems' fe' (project_row (projection p) r) = Case.no_expr_row sems fe r) →
  computes schema {| evaluate := CaseExpr_case_when_no_expr body p; data_type := body_data_type body |} ty
    (Case.no_expr_row sems fe).
Proof.
  intros Hw Hagree. split; [by apply body_data_type_ok|]. intros b vs Hwf Hs Hn Hu Hvs. cbn.
  unfold CaseExpr_case_when_no_expr. rewrite Hs, body_data_type_ok by done. cbn [try_bind]. case_decide.
  - destruct (project_batch_ok b (projection p) schema') as (b' & -> & Hwf' & Hn' & Hs' & Hr); [done|by rewrite Hs|].
    cbn [try_bind]. rewrite <- Hn' in *.
    apply (Case.case_when_no_expr_ok debug_assertions b' ty wty) with (fe := fe') (sems := sems'); rewrite ?Hs'; try done.
    rewrite Hr, mapM_map, <- Hvs. apply mapM_rows_ext. intros r Hl. apply Hagree. by rewrite <- Hs, schema_columns.
  - apply (Case.case_when_no_expr_ok debug_assertions b ty wty) with (fe := fe) (sems := sems); by rewrite ?Hs.
Qed.

Lemma with_expr_computes d fb d' fb' :
  expr body = Some d → computes schema d wty fb → expr (pbody p) = Some d' → computes schema' d' wty fb' →
  (∀ r, length r = length schema →
    Case.with_expr_row fb' sems' fe' (project_row (projection p) r) = Case.with_expr_row fb sems fe r) →
  computes schema {| evaluate := CaseExpr_case_when_with_expr body p; data_type := body_data_type body |} ty
    (Case.with_expr_row fb sems fe).
Proof.
  intros Hd Hfb Hd' Hfb' Hagree. split; [by apply body_data_type_ok|]. intros b vs Hwf Hs Hn Hu Hvs. cbn.
  unfold CaseExpr_case_when_with_expr. rewrite Hs, body_data_type_ok by done. cbn [try_bind]. case_decide.
  - destruct (project_batch_ok b (projection p) schema') as (b' & -> & Hwf' & Hn' & Hs' & Hr); [done|by rewrite Hs|].
    cbn [try_bind]. rewrite <- Hn' in *.
    apply (Case.case_when_with_expr_ok debug_assertions b' ty wty) with (fe := fe') (sems := sems') (d := d') (fb := fb');
      rewrite ?Hs'; try done.
    rewrite Hr, mapM_map, <- Hvs. apply mapM_rows_ext. intros r Hl. apply Hagree. by rewrite <- Hs, schema_columns.
  - apply (Case.case_when_with_expr_ok debug_assertions b ty wty) with (fe := fe) (sems := sems) (d := d) (fb := fb);
      by rewrite ?Hs.
Qed.

End Rows.

(** ** One condition *)

Section OneBranch.
Context `{!ArrowCells, !ArrowOk}.
Variables (b : RecordBatch) (ty : DataType) (body : CaseBody dyn) (w t : dyn).
Variables (ft fe : row → option (option value)) (wv : nat → option bool) (F : nat → option value).
Abbreviation n := (num_rows b).
Abbreviation p := (λ i, truthy (wv i)).
Hypotheses (Hwf : batch_wf b) (Hu32 : (Z.of_nat n < 2 ^ 32)%Z) (Hbranch : when_then_expr body = [(w, t)])
  (Ht : computes (schema_of b) t ty ft) (Helse : Case.else_row (schema_of b) ty (CaseExpr.else_expr body) fe)
  (Hrow : ∀ i, i < n → (if truthy (wv i) then ft (row_at b i) else fe (row_at b i)) = Some (F i)).

Lemma no_nulls_map (l : list nat) : no_nulls (map wv l) = map (λ i, Some (p i)) l.
Proof.
  unfold no_nulls. case_decide as Hn.
  - apply map_ext_in. intros i Hi%list_elem_of_In. destruct (wv i) as [c|] eqn:Ei; [done|].
    unfold null_count in Hn. apply nil_length_inv in Hn.
    assert (wv i ∈ filter (λ c, c = None) (map wv l)) as Hin.
    { apply list_elem_of_filter. split; [done|]. by apply list_elem_of_fmap_2. }
    rewrite Hn in Hin. by apply elem_of_nil in Hin.
  - rewrite prep_null_mask_filter_ok. by rewrite map_map.
Qed.

Lemma spread_mask_filter {A} (q : nat → bool) (G : nat → A) d l :
  Scatter.spread_mask (map q l) (map G (filter (λ i, q i = true) l)) d = map (λ i, if q i then G i else d) l.
Proof.
  induction l as [|i l IH]; [done|]. cbn [map Scatter.spread_mask]. rewrite filter_cons.
  destruct (q i) eqn:Eq; [rewrite decide_True by done|rewrite decide_False by congruence]; cbn; by rewrite IH.
Qed.

Lemma some_true_count (q : nat → bool) (l : list nat) :
  true_count (map (λ i, Some (q i)) l) = length (filter (λ i, q i = true) l).
Proof.
  unfold true_count. induction l as [|i l IH]; [done|]. cbn [map]. rewrite !filter_cons.
  destruct (q i); repeat case_decide; try done; cbn; by rewrite ?IH.
Qed.

(** The rows of a branch, as a batch. *)
Lemma branch_rows_ok (q : nat → bool) d f :
  computes (schema_of b) d ty f → 0 < length (Case.at_ n q) → (∀ i, i < n → q i = true → f (row_at b i) = Some (F i)) →
  ∃ b1 v, Case.filter_record_batch b (map (λ i, Some (q i)) (seq 0 n)) = Ok b1 ∧ evaluate d b1 = Some (Ok v)
    ∧ fits (length (Case.at_ n q)) ty v ∧ spread (length (Case.at_ n q)) v = map F (Case.at_ n q).
Proof.
  intros Hd Hlen Hq. assert (0 < n) as Hn by (pose proof (Case.at_le n q); lia).
  destruct (Case.filter_part b (λ _, true) b (λ i, Some (q i)) (Case.part_all b Hwf)) as (b1 & Hb1 & Hp1).
  rewrite Case.at_all in Hb1 by done. exists b1.
  destruct (Case.part_computes b Hn Hu32 d ty f (λ i, true && q i) b1 F) as (v & Hv); [done..| |].
  { intros i [Hi Hqi]%Case.elem_of_at. by apply Hq. }
  by exists v.
Qed.

Lemma at_negb (q : nat → bool) : length (Case.at_ n q) + length (Case.at_ n (λ i, negb (q i))) = n.
Proof.
  rewrite <- Case.at_or by (intros i _; by destruct (q i)).
  rewrite Case.at_all by (intros i _; by destruct (q i)). apply length_seq.
Qed.

Lemma F_typed i : i < n → has_type ty (F i).
Proof.
  intros Hi. specialize (Hrow i Hi). destruct (truthy (wv i)).
  - by apply (computes_typed (schema_of b) t ty ft b i).
  - unfold Case.else_row in Helse. destruct (CaseExpr.else_expr body) as [e|].
    + by apply (computes_typed (schema_of b) e ty fe b i).
    + rewrite Helse in Hrow. by injection Hrow as <-.
Qed.

Lemma tab_F_typed : Forall (has_type ty) (tab n F).
Proof. apply Forall_fmap, Forall_forall. intros i Hi%elem_of_seq. apply F_typed. lia. Qed.

Lemma merge_ok tv ev :
  fits (length (Case.at_ n p)) ty tv → spread (length (Case.at_ n p)) tv = map F (Case.at_ n p) →
  fits (length (Case.at_ n (λ i, negb (p i)))) ty ev →
  spread (length (Case.at_ n (λ i, negb (p i)))) ev = map F (Case.at_ n (λ i, negb (p i))) →
  arrow_merge (map (λ i, Some (p i)) (seq 0 n)) tv ev = inl (array_of ty (tab n F)).
Proof.
  intros Htf Hts Hef Hes.
  assert (n - length (Case.at_ n p) = length (Case.at_ n (λ i, negb (p i)))) as Hsub.
  { pose proof (at_negb p) as Hsum. cbn beta in Hsum. lia. }
  assert (true_count (map (λ i, Some (p i)) (seq 0 n)) = length (Case.at_ n p)) as Hcount by apply some_true_count.
  apply arrow_merge_ok; rewrite ?Hcount, ?length_map, ?length_seq, ?Hsub; [done..|].
  rewrite Hts, Hes, map_map. cbn [truthy].
  rewrite (Case.merge_cells_rows (λ i, Some (if p i then 0 else 1)) F); [done|apply NoDup_seq| |].
  - intros [|[|k]] Hk; cbn in Hk |- *; [| |lia]; do 2 f_equal; apply list_filter_iff; intros i; by destruct (p i).
  - intros i k _ [= <-]. destruct (p i); cbn; lia.
Qed.

Lemma body_expr_or_expr_ok :
  0 < length (Case.at_ n p) < n →
  ∃ v, body_expr_or_expr body b (map wv (seq 0 n)) = Some (Ok v) ∧ fits n ty v ∧ spread n v = tab n F.
Proof.
  intros Hlen. unfold body_expr_or_expr. rewrite no_nulls_map.
  destruct (branch_rows_ok p t ft) as (b1 & tv & -> & Htv & Htf & Hts); [done|lia| |].
  { intros i Hi Hp. specialize (Hrow i Hi). by rewrite Hp in Hrow. }
  cbn [try_bind]. rewrite Hbranch. cbn [vec_get lookup list_lookup mbind option_bind snd]. rewrite Htv. cbn [try_bind].
  pose proof tab_F_typed as HF.
  unfold Case.else_row in Helse. destruct (CaseExpr.else_expr body) as [e|] eqn:He.
  - rewrite arrow_not_ok, map_map. cbn [arrow_result try_bind fmap option_fmap option_map].
    pose proof (at_negb p) as Hsum.
    destruct (branch_rows_ok (λ i, negb (p i)) e fe) as (b2 & ev & -> & Hev & Hef & Hes); [done|lia| |].
    { intros i Hi Hp%negb_true_iff. specialize (Hrow i Hi). by rewrite Hp in Hrow. }
    cbn [try_bind].
    assert (body_data_type body (schema_of b) = Ok ty) as ->.
    { unfold body_data_type. rewrite Hbranch, He. cbn. rewrite (proj1 Ht). cbn.
      case_decide; cbn; [rewrite decide_True by done; apply Helse|by rewrite decide_False]. }
    cbn [try_bind]. unfold Case.try_cast. rewrite (proj1 Helse). cbn [mbind Result_bind].
    rewrite decide_True by done. rewrite Hev. cbn [try_bind]. rewrite (merge_ok tv ev) by done. cbn [arrow_result try_bind].
    eexists. split; [done|]. split; [apply fits_array_of, length_tab|]. by apply cells_array_of.
  - assert (Hc : true_count (map (λ i, Some (p i)) (seq 0 n)) = length (Case.at_ n p)) by apply some_true_count.
    rewrite Hc, Scatter.scatter_ok by (by rewrite Hc, (into_array_len _ _ _ Htf)). cbn [try_bind].
    eexists. split; [done|]. cbn [spread]. rewrite Scatter.cells_scattered, (cells_into_array _ _ _ Htf), Hts.
    assert (Scatter.spread_mask (selection (map (λ i, Some (p i)) (seq 0 n))) (map F (Case.at_ n p)) None = tab n F) as Hs.
    { unfold selection. rewrite map_map. cbn [truthy]. unfold Case.at_. rewrite spread_mask_filter.
      apply map_ext_in. intros i Hi%in_seq. specialize (Hrow i ltac:(lia)). destruct (p i); [done|].
      rewrite Helse in Hrow. by injection Hrow. }
    split; [|done]. split; cbn [columnar_type Scatter.scattered].
    + unfold Scatter.scattered. rewrite array_type_of, into_array_type. apply Htf.
    + rewrite <- length_cells, Scatter.cells_scattered, Scatter.length_spread_mask, selection_length.
      by rewrite length_map, length_seq.
Qed.

End OneBranch.

Section SpecialForms.
Context `{!ArrowCells, !ArrowOk}.
Variables (schema : list DataType) (ty : DataType) (body : CaseBody dyn) (w t : dyn).
Variables (fw ft fe : row → option (option value)).
Hypotheses (Hbranch : when_then_expr body = [(w, t)]) (Hw : computes schema w DBoolean fw) (Ht : computes schema t ty ft)
  (Helse : Case.else_row schema ty (CaseExpr.else_expr body) fe).

Abbreviation one_row := (Case.no_expr_row [(fw, ft)] fe).

Lemma one_body_type : body_data_type body schema = Ok ty.
Proof.
  apply (body_data_type_ok schema ty DBoolean body [(fw, ft)] fe); rewrite ?Hbranch; [|done..].
  by apply Forall2_cons.
Qed.

(** The condition on the rows of a batch. *)
Lemma condition_rows b vs :
  batch_wf b → schema_of b = schema → 0 < num_rows b → (Z.of_nat (num_rows b) < 2 ^ 32)%Z →
  mapM one_row (rows b) = Some vs →
  ∃ v wv F, evaluate w b = Some (Ok v) ∧ fits (num_rows b) DBoolean v ∧ vs = tab (num_rows b) F
    ∧ spread (num_rows b) v = map (λ i, VBoolean <$> wv i) (seq 0 (num_rows b))
    ∧ ∀ i, i < num_rows b → (if truthy (wv i) then ft (row_at b i) else fe (row_at b i)) = Some (F i).
Proof.
  intros Hwf Hs Hn Hu Hvs. apply Case.values_at in Hvs as (F & -> & Hrow); [|done].
  set (c := λ i, default None (fw (row_at b i))).
  assert (Hc : ∀ i, i < num_rows b → fw (row_at b i) = Some (c i) ∧
    (if truthy (cell_bool (c i)) then ft (row_at b i) else fe (row_at b i)) = Some (F i)).
  { intros i Hi. specialize (Hrow i Hi). unfold c. unfold Case.no_expr_row in Hrow. cbn in Hrow.
    destruct (fw (row_at b i)); [|done]. done. }
  destruct (proj2 Hw b (tab (num_rows b) c)) as (v & Hev & Hv & Hsp); [done..| |].
  { unfold rows, tab. rewrite mapM_map. apply mapM_total. intros i Hi%elem_of_seq. apply Hc. lia. }
  exists v, (λ i, cell_bool (c i)), F. split_and!; [done..| |intros i Hi; by apply Hc].
  rewrite Hsp. apply map_ext_in. intros i Hi%in_seq.
  pose proof (computes_typed schema w DBoolean fw b i (c i) Hw Hwf Hs ltac:(lia) (proj1 (Hc i ltac:(lia)))) as Hty.
  by destruct (c i) as [[]|].
Qed.

Lemma bools_of_cells (wv : nat → option bool) a l :
  array_type a = DBoolean → cells a = map (λ i, VBoolean <$> wv i) l → as_bools a = Some (map wv l).
Proof.
  intros Hty Hc. rewrite as_bools_cells, Hc, map_map by done. f_equal. apply map_ext. intros i. by destruct (wv i).
Qed.

Lemma true_count_filter (wv : nat → option bool) l :
  true_count (map wv l) = length (filter (λ i, truthy (wv i) = true) l).
Proof.
  unfold true_count. induction l as [|i l IH]; [done|]. cbn [map]. rewrite !filter_cons.
  destruct (wv i) as [[]|]; repeat case_decide; try done; cbn; by rewrite ?IH.
Qed.

(** A condition of the same truth value for all rows. *)
Lemma uniform_rows b F (wv : nat → option bool) :
  let n := num_rows b in
  (∀ i, i < n → (if truthy (wv i) then ft (row_at b i) else fe (row_at b i)) = Some (F i)) →
  ((∀ i, i < n → truthy (wv i) = true) → mapM ft (rows b) = Some (tab n F)) ∧
  ((∀ i, i < n → truthy (wv i) = false) → mapM fe (rows b) = Some (tab n F)).
Proof.
  intros n Hrow. unfold rows, tab. rewrite !mapM_map. split; intros Hall; apply mapM_total; intros i Hi%elem_of_seq;
    specialize (Hrow i ltac:(lia)); by rewrite Hall in Hrow by lia.
Qed.

Lemma else_rows_ok b vs :
  batch_wf b → schema_of b = schema → 0 < num_rows b → (Z.of_nat (num_rows b) < 2 ^ 32)%Z →
  mapM fe (rows b) = Some vs →
  ∃ v, match CaseExpr.else_expr body with
       | Some e => evaluate e b
       | None => ty ←? Some (body_data_type body (schema_of b)); Some (Ok (Scalar (mkScalar ty None)))
       end = Some (Ok v) ∧ fits (num_rows b) ty v ∧ spread (num_rows b) v = vs.
Proof.
  intros Hwf Hs Hn Hu Hvs. pose proof one_body_type as Hty. unfold Case.else_row in Helse.
  destruct (CaseExpr.else_expr body) as [e|]; [by apply Helse|]. rewrite Hs, Hty. cbn.
  eexists. split; [done|]. split; [done|]. cbn.
  rewrite (mapM_total _ (λ _, None)) in Hvs by (intros r _; apply Helse). injection Hvs as <-.
  rewrite <- length_rows. clear. induction (rows b) as [|r l IH]; [done|]. cbn. by rewrite IH.
Qed.

Lemma row_at_length b i : length (row_at b i) = length (columns b).
Proof. apply length_map. Qed.

Section ProjectedForm.
Variables (p : ProjectedCaseBody dyn) (schema' : list DataType) (w' t' : dyn) (ft' fe' : row → option (option value)).
Hypotheses (Hproj : project_schema (projection p) schema = Some schema')
  (Hbranch' : when_then_expr (pbody p) = [(w', t')]) (Ht' : computes schema' t' ty ft')
  (Helse' : Case.else_row schema' ty (CaseExpr.else_expr (pbody p)) fe')
  (Hagree : ∀ r, length r = length schema →
    ft' (project_row (projection p) r) = ft r ∧ fe' (project_row (projection p) r) = fe r).

Lemma mixed_rows b F (wv : nat → option bool) :
  batch_wf b → schema_of b = schema → (Z.of_nat (num_rows b) < 2 ^ 32)%Z →
  (∀ i, i < num_rows b → (if truthy (wv i) then ft (row_at b i) else fe (row_at b i)) = Some (F i)) →
  0 < length (Case.at_ (num_rows b) (λ i, truthy (wv i))) < num_rows b →
  ∃ v, (if decide (length (projection p) < length (columns b)) then
          projected_batch ←? Some (project_batch b (projection p));
          body_expr_or_expr (pbody p) projected_batch (map wv (seq 0 (num_rows b)))
        else body_expr_or_expr body b (map wv (seq 0 (num_rows b)))) = Some (Ok v)
    ∧ fits (num_rows b) ty v ∧ spread (num_rows b) v = tab (num_rows b) F.
Proof.
  intros Hwf Hs Hu Hrow Hlen. case_decide.
  - destruct (project_batch_ok b (projection p) schema') as (b' & -> & Hwf' & Hn' & Hs' & Hr); [done|by rewrite Hs|].
    cbn [try_bind]. rewrite <- Hn' in *.
    apply (body_expr_or_expr_ok b' ty (pbody p) w' t' ft' fe'); rewrite ?Hs'; try done.
    intros i Hi. rewrite <- (Hrow i Hi).
    assert (row_at b' i = project_row (projection p) (row_at b i)) as ->.
    { apply (f_equal (lookup i)) in Hr. unfold rows, tab in Hr.
      change (map (project_row (projection p)) (map (row_at b) (seq 0 (num_rows b))))
        with (project_row (projection p) <$> (row_at b <$> seq 0 (num_rows b))) in Hr.
      rewrite !list_lookup_fmap, !lookup_seq_lt in Hr by lia. by injection Hr. }
    destruct (Hagree (row_at b i)) as [-> ->]; [|done]. by rewrite row_at_length, <- Hs, schema_columns.
  - apply (body_expr_or_expr_ok b ty body w t ft fe); by rewrite ?Hs.
Qed.

Lemma length_filter_all (q : nat → bool) l :
  length (filter (λ i, q i = true) l) = length l → ∀ i, i ∈ l → q i = true.
Proof.
  induction l as [|j l IH]; [by intros _ i ?%elem_of_nil|]. rewrite filter_cons. intros Hl i Hi.
  pose proof (length_filter (λ i, q i = true) l). case_decide; cbn in Hl; [|lia].
  apply elem_of_cons in Hi as [->|Hi]; [done|]. apply IH; [lia|done].
Qed.

(** The condition as [expr_or_expr] looks at it: a scalar stands for all rows. *)
Lemma condition_bools b v (wv : nat → option bool) :
  0 < num_rows b → fits (num_rows b) DBoolean v →
  spread (num_rows b) v = map (λ i, VBoolean <$> wv i) (seq 0 (num_rows b)) →
  ∃ l, as_bools (into_array v 1) = Some (map wv l) ∧ (∀ i, i < num_rows b → ∃ j, j ∈ l ∧ wv i = wv j)
    ∧ (is_scalar v = false → l = seq 0 (num_rows b)) ∧ (is_scalar v = true → length l = 1).
Proof.
  intros Hn Hv Hsp. destruct v as [a|s].
  - exists (seq 0 (num_rows b)). split_and!; try done.
    + apply bools_of_cells; [apply Hv|done].
    + intros i Hi. exists i. split; [apply elem_of_seq; lia|done].
  - assert (∀ i, i < num_rows b → VBoolean <$> wv i = s_value s) as Hall.
    { intros i Hi. apply (f_equal (lookup i)) in Hsp. cbn [spread] in Hsp.
      rewrite lookup_replicate_2 in Hsp by done. change (map ?f ?l) with (f <$> l) in Hsp.
      rewrite list_lookup_fmap, lookup_seq_lt in Hsp by done. by injection Hsp as ->. }
    exists [0]. split_and!; try done.
    + apply bools_of_cells; [rewrite into_array_type; apply Hv|]. cbn [into_array].
      unfold to_array_of_size. rewrite cells_array_of; [cbn; by rewrite Hall|].
      destruct Hv as [Hst Hv]. cbn in Hst. rewrite Hst. by constructor.
    + intros i Hi. exists 0. split; [by left|]. pose proof (Hall i Hi) as Hi'. rewrite <- (Hall 0 Hn) in Hi'.
      destruct (wv i), (wv 0); cbn in Hi'; congruence.
Qed.

Lemma expr_or_expr_computes :
  computes schema {| evaluate := expr_or_expr body p; data_type := body_data_type body |} ty one_row.
Proof.
  split; [apply one_body_type|]. intros b vs Hwf Hs Hn Hu Hvs. cbn [evaluate].
  destruct (condition_rows b vs) as (v & wv & F & Hev & Hv & -> & Hsp & Hrow); [done..|].
  unfold expr_or_expr. rewrite Hbranch. cbn [vec_get lookup list_lookup mbind option_bind]. rewrite Hev. cbn [try_bind].
  destruct (uniform_rows b F wv Hrow) as [Hthen Hno].
  destruct (condition_bools b v wv) as (l & -> & Hcover & Harr & Hone); [done..|].
  rewrite true_count_filter, length_map. case_decide as Hall.
  - apply (proj2 Ht); [done..|]. apply Hthen. intros i Hi. destruct (Hcover i Hi) as (j & Hj & ->).
    by apply (length_filter_all (λ i, truthy (wv i)) l).
  - case_decide as Hz.
    + apply else_rows_ok; [done..|]. apply Hno. intros i Hi. destruct (Hcover i Hi) as (j & Hj & ->).
      apply not_true_iff_false. intros Hp. apply nil_length_inv in Hz.
      assert (j ∈ filter (λ i, truthy (wv i) = true) l) as Hin by (by apply list_elem_of_filter).
      rewrite Hz in Hin. by apply elem_of_nil in Hin.
    + assert (is_scalar v = false) as Hns.
      { destruct v; [done|]. specialize (Hone eq_refl). pose proof (length_filter (λ i, truthy (wv i) = true) l). lia. }
      rewrite (Harr Hns) in *. apply mixed_rows; try done. fold (Case.at_ (num_rows b) (λ i, truthy (wv i))) in Hall, Hz.
      rewrite length_seq in Hall. pose proof (Case.at_le (num_rows b) (λ i, truthy (wv i))). lia.
Qed.

End ProjectedForm.

(** A column or null: the column is evaluated for all rows. *)
Lemma column_or_null_computes :
  CaseExpr.else_expr body = None →
  (∀ r, length r = length schema → is_Some (ft r)) →
  (∀ b v, evaluate t b = Some (Ok v) → is_scalar v = false) →
  computes schema {| evaluate := case_column_or_null body; data_type := body_data_type body |} ty one_row.
Proof.
  intros Hnone Htotal Hcol. split; [apply one_body_type|]. intros b vs Hwf Hs Hn Hu Hvs. cbn [evaluate].
  destruct (condition_rows b vs) as (v & wv & F & Hev & Hv & -> & Hsp & Hrow); [done..|].
  pose proof Helse as Hfe. unfold Case.else_row in Hfe. rewrite Hnone in Hfe.
  set (c := λ i, default None (ft (row_at b i))).
  assert (Hc : ∀ i, i < num_rows b → ft (row_at b i) = Some (c i)).
  { intros i _. unfold c. destruct (Htotal (row_at b i)) as [x ->]; [|done].
    by rewrite row_at_length, <- Hs, schema_columns. }
  destruct (proj2 Ht b (tab (num_rows b) c)) as (tv & Htv & Htf & Hts); [done..| |].
  { unfold rows, tab. rewrite mapM_map. apply mapM_total. intros i Hi%elem_of_seq. apply Hc. lia. }
  assert (HF : ∀ i, i < num_rows b → F i = if truthy (wv i) then c i else None).
  { intros i Hi. specialize (Hrow i Hi). rewrite Hc, Hfe in Hrow by done. destruct (truthy (wv i)); congruence. }
  unfold case_column_or_null. rewrite Hbranch. cbn [vec_get lookup list_lookup mbind option_bind]. rewrite Hev. cbn [try_bind].
  destruct v as [a|s].
  - rewrite (bools_of_cells wv a (seq 0 (num_rows b))) by (done || apply Hv). cbn [mbind option_bind].
    rewrite no_nulls_map, arrow_not_ok, map_map. cbn [arrow_result try_bind fmap option_fmap option_map].
    rewrite Htv. cbn [try_bind]. destruct tv as [ta|]; [|by apply Hcol in Htv].
    rewrite arrow_nullif_ok by (rewrite length_map, length_seq; symmetry; apply Htf). cbn [arrow_result try_bind].
    cbn [spread] in Hts. rewrite Hts. unfold tab. rewrite Case.zip_with_map.
    assert (map (λ i, if truthy (Some (negb (truthy (wv i)))) then None else c i) (seq 0 (num_rows b)) = tab (num_rows b) F) as ->.
    { apply map_ext_in. intros i Hi%in_seq. rewrite HF by lia. cbn. by destruct (truthy (wv i)). }
    eexists. split; [done|]. destruct Htf as [<- Htl]. split; [apply fits_array_of, length_tab|].
    apply cells_array_of, Forall_fmap, Forall_forall. intros i Hi%elem_of_seq. cbn. rewrite HF by lia.
    destruct (truthy (wv i)); [|done]. apply (computes_typed schema t _ ft b i); try done; [lia|]. apply Hc. lia.
  - assert (Hall : ∀ i, i < num_rows b → s = ScalarBoolean (wv i)).
    { intros i Hi. apply (f_equal (lookup i)) in Hsp. cbn [spread] in Hsp.
      rewrite lookup_replicate_2 in Hsp by done. change (map ?f ?l) with (f <$> l) in Hsp.
      rewrite list_lookup_fmap, lookup_seq_lt in Hsp by done. injection Hsp as Hsv.
      destruct s, Hv as [Hst _]. cbn in *. by subst. }
    case_decide as Htrue.
    + exists tv. split_and!; [done..|]. rewrite Hts. apply tab_ext. intros i Hi. rewrite HF by done.
      specialize (Hall i Hi). rewrite Htrue in Hall. by destruct (wv i) as [[]|].
    + rewrite Hs, one_body_type. cbn [try_bind]. eexists. split; [done|]. split; [done|]. cbn.
      rewrite replicate_tab. apply tab_ext. intros i Hi. rewrite HF by done.
      specialize (Hall i Hi). by destruct (wv i) as [[]|].
Qed.

(** Two literals. *)
Lemma scalar_or_scalar_computes e s1 s2 :
  CaseExpr.else_expr body = Some e →
  s_type s1 = ty → s_type s2 = ty → has_type ty (s_value s1) → has_type ty (s_value s2) →
  (∀ b, evaluate t b = Some (Ok (Scalar s1))) → (∀ b, evaluate e b = Some (Ok (Scalar s2))) →
  (∀ r, ft r = Some (s_value s1)) → (∀ r, fe r = Some (s_value s2)) →
  computes schema {| evaluate := scalar_or_scalar body; data_type := body_data_type body |} ty one_row.
Proof.
  intros He Hs1 Hs2 Hv1 Hv2 Het Hee Hft Hfe. split; [apply one_body_type|]. intros b vs Hwf Hs Hn Hu Hvs. cbn [evaluate].
  destruct (condition_rows b vs) as (v & wv & F & Hev & Hv & -> & Hsp & Hrow); [done..|].
  pose proof Helse as Hel. unfold Case.else_row in Hel. rewrite He in Hel.
  unfold scalar_or_scalar. rewrite Hs, one_body_type. cbn [try_bind]. rewrite Hbranch.
  cbn [vec_get lookup list_lookup mbind option_bind]. rewrite Hev. cbn [try_bind].
  rewrite (bools_of_cells wv _ (seq 0 (num_rows b)));
    [|rewrite into_array_type; apply Hv|by rewrite (cells_into_array _ _ _ Hv)].
  assert (Hdatum : ∀ s, s_type s = ty → has_type ty (s_value s) → to_datum_scalar (Scalar s) = Some s).
  { intros [sty sv] Hst Hsv. cbn in *. subst sty. unfold to_datum_scalar, into_array, to_array_of_size. cbn [s_type s_value].
    rewrite array_len_of. cbn [length replicate]. rewrite decide_True by done. unfold try_from_array.
    by rewrite array_type_of, cells_array_of by (by constructor). }
  rewrite Het. cbn [try_bind]. rewrite Hdatum by done. cbn [mbind option_bind]. rewrite He.
  unfold Case.try_cast. rewrite (proj1 Hel). cbn [mbind Result_bind]. rewrite decide_True by done. cbn [try_bind].
  rewrite Hee. cbn [try_bind]. rewrite Hdatum by done. cbn [mbind option_bind].
  rewrite no_nulls_map, arrow_zip_ok, map_map by congruence. cbn [arrow_result try_bind truthy].
  assert (map (λ i, if truthy (wv i) then s_value s1 else s_value s2) (seq 0 (num_rows b)) = tab (num_rows b) F) as ->.
  { apply map_ext_in. intros i Hi%in_seq. specialize (Hrow i ltac:(lia)). rewrite Hft, Hfe in Hrow.
    destruct (truthy (wv i)); congruence. }
  eexists. split; [done|]. rewrite Hs1. split; [apply fits_array_of, length_tab|].
  apply cells_array_of, Forall_fmap, Forall_forall. intros i Hi%elem_of_seq. cbn.
  specialize (Hrow i ltac:(lia)). rewrite Hft, Hfe in Hrow. destruct (truthy (wv i)); by injection Hrow as <-.
Qed.

End SpecialForms.

(** ** The lookup table *)

Section Lookup.
Context `{!ArrowCells, !ArrowOk}.

Lemma lookup_computes schema (body : CaseBody dyn) base wty ty fb (table : LiteralLookupTable) (g : option value → option value) :
  body_data_type body schema = Ok ty → expr body = Some base → computes schema base wty fb →
  (∀ c, has_type ty (g c)) →
  (∀ a, array_type a = wty → map_keys_to_values table a = Some (Ok (array_of ty (map g (cells a))))) →
  computes schema {| evaluate := with_lookup_table body table; data_type := body_data_type body |} ty (λ r, g <$> fb r).
Proof.
  intros Hdt Hbase Hfb Hg Htable. split; [done|]. intros b vs Hwf Hs Hn Hu Hvs. cbn [evaluate].
  assert (∃ ks, mapM fb (rows b) = Some ks ∧ vs = map g ks) as (ks & Hks & ->).
  { revert vs Hvs. induction (rows b) as [|r l IH]; intros vs Hvs; cbn in Hvs |- *; [injection Hvs as <-; by exists []|].
    destruct (fb r) as [k|]; [|done]. cbn in *. apply bind_Some in Hvs as (vs' & Hvs & [= <-]).
    destruct (IH vs' Hvs) as (ks & -> & ->). by exists (k :: ks). }
  destruct (proj2 Hfb b ks) as (v & Hev & Hv & Hsp); [done..|].
  unfold with_lookup_table. rewrite Hbase. cbn [mbind option_bind]. rewrite Hev. cbn [try_bind].
  rewrite Htable by (rewrite into_array_type; apply Hv). cbn [try_bind].
  assert (Hty : ∀ l, Forall (has_type ty) (map g l)) by (intros l; by apply Forall_fmap, Forall_true).
  destruct v as [a|s]; cbn [is_scalar].
  - eexists. split; [done|]. cbn [into_array spread] in *. split.
    + apply fits_array_of. by rewrite length_map, length_cells, (proj2 Hv).
    + cbn. by rewrite cells_array_of, Hsp by done.
  - cbn [into_array spread] in *. unfold to_array_of_size. destruct Hv as [Hst Hv]. cbn in Hst.
    unfold try_from_array. rewrite array_type_of, cells_array_of by done.
    rewrite cells_array_of by (rewrite Hst; by constructor). cbn.
    eexists. split; [done|]. split; [split; [done|apply Hg]|]. cbn. rewrite <- Hsp.
    change (map g (replicate (num_rows b) (s_value s))) with (g <$> replicate (num_rows b) (s_value s)).
    by rewrite fmap_replicate.
Qed.

(** Literal branches on one row. *)
Lemma literal_rows fb literals o r :
  Case.with_expr_row fb
    (map (λ wt : ScalarValue * ScalarValue, (λ _, Some (s_value wt.1), λ _, Some (s_value wt.2))) literals)
    (λ _, Some o) r
  = literal_match literals o <$> fb r.
Proof.
  unfold Case.with_expr_row. destruct (fb r) as [base|]; [|done]. cbn.
  assert (literal_match literals o None = o) as Hnone.
  { induction literals as [|[[wt [v|]] t] l IH]; cbn; done. }
  destruct base as [v|]; [|by rewrite Hnone]. clear Hnone.
  induction literals as [|[w t] l IH]; [done|]. cbn. by destruct (truthy _).
Qed.

Lemma literal_match_typed ty literals o key :
  has_type ty o → Forall (λ wt : ScalarValue * ScalarValue, has_type ty (s_value wt.2)) literals →
  has_type ty (literal_match literals o key).
Proof. intros Ho Hl. induction Hl as [|[w t] l Ht Hl IH]; cbn; [done|]. by destruct (truthy _). Qed.

End Lookup.

End Methods.

End CaseMethods.
