(* ===== verification/PhysicalExprs.v ===== *)
(** * Physical expressions (physical-expr/src/expressions, physical-expr-common)

    The expression tree the operators evaluate on batches: columns, literals,
    binary operators, NOT, IS [NOT] NULL, TRY_CAST, IN, CASE and the expressions
    over join keys, with the
    constructors that choose how a CASE is evaluated and rewrite its body to the
    columns it uses.  Proved: a well-typed expression evaluates on a batch to the
    values of its rows under a row-by-row semantics, neither failing nor
    panicking when every row has a value, whichever evaluation methods the
    constructors chose. *)

From stdpp Require Import base list strings sets.
From Stdlib Require Import ZArith Lia.
From S2P Require Import Prelude Relation HashUtils Columnar Datum Scatter CaseExpr BinaryExpr InList HashExprs CaseMethods.

Module Exprs.

(** ** The tree *)

Inductive EvalMethod (E : Type) :=
| NoExpression (p : ProjectedCaseBody E)
| WithExpression (p : ProjectedCaseBody E)
| InfallibleExprOrNull
| ScalarOrScalar
| ExpressionOrExpression (p : ProjectedCaseBody E)
| WithExprScalarLookupTable (table : CaseMethods.LiteralLookupTable).
Arguments NoExpression {E}.
Arguments WithExpression {E}.
Arguments InfallibleExprOrNull {E}.
Arguments ScalarOrScalar {E}.
Arguments ExpressionOrExpression {E}.
Arguments WithExprScalarLookupTable {E}.

Inductive PhysicalExpr :=
| Column (name : string) (index : nat)
| Literal (value : ScalarValue)
| BinaryExpr (left : PhysicalExpr) (op : Datum.Operator) (right : PhysicalExpr) (fail_on_overflow : bool)
| NotExpr (arg : PhysicalExpr)
| IsNullExpr (arg : PhysicalExpr)
| IsNotNullExpr (arg : PhysicalExpr)
| TryCastExpr (arg : PhysicalExpr) (cast_type : DataType)
| InListExpr (arg : PhysicalExpr) (list_ : list PhysicalExpr) (negated : bool)
    (static_filter : option InList.StaticFilter)
| CaseExpr (body : CaseBody PhysicalExpr) (eval_method : EvalMethod PhysicalExpr)
| KeysExpr (f : HashExprs.KeysFunction) (on_columns : list PhysicalExpr).

Definition map_body {A B} (f : A → B) (b : CaseBody A) : CaseBody B :=
  match b with
  | mkCaseBody e l o =>
      mkCaseBody (option_map f e) (List.map (λ p : A * A, match p with (w, t) => (f w, f t) end) l) (option_map f o)
  end.

Definition map_projected {A B} (f : A → B) (p : ProjectedCaseBody A) : ProjectedCaseBody B :=
  match p with mkProjected ix b => mkProjected ix (map_body f b) end.

Definition as_literal (e : PhysicalExpr) : option ScalarValue :=
  match e with Literal s => Some s | _ => None end.

Definition is_cheap_and_infallible (e : PhysicalExpr) : bool :=
  match e with Column _ _ => true | _ => false end.

(** ** Evaluation *)

Section Evaluate.
Context `{Arrow, ArrowText, Coercions, ArrowFilter, Foldhash}.

(** Debug assertions are compiled in or not; what buffers hold at nulls. *)
Variables (debug_assertions : bool) (h : Scatter.hidden) (at_null : value).

Definition bounds_check (index : nat) (len : nat) : Result () :=
  if decide (index < len) then Ok () else Err (Internal "PhysicalExpr Column references column out of bounds").

Definition Column_dyn (index : nat) : dyn := {|
  evaluate := λ batch,
    _ ←? Some (bounds_check index (length (columns batch)));
    a ← columns batch !! index; Some (Ok (Array a));
  data_type := λ schema,
    _ ← bounds_check index (length schema);
    ok_or (schema !! index) (Internal "field index out of bounds");
|}.

Definition Literal_dyn (s : ScalarValue) : dyn := {|
  evaluate := λ _, Some (Ok (Scalar s));
  data_type := λ _, Ok (s_type s);
|}.

Definition NotExpr_dyn (arg : dyn) : dyn := {|
  evaluate := λ batch,
    v ←? evaluate arg batch;
    match v with
    | Array a =>
        match as_bools a with
        | Some m => m ←? Some (arrow_result (arrow_not m)); Some (Ok (Array (BooleanArray m)))
        | None => Some (Err (Internal "could not cast array to BooleanArray"))
        end
    | Scalar s =>
        match s_value s with
        | None => Some (Ok (Scalar (ScalarBoolean None)))
        | Some (VBoolean b) => Some (Ok (Scalar (ScalarBoolean (Some (negb b)))))
        | Some _ => Some (Err (Internal "Cannot convert to bool"))
        end
    end;
  data_type := λ _, Ok DBoolean;
|}.

Definition IsNullExpr_dyn (arg : dyn) : dyn := {|
  evaluate := λ batch,
    v ←? evaluate arg batch;
    match v with
    | Array a => m ←? Some (arrow_result (arrow_is_null a)); Some (Ok (Array (BooleanArray m)))
    | Scalar s => Some (Ok (Scalar (ScalarBoolean (Some (is_null s)))))
    end;
  data_type := λ _, Ok DBoolean;
|}.

Definition IsNotNullExpr_dyn (arg : dyn) : dyn := {|
  evaluate := λ batch,
    v ←? evaluate arg batch;
    match v with
    | Array a => m ←? Some (arrow_result (arrow_is_not_null a)); Some (Ok (Array (BooleanArray m)))
    | Scalar s => Some (Ok (Scalar (ScalarBoolean (Some (negb (is_null s))))))
    end;
  data_type := λ _, Ok DBoolean;
|}.

Definition TryCastExpr_dyn (arg : dyn) (cast_type : DataType) : dyn := {|
  evaluate := Case.TryCastExpr_evaluate arg cast_type;
  data_type := λ _, Ok cast_type;
|}.

(** [CaseExpr::evaluate]: dispatch on the method. *)
Definition CaseExpr_evaluate (body : CaseBody dyn) (eval_method : EvalMethod dyn) (batch : RecordBatch)
    : option (Result ColumnarValue) :=
  match eval_method with
  | WithExpression p => CaseMethods.CaseExpr_case_when_with_expr debug_assertions body p batch
  | NoExpression p => CaseMethods.CaseExpr_case_when_no_expr debug_assertions body p batch
  | InfallibleExprOrNull => CaseMethods.case_column_or_null body batch
  | ScalarOrScalar => CaseMethods.scalar_or_scalar body batch
  | ExpressionOrExpression p => CaseMethods.expr_or_expr h body p batch
  | WithExprScalarLookupTable table => CaseMethods.with_lookup_table body table batch
  end.

Definition map_method {A B} (f : A → B) (m : EvalMethod A) : EvalMethod B :=
  match m with
  | NoExpression p => NoExpression (map_projected f p)
  | WithExpression p => WithExpression (map_projected f p)
  | InfallibleExprOrNull => InfallibleExprOrNull
  | ScalarOrScalar => ScalarOrScalar
  | ExpressionOrExpression p => ExpressionOrExpression (map_projected f p)
  | WithExprScalarLookupTable table => WithExprScalarLookupTable table
  end.

Fixpoint to_dyn (e : PhysicalExpr) : dyn :=
  match e with
  | Column _ index => Column_dyn index
  | Literal s => Literal_dyn s
  | BinaryExpr l op r fail_on_overflow => Binary.BinaryExpr_dyn (to_dyn l) op (to_dyn r) fail_on_overflow
  | NotExpr arg => NotExpr_dyn (to_dyn arg)
  | IsNullExpr arg => IsNullExpr_dyn (to_dyn arg)
  | IsNotNullExpr arg => IsNotNullExpr_dyn (to_dyn arg)
  | TryCastExpr arg cast_type => TryCastExpr_dyn (to_dyn arg) cast_type
  | InListExpr arg l negated static_filter =>
      InList.InListExpr_dyn (to_dyn arg) (map to_dyn l) negated static_filter at_null
  | CaseExpr body eval_method =>
      let body := map_body to_dyn body in
      {| evaluate := CaseExpr_evaluate body (map_method to_dyn eval_method);
         data_type := CaseMethods.body_data_type body |}
  | KeysExpr f on_columns => HashExprs.KeysExpr_dyn f (map to_dyn on_columns)
  end.

End Evaluate.

(** ** Rewriting *)

(** [children] of a CASE, and the body of a CASE with other children. *)
Definition case_children {E} (b : CaseBody E) : list E :=
  option_list (expr b) ++ concat (map (λ p : E * E, [p.1; p.2]) (when_then_expr b)) ++ option_list (else_expr b).

Fixpoint tuples {E} (l : list E) : list (E * E) :=
  match l with a :: b :: l => (a, b) :: tuples l | _ => [] end.

Definition split_children {E} (b : CaseBody E) (cs : list E) : option (option E * list (E * E) * option E) :=
  let n := length cs in
  match expr b, else_expr b with
  | Some _, Some _ =>
      first ← cs !! 0; last ← cs !! (n - 1); Some (Some first, tuples (take (n - 2) (drop 1 cs)), Some last)
  | Some _, None => first ← cs !! 0; Some (Some first, tuples (drop 1 cs), None)
  | None, Some _ => last ← cs !! (n - 1); Some (None, tuples (take (n - 1) cs), Some last)
  | None, None => Some (None, tuples cs, None)
  end.

Definition children (e : PhysicalExpr) : list PhysicalExpr :=
  match e with
  | Column _ _ | Literal _ => []
  | BinaryExpr l _ r _ => [l; r]
  | NotExpr arg | IsNullExpr arg | IsNotNullExpr arg | TryCastExpr arg _ => [arg]
  | InListExpr arg l _ _ => arg :: l
  | CaseExpr body _ => case_children body
  | KeysExpr _ on_columns => on_columns
  end.

(** Column indices in the order a traversal of the children meets them. *)
Fixpoint columns_of (e : PhysicalExpr) : list nat :=
  match e with
  | Column _ index => [index]
  | Literal _ => []
  | BinaryExpr l _ r _ => columns_of l ++ columns_of r
  | NotExpr arg | IsNullExpr arg | IsNotNullExpr arg | TryCastExpr arg _ => columns_of arg
  | InListExpr arg l _ _ => columns_of arg ++ concat (map columns_of l)
  | CaseExpr (mkCaseBody e l o) _ =>
      match e with Some e => columns_of e | None => [] end
      ++ concat (map (λ p : PhysicalExpr * PhysicalExpr, match p with (w, t) => columns_of w ++ columns_of t end) l)
      ++ match o with Some o => columns_of o | None => [] end
  | KeysExpr _ on_columns => concat (map columns_of on_columns)
  end.

(** Insertion into an [IndexSet] and the position of an element. *)
Definition index_set (l : list nat) : list nat :=
  foldl (λ set i, if decide (i ∈ set) then set else set ++ [i]) [] l.

Fixpoint get_index_of (set : list nat) (i : nat) : option nat :=
  match set with
  | [] => None
  | j :: set => if decide (j = i) then Some 0 else S <$> get_index_of set i
  end.

Section Rewrite.
Context `{Arrow}.

(** The rewriting of one expression with a map of column indices. *)
Abbreviation rewriter := ((nat → option nat) → PhysicalExpr → option (Result (PhysicalExpr * bool))).

(** [map_until_stop_and_collect] and [collect::<Result<Vec<_>>>] *)
Fixpoint try_map {A B} (f : A → option (Result B)) (l : list A) : option (Result (list B)) :=
  match l with
  | [] => Some (Ok [])
  | x :: l => y ←? f x; ys ←? try_map f l; Some (Ok (y :: ys))
  end.

Definition try_option {A B} (f : A → option (Result B)) (o : option A) : option (Result (option B)) :=
  match o with None => Some (Ok None) | Some x => y ←? f x; Some (Ok (Some y)) end.

(** [CaseBody::project] *)
Definition CaseBody_project (rewrite : rewriter) (body : CaseBody PhysicalExpr)
    : option (Result (ProjectedCaseBody PhysicalExpr)) :=
  let used_column_indices := index_set (concat (map columns_of (case_children body))) in
  let project e := t ←? rewrite (get_index_of used_column_indices) e; Some (Ok t.1) in
  e ←? try_option project (expr body);
  l ←? try_map (λ p : PhysicalExpr * PhysicalExpr, w ←? project p.1; t ←? project p.2; Some (Ok (w, t)))
         (when_then_expr body);
  o ←? try_option project (else_expr body);
  Some (Ok (mkProjected used_column_indices (mkCaseBody e l o))).

Definition find_best_eval_method (rewrite : rewriter) (body : CaseBody PhysicalExpr)
    : option (Result (EvalMethod PhysicalExpr)) :=
  match expr body with
  | Some _ =>
      mapping ← CaseMethods.maybe_new as_literal body;
      match mapping with
      | Some mapping => Some (Ok (WithExprScalarLookupTable mapping))
      | None => p ←? CaseBody_project rewrite body; Some (Ok (WithExpression p))
      end
  | None =>
      match when_then_expr body with
      | [(_, t)] =>
          if is_cheap_and_infallible t && negb (bool_decide (is_Some (else_expr body)))
          then Some (Ok InfallibleExprOrNull)
          else if bool_decide (is_Some (as_literal t)) && bool_decide (is_Some (o ← else_expr body; as_literal o))
          then Some (Ok ScalarOrScalar)
          else p ←? CaseBody_project rewrite body; Some (Ok (ExpressionOrExpression p))
      | _ => p ←? CaseBody_project rewrite body; Some (Ok (NoExpression p))
      end
  end.

(** A null literal as ELSE is no ELSE. *)
Definition normalize_else (o : option PhysicalExpr) : option PhysicalExpr :=
  match o with
  | Some (Literal s) => if is_null s then None else o
  | _ => o
  end.

(** [CaseExpr::try_new] *)
Definition CaseExpr_try_new (rewrite : rewriter) (e : option PhysicalExpr) (l : list (PhysicalExpr * PhysicalExpr))
    (o : option PhysicalExpr) : option (Result PhysicalExpr) :=
  let o := normalize_else o in
  if decide (l = []) then Some (Err (Execution "There must be at least one WHEN clause"))
  else
    let body := mkCaseBody e l o in
    eval_method ←? find_best_eval_method rewrite body;
    Some (Ok (CaseExpr body eval_method)).

Definition with_new_children (rewrite : rewriter) (e : PhysicalExpr) (cs : list PhysicalExpr)
    : option (Result PhysicalExpr) :=
  match e with
  | Column _ _ | Literal _ => Some (Ok e)
  | BinaryExpr _ op _ fail_on_overflow =>
      l ← cs !! 0; r ← cs !! 1; Some (Ok (BinaryExpr l op r fail_on_overflow))
  | NotExpr _ => arg ← cs !! 0; Some (Ok (NotExpr arg))
  | IsNullExpr _ => arg ← cs !! 0; Some (Ok (IsNullExpr arg))
  | IsNotNullExpr _ => arg ← cs !! 0; Some (Ok (IsNotNullExpr arg))
  | TryCastExpr _ cast_type => arg ← cs !! 0; Some (Ok (TryCastExpr arg cast_type))
  | InListExpr _ _ negated static_filter =>
      arg ← cs !! 0; Some (Ok (InListExpr arg (drop 1 cs) negated static_filter))
  | CaseExpr body _ =>
      if decide (length cs = length (case_children body)) then
        parts ← split_children body cs;
        CaseExpr_try_new rewrite parts.1.1 parts.1.2 parts.2
      else Some (Err (Internal "CaseExpr: Wrong number of children"))
  | KeysExpr f _ => Some (Ok (KeysExpr f cs))
  end.

(** [transform_down] with the closure of [CaseBody::project]: columns take their
    projected index; a node is rebuilt when one of its children changed.  The
    flag tells whether the result differs.  [fuel] bounds the height. *)
Fixpoint transform (fuel : nat) (column_index_map : nat → option nat) (e : PhysicalExpr)
    : option (Result (PhysicalExpr * bool)) :=
  match fuel with
  | 0 => panic!
  | S fuel =>
      match e with
      | Column name original =>
          projected ← column_index_map original;
          if decide (projected = original) then Some (Ok (e, false))
          else Some (Ok (Column name projected, true))
      | _ =>
          new_children ←? try_map (transform fuel column_index_map) (children e);
          if existsb snd new_children then
            e ←? with_new_children (transform fuel) e (map fst new_children); Some (Ok (e, true))
          else Some (Ok (e, false))
      end
  end.

End Rewrite.

(** ** Rows *)

Section Rows.
Context `{HA : Arrow, HT : ArrowText, HC : Coercions, HF : ArrowFilter, HH : Foldhash, HCells : ArrowCells}.
Variables (debug_assertions : bool) (h : Scatter.hidden) (at_null : value).
Variable (bit_value : Datum.Operator → value → value → value).

Abbreviation dyn_of := (to_dyn debug_assertions h at_null).

Definition not_row (f : row → option (option value)) (r : row) : option (option value) :=
  x ← f r; Some (bool_cell (negb <$> cell_bool x)).

Definition is_null_row (f : row → option (option value)) (r : row) : option (option value) :=
  x ← f r; Some (Some (VBoolean (bool_decide (x = None)))).

Definition is_not_null_row (f : row → option (option value)) (r : row) : option (option value) :=
  x ← f r; Some (Some (VBoolean (bool_decide (x ≠ None)))).

Definition cast_row (t : DataType) (ty : DataType) (f : row → option (option value)) (r : row)
    : option (option value) :=
  x ← f r; Some (if decide (t = ty) then x else cast_cell t ty x).

Definition case_body_row (base : option (row → option (option value)))
    (sems : list ((row → option (option value)) * (row → option (option value))))
    (otherwise : option (row → option (option value))) : row → option (option value) :=
  let fe := default (λ _, Some None) otherwise in
  match base with
  | None => Case.no_expr_row sems fe
  | Some fb => Case.with_expr_row fb sems fe
  end.

(** The value of an expression on a row of the schema; [None] is an error. *)
Fixpoint row_value (schema : list DataType) (e : PhysicalExpr) : row → option (option value) :=
  match e with
  | Column _ index => λ r, r !! index
  | Literal s => λ _, Some (s_value s)
  | BinaryExpr l op r fail_on_overflow =>
      match data_type (dyn_of l) schema, data_type (dyn_of r) schema with
      | Ok tl, Ok tr =>
          Binary.binary_row bit_value op fail_on_overflow tl tr (row_value schema l) (row_value schema r)
      | _, _ => λ _, None
      end
  | NotExpr arg => not_row (row_value schema arg)
  | IsNullExpr arg => is_null_row (row_value schema arg)
  | IsNotNullExpr arg => is_not_null_row (row_value schema arg)
  | TryCastExpr arg ty =>
      match data_type (dyn_of arg) schema with
      | Ok t => cast_row t ty (row_value schema arg)
      | Err _ => λ _, None
      end
  | InListExpr arg l negated _ => InList.in_list_row negated (row_value schema arg) (map (row_value schema) l)
  | CaseExpr (mkCaseBody e l o) _ =>
      case_body_row (option_map (row_value schema) e)
        (map (λ p : PhysicalExpr * PhysicalExpr, match p with (w, t) => (row_value schema w, row_value schema t) end) l)
        (option_map (row_value schema) o)
  | KeysExpr f on_columns => HashExprs.keys_row f (map (row_value schema) on_columns)
  end.

(** *** Well-typed expressions *)

(** Expressions whose value is the same scalar on every batch. *)
Fixpoint constant (e : PhysicalExpr) : bool :=
  match e with
  | Literal _ => true
  | BinaryExpr l op r _ =>
      bool_decide (is_Some (Binary.op_kernel op true)) && constant l && constant r
  | NotExpr arg | IsNullExpr arg | IsNotNullExpr arg | TryCastExpr arg _ => constant arg
  | _ => false
  end.

(** A static filter is built from list items that are constants. *)
Definition filter_built (ty : DataType) (l : list PhysicalExpr) (f : InList.StaticFilter) : Prop :=
  l ≠ [] ∧ forallb constant l = true ∧ InList.flat_type ty ∧
  ∃ b a, InList.evaluate_list (map dyn_of l) b = Some (Ok a) ∧ InList.instantiate_static_filter a = Some (Ok f).

Inductive wt (schema : list DataType) : PhysicalExpr → DataType → Prop :=
| wt_column name index ty : schema !! index = Some ty → wt schema (Column name index) ty
| wt_literal s : has_type (s_type s) (s_value s) → wt schema (Literal s) (s_type s)
| wt_binary l op r fo tl tr ty :
    wt schema l tl → wt schema r tr → Binary.get_result_type tl op tr = Ok ty →
    Binary.op_type op fo tl tr = Some ty → wt schema (BinaryExpr l op r fo) ty
| wt_not e : wt schema e DBoolean → wt schema (NotExpr e) DBoolean
| wt_is_null e ty : wt schema e ty → wt schema (IsNullExpr e) DBoolean
| wt_is_not_null e ty : wt schema e ty → wt schema (IsNotNullExpr e) DBoolean
| wt_try_cast e t ty : wt schema e t → t = ty ∨ can_cast_types t ty = true → wt schema (TryCastExpr e ty) ty
| wt_in_list e l negated sf ty :
    wt schema e ty → (∀ x, x ∈ l → wt schema x ty) → (∀ f, sf = Some f → filter_built ty l f) →
    wt schema (InListExpr e l negated sf) DBoolean
| wt_case body m fuel wty ty :
    when_then_expr body ≠ [] → (Z.of_nat (length (when_then_expr body)) < 2 ^ 32 - 1)%Z →
    (∀ b, expr body = Some b → wt schema b wty) → (expr body = None → wty = DBoolean) →
    (∀ w t, (w, t) ∈ when_then_expr body → wt schema w wty) →
    (∀ w t, (w, t) ∈ when_then_expr body → wt schema t ty) →
    (∀ o, else_expr body = Some o → wt schema o ty) →
    find_best_eval_method (transform fuel) body = Some (Ok m) →
    wt schema (CaseExpr body m) ty
| wt_keys f l tys :
    length l = length tys → (∀ i x ty, l !! i = Some x → tys !! i = Some ty → wt schema x ty) →
    HashExprs.keys_ok f tys → wt schema (KeysExpr f l) (HashExprs.keys_type f).

(** ** Single nodes *)

Context `{!ArrowOk}.

Lemma computes_ext schema d ty f g :
  (∀ r, length r = length schema → f r = g r) → computes schema d ty f → computes schema d ty g.
Proof.
  intros Hfg [Hd Hc]. split; [done|]. intros b vs Hwf Hs Hn Hu Hvs. apply Hc; try done. rewrite <- Hvs.
  apply CaseMethods.mapM_rows_ext. intros r Hr. apply Hfg. rewrite Hr, <- Hs. symmetry. apply length_map.
Qed.

Lemma column_rows b index a :
  batch_wf b → columns b !! index = Some a → mapM (λ r : row, r !! index) (rows b) = Some (cells a).
Proof.
  intros Hwf Ha. unfold rows, tab. rewrite mapM_map.
  assert (array_len a = num_rows b) as Hlen.
  { unfold batch_wf in Hwf. rewrite Forall_forall in Hwf. apply Hwf. by eapply list_elem_of_lookup_2. }
  rewrite mapM_total with (g := λ i, default None (cells a !! i)).
  - f_equal. rewrite <- Hlen, <- length_cells. apply seq_lookup.
  - intros i _. unfold row_at. rewrite list_lookup_fmap, Ha. done.
Qed.

Lemma column_computes schema index ty :
  schema !! index = Some ty → computes schema (Column_dyn index) ty (λ r, r !! index).
Proof.
  intros Hty. pose proof (lookup_lt_Some _ _ _ Hty) as Hlt. split.
  { cbn. unfold bounds_check. rewrite decide_True by done. cbn. by rewrite Hty. }
  intros b vs Hwf Hs Hn Hu Hvs. subst schema. unfold schema_of in Hty. rewrite list_lookup_fmap in Hty.
  destruct (columns b !! index) as [a|] eqn:Ha; [|done]. injection Hty as <-. rewrite (column_rows b index a) in Hvs by done.
  injection Hvs as <-. exists (Array a). cbn. unfold bounds_check. rewrite decide_True, Ha by (by eapply lookup_lt_Some).
  split; [done|]. split; [|done]. apply fits_array. unfold batch_wf in Hwf. rewrite Forall_forall in Hwf.
  apply Hwf. by eapply list_elem_of_lookup_2.
Qed.

Lemma mapM_const {A B} (x : B) (l : list A) : mapM (λ _, Some x) l = Some (replicate (length l) x).
Proof. induction l as [|y l IH]; [done|]. cbn. by rewrite IH. Qed.

Lemma literal_computes schema s :
  has_type (s_type s) (s_value s) → computes schema (Literal_dyn s) (s_type s) (λ _, Some (s_value s)).
Proof.
  intros Hs. split; [done|]. intros b vs Hwf _ Hn _ Hvs. rewrite mapM_const, length_rows in Hvs. injection Hvs as <-.
  by exists (Scalar s).
Qed.

(** A step on the value of one operand. *)
Lemma unary_computes schema d t f d' ty (g : option value → option value) :
  computes schema d t f → data_type d' schema = Ok ty →
  (∀ b v, schema_of b = schema → evaluate d b = Some (Ok v) → fits (num_rows b) t v →
    ∃ w, evaluate d' b = Some (Ok w) ∧ fits (num_rows b) ty w ∧ spread (num_rows b) w = map g (spread (num_rows b) v)) →
  computes schema d' ty (λ r, x ← f r; Some (g x)).
Proof.
  intros [_ Hd] Hty Hstep. split; [done|]. intros b vs Hwf Hs Hn Hu Hvs.
  assert (∃ xs, mapM f (rows b) = Some xs ∧ vs = map g xs) as (xs & Hxs & ->).
  { clear -Hvs. revert vs Hvs. induction (rows b) as [|r l IH]; intros vs Hvs; cbn in Hvs |- *; [injection Hvs as <-; by exists []|].
    destruct (f r) as [x|]; [|done]. cbn in *. apply bind_Some in Hvs as (vs' & Hvs & [= <-]).
    destruct (IH vs' Hvs) as (xs & -> & ->). by exists (x :: xs). }
  destruct (Hd b xs) as (v & Hev & Hv & Hsp); [done..|]. destruct (Hstep b v Hs Hev Hv) as (w & Hw & Hfit & Hwsp).
  exists w. split_and!; [done..|]. by rewrite Hwsp, Hsp.
Qed.

Lemma map_replicate_fmap {A B} (g : A → B) n x : map g (replicate n x) = replicate n (g x).
Proof. change (map g ?l) with (g <$> l). apply fmap_replicate. Qed.

Lemma not_computes schema d f : computes schema d DBoolean f → computes schema (NotExpr_dyn d) DBoolean (not_row f).
Proof.
  intros Hd. apply (unary_computes schema d DBoolean f _ _ (λ x, bool_cell (negb <$> cell_bool x))); [done..|].
  intros b v Hs Hev [Hty Hfit]. cbn. rewrite Hev. cbn [try_bind]. destruct v as [a|s].
  - destruct a as [m| | | |]; try done. cbn [as_bools]. rewrite arrow_not_ok. cbn [arrow_result try_bind].
    eexists. split; [done|]. split; [apply fits_bools; by rewrite length_map|]. cbn. rewrite !map_map.
    apply map_ext. by intros [[]|].
  - cbn in Hty, Hfit. destruct s as [sty [[c| | | |]|]]; cbn in *; try congruence; eexists;
      (split; [done|]); (split; [by split|]); cbn; by rewrite map_replicate_fmap.
Qed.

Lemma is_null_computes schema d t f : computes schema d t f → computes schema (IsNullExpr_dyn d) DBoolean (is_null_row f).
Proof.
  intros Hd. apply (unary_computes schema d t f _ _ (λ x, Some (VBoolean (bool_decide (x = None))))); [done..|].
  intros b v Hs Hev [Hty Hfit]. cbn. rewrite Hev. cbn [try_bind]. destruct v as [a|s].
  - rewrite arrow_is_null_ok. cbn [arrow_result try_bind]. eexists. split; [done|].
    split; [apply fits_bools; by rewrite length_map, length_cells|]. cbn. rewrite map_map. done.
  - eexists. split; [done|]. split; [done|]. cbn. by rewrite map_replicate_fmap.
Qed.

Lemma is_not_null_computes schema d t f :
  computes schema d t f → computes schema (IsNotNullExpr_dyn d) DBoolean (is_not_null_row f).
Proof.
  intros Hd. apply (unary_computes schema d t f _ _ (λ x, Some (VBoolean (bool_decide (x ≠ None))))); [done..|].
  intros b v Hs Hev [Hty Hfit]. cbn. rewrite Hev. cbn [try_bind]. destruct v as [a|s].
  - rewrite arrow_is_not_null_ok. cbn [arrow_result try_bind]. eexists. split; [done|].
    split; [apply fits_bools; by rewrite length_map, length_cells|]. cbn. rewrite map_map. done.
  - eexists. split; [done|]. split; [done|]. cbn. rewrite map_replicate_fmap. do 3 f_equal.
    unfold is_null. repeat case_bool_decide; done.
Qed.

Lemma try_cast_computes schema d t f ty :
  computes schema d t f → t = ty ∨ can_cast_types t ty = true → computes schema (TryCastExpr_dyn d ty) ty (cast_row t ty f).
Proof.
  intros Hd Hcast. apply (unary_computes schema d t f _ _ (λ x, if decide (t = ty) then x else cast_cell t ty x)); [done..|].
  intros b v Hs Hev Hfit. cbn. unfold Case.TryCastExpr_evaluate. rewrite Hev. cbn [try_bind]. unfold Case.cast_to.
  case_decide as Ht.
  - subst ty. rewrite map_id. exists v. destruct v; rewrite decide_True by apply Hfit; done.
  - destruct Hcast as [?|Hcast]; [done|]. pose proof (spread_typed _ _ _ Hfit) as Hsty.
    assert (Hcty : ∀ l, Forall (has_type t) l → Forall (has_type ty) (map (cast_cell t ty) l)).
    { intros l Hl. apply Forall_fmap. eapply Forall_impl; [exact Hl|]. intros c. by apply cast_cell_typed. }
    destruct v as [a|s]; destruct Hfit as [Hty Hfit]; cbn in Hty; rewrite decide_False by congruence.
    + rewrite arrow_cast_ok by congruence. cbn [arrow_result try_bind]. rewrite Hty. eexists. split; [done|].
      split; [apply fits_array_of; by rewrite length_map, length_cells|]. cbn. apply cells_array_of. by apply Hcty.
    + unfold to_array_of_size. rewrite arrow_cast_ok by (rewrite array_type_of; congruence). cbn [arrow_result try_bind].
      rewrite array_type_of, Hty, cells_array_of by (by constructor). unfold try_from_array.
      rewrite array_type_of, cells_array_of by (apply Hcty; by constructor). cbn [replicate map lookup list_lookup fmap option_fmap option_map mbind option_bind].
      eexists. split; [done|]. split; [split; [done|by apply cast_cell_typed]|]. cbn. by rewrite map_replicate_fmap.
Qed.

(** ** Types *)

Lemma then_type_ok (l : list (PhysicalExpr * PhysicalExpr)) schema ty ty0 :
  (∀ w t, (w, t) ∈ l → data_type (dyn_of t) schema = Ok ty) → ty0 = ty ∨ l ≠ [] →
  CaseMethods.then_type (List.map (λ p : PhysicalExpr * PhysicalExpr, match p with (w, t) => (dyn_of w, dyn_of t) end) l)
    schema ty0 = Ok ty.
Proof.
  revert ty0. induction l as [|[w t] l IH]; intros ty0 Hl Hty; cbn; [by destruct Hty as [->|]|].
  rewrite (Hl w t) by (by left). cbn. case_decide; [|done]. apply IH; [|by left]. intros w' t' Hin. apply (Hl w'). by right.
Qed.

Lemma wt_type schema e ty : wt schema e ty → data_type (dyn_of e) schema = Ok ty.
Proof.
  induction 1 as [name i ty Hi|s Hs|l op r fo tl tr ty Hl IHl Hr IHr Hres Hop|e He IH|e t He IH|e t He IH|e t ty He IH Hc
    |e l n sf ty He IH Hl IHl Hsf|body m fuel wty ty Hne Hlen Hb IHb Hwty Hw IHw Ht IHt Ho IHo Hm|f l tys Hlen Hl IHl Hok]; try done.
  - cbn. unfold bounds_check. rewrite decide_True by (by eapply lookup_lt_Some). cbn. by rewrite Hi.
  - cbn. unfold Binary.BinaryExpr_data_type. rewrite IHl. cbn. rewrite IHr. done.
  - destruct body as [eb l o]. cbn in *. unfold CaseMethods.body_data_type. cbn.
    rewrite (then_type_ok l schema ty DNull) by (eauto || by right). cbn.
    destruct o as [o|]; cbn; [|done]. case_decide; [by apply IHo|done].
Qed.

(** ** Rewriting to fewer columns *)

Lemma try_map_Forall2 {A B} (f : A → option (Result B)) l ys :
  try_map f l = Some (Ok ys) → Forall2 (λ x y, f x = Some (Ok y)) l ys.
Proof.
  revert ys. induction l as [|x l IH]; intros ys; cbn; [by intros [= <-]|].
  destruct (f x) as [[y|]|] eqn:Hx; cbn; try done. destruct (try_map f l) as [[ys'|]|] eqn:Hl; cbn; try done.
  intros [= <-]. constructor; [done|]. by apply IH.
Qed.

Lemma tuples_rel {A B} (R : A → B → Prop) (l : list (A * A)) cs :
  Forall2 R (concat (map (λ p : A * A, [p.1; p.2]) l)) cs →
  Forall2 (λ p q, R p.1 q.1 ∧ R p.2 q.2) l (tuples cs).
Proof.
  revert cs. induction l as [|[w t] l IH]; intros cs Hcs; cbn in Hcs.
  { by apply Forall2_nil_inv_l in Hcs as ->. }
  apply Forall2_cons_inv_l in Hcs as (w' & cs' & Hw & Hcs & ->).
  apply Forall2_cons_inv_l in Hcs as (t' & cs'' & Ht & Hcs & ->). cbn. constructor; [done|]. by apply IH.
Qed.

(** Bodies with the same shape and related expressions. *)
Definition body_rel {A B} (R : A → B → Prop) (b : CaseBody A) (e : option B) (l : list (B * B)) (o : option B) : Prop :=
  option_Forall2 R (expr b) e ∧ Forall2 (λ p q, R p.1 q.1 ∧ R p.2 q.2) (when_then_expr b) l ∧
  option_Forall2 R (else_expr b) o.

Lemma split_children_rel (R : PhysicalExpr → PhysicalExpr → Prop) b cs :
  Forall2 R (case_children b) cs →
  ∃ e l o, split_children b cs = Some (e, l, o) ∧ body_rel R b e l o.
Proof.
  destruct b as [e l o]. unfold case_children, split_children, body_rel. cbn [expr when_then_expr else_expr].
  intros (c1 & c23 & H1 & (c2 & c3 & H2%tuples_rel & H3 & ->)%Forall2_app_inv_l & ->)%Forall2_app_inv_l.
  destruct e as [e|]; cbn in H1.
  - apply Forall2_cons_inv_l in H1 as (e' & ? & He & ->%Forall2_nil_inv_l & ->).
    destruct o as [o|]; cbn in H3 |- *.
    + apply Forall2_cons_inv_l in H3 as (o' & ? & Ho & ->%Forall2_nil_inv_l & ->).
      rewrite length_app. cbn [length]. replace (length c2 + 1 - 0) with (S (length c2)) by lia.
      change ((e' :: c2 ++ [o']) !! S (length c2)) with ((c2 ++ [o']) !! length c2).
      rewrite lookup_app_r, Nat.sub_diag by lia. cbn. replace (length c2 + 1 - 1) with (length c2) by lia.
      rewrite drop_0, take_app_length. eexists _, _, _. split; [done|]. split_and!; [by constructor|done|by constructor].
    + apply Forall2_nil_inv_l in H3 as ->. rewrite app_nil_r, drop_0. eexists _, _, _. split; [done|].
      split_and!; [by constructor|done|by constructor].
  - apply Forall2_nil_inv_l in H1 as ->. destruct o as [o|]; cbn in H3 |- *.
    + apply Forall2_cons_inv_l in H3 as (o' & ? & Ho & ->%Forall2_nil_inv_l & ->).
      rewrite length_app. cbn [length]. replace (length c2 + 1 - 1) with (length c2) by lia.
      rewrite lookup_app_r, Nat.sub_diag by lia. cbn. rewrite take_app_length.
      eexists _, _, _. split; [done|]. split_and!; [by constructor|done|by constructor].
    + apply Forall2_nil_inv_l in H3 as ->. rewrite app_nil_r. eexists _, _, _. split; [done|].
      split_and!; [by constructor|done|by constructor].
Qed.

Lemma constant_unchanged fuel m e e' ch :
  constant e = true → transform fuel m e = Some (Ok (e', ch)) → e' = e ∧ ch = false.
Proof.
  revert e e' ch. induction fuel as [|fuel IH]; intros e e' ch He; cbn [transform]; [done|].
  assert (Hall : Forall (λ c, constant c = true) (children e) → ∀ new,
    try_map (transform fuel m) (children e) = Some (Ok new) → existsb snd new = false).
  { intros Hcs new Hnew%try_map_Forall2. induction Hnew as [|c [c' cb] l new Hc Hnew IHn]; [done|].
    apply Forall_cons in Hcs as [Hc1 Hcs]. destruct (IH _ _ _ Hc1 Hc) as [_ ->]. cbn. by apply IHn. }
  destruct e; try done; cbn in He; repeat (apply andb_prop in He as [He ?]);
    (destruct (try_map _ _) as [[new|]|] eqn:Hnew; cbn [try_bind]; [|done..]);
    (rewrite (Hall ltac:(by repeat constructor) new eq_refl); by intros [= <- <-]).
Qed.

Lemma mapM_Forall2_eq {A B C} (f : A → option C) (g : B → option C) l k :
  Forall2 (λ x y, f x = g y) l k → mapM f l = mapM g k.
Proof. induction 1 as [|x y l k Hxy _ IH]; [done|]. cbn. by rewrite Hxy, IH. Qed.

Section Project.
Variables (schema schema' : list DataType) (ix : list nat).
Hypothesis (Hproj : CaseMethods.project_schema ix schema = Some schema').

(** The rewritten expression on projected rows is the original on the rows. *)
Definition sim (e e' : PhysicalExpr) : Prop :=
  ∀ ty, wt schema e ty →
    wt schema' e' ty ∧
    ∀ r, length r = length schema → row_value schema' e' (CaseMethods.project_row ix r) = row_value schema e r.

Lemma get_index_lookup set i j : get_index_of set i = Some j → set !! j = Some i.
Proof.
  revert j. induction set as [|k set IH]; intros j; cbn; [done|]. case_decide as Hk; [intros [= <-]; by subst|].
  destruct (get_index_of set i) as [j'|]; cbn; [|done]. intros [= <-]. by apply IH.
Qed.

Lemma sim_column name i j : get_index_of ix i = Some j → sim (Column name i) (Column name j).
Proof.
  intros Hj%get_index_lookup ty Hwt. inversion Hwt as [? ? ? Hi| | | | | | | | |]; subst. unfold CaseMethods.project_schema in Hproj.
  pose proof (mapM_Some_1 _ _ _ Hproj) as Hix. eapply Forall2_lookup_l in Hix as (ty' & Hty' & Hi'); [|exact Hj].
  rewrite Hi in Hi'. injection Hi' as <-. split; [by constructor|]. intros r Hr. cbn. unfold CaseMethods.project_row.
  change (map ?f ix) with (f <$> ix). rewrite list_lookup_fmap, Hj. cbn.
  destruct (lookup_lt_is_Some_2 r i) as [c Hc]; [rewrite Hr; by eapply lookup_lt_Some|]. by rewrite Hc.
Qed.

Lemma sim_binary l l' op r r' fo : sim l l' → sim r r' → sim (BinaryExpr l op r fo) (BinaryExpr l' op r' fo).
Proof.
  intros Hl Hr ty Hwt. inversion Hwt as [| |? ? ? ? tl tr ? Hwl Hwr Hres Hop| | | | | | |]; subst.
  destruct (Hl tl Hwl) as [Hwl' Hrl], (Hr tr Hwr) as [Hwr' Hrr]. split; [by econstructor|].
  intros rr Hlen. cbn [row_value]. rewrite !(wt_type _ _ _ Hwl), !(wt_type _ _ _ Hwr), !(wt_type _ _ _ Hwl'), !(wt_type _ _ _ Hwr').
  unfold Binary.binary_row. by rewrite Hrl, Hrr.
Qed.

Lemma sim_not e e' : sim e e' → sim (NotExpr e) (NotExpr e').
Proof.
  intros He ty Hwt. inversion Hwt as [| | |? Hw| | | | | |]; subst. destruct (He _ Hw) as [Hw' Hr].
  split; [by constructor|]. intros r Hlen. cbn. unfold not_row. by rewrite Hr.
Qed.

Lemma sim_is_null e e' : sim e e' → sim (IsNullExpr e) (IsNullExpr e').
Proof.
  intros He ty Hwt. inversion Hwt as [| | | |? ? Hw| | | | |]; subst. destruct (He _ Hw) as [Hw' Hr].
  split; [by econstructor|]. intros r Hlen. cbn. unfold is_null_row. by rewrite Hr.
Qed.

Lemma sim_is_not_null e e' : sim e e' → sim (IsNotNullExpr e) (IsNotNullExpr e').
Proof.
  intros He ty Hwt. inversion Hwt as [| | | | |? ? Hw| | | |]; subst. destruct (He _ Hw) as [Hw' Hr].
  split; [by econstructor|]. intros r Hlen. cbn. unfold is_not_null_row. by rewrite Hr.
Qed.

Lemma sim_try_cast e e' cty : sim e e' → sim (TryCastExpr e cty) (TryCastExpr e' cty).
Proof.
  intros He ty Hwt. inversion Hwt as [| | | | | |? t ? Hw Hc| | |]; subst. destruct (He _ Hw) as [Hw' Hr].
  split; [by econstructor|]. intros r Hlen. cbn [row_value]. rewrite (wt_type _ _ _ Hw), (wt_type _ _ _ Hw').
  unfold cast_row. by rewrite Hr.
Qed.

Lemma sim_in_list e e' l l' negated sf :
  sim e e' → Forall2 (λ x x', sim x x' ∧ (constant x = true → x' = x)) l l' →
  sim (InListExpr e l negated sf) (InListExpr e' l' negated sf).
Proof.
  intros He Hl ty Hwt. inversion Hwt as [| | | | | | |? ? ? ? tx Hw Hwl Hsf| |]; subst. destruct (He _ Hw) as [Hw' Hr].
  assert (Hfl : forallb constant l = true → l' = l).
  { clear -Hl. induction Hl as [|x x' l l' [_ Hx] Hl IH]; [done|]. cbn. intros [Hc Hcs]%andb_prop. by rewrite Hx, IH. }
  split.
  - econstructor; [done| |].
    + clear -Hl Hwl. induction Hl as [|x x' l l' [Hx _] Hl IH]; [by intros ? ?%elem_of_nil|].
      intros y [->|Hy]%elem_of_cons.
      * apply Hx. apply Hwl. by left.
      * apply IH; [|done]. intros z Hz. apply Hwl. by right.
    + intros f Hf. destruct (Hsf f Hf) as (Hne & Hcs & Hrest). by rewrite (Hfl Hcs).
  - intros r Hlen. cbn [row_value]. unfold InList.in_list_row. rewrite Hr by done.
    destruct (row_value schema e r) as [x|]; [|done]. cbn.
    assert (mapM (λ f : row → option (option value), f (CaseMethods.project_row ix r)) (map (row_value schema') l')
      = mapM (λ f : row → option (option value), f r) (map (row_value schema) l)) as ->; [|done].
    rewrite !mapM_map. clear -Hl Hwl Hlen. induction Hl as [|y y' l l' [Hy _] Hl IH]; [done|]. cbn.
    destruct (Hy tx) as [_ Hyr]; [apply Hwl; by left|]. rewrite Hyr by done. destruct (row_value schema y r); [|done]. cbn.
    rewrite IH; [done|]. intros z Hz. apply Hwl. by right.
Qed.

Lemma sim_keys f l l' : Forall2 sim l l' → sim (KeysExpr f l) (KeysExpr f l').
Proof.
  intros Hl ty Hwt. inversion Hwt as [| | | | | | | | |? ? tys Hlen Hw Hok]; subst.
  assert (Hlk : ∀ i x', l' !! i = Some x' → ∃ x ty, l !! i = Some x ∧ tys !! i = Some ty ∧ sim x x' ∧ wt schema x ty).
  { intros i x' Hx'. destruct (Forall2_lookup_r _ _ _ _ _ Hl Hx') as (x & Hx & Hs).
    destruct (lookup_lt_is_Some_2 tys i) as [t Ht]; [rewrite <- Hlen; by eapply lookup_lt_Some|].
    exists x, t. split_and!; [done..|]. by eapply Hw. }
  split.
  - apply (wt_keys _ f l' tys); [by rewrite <- Hlen; symmetry; eapply Forall2_length| |done].
    intros i x' t Hx' Ht. destruct (Hlk i x' Hx') as (x & t' & Hx & Ht' & Hs & Hwx). rewrite Ht in Ht'.
    injection Ht' as <-. by apply Hs.
  - intros r Hr. cbn [row_value]. unfold HashExprs.keys_row. f_equal. rewrite !mapM_map.
    apply (mapM_Forall2_eq (λ x', row_value schema' x' (CaseMethods.project_row ix r)) (λ x, row_value schema x r)).
    apply Forall2_same_length_lookup_2; [symmetry; by eapply Forall2_length|]. intros i x' x Hx' Hx.
    destruct (Hlk i x' Hx') as (x0 & t & Hx0 & _ & Hs & Hwx). rewrite Hx in Hx0. injection Hx0 as <-. by apply (Hs t).
Qed.

Lemma sim_list l l' : Forall2 (λ p q : PhysicalExpr * PhysicalExpr, sim p.1 q.1 ∧ sim p.2 q.2) l l' →
  ∀ wty ty, (∀ w t, (w, t) ∈ l → wt schema w wty) → (∀ w t, (w, t) ∈ l → wt schema t ty) →
  (∀ w t, (w, t) ∈ l' → wt schema' w wty) ∧ (∀ w t, (w, t) ∈ l' → wt schema' t ty) ∧
  ∀ r, length r = length schema → Forall2 (λ p q : PhysicalExpr * PhysicalExpr,
    row_value schema' q.1 (CaseMethods.project_row ix r) = row_value schema p.1 r ∧
    row_value schema' q.2 (CaseMethods.project_row ix r) = row_value schema p.2 r) l l'.
Proof.
  induction 1 as [|[w t] [w' t'] l l' [Hw Ht] Hl IH]; intros wty ty Hwl Htl.
  { split_and!; [by intros ? ? ?%elem_of_nil..|done]. }
  destruct (IH wty ty) as (IHw & IHt & IHr); [intros a c Hac; eapply Hwl; by right|intros a c Hac; eapply Htl; by right|].
  destruct (Hw wty) as [Hw' Hrw]; [eapply Hwl; by left|]. destruct (Ht ty) as [Ht' Hrt]; [eapply Htl; by left|].
  split_and!.
  - intros a c [[= -> ->]|Hac]%elem_of_cons; [done|by eapply IHw].
  - intros a c [[= -> ->]|Hac]%elem_of_cons; [done|by eapply IHt].
  - intros r Hr. constructor; [split; [by apply Hrw|by apply Hrt]|by apply IHr].
Qed.

Lemma sim_case_row e l o e' l' o' wty ty :
  body_rel sim (mkCaseBody e l o) e' l' o' →
  (∀ b, e = Some b → wt schema b wty) → (∀ w t, (w, t) ∈ l → wt schema w wty) → (∀ w t, (w, t) ∈ l → wt schema t ty) →
  (∀ x, o = Some x → wt schema x ty) →
  ∀ m m' r, length r = length schema →
    row_value schema' (CaseExpr (mkCaseBody e' l' o') m') (CaseMethods.project_row ix r)
    = row_value schema (CaseExpr (mkCaseBody e l o) m) r.
Proof.
  intros (He & Hl & Ho) Hwe Hww Hwt Hwo m m' r Hr. cbn in He, Hl, Ho. cbn [row_value]. unfold case_body_row.
  destruct (sim_list l l' Hl wty ty Hww Hwt) as (_ & _ & Hrows). specialize (Hrows r Hr).
  assert (default (λ _, Some None) (option_map (row_value schema') o') (CaseMethods.project_row ix r)
    = default (λ _, Some None) (option_map (row_value schema) o) r) as Helse.
  { destruct Ho as [x x' Hx|]; [|done]. cbn. by apply (Hx ty), Hr; apply Hwo. }
  destruct He as [b b' Hb|]; cbn.
  - unfold Case.with_expr_row. destruct (Hb wty) as [_ Hbr]; [by apply Hwe|]. rewrite Hbr by done.
    destruct (row_value schema b r) as [[v|]|]; cbn; [|done..]. apply Case.case_row_ext; [|done].
    clear -Hrows. induction Hrows as [|[w t] [w' t'] l l' [Hw Ht] Hrows IH]; [by constructor|]. cbn in *.
    constructor; [|done]. cbn. by rewrite Hw.
  - unfold Case.no_expr_row. apply Case.case_row_ext; [|done].
    clear -Hrows. induction Hrows as [|[w t] [w' t'] l l' [Hw Ht] Hrows IH]; [by constructor|]. cbn in *.
    constructor; [|done]. cbn. by rewrite Hw.
Qed.

Lemma normalize_else_row e l o m m' r :
  row_value schema' (CaseExpr (mkCaseBody e l (normalize_else o)) m) r
  = row_value schema' (CaseExpr (mkCaseBody e l o) m') r.
Proof.
  destruct o as [[|s| | | | | | | |]|]; try done. cbn. unfold is_null. case_bool_decide as Hs; [|done].
  cbn. unfold case_body_row. cbn. by rewrite Hs.
Qed.

Lemma normalize_else_Some o x : normalize_else o = Some x → o = Some x.
Proof. destruct o as [[|s| | | | | | | |]|]; try done. cbn. by destruct (is_null s). Qed.

Lemma sim_case body m e' l' o0 o' m' fuel' :
  body_rel sim body e' l' o0 → o' = o0 ∨ o' = normalize_else o0 →
  find_best_eval_method (transform fuel') (mkCaseBody e' l' o') = Some (Ok m') →
  sim (CaseExpr body m) (CaseExpr (mkCaseBody e' l' o') m').
Proof.
  intros Hrel Ho' Hm' ty Hwt. destruct body as [e l o].
  inversion Hwt as [| | | | | | | |? ? fuel wty ? Hne Hlen Hb Hwty Hw Ht Ho Hm|]; subst. cbn in *.
  pose proof Hrel as (Hre & Hrl & Hro). cbn in Hre, Hrl, Hro.
  destruct (sim_list l l' Hrl wty ty Hw Ht) as (Hw' & Ht' & _). split.
  - eapply (wt_case _ _ _ fuel' wty); cbn; try done.
    + intros ->. by apply Forall2_nil_inv_r in Hrl.
    + by rewrite <- (Forall2_length _ _ _ Hrl).
    + intros b' ->. inversion Hre as [b ? Hbb|]; subst. by apply (Hbb wty), Hb.
    + intros ->. inversion Hre; subst. by apply Hwty.
    + intros x' Hx'. assert (o0 = Some x') as -> by (destruct Ho' as [->| ->]; [done|by apply normalize_else_Some]).
      inversion Hro as [x ? Hxx|]; subst. by apply (Hxx ty), Ho.
  - intros r Hr. etransitivity; [|exact (sim_case_row e l o e' l' o0 wty ty Hrel Hb Hw Ht Ho m m' r Hr)].
    destruct Ho' as [->| ->]; [done|]. apply (normalize_else_row e' l' o0 m' m').
Qed.

Lemma body_rel_refl body :
  (∀ c, c ∈ case_children body → sim c c) → body_rel sim body (expr body) (when_then_expr body) (else_expr body).
Proof.
  destruct body as [e l o]. unfold case_children, body_rel. cbn. intros Hc. split_and!.
  - destruct e; constructor. apply Hc. by left.
  - apply Forall2_same_length_lookup_2; [done|]. intros i p q Hp Hq. rewrite Hp in Hq. injection Hq as <-.
    apply list_elem_of_lookup_2 in Hp.
    split; apply Hc, elem_of_app; right; apply elem_of_app; left; apply list_elem_of_In, in_concat;
      exists [p.1; p.2]; (split; [|cbn; tauto]); apply in_map_iff; exists p; (split; [done|by apply list_elem_of_In]).
  - destruct o; constructor. apply Hc, elem_of_app. right. apply elem_of_app. right. by left.
Qed.

(** A node with rewritten children. *)
Abbreviation child_sim := (λ c c', sim c c' ∧ (constant c = true → c' = c)).

Lemma sim_literal s : sim (Literal s) (Literal s).
Proof. intros ty Hwt. inversion Hwt; subst. split; [by constructor|done]. Qed.

Lemma rebuild_sim fuel e cs e' :
  is_cheap_and_infallible e = false → Forall2 child_sim (children e) cs →
  with_new_children (transform fuel) e cs = Some (Ok e') → sim e e'.
Proof.
  intros Hcol Hcs Hnew. destruct e as [|s|l op r fo|a|a|a|a cty|a l n sf|body m|]; cbn in Hcol, Hcs; try done.
  2-6: repeat (apply Forall2_cons_inv_l in Hcs as (? & ? & [? _] & Hcs & ->)); cbn in Hnew; injection Hnew as <-.
  - injection Hnew as <-. apply sim_literal.
  - by apply sim_binary.
  - by apply sim_not.
  - by apply sim_is_null.
  - by apply sim_is_not_null.
  - by apply sim_try_cast.
  - apply Forall2_cons_inv_l in Hcs as (a' & l' & [Ha _] & Hl & ->). cbn in Hnew. injection Hnew as <-.
    rewrite drop_0. by apply sim_in_list.
  - cbn in Hnew. case_decide; [|done]. destruct (split_children_rel child_sim body cs Hcs) as (e1 & l1 & o1 & Hsplit & Hrel).
    rewrite Hsplit in Hnew.
    assert (body_rel sim body e1 l1 o1) as Hsim.
    { destruct Hrel as (Hre & Hrl & Hro). split_and!.
      - destruct Hre as [? ? [? _]|]; by constructor.
      - eapply Forall2_impl; [exact Hrl|]. cbn. tauto.
      - destruct Hro as [? ? [? _]|]; by constructor. }
    cbn in Hnew. unfold CaseExpr_try_new in Hnew. case_decide; [done|].
    destruct (find_best_eval_method _ _) as [[m'|]|] eqn:Hm; cbn in Hnew; [|done..]. injection Hnew as <-.
    eapply sim_case; [exact Hsim|by right|exact Hm].
  - injection Hnew as <-. apply sim_keys. eapply Forall2_impl; [exact Hcs|]. by intros ? ? [? _].
Qed.

Lemma unchanged_sim e :
  is_cheap_and_infallible e = false → Forall2 child_sim (children e) (children e) → sim e e.
Proof.
  intros Hcol Hcs. destruct e as [|s|l op r fo|a|a|a|a cty|a l n sf|body m|f l]; [done|by eapply (rebuild_sim 0)..| |by eapply (rebuild_sim 0)].
  intros ty Hwt. inversion Hwt as [| | | | | | | |? ? fuel wty ? Hne Hlen Hb Hwty Hw Ht Ho Hm|]; subst.
  destruct body as [e l o]. refine (sim_case _ m e l o o m fuel _ (or_introl eq_refl) Hm ty Hwt).
  apply (body_rel_refl (mkCaseBody e l o)). intros c Hc. cbn in Hcs.
  apply list_elem_of_lookup in Hc as [i Hi]. by destruct (Forall2_lookup_lr _ _ _ _ _ _ Hcs Hi Hi) as [? _].
Qed.

(** Rewriting with the map of a projection. *)
Lemma transform_sim fuel e e' ch :
  transform fuel (get_index_of ix) e = Some (Ok (e', ch)) → sim e e' ∧ (ch = false → e' = e).
Proof.
  revert e e' ch. induction fuel as [|fuel IH]; intros e e' ch; cbn [transform]; [done|].
  destruct (match e with Column _ _ => true | _ => false end) eqn:Hcol.
  { destruct e as [name i| | | | | | | | |]; try done. destruct (get_index_of ix i) as [j|] eqn:Hj; cbn; [|done].
    case_decide; intros [= <- <-]; subst; (split; [by apply sim_column|done]). }
  intros Ht. assert (∃ new, try_map (transform fuel (get_index_of ix)) (children e) = Some (Ok new) ∧
    (if existsb snd new then with_new_children (transform fuel) e (map fst new) = Some (Ok e') ∧ ch = true
     else e' = e ∧ ch = false)) as (new & Hnew & Hres).
  { destruct e; try done; (destruct (try_map _ _) as [[new|]|]; [|done..]); exists new; (split; [done|]);
      cbn [try_bind] in Ht; (destruct (existsb snd new); [|by injection Ht as <- <-]);
      (destruct (with_new_children _ _ _) as [[x|]|]; [|done..]); cbn in Ht; by injection Ht as <- <-. }
  clear Ht. apply try_map_Forall2 in Hnew.
  assert (Hcs : Forall2 (λ c c', sim c c' ∧ (constant c = true → c' = c)) (children e) (map fst new)).
  { clear -Hnew IH. induction Hnew as [|c [c' cb] l new Hc Hnew IHn]; [by constructor|]. cbn. constructor; [|done].
    split; [by eapply IH|]. intros Hconst. by eapply constant_unchanged. }
  assert (Hfst : existsb snd new = false → map fst new = children e).
  { clear -Hnew IH. induction Hnew as [|c [c' cb] l new Hc Hnew IHn]; [done|]. cbn. intros [-> Hrest]%orb_false_iff.
    rewrite IHn by done. f_equal. by eapply IH. }
  destruct (existsb snd new).
  - destruct Hres as [Hres ->]. split; [|done]. by eapply rebuild_sim.
  - destruct Hres as [-> ->]. split; [|done]. rewrite Hfst in Hcs by done. by apply unchanged_sim.
Qed.

End Project.

Lemma columns_typed schema e ty : wt schema e ty → ∀ i, i ∈ columns_of e → is_Some (schema !! i).
Proof.
  induction 1 as [name i ty Hi|s Hs|l op r fo tl tr ty Hl IHl Hr IHr Hres Hop|e He IH|e t He IH|e t He IH|e t ty He IH Hc
    |e l n sf ty He IH Hl IHl Hsf|body m fuel wty ty Hne Hlen Hb IHb Hwty Hw IHw Ht IHt Ho IHo Hm|f l tys Hlen Hl IHl Hok]; try done.
  - intros j ->%list_elem_of_singleton. eauto.
  - intros j ?%elem_of_nil. done.
  - intros j [?|?]%elem_of_app; auto.
  - intros j [?|Hj]%elem_of_app; [auto|]. apply list_elem_of_In, in_concat in Hj as (k & Hk & Hj).
    apply in_map_iff in Hk as (x & <- & Hx). apply (IHl x); by apply list_elem_of_In.
  - destruct body as [e l o]. cbn in *. intros j [Hj|[Hj|Hj]%elem_of_app]%elem_of_app.
    + destruct e as [b|]; [by apply (IHb b)|by apply elem_of_nil in Hj].
    + apply list_elem_of_In, in_concat in Hj as (k & Hk & Hj). apply in_map_iff in Hk as ([w t] & <- & Hx).
      apply list_elem_of_In in Hx, Hj. apply elem_of_app in Hj as [Hj|Hj]; [by apply (IHw w t)|by apply (IHt w t)].
    + destruct o as [o|]; [by apply (IHo o)|by apply elem_of_nil in Hj].
  - intros j Hj. apply list_elem_of_In, in_concat in Hj as (k & Hk & Hj%list_elem_of_In).
    apply in_map_iff in Hk as (x & <- & Hx%list_elem_of_In). apply list_elem_of_lookup in Hx as [i Hx].
    destruct (lookup_lt_is_Some_2 tys i) as [t Ht]; [rewrite <- Hlen; by eapply lookup_lt_Some|]. by eapply IHl.
Qed.

Lemma index_set_sub l i : i ∈ index_set l → i ∈ l.
Proof.
  unfold index_set. assert (∀ acc, i ∈ foldl (λ set i, if decide (i ∈ set) then set else set ++ [i]) acc l → i ∈ acc ∨ i ∈ l) as Hgen.
  { induction l as [|j l IH]; intros acc; cbn; [by left|]. intros [Hacc|Hl]%IH; [|right; by right].
    case_decide; [by left|]. apply elem_of_app in Hacc as [?| ->%list_elem_of_singleton]; [by left|right; by left]. }
  intros [?%elem_of_nil|?]%Hgen; done.
Qed.

Lemma project_schema_total ix schema :
  (∀ i, i ∈ ix → is_Some (schema !! i)) → ∃ schema', CaseMethods.project_schema ix schema = Some schema'.
Proof.
  intros Hix. unfold CaseMethods.project_schema. apply mapM_is_Some. by apply Forall_forall.
Qed.

Lemma try_option_rel {A B} (f : A → option (Result B)) o o' :
  try_option f o = Some (Ok o') → option_Forall2 (λ x y, f x = Some (Ok y)) o o'.
Proof.
  destruct o as [x|]; cbn; [|intros [= <-]; constructor].
  destruct (f x) as [[y|]|] eqn:Hx; cbn; [|done..]. intros [= <-]. by constructor.
Qed.

Lemma project_rel fuel body p schema schema' :
  CaseBody_project (transform fuel) body = Some (Ok p) →
  CaseMethods.project_schema (projection p) schema = Some schema' →
  body_rel (sim schema schema' (projection p)) body (expr (pbody p)) (when_then_expr (pbody p)) (else_expr (pbody p)).
Proof.
  unfold CaseBody_project. set (ix := index_set _). intros Hp Hs.
  destruct (try_option _ (expr body)) as [[e'|]|] eqn:He; cbn in Hp; [|done..].
  destruct (try_map _ _) as [[l'|]|] eqn:Hl; cbn in Hp; [|done..].
  destruct (try_option _ (else_expr body)) as [[o'|]|] eqn:Ho; cbn in Hp; [|done..]. injection Hp as <-. cbn in *.
  assert (Hone : ∀ x y, (t ←? transform fuel (get_index_of ix) x; Some (Ok t.1)) = Some (Ok y) → sim schema schema' ix x y).
  { intros x y Hx. destruct (transform fuel _ x) as [[[x' ch]|]|] eqn:Ht; cbn in Hx; [|done..]. injection Hx as <-.
    by eapply transform_sim. }
  split_and!.
  - apply try_option_rel in He. destruct He; constructor. by apply Hone.
  - apply try_map_Forall2 in Hl. eapply Forall2_impl; [exact Hl|]. intros [w t] [w' t'] Hwt. cbn in *.
    destruct (t0 ←? transform fuel _ w; Some (Ok t0.1)) as [[w1|]|] eqn:Hw; cbn in Hwt; [|done..].
    destruct (t0 ←? transform fuel _ t; Some (Ok t0.1)) as [[t1|]|] eqn:Ht; cbn in Hwt; [|done..].
    injection Hwt as <- <-. split; by apply Hone.
  - apply try_option_rel in Ho. destruct Ho; constructor. by apply Hone.
Qed.

(** ** Size *)

Definition option_size {A} (f : A → nat) (o : option A) : nat := match o with Some x => f x | None => 0 end.

Definition pairs_size {A} (f : A → nat) (l : list (A * A)) : nat :=
  list_sum (map (λ p : A * A, match p with (w, t) => f w + f t end) l).

Definition body_size {A} (f : A → nat) (b : CaseBody A) : nat :=
  match b with mkCaseBody e l o => option_size f e + pairs_size f l + option_size f o end.

Definition method_size {A} (f : A → nat) (m : EvalMethod A) : nat :=
  match m with
  | NoExpression (mkProjected _ b) | WithExpression (mkProjected _ b) | ExpressionOrExpression (mkProjected _ b) =>
      body_size f b
  | _ => 0
  end.

(** Nodes, those of the projected bodies included. *)
Fixpoint size (e : PhysicalExpr) : nat :=
  match e with
  | Column _ _ | Literal _ => 1
  | BinaryExpr l _ r _ => S (size l + size r)
  | NotExpr arg | IsNullExpr arg | IsNotNullExpr arg | TryCastExpr arg _ => S (size arg)
  | InListExpr arg l _ _ => S (size arg + list_sum (map size l))
  | CaseExpr body m => S (body_size size body + method_size size m)
  | KeysExpr _ l => S (list_sum (map size l))
  end.

Lemma list_sum_elem {A} (f : A → nat) l x : x ∈ l → f x ≤ list_sum (map f l).
Proof. induction 1 as [x l|x y l Hx IH]; unfold list_sum in *; cbn in *; lia. Qed.

Lemma body_size_parts {A} (f : A → nat) b :
  (∀ e, expr b = Some e → f e ≤ body_size f b) ∧
  (∀ w t, (w, t) ∈ when_then_expr b → f w ≤ body_size f b ∧ f t ≤ body_size f b) ∧
  (∀ o, else_expr b = Some o → f o ≤ body_size f b).
Proof.
  destruct b as [e l o]. cbn. split_and!.
  - intros e' ->. cbn. lia.
  - intros w t Hin. apply (list_sum_elem (λ p : A * A, match p with (w, t) => f w + f t end)) in Hin.
    unfold pairs_size. cbn in Hin. lia.
  - intros o' ->. cbn. lia.
Qed.

(** ** Constants *)

Lemma constant_evaluate e : constant e = true → ∀ b b', evaluate (dyn_of e) b = evaluate (dyn_of e) b'.
Proof.
  induction e as [|s|l IHl op r IHr fo|e IH|e IH|e IH|e IH ty|e IH l n sf|body m|]; cbn [constant]; intros Hc b b'; try done.
  - apply andb_prop in Hc as [[Hop%bool_decide_eq_true_1 Hl]%andb_prop Hr]. cbn. unfold Binary.BinaryExpr_evaluate.
    rewrite (IHl Hl b b'), (IHr Hr b b'). destruct (evaluate (dyn_of l) b') as [[lhs|]|]; cbn [try_bind]; [|done..].
    assert (op ≠ Datum.And ∧ op ≠ Datum.Or) as [Hand Hor] by (destruct Hop as [k Hk]; destruct op; done).
    rewrite Binary.no_short_circuit by done. destruct (evaluate (dyn_of r) b') as [[rhs|]|]; cbn [try_bind]; [|done..].
    destruct (bool_decide (op = Datum.Minus) && _); [done|]. destruct Hop as [k Hk]. by destruct op.
  - cbn. by rewrite (IH Hc b b').
  - cbn. by rewrite (IH Hc b b').
  - cbn. by rewrite (IH Hc b b').
  - cbn. unfold Case.TryCastExpr_evaluate. by rewrite (IH Hc b b').
Qed.

Lemma evaluate_list_items l b a :
  forallb constant l = true → InList.evaluate_list (map dyn_of l) b = Some (Ok a) →
  ∃ ss, Forall2 InList.constant_item (map dyn_of l) ss ∧ iter_to_array ss = Ok a.
Proof.
  intros Hl. unfold InList.evaluate_list. destruct (InList.evaluate_scalars _ b) as [[ss|]|] eqn:Hss; cbn; [|done..].
  intros [= Ha]. exists ss. split; [|done]. clear Ha a. revert ss Hss.
  induction l as [|e l IH]; intros ss Hss; cbn in Hss; [injection Hss as <-; constructor|].
  cbn in Hl. apply andb_prop in Hl as [He Hl]. destruct (evaluate (dyn_of e) b) as [[[?|s]|]|] eqn:Hev; cbn in Hss; try done.
  destruct (InList.evaluate_scalars (map dyn_of l) b) as [[ss'|]|]; cbn in Hss; [|done..]. injection Hss as <-.
  cbn. constructor; [|by apply IH]. intros b'. by rewrite (constant_evaluate e He b' b).
Qed.

(** ** Expressions *)

Context `{!ArrowFilterOk, !Binary.BitwiseOk bit_value}.

Abbreviation sems_of schema l :=
  (map (λ p : PhysicalExpr * PhysicalExpr, match p with (w, t) => (row_value schema w, row_value schema t) end) l).
Abbreviation else_of schema o := (default (λ _, Some None) (option_map (row_value schema) o)).
Abbreviation sound := (λ schema e, ∀ ty, wt schema e ty → computes schema (dyn_of e) ty (row_value schema e)).

Lemma branch_rows_of schema wty ty l :
  (∀ w t, (w, t) ∈ l → sound schema w ∧ sound schema t) →
  (∀ w t, (w, t) ∈ l → wt schema w wty) → (∀ w t, (w, t) ∈ l → wt schema t ty) →
  Case.branch_rows schema wty ty
    (List.map (λ p : PhysicalExpr * PhysicalExpr, match p with (w, t) => (dyn_of w, dyn_of t) end) l) (sems_of schema l).
Proof.
  unfold Case.branch_rows. induction l as [|[w t] l IH]; intros Hs Hw Ht; cbn; constructor.
  - cbn. destruct (Hs w t) as [Hsw Hst]; [by left|]. split; [apply Hsw; eapply Hw; by left|apply Hst; eapply Ht; by left].
  - apply IH; intros a c Hac; [apply Hs|eapply Hw|eapply Ht]; by right.
Qed.

Lemma else_row_of schema ty o :
  (∀ x, o = Some x → sound schema x) → (∀ x, o = Some x → wt schema x ty) →
  Case.else_row schema ty (option_map dyn_of o) (else_of schema o).
Proof. intros Hs Ho. destruct o as [x|]; cbn; [|done]. apply Hs; [done|by apply Ho]. Qed.

Lemma literals_of {A} (as_lit : A → option ScalarValue) (l : list (A * A)) literals :
  mapM (λ wt : A * A, w ← as_lit wt.1; t ← as_lit wt.2; Some (w, t)) l = Some literals →
  Forall2 (λ p q, as_lit p.1 = Some q.1 ∧ as_lit p.2 = Some q.2) l literals.
Proof.
  intros Hm. apply mapM_Some_1 in Hm. eapply Forall2_impl; [exact Hm|]. intros [w t] [sw st]. cbn.
  intros (w' & Hw & (t' & Ht & [= <- <-])%bind_Some)%bind_Some. done.
Qed.

Lemma as_literal_Some e s : as_literal e = Some s → e = Literal s.
Proof. destruct e; cbn; congruence. Qed.

Lemma wt_literal_inv schema s ty : wt schema (Literal s) ty → s_type s = ty ∧ has_type ty (s_value s).
Proof. intros Hwt. inversion Hwt; subst. done. Qed.

Lemma maybe_new_literals body table :
  CaseMethods.maybe_new as_literal body = Some (Some table) →
  ∃ literals o,
    mapM (λ wt : PhysicalExpr * PhysicalExpr, w ← as_literal wt.1; t ← as_literal wt.2; Some (w, t)) (when_then_expr body)
      = Some literals ∧
    CaseMethods.else_literal as_literal body = Some o.
Proof.
  unfold CaseMethods.maybe_new, CaseMethods.else_literal. case_decide; [done|]. destruct (mapM _ _) as [literals|]; [|done].
  case_bool_decide; [done|]. intros Hnew. exists literals. destruct (else_expr body) as [e|]; [|eauto].
  destruct (as_literal e) as [s|]; [cbn; eauto|]. apply bind_Some in Hnew as (fw & _ & (ft & _ & ?)%bind_Some). done.
Qed.

Lemma lookup_case_computes schema b l o table wty ty :
  CaseMethods.maybe_new as_literal (mkCaseBody (Some b) l o) = Some (Some table) →
  l ≠ [] → (Z.of_nat (length l) < 2 ^ 32 - 1)%Z →
  sound schema b → wt schema b wty → (∀ w t, (w, t) ∈ l → sound schema w ∧ sound schema t) →
  (∀ w t, (w, t) ∈ l → wt schema w wty) → (∀ w t, (w, t) ∈ l → wt schema t ty) →
  (∀ x, o = Some x → sound schema x) → (∀ x, o = Some x → wt schema x ty) →
  computes schema {| evaluate := CaseMethods.with_lookup_table (map_body dyn_of (mkCaseBody (Some b) l o)) table;
                     data_type := CaseMethods.body_data_type (map_body dyn_of (mkCaseBody (Some b) l o)) |}
    ty (Case.with_expr_row (row_value schema b) (sems_of schema l) (else_of schema o)).
Proof.
  intros Hnew Hne Hlen Hsb Hb Hsl Hw Ht Hso Ho. destruct (maybe_new_literals _ _ Hnew) as (literals & ov & Hlit & Hov). cbn in Hlit.
  pose proof (literals_of _ _ _ Hlit) as Hrel.
  assert (Hlt : Forall (λ p : ScalarValue * ScalarValue, s_type p.1 = wty ∧ has_type wty (s_value p.1) ∧ s_type p.2 = ty
    ∧ has_type ty (s_value p.2)) literals).
  { apply Forall_forall. intros [sw st] Hin. apply list_elem_of_lookup in Hin as [i Hi].
    destruct (Forall2_lookup_r _ _ _ _ _ Hrel Hi) as ([w t] & Hp & [Hlw%as_literal_Some Hlt%as_literal_Some]).
    cbn in *. subst w t. apply list_elem_of_lookup_2 in Hp.
    destruct (wt_literal_inv _ _ _ (Hw _ _ Hp)), (wt_literal_inv _ _ _ (Ht _ _ Hp)). done. }
  assert (Hovt : has_type ty ov ∧ ∀ r, else_of schema o r = Some ov).
  { unfold CaseMethods.else_literal in Hov. cbn in Hov. destruct o as [x|]; cbn in Hov |- *; [|by injection Hov as <-].
    destruct (as_literal x) as [s|] eqn:Hx; [|done]. apply as_literal_Some in Hx as ->. injection Hov as <-.
    split; [by apply (wt_literal_inv schema s), Ho|done]. }
  destruct Hovt as [Hovt Hovr].
  apply (computes_ext schema _ ty (λ r, CaseMethods.literal_match literals ov <$> row_value schema b r)).
  { intros r _. rewrite <- CaseMethods.literal_rows. unfold Case.with_expr_row.
    destruct (row_value schema b r) as [[v|]|]; cbn; [|by rewrite Hovr|done]. apply Case.case_row_ext; [|by rewrite Hovr].
    clear -Hrel. induction Hrel as [|[w t] [sw st] l literals [Hlw%as_literal_Some Hlt%as_literal_Some] Hrel IH]; [by constructor|].
    cbn in *. subst. by constructor. }
  eapply (CaseMethods.lookup_computes schema _ (dyn_of b) wty ty (row_value schema b)).
  - apply (CaseMethods.body_data_type_ok schema ty wty _ (sems_of schema l) (else_of schema o)); cbn.
    + by apply branch_rows_of.
    + by apply else_row_of.
    + by destruct l.
  - done.
  - by apply Hsb.
  - intros c. apply CaseMethods.literal_match_typed; [done|]. eapply Forall_impl; [exact Hlt|]. cbn. tauto.
  - intros a Ha. eapply (CaseMethods.maybe_new_ok as_literal); try done. by rewrite <- (Forall2_length _ _ _ Hrel).
Qed.

(** The projected body evaluates like the body. *)
Lemma projected_rows fuel schema e l o p wty ty :
  CaseBody_project (transform fuel) (mkCaseBody e l o) = Some (Ok p) →
  (∀ b, e = Some b → wt schema b wty) → (∀ w t, (w, t) ∈ l → wt schema w wty) → (∀ w t, (w, t) ∈ l → wt schema t ty) →
  (∀ x, o = Some x → wt schema x ty) →
  ∃ schema', CaseMethods.project_schema (projection p) schema = Some schema' ∧
    body_rel (sim schema schema' (projection p)) (mkCaseBody e l o)
      (expr (pbody p)) (when_then_expr (pbody p)) (else_expr (pbody p)).
Proof.
  intros Hp He Hw Ht Ho.
  destruct (project_schema_total (projection p) schema) as [schema' Hs].
  { intros i Hi. assert (i ∈ concat (map columns_of (case_children (mkCaseBody e l o)))) as Hin.
    { apply index_set_sub. unfold CaseBody_project in Hp. destruct (try_option _ (expr _)) as [[e'|]|]; cbn in Hp; [|done..].
      destruct (try_map _ _) as [[l'|]|]; cbn in Hp; [|done..].
      destruct (try_option _ _) as [[o'|]|]; cbn in Hp; [|done..]. by injection Hp as <-. }
    apply list_elem_of_In, in_concat in Hin as (k & Hk & Hin%list_elem_of_In). apply in_map_iff in Hk as (x & <- & Hx%list_elem_of_In).
    unfold case_children in Hx. cbn in Hx. apply elem_of_app in Hx as [Hx|[Hx|Hx]%elem_of_app].
    - destruct e as [b|]; [|by apply elem_of_nil in Hx]. apply list_elem_of_singleton in Hx as ->.
      by eapply (columns_typed schema b wty); [apply He|].
    - apply list_elem_of_In, in_concat in Hx as (k & Hk & Hx). apply in_map_iff in Hk as ([w t] & <- & Hwt%list_elem_of_In).
      destruct Hx as [<-|[<-|[]]]; [eapply (columns_typed schema w wty)|eapply (columns_typed schema t ty)]; try done; [by eapply Hw|by eapply Ht].
    - destruct o as [b|]; [|by apply elem_of_nil in Hx]. apply list_elem_of_singleton in Hx as ->.
      by eapply (columns_typed schema b ty); [apply Ho|]. }
  exists schema'. split; [done|]. by eapply project_rel.
Qed.

Section CaseRows.
Variables (schema : list DataType) (e : option PhysicalExpr) (l : list (PhysicalExpr * PhysicalExpr))
  (o : option PhysicalExpr) (wty ty : DataType).
Hypotheses (Hne : l ≠ []) (Hlen : (Z.of_nat (length l) < 2 ^ 32 - 1)%Z)
  (He : ∀ b, e = Some b → wt schema b wty) (Hwty : e = None → wty = DBoolean)
  (Hw : ∀ w t, (w, t) ∈ l → wt schema w wty) (Ht : ∀ w t, (w, t) ∈ l → wt schema t ty)
  (Ho : ∀ x, o = Some x → wt schema x ty)
  (Hse : ∀ b, e = Some b → sound schema b) (Hsl : ∀ w t, (w, t) ∈ l → sound schema w ∧ sound schema t)
  (Hso : ∀ x, o = Some x → sound schema x).

Abbreviation body := (mkCaseBody e l o).
Abbreviation dbody := (map_body dyn_of body).

(** The projected body, well-typed over the projected schema. *)
Lemma projected_computes fuel p :
  CaseBody_project (transform fuel) body = Some (Ok p) →
  (∀ schema x, size x ≤ body_size size (pbody p) → sound schema x) →
  ∃ schema' e' l' o',
    CaseMethods.project_schema (projection p) schema = Some schema' ∧ pbody p = mkCaseBody e' l' o' ∧
    Case.branch_rows schema' wty ty (when_then_expr (map_body dyn_of (pbody p))) (sems_of schema' l') ∧
    Case.else_row schema' ty (else_expr (map_body dyn_of (pbody p))) (else_of schema' o') ∧
    (∀ b, e = Some b → ∃ b', e' = Some b' ∧ computes schema' (dyn_of b') wty (row_value schema' b')) ∧
    (∀ w t, l = [(w, t)] → ∃ w' t', l' = [(w', t')] ∧ computes schema' (dyn_of t') ty (row_value schema' t') ∧
      ∀ r, length r = length schema → row_value schema' t' (CaseMethods.project_row (projection p) r) = row_value schema t r) ∧
    (∀ r, length r = length schema →
      else_of schema' o' (CaseMethods.project_row (projection p) r) = else_of schema o r) ∧
    ∀ r, length r = length schema →
      case_body_row (option_map (row_value schema') e') (sems_of schema' l') (option_map (row_value schema') o')
        (CaseMethods.project_row (projection p) r)
      = case_body_row (option_map (row_value schema) e) (sems_of schema l) (option_map (row_value schema) o) r.
Proof.
  intros Hp Hsound. destruct (projected_rows fuel schema e l o p wty ty Hp He Hw Ht Ho) as (schema' & Hs & Hrel).
  destruct p as [ix [e' l' o']]. cbn [pbody projection expr when_then_expr else_expr] in *.
  pose proof Hrel as (Hre & Hrl & Hro). cbn in Hre, Hrl, Hro.
  destruct (sim_list schema schema' ix l l' Hrl wty ty Hw Ht) as (Hw' & Ht' & Hrows).
  destruct (body_size_parts size (mkCaseBody e' l' o')) as (Hpe & Hpl & Hpo). cbn in Hpe, Hpl, Hpo.
  exists schema', e', l', o'. split_and!; [done|done|..].
  - apply branch_rows_of; [|done..]. intros w t Hin. destruct (Hpl w t Hin). split; by apply Hsound.
  - apply else_row_of; [intros x Hx; by apply Hsound, Hpo|]. intros x' ->. inversion Hro as [x ? Hx|]; subst. by apply (Hx ty), Ho.
  - intros b ->. inversion Hre as [? b' Hb|]; subst. exists b'. split; [done|]. apply Hsound; [by apply Hpe|].
    by apply (Hb wty), He.
  - intros w t ->. apply Forall2_cons_inv_l in Hrl as ([w' t'] & ? & [_ Hst] & ->%Forall2_nil_inv_l & ->).
    exists w', t'. cbn in Hst. destruct (Hst ty) as [Hwt' Hr]; [eapply Ht; by left|]. split_and!; [done| |done].
    apply Hsound; [|done]. destruct (Hpl w' t'); [by left|done].
  - intros r Hr. destruct Hro as [x x' Hx|]; [|done]. cbn. by apply (Hx ty), Hr; apply Ho.
  - intros r Hr. by apply (sim_case_row schema schema' ix e l o e' l' o' wty ty Hrel He Hw Ht Ho InfallibleExprOrNull InfallibleExprOrNull).
Qed.

Abbreviation case_dyn m := ({| evaluate := CaseExpr_evaluate debug_assertions h dbody (map_method dyn_of m);
                               data_type := CaseMethods.body_data_type dbody |}).
Abbreviation body_row :=
  (case_body_row (option_map (row_value schema) e) (sems_of schema l) (option_map (row_value schema) o)).

Lemma with_expression_computes fuel b p :
  e = Some b → CaseBody_project (transform fuel) body = Some (Ok p) →
  (∀ schema x, size x ≤ body_size size (pbody p) → sound schema x) →
  computes schema (case_dyn (WithExpression p)) ty body_row.
Proof.
  intros Heb Hp Hsound. destruct (projected_computes fuel p Hp Hsound)
    as (schema' & e' & l' & o' & Hs & Hpb & Hbr & Hel & Hb & _ & _ & Hrow).
  destruct (Hb b Heb) as (b' & -> & Hcb). rewrite Heb in *. destruct p as [ix pb]. cbn in *. subst pb.
  apply (CaseMethods.with_expr_computes debug_assertions schema ty wty (map_body dyn_of (mkCaseBody (Some b) l o))
    (sems_of schema l) (else_of schema o)) with (schema' := schema') (sems' := sems_of schema' l') (fe' := else_of schema' o')
    (d := dyn_of b) (d' := dyn_of b') (fb' := row_value schema' b'); cbn; try done.
  - by apply branch_rows_of.
  - by apply else_row_of.
  - by destruct l.
  - by apply Hse, He.
Qed.

Lemma no_expression_computes fuel p :
  e = None → CaseBody_project (transform fuel) body = Some (Ok p) →
  (∀ schema x, size x ≤ body_size size (pbody p) → sound schema x) →
  computes schema (case_dyn (NoExpression p)) ty body_row.
Proof.
  intros Hnone Hp Hsound. destruct (projected_computes fuel p Hp Hsound)
    as (schema' & e' & l' & o' & Hs & Hpb & Hbr & Hel & _ & _ & _ & Hrow).
  assert (e' = None) as ->.
  { destruct (projected_rows fuel schema e l o p wty ty Hp He Hw Ht Ho) as (? & _ & Hre & _). rewrite Hpb, Hnone in Hre.
    cbn in Hre. by inversion Hre. }
  rewrite Hnone in *. destruct p as [ix pb]. cbn in *. subst pb.
  apply (CaseMethods.no_expr_computes debug_assertions schema ty wty (map_body dyn_of (mkCaseBody None l o))
    (sems_of schema l) (else_of schema o)) with (schema' := schema') (sems' := sems_of schema' l') (fe' := else_of schema' o'); cbn; try done.
  - by apply branch_rows_of.
  - by apply else_row_of.
  - by destruct l.
  - by apply Hwty.
Qed.

Lemma expression_or_expression_computes fuel w t p :
  e = None → l = [(w, t)] → CaseBody_project (transform fuel) body = Some (Ok p) →
  (∀ schema x, size x ≤ body_size size (pbody p) → sound schema x) →
  computes schema (case_dyn (ExpressionOrExpression p)) ty body_row.
Proof.
  intros Hnone Hl Hp Hsound. destruct (projected_computes fuel p Hp Hsound)
    as (schema' & e' & l' & o' & Hs & Hpb & Hbr & Hel & _ & Hone & Helse & _).
  destruct (Hone w t Hl) as (w' & t' & -> & Hct & Htr). destruct (Hsl w t) as [Hsw Hst]; [rewrite Hl; by left|].
  assert (wt schema w DBoolean) as Hww by (rewrite <- (Hwty Hnone); eapply Hw; rewrite Hl; by left).
  assert (wt schema t ty) as Hwt by (eapply Ht; rewrite Hl; by left).
  rewrite Hnone, Hl in *. destruct p as [ix pb]. cbn in *. subst pb.
  apply (CaseMethods.expr_or_expr_computes h schema ty (map_body dyn_of (mkCaseBody None [(w, t)] o)) (dyn_of w) (dyn_of t)
    (row_value schema w) (row_value schema t) (else_of schema o)) with (schema' := schema') (w' := dyn_of w') (t' := dyn_of t')
    (ft' := row_value schema' t') (fe' := else_of schema' o'); cbn; try done.
  - by apply Hsw.
  - by apply Hst.
  - by apply else_row_of.
  - intros r Hr. split; [by apply Htr|by apply Helse].
Qed.

Lemma column_case_computes w name i :
  e = None → l = [(w, Column name i)] → o = None → computes schema (case_dyn InfallibleExprOrNull) ty body_row.
Proof.
  intros Hnone Hl Hnoelse. destruct (Hsl w (Column name i)) as [Hsw Hst]; [rewrite Hl; by left|].
  assert (wt schema w DBoolean) as Hww by (rewrite <- (Hwty Hnone); eapply Hw; rewrite Hl; by left).
  assert (wt schema (Column name i) ty) as Hwt by (eapply Ht; rewrite Hl; by left).
  rewrite Hnone, Hl, Hnoelse in *.
  apply (CaseMethods.column_or_null_computes schema ty (map_body dyn_of (mkCaseBody None [(w, Column name i)] None)) (dyn_of w)
    (dyn_of (Column name i)) (row_value schema w) (row_value schema (Column name i)) (λ _, Some None)); cbn; try done.
  - by apply Hsw.
  - by apply Hst.
  - intros r Hr. inversion Hwt as [? ? ? Hi| | | | | | | | |]; subst. apply lookup_lt_is_Some_2. rewrite Hr. by eapply lookup_lt_Some.
  - intros b v Hv. unfold bounds_check in Hv. case_decide; cbn in Hv; [|done].
    destruct (columns b !! i); cbn in Hv; [|done]. by injection Hv as <-.
Qed.

Lemma scalar_case_computes w s1 s2 :
  e = None → l = [(w, Literal s1)] → o = Some (Literal s2) → computes schema (case_dyn ScalarOrScalar) ty body_row.
Proof.
  intros Hnone Hl Helse. destruct (Hsl w (Literal s1)) as [Hsw Hst]; [rewrite Hl; by left|].
  assert (wt schema w DBoolean) as Hww by (rewrite <- (Hwty Hnone); eapply Hw; rewrite Hl; by left).
  assert (wt schema (Literal s1) ty) as Hw1 by (eapply Ht; rewrite Hl; by left).
  assert (wt schema (Literal s2) ty) as Hw2 by (by apply Ho).
  destruct (wt_literal_inv _ _ _ Hw1), (wt_literal_inv _ _ _ Hw2). pose proof (Hso _ Helse) as Hse2.
  rewrite Hnone, Hl, Helse in *.
  apply (CaseMethods.scalar_or_scalar_computes schema ty (map_body dyn_of (mkCaseBody None [(w, Literal s1)] (Some (Literal s2))))
    (dyn_of w) (dyn_of (Literal s1)) (row_value schema w) (row_value schema (Literal s1)) (row_value schema (Literal s2)))
    with (e := dyn_of (Literal s2)) (s1 := s1) (s2 := s2); cbn; try done.
  - by apply Hsw.
  - by apply Hst.
  - by apply Hse2.
Qed.

End CaseRows.

Lemma case_computes schema body m ty :
  (∀ schema x, size x < size (CaseExpr body m) → sound schema x) →
  wt schema (CaseExpr body m) ty → computes schema (dyn_of (CaseExpr body m)) ty (row_value schema (CaseExpr body m)).
Proof.
  intros IH Hwt. inversion Hwt as [| | | | | | | |? ? fuel wty ? Hne Hlen Hb Hwty Hw Ht Ho Hm|]; subst.
  destruct body as [e l o]. cbn [expr when_then_expr else_expr] in *.
  destruct (body_size_parts size (mkCaseBody e l o)) as (Hpe & Hpl & Hpo). cbn [expr when_then_expr else_expr] in Hpe, Hpl, Hpo.
  assert (Hse : ∀ b, e = Some b → sound schema b).
  { intros b Hbe. apply IH. pose proof (Hpe b Hbe). cbn [size]. lia. }
  assert (Hsl : ∀ w t, (w, t) ∈ l → sound schema w ∧ sound schema t).
  { intros w t Hin. destruct (Hpl w t Hin). split; apply IH; cbn [size]; lia. }
  assert (Hso : ∀ x, o = Some x → sound schema x).
  { intros x Hx. apply IH. pose proof (Hpo x Hx). cbn [size]. lia. }
  assert (Hsp : ∀ p, m = NoExpression p ∨ m = WithExpression p ∨ m = ExpressionOrExpression p →
    ∀ schema x, size x ≤ body_size size (pbody p) → sound schema x).
  { intros [ix pb] Hmp s x Hx. apply IH. cbn [size]. destruct Hmp as [->|[->| ->]]; cbn in *; lia. }
  unfold find_best_eval_method in Hm. cbn [expr when_then_expr else_expr] in Hm. cbn [to_dyn row_value].
  destruct e as [b|].
  - destruct (CaseMethods.maybe_new as_literal _) as [[table|]|] eqn:Hnew; cbn [mbind option_bind] in Hm; [| |done].
    + injection Hm as <-. eapply (lookup_case_computes schema b l o table wty ty); eauto.
    + destruct (CaseBody_project _ _) as [[p|]|] eqn:Hp; cbn [try_bind] in Hm; [|done..]. injection Hm as <-.
      eapply (with_expression_computes schema (Some b) l o wty ty); eauto.
  - assert (∀ p, CaseBody_project (transform fuel) (mkCaseBody None l o) = Some (Ok p) → m = NoExpression p →
      computes schema (dyn_of (CaseExpr (mkCaseBody None l o) m)) ty (row_value schema (CaseExpr (mkCaseBody None l o) m))) as Hno.
    { intros p Hp ->. eapply (no_expression_computes schema None l o wty ty); eauto. }
    destruct l as [|[w t] [|q l]]; [done| |].
    + destruct (is_cheap_and_infallible t && _) eqn:Hcol.
      * injection Hm as <-. apply andb_prop in Hcol as [Hc Hn]. destruct t as [name i| | | | | | | | |]; try done.
        destruct o as [x|]; [done|]. eapply (column_case_computes schema None _ None wty ty); eauto.
      * clear Hcol. destruct (bool_decide _ && bool_decide _) eqn:Hlit.
        -- injection Hm as <-. apply andb_prop in Hlit as [[s1 Hs1%as_literal_Some]%bool_decide_eq_true_1 Hs2%bool_decide_eq_true_1].
           subst t. destruct o as [x|]; cbn in Hs2; [|by destruct Hs2]. destruct Hs2 as [s2 ->%as_literal_Some].
           eapply (scalar_case_computes schema None _ (Some (Literal s2)) wty ty); eauto.
        -- destruct (CaseBody_project _ _) as [[p|]|] eqn:Hp; cbn [try_bind] in Hm; [|done..]. injection Hm as <-.
           eapply (expression_or_expression_computes schema None _ o wty ty); eauto.
    + destruct (CaseBody_project _ _) as [[p|]|] eqn:Hp; cbn [try_bind] in Hm; [|done..]. injection Hm as <-. by apply (Hno p).
Qed.

Lemma in_list_computes schema e l negated sf ty :
  (∀ x, x ∈ e :: l → sound schema x) → wt schema (InListExpr e l negated sf) ty →
  computes schema (dyn_of (InListExpr e l negated sf)) ty (row_value schema (InListExpr e l negated sf)).
Proof.
  intros IH Hwt. inversion Hwt as [| | | | | | |? ? ? ? tx He Hl Hsf| |]; subst. cbn [to_dyn row_value].
  assert (Hx : computes schema (dyn_of e) tx (row_value schema e)) by (apply (IH e ltac:(by left) tx He)).
  assert (Hds : Forall2 (λ d f, computes schema d tx f) (map dyn_of l) (map (row_value schema) l)).
  { clear Hwt Hsf. induction l as [|x l IHl]; cbn; constructor.
    - apply (IH x ltac:(right; by left) tx), Hl. by left.
    - apply IHl; [|intros y Hy; apply Hl; by right]. intros y [->|Hy]%elem_of_cons; [apply (IH e); by left|apply (IH y); right; by right]. }
  destruct sf as [f|]; [|by apply (InList.dynamic_computes schema _ tx)].
  destruct (Hsf f eq_refl) as (Hne & Hconst & Hflat & b & a & Hlist & Hf).
  destruct (evaluate_list_items l b a Hconst Hlist) as (ss & Hss & Ha).
  eapply (InList.static_computes schema _ tx _ _ _ ss); try done.
  intros ->. apply Forall2_nil_inv_r in Hss. by destruct l.
Qed.

Lemma keys_expr_computes schema f l ty :
  (∀ x, x ∈ l → sound schema x) → wt schema (KeysExpr f l) ty →
  computes schema (dyn_of (KeysExpr f l)) ty (row_value schema (KeysExpr f l)).
Proof.
  intros IH Hwt. inversion Hwt as [| | | | | | | | |? ? tys Hlen Hw Hok]; subst. cbn [to_dyn row_value].
  apply (HashExprs.keys_computes schema f _ tys); [|done]. clear Hwt Hok. revert tys Hlen Hw.
  induction l as [|x l IHl]; intros [|t tys] Hlen Hw; try done; cbn; constructor.
  - apply (IH x); [by left|]. by apply (Hw 0).
  - apply IHl; [intros y Hy; apply IH; by right|by injection Hlen|]. intros i y t' Hy Ht'. by apply (Hw (S i)).
Qed.

Lemma wt_computes n : ∀ e, size e < n → ∀ schema, sound schema e.
Proof.
  induction n as [|n IH]; intros e Hn schema ty Hwt; [lia|].
  assert (Hsub : ∀ schema x, size x < size e → sound schema x) by (intros s x Hx; apply IH; lia). clear IH.
  destruct e as [name i|s|l op r fo|x|x|x|x cty|x l neg sf|body m|f l]; [..|by apply case_computes|]; cbn [size] in *.
  - inversion Hwt; subst. by apply column_computes.
  - destruct (wt_literal_inv _ _ _ Hwt) as [<- ?]. by apply literal_computes.
  - inversion Hwt as [| |? ? ? ? tl tr ? Hl Hr Hres Hop| | | | | | |]; subst. cbn [row_value to_dyn].
    rewrite (wt_type _ _ _ Hl), (wt_type _ _ _ Hr). apply (Binary.binary_computes bit_value); try done; apply Hsub; (lia || done).
  - inversion Hwt; subst. apply not_computes, Hsub; [lia|done].
  - inversion Hwt; subst. eapply is_null_computes, Hsub; [lia|done].
  - inversion Hwt; subst. eapply is_not_null_computes, Hsub; [lia|done].
  - inversion Hwt as [| | | | | |? t ? Hx Hc| | |]; subst. cbn [row_value to_dyn]. rewrite (wt_type _ _ _ Hx).
    apply try_cast_computes; [apply Hsub; [lia|done]|done].
  - apply in_list_computes; [|done]. intros y [->|Hy]%elem_of_cons; apply Hsub; [lia|].
    apply (list_sum_elem size) in Hy. lia.
  - apply keys_expr_computes; [|done]. intros y Hy%(list_sum_elem size). apply Hsub. lia.
Qed.

End Rows.

End Exprs.
