(* ===== verification/CaseConstruct.v ===== *)
(** * Constructing CASE expressions (case.rs: [CaseExpr::try_new])

    The constructor chooses an evaluation method, may build a lookup table from
    the literals and rewrites the body, nested CASE expressions included, to the
    columns it uses.  Proved: on well-typed parts it returns, with the size of the
    parts as bound of the rewriting, and the expression it returns is well typed
    and has the value of the CASE; and the literals on which it panics. *)

From stdpp Require Import base list strings sets.
From Stdlib Require Import ZArith Lia.
From S2P Require Import Prelude Relation HashUtils Columnar Datum Scatter CaseExpr BinaryExpr InList HashExprs CaseMethods PhysicalExprs.

Module Construct.
Import Exprs.

Abbreviation DFixedSizeBinary := (DOther "FixedSizeBinary").

(** The branches of a CASE for which a lookup table is built without panic. *)
Definition branches_ok (l : list (PhysicalExpr * PhysicalExpr)) : Prop :=
  l ≠ [] ∧ (Z.of_nat (length l) < 2 ^ 32 - 1)%Z ∧
  ∀ w t s, (w, t) ∈ l → as_literal w = Some s → s_type s ≠ DFixedSizeBinary.

Definition node_ok (e : PhysicalExpr) : Prop :=
  match e with CaseExpr body _ => branches_ok (when_then_expr body) | _ => True end.

(** Trees of height at most [n] whose CASE nodes have such branches. *)
Inductive built : nat → PhysicalExpr → Prop :=
| built_node n e : node_ok e → (∀ c, c ∈ children e → built n c) → built (S n) e.

Section Total.
Context `{HA : Arrow}.

(** ** Lookup tables *)

Lemma first_occurrences_subset l seen p : p ∈ CaseMethods.first_occurrences l seen → p ∈ l.
Proof.
  revert seen. induction l as [|[w t] l IH]; intros seen; cbn; [done|].
  case_decide; [intros ?%IH; by right|]. intros [->|?%IH]%elem_of_cons; [by left|by right].
Qed.

Lemma first_occurrences_length l seen : length (CaseMethods.first_occurrences l seen) ≤ length l.
Proof.
  revert seen. induction l as [|[w t] l IH]; intros seen; cbn; [done|].
  case_decide; [specialize (IH seen)|specialize (IH (w :: seen)); cbn]; lia.
Qed.

Lemma lookup_table_total literals first :
  head literals = Some first → s_type first ≠ DFixedSizeBinary →
  is_Some (CaseMethods.try_creating_lookup_table literals).
Proof.
  intros Hhead Hty. unfold CaseMethods.try_creating_lookup_table. rewrite Hhead. cbn.
  repeat (case_match; [by eexists|]). case_match; [|by eexists].
  unfold CaseMethods.bytes_like_index_map, iter_to_array. destruct literals as [|s l]; [done|].
  injection Hhead as ->. destruct (forallb _ _); cbn [try_bind]; [|by eexists].
  destruct (decide (0 < null_count _)); [by eexists|].
  unfold CaseMethods.try_get_bytes_iterator. rewrite array_type_of.
  destruct (s_type first) as [| | | |name]; cbn [try_bind]; try by eexists.
  destruct (bool_decide (name ∈ _)); cbn [try_bind]; [by eexists|].
  rewrite (bool_decide_false (name = _)) by congruence. by eexists.
Qed.

Lemma maybe_new_total (body : CaseBody PhysicalExpr) :
  branches_ok (when_then_expr body) → is_Some (CaseMethods.maybe_new as_literal body).
Proof.
  intros (_ & Hlen & Hty). unfold CaseMethods.maybe_new. case_decide; [by eexists|].
  destruct (mapM _ _) as [literals|] eqn:Hlit; [|by eexists]. case_bool_decide as Hne; [by eexists|].
  set (kept := filter _ literals) in *.
  assert (Hsub : ∀ p, p ∈ CaseMethods.first_occurrences kept [] → s_type p.1 ≠ DFixedSizeBinary).
  { intros p Hp%first_occurrences_subset%list_elem_of_filter. destruct Hp as [_ Hp].
    apply mapM_Some in Hlit. apply list_elem_of_lookup in Hp as [i Hp].
    destruct (Forall2_lookup_r _ _ _ _ _ Hlit Hp) as ([w t] & Hin%list_elem_of_lookup_2 & Hwt).
    cbn in Hwt. destruct (as_literal w) as [s|] eqn:Hw; [|done]. destruct (as_literal t); [|done].
    injection Hwt as <-. by apply (Hty w t). }
  assert (Hshort : length (CaseMethods.first_occurrences kept []) ≤ length (when_then_expr body)).
  { etransitivity; [apply first_occurrences_length|]. etransitivity; [apply length_filter|].
    by rewrite (Forall2_length _ _ _ (proj1 (mapM_Some _ _ _) Hlit)). }
  destruct kept as [|[w t] kept]; [done|]. cbn [CaseMethods.first_occurrences] in *.
  rewrite decide_False in * by (by intros ?%elem_of_nil).
  cbn [map fst snd head mbind option_bind].
  destruct (match else_expr body with Some e => as_literal e | None => _ end) as [ev|]; [|by eexists].
  repeat (destruct (negb _); [by eexists|]). destruct (iter_to_array _) as [a|] eqn:Harr; [|by eexists].
  assert (0 < array_len a < length (when_then_expr body) + 2) as Ha.
  { unfold iter_to_array in Harr. cbn in Harr. case_match; [|done]. injection Harr as <-.
    rewrite array_len_of. cbn. rewrite !length_map, length_app, length_map. cbn in *. lia. }
  unfold CaseMethods.as_u32. rewrite Z.mod_small by lia. rewrite Nat2Z.id. unfold usize_sub.
  rewrite decide_True by lia. cbn [mbind option_bind].
  destruct (lookup_table_total (w :: map fst (CaseMethods.first_occurrences kept [w])) w) as [r Hr];
    [done|apply (Hsub (w, t)); by left|]. rewrite Hr. cbn [mbind option_bind]. destruct r; by eexists.
Qed.

(** ** Rewriting *)

Lemma try_map_total {A B} (f : A → option (Result B)) (R : A → B → Prop) l :
  (∀ x, x ∈ l → ∃ y, f x = Some (Ok y) ∧ R x y) → ∃ ys, try_map f l = Some (Ok ys) ∧ Forall2 R l ys.
Proof.
  induction l as [|x l IH]; intros Hl; [by exists []|].
  destruct (Hl x) as (y & Hy & Hr); [by left|]. destruct IH as (ys & Hys & Hrs); [intros z Hz; apply Hl; by right|].
  exists (y :: ys). cbn. rewrite Hy. cbn. rewrite Hys. cbn. by split; [|constructor].
Qed.

Lemma try_option_total {A B} (f : A → option (Result B)) o :
  (∀ x, o = Some x → ∃ y, f x = Some (Ok y)) → ∃ y, try_option f o = Some (Ok y).
Proof. intros Ho. destruct o as [x|]; [|by eexists]. destruct (Ho x) as [y Hy]; [done|]. exists (Some y). cbn. by rewrite Hy. Qed.

Lemma index_set_in l i : i ∈ l → i ∈ index_set l.
Proof.
  unfold index_set. assert (∀ acc, i ∈ acc ∨ i ∈ l →
    i ∈ foldl (λ set i, if decide (i ∈ set) then set else set ++ [i]) acc l) as Hgen; [|by intros ?; apply Hgen; right].
  induction l as [|x l IH]; intros acc; cbn; [by intros [?|?%elem_of_nil]|]. intros Hi. apply IH.
  case_decide; rewrite ?elem_of_app, ?list_elem_of_singleton, elem_of_cons in *; naive_solver.
Qed.

Lemma get_index_total set i : i ∈ set → is_Some (get_index_of set i).
Proof.
  induction set as [|j set IH]; cbn; [by intros ?%elem_of_nil|]. case_decide; [by eexists|].
  intros [->|Hi]%elem_of_cons; [done|]. destruct (IH Hi) as [k ->]. by eexists.
Qed.

Lemma case_children_parts {E} (b : CaseBody E) :
  (∀ e, expr b = Some e → e ∈ case_children b) ∧
  (∀ w t, (w, t) ∈ when_then_expr b → w ∈ case_children b ∧ t ∈ case_children b) ∧
  (∀ o, else_expr b = Some o → o ∈ case_children b).
Proof.
  destruct b as [e l o]. unfold case_children. cbn. split_and!.
  - intros ? ->. by left.
  - intros w t Hin.
    assert (∀ x, x ∈ [w; t] → x ∈ concat (map (λ p : E * E, [p.1; p.2]) l)) as Hc.
    { intros x Hx. apply list_elem_of_In, in_concat. exists [w; t]. split; [|by apply list_elem_of_In].
      apply in_map_iff. exists (w, t). split; [done|]. by apply list_elem_of_In. }
    rewrite !elem_of_app. split; right; left; apply Hc; [by left|right; by left].
  - intros ? ->. rewrite !elem_of_app. right; right. by left.
Qed.

Lemma concat_elem {A B} (f : A → list B) l x y : x ∈ l → y ∈ f x → y ∈ concat (map f l).
Proof.
  intros Hx Hy. apply list_elem_of_In, in_concat. exists (f x).
  split; [by apply in_map, list_elem_of_In|by apply list_elem_of_In].
Qed.

Lemma columns_child e c i : c ∈ children e → i ∈ columns_of c → i ∈ columns_of e.
Proof.
  intros Hc Hi. destruct e as [| |l op r fo| | | | |arg l neg sf|[e l o] m|f l]; cbn [children columns_of] in Hc |- *;
    try (by apply elem_of_nil in Hc); try (by apply list_elem_of_singleton in Hc as <-).
  - rewrite elem_of_app. apply elem_of_cons in Hc as [-> | ->%list_elem_of_singleton]; auto.
  - rewrite elem_of_app. apply elem_of_cons in Hc as [->|Hc]; [auto|]. right. by eapply concat_elem.
  - unfold case_children in Hc. cbn [expr when_then_expr else_expr] in Hc. rewrite !elem_of_app in Hc. rewrite !elem_of_app. destruct Hc as [Hc|[Hc|Hc]].
    + left. destruct e; cbn in Hc; [by apply list_elem_of_singleton in Hc as <-|by apply elem_of_nil in Hc].
    + right; left. apply list_elem_of_In, in_concat in Hc as (pl & ((w & t) & <- & Hp)%in_map_iff & Hpl%list_elem_of_In).
      apply list_elem_of_In, in_concat. exists (columns_of w ++ columns_of t). split.
      * apply in_map_iff. by exists (w, t).
      * apply list_elem_of_In, elem_of_app. cbn in Hpl. apply elem_of_cons in Hpl as [-> | ->%list_elem_of_singleton]; auto.
    + right; right. destruct o; cbn in Hc; [by apply list_elem_of_singleton in Hc as <-|by apply elem_of_nil in Hc].
  - by eapply concat_elem.
Qed.

(** Rewriters that return on a set of expressions. *)
Definition rewrites (rewrite : (nat → option nat) → PhysicalExpr → option (Result (PhysicalExpr * bool)))
    (c : PhysicalExpr) : Prop :=
  ∀ m, (∀ i, i ∈ columns_of c → is_Some (m i)) → ∃ t, rewrite m c = Some (Ok t).

Lemma project_total rewrite body :
  (∀ c, c ∈ case_children body → rewrites rewrite c) → ∃ p, CaseBody_project rewrite body = Some (Ok p).
Proof.
  intros Hr. unfold CaseBody_project. set (ix := index_set _).
  assert (Hone : ∀ c, c ∈ case_children body → ∃ y, (t ←? rewrite (get_index_of ix) c; Some (Ok t.1)) = Some (Ok y)).
  { intros c Hc. destruct (Hr c Hc (get_index_of ix)) as [t Ht]; [|exists t.1; by rewrite Ht].
    intros i Hi. by eapply get_index_total, index_set_in, concat_elem. }
  destruct (case_children_parts body) as (He & Hl & Ho).
  edestruct (try_option_total (λ e, t ←? rewrite (get_index_of ix) e; Some (Ok t.1)) (expr body)) as [e' ->]; [by eauto|].
  edestruct (try_option_total (λ e, t ←? rewrite (get_index_of ix) e; Some (Ok t.1)) (else_expr body)) as [o' Ho']; [by eauto|].
  edestruct (try_map_total (λ p : PhysicalExpr * PhysicalExpr,
    w ←? (t ←? rewrite (get_index_of ix) p.1; Some (Ok t.1)); t ←? (t ←? rewrite (get_index_of ix) p.2; Some (Ok t.1));
    Some (Ok (w, t))) (λ _ _, True) (when_then_expr body)) as (l' & Hl' & _).
  { intros [w t] [Hw Ht]%Hl. destruct (Hone w Hw) as [w' Hw'], (Hone t Ht) as [t' Ht']. exists (w', t').
    cbn [fst snd]. rewrite Hw'. cbn [try_bind]. by rewrite Ht'. }
  cbn [try_bind]. rewrite Hl'. cbn [try_bind]. rewrite Ho'. cbn [try_bind]. by eexists.
Qed.

Lemma method_total rewrite body :
  (∀ c, c ∈ case_children body → rewrites rewrite c) → branches_ok (when_then_expr body) →
  ∃ m, find_best_eval_method rewrite body = Some (Ok m).
Proof.
  intros Hr Hb. destruct (project_total rewrite body Hr) as [p Hp]. unfold find_best_eval_method.
  destruct (expr body).
  - destruct (maybe_new_total body Hb) as [[table|] ->]; cbn; [by eexists|]. rewrite Hp. by eexists.
  - rewrite Hp. cbn [try_bind]. repeat case_match; by eexists.
Qed.

Lemma normalized_children e l o c :
  c ∈ case_children (mkCaseBody e l (normalize_else o)) → c ∈ case_children (mkCaseBody e l o).
Proof.
  intros Hc. destruct (normalize_else o) as [x|] eqn:Ho; [by rewrite (normalize_else_Some _ _ Ho)|].
  unfold case_children in *. cbn [expr when_then_expr else_expr] in *. rewrite !elem_of_app in Hc. rewrite !elem_of_app.
  destruct Hc as [?|[?|[]%elem_of_nil]]; auto.
Qed.

Lemma try_new_total rewrite e l o :
  (∀ c, c ∈ case_children (mkCaseBody e l o) → rewrites rewrite c) → branches_ok l →
  ∃ m, find_best_eval_method rewrite (mkCaseBody e l (normalize_else o)) = Some (Ok m) ∧
       CaseExpr_try_new rewrite e l o = Some (Ok (CaseExpr (mkCaseBody e l (normalize_else o)) m)).
Proof.
  intros Hr Hb. destruct (method_total rewrite (mkCaseBody e l (normalize_else o))) as [m Hm]; [|done|].
  { intros c Hc. by apply Hr, normalized_children. }
  exists m. split; [done|]. unfold CaseExpr_try_new. rewrite decide_False by apply Hb. by rewrite Hm.
Qed.

(** A rewritten child. *)
Abbreviation rebuilt n := (λ c c', built n c' ∧ as_literal c' = as_literal c).

Lemma case_children_rel n b e l o c :
  body_rel (rebuilt n) b e l o → c ∈ case_children (mkCaseBody e l o) → built n c.
Proof.
  intros (He & Hl & Ho) Hc. unfold case_children in Hc. cbn [expr when_then_expr else_expr] in Hc.
  rewrite !elem_of_app in Hc. destruct Hc as [Hc|[Hc|Hc]].
  - destruct He as [x y Hxy|]; cbn in Hc; [|by apply elem_of_nil in Hc]. apply list_elem_of_singleton in Hc as ->. apply Hxy.
  - apply list_elem_of_In, in_concat in Hc as (pl & (q & <- & Hq%list_elem_of_In)%in_map_iff & Hpl%list_elem_of_In).
    apply list_elem_of_lookup in Hq as [i Hq].
    destruct (Forall2_lookup_r _ _ _ _ _ Hl Hq) as ([w t] & _ & [Hw _] & [Ht _]).
    by apply elem_of_cons in Hpl as [-> | ->%list_elem_of_singleton].
  - destruct Ho as [x y Hxy|]; cbn in Hc; [|by apply elem_of_nil in Hc]. apply list_elem_of_singleton in Hc as ->. apply Hxy.
Qed.

Lemma branches_rel n l l' :
  Forall2 (λ p q : PhysicalExpr * PhysicalExpr, rebuilt n p.1 q.1 ∧ rebuilt n p.2 q.2) l l' →
  branches_ok l → branches_ok l'.
Proof.
  intros Hl (Hne & Hlen & Hty). pose proof (Forall2_length _ _ _ Hl) as Heq. split_and!; [|by rewrite <- Heq|].
  - intros ->. by destruct l.
  - intros w' t' s Hin Hs. apply list_elem_of_lookup in Hin as [i Hi].
    destruct (Forall2_lookup_r _ _ _ _ _ Hl Hi) as ([w t] & Hwt%list_elem_of_lookup_2 & [_ Hw] & _).
    apply (Hty w t); [done|]. cbn in Hw. by rewrite <- Hw.
Qed.

(** A node rebuilt from rewritten children. *)
Lemma rebuild_total n e cs :
  (∀ c, built n c → rewrites (transform n) c) → node_ok e → is_cheap_and_infallible e = false →
  Forall2 (rebuilt n) (children e) cs →
  ∃ e', with_new_children (transform n) e cs = Some (Ok e') ∧ rebuilt (S n) e e'.
Proof.
  intros HT Hok Hcol Hcs.
  assert (Hbuilt : ∀ e', node_ok e' → children e' = cs → built (S n) e').
  { intros e' Hok' Hch'. constructor; [done|]. rewrite Hch'. intros c Hc. apply list_elem_of_lookup in Hc as [i Hc].
    by destruct (Forall2_lookup_r _ _ _ _ _ Hcs Hc) as (x & _ & ? & _). }
  destruct e as [| |l op r fo| | | | |arg l neg sf|body m|]; cbn [children] in Hcs; try done.
  8: { cbn [with_new_children]. rewrite decide_True by (by rewrite (Forall2_length _ _ _ Hcs)).
    destruct (split_children_rel _ _ _ Hcs) as (e' & l' & o' & -> & Hrel). cbn.
    assert (Hl' : branches_ok l') by (by eapply branches_rel; [apply Hrel|]).
    destruct (try_new_total (transform n) e' l' o') as (m' & _ & ->); [|done|].
    { intros c Hc. apply HT. by eapply case_children_rel. }
    eexists. split; [done|]. split; [|done]. constructor; [done|]. intros c Hc.
    eapply case_children_rel; [done|]. by apply normalized_children. }
  all: repeat match goal with
    | Hf : Forall2 _ (_ :: _) _ |- _ => apply Forall2_cons_inv_l in Hf as (? & ? & ? & ? & ->)
    | Hf : Forall2 _ [] _ |- _ => apply Forall2_nil_inv_l in Hf as ->
    end; cbn; eexists; (split; [done|]); (split; [|done]); apply Hbuilt; cbn; by rewrite ?drop_0.
Qed.

(** [transform] returns on trees of height at most its fuel. *)
Lemma transform_total n e m :
  built n e → (∀ i, i ∈ columns_of e → is_Some (m i)) →
  ∃ e' ch, transform n m e = Some (Ok (e', ch)) ∧ rebuilt n e e'.
Proof.
  revert e m. induction n as [|n IH]; intros e m He Hm; [by inversion He|]. inversion He as [? ? Hok Hch]; subst.
  destruct (is_cheap_and_infallible e) eqn:Hcol.
  { destruct e as [name i| | | | | | | | |]; try done. cbn. destruct (Hm i) as [j ->]; [by left|]. cbn.
    case_decide; eexists _, _; (split; [done|]); (split; [|done]); constructor; try done; by intros c ?%elem_of_nil. }
  destruct (try_map_total (transform n m) (λ c p, rebuilt n c p.1) (children e)) as (new & Hnew & Hrel).
  { intros c Hc. destruct (IH c m) as (e' & ch & Ht & Hr); [by apply Hch| |by exists (e', ch)].
    intros i Hi. by eapply Hm, columns_child. }
  destruct (rebuild_total n e (map fst new)) as (e' & Hwith & Hr); [|done..| |].
  { intros c Hc m' Hm'. destruct (IH c m' Hc Hm') as (e' & ch & Ht & _). by exists (e', ch). }
  { by apply Forall2_fmap_r. }
  assert (transform (S n) m e =
    if existsb snd new then Some (Ok (e', true)) else Some (Ok (e, false))) as ->.
  { destruct e; try done; cbn [transform]; rewrite Hnew; cbn [try_bind]; destruct (existsb _ _); try done; by rewrite Hwith. }
  destruct (existsb _ _); eexists _, _; (split; [done|]); done.
Qed.

Lemma transform_rewrites n c : built n c → rewrites (transform n) c.
Proof. intros Hc m Hm. destruct (transform_total n c m Hc Hm) as (e' & ch & Ht & _). by exists (e', ch). Qed.

End Total.
(** ** The value of the constructed expression *)

Section Value.
Context `{HA : Arrow, HT : ArrowText, HC : Coercions, HF : ArrowFilter, HH : Foldhash, HCells : ArrowCells}.
Variables (debug_assertions : bool) (h : Scatter.hidden) (at_null : value).
Variable (bit_value : Datum.Operator → value → value → value).
Context `{!ArrowOk, !ArrowFilterOk, !Binary.BitwiseOk bit_value}.

Abbreviation well_typed := (wt debug_assertions h at_null).
Abbreviation value_of := (row_value debug_assertions h at_null bit_value).

(** The parts of a CASE: a base expression compared with each WHEN, or conditions. *)
Definition parts_wt (schema : list DataType) (e : option PhysicalExpr) (l : list (PhysicalExpr * PhysicalExpr))
    (o : option PhysicalExpr) (wty ty : DataType) : Prop :=
  (∀ b, e = Some b → well_typed schema b wty) ∧ (e = None → wty = DBoolean) ∧
  (∀ w t, (w, t) ∈ l → well_typed schema w wty ∧ well_typed schema t ty) ∧
  (∀ x, o = Some x → well_typed schema x ty).

Lemma case_new_typed n schema e l o wty ty :
  (∀ c, c ∈ case_children (mkCaseBody e l o) → built n c) → branches_ok l → parts_wt schema e l o wty ty →
  ∃ m, CaseExpr_try_new (transform n) e l o = Some (Ok (CaseExpr (mkCaseBody e l (normalize_else o)) m)) ∧
    well_typed schema (CaseExpr (mkCaseBody e l (normalize_else o)) m) ty.
Proof.
  intros Hb Hl (He & Hwty & Hwt & Ho).
  destruct (try_new_total (transform n) e l o) as (m & Hm & Hnew); [|done|].
  { intros c Hc. by apply transform_rewrites, Hb. }
  exists m. split; [done|]. eapply (wt_case _ _ _ _ _ _ n wty); cbn; try done; [apply Hl..| | |].
  - intros w t Hin. by apply (Hwt w t).
  - intros w t Hin. by apply (Hwt w t).
  - intros x Hx. by apply Ho, normalize_else_Some.
Qed.

(** C14. [CaseExpr::try_new] on well-typed parts returns, rewriting with the height of the parts as fuel: it neither
    fails nor panics, if this CASE and those inside its parts have at least one and fewer than 2^32 - 1 branches and no
    FixedSizeBinary literal after WHEN.  The expression it returns has the type of the results and evaluates on every batch to the value of
    the CASE on each row, whichever evaluation method was chosen. *)
Theorem case_new_computes n schema e l o wty ty :
  (∀ c, c ∈ case_children (mkCaseBody e l o) → built n c) → branches_ok l → parts_wt schema e l o wty ty →
  ∃ c, CaseExpr_try_new (transform n) e l o = Some (Ok c) ∧ well_typed schema c ty ∧
    computes schema (to_dyn debug_assertions h at_null c) ty
      (case_body_row (value_of schema <$> e) (map (λ p, (value_of schema p.1, value_of schema p.2)) l)
         (value_of schema <$> o)).
Proof.
  intros Hb Hl Hp. destruct (case_new_typed n schema e l o wty ty Hb Hl Hp) as (m & Hnew & Hc).
  eexists. split; [done|]. split; [done|].
  eapply computes_ext; [|eapply (wt_computes _ _ _ bit_value); [apply Nat.lt_succ_diag_r|done]].
  intros r Hr. rewrite (normalize_else_row _ _ _ _ schema e l o m m r). cbn. f_equal.
  apply map_ext. by intros [w t].
Qed.

End Value.

(** ** Examples *)

Section Sample.
#[local] Existing Instances plain_filter plain_filter_ok HashUtils.sample_hash.

Definition no_hidden : Scatter.hidden :=
  {| Scatter.hidden_int := 0; Scatter.hidden_bool := false; Scatter.hidden_string := ""; Scatter.hidden_prefix := "" |}.

Definition lit64 (z : Z) : PhysicalExpr := Literal (mkScalar DInt64 (Some (VInt64 z))).

Definition constructed (e : option (Result PhysicalExpr)) : PhysicalExpr :=
  match e with Some (Ok e) => e | _ => Column "" 0 end.

(** CASE x WHEN 1 THEN 10 WHEN 2 THEN 20 END, which takes a lookup table. *)
Definition inner_case (x : nat) : PhysicalExpr :=
  constructed (CaseExpr_try_new (transform 1) (Some (Column "x" x)) [(lit64 1, lit64 10); (lit64 2, lit64 20)] None).

(** Columns s (text) and x. *)
Definition sample_schema : list DataType := [DUtf8; DInt64].

Definition sample_batch (l : list (option Z)) : RecordBatch :=
  {| columns := [StringArray (replicate (length l) None); Int64Array l]; num_rows := length l |}.

Definition x_above_5 : PhysicalExpr := BinaryExpr (Column "x" 1) Datum.Gt (lit64 5) false.

Abbreviation sample_wt := (wt (HF := plain_filter) (HH := HashUtils.sample_hash) false no_hidden (VInt64 0)).

Lemma lit64_wt z : sample_wt sample_schema (lit64 z) DInt64.
Proof. by apply (wt_literal _ _ _ sample_schema (mkScalar DInt64 (Some (VInt64 z)))). Qed.

Lemma x_wt : sample_wt sample_schema (Column "x" 1) DInt64.
Proof. by apply wt_column. Qed.

Lemma x_above_5_wt : sample_wt sample_schema x_above_5 DBoolean.
Proof. eapply wt_binary; [apply x_wt|apply lit64_wt|by vm_compute..]. Qed.

Lemma inner_case_wt : sample_wt sample_schema (inner_case 1) DInt64.
Proof.
  eapply (wt_case _ _ _ _ _ _ 1 DInt64); try done.
  - intros b [= <-]. apply x_wt.
  - intros w t [[= -> ->]|[= -> ->]%list_elem_of_singleton]%elem_of_cons; apply lit64_wt.
  - intros w t [[= -> ->]|[= -> ->]%list_elem_of_singleton]%elem_of_cons; apply lit64_wt.
Qed.

Lemma leaf_built n e : node_ok e → children e = [] → built (S n) e.
Proof. intros Hok He. constructor; [done|]. rewrite He. by intros c ?%elem_of_nil. Qed.

Lemma lit64_branches a b c d : branches_ok [(lit64 a, lit64 b); (lit64 c, lit64 d)].
Proof. split_and!; [done..|]. by intros w t s [[= -> ->]|[= -> ->]%list_elem_of_singleton]%elem_of_cons [= <-]. Qed.

Lemma case_new_computes_witness :
  ∃ c, CaseExpr_try_new (transform 2) None [(x_above_5, Column "x" 1)] (Some (inner_case 1)) = Some (Ok c) ∧
    sample_wt sample_schema c DInt64 ∧
    evaluate (to_dyn (H2 := plain_filter) (H3 := HashUtils.sample_hash) false no_hidden (VInt64 0) c)
      (sample_batch [Some 7; Some 1; Some 3; None; Some 2]%Z)
    = Some (Ok (Array (Int64Array [Some 7; Some 10; None; None; Some 20]%Z))).
Proof.
  destruct (case_new_computes false no_hidden (VInt64 0) Binary.plain_bit 2 sample_schema None
    [(x_above_5, Column "x" 1)] (Some (inner_case 1)) DBoolean DInt64) as (c & Hc & Hwt & _).
  - intros c Hc. unfold case_children in Hc. cbn [expr when_then_expr else_expr option_list map concat app] in Hc.
    repeat (apply elem_of_cons in Hc as [-> |Hc]); [| | |by apply elem_of_nil in Hc].
    + constructor; [done|]. intros c Hc. cbn in Hc. repeat (apply elem_of_cons in Hc as [-> |Hc]); [by apply leaf_built..|].
      by apply elem_of_nil in Hc.
    + by apply leaf_built.
    + constructor; [apply lit64_branches|]. intros c Hc. vm_compute in Hc.
      repeat (apply elem_of_cons in Hc as [-> |Hc]); [by apply leaf_built..|]. by apply elem_of_nil in Hc.
  - split_and!; [done..|]. by intros w t s [= -> ->]%list_elem_of_singleton.
  - split_and!; [done..| |].
    + intros w t [= -> ->]%list_elem_of_singleton. split; [apply x_above_5_wt|apply x_wt].
    + intros x [= <-]. apply inner_case_wt.
  - exists c. split; [done|]. split; [done|]. vm_compute in Hc. injection Hc as <-. by vm_compute.
Defined.

(** C36. A CASE with two or more literal WHEN values of type FixedSizeBinary and integer results cannot be constructed:
    building the lookup table downcasts the fixed-size array to a variable-size one, which panics, although the result
    types are checked and every other unsupported type falls back to the loop over branches. *)
Theorem fixed_size_binary_case_panics rewrite e a b t u :
  let bytes z := Literal (mkScalar DFixedSizeBinary (Some (VOther "FixedSizeBinary" z))) in
  CaseExpr_try_new rewrite (Some e) [(bytes a, lit64 t); (bytes b, lit64 u)] None = None.
Proof.
  cbn zeta. unfold CaseExpr_try_new. rewrite decide_False by done. unfold find_best_eval_method. cbn [expr].
  assert (CaseMethods.maybe_new as_literal (mkCaseBody (Some e)
    [(Literal (mkScalar DFixedSizeBinary (Some (VOther "FixedSizeBinary" a))), lit64 t);
     (Literal (mkScalar DFixedSizeBinary (Some (VOther "FixedSizeBinary" b))), lit64 u)] (normalize_else None)) = None) as ->;
    [|done].
  unfold CaseMethods.maybe_new. cbn. rewrite decide_False, !(decide_True (P := false = false)) by (done || lia).
  rewrite bool_decide_false by done. cbn. rewrite decide_False by (by intros ?%elem_of_nil). cbn.
  case_decide; vm_compute; done.
Qed.

End Sample.

End Construct.
