(* ===== verification/ExprEvaluation.v ===== *)
(** * Evaluating expressions: the properties

    What [PhysicalExpr::evaluate] and [evaluate_selection] return for well-typed
    expressions, the short circuits of AND and OR, IN lists, and the places where
    construction or evaluation departs from the row-by-row meaning. *)

From stdpp Require Import base list strings sets.
From Stdlib Require Import ZArith Lia.
From S2P Require Import Prelude Relation HashUtils Columnar Datum Scatter CaseExpr BinaryExpr InList HashExprs CaseMethods PhysicalExprs CaseConstruct.

Module Evaluate.
Import Exprs.

(** ** Evaluation on selected rows (physical-expr-common/src/physical_expr.rs) *)

Section Selection.
Context `{HA : Arrow, HF : ArrowFilter}.
Variable h : Scatter.hidden.

Definition evaluate_selection (e : dyn) (batch : RecordBatch) (selected : bools) : option (Result ColumnarValue) :=
  let row_count := num_rows batch in
  if negb (bool_decide (row_count = length selected))
  then Some (Err (Execution "Selection array length does not match batch row count"))
  else
    let selection_count := true_count selected in
    if decide (selection_count = row_count) then evaluate e batch
    else
      filtered_result ←?
        (if decide (selection_count = 0) then
           datatype ←? Some (data_type e (schema_of batch));
           Some (Ok (Array (array_of datatype [])))
         else
           filtered_batch ←? Some (arrow_result (filter_record_batch batch (selection selected)));
           evaluate e filtered_batch);
      match filtered_result with
      | Array a => a ←? Scatter.scatter h selected a; Some (Ok (Array a))
      | Scalar s =>
          if decide (s_type s = DBoolean) then
            match s_value s with
            | Some v =>
                if value_bool v then Some (Ok (Array (BooleanArray selected))) else Some (Ok filtered_result)
            | None =>
                a ←? Scatter.scatter h selected (BooleanArray (replicate row_count None)); Some (Ok (Array a))
            end
          else Some (Ok filtered_result)
      end.

Context `{!ArrowCells, !ArrowOk, !ArrowFilterOk}.

(** The [k]-th selected row is the [i]-th row of the batch. *)
Lemma spread_selected {A} (sel : list bool) (l : list A) d i x :
  sel !! i = Some true → l !! i = Some x → Scatter.spread_mask sel (mask_list sel l) d !! i = Some x.
Proof.
  revert l i. induction sel as [|b sel IH]; intros [|y l] [|i]; cbn; try done.
  - intros [= ->] [= ->]. done.
  - intros Hs Hl. destruct b; cbn; by apply IH.
Qed.

Lemma scattered_fits m a n :
  length m = n → fits n (array_type a) (Array (Scatter.scattered (selection m) a)).
Proof.
  intros Hm. split; cbn; [by unfold Scatter.scattered; rewrite array_type_of|].
  by rewrite <- length_cells, Scatter.cells_scattered, Scatter.length_spread_mask, selection_length.
Qed.

Lemma selected_true m i : m !! i = Some (Some true) → selection m !! i = Some true.
Proof. intros Hi. unfold selection. change (map truthy m) with (truthy <$> m). by rewrite list_lookup_fmap, Hi. Qed.

Lemma mask_selected_elem {A} (sel : list bool) (l : list A) i x :
  sel !! i = Some true → l !! i = Some x → x ∈ mask_list sel l.
Proof.
  revert l i. induction sel as [|b sel IH]; intros [|y l] [|i]; cbn; try done.
  - intros [= ->] [= ->]. by left.
  - intros Hi Hx. destruct b; [right|]; by eapply IH.
Qed.

Lemma no_selected m i : true_count m = 0 → m !! i = Some (Some true) → False.
Proof.
  unfold true_count. intros Hm%nil_length_inv Hi. apply list_elem_of_lookup_2 in Hi.
  assert (Some true ∈ filter (λ c, c = Some true) m) as Hin by (by apply list_elem_of_filter).
  rewrite Hm in Hin. by apply elem_of_nil in Hin.
Qed.

(** What a filtered batch evaluates to, back at the rows of the batch. *)
Lemma filtered_rows schema d ty f b m F :
  computes schema d ty f → batch_wf b → schema_of b = schema → (Z.of_nat (num_rows b) < 2 ^ 32)%Z →
  length m = num_rows b → 0 < true_count m →
  (∀ i, m !! i = Some (Some true) → f (row_at b i) = Some (F i)) →
  ∃ v, evaluate d (mask_batch (selection m) b) = Some (Ok v) ∧ fits (true_count m) ty v ∧
    spread (true_count m) v = mask_list (selection m) (tab (num_rows b) F).
Proof.
  intros [_ Hc] Hwf Hs Hu Hm Hpos Hsel.
  assert (num_rows (mask_batch (selection m) b) = true_count m) as Hn
    by (cbn; apply mask_selection_length; by rewrite length_rows).
  assert (true_count m ≤ length m) by apply length_filter.
  rewrite <- Hn. apply Hc.
  - by apply mask_batch_wf.
  - by rewrite schema_of_mask.
  - lia.
  - lia.
  - rewrite rows_mask by done. unfold rows, tab. rewrite !mask_list_map, mapM_map.
    apply mapM_total. intros i Hi. apply Hsel.
    assert (∀ from m, i ∈ mask_list (selection m) (seq from (length m)) → from ≤ i ∧ m !! (i - from) = Some (Some true)) as Hin.
    { clear. intros from m. revert from. induction m as [|c m IH]; intros from; cbn; [by intros ?%elem_of_nil|].
      assert (Htail : i ∈ mask_list (selection m) (seq (S from) (length m)) → from ≤ i ∧ (c :: m) !! (i - from) = Some (Some true)).
      { intros [? Hi]%IH. split; [lia|]. by replace (i - from) with (S (i - S from)) by lia. }
      destruct c as [[]|]; cbn; [|exact Htail..]. intros [->|Hi]%elem_of_cons; [|by apply Htail].
      split; [lia|]. by rewrite Nat.sub_diag. }
    rewrite <- Hm in Hi. apply Hin in Hi as [_ Hi]. by rewrite Nat.sub_0_r in Hi.
Qed.

(** A scalar for the selected rows. *)
Lemma scalar_selection s m n ty :
  fits (true_count m) ty (Scalar s) → length m = n → true_count m ≤ n → true_count m ≠ n →
  ∃ v, (if decide (s_type s = DBoolean) then
          match s_value s with
          | Some v => if value_bool v then Some (Ok (Array (BooleanArray m))) else Some (Ok (Scalar s))
          | None => a ←? Scatter.scatter h m (BooleanArray (replicate n None)); Some (Ok (Array a))
          end
        else Some (Ok (Scalar s))) = Some (Ok v) ∧ fits n ty v ∧
    ∀ i, m !! i = Some (Some true) → spread n v !! i = Some (s_value s).
Proof.
  intros [Hty Hv] Hm Hle Hne. cbn in Hty, Hv.
  assert (Hsame : ∃ v, Some (Ok (Scalar s)) = Some (Ok v) ∧ fits n ty v ∧
    ∀ i, m !! i = Some (Some true) → spread n v !! i = Some (s_value s)).
  { eexists. split; [done|]. split; [by split|]. intros i Hi. cbn. apply lookup_replicate_2. rewrite <- Hm. by eapply lookup_lt_Some. }
  case_decide as Hb; [|done]. destruct (s_value s) as [v|] eqn:Hsv.
  - destruct (value_bool v) eqn:Hvb; [|done]. eexists. split; [done|]. split; [rewrite <- Hty, Hb; by apply fits_bools|].
    intros i Hi. cbn. change (map ?g m) with (g <$> m). rewrite list_lookup_fmap, Hi. destruct v; cbn in *; congruence.
  - rewrite Scatter.scatter_le_ok by (cbn; rewrite length_replicate; lia). cbn [try_bind]. eexists. split; [done|].
    split; [rewrite <- Hty, Hb; by apply (scattered_fits m (BooleanArray _))|]. intros i Hi. cbn [spread].
    rewrite Scatter.cells_scattered. cbn [cells].
    change (map ?g (replicate ?k ?c)) with (g <$> replicate k c). rewrite fmap_replicate. cbn.
    rewrite Scatter.spread_mask_same. apply lookup_replicate_2. rewrite selection_length. by eapply lookup_lt_Some.
Qed.

Lemma evaluate_selection_ok schema d ty f b m F :
  computes schema d ty f → batch_wf b → schema_of b = schema → 0 < num_rows b → (Z.of_nat (num_rows b) < 2 ^ 32)%Z →
  length m = num_rows b → (∀ i, m !! i = Some (Some true) → f (row_at b i) = Some (F i)) →
  ∃ v, evaluate_selection d b m = Some (Ok v) ∧ fits (num_rows b) ty v ∧
    ∀ i, m !! i = Some (Some true) → spread (num_rows b) v !! i = Some (F i).
Proof.
  intros Hc Hwf Hs Hn Hu Hm Hsel. unfold evaluate_selection. rewrite bool_decide_true by done. cbn [negb].
  assert (Hlt : ∀ i, m !! i = Some (Some true) → i < num_rows b) by (intros i Hi; rewrite <- Hm; by eapply lookup_lt_Some).
  case_decide as Hall.
  { destruct (proj2 Hc b (tab (num_rows b) F)) as (v & Hev & Hv & Hsp); [done..| |].
    - unfold rows, tab. rewrite mapM_map. apply mapM_total. intros i Hi%elem_of_seq. apply Hsel.
      rewrite (Binary.all_true m) by congruence. apply lookup_replicate_2. lia.
    - exists v. split_and!; [done..|]. intros i Hi. rewrite Hsp. apply lookup_tab. by apply Hlt. }
  case_decide as Hzero.
  { rewrite Hs, (proj1 Hc). cbn [try_bind]. rewrite Scatter.scatter_le_ok by (rewrite ?array_len_of; cbn; lia).
    cbn [try_bind]. eexists. split; [done|]. split.
    - rewrite <- (array_type_of ty []) at 1. by apply scattered_fits.
    - intros i Hi. by destruct (no_selected m i). }
  rewrite filter_record_batch_ok by (rewrite ?selection_length; done). cbn [arrow_result try_bind].
  destruct (filtered_rows schema d ty f b m F) as (v & -> & Hv & Hsp); [done..|lia|done|]. cbn [try_bind].
  assert (Hat : ∀ i, m !! i = Some (Some true) →
    Scatter.spread_mask (selection m) (mask_list (selection m) (tab (num_rows b) F)) None !! i = Some (F i)).
  { intros i Hi. apply spread_selected; [by apply selected_true|]. by apply lookup_tab, Hlt. }
  assert (true_count m ≤ length m) by apply length_filter. destruct v as [a|s].
  - destruct Hv as [Hty Ha]. cbn in Hty, Ha, Hsp. rewrite Scatter.scatter_ok by done. cbn [try_bind]. eexists. split; [done|].
    subst ty. split; [by apply scattered_fits|]. intros i Hi. cbn. rewrite Scatter.cells_scattered, Hsp. by apply Hat.
  - assert (HFs : ∀ i, m !! i = Some (Some true) → F i = s_value s).
    { intros i Hi. assert (F i ∈ mask_list (selection m) (tab (num_rows b) F)) as Hin.
      { apply (mask_selected_elem _ _ i); [by apply selected_true|]. by apply lookup_tab, Hlt. }
      rewrite <- Hsp in Hin. cbn in Hin. by apply elem_of_replicate in Hin as [-> _]. }
    destruct (scalar_selection s m (num_rows b) ty) as (w & Hw & Hwf' & Hwat); [done..|lia|lia|].
    exists w. split_and!; [done..|]. intros i Hi. rewrite (HFs i Hi). by apply Hwat.
Qed.

End Selection.

(** ** Properties *)

Section Values.
Context `{HA : Arrow, HT : ArrowText, HC : Coercions, HF : ArrowFilter, HH : Foldhash, HCells : ArrowCells}.
Variables (debug_assertions : bool) (h : Scatter.hidden) (at_null : value).
Variable (bit_value : Datum.Operator → value → value → value).
Context `{!ArrowOk, !ArrowFilterOk, !Binary.BitwiseOk bit_value}.

Abbreviation dyn_of := (to_dyn debug_assertions h at_null).
Abbreviation well_typed := (wt debug_assertions h at_null).
Abbreviation value_of := (row_value debug_assertions h at_null bit_value).

Lemma well_typed_computes schema e ty : well_typed schema e ty → computes schema (dyn_of e) ty (value_of schema e).
Proof. intros Hwt. eapply (wt_computes _ _ _ bit_value); [apply Nat.lt_succ_diag_r|done]. Qed.

(** C12. A well-typed expression on a non-empty batch of fewer than 2^32 rows, each of which has a value, evaluates without
    error or panic to a columnar value of its type whose cells are the values of the rows. *)
Theorem evaluate_rows schema e ty b vs :
  well_typed schema e ty → batch_wf b → schema_of b = schema →
  0 < num_rows b → (Z.of_nat (num_rows b) < 2 ^ 32)%Z → mapM (value_of schema e) (rows b) = Some vs →
  ∃ v, evaluate (dyn_of e) b = Some (Ok v) ∧ fits (num_rows b) ty v ∧ spread (num_rows b) v = vs.
Proof. intros Hwt. apply (proj2 (well_typed_computes schema e ty Hwt)). Qed.

(** C16. [evaluate_selection] of a well-typed expression returns a value of its type for the whole batch, and every
    selected row gets its value; rows that are not selected need not have one, and a null in the selection does not
    select. *)
Theorem evaluate_selection_rows schema e ty b selected F :
  well_typed schema e ty → batch_wf b → schema_of b = schema →
  0 < num_rows b → (Z.of_nat (num_rows b) < 2 ^ 32)%Z → length selected = num_rows b →
  (∀ i, selected !! i = Some (Some true) → value_of schema e (row_at b i) = Some (F i)) →
  ∃ v, evaluate_selection h (dyn_of e) b selected = Some (Ok v) ∧ fits (num_rows b) ty v ∧
    ∀ i, selected !! i = Some (Some true) → spread (num_rows b) v !! i = Some (F i).
Proof. intros Hwt. apply (evaluate_selection_ok h schema (dyn_of e) ty (value_of schema e)). by apply well_typed_computes. Qed.

(** *** IN lists *)

(** A row of nulls, on which constants have their value. *)
Definition null_batch (schema : list DataType) : RecordBatch :=
  {| columns := map (λ ty, array_of ty [None]) schema; num_rows := 1 |}.

(** A list item: a column, or a constant that has a value. *)
Definition plain_item (schema : list DataType) (ty : DataType) (x : PhysicalExpr) : Prop :=
  well_typed schema x ty ∧
  match x with
  | Column _ _ => True
  | _ => constant x = true ∧ is_Some (mapM (value_of schema x) (rows (null_batch schema)))
  end.

Lemma null_batch_wf schema : batch_wf (null_batch schema) ∧ schema_of (null_batch schema) = schema.
Proof.
  split.
  - unfold batch_wf. apply Forall_fmap, Forall_true. intros ty. apply array_len_of.
  - unfold schema_of. cbn. rewrite map_map. rewrite <- (map_id schema) at 2. apply map_ext. intros ty. apply array_type_of.
Qed.

(** On an empty batch an item has a value of its type, a scalar only if it is constant. *)
Lemma item_on_empty schema ty x :
  plain_item schema ty x →
  ∃ v, evaluate (dyn_of x) (new_empty_batch schema) = Some (Ok v) ∧ columnar_type v = ty ∧
    match v with Scalar _ => constant x = true | Array _ => True end.
Proof.
  intros [Hwt Hx]. destruct x as [name i| | | | | | | | |].
  { inversion Hwt as [? ? ? Hi| | | | | | | | |]; subst. exists (Array (array_of ty [])). cbn. unfold bounds_check, new_empty_batch.
    cbn. rewrite length_map, decide_True by (by eapply lookup_lt_Some). change (map ?f schema) with (f <$> schema).
    rewrite list_lookup_fmap, Hi. cbn. by rewrite array_type_of. }
  all: destruct Hx as [Hc [vs Hvs]]; destruct (null_batch_wf schema) as [Hwf Hs];
    destruct (proj2 (well_typed_computes _ _ _ Hwt) (null_batch schema) vs Hwf Hs ltac:(cbn; lia) ltac:(done) Hvs) as (v & Hv & [Hty _] & _);
    exists v; (split; [by rewrite <- Hv; apply constant_evaluate|]); by destruct v.
Qed.

Lemma items_on_empty schema ty l :
  (∀ x, x ∈ l → plain_item schema ty x) →
  ∃ r, InList.evaluate_scalars (map dyn_of l) (new_empty_batch schema) = Some r ∧
    ∀ ss, r = Ok ss → forallb constant l = true ∧ Forall (λ s, s_type s = ty) ss ∧ length ss = length l.
Proof.
  induction l as [|x l IH]; intros Hl; cbn; [eexists; split; [done|]; by intros ss [= <-]|].
  destruct (item_on_empty schema ty x) as (v & -> & Hty & Hv); [apply Hl; by left|]. cbn.
  destruct v as [a|s]; [by eexists|]. destruct IH as (r & -> & Hr); [intros y Hy; apply Hl; by right|].
  destruct r as [ss|]; cbn; [|by eexists]. destruct (Hr ss eq_refl) as (Hc & Hst & Hlen).
  eexists. split; [done|]. intros ss' [= <-]. split_and!; [by rewrite Hv, Hc|by constructor|cbn; by rewrite Hlen].
Qed.

Lemma check_types_ok schema ty l :
  (∀ x, x ∈ l → well_typed schema x ty) → InList.check_types ty (map dyn_of l) schema = Ok ().
Proof.
  induction l as [|x l IH]; intros Hl; cbn; [done|]. rewrite (wt_type _ _ _ schema x ty) by (apply Hl; by left). cbn.
  assert (InList.datatype_is_logically_equal ty ty = true) as -> by (destruct ty; cbn; repeat case_match; by rewrite ?bool_decide_true).
  apply IH. intros y Hy. apply Hl. by right.
Qed.

(** C15. [InListExpr::try_new] over columns and constants returns, and the expression, with a static filter when all items
    are constants and comparing item by item otherwise, evaluates on every batch to SQL's three-valued IN: true if an item
    equals the value, otherwise null if the value or an item is null, otherwise false; NOT IN negates it. *)
Theorem in_list_new_computes schema e l negated ty :
  well_typed schema e ty → InList.flat_type ty → (∀ x, x ∈ l → plain_item schema ty x) →
  ∃ sf, InList.try_new (dyn_of e) (map dyn_of l) schema = Some (Ok sf) ∧
    (sf ≠ None → forallb constant l = true) ∧
    computes schema (dyn_of (InListExpr e l negated sf)) DBoolean
      (InList.in_list_row negated (value_of schema e) (map (value_of schema) l)).
Proof.
  intros He Hflat Hl.
  assert (Hwl : ∀ x, x ∈ l → well_typed schema x ty) by (intros x Hx; by apply Hl).
  assert (Hnone : computes schema (dyn_of (InListExpr e l negated None)) DBoolean
    (InList.in_list_row negated (value_of schema e) (map (value_of schema) l))).
  { apply (well_typed_computes schema (InListExpr e l negated None) DBoolean). by eapply wt_in_list. }
  unfold InList.try_new. rewrite (wt_type _ _ _ _ _ _ He). cbn [try_bind]. rewrite check_types_ok by done. cbn [try_bind].
  destruct (items_on_empty schema ty l Hl) as (r & Hr & Hitems).
  unfold InList.try_evaluate_constant_list, InList.evaluate_list. rewrite Hr. destruct r as [ss|]; cbn; [|by exists None].
  destruct (iter_to_array ss) as [a|] eqn:Ha; cbn; [|by exists None].
  destruct (Hitems ss eq_refl) as (Hc & Hst & Hlen).
  assert (array_type a = ty ∧ ss ≠ []) as [Hty Hne].
  { unfold iter_to_array in Ha. destruct ss as [|s ss]; [done|]. apply Forall_cons in Hst as [<- _]. case_match; [|done].
    injection Ha as <-. by rewrite array_type_of. }
  destruct (InList.instantiate_total a) as [f Hf]; [by rewrite Hty|]. rewrite Hf. cbn. exists (Some f). split_and!; [done..|].
  apply (well_typed_computes schema (InListExpr e l negated (Some f)) DBoolean). eapply wt_in_list; [done..|].
  intros f' [= <-]. split_and!; [by intros ->; destruct ss|done..|]. exists (new_empty_batch schema), a. split; [|done].
  unfold InList.evaluate_list. rewrite Hr. cbn. by rewrite Ha.
Qed.

End Values.

(** ** Examples *)

Section Examples.
Import Construct.
#[local] Existing Instances plain_filter plain_filter_ok HashUtils.sample_hash.

Abbreviation sample_dyn := (to_dyn false no_hidden (VInt64 0)).
Abbreviation sample_value := (row_value false no_hidden (VInt64 0) Binary.plain_bit).

(** x > 5 OR CASE x WHEN 1 THEN 10 WHEN 2 THEN 20 END IS NULL *)
Definition sample_condition : PhysicalExpr := BinaryExpr x_above_5 Datum.Or (IsNullExpr (inner_case 1)) false.

Lemma evaluate_rows_witness :
  ∃ v, evaluate (sample_dyn sample_condition) (sample_batch [Some 7; Some 1; Some 3; None; Some 2]%Z) = Some (Ok v) ∧
    fits 5 DBoolean v ∧ spread 5 v = map bool_cell [Some true; Some false; Some true; Some true; Some false].
Proof.
  apply (evaluate_rows false no_hidden (VInt64 0) Binary.plain_bit sample_schema sample_condition DBoolean
    (sample_batch [Some 7; Some 1; Some 3; None; Some 2]%Z)); [|by repeat constructor|done|cbn; lia|done|by vm_compute].
  eapply wt_binary; [apply x_above_5_wt|eapply wt_is_null, inner_case_wt|by vm_compute..].
Defined.

(** 10 / x, where x may be 0 in rows that are not selected. *)
Definition ten_over_x : PhysicalExpr := BinaryExpr (lit64 10) Datum.Divide (Column "x" 1) false.

Lemma evaluate_selection_rows_witness :
  ∃ v, evaluate_selection no_hidden (sample_dyn ten_over_x) (sample_batch [Some 5; Some 0; Some 2]%Z)
         [Some true; None; Some true] = Some (Ok v) ∧
    fits 3 DInt64 v ∧
    ∀ i, [Some true; None; Some true] !! i = Some (Some true) →
      spread 3 v !! i = Some (default None ([Some (VInt64 2); None; Some (VInt64 5)] !! i)).
Proof.
  apply (evaluate_selection_rows false no_hidden (VInt64 0) Binary.plain_bit sample_schema ten_over_x DInt64
    (sample_batch [Some 5; Some 0; Some 2]%Z) [Some true; None; Some true]
    (λ i, default None ([Some (VInt64 2); None; Some (VInt64 5)] !! i))); [|by repeat constructor|done|cbn; lia|done..|].
  - eapply wt_binary; [apply lit64_wt|apply x_wt|by vm_compute..].
  - intros [|[|[|i]]] [=]; by vm_compute.
Defined.

Definition null64 : PhysicalExpr := Literal (mkScalar DInt64 None).

Lemma in_list_new_computes_witness :
  ∃ sf, InList.try_new (sample_dyn (Column "x" 1)) (map sample_dyn [lit64 1; null64]) sample_schema = Some (Ok sf) ∧
    (sf ≠ None → forallb constant [lit64 1; null64] = true) ∧
    computes sample_schema (sample_dyn (InListExpr (Column "x" 1) [lit64 1; null64] true sf)) DBoolean
      (InList.in_list_row true (sample_value sample_schema (Column "x" 1)) (map (sample_value sample_schema) [lit64 1; null64])).
Proof.
  apply (in_list_new_computes false no_hidden (VInt64 0) Binary.plain_bit sample_schema (Column "x" 1) [lit64 1; null64] true DInt64).
  - apply x_wt.
  - by vm_compute.
  - intros x [-> | ->%list_elem_of_singleton]%elem_of_cons; (split; [|split; [done|by eexists]]).
    + apply lit64_wt.
    + by apply (wt_literal _ _ _ sample_schema (mkScalar DInt64 None)).
Defined.

(** CASE WHEN x > 5 THEN 7 END, which returns the scalar 7 on a batch without rows. *)
Definition seven_above_5 : PhysicalExpr := constructed (CaseExpr_try_new (transform 2) None [(x_above_5, lit64 7)] None).

(** C35. An IN list may contain a CASE whose value depends on the row.  Such an item is taken for a constant when it
    evaluates to a scalar on a batch without rows, as the CASE with one branch does: it returns its THEN value.  So in
    x + 4 IN (0, CASE WHEN x > 5 THEN 7 END) the list becomes the set of 0 and 7, and the row x = 3 is reported to be
    in the list, though the CASE is null there and the answer is null. *)
Theorem in_list_case_item_wrong :
  let value := BinaryExpr (Column "x" 1) Datum.Plus (lit64 4) false in
  let items := [lit64 0; seven_above_5] in
  ∃ f, InList.try_new (sample_dyn value) (map sample_dyn items) sample_schema = Some (Ok (Some f)) ∧
    evaluate (sample_dyn (InListExpr value items false (Some f))) (sample_batch [Some 3%Z])
      = Some (Ok (Array (BooleanArray [Some true]))) ∧
    sample_value sample_schema (InListExpr value items false None) [None; Some (VInt64 3)] = Some None ∧
    evaluate (sample_dyn (InListExpr value items false None)) (sample_batch [Some 3%Z])
      = Some (Ok (Array (BooleanArray [None]))).
Proof. eexists. split; [by vm_compute|]. by vm_compute. Qed.

End Examples.

End Evaluate.
