(* ===== verification/Streams.v ===== *)
(** * Record batch streams

    What polling a [SendableRecordBatchStream] returns over time: a trace of items,
    errors and pending polls, after which every poll reports the end.  An operator
    turns the trace of its input into the trace it produces itself. *)

From stdpp Require Import base list strings.
From Stdlib Require Import Lia.
From S2P Require Import Prelude.

(** A poll of a stream that has not ended. *)
Inductive Poll (A : Type) :=
| Pending
| Item (r : Result A).
Arguments Pending {A}.
Arguments Item {A}.

Abbreviation trace A := (list (Poll A)).

Module Streams.

(** [poll_next] of a stream given by its trace: [None] is the end. *)
Definition poll_input {A} (t : trace A) : option (Poll A) * trace A :=
  match t with [] => (None, []) | p :: t => (Some p, t) end.

Definition poll_ok {A} (p : Poll A) : list A := match p with Item (Ok x) => [x] | _ => [] end.
Definition poll_error {A} (p : Poll A) : list DataFusionError := match p with Item (Err e) => [e] | _ => [] end.

(** The batches and the errors of a trace, in order. *)
Definition oks {A} (t : trace A) : list A := concat (map poll_ok t).
Definition errors {A} (t : trace A) : list DataFusionError := concat (map poll_error t).

(** Polling an operator until it reports the end. *)
Fixpoint drive {S B} (poll_next : S → option (option (Poll B) * S)) (fuel : nat) (s : S) : option (trace B * S) :=
  match fuel with
  | 0 => None
  | S fuel =>
      r ← poll_next s;
      match r with
      | (None, s) => Some ([], s)
      | (Some p, s) => r ← drive poll_next fuel s; Some (p :: r.1, r.2)
      end
  end.

Lemma trace_oks_app {A} (t u : trace A) : oks (t ++ u) = oks t ++ oks u.
Proof. unfold oks. by rewrite map_app, concat_app. Qed.

Lemma errors_app {A} (t u : trace A) : errors (t ++ u) = errors t ++ errors u.
Proof. unfold errors. by rewrite map_app, concat_app. Qed.

Lemma oks_cons {A} p (t : trace A) : oks (p :: t) = poll_ok p ++ oks t.
Proof. done. Qed.

Lemma errors_cons {A} p (t : trace A) : errors (p :: t) = poll_error p ++ errors t.
Proof. done. Qed.

Lemma oks_items {A} (l : list A) : oks (map (Item ∘ Ok) l) = l.
Proof. induction l as [|x l IH]; [done|]. cbn. f_equal. apply IH. Qed.

Lemma errors_items {A} (l : list A) : errors (map (Item ∘ Ok) l) = [].
Proof. by induction l. Qed.

(** An operator that keeps an invariant and whose states decrease is driven to its end. *)
Lemma drive_total {S B} (poll_next : S → option (option (Poll B) * S)) (m : S → nat * nat)
    (Inv : S → trace B → Prop) (Post : S → trace B → Prop) :
  (∀ s out, Inv s out → ∃ p s', poll_next s = Some (p, s') ∧
     match p with
     | None => Post s' out
     | Some p => Inv s' (out ++ [p]) ∧ ((m s').1 < (m s).1 ∨ (m s').1 = (m s).1 ∧ (m s').2 < (m s).2)
     end) →
  ∀ s out, Inv s out → ∃ fuel t s', (∀ n, fuel ≤ n → drive poll_next n s = Some (t, s')) ∧ Post s' (out ++ t).
Proof.
  intros Hstep s. remember (m s) as p eqn:Hp. destruct p as [a b]. revert b s Hp.
  induction a as [a IHa] using lt_wf_ind. intros b. induction b as [b IHb] using lt_wf_ind. intros s Hp out HI.
  destruct (Hstep s out HI) as ([p|] & s' & Hs & Hpost).
  - destruct Hpost as [HI' Hm]. rewrite <- Hp in Hm. cbn in Hm.
    assert (∃ fuel t s'', (∀ n, fuel ≤ n → drive poll_next n s' = Some (t, s'')) ∧ Post s'' ((out ++ [p]) ++ t)) as (fuel & t & s'' & Hd & Hpo).
    { destruct (m s') as [a' b'] eqn:Hm'. cbn in Hm. destruct Hm as [Hlt|[-> Hlt]].
      - by apply (IHa a' Hlt b').
      - by apply (IHb b' Hlt). }
    exists (Datatypes.S fuel), (p :: t), s''. rewrite <- (assoc_L (++)) in Hpo. split; [|done].
    intros [|n] Hn; [lia|]. cbn. rewrite Hs. cbn. by rewrite Hd by lia.
  - exists 1, [], s'. rewrite app_nil_r. split; [|done]. intros [|n] Hn; [lia|]. cbn. by rewrite Hs.
Qed.

End Streams.
