(* ===== verification/JoinIndices.v ===== *)
(** * Join index alignment (physical-plan/src/joins/utils.rs)

    Index arrays a hash join works with: the bitmap of a range, the semi, anti
    and mark indices of a range, the alignment of matched indices for each join
    type, and the final indices from the visited bitmap.  An index array is a
    list of optional row numbers.  Proved for one page of sorted matches: what
    the alignment adds for each join type. *)

From stdpp Require Import base list sorting.
From Stdlib Require Import ZArith Lia.
From S2P Require Import Prelude JoinTypes.

Module JoinIndices.

Abbreviation indices := (list (option nat)).
Abbreviation range := (nat * nat)%type.   (* [start..end] *)

(** [range.len()] and the iteration of a range. *)
Definition range_len (r : range) : nat := r.2 - r.1.
Definition range_iter (r : range) : list nat := seq r.1 (range_len r).

Definition build_range_bitmap (r : range) (input : indices) : list bool :=
  foldl (λ bits v, if bool_decide (r.1 ≤ v) && bool_decide (v < r.2)
                   then <[v - r.1 := true]> bits else bits)
    (replicate (range_len r) false) (omap id input).

Definition get_bit (bits : list bool) (i : nat) : bool := default false (bits !! i).

Definition get_anti_indices (r : range) (input : indices) : indices :=
  let bitmap := build_range_bitmap r input in
  omap (λ idx, if get_bit bitmap (idx - r.1) then None else Some (Some idx)) (range_iter r).

Definition get_semi_indices (r : range) (input : indices) : indices :=
  let bitmap := build_range_bitmap r input in
  omap (λ idx, if get_bit bitmap (idx - r.1) then Some (Some idx) else None) (range_iter r).

(** Zeros, null where the bit is unset. *)
Definition get_mark_indices (r : range) (input : indices) : indices :=
  map (λ bit : bool, if bit then Some 0 else None) (build_range_bitmap r input).

(** The loop of [append_probe_indices_in_order]: (build, probe) pairs. *)
Fixpoint append_in_order (prev_index : nat) (build probe : list nat) (stop : nat)
    : list (option nat * option nat) :=
  match build, probe with
  | b :: build, p :: probe =>
      map (λ v, (None, Some v)) (seq prev_index (p - prev_index)) ++
      (Some b, Some p) :: append_in_order (p + 1) build probe stop
  | _, _ => map (λ v, (None, Some v)) (seq prev_index (stop - prev_index))
  end.

Definition append_probe_indices_in_order (build probe : indices) (r : range) : indices * indices :=
  let out := append_in_order r.1 (omap id build) (omap id probe) r.2 in
  (out.*1, out.*2).

Definition append_right_indices (left_indices right_indices : indices) (adjust_range : range)
    (preserve_order_for_right : bool) : indices * indices :=
  if preserve_order_for_right then append_probe_indices_in_order left_indices right_indices adjust_range
  else
    let right_unmatched := get_anti_indices adjust_range right_indices in
    if bool_decide (right_unmatched = []) then (left_indices, right_indices)
    else (left_indices ++ replicate (length right_unmatched) None, right_indices ++ right_unmatched).

Definition adjust_indices_by_join_type (left_indices right_indices : indices) (adjust_range : range)
    (jt : JoinType) (preserve_order_for_right : bool) : indices * indices :=
  match jt with
  | Inner | Left => (left_indices, right_indices)
  | Right => append_right_indices left_indices right_indices adjust_range preserve_order_for_right
  | Full => append_right_indices left_indices right_indices adjust_range false
  | RightSemi => (left_indices, get_semi_indices adjust_range right_indices)
  | RightAnti => (left_indices, get_anti_indices adjust_range right_indices)
  | RightMark => (map Some (range_iter adjust_range), get_mark_indices adjust_range right_indices)
  | LeftSemi | LeftAnti | LeftMark => ([], [])
  end.

Definition need_produce_right_in_final (jt : JoinType) : bool :=
  match jt with Full | Right | RightAnti | RightMark | RightSemi => true | _ => false end.

Definition need_produce_result_in_final (jt : JoinType) : bool :=
  match jt with Left | LeftAnti | LeftSemi | LeftMark | Full => true | _ => false end.

Definition get_final_indices_from_bit_map (bits : list bool) (jt : JoinType) (piecewise : bool)
    : indices * indices :=
  let left_size := length bits in
  if bool_decide (jt = LeftMark) || (bool_decide (jt = RightMark) && piecewise) then
    (map Some (seq 0 left_size),
     map (λ idx, if get_bit bits idx then Some 0 else None) (seq 0 left_size))
  else
    let left_indices :=
      if bool_decide (jt = LeftSemi) || (bool_decide (jt = RightSemi) && piecewise)
      then omap (λ idx, if get_bit bits idx then Some (Some idx) else None) (seq 0 left_size)
      else omap (λ idx, if get_bit bits idx then None else Some (Some idx)) (seq 0 left_size) in
    (left_indices, replicate (length left_indices) None).

(** ** Bitmaps *)

Lemma bitmap_loop r vs bits i :
  i < length bits → length bits = range_len r →
  let bits' := foldl (λ bits v, if bool_decide (r.1 ≤ v) && bool_decide (v < r.2)
                   then <[v - r.1 := true]> bits else bits) bits vs in
  length bits' = length bits ∧
  get_bit bits' i = get_bit bits i || bool_decide (r.1 + i ∈ vs).
Proof.
  revert bits. induction vs as [|v vs IH]; intros bits Hi Hlen; cbn [foldl].
  { split; [done|]. rewrite (bool_decide_false (r.1 + i ∈ [])) by (by intros ?%elem_of_nil).
    by rewrite orb_false_r. }
  set (bits1 := if _ && _ then _ else _).
  assert (Hl1 : length bits1 = length bits).
  { unfold bits1. destruct (_ && _); [apply length_insert|done]. }
  destruct (IH bits1 ltac:(lia) ltac:(lia)) as [Hl Hb]. split; [lia|]. cbv zeta in Hb. rewrite Hb.
  assert (Hbit : get_bit bits1 i = get_bit bits i || bool_decide (r.1 + i = v)).
  { unfold bits1, range_len in *. destruct (bool_decide_reflect (r.1 ≤ v)), (bool_decide_reflect (v < r.2));
      cbn [andb]; unfold get_bit.
    - destruct (decide (i = v - r.1)) as [->|Hne].
      + rewrite list_lookup_insert_eq by done. rewrite bool_decide_true by lia. by rewrite orb_true_r.
      + rewrite list_lookup_insert_ne by done. rewrite bool_decide_false by lia. by rewrite orb_false_r.
    - rewrite bool_decide_false by lia. by rewrite orb_false_r.
    - rewrite bool_decide_false by lia. by rewrite orb_false_r.
    - rewrite bool_decide_false by lia. by rewrite orb_false_r. }
  rewrite Hbit, <- orb_assoc. f_equal. rewrite <- bool_decide_or. apply bool_decide_ext.
  by rewrite elem_of_cons.
Qed.

Lemma length_bitmap r input : length (build_range_bitmap r input) = range_len r.
Proof.
  unfold build_range_bitmap. set (bits0 := replicate _ false).
  assert (Hl : length bits0 = range_len r) by apply length_replicate. clearbody bits0.
  revert bits0 Hl. induction (omap id input) as [|v vs IH]; intros bits0 Hl; cbn [foldl]; [done|].
  apply IH. destruct (_ && _); [by rewrite length_insert|done].
Qed.

(** A bit is set for the indices of the range that occur. *)
Lemma bitmap_bit r input i :
  r.1 ≤ i < r.2 → get_bit (build_range_bitmap r input) (i - r.1) = bool_decide (i ∈ omap id input).
Proof.
  intros Hi. unfold build_range_bitmap.
  destruct (bitmap_loop r (omap id input) (replicate (range_len r) false) (i - r.1)) as [_ Hb].
  - rewrite length_replicate. unfold range_len. lia.
  - apply length_replicate.
  - cbv zeta in Hb. rewrite Hb. unfold get_bit. rewrite lookup_replicate_2 by (unfold range_len; lia).
    cbn. apply bool_decide_ext. by replace (r.1 + (i - r.1)) with i by lia.
Qed.

Lemma range_iter_elem r i : i ∈ range_iter r ↔ r.1 ≤ i < r.2.
Proof. unfold range_iter, range_len. rewrite elem_of_seq. lia. Qed.

Lemma omap_ext_in {A B} (f g : A → option B) (l : list A) : (∀ x, x ∈ l → f x = g x) → omap f l = omap g l.
Proof.
  induction l as [|x l IH]; intros Hfg; [done|]. cbn. rewrite (Hfg x) by apply list_elem_of_here.
  rewrite IH by (intros y Hy; apply Hfg; by right). done.
Qed.

Definition occurs (input : indices) (i : nat) : bool := bool_decide (i ∈ omap id input).

Lemma get_anti_indices_spec r input :
  get_anti_indices r input = Some <$> filter (λ i, occurs input i = false) (range_iter r).
Proof.
  unfold get_anti_indices.
  rewrite (omap_ext_in _ (λ idx, if negb (occurs input idx) then Some (Some idx) else None)).
  2: { intros i Hi%range_iter_elem. rewrite bitmap_bit by done. unfold occurs. by destruct (bool_decide _). }
  induction (range_iter r) as [|i l IH]; [done|]. cbn [omap list_omap]. rewrite filter_cons.
  destruct (occurs input i); cbn; [done|]. by rewrite IH.
Qed.

Lemma get_semi_indices_spec r input :
  get_semi_indices r input = Some <$> filter (λ i, occurs input i = true) (range_iter r).
Proof.
  unfold get_semi_indices.
  rewrite (omap_ext_in _ (λ idx, if occurs input idx then Some (Some idx) else None)).
  2: { intros i Hi%range_iter_elem. by rewrite bitmap_bit by done. }
  induction (range_iter r) as [|i l IH]; [done|]. cbn [omap list_omap]. rewrite filter_cons.
  destruct (occurs input i); cbn; [by rewrite IH|done].
Qed.

Lemma get_mark_indices_spec r input :
  get_mark_indices r input = (λ i, if occurs input i then Some 0 else None) <$> range_iter r.
Proof.
  unfold get_mark_indices. apply list_eq. intros k. rewrite !list_lookup_fmap.
  destruct (decide (k < range_len r)) as [Hk|Hk].
  - unfold range_iter at 1. rewrite lookup_seq_lt by done. cbn [fmap option_fmap option_map].
    destruct (lookup_lt_is_Some_2 (build_range_bitmap r input) k) as [b Hb]; [by rewrite length_bitmap|].
    rewrite Hb. cbn. pose proof (bitmap_bit r input (r.1 + k)) as Hbit. unfold range_len in Hk.
    replace (r.1 + k - r.1) with k in Hbit by lia. unfold get_bit in Hbit. rewrite Hb in Hbit. cbn in Hbit.
    unfold occurs. by rewrite Hbit by lia.
  - unfold range_iter. rewrite lookup_seq_ge by lia.
    by rewrite (lookup_ge_None_2 (build_range_bitmap r input)) by (rewrite length_bitmap; lia).
Qed.

(** ** From indices to output *)

(** How [build_batch_from_indices] reads a pair of index arrays for a join type:
    outer joins pad with nulls, mark columns tell whether the probe index is set;
    for right mark joins the build array holds the probe rows. *)
Definition output_pair (jt : JoinType) (p : option nat * option nat) : option (jout nat nat) :=
  match jt, p with
  | LeftMark, (Some l, o) => Some (LeftMarked l (bool_decide (is_Some o)))
  | RightMark, (Some r, o) => Some (RightMarked r (bool_decide (is_Some o)))
  | (LeftMark | RightMark), (None, _) => None
  | _, (Some l, Some r) => Some (Both l r)
  | _, (None, Some r) => Some (RightOnly r)
  | _, (Some l, None) => Some (LeftOnly l)
  | _, (None, None) => None
  end.

Definition batch_from_indices (jt : JoinType) (ix : indices * indices) : list (jout nat nat) :=
  match jt with
  | RightSemi | RightAnti => omap (fmap RightOnly) ix.2
  | LeftSemi | LeftAnti => omap (fmap LeftOnly) ix.1
  | _ => omap (output_pair jt) (zip ix.1 ix.2)
  end.

(** The output of one page of matches [(probe, build)]. *)
Definition page_output (jt : JoinType) (ordered : bool) (q : list (nat * nat)) (r : range)
    : list (jout nat nat) :=
  batch_from_indices jt (adjust_indices_by_join_type (Some <$> q.*2) (Some <$> q.*1) r jt ordered).

Definition both (q : list (nat * nat)) : list (jout nat nat) := (λ p, Both p.2 p.1) <$> q.

Definition matched (q : list (nat * nat)) (i : nat) : bool := bool_decide (i ∈ q.*1).

(** What it has to be, for the probe rows [l]. *)
Definition expected (jt : JoinType) (q : list (nat * nat)) (l : list nat) : list (jout nat nat) :=
  match jt with
  | Inner | Left => both q
  | Right | Full => both q ++ (RightOnly <$> filter (λ i, matched q i = false) l)
  | RightSemi => RightOnly <$> filter (λ i, matched q i = true) l
  | RightAnti => RightOnly <$> filter (λ i, matched q i = false) l
  | RightMark => (λ i, RightMarked i (matched q i)) <$> l
  | LeftSemi | LeftAnti | LeftMark => []
  end.

Lemma omap_Some {A} (l : list A) : omap id (Some <$> l) = l.
Proof. induction l as [|x l IH]; [done|]. cbn. by rewrite IH. Qed.

Lemma omap_fmap_Some {A B} (f : A → B) (l : list A) : omap (fmap f) (Some <$> l) = f <$> l.
Proof. induction l as [|x l IH]; [done|]. cbn. by rewrite IH. Qed.

Lemma occurs_matched q i : occurs (Some <$> q.*1) i = matched q i.
Proof. unfold occurs, matched. by rewrite omap_Some. Qed.

Lemma batch_both jt q :
  match jt with Inner | Left | Right | Full => True | _ => False end →
  omap (output_pair jt) (zip (Some <$> q.*2) (Some <$> q.*1)) = both q.
Proof. intros Hjt. induction q as [|[p b] q IH]; [done|]. cbn. destruct jt; try done; cbn; by f_equal. Qed.

Lemma batch_right_only jt (l : list nat) :
  match jt with Right | Full => True | _ => False end →
  omap (output_pair jt) (zip (replicate (length l) None) (Some <$> l)) = RightOnly <$> l.
Proof. intros Hjt. induction l as [|i l IH]; [done|]. cbn. destruct jt; try done; cbn; by f_equal. Qed.

Lemma append_right_unordered jt q r :
  match jt with Right | Full => True | _ => False end →
  omap (output_pair jt) (uncurry zip (append_right_indices (Some <$> q.*2) (Some <$> q.*1) r false)) =
  both q ++ (RightOnly <$> filter (λ i, matched q i = false) (range_iter r)).
Proof.
  intros Hjt. unfold append_right_indices. rewrite get_anti_indices_spec.
  rewrite (list_filter_iff (λ i, occurs (Some <$> q.*1) i = false) (λ i, matched q i = false))
    by (intros i; by rewrite occurs_matched).
  set (un := filter _ _). case_bool_decide as Hun; cbn [uncurry].
  - apply fmap_nil_inv in Hun. rewrite Hun. cbn. rewrite app_nil_r. apply batch_both. by destruct jt.
  - rewrite length_fmap, zip_with_app by (by rewrite !length_fmap).
    rewrite omap_app, batch_both, batch_right_only; [done|done|by destruct jt].
Qed.

Lemma filter_none_matched (l : list nat) : filter (λ i, matched [] i = false) l = l.
Proof.
  induction l as [|i l IH]; [done|]. rewrite filter_cons, decide_True; [by rewrite IH|].
  unfold matched. apply bool_decide_eq_false. by intros ?%elem_of_nil.
Qed.

Lemma matched_ext q q' i : (i ∈ q.*1 ↔ i ∈ q'.*1) → matched q i = matched q' i.
Proof. intros H. unfold matched. by apply bool_decide_ext. Qed.

Lemma list_filter_ext_in {A} (f g : A → bool) (b : bool) (l : list A) :
  (∀ x, x ∈ l → f x = g x) → filter (λ x, f x = b) l = filter (λ x, g x = b) l.
Proof.
  induction l as [|x l IH]; intros Hfg; [done|]. rewrite !filter_cons, (Hfg x) by apply list_elem_of_here.
  by rewrite IH by (intros y Hy; apply Hfg; by right).
Qed.

Lemma batch_nulls (l : list nat) :
  omap (output_pair Right) (map (λ v, (None, Some v)) l) = RightOnly <$> l.
Proof. induction l as [|v l IH]; [done|]. cbn. by f_equal. Qed.

(** The unmatched rows before and after the first match. *)
Lemma unmatched_split prev p b q stop :
  Forall (le p) q.*1 → prev ≤ p + 1 → p < stop →
  filter (λ i, matched ((p, b) :: q) i = false) (seq prev (stop - prev)) =
  seq prev (p - prev) ++ filter (λ i, matched q i = false) (seq (p + 1) (stop - (p + 1))).
Proof.
  intros Hge Hp Hstop. rewrite Forall_forall in Hge.
  assert (Hrest : ∀ i, p < i → matched ((p, b) :: q) i = matched q i).
  { intros i Hi. apply matched_ext. cbn. rewrite elem_of_cons. split; [intros [->|]; [lia|done]|by right]. }
  destruct (decide (prev ≤ p)) as [Hle|Hgt].
  - replace (stop - prev) with ((p - prev) + (1 + (stop - (p + 1)))) by lia.
    rewrite !seq_app, !filter_app. replace (prev + (p - prev)) with p by lia. f_equal.
    + rewrite (list_filter_ext_in _ (matched [])); [apply filter_none_matched|].
      intros i Hi%elem_of_seq. apply matched_ext. split; [|by intros ?%elem_of_nil].
      cbn. intros [->|Hq]%elem_of_cons; [lia|]. specialize (Hge _ Hq). lia.
    + cbn [seq]. rewrite filter_cons, decide_False.
      2: { unfold matched. rewrite bool_decide_true; [done|]. apply list_elem_of_here. }
      cbn [app]. apply list_filter_ext_in. intros i Hi%elem_of_seq. apply Hrest. lia.
  - replace (p - prev) with 0 by lia. assert (prev = p + 1) as -> by lia. cbn [seq app].
    apply list_filter_ext_in. intros i Hi%elem_of_seq. apply Hrest. lia.
Qed.

(** The ordered variant outputs the same rows, interleaved. *)
Lemma append_in_order_spec prev q stop :
  StronglySorted le q.*1 → Forall (λ p, prev ≤ p + 1 ∧ p < stop) q.*1 →
  omap (output_pair Right) (append_in_order prev q.*2 q.*1 stop) ≡ₚ
  both q ++ (RightOnly <$> filter (λ i, matched q i = false) (seq prev (stop - prev))).
Proof.
  revert prev. induction q as [|[p b] q IH]; intros prev Hs HF; cbn [append_in_order fmap list_fmap fst snd].
  { cbn [both fmap list_fmap app]. by rewrite batch_nulls, filter_none_matched. }
  cbn in Hs, HF. apply StronglySorted_cons in Hs as [Hge Hs]. apply Forall_cons in HF as [[Hp Hstop] HF].
  rewrite omap_app, batch_nulls. cbn [omap list_omap output_pair].
  rewrite IH; [|done|].
  - rewrite unmatched_split by done. rewrite fmap_app. unfold both. rewrite fmap_cons. cbn [fst snd].
    rewrite <- Permutation_middle. cbn [app]. apply perm_skip.
    rewrite !(assoc_L (++)). f_equiv. apply Permutation_app_comm.
  - rewrite Forall_forall in Hge, HF |- *. intros p' Hp'. specialize (Hge _ Hp'). specialize (HF _ Hp'). lia.
Qed.

(** A page outputs what its rows of the range need, whatever the order mode. *)
Lemma page_output_spec jt ordered q r :
  StronglySorted le q.*1 → Forall (λ p, r.1 ≤ p + 1 ∧ p < r.2) q.*1 →
  page_output jt ordered q r ≡ₚ expected jt q (range_iter r).
Proof.
  intros Hs HF. unfold page_output, batch_from_indices, adjust_indices_by_join_type.
  assert (Hord : ∀ o, omap (output_pair Right)
      (zip (append_right_indices (Some <$> q.*2) (Some <$> q.*1) r o).1
           (append_right_indices (Some <$> q.*2) (Some <$> q.*1) r o).2) ≡ₚ expected Right q (range_iter r)).
  { intros [|].
    - cbn [append_right_indices append_probe_indices_in_order fst snd].
      rewrite !omap_Some, zip_fst_snd. by apply append_in_order_spec.
    - pose proof (append_right_unordered Right q r I) as H. destruct (append_right_indices _ _ _ _).
      cbn [uncurry fst snd] in *. by rewrite H. }
  destruct jt; cbn [fst snd expected].
  - by rewrite batch_both.
  - by rewrite batch_both.
  - apply Hord.
  - pose proof (append_right_unordered Full q r I) as H. destruct (append_right_indices _ _ _ _).
    cbn [uncurry fst snd] in *. by rewrite H.
  - done.
  - rewrite get_semi_indices_spec, (list_filter_ext_in _ (matched q)) by (intros; apply occurs_matched).
    by rewrite omap_fmap_Some.
  - done.
  - rewrite get_anti_indices_spec, (list_filter_ext_in _ (matched q)) by (intros; apply occurs_matched).
    by rewrite omap_fmap_Some.
  - done.
  - clear Hord. rewrite get_mark_indices_spec. induction (range_iter r) as [|i l IH]; [done|]. cbn.
    rewrite occurs_matched. destruct (matched q i); cbn; apply perm_skip, IH.
Qed.

(** ** All pages of a probe batch *)

Definition page_stop (q : list (nat * nat)) : nat :=
  match last q with Some p => p.1 + 1 | None => 0 end.

Definition page_next (start : nat) (q : list (nat * nat)) : nat :=
  match last q with Some p => p.1 + 1 | None => start end.

Fixpoint pages_output (jt : JoinType) (ordered : bool) (n start : nat) (qs : list (list (nat * nat)))
    : list (jout nat nat) :=
  match qs with
  | [] => []
  | [q] => page_output jt ordered q (start, n)
  | q :: qs => page_output jt ordered q (start, page_stop q) ++
               pages_output jt ordered n (page_next start q) qs
  end.

(** Ranges whose rows see only their own matches may be aligned one by one. *)
Lemma expected_app jt q1 q2 l1 l2 :
  (∀ i, i ∈ l1 → i ∈ q2.*1 → i ∈ q1.*1) → (∀ i, i ∈ l2 → i ∈ q1.*1 → i ∈ q2.*1) →
  expected jt q1 l1 ++ expected jt q2 l2 ≡ₚ expected jt (q1 ++ q2) (l1 ++ l2).
Proof.
  intros H1 H2.
  assert (E1 : ∀ i, i ∈ l1 → matched (q1 ++ q2) i = matched q1 i).
  { intros i Hi. apply matched_ext. rewrite fmap_app, elem_of_app. naive_solver. }
  assert (E2 : ∀ i, i ∈ l2 → matched (q1 ++ q2) i = matched q2 i).
  { intros i Hi. apply matched_ext. rewrite fmap_app, elem_of_app. naive_solver. }
  assert (Hf : ∀ b, filter (λ i, matched (q1 ++ q2) i = b) (l1 ++ l2) =
    filter (λ i, matched q1 i = b) l1 ++ filter (λ i, matched q2 i = b) l2).
  { intros b. rewrite filter_app. f_equal; by apply list_filter_ext_in. }
  destruct jt; cbn [expected]; rewrite ?Hf, ?fmap_app; unfold both; rewrite ?fmap_app; try done.
  - rewrite <- !(assoc_L (++)). f_equiv. rewrite !(assoc_L (++)). f_equiv. apply Permutation_app_comm.
  - rewrite <- !(assoc_L (++)). f_equiv. rewrite !(assoc_L (++)). f_equiv. apply Permutation_app_comm.
  - apply Permutation_app; erewrite list_fmap_ext; [done| |done|];
      intros k i Hk%list_elem_of_lookup_2; cbn beta; f_equal; symmetry; auto.
Qed.

Lemma page_stop_snoc q p : page_stop (q ++ [p]) = p.1 + 1.
Proof. unfold page_stop. by rewrite last_snoc. Qed.

Lemma page_next_snoc start q p : page_next start (q ++ [p]) = p.1 + 1.
Proof. unfold page_next. by rewrite last_snoc. Qed.

(** However the matches of a probe batch are cut into pages, the pages together
    output what the batch needs. *)
Lemma pages_output_spec jt ordered n start qs :
  qs ≠ [] → StronglySorted le (concat qs).*1 →
  Forall (λ p, start ≤ p + 1 ∧ p < n) (concat qs).*1 →
  pages_output jt ordered n start qs ≡ₚ expected jt (concat qs) (range_iter (start, n)).
Proof.
  revert start. induction qs as [|q qs IH]; intros start Hne Hs HF; [done|]. clear Hne.
  cbn [concat] in *. rewrite fmap_app in Hs, HF.
  destruct qs as [|q' qs].
  { cbn [pages_output concat] in *. rewrite app_nil_r in *. by apply page_output_spec. }
  change (pages_output jt ordered n start (q :: q' :: qs)) with
    (page_output jt ordered q (start, page_stop q) ++
     pages_output jt ordered n (page_next start q) (q' :: qs)).
  assert (Hne : q' :: qs ≠ []) by done. revert Hne IH Hs HF. generalize (q' :: qs). intros rest Hne IH Hs HF.
  apply StronglySorted_app in Hs as (Hle & Hs1 & Hs2). apply Forall_app in HF as [HF1 HF2].
  destruct q as [|p q _] using rev_ind.
  { change (page_next start []) with start. rewrite IH by done.
    rewrite page_output_spec; [|done|constructor]. rewrite expected_app.
    - unfold range_iter at 1, range_len. cbn [page_stop last fst snd]. by replace (0 - start) with 0 by lia.
    - intros i Hi%range_iter_elem. cbn in Hi. lia.
    - by intros i _ ?%elem_of_nil. }
  rewrite page_stop_snoc, page_next_snoc.
  assert (Hlast : p.1 ∈ (q ++ [p]).*1).
  { rewrite fmap_app, elem_of_app. right. apply list_elem_of_here. }
  assert (Hmax : ∀ i, i ∈ (q ++ [p]).*1 → i ≤ p.1).
  { rewrite fmap_app in Hs1 |- *. apply StronglySorted_app in Hs1 as (Hq & _ & _).
    intros i [Hi| ->%list_elem_of_singleton]%elem_of_app; [|done]. apply Hq; [done|apply list_elem_of_here]. }
  assert (Hmin : ∀ i, i ∈ (concat rest).*1 → p.1 ≤ i) by (intros i Hi; by apply Hle).
  rewrite Forall_forall in HF1, HF2. pose proof (HF1 _ Hlast) as Hp.
  rewrite page_output_spec; [|done|apply Forall_forall; intros i Hi; cbn; specialize (HF1 _ Hi);
    specialize (Hmax _ Hi); lia].
  rewrite IH; [|done|done|apply Forall_forall; intros i Hi; specialize (HF2 _ Hi); specialize (Hmin _ Hi); lia].
  rewrite expected_app.
  - unfold range_iter, range_len. cbn [fst snd]. f_equiv.
    replace (n - start) with ((p.1 + 1 - start) + (n - (p.1 + 1))) by lia. rewrite seq_app.
    by replace (start + (p.1 + 1 - start)) with (p.1 + 1) by lia.
  - intros i Hi%range_iter_elem Hq%Hmin. cbn in Hi. by replace i with p.1 by lia.
  - intros i Hi%range_iter_elem Hq%Hmax. cbn in Hi. lia.
Qed.

End JoinIndices.
