(* ===== verification/Coalesce.v ===== *)
(** * The limited batch coalescer (physical-plan/src/coalesce/mod.rs)

    [LimitedBatchCoalescer] wraps arrow's [BatchCoalescer] (a parameter, with
    its documented queue behaviour as laws) and stops after [fetch] rows.  A
    batch is its list of rows.  Proved: what comes out, however it is cut into
    batches, is the first [fetch] rows of what went in. *)

From stdpp Require Import base list strings.
From Stdlib Require Import Lia.
From S2P Require Import Prelude.

(** arrow's [BatchCoalescer]; the error of [push_batch] is an [ArrowError]. *)
Class BatchCoalescer (A : Type) := {
  inner : Type;
  inner_new : nat → option nat → inner;
  inner_push_batch : inner → list A → inner;
  inner_finish_buffered_batch : inner → inner;
  inner_next_completed_batch : inner → option (list A) * inner;
  inner_is_empty : inner → bool;
}.

(** Documented: rows come out in the order they went in; completed batches
    queue up first in, first out; [finish_buffered_batch] completes what is
    buffered; "[is_empty]: there is no buffered data" and no completed batch. *)
Class BatchCoalescerOk (A : Type) `{BatchCoalescer A} := {
  completed : inner → list (list A);
  buffered : inner → list A;
  new_ok : ∀ n b, completed (inner_new n b) = [] ∧ buffered (inner_new n b) = [];
  push_ok : ∀ c b, ∃ more, completed (inner_push_batch c b) = completed c ++ more ∧
    concat more ++ buffered (inner_push_batch c b) = buffered c ++ b;
  finish_ok : ∀ c, ∃ more, completed (inner_finish_buffered_batch c) = completed c ++ more ∧
    concat more = buffered c ∧ buffered (inner_finish_buffered_batch c) = [];
  next_ok : ∀ c, match completed c with
    | [] => inner_next_completed_batch c = (None, c)
    | b :: bs => ∃ c', inner_next_completed_batch c = (Some b, c') ∧
                       completed c' = bs ∧ buffered c' = buffered c
    end;
  is_empty_ok : ∀ c, inner_is_empty c = true ↔ completed c = [] ∧ buffered c = [];
}.

Inductive PushBatchStatus := Continue | LimitReached.

Module Coalesce.
Section Coalesce.
Context {A : Type} `{BatchCoalescer A}.

Record LimitedBatchCoalescer := {
  co_inner : inner;
  total_rows : nat;
  fetch : option nat;
  finished : bool;
}.

Definition new (target_batch_size : nat) (fetch : option nat) : LimitedBatchCoalescer :=
  {| co_inner := inner_new target_batch_size (Some (target_batch_size / 2));
     total_rows := 0; fetch := fetch; finished := false |}.

(** [self.total_rows += batch.num_rows(); self.inner.push_batch(batch)] *)
Definition push_rows (c : LimitedBatchCoalescer) (batch : list A) : LimitedBatchCoalescer :=
  {| co_inner := inner_push_batch (co_inner c) batch; total_rows := total_rows c + length batch;
     fetch := fetch c; finished := finished c |}.

Definition push_batch (c : LimitedBatchCoalescer) (batch : list A)
    : Result (PushBatchStatus * LimitedBatchCoalescer) :=
  if finished c then Err (Internal "LimitedBatchCoalescer: cannot push batch after finish")
  else match fetch c with
       | Some f =>
           if bool_decide (f ≤ total_rows c) then Ok (LimitReached, c)
           else if bool_decide (f ≤ total_rows c + length batch) then
             Ok (LimitReached, push_rows c (take (f - total_rows c) batch))
           else Ok (Continue, push_rows c batch)
       | None => Ok (Continue, push_rows c batch)
       end.

Definition is_empty (c : LimitedBatchCoalescer) : bool := inner_is_empty (co_inner c).

Definition finish (c : LimitedBatchCoalescer) : LimitedBatchCoalescer :=
  {| co_inner := inner_finish_buffered_batch (co_inner c); total_rows := total_rows c;
     fetch := fetch c; finished := true |}.

Definition is_finished (c : LimitedBatchCoalescer) : bool := finished c.

Definition next_completed_batch (c : LimitedBatchCoalescer) : option (list A) * LimitedBatchCoalescer :=
  let '(b, i) := inner_next_completed_batch (co_inner c) in
  (b, {| co_inner := i; total_rows := total_rows c; fetch := fetch c; finished := finished c |}).

Definition take_fetch (f : option nat) (l : list A) : list A :=
  match f with Some n => take n l | None => l end.

Context `{!BatchCoalescerOk A}.

(** The rows still inside. *)
Definition pending (c : LimitedBatchCoalescer) : list A :=
  concat (completed (co_inner c)) ++ buffered (co_inner c).

(** [pushed] went in and [out] came out; after [finish] nothing is buffered. *)
Record holds (f : option nat) (c : LimitedBatchCoalescer) (pushed out : list A) : Prop := {
  c_fetch : fetch c = f;
  c_rows : out ++ pending c = take_fetch f pushed;
  c_total : total_rows c = length (take_fetch f pushed);
  c_finished : finished c = true → buffered (co_inner c) = [];
}.

Definition limit_hit (f : option nat) (pushed : list A) : Prop :=
  match f with Some n => n ≤ length pushed | None => False end.

Lemma new_holds n f : holds f (new n f) [] [].
Proof.
  destruct (new_ok n (Some (n / 2))) as [Hc Hb].
  split; [done| |by destruct f as [[]|]|done].
  unfold pending, new. cbn [co_inner]. rewrite Hc, Hb. by destruct f as [[]|].
Qed.

Lemma new_done n f : completed (co_inner (new n f)) = [].
Proof. apply (new_ok n). Qed.

Lemma pending_push c b : pending (push_rows c b) = pending c ++ b.
Proof.
  unfold pending. cbn. destruct (push_ok (co_inner c) b) as (more & -> & Hm).
  by rewrite concat_app, <- !(assoc_L (++)), <- Hm.
Qed.

(** Pushing never fails before [finish], and reports the limit exactly. *)
Lemma push_batch_holds f c pushed out b :
  holds f c pushed out → finished c = false →
  ∃ st c', push_batch c b = Ok (st, c') ∧ holds f c' (pushed ++ b) out ∧ finished c' = false ∧
    (st = LimitReached ↔ limit_hit f (pushed ++ b)).
Proof.
  intros [Hf Hr Ht Hfin] Hnf. unfold push_batch. rewrite Hnf, Hf.
  assert (Hpush : ∀ b', take_fetch f (pushed ++ b) = take_fetch f pushed ++ b' →
    holds f (push_rows c b') (pushed ++ b) out).
  { intros b' Htk. split; cbn; [done| |by rewrite Htk, length_app, Ht|by rewrite Hnf].
    by rewrite pending_push, (assoc_L (++)), Hr. }
  destruct f as [n|]; cbn [take_fetch limit_hit] in *.
  - rewrite length_take in Ht. case_bool_decide as Hle.
    { eexists _, _. split_and!; [done| |done|].
      - split; [done| |cbn; rewrite length_take, length_app; lia|by rewrite Hnf].
        rewrite Hr. cbn. rewrite take_app_le by lia. done.
      - rewrite length_app. split; [lia|done]. }
    case_bool_decide as Hle2; eexists _, _; (split_and!; [done| |done|]).
    + apply Hpush. cbn. rewrite (take_ge pushed) by lia.
      rewrite take_app_ge by lia. do 2 f_equal. lia.
    + rewrite length_app. split; [lia|done].
    + apply Hpush. cbn. rewrite !take_ge by (rewrite ?length_app; lia). done.
    + rewrite length_app. split; [done|lia].
  - eexists _, _. split_and!; [done|by apply Hpush|done|by split].
Qed.

Lemma finish_holds f c pushed out : holds f c pushed out → holds f (finish c) pushed out.
Proof.
  intros [Hf Hr Ht Hfin]. destruct (finish_ok (co_inner c)) as (more & Hc & Hm & Hb).
  split; cbn; [done| |done|done]. rewrite <- Hr. unfold pending. cbn.
  by rewrite Hc, Hb, concat_app, Hm, app_nil_r.
Qed.

(** Taking a batch out. *)
Lemma next_holds f c pushed out :
  holds f c pushed out →
  match next_completed_batch c with
  | (Some b, c') => holds f c' pushed (out ++ b) ∧ finished c' = finished c ∧
      S (length (completed (co_inner c'))) = length (completed (co_inner c)) ∧
      is_empty c = false
  | (None, c') => c' = c ∧ completed (co_inner c) = []
  end.
Proof.
  intros [Hf Hr Ht Hfin]. unfold next_completed_batch. pose proof (next_ok (co_inner c)) as Hn.
  destruct (completed (co_inner c)) as [|b bs] eqn:Ec.
  - rewrite Hn. split; [by destruct c|done].
  - destruct Hn as (c' & -> & Hc & Hb). split_and!; [|done|cbn; by rewrite Hc|].
    + split; cbn; [done| |done|by rewrite Hb]. rewrite <- Hr. unfold pending. cbn. rewrite Hc, Hb, Ec. cbn.
      by rewrite <- !(assoc_L (++)).
    + apply not_true_iff_false. unfold is_empty. rewrite is_empty_ok, Ec. by intros [? _].
Qed.

(** Drained and finished: everything is out. *)
Lemma drained f c pushed out :
  holds f c pushed out → completed (co_inner c) = [] → finished c = true ∨ is_empty c = true →
  out = take_fetch f pushed.
Proof.
  intros [Hf Hr Ht Hfin] Hc Hor. assert (Hb : buffered (co_inner c) = []).
  { destruct Hor as [?|[_ ?]%is_empty_ok]; [by apply Hfin|done]. }
  rewrite <- Hr. unfold pending. by rewrite Hc, Hb, app_nil_r.
Qed.

End Coalesce.

(** ** An instance *)

(** Batches of [n] rows, cut as they fill. *)
Record queue (A : Type) := { q_size : nat; q_done : list (list A); q_rows : list A }.
Arguments q_size {A}. Arguments q_done {A}. Arguments q_rows {A}.

Definition queue_push {A} (q : queue A) (b : list A) : queue A :=
  let l := q_rows q ++ b in
  if bool_decide (q_size q ≤ length l)
  then {| q_size := q_size q; q_done := q_done q ++ [l]; q_rows := [] |}
  else {| q_size := q_size q; q_done := q_done q; q_rows := l |}.

Definition queue_coalescer A : BatchCoalescer A := {|
  inner := queue A;
  inner_new n _ := {| q_size := n; q_done := []; q_rows := [] |};
  inner_push_batch := queue_push;
  inner_finish_buffered_batch q :=
    {| q_size := q_size q; q_done := match q_rows q with [] => q_done q | l => q_done q ++ [l] end; q_rows := [] |};
  inner_next_completed_batch q :=
    match q_done q with
    | [] => (None, q)
    | b :: bs => (Some b, {| q_size := q_size q; q_done := bs; q_rows := q_rows q |})
    end;
  inner_is_empty q := match q_done q, q_rows q with [], [] => true | _, _ => false end;
|}.

#[program]
Definition queue_coalescer_ok A : @BatchCoalescerOk A (queue_coalescer A) := {|
  completed := q_done; buffered := q_rows;
|}.
Next Obligation. done. Qed.
Next Obligation.
  intros A q b. cbn. unfold queue_push. case_bool_decide; cbn.
  - exists [q_rows q ++ b]. split; [done|]. cbn. by rewrite !app_nil_r.
  - exists []. by rewrite app_nil_r.
Qed.
Next Obligation.
  intros A [n d [|x l]]; cbn; [by exists []; rewrite app_nil_r|]. exists [x :: l]. cbn. by rewrite app_nil_r.
Qed.
Next Obligation. intros A [n [|b d] l]; cbn; [done|]. eexists. by split_and!. Qed.
Next Obligation. intros A [n [|b d] [|x l]]; cbn; naive_solver. Qed.

End Coalesce.
