(* ===== verification/FilterExec.v ===== *)
(** * Filtering a stream (physical-plan/src/filter.rs)

    [FilterExec] evaluates its predicate on each batch of its input, keeps the rows
    where it is true, projects them and hands them to the coalescer, which stops
    the stream after [fetch] rows.  Proved: polled to its end it yields the kept
    rows of the batches it read, cut to the limit, passes errors on, reads all of
    its input unless the limit is reached, and counts its selectivity. *)

From stdpp Require Import base list strings.
From Stdlib Require Import ZArith Lia.
From S2P Require Import Prelude Relation HashUtils Columnar Datum Scatter CaseExpr BinaryExpr InList HashExprs CaseMethods PhysicalExprs CaseConstruct ExprEvaluation Streams Coalesce.

Module Filter.

Section Operator.
Context `{HA : Arrow, HF : ArrowFilter, HB : BatchCoalescer row}.

(** ** Construction *)

Record FilterExec := mkFilterExec {
  predicate : dyn;
  default_selectivity : nat;
  projection : option (list nat);
  batch_size : nat;
  fetch : option nat;
}.

(** [FilterExecBuilder::build] over an input of the schema *)
Definition build (schema : list DataType) (f : FilterExec) : Result FilterExec :=
  ty ← data_type (predicate f) schema;
  if decide (ty ≠ DBoolean) then Err (Plan "Filter predicate must return BOOLEAN values")
  else if decide (100 < default_selectivity f)
  then Err (Plan "Default filter selectivity value needs to be less than or equal to 100")
  else _ ← can_project schema (projection f); Ok f.

(** ** The stream *)

Record FilterExecStream := mkStream {
  selectivity_part : nat;
  selectivity_total : nat;
  batch_coalescer : Coalesce.LimitedBatchCoalescer (A := row);
}.

Definition execute (f : FilterExec) : FilterExecStream := mkStream 0 0 (Coalesce.new (batch_size f) (fetch f)).

Definition add_total (n : nat) (s : FilterExecStream) : FilterExecStream :=
  mkStream (selectivity_part s) (selectivity_total s + n) (batch_coalescer s).

Definition set_coalescer (c : Coalesce.LimitedBatchCoalescer) (s : FilterExecStream) : FilterExecStream :=
  mkStream (selectivity_part s) (selectivity_total s) c.

(** The batch that is ready, counted. *)
Definition ready (s : FilterExecStream) : option (list row) * FilterExecStream :=
  match Coalesce.next_completed_batch (batch_coalescer s) with
  | (Some b, c) => (Some b, mkStream (selectivity_part s + length b) (selectivity_total s) c)
  | (None, c) => (None, set_coalescer c s)
  end.

Definition finish (s : FilterExecStream) : FilterExecStream := set_coalescer (Coalesce.finish (batch_coalescer s)) s.

(** Filtering one batch into the coalescer. *)
Definition filter_batch (f : FilterExec) (s : FilterExecStream) (batch : RecordBatch)
    : option (Result PushBatchStatus * FilterExecStream) :=
  v ← evaluate (predicate f) batch;
  match v with
  | Err e => Some (Err e, s)
  | Ok v =>
      let array := into_array v (num_rows batch) in
      match match projection f with Some p => project_batch batch p | None => Ok batch end with
      | Err e => Some (Err e, s)
      | Ok batch =>
          match as_bools array with
          | None => Some (Err (Internal "Cannot create filter_array from non-boolean predicates"), s)
          | Some filter_array =>
              let s := add_total (num_rows batch) s in
              match arrow_result (filter_record_batch batch (selection filter_array)) with
              | Err e => Some (Err e, s)
              | Ok batch =>
                  match Coalesce.push_batch (batch_coalescer s) (rows batch) with
                  | Err e => Some (Err e, s)
                  | Ok (state, c) => Some (Ok state, set_coalescer c s)
                  end
              end
          end
      end
  end.

(** [filter_and_project], the form without a stream *)
Definition filter_and_project (batch : RecordBatch) (predicate : dyn) (projection : option (list nat))
    : option (Result RecordBatch) :=
  v ←? evaluate predicate batch;
  match as_bools (into_array v (num_rows batch)), projection with
  | Some filter_array, None => Some (arrow_result (filter_record_batch batch (selection filter_array)))
  | Some filter_array, Some projection =>
      projected_batch ←? Some (project_batch batch projection);
      Some (arrow_result (filter_record_batch projected_batch (selection filter_array)))
  | None, _ => Some (Err (Internal "Cannot create filter_array from non-boolean predicates"))
  end.

Definition batch_filter (batch : RecordBatch) (predicate : dyn) : option (Result RecordBatch) :=
  filter_and_project batch predicate None.

(** [poll_next]: the loop consumes the input; at its end one more turn drains what
    [finish] completed. *)
Fixpoint poll_loop (f : FilterExec) (s : FilterExecStream) (input : trace RecordBatch)
    : option (option (Poll (list row)) * (FilterExecStream * trace RecordBatch)) :=
  match ready s with
  | (Some b, s) => Some (Some (Item (Ok b)), (s, input))
  | (None, s) =>
      if Coalesce.is_finished (batch_coalescer s) then Some (None, (s, input))
      else match input with
      | [] =>
          match ready (finish s) with
          | (Some b, s) => Some (Some (Item (Ok b)), (s, []))
          | (None, s) => Some (None, (s, []))
          end
      | Item (Ok batch) :: input =>
          r ← filter_batch f s batch;
          match r with
          | (Err e, s) => Some (Some (Item (Err e)), (s, input))
          | (Ok Continue, s) => poll_loop f s input
          | (Ok LimitReached, s) => poll_loop f (finish s) input
          end
      | Item (Err e) :: input => Some (Some (Item (Err e)), (s, input))
      | Pending :: input => Some (Some Pending, (s, input))
      end
  end.

Definition poll_next (f : FilterExec) (s : FilterExecStream * trace RecordBatch) := poll_loop f s.1 s.2.

(** The stream polled to its end. *)
Definition run (f : FilterExec) (fuel : nat) (input : trace RecordBatch)
    : option (trace (list row) * (FilterExecStream * trace RecordBatch)) :=
  Streams.drive (poll_next f) fuel (execute f, input).

End Operator.

(** ** Kept rows *)

Definition project_kept (projection : option (list nat)) (r : row) : row :=
  match projection with Some p => CaseMethods.project_row p r | None => r end.

(** The rows of a batch where the predicate is true, projected. *)
Definition kept (value : row → option (option value)) (projection : option (list nat)) (b : RecordBatch) : list row :=
  map (project_kept projection) (filter (λ r, value r = Some (Some (VBoolean true))) (rows b)).

Section Correct.
Context `{HA : Arrow, HF : ArrowFilter, HB : BatchCoalescer row, HCells : ArrowCells}.
Context `{!ArrowOk, !ArrowFilterOk, !BatchCoalescerOk row}.
Variables (schema : list DataType) (f : FilterExec) (value : row → option (option value)).
Hypothesis (Hpred : computes schema (predicate f) DBoolean value).
Hypothesis (Hproj : ∀ p, projection f = Some p → is_Some (CaseMethods.project_schema p schema)).

(** A batch on whose rows the predicate has values; without rows it is evaluated
    all the same. *)
Definition filterable (b : RecordBatch) : Prop :=
  batch_wf b ∧ schema_of b = schema ∧ (Z.of_nat (num_rows b) < 2 ^ 32)%Z ∧
  if decide (num_rows b = 0) then ∃ v, evaluate (predicate f) b = Some (Ok v) ∧ fits 0 DBoolean v
  else is_Some (mapM value (rows b)).

Lemma mask_filter (l : list row) vs :
  mapM value l = Some vs → Forall (has_type DBoolean) vs →
  mask_list (selection (map (fmap value_bool) vs)) l = filter (λ r, value r = Some (Some (VBoolean true))) l.
Proof.
  revert vs. induction l as [|r l IH]; intros vs Hvs Hty; cbn in Hvs; [by injection Hvs as <-|].
  destruct (value r) as [c|] eqn:Hr; [|done]. cbn in Hvs. apply bind_Some in Hvs as (vs' & Hvs & [= <-]).
  apply Forall_cons in Hty as [Hc Hty]. rewrite filter_cons, Hr. cbn [map selection mask_list].
  fold (selection (map (fmap value_bool) vs')). rewrite (IH vs' Hvs Hty).
  destruct c as [[[]| | | |]|]; cbn in Hc |- *; try done; by case_decide.
Qed.

(** The mask the predicate gives. *)
Lemma predicate_mask b :
  filterable b →
  ∃ v m, evaluate (predicate f) b = Some (Ok v) ∧ as_bools (into_array v (num_rows b)) = Some m ∧
    length m = num_rows b ∧
    mask_list (selection m) (rows b) = filter (λ r, value r = Some (Some (VBoolean true))) (rows b).
Proof.
  intros (Hwf & Hs & Hu & Hev). pose proof (length_rows b) as Hlen.
  assert (∃ v, evaluate (predicate f) b = Some (Ok v) ∧ fits (num_rows b) DBoolean v ∧
    (0 < num_rows b → mapM value (rows b) = Some (spread (num_rows b) v))) as (v & Hv & Hfit & Hsp).
  { case_decide as Hn; [destruct Hev as (v & ? & ?); exists v; rewrite Hn; split_and!; [done..|lia]|].
    destruct Hev as [vs Hvs]. destruct (proj2 Hpred b vs) as (v & ? & ? & <-); try done; [lia|]. by exists v. }
  exists v, (map (fmap value_bool) (spread (num_rows b) v)). split; [done|].
  rewrite as_bools_cells by (rewrite into_array_type; apply Hfit). rewrite (cells_into_array _ _ _ Hfit).
  split; [done|]. split; [by rewrite length_map; apply (length_spread _ _ _ Hfit)|].
  destruct (decide (num_rows b = 0)) as [Hn|Hn].
  - rewrite Hn in Hlen. apply nil_length_inv in Hlen as ->. by destruct (selection _).
  - apply mask_filter; [apply Hsp; lia|by eapply spread_typed].
Qed.
(** The projected batch, masked, has the kept rows. *)
Lemma projected_ok b m :
  batch_wf b → schema_of b = schema →
  mask_list (selection m) (rows b) = filter (λ r, value r = Some (Some (VBoolean true))) (rows b) →
  ∃ b', match projection f with Some p => project_batch b p | None => Ok b end = Ok b' ∧ batch_wf b' ∧
    num_rows b' = num_rows b ∧ rows (mask_batch (selection m) b') = kept value (projection f) b.
Proof.
  intros Hwf Hs Hmask.
  assert (∃ b', match projection f with Some p => project_batch b p | None => Ok b end = Ok b' ∧ batch_wf b' ∧
    num_rows b' = num_rows b ∧ rows b' = map (project_kept (projection f)) (rows b)) as (b' & Hb' & Hwf' & Hn & Hrows).
  { destruct (projection f) as [p|] eqn:Hp; [|exists b; split_and!; [done..|by rewrite map_id]].
    destruct (Hproj p eq_refl) as [schema' Hps].
    destruct (CaseMethods.project_batch_ok b p schema') as (b' & ? & ? & ? & _ & ?); [done|by rewrite Hs|]. by exists b'. }
  exists b'. split_and!; [done..|]. rewrite rows_mask, Hrows, mask_list_map, Hmask by done. done.
Qed.

(** [filter_and_project] keeps the same rows. *)
Lemma filter_and_project_ok b :
  filterable b →
  ∃ b', filter_and_project b (predicate f) (projection f) = Some (Ok b') ∧ rows b' = kept value (projection f) b.
Proof.
  intros Hb. destruct (predicate_mask b Hb) as (v & m & Hv & Hm & Hlen & Hmask). destruct Hb as (Hwf & Hs & _).
  destruct (projected_ok b m Hwf Hs Hmask) as (b' & Hb' & Hwf' & Hn & Hkept). exists (mask_batch (selection m) b').
  unfold filter_and_project. rewrite Hv. cbn [try_bind]. rewrite Hm.
  destruct (projection f); cbn [try_bind] in *; [rewrite Hb'|injection Hb' as ->]; cbn [try_bind];
    by rewrite filter_record_batch_ok by (rewrite ?selection_length; congruence).
Qed.

Abbreviation kept_rows l := (concat (map (kept value (projection f)) l)).

Lemma filter_batch_ok b s pushed out :
  filterable b → Coalesce.holds (fetch f) (batch_coalescer s) pushed out → Coalesce.finished (batch_coalescer s) = false →
  ∃ st s', filter_batch f s b = Some (Ok st, s') ∧
    Coalesce.holds (fetch f) (batch_coalescer s') (pushed ++ kept value (projection f) b) out ∧
    Coalesce.finished (batch_coalescer s') = false ∧
    (st = LimitReached ↔ Coalesce.limit_hit (fetch f) (pushed ++ kept value (projection f) b)) ∧
    selectivity_part s' = selectivity_part s ∧ selectivity_total s' = selectivity_total s + num_rows b.
Proof.
  intros Hb Hh Hnf. destruct (predicate_mask b Hb) as (v & m & Hv & Hm & Hlen & Hmask). destruct Hb as (Hwf & Hs & _).
  destruct (projected_ok b m Hwf Hs Hmask) as (b' & Hb' & Hwf' & Hn & Hkept).
  unfold filter_batch. rewrite Hv. cbn. rewrite Hb', Hm, filter_record_batch_ok by (rewrite ?selection_length; congruence).
  cbn [arrow_result]. rewrite Hkept. cbn [add_total batch_coalescer].
  destruct (Coalesce.push_batch_holds (fetch f) _ pushed out (kept value (projection f) b) Hh Hnf) as (st & c & -> & Hc & Hcf & Hst).
  eexists _, _. split; [done|]. cbn. by rewrite Hn.
Qed.

(** [read] has been read of the input, [rest] is left, [out] has been returned. *)
Record inv (s : FilterExecStream) (read rest : trace RecordBatch) (out : trace (list row)) : Prop := {
  i_holds : Coalesce.holds (fetch f) (batch_coalescer s) (kept_rows (Streams.oks read)) (concat (Streams.oks out));
  i_errors : Streams.errors out = Streams.errors read;
  i_part : selectivity_part s = length (concat (Streams.oks out));
  i_total : selectivity_total s = list_sum (map num_rows (Streams.oks read));
  i_finished : Coalesce.finished (batch_coalescer s) = true →
    rest = [] ∨ Coalesce.limit_hit (fetch f) (kept_rows (Streams.oks read));
}.

Lemma execute_inv input : inv (execute f) [] input [].
Proof. split; try done. apply Coalesce.new_holds. Qed.

Lemma ready_ok s read rest out :
  inv s read rest out →
  match ready s with
  | (Some b, s') => inv s' read rest (out ++ [Item (Ok b)]) ∧
      Coalesce.finished (batch_coalescer s') = Coalesce.finished (batch_coalescer s) ∧
      S (length (completed (Coalesce.co_inner (batch_coalescer s')))) = length (completed (Coalesce.co_inner (batch_coalescer s)))
  | (None, s') => s' = s ∧ completed (Coalesce.co_inner (batch_coalescer s)) = []
  end.
Proof.
  intros [Hh He Hp Ht Hf]. unfold ready. pose proof (Coalesce.next_holds _ _ _ _ Hh) as Hn.
  destruct (Coalesce.next_completed_batch _) as [[b|] c].
  - destruct Hn as (Hh' & Hfin & Hlen & _). split; [|done]. split; cbn [batch_coalescer selectivity_part selectivity_total].
    + rewrite Streams.trace_oks_app, concat_app. cbn. by rewrite app_nil_r.
    + rewrite Streams.errors_app. cbn. by rewrite app_nil_r.
    + rewrite Streams.trace_oks_app, concat_app, length_app. cbn. rewrite app_nil_r. lia.
    + done.
    + by rewrite Hfin.
  - destruct Hn as [-> Hc]. split; [by destruct s|done].
Qed.

Lemma finish_inv s read rest out :
  inv s read rest out → rest = [] ∨ Coalesce.limit_hit (fetch f) (kept_rows (Streams.oks read)) → inv (finish s) read rest out.
Proof. intros [Hh He Hp Ht Hf] Hor. split; cbn; try done. by apply Coalesce.finish_holds. Qed.

(** A poll that is not an item of the stream's own. *)
Lemma pass_inv s read rest out p :
  inv s read (p :: rest) out →
  Coalesce.finished (batch_coalescer s) = false → Streams.poll_ok p = [] →
  inv s (read ++ [p]) rest (out ++ [match p with Item (Err e) => Item (Err e) | _ => Pending end]).
Proof.
  intros [Hh He Hp Ht Hf] Hnf Hok. destruct p as [|[b|e]]; [|done|];
    (split; rewrite ?Streams.trace_oks_app, ?Streams.errors_app; cbn; rewrite ?app_nil_r, ?He; try done; by rewrite Hnf).
Qed.

Lemma read_inv s s' st read rest out b :
  inv s read (Item (Ok b) :: rest) out →
  Coalesce.holds (fetch f) (batch_coalescer s') (kept_rows (Streams.oks read) ++ kept value (projection f) b) (concat (Streams.oks out)) →
  Coalesce.finished (batch_coalescer s') = false →
  (st = LimitReached ↔ Coalesce.limit_hit (fetch f) (kept_rows (Streams.oks read) ++ kept value (projection f) b)) →
  selectivity_part s' = selectivity_part s → selectivity_total s' = selectivity_total s + num_rows b →
  inv (match st with Continue => s' | LimitReached => finish s' end) (read ++ [Item (Ok b)]) rest out.
Proof.
  intros [Hh He Hp Ht Hf] Hh' Hnf Hst Hp' Ht'.
  assert (Hk : kept_rows (Streams.oks (read ++ [Item (Ok b)])) = kept_rows (Streams.oks read) ++ kept value (projection f) b).
  { rewrite Streams.trace_oks_app, map_app, concat_app. cbn. by rewrite app_nil_r. }
  assert (Hi : inv s' (read ++ [Item (Ok b)]) rest out).
  { split; rewrite ?Hk, ?Hp', ?Ht', ?Streams.errors_app; cbn; rewrite ?app_nil_r; try done.
    - rewrite Streams.trace_oks_app, map_app, list_sum_app, Ht. cbn. lia.
    - by rewrite Hnf. }
  destruct st; [done|]. apply finish_inv; [done|]. right. rewrite Hk. by apply Hst.
Qed.

Definition measure (s : FilterExecStream * trace RecordBatch) : nat * nat :=
  (length s.2 + (if Coalesce.finished (batch_coalescer s.1) then 0 else 1),
   length (completed (Coalesce.co_inner (batch_coalescer s.1)))).

Abbreviation below x y := (x.1 < y.1 ∨ x.1 = y.1 ∧ x.2 < y.2).

(** One poll: it returns a batch, passes a pending poll or an error on, or ends. *)
Lemma filter_poll_ok s read rest out :
  inv s read rest out → (∀ b, b ∈ Streams.oks rest → filterable b) →
  ∃ p s' rest' more, rest = more ++ rest' ∧ poll_loop f s rest = Some (p, (s', rest')) ∧
    match p with
    | None => inv s' (read ++ more) rest' out ∧ Coalesce.finished (batch_coalescer s') = true ∧
        completed (Coalesce.co_inner (batch_coalescer s')) = []
    | Some p => inv s' (read ++ more) rest' (out ++ [p]) ∧ below (measure (s', rest')) (measure (s, rest))
    end.
Proof.
  revert s read. induction rest as [|p rest IH]; intros s read Hi Hall; cbn [poll_loop];
    pose proof (ready_ok _ _ _ _ Hi) as Hr; destruct (ready s) as [[b|] s1].
  1,3: destruct Hr as (Hi1 & Hf1 & Hc1); eexists (Some _), s1, _, []; (split; [done|]); (split; [done|]); rewrite app_nil_r;
    (split; [done|]); right; unfold measure; cbn [fst snd]; rewrite Hf1; lia.
  all: destruct Hr as [-> Hc]; unfold Coalesce.is_finished; destruct (Coalesce.finished (batch_coalescer s)) eqn:Hfin.
  1,3: eexists None, s, _, []; (split; [done|]); (split; [done|]); rewrite app_nil_r; by split_and!.
  - pose proof (finish_inv _ _ _ _ Hi (or_introl eq_refl)) as Hi1. pose proof (ready_ok _ _ _ _ Hi1) as Hr.
    destruct (ready (finish s)) as [[b|] s1].
    + destruct Hr as (Hi2 & Hf2 & Hc2). eexists (Some _), s1, [], []. rewrite (app_nil_r read). split_and!; [done..|].
      left. unfold measure. cbn [fst snd length]. rewrite Hf2, Hfin. cbn. lia.
    + destruct Hr as [-> Hc2]. eexists None, (finish s), [], []. rewrite (app_nil_r read). by split_and!.
  - destruct p as [|[b|e]].
    1,3: eexists (Some _), s, rest, [_]; (split; [done|]); (split; [done|]);
      (split; [by apply pass_inv|left; unfold measure; cbn; lia]).
    destruct (filter_batch_ok b s _ _ ltac:(apply Hall; by left) (i_holds _ _ _ _ Hi) Hfin)
      as (st & s1 & Hfb & Hh1 & Hf1 & Hst & Hp1 & Ht1).
    pose proof (read_inv _ _ st _ _ _ _ Hi Hh1 Hf1 Hst Hp1 Ht1) as Hi1. rewrite Hfb. cbn [mbind option_bind].
    destruct (IH _ _ Hi1) as (p & s2 & rest' & more & -> & Hpoll & Hpost); [intros x Hx; apply Hall; by right|].
    exists p, s2, rest', (Item (Ok b) :: more). split; [done|].
    split; [by destruct st; rewrite Hpoll|]. rewrite cons_middle, (assoc_L (++)).
    destruct p as [p|]; [|done]. destruct Hpost as [Hi2 Hm]. split; [done|]. left.
    unfold measure in *. cbn [fst snd] in *. cbn [length]. rewrite length_app in *. rewrite Hfin.
    destruct st; [rewrite Hf1 in Hm|cbn in Hm]; lia.
Qed.

(** Polled to its end, the stream has read a prefix of its input, all of it unless
    the limit is reached, and yields its kept rows and its errors. *)
Lemma filter_run_ok input :
  (∀ b, b ∈ Streams.oks input → filterable b) →
  ∃ fuel out s rest read, (∀ n, fuel ≤ n → run f n input = Some (out, (s, rest))) ∧ input = read ++ rest ∧
    concat (Streams.oks out) = Coalesce.take_fetch (fetch f) (kept_rows (Streams.oks read)) ∧
    Streams.errors out = Streams.errors read ∧
    (rest = [] ∨ Coalesce.limit_hit (fetch f) (kept_rows (Streams.oks read))) ∧
    selectivity_part s = length (concat (Streams.oks out)) ∧
    selectivity_total s = list_sum (map num_rows (Streams.oks read)).
Proof.
  intros Hall.
  destruct (Streams.drive_total (poll_next f) measure
    (λ s out, ∃ read, input = read ++ s.2 ∧ inv s.1 read s.2 out)
    (λ s out, ∃ read, input = read ++ s.2 ∧ inv s.1 read s.2 out ∧ Coalesce.finished (batch_coalescer s.1) = true ∧
       completed (Coalesce.co_inner (batch_coalescer s.1)) = []))
    with (s := (execute f, input)) (out := @nil (Poll (list row))) as (fuel & out & [s rest] & Hdrive & read & Hin & Hi & Hfin & Hc).
  - intros [s rest] out (read & Hin & Hi). cbn in Hin, Hi.
    destruct (filter_poll_ok s read rest out Hi) as (p & s' & rest' & more & -> & Hpoll & Hpost).
    { intros b Hb. apply Hall. rewrite Hin, Streams.trace_oks_app. apply elem_of_app. by right. }
    exists p, (s', rest'). split; [done|]. rewrite (assoc_L (++)) in Hin. destruct p as [p|].
    + destruct Hpost as [Hi' Hm]. split; [by exists (read ++ more)|done].
    + destruct Hpost as (Hi' & ? & ?). by exists (read ++ more).
  - exists []. split; [done|]. apply execute_inv.
  - cbn in Hin, Hi, Hfin, Hc. exists fuel, out, s, rest, read. destruct Hi as [Hh He Hp Ht Hf].
    split_and!; try done; [|by apply Hf]. by eapply Coalesce.drained; [..|left].
Qed.

End Correct.

Lemma can_project_ok schema p :
  can_project schema (Some p) = Ok () → is_Some (CaseMethods.project_schema p schema).
Proof.
  cbn. destruct (forallb _ p) eqn:Hp; [|done]. intros _. apply mapM_is_Some, Forall_forall. intros i Hi.
  apply lookup_lt_is_Some. eapply forallb_forall in Hp; [|by apply list_elem_of_In]. by apply bool_decide_eq_true in Hp.
Qed.

Lemma filter_build_ok schema f f' :
  build schema f = Ok f' →
  f' = f ∧ data_type (predicate f) schema = Ok DBoolean ∧
  ∀ p, projection f = Some p → is_Some (CaseMethods.project_schema p schema).
Proof.
  unfold build. destruct (data_type _ _) as [ty|]; cbn; [|done]. repeat (case_decide; [done|]).
  destruct (can_project _ _) as [[]|] eqn:Hp; cbn; [|done]. intros [= <-]. split_and!; [done|f_equal; by destruct (decide (ty = DBoolean))|].
  intros p Hpr. rewrite Hpr in Hp. by apply can_project_ok.
Qed.

Section Stream.
Context `{HA : Arrow, HT : ArrowText, HC : Coercions, HF : ArrowFilter, HH : Foldhash, HCells : ArrowCells, HB : BatchCoalescer row}.
Variables (debug_assertions : bool) (h : Scatter.hidden) (at_null : value).
Variable (bit_value : Datum.Operator → value → value → value).
Context `{!ArrowOk, !ArrowFilterOk, !Binary.BitwiseOk bit_value, !BatchCoalescerOk row}.

(** C13. A filter that [build] accepts, with a well-typed predicate, over an input whose batches have predicate values,
    interleaved with errors and pending polls.  Polled until it ends it neither panics nor fails by itself: it has read a
    prefix of the input, all of it unless the kept rows of what it read reach the fetch limit; it yields exactly the
    rows of that prefix whose predicate is true, projected, in order and cut to the limit; it passes the errors of the
    prefix on; and its selectivity counts the rows it returned of the rows it read. *)
Theorem filter_exec_rows schema p f input :
  Exprs.wt debug_assertions h at_null schema p DBoolean →
  predicate f = Exprs.to_dyn debug_assertions h at_null p → build schema f = Ok f →
  (∀ b, b ∈ Streams.oks input → filterable schema f (Exprs.row_value debug_assertions h at_null bit_value schema p) b) →
  ∃ fuel out s rest read, (∀ n, fuel ≤ n → run f n input = Some (out, (s, rest))) ∧ input = read ++ rest ∧
    let rows_kept := concat (map (kept (Exprs.row_value debug_assertions h at_null bit_value schema p) (projection f))
                               (Streams.oks read)) in
    concat (Streams.oks out) = Coalesce.take_fetch (fetch f) rows_kept ∧
    Streams.errors out = Streams.errors read ∧ (rest = [] ∨ Coalesce.limit_hit (fetch f) rows_kept) ∧
    selectivity_part s = length (concat (Streams.oks out)) ∧
    selectivity_total s = list_sum (map num_rows (Streams.oks read)).
Proof.
  intros Hwt Hp Hb Hall. destruct (filter_build_ok _ _ _ Hb) as (_ & _ & Hproj). apply (filter_run_ok schema); try done.
  rewrite Hp. by apply (Evaluate.well_typed_computes _ _ _ bit_value).
Qed.
End Stream.

Section Sample.
Import Construct.
#[local] Existing Instances plain_filter plain_filter_ok HashUtils.sample_hash.
#[local] Instance sample_queue : BatchCoalescer row := Coalesce.queue_coalescer row.
#[local] Instance sample_queue_ok : BatchCoalescerOk row := Coalesce.queue_coalescer_ok row.

(** WHERE x > 5, the column x, at most three rows. *)
Definition sample_filter : FilterExec :=
  mkFilterExec (Exprs.to_dyn false no_hidden (VInt64 0) x_above_5) 20 (Some [1]) 2 (Some 3).

Definition sample_input : trace RecordBatch :=
  [Item (Ok (sample_batch [Some 7; Some 1]%Z)); Pending; Item (Err (Execution "io"));
   Item (Ok (sample_batch [Some 9; None; Some 8; Some 10]%Z)); Item (Ok (sample_batch [Some 11]%Z))].

Lemma filter_exec_rows_witness :
  ∃ fuel out s rest read, (∀ n, fuel ≤ n → run sample_filter n sample_input = Some (out, (s, rest))) ∧
    sample_input = read ++ rest ∧ Streams.errors out = Streams.errors read ∧
    fst <$> run sample_filter 9 sample_input =
      Some [Pending; Item (Err (Execution "io")); Item (Ok [[Some (VInt64 7)]; [Some (VInt64 9)]; [Some (VInt64 8)]])].
Proof.
  destruct (filter_exec_rows false no_hidden (VInt64 0) Binary.plain_bit sample_schema x_above_5 sample_filter sample_input)
    as (fuel & out & s & rest & read & Hrun & Hin & _ & He & _).
  - apply x_above_5_wt.
  - done.
  - by vm_compute.
  - intros b Hb. cbn in Hb. repeat (apply elem_of_cons in Hb as [-> |Hb]); [..|by apply elem_of_nil in Hb];
      (split; [by repeat constructor|]); (split; [done|]); (split; [done|]); vm_compute; by eexists.
  - exists fuel, out, s, rest, read. split_and!; [done..|]. by vm_compute.
Defined.

End Sample.

End Filter.
