(* ===== verification/LimitExec.v ===== *)
(** * Skipping and limiting a stream (physical-plan/src/limit.rs)

    [LimitStream] drops the first [skip] rows of its input and returns the next
    [fetch]; it serves [GlobalLimitExec] and [LocalLimitExec].  A batch is its list
    of rows.  Proved: polled to its end it returns exactly those rows, passes errors
    on, and drops its input with the batch that reaches the limit, whatever would
    have followed. *)

From stdpp Require Import base list strings.
From Stdlib Require Import NArith ZArith Lia.
From S2P Require Import Prelude Streams.

Module Limit.

(** [usize::MAX] *)
Definition usize_max : N := (2 ^ 64 - 1)%N.

Section Stream.
Context {A : Type}.

Record LimitStream := mkLimit {
  skip : N;
  fetch : N;
  input : option (trace (list A));
}.

Definition new (input : trace (list A)) (skip : N) (fetch : option N) : LimitStream :=
  mkLimit skip (default usize_max fetch) (Some input).

Definition num_rows (b : list A) : N := N.of_nat (length b).

(** Polls until a batch is left with rows after skipping; a batch that is skipped as a
    whole becomes an empty one and the loop goes on. *)
Fixpoint poll_and_skip (skip : N) (t : trace (list A)) : option (Poll (list A)) * N * trace (list A) :=
  match t with
  | [] => (None, skip, [])
  | Item (Ok batch) :: t =>
      if (num_rows batch <=? skip)%N then poll_and_skip (skip - num_rows batch) t
      else (Some (Item (Ok (drop (N.to_nat skip) batch))), 0%N, t)
  | p :: t => (Some p, skip, t)
  end.

(** Fetches from the batch *)
Definition stream_limit (batch : list A) (s : LimitStream) : option (list A) * LimitStream :=
  if (fetch s =? 0)%N then (None, mkLimit (skip s) (fetch s) None)
  else if (num_rows batch <? fetch s)%N then (Some batch, mkLimit (skip s) (fetch s - num_rows batch) (input s))
  else (Some (take (N.to_nat (fetch s)) batch), mkLimit (skip s) 0 None).

Definition poll_next (s : LimitStream) : option (Poll (list A)) * LimitStream :=
  let fetch_started := (skip s =? 0)%N in
  match input s with
  | Some t =>
      let '(p, skip, t) :=
        if fetch_started then let '(p, t) := Streams.poll_input t in (p, skip s, t) else poll_and_skip (skip s) t in
      let s := mkLimit skip (fetch s) (Some t) in
      match p with
      | Some (Item (Ok batch)) =>
          match stream_limit batch s with
          | (Some batch, s) => (Some (Item (Ok batch)), s)
          | (None, s) => (None, s)
          end
      | other => (other, s)
      end
  | None => (None, s)
  end.

Definition run (fuel : nat) (s : LimitStream) : option (trace (list A) * LimitStream) :=
  Streams.drive (λ s, Some (poll_next s)) fuel s.

(** [GlobalLimitExec::execute] over the partitions of its input *)
Definition GlobalLimitExec_execute (skip : N) (fetch : option N) (partition : nat) (inputs : list (trace (list A)))
    : Result LimitStream :=
  if decide (partition ≠ 0) then Err (Internal "GlobalLimitExec invalid partition")
  else match inputs with
  | [input] => Ok (new input skip fetch)
  | _ => Err (Internal "GlobalLimitExec requires a single input partition")
  end.

(** [LocalLimitExec::execute] of one partition *)
Definition LocalLimitExec_execute (fetch : N) (input : trace (list A)) : LimitStream := new input 0 (Some fetch).

(** ** Rows *)

Section Rows.
Variables (skip0 fetch0 : nat) (input0 : trace (list A)).

Abbreviation all_rows t := (concat (Streams.oks t)).
Definition window (l : list A) : list A := take fetch0 (drop skip0 l).

(** The limit is not reached.  A limit of zero is noticed at the first batch with a row to return. *)
Definition below (l : list A) : Prop := length (drop skip0 l) < max 1 fetch0.

(** The last batch read has reached the limit. *)
Definition reached (read : trace (list A)) : Prop :=
  fetch0 ≤ length (drop skip0 (all_rows read)) ∧ ∃ pre b, read = pre ++ [Item (Ok b)] ∧ below (all_rows pre).

(** The stream with another rest of its input. *)
Definition replace (t : trace (list A)) (s : LimitStream) : LimitStream :=
  mkLimit (skip s) (fetch s) (match input s with Some _ => Some t | None => None end).

(** The polls so far depend on [read] only. *)
Definition replays (start : trace (list A) → LimitStream) (s : LimitStream) (read out : trace (list A)) : Prop :=
  ∀ t n r, run n (replace t s) = Some r → run (length out + n) (start (read ++ t)) = Some (out ++ r.1, r.2).

(** [read] has been read; [input s] is what is left, or cleared at the limit. *)
Record inv (s : LimitStream) (read rest : trace (list A)) (out : trace (list A)) : Prop := {
  i_split : input0 = read ++ rest;
  i_rows : all_rows out = window (all_rows read);
  i_errors : Streams.errors out = Streams.errors read;
  i_skip : N.to_nat (skip s) = skip0 - length (all_rows read);
  i_fetch : N.to_nat (fetch s) = fetch0 - length (drop skip0 (all_rows read));
  i_input : input s = Some rest ∧ below (all_rows read) ∨ input s = None ∧ reached read;
}.

(** Reading a batch extends the window by what is left of it. *)
Lemma window_app l b :
  window (l ++ b) = window l ++ take (fetch0 - length (drop skip0 l)) (drop (skip0 - length l) b).
Proof. unfold window. by rewrite drop_app, take_app. Qed.

(** The first stage of a poll, once the rows to skip are gone or before. *)
Definition stage (k : N) (t : trace (list A)) : option (Poll (list A)) * N * trace (list A) :=
  if (k =? 0)%N then let '(p, t) := Streams.poll_input t in (p, k, t) else poll_and_skip k t.

(** What a stage has read with [more]: rows that are skipped, then the end, an error, a pending poll or a batch. *)
Definition stage_ok (k : N) (p : option (Poll (list A))) (k' : N) (more t' : trace (list A)) : Prop :=
  match p with
  | Some (Item (Ok b)) => ∃ skipped b0 pre, more = skipped ++ [Item (Ok b0)] ∧ length (all_rows skipped) ≤ N.to_nat k ∧
      all_rows more = pre ++ b ∧ length pre = N.to_nat k ∧ k' = 0%N ∧ Streams.errors more = []
  | Some p => length (all_rows more) + N.to_nat k' = N.to_nat k ∧ Streams.errors more = Streams.poll_error p ∧ more ≠ []
  | None => length (all_rows more) + N.to_nat k' = N.to_nat k ∧ Streams.errors more = [] ∧ t' = []
  end.

(** The loop over skipped batches reads what it skips, and nothing of what follows. *)
Lemma poll_and_skip_ok k t :
  let '(p, k', t') := poll_and_skip k t in
  ∃ more, t = more ++ t' ∧ stage_ok k p k' more t' ∧ (is_Some p → ∀ r, poll_and_skip k (more ++ r) = (p, k', r)).
Proof.
  revert k. induction t as [|[|[b|e]] t IH]; intros k; cbn [poll_and_skip].
  - exists []. split_and!; [done..|by intros [? ?]].
  - exists [Pending]. cbn. split_and!; [done|lia|done..].
  - destruct (N.leb_spec (num_rows b) k) as [Hle|Hgt]; unfold num_rows in *.
    + specialize (IH (k - N.of_nat (length b))%N). destruct (poll_and_skip _ t) as [[p k'] t'].
      destruct IH as (more & -> & Hp & Hr). exists (Item (Ok b) :: more). split; [done|]. split.
      2: { intros Hsome r. cbn. unfold num_rows. destruct (N.leb_spec (N.of_nat (length b)) k); [by apply Hr|lia]. }
      destruct p as [[|[b'|e]]|]; cbn [stage_ok] in *; rewrite Streams.oks_cons, Streams.errors_cons; cbn; rewrite ?length_app;
        [split_and!; [lia|apply Hp|done]| |split_and!; [lia|apply Hp|done]|split_and!; [lia|apply Hp..]].
      destruct Hp as (skipped & b0 & pre & -> & Hsk & Hmore & Hlen & Hp). exists (Item (Ok b) :: skipped), b0, (b ++ pre).
      rewrite Hmore, Streams.oks_cons, (assoc_L (++)), length_app. cbn. rewrite length_app.
      split_and!; [done|lia|done|lia|apply Hp..].
    + exists [Item (Ok b)]. split; [done|]. split.
      * exists [], b, (take (N.to_nat k) b). cbn. rewrite app_nil_r, take_drop, length_take. split_and!; [done|lia|done|lia|done..].
      * intros _ r. cbn. unfold num_rows. by destruct (N.leb_spec (N.of_nat (length b)) k); [lia|].
  - exists [Item (Err e)]. cbn. split_and!; [done|lia|done..].
Qed.

Lemma poll_stage_ok k t :
  let '(p, k', t') := stage k t in
  ∃ more, t = more ++ t' ∧ stage_ok k p k' more t' ∧ (is_Some p → ∀ r, stage k (more ++ r) = (p, k', r)).
Proof.
  unfold stage. destruct (N.eqb_spec k 0) as [->|_]; [|apply poll_and_skip_ok].
  destruct t as [|[|[b|e]] t]; cbn; [|by exists [Pending]| |by exists [Item (Err e)]].
  - exists []. split_and!; [done..|by intros [? ?]].
  - exists [Item (Ok b)]. split; [done|]. split; [|done]. exists [], b, []. cbn. by rewrite app_nil_r.
Qed.

(** Rows that are skipped leave the window as it is. *)
Lemma skipped_window l b :
  length b ≤ skip0 - length l → window (l ++ b) = window l ∧ length (drop skip0 (l ++ b)) = length (drop skip0 l).
Proof.
  intros Hb. rewrite window_app, (drop_ge b) by lia. rewrite take_nil, app_nil_r. split; [done|].
  rewrite drop_app, length_app, (drop_ge b) by lia. cbn. lia.
Qed.

Definition left (s : LimitStream) : nat := match input s with Some t => S (length t) | None => 0 end.

(** While the input is open the limit is not reached. *)
Lemma open_below s read rest out : inv s read rest out → input s = Some rest → below (all_rows read).
Proof. intros Hi Hin. destruct (i_input _ _ _ _ Hi) as [[_ ?]|[? _]]; [done|congruence]. Qed.

Lemma rows_app (t u : trace (list A)) : all_rows (t ++ u) = all_rows t ++ all_rows u.
Proof. by rewrite Streams.trace_oks_app, concat_app. Qed.

(** Reading [more] without a batch to return. *)
Lemma skip_inv s read rest out more t' k :
  inv s read rest out → rest = more ++ t' → input s = Some rest →
  length (all_rows more) + N.to_nat k = N.to_nat (skip s) →
  ∀ out', all_rows out' = [] → Streams.errors out' = Streams.errors more →
  inv (mkLimit k (fetch s) (Some t')) (read ++ more) t' (out ++ out').
Proof.
  intros Hi -> Hin Hlen out' Ho He'. pose proof (open_below _ _ _ _ Hi Hin) as Hb. destruct Hi as [Hs Hr He Hk Hf _].
  assert (Hw : length (all_rows more) ≤ skip0 - length (all_rows read)) by lia.
  destruct (skipped_window _ _ Hw) as [Hwin Hdrop].
  split; cbn [skip fetch input]; rewrite ?rows_app, ?Streams.errors_app, ?length_app.
  - by rewrite <- (assoc_L (++)).
  - by rewrite Ho, app_nil_r, Hwin.
  - by rewrite He, He'.
  - lia.
  - by rewrite Hdrop.
  - left. split; [done|]. unfold below. by rewrite Hdrop.
Qed.

(** Returning the rows of a batch up to the limit. *)
Lemma limit_inv s read rest out more t' b :
  inv s read rest out → rest = more ++ t' → input s = Some rest → stage_ok (skip s) (Some (Item (Ok b))) 0 more t' →
  let '(r, s') := stream_limit b (mkLimit 0 (fetch s) (Some t')) in
  match r with
  | Some b' => inv s' (read ++ more) t' (out ++ [Item (Ok b')])
  | None => inv s' (read ++ more) t' out ∧ input s' = None
  end ∧ left s' ≤ S (length t').
Proof.
  intros Hi -> Hin (skipped & b0 & pre & Hsplit & Hsk & Hmore & Hpre & _ & Hem).
  pose proof (open_below _ _ _ _ Hi Hin) as Hb. unfold below in Hb. destruct Hi as [Hs Hr He Hk Hf _].
  assert (Hdrop : drop (skip0 - length (all_rows read)) (all_rows more) = b).
  { rewrite Hmore, <- Hk, <- Hpre. apply drop_app_length. }
  assert (Hlen : length (drop skip0 (all_rows (read ++ more))) = length (drop skip0 (all_rows read)) + length b).
  { by rewrite rows_app, drop_app, length_app, Hdrop. }
  assert (Hwin : window (all_rows (read ++ more)) = window (all_rows read) ++ take (N.to_nat (fetch s)) b).
  { by rewrite rows_app, window_app, Hdrop, Hf. }
  assert (Hskip : length (all_rows (read ++ more)) ≥ skip0) by (rewrite rows_app, length_app, Hmore, length_app; lia).
  assert (Hlast : fetch0 ≤ length (drop skip0 (all_rows read)) + length b → reached (read ++ more)).
  { intros Hle. split; [by rewrite Hlen|]. exists (read ++ skipped), b0. rewrite Hsplit, (assoc_L (++)). split; [done|].
    unfold below. rewrite rows_app. destruct (skipped_window (all_rows read) (all_rows skipped)) as [_ ->]; lia. }
  assert (Hgen : ∀ b' k i, b' = take (N.to_nat (fetch s)) b → N.to_nat k = fetch0 - (length (drop skip0 (all_rows read)) + length b) →
    i = Some t' ∧ below (all_rows (read ++ more)) ∨ i = None ∧ reached (read ++ more) →
    inv (mkLimit 0 k i) (read ++ more) t' (out ++ [Item (Ok b')]) ∧
    (b' = [] → inv (mkLimit 0 k i) (read ++ more) t' out)).
  { intros b' k i -> Hk' Hi. split; [|intros Hnil]; (split; cbn [skip fetch input]; [by rewrite <- (assoc_L (++))|..]);
      rewrite ?Hlen, ?Streams.errors_app, ?Hem; cbn; rewrite ?app_nil_r; try done; try lia.
    - rewrite rows_app. cbn. by rewrite app_nil_r, Hwin, Hr.
    - by rewrite Hwin, Hnil, app_nil_r. }
  unfold stream_limit, num_rows. cbn [skip fetch input].
  destruct (N.eqb_spec (fetch s) 0) as [Hz|Hnz]; [|destruct (N.ltb_spec (N.of_nat (length b)) (fetch s)) as [Hlt|Hge]].
  - assert (N.to_nat (fetch s) = 0) as Hz' by lia. split; [|cbn; lia]. split; [|done].
    apply (Hgen []); [by rewrite Hz'|lia|right; split; [done|apply Hlast; lia]|done].
  - split; [|cbn; lia]. apply Hgen; [by rewrite take_ge by lia|lia|left; split; [done|]]. unfold below. rewrite Hlen. lia.
  - split; [|cbn; lia]. apply Hgen; [done|lia|right; split; [done|apply Hlast; lia]].
Qed.

(** The limit of a batch does not look at the rest of the input. *)
Lemma stream_limit_replace b k f t r :
  stream_limit b (mkLimit k f (Some r)) =
    ((stream_limit b (mkLimit k f (Some t))).1, replace r (stream_limit b (mkLimit k f (Some t))).2).
Proof. unfold stream_limit. cbn. by repeat case_match. Qed.

Lemma limit_poll_ok s read rest out :
  inv s read rest out →
  ∃ p s' more rest', poll_next s = (p, s') ∧
    match p with
    | None => inv s' (read ++ more) rest' out ∧ (input s' = Some [] ∨ input s' = None ∧ ∀ r, poll_next (replace (more ++ r) s) = (None, s'))
    | Some p => inv s' (read ++ more) rest' (out ++ [p]) ∧ left s' < left s ∧
        ∀ r, poll_next (replace (more ++ r) s) = (Some p, replace r s')
    end.
Proof.
  intros Hi. destruct (i_input _ _ _ _ Hi) as [[Hin _]|[Hin Hle]].
  2: { exists None, s, [], rest. unfold poll_next. rewrite Hin, app_nil_r. split_and!; [done..|right].
       split; [done|]. intros r. cbn. rewrite Hin. by destruct s; cbn in *; subst. }
  unfold poll_next. cbn [replace skip fetch input]. rewrite Hin.
  change (if (skip s =? 0)%N then let '(p, t) := Streams.poll_input rest in (p, skip s, t) else poll_and_skip (skip s) rest)
    with (stage (skip s) rest).
  pose proof (poll_stage_ok (skip s) rest) as Hst. destruct (stage (skip s) rest) as [[p k'] t'].
  destruct Hst as (more & Hrest & Hp & Hrep). unfold stage in Hrep. assert (Hleft : left s = S (length more + length t')).
  { unfold left. rewrite Hin, Hrest, length_app. done. }
  destruct p as [[|[b|e]]|].
  1,3: destruct Hp as (Hlen & He & Hne); eexists (Some _), _, more, t'; (split; [done|]);
    (split; [by eapply skip_inv|]); (split; [rewrite Hleft; destruct more; [done|]; cbn; lia|]); intros r; by rewrite Hrep by by eexists.
  - assert (k' = 0%N) as -> by (by destruct Hp as (? & ? & ? & _ & _ & _ & _ & -> & _)).
    pose proof (limit_inv s read rest out more t' b Hi Hrest Hin Hp) as Hl.
    pose proof (λ r, stream_limit_replace b 0 (fetch s) t' r) as Hsame.
    assert (more ≠ []) as Hne by (destruct Hp as (skipped & ? & ? & -> & _); by destruct skipped).
    destruct (stream_limit b (mkLimit 0 (fetch s) (Some t'))) as [[b'|] s']; cbn [fst snd] in Hsame; destruct Hl as [Hl Hm].
    + eexists (Some _), s', more, t'. split; [done|]. split; [done|]. split; [rewrite Hleft; destruct more; [done|]; cbn; lia|].
      intros r. rewrite Hrep by by eexists. by rewrite Hsame.
    + exists None, s', more, t'. split; [done|]. destruct Hl as [Hl Hnone]. split; [done|]. right. split; [done|].
      intros r. rewrite Hrep by by eexists. rewrite Hsame. unfold replace. rewrite Hnone. by destruct s'; cbn in *; subst.
  - destruct Hp as (Hlen & He & ->). exists None. eexists _, more, []. split; [done|]. split; [|by left].
    rewrite <- (app_nil_r out). by eapply skip_inv.
Qed.

Lemma replays_step start s s' read out more p :
  replays start s read out → (∀ r, poll_next (replace (more ++ r) s) = (Some p, replace r s')) →
  replays start s' (read ++ more) (out ++ [p]).
Proof.
  intros Hr Hp t n [o e] Hn. rewrite <- !(assoc_L (++)), length_app. cbn [length fst snd].
  replace (length out + 1 + n) with (length out + S n) by lia. apply (Hr (more ++ t) (S n) (p :: o, e)).
  unfold run in *. cbn [Streams.drive mbind option_bind]. rewrite Hp. cbn [mbind option_bind]. by rewrite Hn.
Qed.

Lemma limit_run_ok start :
  inv (start input0) [] input0 [] → (∀ t, replace t (start input0) = start t) →
  ∃ fuel out s' read rest, (∀ n, fuel ≤ n → run n (start input0) = Some (out, s')) ∧ input0 = read ++ rest ∧
    all_rows out = window (all_rows read) ∧ Streams.errors out = Streams.errors read ∧
    match input s' with
    | Some t => t = [] ∧ rest = [] ∧ below (all_rows read)
    | None => reached read ∧ ∀ rest' n, fuel ≤ n → run n (start (read ++ rest')) = Some (out, s')
    end.
Proof.
  intros Hi Hstart.
  destruct (Streams.drive_total (λ s, Some (poll_next s)) (λ s, (left s, 0))
    (λ s out, ∃ read rest, inv s read rest out ∧ replays start s read out)
    (λ s out, ∃ read rest, inv s read rest out ∧
       (input s = Some [] ∨ input s = None ∧ ∀ t n, run (length out + S n) (start (read ++ t)) = Some (out, s))))
    with (s := start input0) (out := @nil (Poll (list A))) as (fuel & out & s' & Hd & read & rest & Hinv & Hend).
  - intros s1 out (read & rest & Hi1 & Hrep).
    destruct (limit_poll_ok s1 read rest out Hi1) as (p & s' & more & rest' & Hp & Hpost).
    exists p, s'. split; [by rewrite Hp|]. destruct p as [p|].
    + destruct Hpost as (? & ? & ?). split; [eexists _, _; split; [done|by eapply replays_step]|by left].
    + destruct Hpost as [Hi2 Hend]. eexists _, _. split; [done|]. destruct Hend as [?|[? Hend]]; [by left|right].
      split; [done|]. intros t n. rewrite <- (assoc_L (++)). pose proof (Hrep (more ++ t) (S n) ([], s')) as Hrun. cbn in Hrun.
      rewrite app_nil_r in Hrun. apply Hrun.
      unfold run. cbn. by rewrite Hend.
  - exists [], input0. split; [done|]. intros t n [o e] Hn. by rewrite Hstart in Hn.
  - exists (fuel + S (length out)), out, s', read, rest. cbn [app] in Hend. destruct Hinv as [Hs Hr He _ _ Hin].
    split_and!; [intros n Hn; apply Hd; lia|done..|]. destruct Hin as [[Hin Hb]|[Hin Hre]]; rewrite Hin.
    + destruct Hend as [Hend|[Hend _]]; [|congruence]. rewrite Hin in Hend. injection Hend as ->. done.
    + split; [done|]. intros rest' n Hn. destruct Hend as [Hend|[_ Hend]]; [congruence|].
      replace n with (length out + S (n - S (length out))) by lia. apply Hend.
Qed.

End Rows.
(** C17. [LIMIT fetch OFFSET skip]: executing a global limit over its single input, a trace of batches, errors and pending
    polls, and polling it until it ends.  It has read a prefix of the input; the rows it returned are those of the prefix
    without the first [skip], cut to [fetch] (without a limit to usize::MAX); and the errors of the prefix are passed on.
    Either the input has ended below the limit, or the last batch of the prefix was the first to reach it: then the input
    has been dropped, and whatever follows the prefix the output is the same.  A local limit is the same without skipping. *)
Theorem limit_exec_rows skip0 fetch0 input0 :
  let rows t := concat (Streams.oks t) in
  let kept t := drop (N.to_nat skip0) (rows t) in
  let fetch := N.to_nat (default usize_max fetch0) in
  ∃ s, GlobalLimitExec_execute skip0 fetch0 0 [input0] = Ok s ∧
  (∀ fetch, skip0 = 0%N → fetch0 = Some fetch → LocalLimitExec_execute fetch input0 = s) ∧
  ∃ fuel out s' read rest, (∀ n, fuel ≤ n → run n s = Some (out, s')) ∧ input0 = read ++ rest ∧
    rows out = take fetch (kept read) ∧ Streams.errors out = Streams.errors read ∧
    match input s' with
    | Some t => t = [] ∧ rest = [] ∧ length (kept read) < max 1 fetch
    | None =>
        (fetch ≤ length (kept read) ∧ ∃ before b, read = before ++ [Item (Ok b)] ∧ length (kept before) < max 1 fetch) ∧
        ∀ rest' n, fuel ≤ n → run n (new (read ++ rest') skip0 fetch0) = Some (out, s')
    end.
Proof.
  intros rows kept fetch1. exists (new input0 skip0 fetch0). split; [done|]. split; [by intros fetch -> ->|].
  apply (limit_run_ok (N.to_nat skip0) fetch1 input0 (λ t, new t skip0 fetch0)); [|done].
  split; cbn [skip fetch input new].
  - done.
  - unfold window. change (concat (Streams.oks [])) with (@nil A). by rewrite drop_nil, take_nil.
  - done.
  - cbn. lia.
  - change (concat (Streams.oks [])) with (@nil A). rewrite drop_nil. cbn [length]. lia.
  - left. split; [done|]. unfold below. change (concat (Streams.oks [])) with (@nil A). rewrite drop_nil. cbn [length]. lia.
Qed.

End Stream.
End Limit.
