(* ===== verification/ProjectionExec.v ===== *)
(** * Projecting a stream (physical-plan/src/projection.rs, physical-expr/src/projection.rs)

    [ProjectionStream] evaluates a list of expressions on every batch.  Proved: the
    stream returns, poll by poll, the batches whose rows are the values of the
    expressions on the rows of the input, and passes errors and pending polls on. *)

From stdpp Require Import base list strings.
From Stdlib Require Import ZArith Lia.
From S2P Require Import Prelude Relation HashUtils Columnar Datum Scatter CaseExpr BinaryExpr InList HashExprs CaseMethods PhysicalExprs CaseConstruct ExprEvaluation Streams.

(** [RecordBatch::try_new_with_options]; without a row count it is the length of the columns. *)
Class BatchNew := {
  record_batch_try_new : Schema → list array → option nat → RecordBatch + string;
}.

(** A column fits its field. *)
Definition column_fits (n : nat) (f : Field) (a : array) : Prop :=
  array_type a = f_type f ∧ array_len a = n ∧ (f_nullable f = false → None ∉ cells a).

(** Documented: an error if the columns do not match the schema in number, type and
    nullability, if their lengths differ, or if there are none and no row count. *)
Class BatchNewOk `{BatchNew} : Prop := {
  record_batch_try_new_ok : ∀ schema cols count n,
    Forall2 (column_fits n) schema cols → (cols = [] → count = Some n) → (∀ c, count = Some c → c = n) →
    record_batch_try_new schema cols count = inl {| columns := cols; num_rows := n |};
}.

Module Projection.

Section Operator.
Context `{HA : Arrow, HN : BatchNew}.

Definition into_array_of_size (v : ColumnarValue) (num_rows : nat) : Result array :=
  match v with
  | Array a => if decide (array_len a = num_rows) then Ok a else Err (Internal "Array length does not match expected length")
  | Scalar s => Ok (to_array_of_size s num_rows)
  end.

Definition evaluate_expressions_to_arrays (exprs : list dyn) (batch : RecordBatch) : option (Result (list array)) :=
  Exprs.try_map (λ e, v ←? evaluate e batch; Some (into_array_of_size v (num_rows batch))) exprs.

Record Projector := mkProjector { projection : list dyn; output_schema : Schema }.

Definition project_batch (p : Projector) (batch : RecordBatch) : option (Result RecordBatch) :=
  arrays ←? evaluate_expressions_to_arrays (projection p) batch;
  if decide (arrays = []) then
    Some (arrow_result (record_batch_try_new (output_schema p) arrays (Some (num_rows batch))))
  else Some (arrow_result (record_batch_try_new (output_schema p) arrays None)).

Definition poll_next (p : Projector) (input : trace RecordBatch) : option (option (Poll RecordBatch) * trace RecordBatch) :=
  match Streams.poll_input input with
  | (Some (Item (Ok batch)), input) => r ← project_batch p batch; Some (Some (Item r), input)
  | (other, input) => Some (other, input)
  end.

Definition run (p : Projector) (fuel : nat) (input : trace RecordBatch) : option (trace RecordBatch * trace RecordBatch) :=
  Streams.drive (poll_next p) fuel input.

End Operator.

Section Correct.
Context `{HA : Arrow, HT : ArrowText, HC : Coercions, HF : ArrowFilter, HH : Foldhash, HCells : ArrowCells, HN : BatchNew}.
Variables (debug_assertions : bool) (h : Scatter.hidden) (at_null : value).
Variable (bit_value : Datum.Operator → value → value → value).
Context `{!ArrowOk, !ArrowFilterOk, !Binary.BitwiseOk bit_value, !BatchNewOk}.
Variables (schema : list DataType) (exprs : list Exprs.PhysicalExpr) (out_schema : Schema).

Abbreviation value_of := (Exprs.row_value debug_assertions h at_null bit_value schema).
Hypothesis (Htypes : Forall2 (λ e f, Exprs.wt debug_assertions h at_null schema e (f_type f)) exprs out_schema).

Definition projector : Projector := mkProjector (map (Exprs.to_dyn debug_assertions h at_null) exprs) out_schema.

(** The projected row; nulls only where the field allows them. *)
Definition project_row (r : row) : option row :=
  cs ← mapM (λ e, value_of e r) exprs;
  if decide (Forall2 (λ f (c : option value), f_nullable f = false → c ≠ None) out_schema cs) then Some cs else None.

Definition projectable (b : RecordBatch) : Prop :=
  batch_wf b ∧ schema_of b = schema ∧ 0 < num_rows b ∧ (Z.of_nat (num_rows b) < 2 ^ 32)%Z ∧
  is_Some (mapM project_row (rows b)).

Abbreviation cell e := (λ r, default None (value_of e r)).

(** One expression gives a column of its values that fits its field. *)
Lemma column_ok b e f :
  Exprs.wt debug_assertions h at_null schema e (f_type f) → batch_wf b → schema_of b = schema →
  0 < num_rows b → (Z.of_nat (num_rows b) < 2 ^ 32)%Z →
  (∀ r, r ∈ rows b → ∃ c, value_of e r = Some c ∧ (f_nullable f = false → c ≠ None)) →
  ∃ v a, evaluate (Exprs.to_dyn debug_assertions h at_null e) b = Some (Ok v) ∧ into_array_of_size v (num_rows b) = Ok a ∧
    column_fits (num_rows b) f a ∧ cells a = map (cell e) (rows b).
Proof.
  intros Hwt Hwf Hs Hn Hu Hrows.
  destruct (proj2 (Evaluate.well_typed_computes _ _ _ bit_value _ _ _ Hwt) b (map (cell e) (rows b))) as (v & Hv & Hfit & Hsp); try done.
  { apply mapM_total. intros r Hr. by destruct (Hrows r Hr) as (c & -> & _). }
  exists v, (into_array v (num_rows b)). pose proof (into_array_len _ _ _ Hfit) as Hlen.
  pose proof (cells_into_array _ _ _ Hfit) as Hcells. split_and!; [done| | |congruence].
  - destruct v as [a|s]; cbn in *; [by rewrite decide_True|done].
  - split_and!; [rewrite into_array_type; apply Hfit|done|]. intros Hf. rewrite Hcells, Hsp.
    intros (r & Hc & Hr)%list_elem_of_fmap. destruct (Hrows r Hr) as (c & Hv' & Hc'). rewrite Hv' in Hc. by apply Hc'.
Qed.

Lemma columns_ok b es fs :
  Forall2 (λ e f, Exprs.wt debug_assertions h at_null schema e (f_type f)) es fs → batch_wf b → schema_of b = schema →
  0 < num_rows b → (Z.of_nat (num_rows b) < 2 ^ 32)%Z →
  (∀ r, r ∈ rows b → ∃ cs, mapM (λ e, value_of e r) es = Some cs ∧
     Forall2 (λ f (c : option value), f_nullable f = false → c ≠ None) fs cs) →
  ∃ cols, evaluate_expressions_to_arrays (map (Exprs.to_dyn debug_assertions h at_null) es) b = Some (Ok cols) ∧
    Forall2 (column_fits (num_rows b)) fs cols ∧ Forall2 (λ e a, cells a = map (cell e) (rows b)) es cols.
Proof.
  intros Hes Hwf Hs Hn Hu. unfold evaluate_expressions_to_arrays.
  induction Hes as [|e f es fs He Hes IH]; intros Hrows; [by exists []|].
  assert (Hsplit : ∀ r, r ∈ rows b → ∃ c cs, value_of e r = Some c ∧ (f_nullable f = false → c ≠ None) ∧
    mapM (λ e, value_of e r) es = Some cs ∧ Forall2 (λ f (c : option value), f_nullable f = false → c ≠ None) fs cs).
  { intros r Hr. destruct (Hrows r Hr) as (cs & Hcs & Hnull). cbn in Hcs. apply bind_Some in Hcs as (c & Hc & (cs' & Hcs' & [= <-])%bind_Some).
    apply Forall2_cons in Hnull as [? ?]. by exists c, cs'. }
  destruct (column_ok b e f) as (v & a & Hv & Ha & Hfit & Hcells); try done.
  { intros r Hr. destruct (Hsplit r Hr) as (c & _ & ? & ? & _). by exists c. }
  destruct IH as (cols & Hcols & Hfits & Hcc).
  { intros r Hr. destruct (Hsplit r Hr) as (_ & cs & _ & _ & ? & ?). by exists cs. }
  exists (a :: cols). cbn. rewrite Hv. cbn. rewrite Ha. cbn. rewrite Hcols. cbn. split_and!; [done|by constructor..].
Qed.

Lemma projected_cells b (es : list Exprs.PhysicalExpr) cols r i :
  Forall2 (λ e a, cells a = map (cell e) (rows b)) es cols → rows b !! i = Some r →
  map (λ a, default None (cells a !! i)) cols = map (λ e, cell e r) es.
Proof.
  intros Hcols Hi. induction Hcols as [|e a es cols Ha _ IH]; [done|]. cbn. rewrite IH, Ha. f_equal.
  change (map ?g (rows b)) with (g <$> rows b). by rewrite list_lookup_fmap, Hi.
Qed.

Lemma mapM_cells r cs : mapM (λ e, value_of e r) exprs = Some cs → map (λ e, cell e r) exprs = cs.
Proof.
  clear Htypes. revert cs. induction exprs as [|e es IH]; intros cs; cbn; [by intros [= <-]|].
  intros (c & Hc & (cs' & Hcs & [= <-])%bind_Some)%bind_Some. by rewrite Hc, (IH cs' Hcs).
Qed.

Lemma projector_batch_ok b rs :
  projectable b → mapM project_row (rows b) = Some rs →
  ∃ b', project_batch projector b = Some (Ok b') ∧ batch_wf b' ∧ rows b' = rs.
Proof.
  intros (Hwf & Hs & Hn & Hu & _) Hrs.
  assert (Hrow : ∀ i r, rows b !! i = Some r → ∃ cs, rs !! i = Some cs ∧ mapM (λ e, value_of e r) exprs = Some cs ∧
    Forall2 (λ f (c : option value), f_nullable f = false → c ≠ None) out_schema cs).
  { intros i r Hi. apply mapM_Some in Hrs. destruct (Forall2_lookup_l _ _ _ _ _ Hrs Hi) as (cs & Hcs & Hp).
    unfold project_row in Hp. apply bind_Some in Hp as (cs' & Hm & Hp). case_decide; [|done]. injection Hp as <-. by exists cs'. }
  destruct (columns_ok b exprs out_schema) as (cols & Hcols & Hfits & Hcells); try done.
  { intros r [i Hi]%list_elem_of_lookup. destruct (Hrow i r Hi) as (cs & _ & ? & ?). by exists cs. }
  exists {| columns := cols; num_rows := num_rows b |}. unfold project_batch. cbn [projection output_schema projector].
  rewrite Hcols. cbn [try_bind]. split_and!.
  - case_decide; rewrite (record_batch_try_new_ok _ _ _ (num_rows b)); naive_solver.
  - unfold batch_wf. cbn. apply Forall_forall. intros a [i Ha]%list_elem_of_lookup.
    by destruct (Forall2_lookup_r _ _ _ _ _ Hfits Ha) as (f & _ & _ & ? & _).
  - apply list_eq. intros i. pose proof (length_mapM _ _ _ Hrs) as Hlen. rewrite length_rows in Hlen.
    destruct (decide (i < num_rows b)) as [Hi|Hi].
    + unfold rows. rewrite lookup_tab by done. unfold row_at. cbn [columns].
      destruct (lookup_lt_is_Some_2 (rows b) i) as [r Hr]; [by rewrite length_rows|].
      destruct (Hrow i r Hr) as (cs & -> & Hcs & _). by rewrite (projected_cells b exprs cols r i Hcells Hr), (mapM_cells r cs Hcs).
    + rewrite !lookup_ge_None_2; [done|rewrite ?length_rows; cbn; lia..].
Qed.

Definition projected_poll (p q : Poll RecordBatch) : Prop :=
  match p, q with
  | Item (Ok b), Item (Ok b') => mapM project_row (rows b) = Some (rows b')
  | Item (Err e), Item (Err e') => e = e'
  | Pending, Pending => True
  | _, _ => False
  end.

Lemma projection_poll_ok p input :
  (∀ b, p = Item (Ok b) → projectable b) →
  ∃ q, poll_next projector (p :: input) = Some (Some q, input) ∧ projected_poll p q.
Proof.
  intros Hp. unfold poll_next. cbn [Streams.poll_input]. destruct p as [|[b|e]]; [by eexists| |by eexists].
  pose proof (Hp b eq_refl) as Hb. pose proof Hb as (_ & _ & _ & _ & rs & Hrs).
  destruct (projector_batch_ok b rs Hb Hrs) as (b' & -> & _ & Hrows). eexists. split; [done|]. cbn. by rewrite Hrows.
Qed.

(** A projection whose expressions have the types of the output fields, over an input whose batches have rows and a
    value of every expression on every row, null only in nullable fields.  Polled until it ends, the stream answers each
    poll of the input with one of its own: a batch with the batch of projected rows, an error with the same error. *)
Theorem projection_exec_rows input :
  (∀ b, b ∈ Streams.oks input → projectable b) →
  ∃ out, (∀ n, length input < n → run projector n input = Some (out, [])) ∧ Forall2 projected_poll input out.
Proof.
  induction input as [|p input IH]; intros Hall.
  { exists []. split; [|done]. intros [|n] Hn; [lia|done]. }
  destruct IH as (out & Hrun & Hout); [intros b Hb; apply Hall; rewrite Streams.oks_cons; apply elem_of_app; by right|].
  destruct (projection_poll_ok p input) as (q & Hq & Hpq); [intros b ->; apply Hall; by left|].
  exists (q :: out). split; [|by constructor]. intros [|n] Hn; [cbn in Hn; lia|]. unfold run in *. cbn [Streams.drive].
  rewrite Hq. cbn. rewrite Hrun by (cbn in Hn; lia). done.
Qed.
End Correct.

(** ** An example *)

(** A constructor that accepts what is documented. *)
#[local] Instance plain_new : BatchNew := {
  record_batch_try_new schema cols count :=
    match count, cols with
    | Some n, _ => inl {| columns := cols; num_rows := n |}
    | None, a :: _ => inl {| columns := cols; num_rows := array_len a |}
    | None, [] => inr "must either specify a row count or at least one column"
    end;
}.

#[local] Instance plain_new_ok : BatchNewOk.
Proof.
  split. intros schema cols count n Hfit Hnil Hc. destruct count as [c|]; cbn; [by rewrite (Hc c)|].
  destruct cols as [|a cols]; [by specialize (Hnil eq_refl)|]. apply Forall2_cons_inv_r in Hfit as (f & fs & (_ & <- & _) & _). done.
Qed.

Section Sample.
Import Construct.
#[local] Existing Instances plain_filter plain_filter_ok HashUtils.sample_hash.

(** SELECT x > 5, 10, both never null. *)
Definition sample_exprs : list Exprs.PhysicalExpr := [x_above_5; lit64 10].

Definition sample_fields : Schema :=
  [{| f_name := "x > 5"; f_type := DBoolean; f_nullable := false |}; {| f_name := "10"; f_type := DInt64; f_nullable := false |}].

Lemma projection_exec_rows_witness :
  ∃ out, (∀ n, 3 < n → run (projector false no_hidden (VInt64 0) sample_exprs sample_fields) n
            [Item (Ok (sample_batch [Some 7; Some 1]%Z)); Pending; Item (Err (Execution "io"))] = Some (out, [])) ∧
    Forall2 (projected_poll false no_hidden (VInt64 0) Binary.plain_bit sample_schema sample_exprs sample_fields)
      [Item (Ok (sample_batch [Some 7; Some 1]%Z)); Pending; Item (Err (Execution "io"))] out.
Proof.
  unshelve eapply (projection_exec_rows false no_hidden (VInt64 0) Binary.plain_bit sample_schema sample_exprs sample_fields _
    [Item (Ok (sample_batch [Some 7; Some 1]%Z)); Pending; Item (Err (Execution "io"))]).
  - constructor; [apply x_above_5_wt|]. constructor; [apply lit64_wt|constructor].
  - intros b [->|[]%elem_of_nil]%elem_of_cons. split_and!; [by repeat constructor|done|cbn; lia|done|].
    eexists. vm_compute. reflexivity.
Defined.

End Sample.

End Projection.
