(* ===== verification/BloomExec.v ===== *)
(** * Building and probing Bloom filters at run time
      (physical-optimizer/src/bloom_filter_transfer.rs)

    [BloomFilterBuildExec] buffers its input, fills a Bloom filter with the
    non-null keys, broadcasts it and replays the batches;
    [BloomFilterProbeExec] waits for the filter and drops the probe rows it
    rules out, counting what it did.  A stream is the list of its items; what a
    stream does is the list of its events.  The Bloom filter itself (crate
    [bloomfilter]) and Arrow's filter kernel are interfaces; elapsed times and
    environment variables are arguments. *)

From stdpp Require Import base list strings gmap pretty.
From Stdlib Require Import ZArith Lia.
From S2P Require Import Prelude F64 Relation.

(** ** The Bloom filter interface *)

Class BloomLib := {
  Bloom : Type;
  new_for_fp_rate : nat → f64 → option Bloom;
  set : Bloom → string → Bloom;
  check : Bloom → string → bool;
}.

(** Documented behaviour: a filter for at least one item and a rate strictly
    between 0 and 1 can be made; an item that was set is always reported. *)
Class BloomLibOk `{BloomLib} : Prop := {
  new_ok : ∀ n fp, 0 < n → f64_lt f64_zero fp = true → f64_lt fp f64_one = true →
    is_Some (new_for_fp_rate n fp);
  check_set : ∀ b v, check (set b v) v = true;
  check_set_other : ∀ b v w, check b v = true → check (set b w) v = true;
}.

Module BloomExec.
Section Exec.
Context `{BloomLib} `{ArrowFilter}.

(** ** Payload and metrics *)

Record BloomPayload := {
  bp_filter : Bloom;
  bp_build_cardinality : nat;
  bp_distinct_estimate : nat;
  bp_filter_size_bytes : nat;
  bp_build_time_ms : f64;
}.

Record FilterMetrics := {
  query_id : string;
  col_name : string;
  build_cardinality : nat;
  distinct_estimate : nat;
  filter_size_bytes : nat;
  build_time_ms : f64;
  probe_batches : nat;
  rows_in : nat;
  rows_out : nat;
  rows_eliminated : nat;
  probe_time_ms : f64;
}.

(** ** BloomFilterBuildExec *)

(** The values pushed for one key column; other array types push nothing. *)
Definition build_values (col : array) : list string :=
  match col with
  | Int32Array vs => omap (fmap pretty) vs
  | Int64Array vs => omap (fmap pretty) vs
  | StringArray vs => omap id vs
  | BooleanArray _ | OtherArray _ _ => []
  end.

(** The collecting loop: all key values and batches, or the first error. *)
Fixpoint build_collect (key_column : nat) (input : list (Result RecordBatch))
    (all_values : list string) (batches : list RecordBatch)
    : option (Result (list string * list RecordBatch)) :=
  match input with
  | [] => Some (Ok (all_values, batches))
  | Err e :: _ => Some (Err e)
  | Ok batch :: input =>
      col ← vec_get (columns batch) key_column;
      build_collect key_column input (all_values ++ build_values col) (batches ++ [batch])
  end.

Inductive build_event :=
| BYield (item : Result RecordBatch)
| BSend (p : BloomPayload).

(** The payload made from the collected values.  [Vec] lengths are far below
    [2^63], so the [usize] product cannot overflow. *)
Definition build_payload (all_values : list string) (build_time : f64) : option BloomPayload :=
  let build_cardinality := length all_values in
  let distinct := size (list_to_set all_values : gset string) in
  bf ← new_for_fp_rate (Nat.max build_cardinality 1) (f64_lit 1 2);
  Some {| bp_filter := foldl set bf all_values;
          bp_build_cardinality := build_cardinality;
          bp_distinct_estimate := distinct;
          bp_filter_size_bytes := build_cardinality * 2;
          bp_build_time_ms := build_time |}.

(** The output stream of the build side; [None] is a panic. *)
Definition build_stream (key_column : nat) (build_time : f64) (input : list (Result RecordBatch))
    : option (list build_event) :=
  r ← build_collect key_column input [] [];
  match r with
  | Err e => Some [BYield (Err e)]
  | Ok (all_values, batches) =>
      p ← build_payload all_values build_time;
      Some (BSend p :: map (λ b, BYield (Ok b)) batches)
  end.

(** [execute]: the key column is looked up by name in the input schema. *)
Definition build_execute (schema : Schema) (key_column_name : string) (build_time : f64)
    (input : Result (list (Result RecordBatch))) : Result (option (list build_event)) :=
  key_column ← ok_or (position schema key_column_name)
                 (Plan ("BloomFilterBuildExec: column '" +:+ key_column_name +:+ "' not found"));
  input_stream ← input;
  Ok (build_stream key_column build_time input_stream).

(** ** BloomFilterProbeExec *)

(** The keep mask of a key column. *)
Definition probe_keep (bf : Bloom) (col : array) : list bool :=
  match col with
  | Int32Array vs => map (λ o, match o with None => false | Some z => check bf (pretty z) end) vs
  | Int64Array vs => map (λ o, match o with None => false | Some z => check bf (pretty z) end) vs
  | StringArray vs => map (λ o, match o with None => false | Some s => check bf s end) vs
  | BooleanArray vs => map (λ o, match o with None => false | Some _ => true end) vs
  | OtherArray _ vs => map (λ o, match o with None => false | Some _ => true end) vs
  end.

Inductive probe_event :=
| PYield (item : Result RecordBatch)
| PMetrics (m : FilterMetrics)
| PPanic.

Record counters := { c_batches : nat; c_rows_in : nat; c_rows_out : nat }.

(** The probing loop: its events, and the counters unless it panicked. *)
Fixpoint probe_loop (key_column : nat) (bf : Bloom) (input : list (Result RecordBatch))
    (c : counters) : list probe_event * option counters :=
  match input with
  | [] => ([], Some c)
  | Err e :: input =>
      let '(ev, c') := probe_loop key_column bf input c in (PYield (Err e) :: ev, c')
  | Ok batch :: input =>
      match vec_get (columns batch) key_column with
      | None => ([PPanic], None)
      | Some col =>
          let rows_before := num_rows batch in
          match filter_record_batch batch (probe_keep bf col) with
          | inl filtered =>
              let rows_after := num_rows filtered in
              let c1 := {| c_batches := c_batches c + 1;
                           c_rows_in := c_rows_in c + rows_before;
                           c_rows_out := c_rows_out c + rows_after |} in
              match usize_sub rows_before rows_after with
              | None => ([PPanic], None)
              | Some _ =>
                  let '(ev, c') := probe_loop key_column bf input c1 in
                  (PYield (Ok filtered) :: ev, c')
              end
          | inr e =>
              let '(ev, c') := probe_loop key_column bf input c in
              (PYield (Err (ArrowError e)) :: ev, c')
          end
      end
  end.

(** The output stream of the probe side.  [received] is the outcome of
    [receiver.recv().await]: [None] when the channel closed or lagged. *)
Definition probe_stream (key_column : nat) (key_column_name : string) (received : option BloomPayload)
    (env_query_id : option string) (probe_time : f64) (input : list (Result RecordBatch))
    : list probe_event :=
  match received with
  | None => map PYield input
  | Some payload =>
      let '(ev, c) := probe_loop key_column (bp_filter payload) input
                        {| c_batches := 0; c_rows_in := 0; c_rows_out := 0 |} in
      match c with
      | None => ev
      | Some c =>
          match usize_sub (c_rows_in c) (c_rows_out c) with
          | None => ev ++ [PPanic]
          | Some eliminated =>
              ev ++ [PMetrics
                {| query_id := default "unknown"%string env_query_id;
                   col_name := key_column_name;
                   build_cardinality := bp_build_cardinality payload;
                   distinct_estimate := bp_distinct_estimate payload;
                   filter_size_bytes := bp_filter_size_bytes payload;
                   build_time_ms := bp_build_time_ms payload;
                   probe_batches := c_batches c;
                   rows_in := c_rows_in c;
                   rows_out := c_rows_out c;
                   rows_eliminated := eliminated;
                   probe_time_ms := probe_time |}]
          end
      end
  end.

Definition probe_execute (schema : Schema) (key_column_name : string) (received : option BloomPayload)
    (env_query_id : option string) (probe_time : f64)
    (input : Result (list (Result RecordBatch))) : Result (list probe_event) :=
  key_column ← ok_or (position schema key_column_name)
                 (Plan ("BloomFilterProbeExec: column '" +:+ key_column_name +:+ "' not found"));
  input_stream ← input;
  Ok (probe_stream key_column key_column_name received env_query_id probe_time input_stream).

(** ** Reading events *)

Definition build_yields (ev : list build_event) : list (Result RecordBatch) :=
  omap (λ e, match e with BYield r => Some r | BSend _ => None end) ev.

Definition build_sends (ev : list build_event) : list BloomPayload :=
  omap (λ e, match e with BSend p => Some p | BYield _ => None end) ev.

Definition probe_yields (ev : list probe_event) : list (Result RecordBatch) :=
  omap (λ e, match e with PYield r => Some r | _ => None end) ev.

Definition probe_metrics (ev : list probe_event) : list FilterMetrics :=
  omap (λ e, match e with PMetrics m => Some m | _ => None end) ev.

(** The text the filters compare, of a key cell. *)
Definition key_text (v : value) : option string :=
  match v with
  | VInt32 z | VInt64 z => Some (pretty z)
  | VUtf8 s => Some s
  | VBoolean _ | VOther _ _ => None
  end.

(** The cell of a row in a column. *)
Definition cell (k : nat) (r : row) : option value := default None (r !! k).

(** Whether the probe keeps a row. *)
Definition keeps (bf : Bloom) (k : nat) (r : row) : bool :=
  match cell k r with
  | None => false
  | Some v => match key_text v with Some s => check bf s | None => true end
  end.

(** ** Columns and rows agree *)

Lemma build_values_cells col : build_values col = omap (λ o, o ≫= key_text) (cells col).
Proof.
  destruct col as [vs|vs|vs|vs|ty vs]; cbn; induction vs as [|[v|] vs IH]; cbn in *; try done; by rewrite IH.
Qed.

Lemma probe_keep_cells bf col :
  probe_keep bf col =
  map (λ o, match o with
            | None => false
            | Some v => match key_text v with Some s => check bf s | None => true end
            end) (cells col).
Proof.
  destruct col; cbn; rewrite map_map; apply map_ext; by intros [].
Qed.

Lemma cells_rows b k col :
  batch_wf b → columns b !! k = Some col → cells col = map (cell k) (rows b).
Proof.
  intros Hwf Hk. assert (Hl : length (cells col) = num_rows b).
  { rewrite length_cells. unfold batch_wf in Hwf. rewrite Forall_lookup in Hwf. by eapply Hwf. }
  apply list_eq. intros i. destruct (decide (i < num_rows b)) as [Hi|Hi].
  - rewrite list_lookup_fmap. unfold rows. rewrite lookup_tab by done. cbn. unfold cell, row_at.
    rewrite list_lookup_fmap, Hk. cbn.
    destruct (lookup_lt_is_Some_2 (cells col) i) as [o ->]; [lia|done].
  - rewrite !lookup_ge_None_2; [done| |]; rewrite ?length_map, ?length_rows; lia.
Qed.

(** A batch that is rectangular and has the key column. *)
Definition has_key (k : nat) (b : RecordBatch) : Prop := batch_wf b ∧ k < length (columns b).

Lemma has_key_col k b : has_key k b → ∃ col, columns b !! k = Some col ∧ cells col = map (cell k) (rows b).
Proof.
  intros [Hwf Hk]. destruct (lookup_lt_is_Some_2 _ _ Hk) as [col Hc].
  exists col. split; [done|]. by apply cells_rows.
Qed.

(** The key texts of a list of rows. *)
Definition texts (k : nat) (rs : list row) : list string :=
  omap (λ r, cell k r ≫= key_text) rs.

Lemma omap_map {A B C} (f : A → B) (g : B → option C) l : omap g (map f l) = omap (λ x, g (f x)) l.
Proof. induction l as [|x l IH]; [done|]. cbn. by rewrite IH. Qed.

Lemma build_collect_ok k bs vs acc :
  Forall (has_key k) bs →
  build_collect k (map Ok bs) vs acc =
  Some (Ok (vs ++ texts k (concat (map rows bs)), acc ++ bs)).
Proof.
  intros Hbs. revert vs acc. induction Hbs as [|b bs Hb _ IH]; intros vs acc; cbn [map build_collect].
  { cbn. by rewrite !app_nil_r. }
  destruct (has_key_col k b Hb) as (col & Hc & Hcells). unfold vec_get. rewrite Hc. cbn [mbind option_bind].
  rewrite IH, <- !app_assoc. do 4 f_equal. cbn [concat map]. unfold texts. rewrite omap_app. f_equal.
  by rewrite build_values_cells, Hcells, omap_map.
Qed.

Lemma build_collect_err k bs e rest vs acc :
  Forall (has_key k) bs → build_collect k (map Ok bs ++ Err e :: rest) vs acc = Some (Err e).
Proof.
  intros Hbs. revert vs acc. induction Hbs as [|b bs Hb _ IH]; intros vs acc; cbn; [done|].
  destruct (has_key_col k b Hb) as (col & Hc & _). unfold vec_get. rewrite Hc. cbn. apply IH.
Qed.

(** ** Filling the filter *)

Context `{!BloomLibOk}.

Lemma check_foldl_set bf vs s : check bf s = true → check (foldl set bf vs) s = true.
Proof.
  revert bf. induction vs as [|v vs IH]; intros bf Hs; [done|]. cbn. apply IH. by apply check_set_other.
Qed.

Lemma check_foldl_in bf vs s : s ∈ vs → check (foldl set bf vs) s = true.
Proof.
  revert bf. induction vs as [|v vs IH]; intros bf Hs; [by apply not_elem_of_nil in Hs|].
  apply elem_of_cons in Hs as [->|Hs]; cbn; [|by apply IH]. apply check_foldl_set, check_set.
Qed.

Lemma fp_rate_ok : f64_lt f64_zero (f64_lit 1 2) = true ∧ f64_lt (f64_lit 1 2) f64_one = true.
Proof. split; vm_compute; reflexivity. Qed.

Lemma build_payload_ok vs t :
  ∃ p, build_payload vs t = Some p ∧ (∀ s, s ∈ vs → check (bp_filter p) s = true) ∧
       bp_build_cardinality p = length vs ∧
       bp_distinct_estimate p = size (list_to_set vs : gset string) ∧
       bp_filter_size_bytes p = 2 * length vs.
Proof.
  destruct fp_rate_ok as [Hlo Hhi].
  destruct (new_ok (Nat.max (length vs) 1) (f64_lit 1 2)) as [bf Hbf]; [lia|done|done|].
  unfold build_payload. rewrite Hbf. cbn [mbind option_bind]. eexists. split; [done|].
  split_and!; cbn; [|done|done|lia]. intros s Hs. by apply check_foldl_in.
Qed.

Lemma build_payload_filter vs t p :
  build_payload vs t = Some p →
  ∃ bf, new_for_fp_rate (Nat.max (length vs) 1) (f64_lit 1 2) = Some bf ∧ bp_filter p = foldl set bf vs.
Proof.
  unfold build_payload. destruct (new_for_fp_rate _ _) as [bf|]; [|done].
  cbn [mbind option_bind]. intros [= <-]. eauto.
Qed.

Lemma build_stream_ok k t bs :
  Forall (has_key k) bs →
  ∃ p, build_stream k t (map Ok bs) = Some (BSend p :: map (λ b, BYield (Ok b)) bs) ∧
       build_payload (texts k (concat (map rows bs))) t = Some p.
Proof.
  intros Hbs. unfold build_stream. rewrite build_collect_ok by done. cbn [mbind option_bind app].
  destruct (build_payload_ok (texts k (concat (map rows bs))) t) as (p & Hp & _).
  exists p. by rewrite Hp.
Qed.

(** The probing loop emits no metrics, so those of a probe are its counters. *)
Lemma probe_loop_metrics k bf input c : probe_metrics (probe_loop k bf input c).1 = [].
Proof.
  revert c. induction input as [|[b|e] input IH]; intros c; cbn [probe_loop]; [done| |].
  - repeat (case_match; try done); simplify_eq/=; cbn [probe_metrics omap list_omap].
    all: match goal with E : probe_loop _ _ _ ?c' = _ |- _ =>
           specialize (IH c'); rewrite E in IH; exact IH end.
  - specialize (IH c). destruct (probe_loop k bf input c). exact IH.
Qed.

Lemma probe_metrics_sum k name received q t input m :
  m ∈ probe_metrics (probe_stream k name received q t input) →
  rows_in m = rows_out m + rows_eliminated m.
Proof.
  unfold probe_stream. destruct received as [p|].
  - set (c0 := Build_counters 0 0 0). pose proof (probe_loop_metrics k (bp_filter p) input c0) as Hl.
    destruct (probe_loop k (bp_filter p) input c0) as [ev [c|]]; cbn [fst] in Hl;
      [|rewrite Hl; by intros ?%elem_of_nil].
    unfold usize_sub. case_decide; unfold probe_metrics in *;
      rewrite omap_app, Hl; cbn; [|by intros ?%elem_of_nil].
    intros ->%list_elem_of_singleton. cbn. lia.
  - assert (Hn : probe_metrics (map PYield input) = []) by (by induction input).
    rewrite Hn. by intros ?%elem_of_nil.
Qed.

Context `{!ArrowFilterOk}.

(** ** One probe step *)

Lemma probe_filter bf k b col :
  has_key k b → columns b !! k = Some col →
  ∃ b', filter_record_batch b (probe_keep bf col) = inl b' ∧ has_key k b' ∧
        rows b' = filter (λ r, keeps bf k r = true) (rows b).
Proof.
  intros Hb Hc. destruct (has_key_col k b Hb) as (col' & Hc' & Hcells).
  assert (col' = col) as -> by congruence. destruct Hb as [Hwf Hk].
  rewrite probe_keep_cells, Hcells, map_map.
  exists (mask_batch (map (keeps bf k) (rows b)) b). split_and!.
  - apply filter_record_batch_ok; [done|]. by rewrite length_map, length_rows.
  - split; [auto with engine|]. cbn. by rewrite length_map.
  - rewrite rows_mask by done. by rewrite mask_list_filter.
Qed.

(** What the probe makes of one input item. *)
Inductive probed (bf : Bloom) (k : nat) : Result RecordBatch → Result RecordBatch → Prop :=
| probed_err e : probed bf k (Err e) (Err e)
| probed_ok b b' : has_key k b' → rows b' = filter (λ r, keeps bf k r = true) (rows b) →
    probed bf k (Ok b) (Ok b').

Definition item_ok (k : nat) (r : Result RecordBatch) : Prop :=
  match r with Ok b => has_key k b | Err _ => True end.

(** Rows of the batches of a stream, errors skipped. *)
Definition stream_rows (l : list (Result RecordBatch)) : list row :=
  concat (map (λ r, match r with Ok b => rows b | Err _ => [] end) l).

Definition count_ok (l : list (Result RecordBatch)) : nat :=
  length (omap (λ r, match r with Ok b => Some b | Err _ => None end) l).

Lemma probe_loop_ok k bf input c :
  Forall (item_ok k) input →
  ∃ out, probe_loop k bf input c =
      (map PYield out, Some {| c_batches := c_batches c + count_ok input;
                               c_rows_in := c_rows_in c + length (stream_rows input);
                               c_rows_out := c_rows_out c + length (stream_rows out) |}) ∧
    Forall2 (probed bf k) input out.
Proof.
  intros Hin. revert c. induction Hin as [|[b|e] input Hb _ IH]; intros c; cbn [probe_loop].
  - exists []. split; [|done]. destruct c. cbn. do 3 f_equal; lia.
  - destruct (has_key_col k b Hb) as (col & Hc & _). unfold vec_get. rewrite Hc.
    destruct (probe_filter bf k b col Hb Hc) as (b' & -> & Hb' & Hr).
    assert (Hle : num_rows b' ≤ num_rows b).
    { rewrite <- (length_rows b'), <- (length_rows b), Hr. apply length_filter. }
    rewrite usize_sub_le by done.
    destruct (IH {| c_batches := c_batches c + 1; c_rows_in := c_rows_in c + num_rows b;
                    c_rows_out := c_rows_out c + num_rows b' |}) as (out & -> & Hout).
    exists (Ok b' :: out). split; [|by constructor; [constructor|]].
    unfold stream_rows, count_ok. cbn. rewrite !length_app, !length_rows. do 3 f_equal; lia.
  - destruct (IH c) as (out & -> & Hout). exists (Err e :: out).
    split; [done|]. constructor; [constructor|done].
Qed.

Lemma probed_rows bf k input out :
  Forall2 (probed bf k) input out →
  stream_rows out = filter (λ r, keeps bf k r = true) (stream_rows input).
Proof.
  induction 1 as [|x y input out Hxy _ IH]; [done|]. unfold stream_rows in *. cbn.
  rewrite filter_app, IH. f_equal. destruct Hxy; [done|auto].
Qed.

End Exec.

(** ** A small Bloom filter and Arrow's filter, to instantiate the interfaces

    64 bits and two hash functions; it has false positives. *)

Definition toy_hash (a : nat) (s : string) : nat :=
  foldl (λ acc c, Nat.modulo (acc * a + Ascii.nat_of_ascii c) 64) 7 (String.list_ascii_of_string s).

(** The filter is the list of the bits that are on. *)
Definition toy_check (b : list nat) (s : string) : bool :=
  bool_decide (toy_hash 31 s ∈ b) && bool_decide (toy_hash 17 s ∈ b).

#[local] Instance toy_bloom : BloomLib := {
  Bloom := list nat;
  new_for_fp_rate n fp := Some [];
  set b s := toy_hash 31 s :: toy_hash 17 s :: b;
  check := toy_check;
}.

#[local] Instance toy_bloom_ok : BloomLibOk.
Proof.
  split; cbn.
  - intros. by eexists.
  - intros b v. unfold toy_check. rewrite andb_true_iff, !bool_decide_eq_true. set_solver.
  - intros b v w. unfold toy_check. rewrite !andb_true_iff, !bool_decide_eq_true. set_solver.
Qed.

#[local] Existing Instances plain_filter plain_filter_ok.

Definition int_batch (ks vs : list (option Z)) : RecordBatch :=
  {| columns := [Int64Array ks; Int64Array vs]; num_rows := length ks |}.

Definition orders : list RecordBatch :=
  [int_batch [Some 1%Z; Some 2%Z] [Some 10%Z; Some 20%Z]; int_batch [None; Some 2%Z] [Some 30%Z; Some 40%Z]].

Definition lines : list RecordBatch :=
  [int_batch [Some 2%Z; Some 3%Z; None] [Some 5%Z; Some 6%Z; Some 7%Z]; int_batch [Some 9%Z] [None]].

(** ** Properties *)

(** C22. A build side that reads its input without error broadcasts exactly one
    filter, before it yields anything, and then yields the batches it read
    unchanged and in order.  The filter reports every non-null supported key of
    the input, and its payload counts them, and the distinct ones among them. *)
Theorem build_stream_transparent `{BloomLib, ArrowFilter, !BloomLibOk} (k : nat) (t : f64)
    (bs : list RecordBatch) :
  Forall (has_key k) bs →
  ∃ p, build_stream k t (map Ok bs) = Some (BSend p :: map (λ b, BYield (Ok b)) bs) ∧
    (∀ r v s, r ∈ concat (map rows bs) → cell k r = Some v → key_text v = Some s →
       check (bp_filter p) s = true) ∧
    bp_build_cardinality p = length (texts k (concat (map rows bs))) ∧
    bp_distinct_estimate p = size (list_to_set (texts k (concat (map rows bs))) : gset string).
Proof.
  intros Hbs. destruct (build_stream_ok k t bs Hbs) as (p & Hs & Hp).
  destruct (build_payload_ok (texts k (concat (map rows bs))) t) as (p' & Hp' & Hc & Hcard & Hd & _).
  assert (p' = p) as -> by congruence. exists p. split_and!; [done| |done|done].
  intros r v s Hr Hv Ht. apply Hc. apply list_elem_of_omap. exists r. by rewrite Hv.
Qed.

Lemma build_stream_transparent_witness :
  ∃ p, build_stream 0 f64_zero (map Ok orders) = Some (BSend p :: map (λ b, BYield (Ok b)) orders) ∧
    (∀ r v s, r ∈ concat (map rows orders) → cell 0 r = Some v → key_text v = Some s →
       check (bp_filter p) s = true) ∧
    bp_build_cardinality p = length (texts 0 (concat (map rows orders))) ∧
    bp_distinct_estimate p = size (list_to_set (texts 0 (concat (map rows orders))) : gset string).
Proof.
  apply (build_stream_transparent 0 f64_zero orders).
  repeat constructor; cbn; lia.
Defined.

(** An error on the build input is the only thing the build side yields: it
    sends no filter, and the batches read before the error are not passed on. *)
Theorem build_stream_error `{BloomLib, ArrowFilter} (k : nat) (t : f64)
    (bs : list RecordBatch) (e : DataFusionError) (rest : list (Result RecordBatch)) :
  Forall (has_key k) bs →
  build_stream k t (map Ok bs ++ Err e :: rest) = Some [BYield (Err e)].
Proof. intros Hbs. unfold build_stream. by rewrite build_collect_err. Qed.

Lemma build_stream_error_witness :
  build_stream 0 f64_zero (map Ok orders ++ [Err (External "disk")]) = Some [BYield (Err (External "disk"))].
Proof. apply (build_stream_error 0 f64_zero orders). repeat constructor; cbn; lia. Defined.

(** C20. The probe side passes errors through, keeps exactly the rows its filter
    does not rule out, in order, and ends by reporting metrics that account for
    every row read: batches, rows in, rows out, and their difference. *)
Theorem probe_stream_filters `{BloomLib, ArrowFilter, !BloomLibOk, !ArrowFilterOk} (k : nat) (name : string)
    (p : BloomPayload) (q : option string) (t : f64) (input : list (Result RecordBatch)) :
  Forall (item_ok k) input →
  ∃ out m, probe_stream k name (Some p) q t input = map PYield out ++ [PMetrics m] ∧
    Forall2 (probed (bp_filter p) k) input out ∧
    probe_batches m = count_ok input ∧
    rows_in m = length (stream_rows input) ∧
    rows_out m = length (stream_rows out) ∧
    rows_in m = rows_out m + rows_eliminated m.
Proof.
  intros Hin. unfold probe_stream.
  destruct (probe_loop_ok k (bp_filter p) input {| c_batches := 0; c_rows_in := 0; c_rows_out := 0 |} Hin)
    as (out & -> & Hout). cbn [c_batches c_rows_in c_rows_out plus].
  pose proof (probed_rows _ _ _ _ Hout) as Hr.
  assert (length (stream_rows out) ≤ length (stream_rows input)) by (rewrite Hr; apply length_filter).
  rewrite usize_sub_le by done. eexists out, _. split_and!; [done|done|done..|]. cbn. lia.
Qed.

Definition toy_payload : BloomPayload :=
  {| bp_filter := set (set [] "1") "2"; bp_build_cardinality := 3; bp_distinct_estimate := 2;
     bp_filter_size_bytes := 6; bp_build_time_ms := f64_zero |}.

Lemma probe_stream_filters_witness :
  ∃ out m, probe_stream 0 "k" (Some toy_payload) None f64_zero (map Ok lines) =
      map PYield out ++ [PMetrics m] ∧
    Forall2 (probed (bp_filter toy_payload) 0) (map Ok lines) out ∧
    probe_batches m = 2 ∧ rows_in m = 4 ∧ rows_out m = length (stream_rows out) ∧
    rows_in m = rows_out m + rows_eliminated m.
Proof.
  apply (probe_stream_filters 0 "k" toy_payload None f64_zero (map Ok lines)).
  repeat constructor; cbn; lia.
Defined.

End BloomExec.
