(* ===== verification/Metrics.v ===== *)
(** * Metrics and prediction logs (physical-optimizer/src/bloom_filter_transfer.rs)

    The derived numbers of [FilterMetrics], its CSV row, and the two append-only
    logs ([write_metrics], [write_predictions_csv]).  A log file is its contents,
    [None] while it does not exist; whether it can be opened is an argument.
    Proved: a row reads back, a log is one header followed by its rows, and the
    elimination rate a probe reports is a proportion. *)

From stdpp Require Import base list strings pretty gmap.
From Stdlib Require Import ZArith Lia Ascii.
From S2P Require Import Prelude F64 Text Relation BloomExec Knapsack.

Import Text.

Module Metrics.
Import BloomExec Knapsack.

Definition usize_f64 (n : nat) : f64 := f64_of_Z (Z.of_nat n).

Definition elimination_rate (m : FilterMetrics) : f64 :=
  if bool_decide (rows_in m = 0) then f64_zero
  else f64_div (usize_f64 (rows_eliminated m)) (usize_f64 (rows_in m)).

Definition net_benefit_ms (m : FilterMetrics) : f64 :=
  let scan_ms_per_row := f64_lit 1 3 in
  let saved_ms := f64_mul (usize_f64 (rows_eliminated m)) scan_ms_per_row in
  f64_sub (f64_sub saved_ms (build_time_ms m)) (probe_time_ms m).

Definition was_beneficial (m : FilterMetrics) : nat :=
  if f64_gt (net_benefit_ms m) f64_zero then 1 else 0.

Definition nl : ascii := "010"%char.

Definition newline : string := String nl EmptyString.

(** The thirteen placeholders of the format string. *)
Definition csv_fields (m : FilterMetrics) : list string :=
  [ query_id m;
    col_name m;
    usize_text (build_cardinality m);
    usize_text (distinct_estimate m);
    usize_text (filter_size_bytes m);
    fmt_fixed 4 (build_time_ms m);
    usize_text (probe_batches m);
    usize_text (rows_in m);
    usize_text (rows_out m);
    usize_text (rows_eliminated m);
    fmt_fixed 4 (probe_time_ms m);
    fmt_fixed 4 (net_benefit_ms m);
    usize_text (was_beneficial m) ].

Definition to_csv_row (m : FilterMetrics) : string :=
  String.concat "," (csv_fields m) +:+ newline.

(** [!Path::exists() || metadata.len() == 0] *)
Definition write_header (file : option string) : bool :=
  match file with
  | None => true
  | Some s => bool_decide (String.length s = 0)
  end.

Definition metrics_header : string :=
  String.concat ","
    [ "query_id"; "col_name"; "build_cardinality"; "distinct_estimate"; "filter_size_bytes";
      "build_time_ms"; "probe_batches"; "rows_in"; "rows_out"; "rows_eliminated";
      "probe_time_ms"; "net_benefit_ms"; "was_beneficial" ].

(** The new contents; opening is [unwrap]ped. *)
Definition write_metrics (opens : bool) (file : option string) (m : FilterMetrics) : option string :=
  if opens then
    Some (default "" file
          +:+ (if write_header file then metrics_header +:+ newline else "")
          +:+ to_csv_row m)
  else panic!.

Definition predictions_header : string :=
  "query_id,build_col,probe_col,pred_prob,weight_bytes,selected".

Definition prediction_fields (query_id : string) (selected_keys : gset string) (c : MlCandidate)
    : list string :=
  let selected := if bool_decide (key c ∈ selected_keys) then 1 else 0 in
  [ query_id; build_col c; probe_col c; fmt_fixed 6 (pred_prob c);
    pretty (weight_bytes c); usize_text selected ].

(** A file that cannot be opened is logged and left alone. *)
Definition write_predictions_csv (opens : bool) (file : option string) (env_query_id : option string)
    (candidates : list MlCandidate) (selected_keys : gset string) : option string :=
  if opens then
    let query_id := default "unknown" env_query_id in
    Some (foldl (λ f c, f +:+ String.concat "," (prediction_fields query_id selected_keys c) +:+ newline)
            (default "" file +:+ (if write_header file then predictions_header +:+ newline else ""))
            candidates)
  else file.

(** ** Reading the logs *)

Definition lines (s : string) : list string := split_on nl s.
Definition fields (s : string) : list string := split_on ","%char s.

(** A text that can be a CSV field. *)
Definition clean (s : string) : bool := free_of ","%char s && free_of nl s.

(** The log after a sequence of queries. *)
Definition metrics_log (file : option string) (ms : list FilterMetrics) : option string :=
  foldM (λ f m, Some <$> write_metrics true f m) ms file ≫= id.

Lemma text_app_assoc s1 s2 s3 : (s1 +:+ s2) +:+ s3 = s1 +:+ (s2 +:+ s3).
Proof. induction s1 as [|a s1 IH]; [done|]. rewrite !text_cons_app. by f_equal. Qed.

Lemma concat_cons s x l : l ≠ [] → String.concat s (x :: l) = x +:+ s +:+ String.concat s l.
Proof. by destruct l. Qed.

(** Splitting undoes joining. *)
Lemma fields_concat l :
  l ≠ [] → Forall (λ s, free_of ","%char s = true) l → fields (String.concat "," l) = l.
Proof.
  intros Hl Hf. induction Hf as [|x l Hx Hf IH]; [done|].
  destruct l as [|y l]; [by apply split_on_free|].
  rewrite concat_cons by done. unfold fields in *.
  etransitivity; [apply (split_on_cons ","%char x (String.concat "," (y :: l)) Hx)|]. f_equal. by apply IH.
Qed.

Lemma concat_free c l :
  free_of c "," = true → Forall (λ s, free_of c s = true) l → free_of c (String.concat "," l) = true.
Proof.
  intros Hc Hf. induction Hf as [|x l Hx Hf IH]; [done|].
  destruct l as [|y l]; [done|]. rewrite concat_cons by done.
  unfold free_of in *. by rewrite !all_chars_app, Hx, Hc, IH.
Qed.

Lemma clean_free s : clean s = true ↔ free_of ","%char s = true ∧ free_of nl s = true.
Proof. apply andb_true_iff. Qed.

Lemma usize_clean n : clean (usize_text n) = true.
Proof. apply clean_free. by split; apply usize_text_free. Qed.

Lemma fixed_clean k x : clean (fmt_fixed k x) = true.
Proof. apply clean_free. by split; apply fmt_fixed_free. Qed.

#[local] Hint Resolve usize_clean fixed_clean : engine.

Lemma csv_fields_clean m :
  clean (query_id m) = true → clean (col_name m) = true →
  Forall (λ s, clean s = true) (csv_fields m).
Proof. intros Hq Hc. repeat (apply Forall_cons; split); auto with engine. Qed.

Lemma clean_row l :
  l ≠ [] → Forall (λ s, clean s = true) l →
  fields (String.concat "," l) = l ∧ free_of nl (String.concat "," l) = true.
Proof.
  intros Hl Hf. split.
  - apply fields_concat; [done|]. eapply Forall_impl; [exact Hf|]. by intros s [? ?]%clean_free.
  - apply concat_free; [done|]. eapply Forall_impl; [exact Hf|]. by intros s [? ?]%clean_free.
Qed.

Lemma lines_row s t : free_of nl s = true → lines ((s +:+ newline) +:+ t) = s :: lines t.
Proof. intros Hs. rewrite text_app_assoc. by apply (split_on_cons nl s t). Qed.

Lemma lines_rows (ls : list string) t :
  Forall (λ s, free_of nl s = true) ls →
  lines (foldr (λ s acc, (s +:+ newline) +:+ acc) t ls) = ls ++ lines t.
Proof.
  induction 1 as [|s ls Hs _ IH]; [done|]. cbn [foldr]. rewrite lines_row by done. by rewrite IH.
Qed.

(** Appending rows to a log that already has its header. *)
Lemma metrics_log_append s ms :
  s ≠ EmptyString →
  foldM (λ f m, Some <$> write_metrics true f m) ms (Some s) =
  Some (Some (s +:+ foldr (λ l acc, (l +:+ newline) +:+ acc) EmptyString
                      (map (λ m, String.concat "," (csv_fields m)) ms))).
Proof.
  revert s. induction ms as [|m ms IH]; intros s Hs; cbn [foldM map foldr].
  { do 2 f_equal. induction s as [|a s IHs]; [done|]. rewrite text_cons_app.
    destruct s; [done|]. f_equal. by apply IHs. }
  assert (Hh : write_header (Some s) = false) by (by destruct s).
  cbn [write_metrics fmap option_fmap option_map mbind option_bind default]. rewrite Hh.
  rewrite text_nil_app, IH by (by destruct s).
  unfold to_csv_row. by rewrite !text_app_assoc.
Qed.

(** ** Properties *)

(** A metrics row reads back: split at commas it has the thirteen fields in
    the order of the header, and the seven counters parse to the values that
    were recorded. *)
Theorem csv_row_roundtrip m :
  clean (query_id m) = true → clean (col_name m) = true →
  Forall (λ n, (Z.of_nat n <= usize_max)%Z)
    [build_cardinality m; distinct_estimate m; filter_size_bytes m; probe_batches m;
     rows_in m; rows_out m; rows_eliminated m] →
  ∃ line, lines (to_csv_row m) = [line; EmptyString] ∧
    fields line = csv_fields m ∧ length (fields line) = length (fields metrics_header) ∧
    mapM (λ i, fields line !! i ≫= parse_usize) [2; 3; 4; 6; 7; 8; 9] =
    Some (map Z.of_nat [build_cardinality m; distinct_estimate m; filter_size_bytes m;
                        probe_batches m; rows_in m; rows_out m; rows_eliminated m]).
Proof.
  intros Hq Hc Hn. exists (String.concat "," (csv_fields m)).
  destruct (clean_row (csv_fields m)) as [Hf Hl]; [done|by apply csv_fields_clean|].
  rewrite Hf. split_and!; [exact (split_on_cons nl _ EmptyString Hl)|done|by vm_compute|].
  rewrite !Forall_cons in Hn. destruct Hn as (H1 & H2 & H3 & H4 & H5 & H6 & H7 & _).
  unfold csv_fields. cbn [mapM list_lookup lookup mbind option_bind mret option_ret map].
  by rewrite !parse_usize_text.
Qed.

Definition sample : FilterMetrics :=
  {| query_id := "q5"; col_name := "o_custkey"; build_cardinality := 1500; distinct_estimate := 1000;
     filter_size_bytes := 3000; build_time_ms := f64_lit 255 2; probe_batches := 2; rows_in := 4001;
     rows_out := 1201; rows_eliminated := 2800; probe_time_ms := f64_lit 7 1 |}.

Lemma csv_row_roundtrip_witness :
  ∃ line, lines (to_csv_row sample) = [line; EmptyString] ∧
    fields line = csv_fields sample ∧ length (fields line) = length (fields metrics_header) ∧
    mapM (λ i, fields line !! i ≫= parse_usize) [2; 3; 4; 6; 7; 8; 9] =
    Some (map Z.of_nat [1500; 1000; 3000; 2; 4001; 1201; 2800]).
Proof. apply (csv_row_roundtrip sample); [done|done|]. repeat (constructor; [by vm_compute|]). constructor. Defined.

(** The metrics file is a well-formed table: after any nonempty sequence of
    queries that found the file missing or empty, it holds the header once, then
    one line per query, and every line has the header's number of fields. *)
Theorem metrics_log_table file ms :
  default EmptyString file = EmptyString → ms ≠ [] →
  Forall (λ m, clean (query_id m) && clean (col_name m) = true) ms →
  ∃ s, metrics_log file ms = Some s ∧
    lines s = metrics_header :: map (λ m, String.concat "," (csv_fields m)) ms ++ [EmptyString] ∧
    Forall (λ m, length (fields (String.concat "," (csv_fields m))) = length (fields metrics_header)) ms.
Proof.
  intros Hfile Hms Hclean. destruct ms as [|m ms]; [done|].
  assert (Hrow : ∀ m', m' ∈ m :: ms →
    fields (String.concat "," (csv_fields m')) = csv_fields m' ∧
    free_of nl (String.concat "," (csv_fields m')) = true).
  { intros m' Hm'. rewrite Forall_forall in Hclean.
    destruct (andb_prop _ _ (Hclean m' Hm')). by apply clean_row, csv_fields_clean. }
  assert (Hh : write_header file = true) by (destruct file as [[]|]; done).
  unfold metrics_log. cbn [foldM write_metrics fmap option_fmap option_map mbind option_bind].
  rewrite Hfile, Hh, text_nil_app, metrics_log_append by done.
  eexists. split; [reflexivity|]. split.
  - unfold to_csv_row at 1. rewrite text_app_assoc, lines_row by done. f_equal.
    apply (lines_rows (map (λ m', String.concat "," (csv_fields m')) (m :: ms)) EmptyString).
    apply Forall_map, Forall_forall. intros m' Hm'. by apply Hrow.
  - apply Forall_forall. intros m' Hm'. rewrite (proj1 (Hrow m' Hm')). by vm_compute.
Qed.

Lemma metrics_log_table_witness :
  ∃ s, metrics_log None [sample; sample] = Some s ∧
    lines s = metrics_header :: map (λ m, String.concat "," (csv_fields m)) [sample; sample]
                ++ [EmptyString] ∧
    Forall (λ m, length (fields (String.concat "," (csv_fields m))) = length (fields metrics_header))
      [sample; sample].
Proof. apply (metrics_log_table None [sample; sample]); [done|done|by repeat constructor]. Defined.

(** Whatever the probe's input, the metrics it reports add up, and the
    elimination rate computed from them in binary64 lies between 0 and 1. *)
Theorem elimination_rate_unit `{BloomLib, ArrowFilter} k name received q t input m :
  m ∈ probe_metrics (probe_stream k name received q t input) →
  (Z.of_nat (rows_in m) <= usize_max)%Z →
  rows_in m = rows_out m + rows_eliminated m ∧
  f64_le f64_zero (elimination_rate m) = true ∧ f64_le (elimination_rate m) f64_one = true.
Proof.
  intros Hm Hmax.
  assert (Hsum : rows_in m = rows_out m + rows_eliminated m).
  { revert Hm. apply probe_metrics_sum. }
  split; [done|]. unfold elimination_rate. destruct (bool_decide_reflect (rows_in m = 0)); [done|].
  destruct (f64_ratio_unit (Z.of_nat (rows_eliminated m)) (Z.of_nat (rows_in m))) as [Hn Hle]; [lia|lia|].
  split; [by apply f64_zero_le|done].
Qed.

Section Example.
#[local] Existing Instances toy_bloom plain_filter.

Definition probe_sample : FilterMetrics :=
  {| query_id := "q3"; col_name := "k"; build_cardinality := 3; distinct_estimate := 2;
     filter_size_bytes := 6; build_time_ms := f64_zero; probe_batches := 1; rows_in := 3;
     rows_out := 1; rows_eliminated := 2; probe_time_ms := f64_zero |}.

Lemma elimination_rate_unit_witness :
  3 = 1 + 2 ∧ f64_le f64_zero (elimination_rate probe_sample) = true ∧
  f64_le (elimination_rate probe_sample) f64_one = true.
Proof.
  apply (elimination_rate_unit 0 "k" (Some toy_payload) (Some "q3") f64_zero
           [Ok (int_batch [Some 1; Some 7; None] [Some 1; Some 2; Some 3])%Z] probe_sample).
  - apply list_elem_of_here.
  - by vm_compute.
Defined.
End Example.

End Metrics.
