(* ===== verification/Transfer.v ===== *)
(** * Predicate transfer across one join

    Composes the build and probe streams with the reference semantics of the
    inner equi-join: the join reads the same pairs whether its probe side is
    filtered or not.  The condition under which this holds (nulls do not match
    nulls) is not checked by the rewrite; [null_equality_loses_rows] shows what
    happens without it. *)

From stdpp Require Import base list strings gmap pretty.
From Stdlib Require Import ZArith Lia.
From S2P Require Import Prelude F64 Relation JoinTypes BloomExec.

Module Transfer.
Import BloomExec.

(** Equality of two key cells ([eq] or [not_distinct] of Arrow, chosen by
    [eq_dyn_null] in physical-plan/src/joins/utils.rs). *)
Definition key_eq (ne : NullEquality) (a b : option value) : bool :=
  match a, b with
  | Some v, Some w => bool_decide (v = w)
  | None, None => bool_decide (ne = NullEqualsNull)
  | _, _ => false
  end.

(** All pairs of key columns agree. *)
Definition row_match (ne : NullEquality) (on : list (nat * nat)) (l r : row) : bool :=
  forallb (λ p, key_eq ne (cell (fst p) l) (cell (snd p) r)) on.

Lemma row_match_key ne on i j l r :
  (i, j) ∈ on → row_match ne on l r = true → key_eq ne (cell i l) (cell j r) = true.
Proof.
  unfold row_match. rewrite forallb_forall. intros Hin Hall.
  by apply (Hall (i, j)), list_elem_of_In.
Qed.

(** Dropping right rows that match nothing does not change an inner join. *)
Lemma inner_join_filter_right {L R} (m : L → R → bool) (keep : R → bool) ls rs :
  (∀ l r, l ∈ ls → m l r = true → keep r = true) →
  join_spec Inner m ls (filter (λ r, keep r = true) rs) = join_spec Inner m ls rs.
Proof.
  intros Hk. cbn [join_spec]. unfold inner_pairs.
  induction ls as [|l ls IH]; [done|]. cbn [mbind list_bind]. f_equal.
  - f_equal. apply list_filter_filter_l. intros r Hm. eapply Hk; [apply list_elem_of_here|done].
  - apply IH. intros l' r Hl. apply Hk. by right.
Qed.

Section OneJoin.
Context `{BloomLib, ArrowFilter, !BloomLibOk, !ArrowFilterOk}.

(** A right row that matches a left row is kept by the left side's filter. *)
Lemma matching_row_kept i j on ls t p l r :
  (i, j) ∈ on → build_payload (texts i ls) t = Some p → l ∈ ls →
  row_match NullEqualsNothing on l r = true → keeps (bp_filter p) j r = true.
Proof.
  intros Hon Hp Hl Hm. apply (row_match_key _ _ i j) in Hm; [|done].
  destruct (build_payload_ok (texts i ls) t) as (p' & Hp' & Hc & _).
  assert (p' = p) as -> by congruence. unfold keeps.
  destruct (cell i l) as [v|] eqn:Hv, (cell j r) as [w|]; try done.
  cbn in Hm. apply bool_decide_eq_true in Hm as <-.
  destruct (key_text v) as [s|] eqn:Hs; [|done].
  apply Hc. apply list_elem_of_omap. exists l. rewrite Hv. done.
Qed.

Lemma build_stream_rows k t bs :
  Forall (has_key k) bs →
  ∃ ev p, build_stream k t (map Ok bs) = Some ev ∧ build_sends ev = [p] ∧
    build_payload (texts k (concat (map rows bs))) t = Some p ∧
    stream_rows (build_yields ev) = concat (map rows bs).
Proof.
  intros Hbs. destruct (build_stream_ok k t bs Hbs) as (p & Hs & Hpay). eexists _, p. split_and!; [exact Hs| |done|].
  - unfold build_sends. cbn. f_equal. rewrite omap_map. clear. by induction bs.
  - unfold stream_rows, build_yields. cbn. rewrite omap_map.
    clear. induction bs as [|b bs IH]; [done|]. cbn. by rewrite IH.
Qed.

Lemma probe_yields_map out ms : probe_yields (map PYield out ++ map PMetrics ms) = out.
Proof.
  unfold probe_yields. rewrite omap_app, !omap_map.
  assert (omap (λ x : FilterMetrics, @None (Result RecordBatch)) ms = []) as -> by (by induction ms).
  rewrite app_nil_r. induction out as [|x out IH]; [done|]. cbn. by rewrite IH.
Qed.

Lemma probe_stream_rows k name p q t input :
  Forall (item_ok k) input →
  stream_rows (probe_yields (probe_stream k name (Some p) q t input)) =
  filter (λ r, keeps (bp_filter p) k r = true) (stream_rows input).
Proof.
  intros Hin. unfold probe_stream.
  destruct (probe_loop_ok k (bp_filter p) input {| c_batches := 0; c_rows_in := 0; c_rows_out := 0 |} Hin)
    as (out & -> & Hout). cbn [c_rows_in c_rows_out plus].
  pose proof (probed_rows _ _ _ _ Hout) as Hr.
  assert (length (stream_rows out) ≤ length (stream_rows input)) by (rewrite Hr; apply length_filter).
  rewrite usize_sub_le by done.
  match goal with |- context [map PYield out ++ [PMetrics ?m]] =>
    change [PMetrics m] with (map PMetrics [m]) end.
  by rewrite probe_yields_map.
Qed.

End OneJoin.

(** The rows a join reads from the probe side, for a received filter or none. *)
Definition probe_rows `{BloomLib, ArrowFilter} (k : nat) (name : string) (received : option BloomPayload)
    (q : option string) (t : f64) (input : list (Result RecordBatch)) : list row :=
  stream_rows (probe_yields (probe_stream k name received q t input)).

(** ** Properties *)

(** C21. Predicate transfer is sound.  On well-formed inputs the build stream sends one
    filter, and an inner join on keys that include the filter's columns (nulls never
    equal, any further join condition) produces the same rows in the same order from
    what the build and probe streams yield as from the unfiltered inputs, whether the
    probe received that filter or no filter at all. *)
Theorem predicate_transfer_sound `{BloomLib, ArrowFilter, !BloomLibOk, !ArrowFilterOk}
    (i j : nat) (name : string) (t1 t2 : f64) (q : option string) (on : list (nat * nat))
    (extra : row → row → bool) (bs : list RecordBatch) (right : list (Result RecordBatch)) :
  (i, j) ∈ on → Forall (has_key i) bs → Forall (item_ok j) right →
  let m l r := row_match NullEqualsNothing on l r && extra l r in
  ∃ ev p, build_stream i t1 (map Ok bs) = Some ev ∧ build_sends ev = [p] ∧
    ∀ received, received = None ∨ received = Some p →
      join_spec Inner m (stream_rows (build_yields ev)) (probe_rows j name received q t2 right) =
      join_spec Inner m (concat (map rows bs)) (stream_rows right).
Proof.
  intros Hon Hbs Hright m. destruct (build_stream_rows i t1 bs Hbs) as (ev & p & Hev & Hsend & Hp & Hy).
  exists ev, p. split_and!; [done..|]. rewrite Hy. intros received [-> | ->].
  - unfold probe_rows, probe_stream. do 2 f_equal. rewrite <- (app_nil_r (map PYield right)).
    apply (probe_yields_map right []).
  - unfold probe_rows. rewrite probe_stream_rows by done.
    apply inner_join_filter_right. intros l r Hl [Hm _]%andb_true_iff.
    by eapply matching_row_kept.
Qed.

Section Examples.
#[local] Existing Instances toy_bloom toy_bloom_ok plain_filter plain_filter_ok.

Lemma predicate_transfer_sound_witness :
  ∃ ev p, build_stream 0 f64_zero (map Ok orders) = Some ev ∧ build_sends ev = [p] ∧
    join_spec Inner (λ l r, row_match NullEqualsNothing [(0, 0)] l r && true)
      (stream_rows (build_yields ev)) (probe_rows 0 "k" (Some p) None f64_zero (map Ok lines)) =
    join_spec Inner (λ l r, row_match NullEqualsNothing [(0, 0)] l r && true)
      (concat (map rows orders)) (stream_rows (map Ok lines)).
Proof.
  destruct (predicate_transfer_sound 0 0 "k" f64_zero f64_zero None [(0, 0)] (λ _ _, true) orders (map Ok lines))
    as (ev & p & Hev & Hp & Hj).
  - apply list_elem_of_here.
  - repeat constructor; cbn; lia.
  - repeat constructor; cbn; lia.
  - exists ev, p. split; [exact Hev|]. split; [exact Hp|]. apply Hj. by right.
Defined.

(** What a probe keeps of one batch with the filter another batch builds. *)
Lemma cross_probe b1 b2 :
  has_key 0 b1 → has_key 0 b2 →
  ∃ ev p, build_stream 0 f64_zero [Ok b1] = Some ev ∧ build_sends ev = [p] ∧
    bp_filter p = foldl set [] (texts 0 (rows b1)) ∧
    probe_rows 0 "k" (Some p) None f64_zero [Ok b2] =
    filter (λ r, keeps (foldl set [] (texts 0 (rows b1))) 0 r = true) (rows b2).
Proof.
  intros H1 H2. destruct (build_stream_ok 0 f64_zero [b1]) as (p & Hs & Hp); [by apply Forall_singleton|].
  cbn [map concat] in Hp. rewrite app_nil_r in Hp.
  destruct (build_payload_filter _ _ _ Hp) as (bf & [= <-] & Hbf).
  exists (BSend p :: map (λ b, BYield (Ok b)) [b1]), p. split_and!; [exact Hs|done|exact Hbf|].
  unfold probe_rows. rewrite probe_stream_rows by (by apply Forall_singleton).
  rewrite Hbf. cbn [stream_rows map concat]. by rewrite app_nil_r.
Qed.

(** One left row and one right row with null keys. *)
Definition null_row : RecordBatch := int_batch [None] [Some 1%Z].

(** The rewrite does not look at the join's null equality.  For a join in
    which null equals null (the plan of [IS NOT DISTINCT FROM]) the probe drops
    null keys, and the joined row is lost. *)
Theorem null_equality_loses_rows :
  ∃ ev p, build_stream 0 f64_zero [Ok null_row] = Some ev ∧ build_sends ev = [p] ∧
    join_spec Inner (row_match NullEqualsNull [(0, 0)]) (rows null_row) (rows null_row) ≠ [] ∧
    join_spec Inner (row_match NullEqualsNull [(0, 0)]) (rows null_row)
      (probe_rows 0 "k" (Some p) None f64_zero [Ok null_row]) = [].
Proof.
  assert (Hk : has_key 0 null_row) by (repeat constructor).
  destruct (cross_probe null_row null_row Hk Hk) as (ev & p & Hs & Hp & _ & Hr).
  exists ev, p. rewrite Hr. split_and!; [done|done|discriminate|reflexivity].
Qed.

(** The filter of one partition does not fit another: when two partitions of
    a partitioned join share the broadcast channel, a probe that receives the
    other partition's filter drops rows that have a match. *)
Theorem other_partition_filter_loses_rows :
  let part0 := int_batch [Some 1%Z] [Some 10%Z] in
  let part1 := int_batch [Some 3%Z] [Some 30%Z] in
  ∃ ev0 p0, build_stream 0 f64_zero [Ok part0] = Some ev0 ∧ build_sends ev0 = [p0] ∧
    join_spec Inner (row_match NullEqualsNothing [(0, 0)]) (rows part1) (rows part1) ≠ [] ∧
    join_spec Inner (row_match NullEqualsNothing [(0, 0)]) (rows part1)
      (probe_rows 0 "k" (Some p0) None f64_zero [Ok part1]) = [].
Proof.
  intros part0 part1.
  destruct (cross_probe part0 part1) as (ev & p & Hs & Hp & _ & Hr); [repeat constructor..|].
  exists ev, p. rewrite Hr. split_and!; [done|done|vm_compute; discriminate|].
  vm_compute. reflexivity.
Qed.

End Examples.
End Transfer.
