(* ===== verification/PhysicalPlan.v ===== *)
(** * Physical plans (physical-plan/src/joins, execution_plan.rs; bloom_filter_transfer.rs)

    Plan trees with the nodes the filter rule looks at: hash joins, the two
    Bloom-filter nodes, and any other node behind an interface.  Broadcast
    channels are numbered.  [eval] reads a plan on one partition: the build side
    of a join runs first, and what it broadcasts is there when the probe side
    runs. *)

From stdpp Require Import base list strings gmap pretty.
From Stdlib Require Import ZArith Lia.
From S2P Require Import Prelude F64 Text Relation JoinTypes Stats BloomExec Transfer.

(** ** Expressions *)

(** A physical expression: a column, or another expression known by its text,
    its type, the columns it reads and the value it takes on a row. *)
Inductive PhysicalExpr :=
| Column (name : string) (index : nat)
| OtherExpr (text : string) (ty : DataType) (columns : list (string * nat)) (value_of : row → option value).

Module Expr.
Import BloomExec.

(** [Display]: a column prints as [name@index]. *)
Definition display (e : PhysicalExpr) : string :=
  match e with
  | Column name index => name +:+ "@" +:+ Text.usize_text index
  | OtherExpr text _ _ _ => text
  end.

Definition collect_columns (e : PhysicalExpr) : list (string * nat) :=
  match e with
  | Column name index => [(name, index)]
  | OtherExpr _ _ columns _ => columns
  end.

Definition evaluate (e : PhysicalExpr) (r : row) : option value :=
  match e with
  | Column _ index => cell index r
  | OtherExpr _ _ _ f => f r
  end.

(** A column's type is its field's; its index is checked (the names the message
    ends with are left out). *)
Definition data_type (e : PhysicalExpr) (input_schema : Schema) : Result DataType :=
  match e with
  | Column name index =>
      match input_schema !! index with
      | Some f => Ok (f_type f)
      | None => Err (Internal ("PhysicalExpr Column references column '" +:+ name +:+ "' at index "
                               +:+ Text.usize_text index +:+ " (zero-based) but input schema only has "
                               +:+ Text.usize_text (length input_schema) +:+ " columns"))
      end
  | OtherExpr _ ty _ _ => Ok ty
  end.
End Expr.

(** ** Join schemas *)

Module JoinSchema.

Record ColumnIndex := { ci_index : nat; ci_side : JoinSide }.

Definition force_nullable (jt : JoinType) (is_left : bool) : bool :=
  match jt with
  | Inner => false
  | Left => negb is_left
  | Right => is_left
  | Full => true
  | LeftSemi | RightSemi | LeftAnti | RightAnti | LeftMark | RightMark => false
  end.

Definition output_join_field (old_field : Field) (jt : JoinType) (is_left : bool) : Field :=
  if force_nullable jt is_left
  then {| f_name := f_name old_field; f_type := f_type old_field; f_nullable := true |}
  else old_field.

Definition side_fields (s : Schema) (jt : JoinType) (is_left : bool) : list (Field * ColumnIndex) :=
  imap (λ index f, (output_join_field f jt is_left,
                    {| ci_index := index; ci_side := if is_left then SideLeft else SideRight |})) s.

Definition mark_field : Field * ColumnIndex :=
  ({| f_name := "mark"; f_type := DBoolean; f_nullable := false |},
   {| ci_index := 0; ci_side := SideNone |}).

Definition build_join_schema (left right : Schema) (jt : JoinType) : Schema * list ColumnIndex :=
  let left_fields := side_fields left jt true in
  let right_fields := side_fields right jt false in
  let fields :=
    match jt with
    | Inner | Left | Full | Right => left_fields ++ right_fields
    | LeftSemi | LeftAnti => left_fields
    | LeftMark => left_fields ++ [mark_field]
    | RightSemi | RightAnti => right_fields
    | RightMark => right_fields ++ [mark_field]
    end in
  (fields.*1, fields.*2).

(** [schema.project(columns)] *)
Definition project_fields (s : Schema) (projection : option (list nat)) : option Schema :=
  match projection with
  | None => Some s
  | Some columns => mapM (λ i, s !! i) columns
  end.

(** Every column of the keys is a field of its side, name and index. *)
Definition has_columns (s : Schema) (e : PhysicalExpr) : bool :=
  forallb (λ c : string * nat, bool_decide (f_name <$> s !! c.2 = Some c.1)) (Expr.collect_columns e).

Definition check_join_is_valid (left right : Schema) (on : list (PhysicalExpr * PhysicalExpr))
    : Result unit :=
  if forallb (λ p, has_columns left p.1 && has_columns right p.2) on then Ok ()
  else Err (Plan "The left or right side of the join does not have all columns on").

(** One output cell: a build cell, a probe cell, or the mark. *)
Definition output_row (cis : list ColumnIndex) (o : jout row row) : row :=
  let '(l, r, mark) :=
    match o with
    | Both l r => (Some l, Some r, true)
    | LeftOnly l => (Some l, None, false)
    | RightOnly r => (None, Some r, false)
    | LeftMarked l b => (Some l, None, b)
    | RightMarked r b => (None, Some r, b)
    end in
  map (λ ci, match ci_side ci with
             | SideLeft => l ≫= BloomExec.cell (ci_index ci)
             | SideRight => r ≫= BloomExec.cell (ci_index ci)
             | SideNone => Some (VBoolean mark)
             end) cis.
End JoinSchema.

(** ** Plans *)

(** Any other operator: its schema, how it takes new children, and the rows it
    makes of its inputs' rows. *)
Class Nodes := {
  Node : Type;
  node_schema : Node → list Schema → Schema;
  node_rebuild : Node → list Schema → Result Node;
  node_rows : Node → list (list row) → list row;
}.

(** [with_new_children] replaces the children and nothing else. *)
Class NodesOk `{Nodes} : Prop := {
  node_rebuild_schema : ∀ n ss n', node_rebuild n ss = Ok n' → node_schema n' ss = node_schema n ss;
  node_rebuild_rows : ∀ n ss n' rss, node_rebuild n ss = Ok n' → node_rows n' rss = node_rows n rss;
}.

(** The residual filter: an expression over a row of both sides' columns. *)
Record JoinFilter := {
  filter_expression : row → option bool;
  filter_column_indices : list JoinSchema.ColumnIndex;
}.

Definition filter_match (f : option JoinFilter) (l r : row) : bool :=
  match f with
  | Some f => bool_decide (filter_expression f (JoinSchema.output_row (filter_column_indices f) (Both l r)) = Some true)
  | None => true
  end.

(** The fields of [HashJoinExec] that decide its rows. *)
Record HashJoin := {
  on : list (PhysicalExpr * PhysicalExpr);
  join_type : JoinType;
  null_equality : NullEquality;
  null_aware : bool;
  projection : option (list nat);
  join_filter : option JoinFilter;
  join_fetch : option nat;
}.

Module Plan.
Import BloomExec JoinSchema.

(** The checks of [HashJoinExecBuilder::build] on the fields and the schemas of
    the inputs. *)
Definition hash_join_check (j : HashJoin) (l r : Schema) : Result unit :=
  _ ← (if null_aware j then
         if bool_decide (join_type j = LeftAnti) then
           if bool_decide (length (on j) = 1) then Ok ()
           else Err (Plan "null_aware anti join only supports single column join key")
         else Err (Plan "null_aware can only be true for LeftAnti joins")
       else Ok ());
  _ ← (if bool_decide (on j = []) then Err (Plan "On constraints in HashJoinExec should be non-empty")
       else Ok ());
  _ ← check_join_is_valid l r (on j);
  can_project (build_join_schema l r (join_type j)).1 (projection j).

Section Plan.
Context `{Nodes}.

Inductive plan :=
| HashJoinExec (j : HashJoin) (l r : plan)
| BloomFilterBuildExec (input : plan) (key_column_name : string) (sender : nat)
| BloomFilterProbeExec (input : plan) (key_column_name : string) (sender : nat)
| OtherExec (n : Node) (inputs : list plan).

Definition hash_join_schema (j : HashJoin) (l r : Schema) : Schema :=
  default [] (project_fields (build_join_schema l r (join_type j)).1 (projection j)).

(** The Bloom-filter nodes have their input's properties. *)
Fixpoint schema (p : plan) : Schema :=
  match p with
  | HashJoinExec j l r => hash_join_schema j (schema l) (schema r)
  | BloomFilterBuildExec input _ _ => schema input
  | BloomFilterProbeExec input _ _ => schema input
  | OtherExec n inputs => node_schema n (map schema inputs)
  end.

Definition children (p : plan) : list plan :=
  match p with
  | HashJoinExec _ l r => [l; r]
  | BloomFilterBuildExec input _ _ => [input]
  | BloomFilterProbeExec input _ _ => [input]
  | OtherExec _ inputs => inputs
  end.

(** [HashJoinExecBuilder::build] after the children were replaced. *)
Definition hash_join_build (j : HashJoin) (l r : plan) : Result plan :=
  _ ← hash_join_check j (schema l) (schema r);
  Ok (HashJoinExec j l r).

(** [with_new_children]; the filter nodes index the new children. *)
Definition with_new_children (p : plan) (cs : list plan) : option (Result plan) :=
  match p with
  | HashJoinExec j _ _ =>
      Some (match cs with
            | [l; r] => hash_join_build j l r
            | _ => Err (Internal "wrong number of children passed into `HashJoinExecBuilder`")
            end)
  | BloomFilterBuildExec _ key sender =>
      input ← vec_get cs 0; Some (Ok (BloomFilterBuildExec input key sender))
  | BloomFilterProbeExec _ key sender =>
      input ← vec_get cs 0; Some (Ok (BloomFilterProbeExec input key sender))
  | OtherExec n _ => Some (n' ← node_rebuild n (map schema cs); Ok (OtherExec n' cs))
  end.

(** ** Reading plans *)

(** The channels a plan sends or listens on. *)
Fixpoint channels (p : plan) : list nat :=
  match p with
  | HashJoinExec _ l r => channels l ++ channels r
  | BloomFilterBuildExec input _ c => channels input ++ [c]
  | BloomFilterProbeExec input _ c => channels input ++ [c]
  | OtherExec _ inputs => concat (map channels inputs)
  end.

(** The filter nodes: channel and key column of each. *)
Fixpoint builds (p : plan) : list (nat * string) :=
  match p with
  | HashJoinExec _ l r => builds l ++ builds r
  | BloomFilterBuildExec input k c => builds input ++ [(c, k)]
  | BloomFilterProbeExec input _ _ => builds input
  | OtherExec _ inputs => concat (map builds inputs)
  end.

Fixpoint probes (p : plan) : list (nat * string) :=
  match p with
  | HashJoinExec _ l r => probes l ++ probes r
  | BloomFilterBuildExec input _ _ => probes input
  | BloomFilterProbeExec input k c => probes input ++ [(c, k)]
  | OtherExec _ inputs => concat (map probes inputs)
  end.

(** Inner joins in probe order; the other kinds as the reference lists them. *)
Definition probe_order (m : row → row → bool) (ls rs : list row) : list (jout row row) :=
  rs ≫= λ r, (λ l, Both l r) <$> filter (λ l, m l r = true) ls.

(** The key a null-aware join compares is null. *)
Definition null_key (es : list PhysicalExpr) (r : row) : bool :=
  match es with e :: _ => bool_decide (Expr.evaluate e r = None) | [] => false end.

(** Null-aware anti joins: nothing when a probe key is null, else the unmatched
    build rows, those with a null key only when there is no probe row. *)
Definition null_aware_output (m : row → row → bool) (on : list (PhysicalExpr * PhysicalExpr)) (ls rs : list row)
    : list (jout row row) :=
  if existsb (null_key on.*2) rs then []
  else LeftOnly <$> filter (λ l, left_matched m rs l || (bool_decide (0 < length rs) && null_key on.*1 l) = false) ls.

Definition join_match (j : HashJoin) (l r : row) : bool :=
  forallb (λ p, Transfer.key_eq (null_equality j) (Expr.evaluate p.1 l) (Expr.evaluate p.2 r)) (on j)
  && filter_match (join_filter j) l r.

Definition join_output (j : HashJoin) (ls rs : list row) : list (jout row row) :=
  match join_type j with
  | Inner => probe_order (join_match j) ls rs
  | LeftAnti => if null_aware j then null_aware_output (join_match j) (on j) ls rs
                else join_spec LeftAnti (join_match j) ls rs
  | jt => join_spec jt (join_match j) ls rs
  end.

Definition take_fetch {A} (fetch : option nat) (l : list A) : list A :=
  match fetch with Some n => take n l | None => l end.

Definition join_rows (j : HashJoin) (l r : Schema) (ls rs : list row) : list row :=
  let cis := (build_join_schema l r (join_type j)).2 in
  let cis := match projection j with
             | None => cis
             | Some columns => omap (λ i, cis !! i) columns
             end in
  take_fetch (join_fetch j)
    (map (output_row cis) (join_output j ls rs)).

Context `{BloomLib}.

Abbreviation chans := (nat → option BloomPayload).

Definition send (ch : chans) (c : nat) (p : BloomPayload) : chans :=
  λ c', if decide (c' = c) then Some p else ch c'.

(** The rows of a plan and what the channels then hold; [None] when a filter's
    column is missing. *)
Fixpoint eval (p : plan) (ch : chans) : option (list row * chans) :=
  match p with
  | HashJoinExec j l r =>
      lr ← eval l ch;
      rr ← eval r lr.2;
      Some (join_rows j (schema l) (schema r) lr.1 rr.1, rr.2)
  | BloomFilterBuildExec input key c =>
      ir ← eval input ch;
      k ← position (schema input) key;
      payload ← build_payload (texts k ir.1) f64_zero;
      Some (ir.1, send ir.2 c payload)
  | BloomFilterProbeExec input key c =>
      ir ← eval input ch;
      k ← position (schema input) key;
      Some (match ir.2 c with
            | Some payload => filter (λ r, keeps (bp_filter payload) k r = true) ir.1
            | None => ir.1
            end, ir.2)
  | OtherExec n inputs =>
      ir ← (fix eval_all (ps : list plan) (ch : chans) : option (list (list row) * chans) :=
              match ps with
              | [] => Some ([], ch)
              | p :: ps => pr ← eval p ch; psr ← eval_all ps pr.2; Some (pr.1 :: psr.1, psr.2)
              end) inputs ch;
      Some (node_rows n ir.1, ir.2)
  end.

Fixpoint eval_all (ps : list plan) (ch : chans) : option (list (list row) * chans) :=
  match ps with
  | [] => Some ([], ch)
  | p :: ps => pr ← eval p ch; psr ← eval_all ps pr.2; Some (pr.1 :: psr.1, psr.2)
  end.

Lemma eval_other n inputs ch :
  eval (OtherExec n inputs) ch = ir ← eval_all inputs ch; Some (node_rows n ir.1, ir.2).
Proof. reflexivity. Qed.

End Plan.

(** Induction over plans, through the list of inputs. *)
Section PlanInd.
Context `{Nodes} (P : plan → Prop).
Hypothesis Hjoin : ∀ j l r, P l → P r → P (HashJoinExec j l r).
Hypothesis Hbuild : ∀ input k c, P input → P (BloomFilterBuildExec input k c).
Hypothesis Hprobe : ∀ input k c, P input → P (BloomFilterProbeExec input k c).
Hypothesis Hother : ∀ n inputs, Forall P inputs → P (OtherExec n inputs).

Fixpoint plan_ind' (p : plan) : P p :=
  match p with
  | HashJoinExec j l r => Hjoin j l r (plan_ind' l) (plan_ind' r)
  | BloomFilterBuildExec input k c => Hbuild input k c (plan_ind' input)
  | BloomFilterProbeExec input k c => Hprobe input k c (plan_ind' input)
  | OtherExec n inputs =>
      Hother n inputs
        ((fix go (ps : list plan) : Forall P ps :=
            match ps with
            | [] => Forall_nil_2 P
            | p :: ps => Forall_cons_2 P p ps (plan_ind' p) (go ps)
            end) inputs)
  end.
End PlanInd.

Section EvalFrame.
Context `{Nodes, BloomLib}.
Abbreviation chans := (nat → option BloomPayload).

(** What an evaluator reads and writes of the channels is among [cs]. *)
Definition local_to {A} (cs : list nat) (ev : chans → option (A * chans)) : Prop :=
  ∀ ch ch' a o, (∀ c, c ∈ cs → ch c = ch' c) → ev ch = Some (a, o) →
  ∃ o', ev ch' = Some (a, o') ∧ (∀ c, ch c = ch' c → o c = o' c) ∧ (∀ c, c ∉ cs → o' c = ch' c).

Lemma local_seq {A B C} cs1 cs2 ev1 (ev2 : chans → option (B * chans)) (f : A → B → C) :
  local_to cs1 ev1 → local_to cs2 ev2 →
  local_to (cs1 ++ cs2) (λ ch, r1 ← ev1 ch; r2 ← ev2 r1.2; Some (f r1.1 r2.1, r2.2)).
Proof.
  intros H1 H2 ch ch' c o Hch ([a o1] & E1 & ([b o2] & E2 & [= <- <-])%bind_Some)%bind_Some.
  cbn [fst snd] in *.
  destruct (H1 ch ch' a o1) as (o1' & E1' & Hag1 & Hfr1); [|done|].
  { intros k Hk. apply Hch, elem_of_app. by left. }
  destruct (H2 o1 o1' b o2) as (o2' & E2' & Hag2 & Hfr2); [|done|].
  { intros k Hk. apply Hag1, Hch, elem_of_app. by right. }
  exists o2'. rewrite E1'. cbn. rewrite E2'. split_and!; [done|auto|].
  intros k Hk. rewrite elem_of_app in Hk. rewrite Hfr2, Hfr1; tauto.
Qed.

Lemma eval_local p : local_to (channels p) (eval p).
Proof.
  induction p as [j l r IHl IHr|input k c IH|input k c IH|n inputs IH] using plan_ind'.
  - by apply local_seq.
  - intros ch ch' a o Hch ([a1 o1] & E1 & (i & Ei & (pl & Ep & [= <- <-])%bind_Some)%bind_Some)%bind_Some.
    cbn [fst snd] in *. destruct (IH ch ch' a1 o1) as (o1' & E1' & Hag & Hfr); [|done|].
    { intros c' Hc'. apply Hch, elem_of_app. by left. }
    exists (send o1' c pl). cbn [eval]. rewrite E1'. cbn [mbind option_bind fst snd]. rewrite Ei. cbn. rewrite Ep.
    split_and!; [done| |]; intros c' Hc'; unfold send; cbn [channels] in *; rewrite ?elem_of_app, ?elem_of_cons in *;
      destruct (decide (c' = c)); try done; [auto|tauto|apply Hfr; tauto].
  - intros ch ch' a o Hch ([a1 o1] & E1 & (i & Ei & [= <- <-])%bind_Some)%bind_Some.
    cbn [fst snd] in *. destruct (IH ch ch' a1 o1) as (o1' & E1' & Hag & Hfr); [|done|].
    { intros c' Hc'. apply Hch, elem_of_app. by left. }
    exists o1'. cbn [eval]. rewrite E1'. cbn [mbind option_bind fst snd]. rewrite Ei. cbn.
    rewrite (Hag c) by (apply Hch; cbn; rewrite elem_of_app, elem_of_cons; tauto).
    split_and!; [done|done|]. intros c' Hc'. apply Hfr. cbn in Hc'. rewrite elem_of_app in Hc'. tauto.
  - assert (Hall : local_to (concat (map channels inputs)) (eval_all inputs)).
    { induction IH as [|p ps Hp _ IHps].
      - intros ch ch' a o _ [= <- <-]. by exists ch'.
      - cbn [map concat]. apply (local_seq _ _ (eval p) (eval_all ps) cons Hp IHps). }
    intros ch ch' a o Hch ([rss o1] & E1 & [= <- <-])%bind_Some. cbn [fst snd] in *.
    destruct (Hall ch ch' rss o1 Hch E1) as (o1' & E1' & Hag & Hfr).
    exists o1'. rewrite eval_other, E1'. done.
Qed.

(** Channels a plan does not mention keep what they held. *)
Lemma eval_frame p ch rs o c : eval p ch = Some (rs, o) → c ∉ channels p → o c = ch c.
Proof.
  intros E Hc. destruct (eval_local p ch ch rs o) as (o' & E' & _ & Hfr); [done|done|].
  rewrite E in E'. injection E' as <-. by apply Hfr.
Qed.

(** Fewer probe rows give the same inner join if the others match nothing. *)
Lemma probe_order_filter m (keep : row → bool) ls rs :
  (∀ l r, l ∈ ls → m l r = true → keep r = true) →
  probe_order m ls (filter (λ r, keep r = true) rs) = probe_order m ls rs.
Proof.
  intros Hk. unfold probe_order. induction rs as [|r rs IH]; [done|].
  rewrite filter_cons. destruct (decide (keep r = true)) as [Hr|Hr]; cbn [mbind list_bind]; [by rewrite IH|].
  rewrite IH. replace (filter (λ l, m l r = true) ls) with (@nil row); [done|].
  symmetry. clear IH. induction ls as [|l ls IHl]; [done|]. rewrite filter_cons_False.
  - apply IHl. intros l' r' Hl'. apply Hk. by right.
  - intros Hm. apply Hr. apply (Hk l); [apply list_elem_of_here|done].
Qed.

End EvalFrame.

(** ** Examples *)

(** Scans of constant tables. *)
Definition scans : Nodes :=
  {| Node := Schema * list row; node_schema := λ n _, n.1; node_rebuild := λ n _, Ok n;
     node_rows := λ n _, n.2 |}.

Lemma scans_ok : @NodesOk scans.
Proof. split; [by intros n ss n' [= <-]|by intros n ss n' rss [= <-]]. Qed.

Definition int_field (name : string) : Field :=
  {| f_name := name; f_type := DInt64; f_nullable := true |}.

End Plan.
