(* ===== verification/JoinCardinality.v ===== *)
(** * Cardinality of joins (physical-plan/src/joins/utils.rs)

    The estimate of a join's row count and column statistics from those of its
    inputs, which the planner's features and the join order are read from.
    [Interval::cardinality] is a parameter.  Proved: the estimate returns
    whenever the product of the row counts fits, has one entry per column of the
    join schema, is never below what an outer join preserves and never above what
    a semi, anti or mark join can yield; inputs declared exactly disjoint join to
    nothing. *)

From stdpp Require Import base list strings sets.
From Stdlib Require Import ZArith Lia.
From S2P Require Import Prelude F64 Relation JoinTypes Stats PhysicalPlan.

Module JoinCardinality.
Import Statistics.
#[local] Open Scope Z_scope.

(** [Interval::try_new(min, max).ok().and_then(|e| e.cardinality())] *)
Class Intervals `{ScalarOps} := {
  interval_cardinality : ScalarValue → ScalarValue → option Z;
}.

Section Estimates.
Context `{Intervals}.

Definition usize_ge (a b : Z) : bool := b <=? a.

Record PartialJoinStatistics := {
  p_num_rows : Z;
  p_column_statistics : list ColumnStatistics;
}.

(** The distinct values among the rows that are not null. *)
Definition non_null_count (num_rows : Precision Z) (stats : ColumnStatistics) : Precision Z :=
  let null_count_ := default 0 (Precision.get_value (null_count stats)) in
  match num_rows with
  | Absent => Absent
  | Inexact count => match checked_sub count null_count_ with
                     | None => Inexact 0
                     | Some n => Inexact n
                     end
  | Exact count =>
      let n := default 0 (checked_sub count null_count_) in
      if default false (Precision.is_exact (null_count stats)) then Exact n else Inexact n
  end.

(** The cap by the number of possible values; [None] is an [unwrap] that fails. *)
Definition cap_by_range (result : Precision Z) (stats : ColumnStatistics) (range_dc : Z) : option (Precision Z) :=
  below ← match result with
          | Absent => Some true
          | r => n ← Precision.get_value r; Some (range_dc <? n)
          end;
  if (below : bool) then
    min_exact ← Precision.is_exact (min_value stats);
    max_exact ← Precision.is_exact (max_value stats);
    Some (if min_exact && max_exact then Exact range_dc else Inexact range_dc)
  else Some result.

Definition max_distinct_count (num_rows : Precision Z) (stats : ColumnStatistics) : option (Precision Z) :=
  match distinct_count stats with
  | Absent =>
      let result := non_null_count num_rows stats in
      match Precision.get_value (min_value stats), Precision.get_value (max_value stats) with
      | Some mn, Some mx => match interval_cardinality mn mx with
                            | Some range_dc => cap_by_range result stats range_dc
                            | None => Some result
                            end
      | _, _ => Some result
      end
  | dc => Some dc
  end.

(** [left > right] of two optional values that are both there. *)
Definition known_gt (a b : Precision ScalarValue) : bool :=
  match Precision.get_value a, Precision.get_value b with
  | Some x, Some y => scalar_gt x y
  | _, _ => false
  end.

Definition zero_estimate (a b : Precision ScalarValue) : Precision Z :=
  if default false (Precision.is_exact a) && default false (Precision.is_exact b) then Exact 0 else Inexact 0.

(** The loop over the pairs of columns. *)
Fixpoint disjoint_loop (pairs : list (ColumnStatistics * ColumnStatistics)) : option (Precision Z) :=
  match pairs with
  | [] => None
  | (left_stat, right_stat) :: pairs =>
      if known_gt (min_value left_stat) (max_value right_stat) then
        Some (zero_estimate (min_value left_stat) (max_value right_stat))
      else if known_gt (min_value right_stat) (max_value left_stat) then
        Some (zero_estimate (max_value left_stat) (min_value right_stat))
      else disjoint_loop pairs
  end.

Definition estimate_disjoint_inputs (left_stats right_stats : Statistics) : option (Precision Z) :=
  disjoint_loop (zip (column_statistics left_stats) (column_statistics right_stats)).

(** The selectivity the last pair with a known distinct count leaves. *)
Fixpoint selectivity_loop (left_num_rows right_num_rows : Precision Z)
    (pairs : list (ColumnStatistics * ColumnStatistics)) (join_selectivity : Precision Z) : option (Precision Z) :=
  match pairs with
  | [] => Some join_selectivity
  | (left_stat, right_stat) :: pairs =>
      left_max_distinct ← max_distinct_count left_num_rows left_stat;
      right_max_distinct ← max_distinct_count right_num_rows right_stat;
      let max_distinct := Precision.max usize_ge left_max_distinct right_max_distinct in
      selectivity_loop left_num_rows right_num_rows pairs
        (if bool_decide (Precision.get_value max_distinct = None) then join_selectivity else max_distinct)
  end.

(** The outer [None] is a panic: the multiplication of the row counts is checked
    in builds with overflow checks. *)
Definition estimate_inner_join_cardinality (left_stats right_stats : Statistics) : option (option (Precision Z)) :=
  match estimate_disjoint_inputs left_stats right_stats with
  | Some estimation => Some (Some estimation)
  | None =>
      join_selectivity ← selectivity_loop (num_rows left_stats) (num_rows right_stats)
        (zip (column_statistics left_stats) (column_statistics right_stats)) Absent;
      match Precision.get_value (num_rows left_stats), Precision.get_value (num_rows right_stats) with
      | Some l, Some r =>
          match join_selectivity with
          | Exact value => if 0 <? value then p ← checked_mul l r; Some (Some (Exact (p / value))) else Some None
          | Inexact value => if 0 <? value then p ← checked_mul l r; Some (Some (Inexact (p / value))) else Some None
          | Absent => Some None
          end
      | _, _ => Some None
      end
  end.

(** The statistics of one key pair; indexing past the columns panics. *)
Definition key_stats (left_stats right_stats : Statistics) (e : PhysicalExpr * PhysicalExpr)
    : option (ColumnStatistics * ColumnStatistics) :=
  match e with
  | (Column _ li, Column _ ri) =>
      l ← vec_get (column_statistics left_stats) li;
      r ← vec_get (column_statistics right_stats) ri;
      Some (l, r)
  | _ => Some (new_unknown_column, new_unknown_column)
  end.

Definition outer_cardinality (jt : JoinType) (ij left_rows right_rows : Precision Z) : Precision Z :=
  match jt with
  | Left => Precision.max usize_ge ij left_rows
  | Right => Precision.max usize_ge ij right_rows
  | Full => Precision.sub (Precision.add (Precision.max usize_ge ij left_rows) (Precision.max usize_ge ij right_rows)) ij
  | _ => ij
  end.

Definition semi_cardinality (outer_stats inner_stats : Statistics) : option Z :=
  match estimate_disjoint_inputs outer_stats inner_stats with
  | Some estimation => Precision.get_value estimation
  | None => Precision.get_value (num_rows outer_stats)
  end.

(** The joins that yield the columns of one side, and the mark. *)
Definition one_side (outer_stats : Statistics) (num_rows : option Z) (mark : list ColumnStatistics)
    : option PartialJoinStatistics :=
  n ← num_rows; Some {| p_num_rows := n; p_column_statistics := column_statistics outer_stats ++ mark |}.

(** The outer option is a panic, the inner one the function's own. *)
Definition estimate_join_cardinality (jt : JoinType) (left_stats right_stats : Statistics)
    (on : list (PhysicalExpr * PhysicalExpr)) : option (option PartialJoinStatistics) :=
  keys ← mapM (key_stats left_stats right_stats) on;
  match jt with
  | Inner | Left | Right | Full =>
      ij ← estimate_inner_join_cardinality
             {| num_rows := num_rows left_stats; total_byte_size := Absent; column_statistics := keys.*1 |}
             {| num_rows := num_rows right_stats; total_byte_size := Absent; column_statistics := keys.*2 |};
      Some (ij' ← ij;
            n ← Precision.get_value (outer_cardinality jt ij' (num_rows left_stats) (num_rows right_stats));
            Some {| p_num_rows := n;
                    p_column_statistics := column_statistics left_stats ++ column_statistics right_stats |})
  | LeftSemi => Some (one_side left_stats (semi_cardinality left_stats right_stats) [])
  | RightSemi => Some (one_side right_stats (semi_cardinality right_stats left_stats) [])
  | LeftAnti => Some (one_side left_stats (Precision.get_value (num_rows left_stats)) [])
  | RightAnti => Some (one_side right_stats (Precision.get_value (num_rows right_stats)) [])
  | LeftMark => Some (one_side left_stats (Precision.get_value (num_rows left_stats)) [new_unknown_column])
  | RightMark => Some (one_side right_stats (Precision.get_value (num_rows right_stats)) [new_unknown_column])
  end.

Definition estimate_join_statistics (left_stats right_stats : Statistics)
    (on : list (PhysicalExpr * PhysicalExpr)) (jt : JoinType) (schema : Schema) : option Statistics :=
  join_stats ← estimate_join_cardinality jt left_stats right_stats on;
  Some match join_stats with
       | Some stats => {| num_rows := Inexact (p_num_rows stats); total_byte_size := Absent;
                          column_statistics := p_column_statistics stats |}
       | None => {| num_rows := Absent; total_byte_size := Absent; column_statistics := unknown_column schema |}
       end.

(** ** [HashJoinExec::partition_statistics] *)

Inductive PartitionMode := Partitioned | CollectLeft | Auto.

Abbreviation part_stats := (option nat → option (Result Statistics)).

(** The partitions of the two inputs whose statistics are asked for. *)
Definition input_partitions (mode : PartitionMode) (partition : option nat) : option nat * option nat :=
  match partition, mode with
  | Some p, CollectLeft => (None, Some p)
  | Some p, Partitioned => (Some p, Some p)
  | _, _ => (None, None)
  end.

Definition partition_statistics (mode : PartitionMode) (j : HashJoin) (join_schema : Schema)
    (left right : part_stats) (partition : option nat) : option (Result Statistics) :=
  left_stats ←? left (input_partitions mode partition).1;
  right_stats ←? right (input_partitions mode partition).2;
  stats ← estimate_join_statistics left_stats right_stats (on j) (join_type j) join_schema;
  stats ← project_impl stats (projection j);
  with_fetch stats (Z.of_nat <$> join_fetch j) 0 1.

(** ** Lemmas *)

(** The row counts are counts, and their product fits 64 bits. *)
Definition rows_fit (left_stats right_stats : Statistics) : Prop :=
  (∀ a, Precision.get_value (num_rows left_stats) = Some a → 0 <= a <= usize_max) ∧
  (∀ b, Precision.get_value (num_rows right_stats) = Some b → 0 <= b <= usize_max) ∧
  (∀ a b, Precision.get_value (num_rows left_stats) = Some a → Precision.get_value (num_rows right_stats) = Some b →
     a * b <= usize_max).

(** The sum of the estimates of both outer joins fits as well. *)
Definition sums_fit (left_rows right_rows : Precision Z) : Prop :=
  ∀ a b, Precision.get_value left_rows = Some a → Precision.get_value right_rows = Some b → 2 * (a * b) + a + b <= usize_max.

Definition keys_in (left_stats right_stats : Statistics) (e : PhysicalExpr * PhysicalExpr) : Prop :=
  match e with
  | (Column _ li, Column _ ri) =>
      (li < length (column_statistics left_stats))%nat ∧ (ri < length (column_statistics right_stats))%nat
  | _ => True
  end.

Lemma max_distinct_total n cs : is_Some (max_distinct_count n cs).
Proof.
  unfold max_distinct_count, cap_by_range. destruct (distinct_count cs); [by eexists..|].
  destruct (min_value cs), (max_value cs); cbn; try by eexists.
  all: destruct (interval_cardinality _ _); [|by eexists].
  all: destruct (non_null_count n cs); cbn; try case_match; by eexists.
Qed.

Lemma selectivity_total nl nr pairs acc : is_Some (selectivity_loop nl nr pairs acc).
Proof.
  revert acc. induction pairs as [|[a b] pairs IH]; intros acc; cbn; [by eexists|].
  destruct (max_distinct_total nl a) as [x ->], (max_distinct_total nr b) as [y ->]. cbn. apply IH.
Qed.

Lemma keys_total sl sr on : Forall (keys_in sl sr) on → is_Some (mapM (key_stats sl sr) on).
Proof.
  intros Hin. apply mapM_is_Some. eapply Forall_impl; [exact Hin|].
  intros [[nl il|] [nr ir|]]; cbn; try by eexists. intros [H1 H2].
  destruct (lookup_lt_is_Some_2 _ _ H1) as [x Hx], (lookup_lt_is_Some_2 _ _ H2) as [y Hy].
  unfold vec_get. rewrite Hx, Hy. by eexists.
Qed.

Lemma disjoint_loop_zero pairs p : disjoint_loop pairs = Some p → Precision.get_value p = Some 0.
Proof.
  induction pairs as [|[a b] pairs IH]; cbn; [done|]. unfold zero_estimate.
  repeat case_match; try (intros [= <-]; done). all: exact IH.
Qed.

(** The estimate of an inner join, when the row counts can be multiplied. *)
Lemma inner_cardinality_bound sl sr :
  (∀ a b, Precision.get_value (num_rows sl) = Some a → Precision.get_value (num_rows sr) = Some b →
     0 <= a * b <= usize_max) →
  ∃ o, estimate_inner_join_cardinality sl sr = Some o ∧
    ∀ p n, o = Some p → Precision.get_value p = Some n →
      0 <= n ∧ (n = 0 ∨ ∃ a b, Precision.get_value (num_rows sl) = Some a ∧
                               Precision.get_value (num_rows sr) = Some b ∧ n <= a * b).
Proof.
  intros Hfit. unfold estimate_inner_join_cardinality. destruct (estimate_disjoint_inputs sl sr) as [p|] eqn:Ed.
  { eexists. split; [done|]. intros q n [= <-] Hn. apply disjoint_loop_zero in Ed. rewrite Ed in Hn.
    injection Hn as <-. split; [lia|by left]. }
  destruct (selectivity_total (num_rows sl) (num_rows sr)
    (zip (column_statistics sl) (column_statistics sr)) Absent) as [sel ->]. cbn [mbind option_bind].
  destruct (Precision.get_value (num_rows sl)) as [a|], (Precision.get_value (num_rows sr)) as [b|]; try by eexists.
  specialize (Hfit a b eq_refl eq_refl). unfold checked_mul.
  destruct (Z.leb_spec (a * b) usize_max); [|lia].
  destruct sel as [v|v|]; [..|by eexists]; destruct (Z.ltb_spec 0 v); try by eexists.
  all: eexists; split; [done|]; intros q n [= <-] [= <-]; split; [apply Z.div_pos; lia|].
  all: right; exists a, b; split_and!; [done|done|]; apply Z.div_le_upper_bound; nia.
Qed.

(** *** Values of the operations on counts *)

Lemma max_value_of p q n :
  Precision.get_value (Precision.max usize_ge p q) = Some n →
  ∃ x y, Precision.get_value p = Some x ∧ Precision.get_value q = Some y ∧ n = Z.max x y.
Proof.
  unfold usize_ge. destruct p as [x|x|], q as [y|y|]; cbn; try done; intros [= <-]; exists x, y; split_and!; try done;
    destruct (Z.leb_spec y x); lia.
Qed.

Lemma add_value_of p q n :
  Precision.get_value (Precision.add p q) = Some n →
  ∃ x y, Precision.get_value p = Some x ∧ Precision.get_value q = Some y ∧ n = Z.min usize_max (x + y).
Proof.
  unfold Precision.add, Precision.exact_or, checked_add, saturating_add.
  destruct p as [x|x|], q as [y|y|]; cbn; try done; try (intros [= <-]; by exists x, y).
  destruct (Z.leb_spec (x + y) usize_max); intros [= <-]; exists x, y; split_and!; try done; lia.
Qed.

Lemma sub_value_of p q n :
  Precision.get_value (Precision.sub p q) = Some n →
  ∃ x y, Precision.get_value p = Some x ∧ Precision.get_value q = Some y ∧ n = Z.max 0 (x - y).
Proof.
  unfold Precision.sub, Precision.exact_or, checked_sub, saturating_sub.
  destruct p as [x|x|], q as [y|y|]; cbn; try done; try (intros [= <-]; by exists x, y).
  destruct (Z.leb_spec y x); intros [= <-]; exists x, y; split_and!; try done; lia.
Qed.

(** An outer join is estimated to yield at least the rows it preserves, a full one unless its sum saturates. *)
Lemma outer_cardinality_bound jt ij pl pr n :
  jt = Left ∨ jt = Right ∨ jt = Full →
  Precision.get_value (outer_cardinality jt ij pl pr) = Some n →
  (∀ i a b, Precision.get_value ij = Some i → Precision.get_value pl = Some a → Precision.get_value pr = Some b →
     0 <= i ∧ (jt = Full → 2 * i + a + b <= usize_max) ∧ 0 <= a ∧ 0 <= b) →
  (jt = Left ∨ jt = Full → ∃ a, Precision.get_value pl = Some a ∧ a <= n) ∧
  (jt = Right ∨ jt = Full → ∃ b, Precision.get_value pr = Some b ∧ b <= n).
Proof.
  intros Hjt En Hfit. destruct Hjt as [->|[->| ->]]; cbn in En.
  - apply max_value_of in En as (i & a & Ei & Ea & ->). split; [|by intros []]. intros _. exists a. split; [done|lia].
  - apply max_value_of in En as (i & b & Ei & Eb & ->). split; [by intros []|]. intros _. exists b. split; [done|lia].
  - apply sub_value_of in En as (t & i & Et & Ei & ->). apply add_value_of in Et as (x & y & Ex & Ey & ->).
    apply max_value_of in Ex as (i1 & a & Ei1 & Ea & ->). apply max_value_of in Ey as (i2 & b & Ei2 & Eb & ->).
    rewrite Ei in Ei1, Ei2. injection Ei1 as <-. injection Ei2 as <-. destruct (Hfit i a b Ei Ea Eb) as (? & Hf & ?).
    specialize (Hf eq_refl). split; intros _; eexists; (split; [done|]); lia.
Qed.

(** The number of columns of the join schema. *)
Definition join_columns (jt : JoinType) (l r : nat) : nat :=
  match jt with
  | Inner | Left | Right | Full => l + r
  | LeftSemi | LeftAnti => l
  | RightSemi | RightAnti => r
  | LeftMark => l + 1
  | RightMark => r + 1
  end.

Lemma length_join_schema l r jt :
  length (JoinSchema.build_join_schema l r jt).1 = join_columns jt (length l) (length r).
Proof.
  assert (Hs : ∀ s b, length (JoinSchema.side_fields s jt b).*1 = length s).
  { intros s b. rewrite length_fmap. apply length_imap. }
  destruct jt; cbn [JoinSchema.build_join_schema fst join_columns]; rewrite ?fmap_app, ?length_app, ?Hs; done.
Qed.

Definition preserves_left (jt : JoinType) : Prop := jt = Left ∨ jt = Full.
Definition preserves_right (jt : JoinType) : Prop := jt = Right ∨ jt = Full.
Definition only_left (jt : JoinType) : Prop := jt = LeftSemi ∨ jt = LeftAnti ∨ jt = LeftMark.
Definition only_right (jt : JoinType) : Prop := jt = RightSemi ∨ jt = RightAnti ∨ jt = RightMark.

(** What an estimated count owes the counts of the inputs. *)
Record count_ok (jt : JoinType) (pl pr : Precision Z) (n : Z) : Prop := {
  ct_left : preserves_left jt → (jt = Full → sums_fit pl pr) → ∃ a, Precision.get_value pl = Some a ∧ a <= n;
  ct_right : preserves_right jt → (jt = Full → sums_fit pl pr) → ∃ b, Precision.get_value pr = Some b ∧ b <= n;
  ct_inner : jt = Inner → ∀ a b, Precision.get_value pl = Some a → Precision.get_value pr = Some b → n <= a * b;
  ct_only_left : only_left jt → ∀ a, Precision.get_value pl = Some a → n <= a;
  ct_only_right : only_right jt → ∀ b, Precision.get_value pr = Some b → n <= b;
  ct_mark : jt = LeftMark → Precision.get_value pl = Some n;
  ct_mark_right : jt = RightMark → Precision.get_value pr = Some n;
}.

Lemma semi_cardinality_bound so si n a :
  semi_cardinality so si = Some n → Precision.get_value (num_rows so) = Some a → 0 <= a → n <= a.
Proof.
  unfold semi_cardinality. destruct (estimate_disjoint_inputs so si) as [p|] eqn:Ed.
  - apply disjoint_loop_zero in Ed. rewrite Ed. intros [= <-] _ ?. done.
  - intros -> [= ->] _. lia.
Qed.

(** The estimate of the joins that yield columns of both sides. *)
Lemma both_sides_count sl sr keys jt ij n :
  rows_fit sl sr → jt = Inner ∨ jt = Left ∨ jt = Right ∨ jt = Full →
  estimate_inner_join_cardinality
    {| num_rows := num_rows sl; total_byte_size := Absent; column_statistics := keys.*1 |}
    {| num_rows := num_rows sr; total_byte_size := Absent; column_statistics := keys.*2 |} = Some (Some ij) →
  Precision.get_value (outer_cardinality jt ij (num_rows sl) (num_rows sr)) = Some n →
  count_ok jt (num_rows sl) (num_rows sr) n.
Proof.
  intros (Hl & Hr & Hlr) Hjt Eij En.
  destruct (inner_cardinality_bound
    {| num_rows := num_rows sl; total_byte_size := Absent; column_statistics := keys.*1 |}
    {| num_rows := num_rows sr; total_byte_size := Absent; column_statistics := keys.*2 |}) as (o & E & Hb).
  { cbn. intros a b Ea Eb. specialize (Hl a Ea). specialize (Hr b Eb). specialize (Hlr a b Ea Eb). nia. }
  rewrite Eij in E. injection E as <-. cbn in Hb.
  assert (Hfit : ∀ i a b, Precision.get_value ij = Some i → Precision.get_value (num_rows sl) = Some a →
    Precision.get_value (num_rows sr) = Some b → 0 <= i ∧ i <= a * b ∧ 0 <= a ∧ 0 <= b).
  { intros i a b Ei Ea Eb. destruct (Hb ij i eq_refl Ei) as [Hi Hi']. specialize (Hl a Ea). specialize (Hr b Eb).
    destruct Hi' as [->|(a' & b' & Ea' & Eb' & ?)]; [nia|]. rewrite Ea in Ea'. rewrite Eb in Eb'. simplify_eq. nia. }
  assert (Hcases : jt = Inner ∨ (jt = Left ∨ jt = Right ∨ jt = Full)) by naive_solver. destruct Hcases as [->|Hjt'].
  - split; unfold preserves_left, preserves_right, only_left, only_right; naive_solver.
  - assert (Hsum : (jt = Full → sums_fit (num_rows sl) (num_rows sr)) → ∀ i a b, Precision.get_value ij = Some i →
      Precision.get_value (num_rows sl) = Some a → Precision.get_value (num_rows sr) = Some b →
      0 <= i ∧ (jt = Full → 2 * i + a + b <= usize_max) ∧ 0 <= a ∧ 0 <= b).
    { intros Hs i a b Ei Ea Eb. destruct (Hfit i a b Ei Ea Eb) as (? & ? & ? & ?). split_and!; try done.
      intros Hf. specialize (Hs Hf a b Ea Eb). lia. }
    split; unfold preserves_left, preserves_right, only_left, only_right.
    3-7: intros Hj; exfalso; destruct_or?; congruence.
    all: intros Hp Hs; by apply (outer_cardinality_bound jt ij _ _ n Hjt' En (Hsum Hs)).
Qed.

(** The estimate of the joins that yield one side. *)
Lemma one_side_count sl sr jt n :
  rows_fit sl sr →
  match jt with
  | LeftSemi => semi_cardinality sl sr = Some n
  | RightSemi => semi_cardinality sr sl = Some n
  | LeftAnti | LeftMark => Precision.get_value (num_rows sl) = Some n
  | RightAnti | RightMark => Precision.get_value (num_rows sr) = Some n
  | _ => False
  end → count_ok jt (num_rows sl) (num_rows sr) n.
Proof.
  intros (Hl & Hr & _) En.
  destruct jt; try done; split; unfold preserves_left, preserves_right, only_left, only_right;
    try (intros; destruct_or?; congruence); intros _ x Ex.
  all: try (rewrite Ex in En; injection En as ->; lia).
  - by eapply semi_cardinality_bound; [..|apply Hl].
  - by eapply semi_cardinality_bound; [..|apply Hr].
Qed.

(** *** Disjoint inputs *)

Context `{!ScalarOrd}.

Lemma zero_estimate_exact a b : zero_estimate a b = Exact 0 → (∃ x, a = Exact x) ∧ ∃ y, b = Exact y.
Proof. destruct a, b; cbn; try done; eauto. Qed.

Lemma disjoint_loop_exact pairs :
  disjoint_loop pairs = Some (Exact 0) →
  ∃ c d x y, (c, d) ∈ pairs ∧ scalar_gt x y = true ∧
    (min_value c = Exact x ∧ max_value d = Exact y ∨ min_value d = Exact x ∧ max_value c = Exact y).
Proof.
  induction pairs as [|[c d] pairs IH]; cbn [disjoint_loop]; [done|]. unfold known_gt at 1 2.
  destruct (match Precision.get_value (min_value c), Precision.get_value (max_value d) with Some _, Some _ => _ | _, _ => _ end)
    eqn:E1.
  { intros [= [[x Hx] [y Hy]]%zero_estimate_exact]. rewrite Hx, Hy in E1.
    exists c, d, x, y. split_and!; [left|exact E1|by left]. }
  destruct (match Precision.get_value (min_value d), Precision.get_value (max_value c) with Some _, Some _ => _ | _, _ => _ end)
    eqn:E2.
  { intros [= [[y Hy] [x Hx]]%zero_estimate_exact]. rewrite Hx, Hy in E2.
    exists c, d, x, y. split_and!; [left|exact E2|by right]. }
  intros (c' & d' & x & y & Hin & Hx)%IH. exists c', d', x, y. split; [by right|done].
Qed.

(** No value of one column reaches a value of the other. *)
Lemma apart_columns cs ds (cols dols : list (option ScalarValue)) x y v w :
  describes_column cs cols → describes_column ds dols →
  min_value cs = Exact x → max_value ds = Exact y → scalar_gt x y = true →
  Some v ∈ cols → Some w ∈ dols → scalar_ge w v = false.
Proof.
  intros [_ Hmin _] [_ _ Hmax] Ex Ey [Hxy Hyx]%andb_true_iff Hv Hw. rewrite Ex in Hmin. rewrite Ey in Hmax.
  destruct Hmin as [_ Hmin], Hmax as [_ Hmax]. apply negb_true_iff in Hyx.
  destruct (scalar_ge w v) eqn:E; [|done].
  rewrite (scalar_ge_trans y v x) in Hyx; [done| |by apply Hmin]. by apply (scalar_ge_trans y w v); [apply Hmax|].
Qed.

(** ** Properties *)

(** Inputs that [estimate_disjoint_inputs] declares exactly disjoint have an
    empty inner join: if the statistics it compares describe the key columns,
    key by key, and the join condition holds only for rows whose keys are equal
    values, no pair of rows is joined. *)
Theorem disjoint_inputs_join_empty {L R} (m : L → R → bool)
    (keys : list ((L → option ScalarValue) * (R → option ScalarValue))) sl sr ls rs :
  Forall2 (λ cs k, describes_column cs (k.1 <$> ls)) (column_statistics sl) keys →
  Forall2 (λ cs k, describes_column cs (k.2 <$> rs)) (column_statistics sr) keys →
  (∀ l r k, m l r = true → k ∈ keys →
     ∃ v w, k.1 l = Some v ∧ k.2 r = Some w ∧ scalar_ge v w = true ∧ scalar_ge w v = true) →
  estimate_disjoint_inputs sl sr = Some (Exact 0) → join_spec Inner m ls rs = [].
Proof.
  intros Hl Hr Hm (c & d & x & y & Hin & Hxy & Hcd)%disjoint_loop_exact.
  apply list_elem_of_lookup in Hin as [i Hi]. apply lookup_zip_with_Some in Hi as (c' & d' & [= <- <-] & Hc & Hd).
  destruct (Forall2_lookup_l _ _ _ _ _ Hl Hc) as (k & Hk & Dc).
  destruct (Forall2_lookup_l _ _ _ _ _ Hr Hd) as (k' & Hk' & Dd). rewrite Hk in Hk'. injection Hk' as <-.
  cbn [join_spec]. destruct (inner_pairs m ls rs) as [|o os] eqn:E; [done|]. exfalso.
  assert (Ho : o ∈ inner_pairs m ls rs) by (rewrite E; left).
  apply list_elem_of_bind in Ho as (l & Ho & Hls). apply list_elem_of_fmap in Ho as (r & -> & [Hlr Hrs]%list_elem_of_filter).
  destruct (Hm l r k Hlr (list_elem_of_lookup_2 _ _ _ Hk)) as (v & w & Hv & Hw & Hvw & Hwv).
  assert (Hvin : Some v ∈ k.1 <$> ls) by (apply list_elem_of_fmap; eauto).
  assert (Hwin : Some w ∈ k.2 <$> rs) by (apply list_elem_of_fmap; eauto).
  destruct Hcd as [[E1 E2]|[E1 E2]].
  - by rewrite (apart_columns c d _ _ x y v w Dc Dd E1 E2 Hxy Hvin Hwin) in Hwv.
  - by rewrite (apart_columns d c _ _ x y w v Dd Dc E1 E2 Hxy Hwin Hvin) in Hvw.
Qed.

(** C32. When the key columns are in range and the product of the row counts fits
    64 bits, the estimate returns: it has one entry for every column of the join
    schema, its row count is never marked exact, is at least what a left or right
    join preserves of its input, at most what a semi, anti or mark join can keep
    (all of it for a mark join), and at most the product for an inner join.  For
    a full join it is at least the count of either input, if twice the product and
    both counts together fit as well. *)
Theorem estimate_join_statistics_ok sl sr on jt (l r : Schema) :
  length (column_statistics sl) = length l → length (column_statistics sr) = length r →
  Forall (keys_in sl sr) on → rows_fit sl sr →
  ∃ s, estimate_join_statistics sl sr on jt (JoinSchema.build_join_schema l r jt).1 = Some s ∧
    length (column_statistics s) = length (JoinSchema.build_join_schema l r jt).1 ∧
    match num_rows s with
    | Absent => True
    | Inexact n => count_ok jt (num_rows sl) (num_rows sr) n
    | Exact _ => False
    end.
Proof.
  intros Hl Hr Hin Hfit. unfold estimate_join_statistics, estimate_join_cardinality.
  destruct (keys_total _ _ _ Hin) as [keys ->]. cbn [mbind option_bind]. rewrite length_join_schema.
  assert (Hu : length (unknown_column (JoinSchema.build_join_schema l r jt).1) = join_columns jt (length l) (length r)).
  { unfold unknown_column. by rewrite length_map, length_join_schema. }
  assert (Hboth : jt = Inner ∨ jt = Left ∨ jt = Right ∨ jt = Full ∨ only_left jt ∨ only_right jt)
    by (unfold only_left, only_right; destruct jt; naive_solver).
  destruct Hboth as [E|[E|[E|[E|E]]]].
  1-4: destruct (inner_cardinality_bound
         {| num_rows := num_rows sl; total_byte_size := Absent; column_statistics := keys.*1 |}
         {| num_rows := num_rows sr; total_byte_size := Absent; column_statistics := keys.*2 |}) as (o & Eo & _);
       [cbn; intros a b Ea Eb; destruct Hfit as (Fa & Fb & Fab);
        specialize (Fa a Ea); specialize (Fb b Eb); specialize (Fab a b Ea Eb); nia|].
  1-4: subst jt; rewrite Eo; destruct o as [ij|]; cbn [mbind option_bind]; [|by eexists].
  1-4: destruct (Precision.get_value (outer_cardinality _ ij _ _)) as [n|] eqn:En; cbn; [|by eexists].
  1-4: eexists; split_and!; [done|cbn; by rewrite length_app, Hl, Hr|]; eapply both_sides_count; eauto.
  unfold only_left, only_right in E. destruct_or? E; subst jt;
    cbn [mbind option_bind];
    (lazymatch goal with |- context [one_side _ ?o _] => destruct o as [n|] eqn:En end;
     cbn [one_side mbind option_bind]; [|by eexists]);
    eexists; (split_and!; [done|cbn; rewrite length_app, ?Hl, ?Hr; cbn; lia|]); by apply one_side_count.
Qed.

End Estimates.

(** ** Examples *)

Section Examples.
#[local] Existing Instances int_scalars int_scalars_ord.

Definition int_intervals : @Intervals int_scalars :=
  @Build_Intervals int_scalars (λ a b : Z, if a <=? b then Some (b - a + 1) else None).
#[local] Existing Instance int_intervals.

Definition int_column (nulls mn mx : Z) : ColumnStatistics :=
  {| null_count := Exact nulls; max_value := Exact mx; min_value := Exact mn; sum_value := Absent;
     distinct_count := Absent; byte_size := Absent |}.

Definition int_table (rows : Z) (cols : list (Z * Z)) : Statistics :=
  {| num_rows := Exact rows; total_byte_size := Absent; column_statistics := (λ c, int_column 0 c.1 c.2) <$> cols |}.

Definition int_field (name : string) : Field := {| f_name := name; f_type := DInt64; f_nullable := false |}.

(** Statistics of a few integers are right about them. *)
Ltac describe_ints :=
  repeat constructor; try set_solver;
  cbn; intros v Hv; rewrite !elem_of_cons, elem_of_nil in Hv; apply Z.leb_le; destruct_or!; simplify_eq; lia.

Lemma estimate_join_statistics_ok_witness :
  ∃ s, estimate_join_statistics (int_table 10 [(1, 10)]) (int_table 4 [(3, 6)]) [(Column "k" 0, Column "k" 0)] Full
         (JoinSchema.build_join_schema [int_field "k"] [int_field "k"] Full).1 = Some s ∧
    length (column_statistics s) = 2%nat ∧
    match num_rows s with
    | Absent => True
    | Inexact n => count_ok Full (Exact 10) (Exact 4) n
    | Exact _ => False
    end.
Proof.
  apply (estimate_join_statistics_ok (int_table 10 [(1, 10)]) (int_table 4 [(3, 6)]) [(Column "k" 0, Column "k" 0)] Full
           [int_field "k"] [int_field "k"]); [done|done| |].
  - repeat constructor.
  - split_and!; cbn; intros; simplify_eq; unfold usize_max; lia.
Defined.

Lemma disjoint_inputs_join_empty_witness :
  join_spec Inner (λ a b : Z, a =? b) [7; 9] [1; 4] = [].
Proof.
  apply (disjoint_inputs_join_empty (H := int_scalars) (λ a b : Z, a =? b) [(@Some Z, @Some Z)] (int_table 2 [(7, 9)]) (int_table 2 [(1, 4)])).
  - describe_ints.
  - describe_ints.
  - intros l r k ->%Z.eqb_eq ->%list_elem_of_singleton. exists r, r. cbn. split_and!; try done; apply Z.leb_refl.
  - reflexivity.
Defined.

(** Two tables with an identifier and a key. *)
Definition id_schema : Schema := [int_field "id"; int_field "k"].
Definition id_rows (rows : list (Z * Z)) : list row := (λ x, [Some (VInt64 x.1); Some (VInt64 x.2)]) <$> rows.

Definition key_semi_join : HashJoin := {|
  on := [(Column "k" 1, Column "k" 1)]; join_type := LeftSemi; null_equality := NullEqualsNothing; null_aware := false;
  projection := None; join_filter := None; join_fetch := None |}.

(** C37. The statistics of a semi join compare the columns of the inputs by
    position, not the keys: for two tables whose identifiers do not overlap and
    whose keys are all equal, [partition_statistics] of the hash join claims
    exactly zero rows (the limit applied last makes the estimate exact), while
    the join keeps every row of its left input. *)
Theorem semi_join_counted_empty :
  let left_rows := [(1, 5); (2, 5)] in
  let right_rows := [(10, 5); (11, 5)] in
  describes (int_table 2 [(1, 2); (5, 5)]) 2 [Some ∘ fst <$> left_rows; Some ∘ snd <$> left_rows] ∧
  describes (int_table 2 [(10, 11); (5, 5)]) 2 [Some ∘ fst <$> right_rows; Some ∘ snd <$> right_rows] ∧
  (∃ s, partition_statistics Partitioned key_semi_join (JoinSchema.build_join_schema id_schema id_schema LeftSemi).1
          (λ _, Some (Ok (int_table 2 [(1, 2); (5, 5)]))) (λ _, Some (Ok (int_table 2 [(10, 11); (5, 5)]))) None =
        Some (Ok s) ∧ num_rows s = Exact 0) ∧
  Plan.join_rows key_semi_join id_schema id_schema (id_rows left_rows) (id_rows right_rows) = id_rows left_rows.
Proof.
  cbn zeta. split_and!.
  1,2: describe_ints.
  - eexists. split; vm_compute; reflexivity.
  - vm_compute. reflexivity.
Qed.

(** With overflow checks the estimate of a join of two inputs of 2^32 distinct
    keys each panics: the row counts are multiplied before the division. *)
Lemma estimate_overflows :
  estimate_join_statistics (int_table (2 ^ 32) [(0, 2 ^ 32 - 1)]) (int_table (2 ^ 32) [(0, 2 ^ 32 - 1)])
    [(Column "k" 0, Column "k" 0)] Inner [] = None.
Proof. vm_compute. reflexivity. Qed.

(** The sum of a full join saturates and the product is subtracted from it: for 3
    rows and (2^64 - 1) / 3 rows with one key value no row is estimated, although
    the product fits 64 bits and every row is preserved. *)
Lemma full_estimate_saturates :
  num_rows <$> estimate_join_statistics (int_table 3 [(5, 5)]) (int_table (usize_max / 3) [(5, 5)])
    [(Column "k" 0, Column "k" 0)] Full [] = Some (Inexact 0).
Proof. vm_compute. reflexivity. Qed.

End Examples.
End JoinCardinality.
