(* ===== verification/HashJoinStream.v ===== *)
(** * The hash join stream (physical-plan/src/joins/hash_join/stream.rs, exec.rs, joins/utils.rs)

    Collecting the build side, looking a probe batch up page by page, aligning
    the matches for the join type, assembling output rows column by column, and
    the state machine that does it batch after batch.  A batch is its list of
    rows.  The build side is indexed by the hash map of [JoinHashMap] or, for one
    dense integer key, by the [ArrayMap]; dynamic filters and memory reservations
    are left out. *)

From stdpp Require Import base list strings gmap.
From Stdlib Require Import ZArith Lia.
From S2P Require Import Prelude F64 Relation HashUtils JoinTypes JoinHashMap ArrayMap JoinMap JoinIndices Coalesce BloomExec Transfer PhysicalPlan.

Module JoinBatch.
Import BloomExec JoinSchema JoinIndices.

Abbreviation column := (list (option value)).

(** ** Output batches *)

Definition all_null (ix : indices) : bool := forallb (λ o, bool_decide (o = None)) ix.

(** One column: nulls when the side is empty or no index is set, else [take]. *)
Definition take_column (batch : list row) (k : nat) (ix : indices) : option column :=
  if bool_decide (batch = []) || all_null ix then
    if all_null ix then Some (replicate (length ix) None) else panic!
  else mapM (λ o, match o with
                  | Some i => r ← vec_get batch i; Some (cell k r)
                  | None => Some None
                  end) ix.

(** [RecordBatch::try_new] *)
Definition try_new (cols : list column) : Result (list row) :=
  match cols with
  | [] => Err (ArrowError "must either specify a row count or at least one column")
  | c :: _ =>
      if forallb (λ col : column, bool_decide (length col = length c)) cols
      then Ok (tab (length c) (λ i, map (λ col, default None (col !! i)) cols))
      else Err (ArrowError "all columns in a record batch must have the same length")
  end.

Definition new_empty_schema_batch (row_count : nat) : list row := replicate row_count [].

Definition is_not_null (ix : indices) : column :=
  map (λ o, Some (VBoolean (bool_decide (is_Some o)))) ix.

Definition build_batch_from_indices (column_indices : list ColumnIndex)
    (build_input_buffer probe_batch : list row) (build_indices probe_indices : indices)
    (build_side : JoinSide) (jt : JoinType) : option (Result (list row)) :=
  if bool_decide (column_indices = []) then
    Some (Ok (new_empty_schema_batch
                match jt with RightAnti | RightSemi => length probe_indices | _ => length build_indices end))
  else
    cols ← mapM (λ ci,
      if bool_decide (ci_side ci = SideNone) then Some (is_not_null probe_indices)
      else if bool_decide (ci_side ci = build_side) then
        take_column build_input_buffer (ci_index ci) build_indices
      else take_column probe_batch (ci_index ci) probe_indices) column_indices;
    Some (try_new cols).

Definition build_batch_empty_build_side (column_indices : list ColumnIndex) (probe_batch : list row)
    (jt : JoinType) : list row :=
  match jt with
  | Inner | Left | LeftSemi | RightSemi | LeftAnti | LeftMark => []
  | Right | Full | RightAnti | RightMark =>
      map (λ r, map (λ ci, match ci_side ci with
                           | SideLeft => None
                           | SideRight => cell (ci_index ci) r
                           | SideNone => Some (VBoolean false)
                           end) column_indices) probe_batch
  end.

(** ** The residual filter *)

Definition filter_mask (f : JoinFilter) (build_input_buffer probe_batch : list row)
    (build_indices probe_indices : indices) (build_side : JoinSide) (jt : JoinType)
    : option (Result (list (option bool))) :=
  intermediate_batch ←? build_batch_from_indices (filter_column_indices f) build_input_buffer probe_batch
                          build_indices probe_indices build_side jt;
  Some (Ok (map (filter_expression f) intermediate_batch)).

(** The masks of the slices [i..i + max_size], concatenated. *)
Fixpoint filter_chunks (fuel : nat) (f : JoinFilter) (build_input_buffer probe_batch : list row)
    (build_indices probe_indices : indices) (build_side : JoinSide) (jt : JoinType) (max_size : nat)
    : option (Result (list (option bool))) :=
  match fuel, build_indices with
  | S fuel, _ :: _ =>
      mask ←? filter_mask f build_input_buffer probe_batch (take max_size build_indices)
                (take max_size probe_indices) build_side jt;
      rest ←? filter_chunks fuel f build_input_buffer probe_batch (drop max_size build_indices)
                (drop max_size probe_indices) build_side jt max_size;
      Some (Ok (mask ++ rest))
  | _, _ => Some (Ok [])
  end.

(** [compute::filter]: the elements whose mask is true, not null. *)
Fixpoint compute_filter {A} (l : list A) (mask : list (option bool)) : list A :=
  match l, mask with
  | x :: l, b :: mask => if bool_decide (b = Some true) then x :: compute_filter l mask else compute_filter l mask
  | _, _ => []
  end.

Definition apply_join_filter_to_indices (build_input_buffer probe_batch : list row)
    (build_indices probe_indices : indices) (f : JoinFilter) (build_side : JoinSide)
    (max_intermediate_size : option nat) (jt : JoinType) : option (Result (indices * indices)) :=
  if bool_decide (build_indices = []) && bool_decide (probe_indices = []) then
    Some (Ok (build_indices, probe_indices))
  else
    mask ←? match max_intermediate_size with
            | Some max_size =>
                if bool_decide (max_size = 0) then panic!
                else filter_chunks (length build_indices) f build_input_buffer probe_batch
                       build_indices probe_indices build_side jt max_size
            | None => filter_mask f build_input_buffer probe_batch build_indices probe_indices build_side jt
            end;
    Some (Ok (compute_filter build_indices mask, compute_filter probe_indices mask)).

(** ** Key equality *)

(** The kernels [eq] and [not_distinct] on one pair of cells. *)
Definition eq_cell (ne : NullEquality) (a b : option value) : option bool :=
  match ne with
  | NullEqualsNothing => match a, b with Some x, Some y => Some (bool_decide (x = y)) | _, _ => None end
  | NullEqualsNull => Some (bool_decide (a = b))
  end.

Definition eq_dyn_null (l r : column) (ne : NullEquality) : list (option bool) := zip_with (eq_cell ne) l r.

(** The kernel [and]: null when an operand is. *)
Definition and_cell (a b : option bool) : option bool :=
  match a, b with Some x, Some y => Some (x && y) | _, _ => None end.

Definition take_values (col : column) (ix : list nat) : option column := mapM (vec_get col) ix.

Fixpoint and_columns (il ir : list nat) (cols : list (column * column)) (ne : NullEquality)
    (equal : list (option bool)) : option (list (option bool)) :=
  match cols with
  | [] => Some equal
  | (l, r) :: cols =>
      arr_left ← take_values l il;
      arr_right ← take_values r ir;
      and_columns il ir cols ne (zip_with and_cell equal (eq_dyn_null arr_left arr_right ne))
  end.

Definition equal_rows_arr (indices_left indices_right : list nat) (left_arrays right_arrays : list column)
    (ne : NullEquality) : option (list nat * list nat) :=
  match zip left_arrays right_arrays with
  | [] => Some ([], [])
  | (first_left, first_right) :: iter =>
      arr_left ← take_values first_left indices_left;
      arr_right ← take_values first_right indices_right;
      equal ← and_columns indices_left indices_right iter ne (eq_dyn_null arr_left arr_right ne);
      Some (compute_filter indices_left equal, compute_filter indices_right equal)
  end.

End JoinBatch.

Module HashJoinStream.
Export JoinMap.
Import BloomExec JoinSchema JoinIndices JoinBatch Coalesce.
Import JoinHashMap(JoinHashMap, update_from_iter, with_capacity, get_matched_indices_with_limit_offset,
  input_indices, match_indices).

Abbreviation MapOffset := (nat * option nat)%type.

(** The fields of the stream that do not change. *)
Record HashJoinConfig := {
  on_left : list PhysicalExpr;
  on_right : list PhysicalExpr;
  jfilter : option JoinFilter;
  join_type : JoinType;
  column_indices : list ColumnIndex;
  null_equality : NullEquality;
  batch_size : nat;
  right_side_ordered : bool;
  null_aware : bool;
  fetch : option nat;
  left_schema : Schema;
  right_schema : Schema;
  perfect_hash_join_small_build_threshold : Z;
  perfect_hash_join_min_key_density : f64;
}.

(** The collected build side. *)
Record JoinLeftData := {
  ld_map : Map;
  ld_batch : list row;
  ld_values : list column;
}.

(** Its part that all probing partitions update. *)
Record Shared := {
  visited_indices_bitmap : list bool;
  probe_threads_counter : N;
  probe_side_non_empty : bool;
  probe_side_has_null : bool;
}.

(** ** Integer keys *)

Definition should_collect_min_max_for_perfect_hash (on_left : list PhysicalExpr) (schema : Schema) : Result bool :=
  match on_left with
  | [expr] => ty ← Expr.data_type expr schema; Ok (bool_decide (is_Some (int_type ty)))
  | _ => Ok false
  end.

(** [MinAccumulator] and [MaxAccumulator] over the values that are not null. *)
Definition accumulate (f : Z → Z → Z) (acc v : option Z) : option Z :=
  match acc, v with
  | Some a, Some x => Some (f a x)
  | None, v => v
  | acc, None => acc
  end.

(** The bounds of the key column of the batches, for an integer type. *)
Definition column_bounds (t : ArrayMap.IntType) (cols : list (list (option Z)))
    : ArrayMap.KeyScalar * ArrayMap.KeyScalar :=
  (ArrayMap.IntScalar t (foldl (foldl (accumulate Z.min)) None cols),
   ArrayMap.IntScalar t (foldl (foldl (accumulate Z.max)) None cols)).

Definition scalar_is_null (v : ArrayMap.KeyScalar) : bool :=
  match v with
  | ArrayMap.IntScalar _ v => bool_decide (v = None)
  | ArrayMap.OtherScalar is_null => is_null
  end.

Definition scalar_gt (a b : ArrayMap.KeyScalar) : bool :=
  match a, b with
  | ArrayMap.IntScalar _ (Some x), ArrayMap.IntScalar _ (Some y) => (y <? x)%Z
  | _, _ => false
  end.

Section Stream.
Context `{Foldhash}.

(** ** The build side *)

(** [evaluate_expressions_to_arrays] *)
Definition evaluate_expressions (exprs : list PhysicalExpr) (batch : list row) : list column :=
  map (λ e, map (Expr.evaluate e) batch) exprs.

(** Row [i] of the key columns. *)
Definition key_row (keys : list column) (i : nat) : row := map (λ col : column, default None (col !! i)) keys.

(** [create_hashes] into a zeroed buffer for [n] rows, row by row as
    [HashUtils.create_hashes_rows] shows. *)
Definition create_key_hashes (keys : list column) (n : nat) : list N :=
  tab n (λ i, HashUtils.row_hash (key_row keys i)).

Definition update_hash (tmax : N) (on : list PhysicalExpr) (batch : list row) (hash_map : JoinHashMap)
    (offset deleted_offset : nat) (fifo_hashmap : bool) : option JoinHashMap :=
  let keys_values := evaluate_expressions on batch in
  let hash_values := create_key_hashes keys_values (length batch) in
  let iter := imap (λ i val, (i + offset, val)) hash_values in
  update_from_iter tmax deleted_offset hash_map (if fifo_hashmap then reverse iter else iter).

(** [left_stream.try_fold]: all batches, or the first error. *)
Fixpoint try_collect (left_stream : list (Result (list row))) : Result (list (list row)) :=
  match left_stream with
  | [] => Ok []
  | Ok batch :: left_stream => batches ← try_collect left_stream; Ok (batch :: batches)
  | Err e :: _ => Err e
  end.

(** The loop over the batches, last first. *)
Fixpoint build_loop (tmax : N) (on : list PhysicalExpr) (batches : list (list row)) (offset : nat)
    (hashmap : JoinHashMap) : option JoinHashMap :=
  match batches with
  | [] => Some hashmap
  | batch :: batches =>
      hashmap ← update_hash tmax on batch hashmap offset 0 true;
      build_loop tmax on batches (offset + length batch) hashmap
  end.

Definition u32_max : N := 4294967295.
Definition u64_max : N := 18446744073709551615.

(** The bounds collected while the batches come in. *)
Definition collect_bounds (on_left : list PhysicalExpr) (schema : Schema) (batches : list (list row))
    : option (option (ArrayMap.KeyScalar * ArrayMap.KeyScalar)) :=
  match on_left with
  | [expr] =>
      match Expr.data_type expr schema with
      | Ok ty =>
          match int_type ty with
          | Some t =>
              cols ← mapM (λ batch, mapM (int_cell ty) (map (Expr.evaluate expr) batch)) batches;
              Some (if bool_decide (0 < length (concat batches)) then Some (column_bounds t cols) else None)
          | None => Some None
          end
      | Err _ => Some None
      end
  | _ => Some None
  end.

(** Whether the build side is indexed by an array: one key, dense integers. *)
Definition try_create_array_map (cfg : HashJoinConfig)
    (bounds : option (ArrayMap.KeyScalar * ArrayMap.KeyScalar)) (batches : list (list row))
    : option (Result (option (ArrayMap.ArrayMap * list row * list column))) :=
  match on_left cfg with
  | [expr] =>
      if bool_decide (null_equality cfg = NullEqualsNull)
         && existsb (λ batch, bool_decide (0 < HashUtils.null_count (map (Expr.evaluate expr) batch))) batches
      then Some (Ok None)
      else match bounds with
      | None => Some (Ok None)
      | Some (min_val, max_val) =>
          if scalar_is_null min_val || scalar_is_null max_val then Some (Ok None)
          else if scalar_gt min_val max_val then Some (Err (Internal "min_val>max_val"))
          else match ArrayMap.key_to_u64 min_val, ArrayMap.key_to_u64 max_val with
          | Some mi, Some ma =>
              let range := ArrayMap.calculate_range mi ma in
              let num_row := Z.of_nat (length (concat batches)) in
              if (Z.of_N u32_max <=? num_row)%Z then Some (Ok None)
              else if (range =? usize_max)%Z then Some (Ok None)
              else
                let dense_ratio := f64_div (f64_of_Z num_row) (f64_of_Z (range + 1)) in
                if (perfect_hash_join_small_build_threshold cfg <=? range)%Z
                   && f64_le dense_ratio (perfect_hash_join_min_key_density cfg)
                then Some (Ok None)
                else
                  let batch := concat batches in
                  let left_values := evaluate_expressions [expr] batch in
                  ty ←? Some (Expr.data_type expr (left_schema cfg));
                  array ← key_array ty (map (Expr.evaluate expr) batch);
                  array_map ←? ArrayMap.try_new array mi ma;
                  Some (Ok (Some (array_map, batch, left_values)))
          | _, _ => Some (Ok None)
          end
      end
  | _ => Some (Ok None)
  end.

(** The hash map over all batches, last first. *)
Definition build_hash_map (on : list PhysicalExpr) (batches : list (list row)) : option JoinLeftData :=
  let num_rows := length (concat batches) in
  let tmax := if (u32_max <? N.of_nat num_rows)%N then u64_max else u32_max in
  let batches_iter := reverse batches in
  hashmap ← build_loop tmax on batches_iter 0 (with_capacity num_rows);
  let batch := concat batches_iter in
  Some {| ld_map := HashMap hashmap; ld_batch := batch; ld_values := evaluate_expressions on batch |}.

Definition collect_left_input (cfg : HashJoinConfig) (left_stream : list (Result (list row)))
    (with_visited_indices_bitmap : bool) (probe_threads_count : N)
    : option (Result (JoinLeftData * Shared)) :=
  should_collect ←? Some (should_collect_min_max_for_perfect_hash (on_left cfg) (left_schema cfg));
  batches ←? Some (try_collect left_stream);
  bounds ← (if (should_collect : bool) then collect_bounds (on_left cfg) (left_schema cfg) batches else Some None);
  array ←? try_create_array_map cfg bounds batches;
  left_data ← match array with
              | Some (array_map, batch, left_values) =>
                  Some {| ld_map := ArrayMap array_map; ld_batch := batch; ld_values := left_values |}
              | None => build_hash_map (on_left cfg) batches
              end;
  Some (Ok (left_data,
            {| visited_indices_bitmap :=
                 if with_visited_indices_bitmap then replicate (length (concat batches)) false else [];
               probe_threads_counter := probe_threads_count;
               probe_side_non_empty := false; probe_side_has_null := false |})).

(** [fetch_sub(1) == 1] *)
Definition report_probe_completed (sh : Shared) : bool * Shared :=
  let old := probe_threads_counter sh in
  ((old =? 1)%N,
   {| visited_indices_bitmap := visited_indices_bitmap sh;
      probe_threads_counter := if (old =? 0)%N then u64_max else N.pred old;
      probe_side_non_empty := probe_side_non_empty sh; probe_side_has_null := probe_side_has_null sh |}).

(** ** Lookups *)

Definition lookup_join_hashmap (build_hashmap : JoinHashMap) (build_side_values probe_side_values : list column)
    (ne : NullEquality) (hashes_buffer : list N) (limit : nat) (offset : MapOffset)
    : option (list nat * list nat * option MapOffset) :=
  r ← get_matched_indices_with_limit_offset build_hashmap hashes_buffer limit offset;
  eq ← equal_rows_arr (match_indices r.1) (input_indices r.1) build_side_values probe_side_values ne;
  Some (eq.1, eq.2, r.2).

(** The arrays of the probe keys, of the types their expressions have. *)
Definition probe_arrays (cfg : HashJoinConfig) (values : list column) : option (list ArrayMap.KeyArray) :=
  mapM (λ x : PhysicalExpr * column,
          match Expr.data_type x.1 (right_schema cfg) with
          | Ok ty => key_array ty x.2
          | Err _ => panic!
          end) (zip (on_right cfg) values).

(** The pairs with equal keys on the next page, from either index. *)
Definition lookup_build_side (cfg : HashJoinConfig) (left_data : JoinLeftData) (values : list column)
    (hashes_buffer : list N) (offset : MapOffset) : option (Result (list nat * list nat * option MapOffset)) :=
  match ld_map left_data with
  | HashMap map =>
      r ← lookup_join_hashmap map (ld_values left_data) values (null_equality cfg) hashes_buffer (batch_size cfg) offset;
      Some (Ok r)
  | ArrayMap array_map =>
      arrays ← probe_arrays cfg values;
      r ←? ArrayMap.get_matched_indices_with_limit_offset array_map arrays (batch_size cfg) offset;
      Some (Ok (match_indices r.1, input_indices r.1, r.2))
  end.

Fixpoint count_changes (count last : nat) (iter : list nat) : nat :=
  match iter with
  | [] => count
  | value :: iter => if bool_decide (value = last) then count_changes count last iter
                     else count_changes (count + 1) value iter
  end.

Definition count_distinct_sorted_indices (indices : list nat) : nat :=
  match indices with [] => 0 | first :: iter => count_changes 1 first iter end.

(** ** The stream *)

Record ProcessProbeBatchState := {
  ps_batch : list row;
  ps_values : list column;
  ps_offset : MapOffset;
  joined_probe_idx : option nat;
}.

Definition advance (st : ProcessProbeBatchState) (offset : MapOffset) (joined : option nat)
    : ProcessProbeBatchState :=
  {| ps_batch := ps_batch st; ps_values := ps_values st; ps_offset := offset;
     joined_probe_idx := match joined with Some _ => joined | None => joined_probe_idx st end |}.

Inductive HashJoinStreamState :=
| WaitBuildSide
| FetchProbeBatch
| ProcessProbeBatch (st : ProcessProbeBatchState)
| ExhaustedProbeSide
| Completed.

(** Parts and totals of the two ratio metrics, and the input counters. *)
Record JoinMetrics := {
  hit_part : nat; hit_total : nat; fanout_part : nat; fanout_total : nat;
  input_batches : nat; input_rows : nat;
}.

Definition no_metrics : JoinMetrics := {|
  hit_part := 0; hit_total := 0; fanout_part := 0; fanout_total := 0; input_batches := 0; input_rows := 0 |}.

Context `{BatchCoalescer row}.

Record HashJoinStream := {
  state : HashJoinStreamState;
  build_side : option JoinLeftData;   (* [None] is [BuildSide::Initial] *)
  right : list (Result (list row));
  hashes_buffer : list N;
  output_buffer : @LimitedBatchCoalescer row _;
  metrics : JoinMetrics;
}.

Definition new (cfg : HashJoinConfig) (right : list (Result (list row))) : HashJoinStream := {|
  state := WaitBuildSide; build_side := None; right := right; hashes_buffer := [];
  output_buffer := Coalesce.new (batch_size cfg) (fetch cfg); metrics := no_metrics |}.

Definition set_state (s : HashJoinStream) (st : HashJoinStreamState) : HashJoinStream := {|
  state := st; build_side := build_side s; right := right s; hashes_buffer := hashes_buffer s;
  output_buffer := output_buffer s; metrics := metrics s |}.

Definition set_output (s : HashJoinStream) (c : LimitedBatchCoalescer) : HashJoinStream := {|
  state := state s; build_side := build_side s; right := right s; hashes_buffer := hashes_buffer s;
  output_buffer := c; metrics := metrics s |}.

Definition set_metrics (s : HashJoinStream) (m : JoinMetrics) : HashJoinStream := {|
  state := state s; build_side := build_side s; right := right s; hashes_buffer := hashes_buffer s;
  output_buffer := output_buffer s; metrics := m |}.

(** [left_fut] has the collected build side once it is ready. *)
Definition collect_build_side (left_fut : Result JoinLeftData) (s : HashJoinStream) : Result HashJoinStream :=
  match build_side s with
  | Some _ => Err (Internal "Expected build side in initial state")
  | None =>
      left_data ← left_fut;
      Ok {| state := FetchProbeBatch; build_side := Some left_data; right := right s;
            hashes_buffer := hashes_buffer s; output_buffer := output_buffer s; metrics := metrics s |}
  end.

Definition fetch_probe_batch (cfg : HashJoinConfig) (s : HashJoinStream) : Result HashJoinStream :=
  match right s with
  | [] => Ok (set_state s ExhaustedProbeSide)
  | Ok batch :: right =>
      let keys_values := evaluate_expressions (on_right cfg) batch in
      left_data ← ok_or (build_side s) (Internal "Expected build side in ready state");
      Ok {| state := ProcessProbeBatch {| ps_batch := batch; ps_values := keys_values;
                                          ps_offset := (0, None); joined_probe_idx := None |};
            build_side := build_side s; right := right;
            hashes_buffer := match ld_map left_data with
                             | HashMap _ => create_key_hashes keys_values (length batch)
                             | ArrayMap _ => hashes_buffer s
                             end;
            output_buffer := output_buffer s;
            metrics := let m := metrics s in
              {| hit_part := hit_part m; hit_total := hit_total m; fanout_part := fanout_part m;
                 fanout_total := fanout_total m; input_batches := input_batches m + 1;
                 input_rows := input_rows m + length batch |} |}
  | Err e :: _ => Err e
  end.

(** [bitmap.set_bit(x, true)] for every index. *)
Fixpoint set_bits (bitmap : list bool) (xs : list nat) : option (list bool) :=
  match xs with
  | [] => Some bitmap
  | x :: xs => bitmap ← vec_set bitmap x true; set_bits bitmap xs
  end.

(** The flags of a null-aware join after a probe batch; true when the batch is
    to be skipped. *)
Definition note_nulls (cfg : HashJoinConfig) (st : ProcessProbeBatchState) (sh : Shared) : option (bool * Shared) :=
  if null_aware cfg then
    let non_empty := if bool_decide (0 < length (ps_batch st)) then true else probe_side_non_empty sh in
    probe_key_column ← vec_get (ps_values st) 0;
    let has_null := if bool_decide (0 < HashUtils.null_count probe_key_column) then true
                    else probe_side_has_null sh in
    Some (has_null, {| visited_indices_bitmap := visited_indices_bitmap sh;
                       probe_threads_counter := probe_threads_counter sh;
                       probe_side_non_empty := non_empty; probe_side_has_null := has_null |})
  else Some (false, sh).

Definition mark_visited (cfg : HashJoinConfig) (left_indices : list nat) (sh : Shared) : option Shared :=
  if need_produce_result_in_final (join_type cfg) then
    bitmap ← set_bits (visited_indices_bitmap sh) left_indices;
    Some {| visited_indices_bitmap := bitmap; probe_threads_counter := probe_threads_counter sh;
            probe_side_non_empty := probe_side_non_empty sh; probe_side_has_null := probe_side_has_null sh |}
  else Some sh.

Definition add_total (m : JoinMetrics) (n : nat) : JoinMetrics := {|
  hit_part := hit_part m; hit_total := hit_total m + n; fanout_part := fanout_part m;
  fanout_total := fanout_total m; input_batches := input_batches m; input_rows := input_rows m |}.

Definition add_matches (m : JoinMetrics) (distinct matches : nat) : JoinMetrics := {|
  hit_part := hit_part m + distinct; hit_total := hit_total m; fanout_part := fanout_part m + matches;
  fanout_total := fanout_total m + distinct; input_batches := input_batches m; input_rows := input_rows m |}.

(** Pairs of indices after the residual filter. *)
Definition apply_filter (cfg : HashJoinConfig) (left_batch batch : list row) (left_indices right_indices : list nat)
    : option (Result (indices * indices)) :=
  match jfilter cfg with
  | Some f => apply_join_filter_to_indices left_batch batch (Some <$> left_indices) (Some <$> right_indices)
                f SideLeft None (join_type cfg)
  | None => Some (Ok (Some <$> left_indices, Some <$> right_indices))
  end.

(** The output batch of a page of aligned indices. *)
Definition page_batch (cfg : HashJoinConfig) (left_batch batch : list row) (left_indices right_indices : indices)
    : option (Result (list row)) :=
  if bool_decide (join_type cfg = RightMark)
  then build_batch_from_indices (column_indices cfg) batch left_batch left_indices right_indices SideRight (join_type cfg)
  else build_batch_from_indices (column_indices cfg) left_batch batch left_indices right_indices SideLeft (join_type cfg).

Definition process_probe_batch (cfg : HashJoinConfig) (st : ProcessProbeBatchState) (s : HashJoinStream)
    (sh : Shared) : option (Result (HashJoinStream * Shared)) :=
  left_data ←? Some (ok_or (build_side s) (Internal "Expected build side in ready state"));
  let s := set_metrics s (add_total (metrics s) (length (ps_batch st))) in
  nulls ← note_nulls cfg st sh;
  let '(skip, sh) := nulls in
  if (skip : bool) then Some (Ok (set_state s FetchProbeBatch, sh))
  else if map_is_empty (ld_map left_data) && bool_decide (jfilter cfg = None) then
    push ←? Some (push_batch (output_buffer s)
                   (build_batch_empty_build_side (column_indices cfg) (ps_batch st) (join_type cfg)));
    Some (Ok (set_state (set_output s push.2) FetchProbeBatch, sh))
  else
    looked_up ←? lookup_build_side cfg left_data (ps_values st) (hashes_buffer s) (ps_offset st);
    let '(left_indices, right_indices, next_offset) := looked_up in
    let s := set_metrics s (add_matches (metrics s) (count_distinct_sorted_indices right_indices)
                              (length left_indices)) in
    filtered ←? apply_filter cfg (ld_batch left_data) (ps_batch st) left_indices right_indices;
    let '(left_indices, right_indices) := filtered in
    sh ← mark_visited cfg (omap id left_indices) sh;
    let last_joined_right_idx := last (omap id right_indices) in
    let range_start := match joined_probe_idx st with Some v => v + 1 | None => 0 end in
    let range_end := match next_offset with
                     | None => length (ps_batch st)
                     | Some _ => match last_joined_right_idx with Some v => v + 1 | None => 0 end
                     end in
    let '(left_indices, right_indices) :=
      adjust_indices_by_join_type left_indices right_indices (range_start, range_end) (join_type cfg)
        (right_side_ordered cfg) in
    batch ←? page_batch cfg (ld_batch left_data) (ps_batch st) left_indices right_indices;
    push ←? Some (push_batch (output_buffer s) batch);
    let '(push_status, c) := push in
    Some (Ok (match push_status with
              | LimitReached => set_state (set_output s (finish c)) Completed
              | Continue =>
                  set_state (set_output s c)
                    match next_offset with
                    | None => FetchProbeBatch
                    | Some offset => ProcessProbeBatch (advance st offset last_joined_right_idx)
                    end
              end, sh)).

(** A null-aware anti join drops the rows whose key is null. *)
Definition drop_null_keys (build_key_column : column) (left_side : indices) : indices :=
  omap (λ idx, match idx with
               | Some i => if bool_decide (build_key_column !! i = Some None) then None else Some (Some i)
               | None => None
               end) left_side.

Definition process_unmatched_build_batch (cfg : HashJoinConfig) (s : HashJoinStream) (sh : Shared)
    : option (Result (HashJoinStream * Shared)) :=
  if negb (need_produce_result_in_final (join_type cfg)) then Some (Ok (set_state s Completed, sh))
  else
    left_data ←? Some (ok_or (build_side s) (Internal "Expected build side in ready state"));
    if null_aware cfg && probe_side_has_null sh then Some (Ok (set_state s Completed, sh))
    else
      let '(is_last, sh) := report_probe_completed sh in
      if negb is_last then Some (Ok (set_state s Completed, sh))
      else
        let '(left_side, right_side) :=
          get_final_indices_from_bit_map (visited_indices_bitmap sh) (join_type cfg) true in
        sides ← (if null_aware cfg && bool_decide (join_type cfg = LeftAnti) && probe_side_non_empty sh then
                   build_key_column ← vec_get (ld_values left_data) 0;
                   let left_side := drop_null_keys build_key_column left_side in
                   Some (left_side, replicate (length left_side) None)
                 else Some (left_side, right_side));
        let '(left_side, right_side) := sides in
        let m := metrics s in
        let s := set_metrics s {| hit_part := hit_part m; hit_total := hit_total m; fanout_part := fanout_part m;
                   fanout_total := fanout_total m; input_batches := input_batches m + 1;
                   input_rows := input_rows m + length left_side |} in
        let s := set_state s Completed in
        if bool_decide (left_side = []) then Some (Ok (s, sh))
        else
          batch ←? build_batch_from_indices (column_indices cfg) (ld_batch left_data) [] left_side right_side
                     SideLeft (join_type cfg);
          push ←? Some (push_batch (output_buffer s) batch);
          let '(push_status, c) := push in
          Some (Ok (set_output s (match push_status with LimitReached => finish c | Continue => c end), sh)).

(** ** Polling *)

Inductive Poll := Yield (batch : list row) | Running | Finished | Failed (e : DataFusionError).

Definition handle_state (r : option (Result (HashJoinStream * Shared))) (s : HashJoinStream) (sh : Shared)
    : option (Poll * HashJoinStream * Shared) :=
  r ← r;
  Some match r with
       | Ok (s, sh) => (Running, s, sh)
       | Err e => (Failed e, s, sh)
       end.

(** One iteration of the loop of [poll_next_impl]; [Running] continues it. *)
Definition poll_step (cfg : HashJoinConfig) (left_fut : Result JoinLeftData) (s : HashJoinStream) (sh : Shared)
    : option (Poll * HashJoinStream * Shared) :=
  match next_completed_batch (output_buffer s) with
  | (Some batch, c) => Some (Yield batch, set_output s c, sh)
  | (None, c) =>
      let s := set_output s c in
      if is_finished c then Some (Finished, s, sh)
      else match state s with
           | WaitBuildSide => handle_state (s' ←? Some (collect_build_side left_fut s); Some (Ok (s', sh))) s sh
           | FetchProbeBatch => handle_state (s' ←? Some (fetch_probe_batch cfg s); Some (Ok (s', sh))) s sh
           | ProcessProbeBatch st => handle_state (process_probe_batch cfg st s sh) s sh
           | ExhaustedProbeSide => handle_state (process_unmatched_build_batch cfg s sh) s sh
           | Completed =>
               if is_empty c then Some (Finished, s, sh)
               else Some (Running, set_output s (finish c), sh)
           end
  end.

(** Polling one stream to its end: the rows it yields, and the error that ended
    it if one did. *)
Fixpoint run (fuel : nat) (cfg : HashJoinConfig) (left_fut : Result JoinLeftData) (s : HashJoinStream) (sh : Shared)
    : option (list row * option DataFusionError * HashJoinStream * Shared) :=
  match fuel with
  | 0 => None
  | S fuel =>
      r ← poll_step cfg left_fut s sh;
      let '(p, s, sh) := r in
      match p with
      | Yield batch => r ← run fuel cfg left_fut s sh;
                       let '(out, e, s, sh) := r in Some (batch ++ out, e, s, sh)
      | Running => run fuel cfg left_fut s sh
      | Finished => Some ([], None, s, sh)
      | Failed e => Some ([], Some e, s, sh)
      end
  end.

(** ** The operator *)

(** What [execute] reads of the session configuration. *)
Record ExecutionOptions := {
  opt_batch_size : nat;
  opt_small_build_threshold : Z;
  opt_min_key_density : f64;
}.

(** The stream [HashJoinExec::execute] makes of the operator's fields. *)
Definition execute_config (j : HashJoin) (l r : Schema) (opts : ExecutionOptions) (right_ordered : bool)
    : option HashJoinConfig :=
  let cis := (build_join_schema l r (PhysicalPlan.join_type j)).2 in
  column_indices_after_projection ← match projection j with
                                    | Some projection => mapM (vec_get cis) projection
                                    | None => Some cis
                                    end;
  Some {| on_left := (on j).*1; on_right := (on j).*2; jfilter := join_filter j;
          join_type := PhysicalPlan.join_type j; column_indices := column_indices_after_projection;
          null_equality := PhysicalPlan.null_equality j; batch_size := opt_batch_size opts;
          right_side_ordered := right_ordered; null_aware := PhysicalPlan.null_aware j;
          fetch := join_fetch j; left_schema := l; right_schema := r;
          perfect_hash_join_small_build_threshold := opt_small_build_threshold opts;
          perfect_hash_join_min_key_density := opt_min_key_density opts |}.

(** One partition in [Partitioned] mode: its build side is collected, then the
    stream is polled to its end. *)
Definition execute (fuel : nat) (cfg : HashJoinConfig) (left right : list (Result (list row)))
    : option (list row * option DataFusionError * HashJoinStream * Shared) :=
  left_fut ← collect_left_input cfg left (need_produce_result_in_final (join_type cfg)) 1;
  match left_fut with
  | Ok (left_data, sh) => run fuel cfg (Ok left_data) (new cfg right) sh
  | Err e => run fuel cfg (Err e) (new cfg right)
               {| visited_indices_bitmap := []; probe_threads_counter := 1;
                  probe_side_non_empty := false; probe_side_has_null := false |}
  end.

End Stream.
End HashJoinStream.
