(* ===== verification/HashJoinRows.v ===== *)
(** * Rows of the hash join

    The helpers of HashJoinStream.v read as rows: output batches, the final
    batch, key comparison and the residual filter. *)

From stdpp Require Import base list strings gmap sorting.
From Stdlib Require Import ZArith Lia.
From S2P Require Import Prelude Relation HashUtils JoinTypes JoinHashMap JoinIndices Coalesce BloomExec Transfer PhysicalPlan HashJoinStream.

Module JoinRows.
Import BloomExec JoinSchema JoinIndices JoinBatch.

(** ** Output rows *)

Definition row_of (batch : list row) (i : nat) : row := default [] (batch !! i).

Definition fill (ls rs : list row) (o : jout nat nat) : jout row row :=
  match o with
  | Both l r => Both (row_of ls l) (row_of rs r)
  | LeftOnly l => LeftOnly (row_of ls l)
  | RightOnly r => RightOnly (row_of rs r)
  | LeftMarked l b => LeftMarked (row_of ls l) b
  | RightMarked r b => RightMarked (row_of rs r) b
  end.

(** The sides a join type's output columns come from. *)
Definition side_ok (jt : JoinType) (s : JoinSide) : Prop :=
  match jt with
  | Inner | Left | Right | Full => s ≠ SideNone
  | LeftSemi | LeftAnti => s = SideLeft
  | LeftMark => s ≠ SideRight
  | RightSemi | RightAnti => s = SideRight
  | RightMark => s ≠ SideLeft
  end.

Definition columns_ok (jt : JoinType) (cis : list ColumnIndex) : Prop :=
  Forall (λ ci, side_ok jt (ci_side ci)) cis.

Definition in_range (batch : list row) (ix : indices) : Prop :=
  ∀ i, Some i ∈ ix → i < length batch.

Definition fetch_cell (batch : list row) (k : nat) (o : option nat) : option value :=
  o ≫= λ i, cell k (row_of batch i).

Lemma all_null_true ix : all_null ix = true ↔ ix = replicate (length ix) None.
Proof.
  unfold all_null. induction ix as [|o ix IH]; [done|]. cbn.
  rewrite andb_true_iff, IH, bool_decide_eq_true. split; [by intros [-> <-]|by injection 1].
Qed.

Lemma take_column_ok batch k ix :
  in_range batch ix → take_column batch k ix = Some (fetch_cell batch k <$> ix).
Proof.
  intros Hr. unfold take_column.
  assert (Hnull : all_null ix = true → replicate (length ix) None = fetch_cell batch k <$> ix).
  { intros ->%all_null_true. rewrite length_replicate. generalize (length ix). intros n.
    induction n as [|n IH]; [done|]. cbn. by rewrite IH. }
  destruct (all_null ix) eqn:Ea.
  - rewrite orb_true_r. by rewrite Hnull.
  - rewrite orb_false_r. case_bool_decide as Hb.
    + subst. exfalso. apply not_true_iff_false in Ea. apply Ea. apply all_null_true.
      clear Ea Hnull. induction ix as [|[i|] ix IH]; [done| |].
      * specialize (Hr i ltac:(apply list_elem_of_here)). cbn in Hr. lia.
      * cbn. rewrite <- IH; [done|]. intros i Hi. apply Hr. by right.
    + clear Ea Hnull Hb. induction ix as [|o ix IH]; [done|]. cbn.
      rewrite IH by (intros i Hi; apply Hr; by right). destruct o as [i|]; [|done]. cbn.
      destruct (lookup_lt_is_Some_2 batch i) as [r Hi]; [apply Hr, list_elem_of_here|].
      unfold vec_get, row_of. by rewrite Hi.
Qed.

(** When every column is a function of the same list, so is the batch. *)
Lemma try_new_rows {X} (g : ColumnIndex → X → option value) (cis : list ColumnIndex) (xs : list X) :
  cis ≠ [] → try_new ((λ ci, g ci <$> xs) <$> cis) = Ok ((λ x, (λ ci, g ci x) <$> cis) <$> xs).
Proof.
  intros Hne. destruct cis as [|c cis]; [done|]. clear Hne. unfold try_new. rewrite fmap_cons.
  destruct (forallb _ _) eqn:E.
  - f_equal. apply list_eq. intros i. rewrite list_lookup_fmap, length_fmap.
    destruct (decide (i < length xs)) as [Hi|Hi].
    + rewrite lookup_tab by done. destruct (lookup_lt_is_Some_2 xs i Hi) as [x Hx]. rewrite Hx. cbn [fmap option_fmap option_map].
      clear E. f_equal. cbn [map fmap list_fmap].
      assert (Hg : ∀ ci, default None ((g ci <$> xs) !! i) = g ci x) by (intros ci; by rewrite list_lookup_fmap, Hx).
      f_equal; [apply Hg|]. induction cis as [|ci cis IH]; [done|]. cbn [map fmap list_fmap]. f_equal; [apply Hg|exact IH].
    + by rewrite !lookup_ge_None_2 by (rewrite ?length_tab; lia).
  - exfalso. apply not_true_iff_false in E. apply E. rewrite forallb_Forall, Forall_cons, Forall_fmap.
    split; [by apply bool_decide_eq_true|]. apply Forall_true. intros ci. cbn. apply bool_decide_eq_true. by rewrite !length_fmap.
Qed.

Lemma build_batch_rows {X} (g : ColumnIndex → X → option value) (xs : list X) cis build probe bix pix side jt :
  (cis = [] → match jt with RightAnti | RightSemi => length pix | _ => length bix end = length xs) →
  (∀ ci, ci ∈ cis →
    (if bool_decide (ci_side ci = SideNone) then Some (is_not_null pix)
     else if bool_decide (ci_side ci = side) then take_column build (ci_index ci) bix
     else take_column probe (ci_index ci) pix) = Some (g ci <$> xs)) →
  build_batch_from_indices cis build probe bix pix side jt =
  Some (Ok ((λ x, (λ ci, g ci x) <$> cis) <$> xs)).
Proof.
  intros Hnil Hcols. unfold build_batch_from_indices. case_bool_decide as Hc.
  { subst. rewrite Hnil by done. unfold new_empty_schema_batch. do 2 f_equal. clear.
    induction xs as [|x xs IH]; [done|]. cbn. by rewrite IH. }
  rewrite (mapM_total _ (λ ci, g ci <$> xs)) by done. cbn [mbind option_bind]. by rewrite try_new_rows.
Qed.

Lemma fmap_omap_total {A B C} (f : A → option B) (h : B → C) (k : A → C) (l : list A) :
  (∀ a, a ∈ l → ∃ b, f a = Some b ∧ h b = k a) → h <$> omap f l = k <$> l.
Proof.
  induction l as [|a l IH]; intros Hf; [done|]. cbn.
  destruct (Hf a) as (b & -> & Hb); [apply list_elem_of_here|]. cbn. rewrite Hb.
  by rewrite IH by (intros a' Ha'; apply Hf; by right).
Qed.

Definition pair_cell (build probe : list row) (side : JoinSide) (ci : ColumnIndex)
    (p : option nat * option nat) : option value :=
  if bool_decide (ci_side ci = SideNone) then
    Some (VBoolean (bool_decide (is_Some p.2)))
  else if bool_decide (ci_side ci = side) then fetch_cell build (ci_index ci) p.1
  else fetch_cell probe (ci_index ci) p.2.

(** Index arrays of one length: the batch is a row for every pair. *)
Lemma build_batch_pairs cis build probe ps side jt :
  (∀ ci, ci ∈ cis → ci_side ci ≠ SideNone → ci_side ci = side → in_range build ps.*1) →
  (∀ ci, ci ∈ cis → ci_side ci ≠ SideNone → ci_side ci ≠ side → in_range probe ps.*2) →
  build_batch_from_indices cis build probe ps.*1 ps.*2 side jt =
  Some (Ok ((λ p, (λ ci, pair_cell build probe side ci p) <$> cis) <$> ps)).
Proof.
  intros Hb Hp. apply (build_batch_rows (pair_cell build probe side)).
  - intros _. by destruct jt; rewrite length_fmap.
  - intros ci Hci. unfold pair_cell. case_bool_decide as Hn.
    { f_equal. unfold is_not_null. clear. induction ps as [|p ps IH]; [done|]. cbn. by rewrite IH. }
    case_bool_decide as Hs.
    + rewrite take_column_ok by eauto. by rewrite <- list_fmap_compose.
    + rewrite take_column_ok by eauto. by rewrite <- list_fmap_compose.
Qed.

(** Reading a pair of indices as an output row. *)
Lemma pair_row jt cis ls rs p o :
  match jt with Inner | Left | Right | Full | LeftMark => True | _ => False end →
  columns_ok jt cis → output_pair jt p = Some o →
  output_row cis (fill ls rs o) = (λ ci, pair_cell ls rs SideLeft ci p) <$> cis.
Proof.
  intros Hjt Hc Ho. unfold output_row. unfold columns_ok in Hc. rewrite Forall_forall in Hc.
  destruct p as [[l|] [r|]];
    (destruct jt; try done; cbn in Ho; injection Ho as <-; cbn [fill];
     apply list_fmap_ext; intros k ci Hk%list_elem_of_lookup_2; specialize (Hc ci Hk); unfold pair_cell;
     destruct ci as [ix []]; cbn in Hc |- *; done).
Qed.

Lemma pair_row_right_mark cis ls rs p o :
  columns_ok RightMark cis → output_pair RightMark p = Some o →
  output_row cis (fill ls rs o) = (λ ci, pair_cell rs ls SideRight ci p) <$> cis.
Proof.
  intros Hc Ho. unfold output_row. unfold columns_ok in Hc. rewrite Forall_forall in Hc.
  destruct p as [[l|] [r|]]; cbn in Ho; try done; injection Ho as <-; cbn [fill];
    apply list_fmap_ext; intros k ci Hk%list_elem_of_lookup_2; specialize (Hc ci Hk); unfold pair_cell;
    destruct ci as [ix []]; cbn in Hc |- *; done.
Qed.

(** Right semi and anti joins read the probe indices alone. *)
Lemma right_only_rows jt cis ls rs bix (ix : list nat) side :
  match jt with RightSemi | RightAnti => True | _ => False end → columns_ok jt cis → side ≠ SideRight →
  Forall (λ i, i < length rs) ix →
  build_batch_from_indices cis ls rs bix (Some <$> ix) side jt =
  Some (Ok (output_row cis ∘ fill ls rs ∘ RightOnly <$> ix)).
Proof.
  intros Hjt Hc Hside Hix. unfold columns_ok in Hc. rewrite Forall_forall in Hc. rewrite Forall_forall in Hix.
  rewrite (build_batch_rows (λ ci i, fetch_cell rs (ci_index ci) (Some i)) ix).
  - do 2 f_equal. apply list_fmap_ext. intros k i _. cbn. apply list_fmap_ext.
    intros k' ci Hk%list_elem_of_lookup_2. specialize (Hc ci Hk). by destruct jt, ci as [idx []].
  - intros _. by destruct jt; try done; rewrite length_fmap.
  - intros ci Hci. specialize (Hc ci Hci). assert (Hr : ci_side ci = SideRight) by by destruct jt.
    rewrite Hr, !bool_decide_false by done. rewrite take_column_ok.
    + by rewrite <- list_fmap_compose.
    + intros i (i' & [= ->] & Hi)%list_elem_of_fmap. by apply Hix.
Qed.

(** The indices a page aligns are those of the rows it has. *)
Lemma in_range_fmap batch (l : list nat) : Forall (λ i, i < length batch) l → in_range batch (Some <$> l).
Proof. rewrite Forall_forall. intros Hl i (i' & [= ->] & Hi)%list_elem_of_fmap. by apply Hl. Qed.

(** Matches of rows the two sides have. *)
Definition pairs_in (nl nr : nat) (q : list (nat * nat)) : Prop := Forall (λ x, x.1 < nr ∧ x.2 < nl) q.

Definition pair_in (nl nr : nat) (x : option nat * option nat) : Prop :=
  (∀ i, x.1 = Some i → i < nl) ∧ ∃ j, x.2 = Some j ∧ j < nr.

Lemma null_pairs_in nl nr l : Forall (λ v, v < nr) l → Forall (pair_in nl nr) (map (λ v, (None, Some v)) l).
Proof. intros Hl. induction Hl; constructor; [|done]. split; [done|]. by eexists. Qed.

Lemma append_in_order_in nl nr prev q stop :
  pairs_in nl nr q → stop ≤ nr → Forall (pair_in nl nr) (append_in_order prev q.*2 q.*1 stop).
Proof.
  intros Hq Hstop. revert prev. induction Hq as [|[p b] q [Hp Hb] Hq IH]; intros prev; cbn.
  - apply null_pairs_in, Forall_forall. intros v Hv%elem_of_seq. lia.
  - cbn in Hp, Hb. apply Forall_app. split.
    + apply null_pairs_in, Forall_forall. intros v Hv%elem_of_seq. lia.
    + constructor; [|apply IH]. split; [by intros ? [= <-]|by eexists].
Qed.

Lemma matches_in nl nr q : pairs_in nl nr q → Forall (pair_in nl nr) (zip (Some <$> q.*2) (Some <$> q.*1)).
Proof.
  intros Hq. induction Hq as [|[p b] q [Hp Hb] Hq IH]; cbn; constructor; [|done].
  split; [by intros ? [= <-]|by eexists].
Qed.

Lemma adjust_pairs jt nl nr q r ordered :
  match jt with Inner | Left | Right | Full => True | _ => False end →
  pairs_in nl nr q → r.2 ≤ nr →
  let ix := adjust_indices_by_join_type (Some <$> q.*2) (Some <$> q.*1) r jt ordered in
  length ix.1 = length ix.2 ∧ Forall (pair_in nl nr) (zip ix.1 ix.2).
Proof.
  intros Hjt Hq Hr.
  assert (Hun : ∀ o, let ix := append_right_indices (Some <$> q.*2) (Some <$> q.*1) r o in
    length ix.1 = length ix.2 ∧ Forall (pair_in nl nr) (zip ix.1 ix.2)).
  { intros [|]; cbn.
    - rewrite !length_fmap, !omap_Some, zip_fst_snd. split; [done|]. by apply append_in_order_in.
    - case_bool_decide as Hn; cbn [fst snd]; [rewrite !length_fmap; by split; [|apply matches_in]|].
      rewrite !length_app, !length_replicate, !length_fmap. split; [done|].
      rewrite zip_with_app by (by rewrite !length_fmap). apply Forall_app. split; [by apply matches_in|].
      rewrite get_anti_indices_spec, length_fmap.
      assert (HF : Forall (λ v, v < nr) (filter (λ i, occurs (Some <$> q.*1) i = false) (range_iter r))).
      { apply Forall_forall. intros v [_ Hv%range_iter_elem]%list_elem_of_filter. lia. }
      induction HF; cbn; constructor; [|done]. split; [done|]. by eexists. }
  destruct jt; try done; cbn [adjust_indices_by_join_type fst snd]; cbn zeta.
  - rewrite !length_fmap. split; [done|by apply matches_in].
  - rewrite !length_fmap. split; [done|by apply matches_in].
  - apply Hun.
  - apply Hun.
Qed.

Lemma pairs_range nl nr ps :
  Forall (pair_in nl nr) ps →
  (∀ ls, length ls = nl → in_range ls ps.*1) ∧ (∀ rs, length rs = nr → in_range rs ps.*2).
Proof.
  intros Hps. rewrite Forall_forall in Hps. split.
  - intros ls <- i (p & Hi & Hp)%list_elem_of_fmap. destruct (Hps p Hp) as [Hl _]. by apply Hl.
  - intros rs <- j (p & Hj & Hp)%list_elem_of_fmap. destruct (Hps p Hp) as [_ (j' & Hj' & ?)]. congruence.
Qed.

Lemma no_rows cis ls rs side jt : build_batch_from_indices cis ls rs [] [] side jt = Some (Ok []).
Proof. apply (build_batch_pairs cis ls rs [] side jt); by intros ci _ _ _ i ?%elem_of_nil. Qed.

Lemma range_in (rs : list row) r (P : nat → Prop) `{!∀ i, Decision (P i)} :
  r.2 ≤ length rs → Forall (λ i, i < length rs) (filter P (range_iter r)).
Proof. intros Hr. apply Forall_forall. intros i [_ Hi%range_iter_elem]%list_elem_of_filter. lia. Qed.

(** The batch of a page is the rows of its output. *)
Lemma page_rows cis jt ordered ls rs q r :
  columns_ok jt cis → pairs_in (length ls) (length rs) q → r.2 ≤ length rs →
  let ix := adjust_indices_by_join_type (Some <$> q.*2) (Some <$> q.*1) r jt ordered in
  (if bool_decide (jt = RightMark)
   then build_batch_from_indices cis rs ls ix.1 ix.2 SideRight jt
   else build_batch_from_indices cis ls rs ix.1 ix.2 SideLeft jt) =
  Some (Ok (output_row cis ∘ fill ls rs <$> page_output jt ordered q r)).
Proof.
  intros Hc Hq Hr ix. unfold page_output. fold ix.
  assert (match jt with Inner | Left | Right | Full => True | _ => False end ∨
          match jt with Inner | Left | Right | Full => False | _ => True end) as [Hjt|Hjt]
    by (destruct jt; tauto).
  { destruct (adjust_pairs jt (length ls) (length rs) q r ordered Hjt Hq Hr) as [Hlen Hin]. fold ix in Hlen, Hin.
    destruct (pairs_range _ _ _ Hin) as [Hl Hp].
    rewrite bool_decide_false by (by destruct jt).
    pose proof (build_batch_pairs cis ls rs (zip ix.1 ix.2) SideLeft jt) as E.
    rewrite fst_zip in E, Hl by lia. rewrite snd_zip in E, Hp by lia.
    rewrite E by (intros; auto). do 2 f_equal. symmetry.
    unfold batch_from_indices. replace (match jt with RightSemi | RightAnti => _ | _ => _ end) with
      (omap (output_pair jt) (zip ix.1 ix.2)) by (by destruct jt).
    apply fmap_omap_total. intros p Hp'. rewrite Forall_forall in Hin. destruct (Hin p Hp') as [_ (j & Hj & _)].
    destruct p as [o ?]. cbn in Hj. subst.
    assert (∃ out, output_pair jt (o, Some j) = Some out) as [out Hout].
    { destruct jt, o; try done; cbn; eauto. }
    exists out. split; [done|]. cbn. apply (pair_row jt); [by destruct jt|done|done]. }
  destruct jt; try done; cbn [adjust_indices_by_join_type] in ix; clear Hjt.
  - apply no_rows.
  - rewrite bool_decide_false by done. unfold ix. cbn [fst snd batch_from_indices]. rewrite get_semi_indices_spec, omap_fmap_Some.
    rewrite right_only_rows; [by rewrite <- !list_fmap_compose|done|done|done|by apply range_in].
  - apply no_rows.
  - rewrite bool_decide_false by done. unfold ix. cbn [fst snd batch_from_indices]. rewrite get_anti_indices_spec, omap_fmap_Some.
    rewrite right_only_rows; [by rewrite <- !list_fmap_compose|done|done|done|by apply range_in].
  - apply no_rows.
  - rewrite bool_decide_true by done. unfold ix. cbn [fst snd]. rewrite get_mark_indices_spec.
    set (mk := λ i : nat, if occurs (Some <$> q.*1) i then Some 0 else None).
    set (ps := (λ i, (Some i, mk i)) <$> range_iter r).
    assert (E1 : ps.*1 = map Some (range_iter r)) by (unfold ps; by rewrite <- list_fmap_compose).
    assert (E2 : ps.*2 = mk <$> range_iter r) by (unfold ps; by rewrite <- list_fmap_compose).
    rewrite <- E1, <- E2. unfold columns_ok in Hc. pose proof Hc as Hc'. rewrite Forall_forall in Hc'.
    rewrite build_batch_pairs.
    + do 2 f_equal. symmetry. cbn [batch_from_indices fst snd]. rewrite zip_fst_snd.
      apply fmap_omap_total. intros p (i & -> & Hi)%list_elem_of_fmap. eexists. split; [done|].
      by apply (pair_row_right_mark cis ls rs (Some i, mk i)).
    + intros ci _ _ _. rewrite E1. change (map Some (range_iter r)) with (Some <$> range_iter r).
      apply in_range_fmap. apply Forall_forall. intros i Hi%range_iter_elem. lia.
    + intros ci Hci Hn Hs. specialize (Hc' ci Hci). destruct ci as [? []]; done.
Qed.

(** The unmatched (or matched) build rows at the end. *)
Lemma final_rows cis jt ls (l : list nat) :
  match jt with Left | Full | LeftSemi | LeftAnti => True | _ => False end →
  columns_ok jt cis → Forall (λ i, i < length ls) l →
  build_batch_from_indices cis ls [] (Some <$> l) (replicate (length l) None) SideLeft jt =
  Some (Ok (output_row cis ∘ fill ls [] ∘ LeftOnly <$> l)).
Proof.
  intros Hjt Hc Hl. unfold columns_ok in Hc. rewrite Forall_forall in Hc.
  set (ps := (λ i, (Some i, @None nat)) <$> l).
  assert (E1 : ps.*1 = Some <$> l) by (unfold ps; by rewrite <- list_fmap_compose).
  assert (E2 : ps.*2 = replicate (length l) None).
  { unfold ps. clear. induction l as [|i l IH]; [done|]. cbn. by f_equal. }
  rewrite <- E1, <- E2, build_batch_pairs.
  - do 2 f_equal. unfold ps. rewrite <- list_fmap_compose. apply list_fmap_ext. intros k i _. cbn.
    apply list_fmap_ext. intros k' ci Hk%list_elem_of_lookup_2. specialize (Hc ci Hk). unfold pair_cell.
    by destruct jt, ci as [ix []].
  - intros ci _ _ _. rewrite E1. by apply in_range_fmap.
  - intros ci _ _ _. rewrite E2. by intros i [? _]%elem_of_replicate.
Qed.

Lemma final_mark_rows cis ls bits :
  columns_ok LeftMark cis → length bits = length ls →
  let ix := get_final_indices_from_bit_map bits LeftMark true in
  build_batch_from_indices cis ls [] ix.1 ix.2 SideLeft LeftMark =
  Some (Ok ((λ i, output_row cis (fill ls [] (LeftMarked i (get_bit bits i)))) <$> seq 0 (length ls))).
Proof.
  intros Hc Hlen. unfold get_final_indices_from_bit_map. rewrite bool_decide_true by done. cbn [orb fst snd]. cbn zeta.
  rewrite Hlen. unfold columns_ok in Hc. pose proof Hc as Hc'. rewrite Forall_forall in Hc'.
  set (mk := λ i, if get_bit bits i then Some 0 else None).
  set (ps := (λ i, (Some i, mk i)) <$> seq 0 (length ls)).
  assert (E1 : ps.*1 = map Some (seq 0 (length ls))) by (unfold ps; by rewrite <- list_fmap_compose).
  assert (E2 : ps.*2 = map mk (seq 0 (length ls))) by (unfold ps; by rewrite <- list_fmap_compose).
  rewrite <- E1, <- E2, build_batch_pairs.
  - do 2 f_equal. unfold ps. rewrite <- list_fmap_compose. apply list_fmap_ext. intros k i _. cbn beta.
    symmetry. apply (pair_row LeftMark cis ls [] (Some i, mk i)); [done|done|].
    cbn. unfold mk. by destruct (get_bit bits i).
  - intros ci _ _ _. rewrite E1. change (map Some ?l) with (Some <$> l). apply in_range_fmap.
    apply Forall_forall. intros i Hi%elem_of_seq. lia.
  - intros ci Hci Hn Hs. specialize (Hc' ci Hci). destruct ci as [? []]; done.
Qed.

Lemma final_indices jt bits :
  match jt with Left | Full | LeftSemi | LeftAnti => True | _ => False end →
  let l := filter (λ i, get_bit bits i = bool_decide (jt = LeftSemi)) (seq 0 (length bits)) in
  get_final_indices_from_bit_map bits jt true = (Some <$> l, replicate (length l) None).
Proof.
  intros Hjt. cbn zeta. unfold get_final_indices_from_bit_map.
  assert (Hpos : ∀ l : list nat, omap (λ idx, if get_bit bits idx then Some (Some idx) else None) l =
    Some <$> filter (λ i, get_bit bits i = true) l).
  { intros l. induction l as [|i l IH]; [done|]. cbn [omap list_omap]. rewrite filter_cons.
    destruct (get_bit bits i); cbn; by rewrite IH. }
  assert (Hneg : ∀ l : list nat, omap (λ idx, if get_bit bits idx then None else Some (Some idx)) l =
    Some <$> filter (λ i, get_bit bits i = false) l).
  { intros l. induction l as [|i l IH]; [done|]. cbn [omap list_omap]. rewrite filter_cons.
    destruct (get_bit bits i); cbn; by rewrite IH. }
  destruct jt; try done; repeat ((rewrite bool_decide_true by done) || (rewrite bool_decide_false by done));
    cbn [orb andb]; rewrite ?Hpos, ?Hneg, ?length_fmap; done.
Qed.

(** ** Keys and filters *)

Lemma compute_filter_fmap {X A} (f : X → A) (g : X → option bool) (xs : list X) :
  compute_filter (f <$> xs) (g <$> xs) = f <$> filter (λ x, g x = Some true) xs.
Proof.
  induction xs as [|x xs IH]; [done|]. cbn [compute_filter fmap list_fmap]. rewrite filter_cons, IH.
  destruct (decide (g x = Some true)); [by rewrite bool_decide_true|by rewrite bool_decide_false].
Qed.

Definition keys_match (on : list (PhysicalExpr * PhysicalExpr)) (ne : NullEquality) (l r : row) : bool :=
  forallb (λ p, Transfer.key_eq ne (Expr.evaluate p.1 l) (Expr.evaluate p.2 r)) on.

Lemma eq_cell_true ne a b : eq_cell ne a b = Some true ↔ Transfer.key_eq ne a b = true.
Proof. unfold eq_cell, Transfer.key_eq. destruct ne, a, b; repeat case_bool_decide; naive_solver. Qed.

Lemma and_cell_true a b : and_cell a b = Some true ↔ a = Some true ∧ b = Some true.
Proof. destruct a as [[]|], b as [[]|]; naive_solver. Qed.

Lemma foldl_and_true a es : foldl and_cell a es = Some true ↔ a = Some true ∧ Forall (λ e, e = Some true) es.
Proof.
  revert a. induction es as [|e es IH]; intros a; cbn.
  - split; [by split|by intros [? _]].
  - rewrite IH, and_cell_true, Forall_cons. tauto.
Qed.

Definition cell_at (col : column) (i : nat) : option value := default None (col !! i).

Lemma take_values_ok (col : column) ix :
  Forall (λ i, i < length col) ix → take_values col ix = Some (cell_at col <$> ix).
Proof.
  rewrite Forall_forall. intros Hix. unfold take_values. apply mapM_total. intros i Hi.
  unfold vec_get, cell_at. by destruct (lookup_lt_is_Some_2 col i (Hix i Hi)) as [v ->].
Qed.

(** The cells of a pair of matches in the key columns. *)
Definition pair_eq (ne : NullEquality) (c : column * column) (x : nat * nat) : option bool :=
  eq_cell ne (cell_at c.1 x.2) (cell_at c.2 x.1).

Definition cols_in (cols : list (column * column)) (q : list (nat * nat)) : Prop :=
  Forall (λ c, Forall (λ x, x.2 < length c.1 ∧ x.1 < length c.2) q) cols.

Lemma take_pair ne (c : column * column) (q : list (nat * nat)) :
  Forall (λ x, x.2 < length c.1 ∧ x.1 < length c.2) q →
  ∃ l r, take_values c.1 q.*2 = Some l ∧ take_values c.2 q.*1 = Some r ∧ eq_dyn_null l r ne = pair_eq ne c <$> q.
Proof.
  intros Hq. eexists _, _. split_and!.
  - apply take_values_ok. rewrite Forall_fmap. eapply Forall_impl; [exact Hq|]. by intros x [? _].
  - apply take_values_ok. rewrite Forall_fmap. eapply Forall_impl; [exact Hq|]. by intros x [_ ?].
  - clear. unfold eq_dyn_null. induction q as [|x q IH]; [done|]. cbn. by f_equal.
Qed.

Lemma and_columns_ok ne cols (g : nat * nat → option bool) (q : list (nat * nat)) :
  cols_in cols q →
  and_columns q.*2 q.*1 cols ne (g <$> q) =
  Some ((λ x, foldl and_cell (g x) ((λ c, pair_eq ne c x) <$> cols)) <$> q).
Proof.
  intros Hc. revert g. induction Hc as [|[l r] cols Hq Hc IH]; intros g; cbn [and_columns]; [done|].
  destruct (take_pair ne (l, r) q Hq) as (al & ar & Hl & Hr & He). cbn [fst snd] in Hl, Hr.
  rewrite Hl. cbn [mbind option_bind]. rewrite Hr. cbn [mbind option_bind]. rewrite He.
  replace (zip_with and_cell (g <$> q) (pair_eq ne (l, r) <$> q)) with
    ((λ x, and_cell (g x) (pair_eq ne (l, r) x)) <$> q); [by rewrite IH|].
  clear. induction q as [|x q IH]; [done|]. cbn. by f_equal.
Qed.

(** [equal_rows_arr] keeps the pairs equal in every key column. *)
Lemma equal_rows_cols ne lcols rcols (q : list (nat * nat)) :
  zip lcols rcols ≠ [] → cols_in (zip lcols rcols) q →
  let q' := filter (λ x, Forall (λ c, pair_eq ne c x = Some true) (zip lcols rcols)) q in
  equal_rows_arr q.*2 q.*1 lcols rcols ne = Some (q'.*2, q'.*1).
Proof.
  intros Hne Hc. unfold equal_rows_arr. destruct (zip lcols rcols) as [|[l r] cols]; [done|]. cbn zeta.
  apply Forall_cons in Hc as [Hq Hc].
  destruct (take_pair ne (l, r) q Hq) as (al & ar & Hl & Hr & He). cbn [fst snd] in Hl, Hr.
  rewrite Hl. cbn [mbind option_bind]. rewrite Hr. cbn [mbind option_bind]. rewrite He.
  rewrite and_columns_ok by done. cbn [mbind option_bind]. rewrite !compute_filter_fmap.
  do 2 f_equal; f_equal; apply list_filter_iff; intros x;
    rewrite foldl_and_true, Forall_cons, Forall_fmap; done.
Qed.

Lemma cell_at_evaluate e batch i :
  i < length batch → cell_at (map (Expr.evaluate e) batch) i = Expr.evaluate e (row_of batch i).
Proof.
  intros Hi. unfold cell_at, row_of. rewrite list_lookup_fmap.
  by destruct (lookup_lt_is_Some_2 batch i Hi) as [r ->].
Qed.

Lemma equal_rows_ok ne (on : list (PhysicalExpr * PhysicalExpr)) ls rs (q : list (nat * nat)) :
  on ≠ [] → pairs_in (length ls) (length rs) q →
  let q' := filter (λ x, keys_match on ne (row_of ls x.2) (row_of rs x.1) = true) q in
  equal_rows_arr q.*2 q.*1 (HashJoinStream.evaluate_expressions on.*1 ls)
    (HashJoinStream.evaluate_expressions on.*2 rs) ne = Some (q'.*2, q'.*1).
Proof.
  intros Hon Hq. cbn zeta. unfold HashJoinStream.evaluate_expressions.
  assert (Hz : zip (map (λ e, map (Expr.evaluate e) ls) on.*1) (map (λ e, map (Expr.evaluate e) rs) on.*2) =
    (λ p, (map (Expr.evaluate p.1) ls, map (Expr.evaluate p.2) rs)) <$> on).
  { clear. induction on as [|p on IH]; [done|]. cbn. by f_equal. }
  rewrite (equal_rows_cols ne); rewrite Hz.
  - assert (Hf : ∀ x, x ∈ q → Forall (λ c, pair_eq ne c x = Some true)
        ((λ p, (map (Expr.evaluate p.1) ls, map (Expr.evaluate p.2) rs)) <$> on) ↔
      keys_match on ne (row_of ls x.2) (row_of rs x.1) = true).
    { intros x Hx. unfold pairs_in in Hq. rewrite Forall_forall in Hq. destruct (Hq x Hx) as [Hr Hl].
      unfold keys_match. rewrite forallb_Forall, Forall_fmap. apply Forall_proper; [|done]. intros p. cbn.
      unfold pair_eq. cbn [fst snd]. by rewrite eq_cell_true, !cell_at_evaluate. }
    do 2 f_equal; f_equal; by apply list_filter_iff_in.
  - by destruct on.
  - unfold cols_in. rewrite Forall_fmap. apply Forall_true. intros p. cbn.
    eapply Forall_impl; [exact Hq|]. cbn. intros x [? ?]. by rewrite !length_map.
Qed.

(** ** The residual filter *)

(** Filters read columns of the two sides. *)
Definition filter_ok (f : JoinFilter) : Prop :=
  Forall (λ ci, ci_side ci ≠ SideNone) (filter_column_indices f).

Lemma filter_mask_ok f ls rs (q : list (nat * nat)) jt :
  filter_ok f → pairs_in (length ls) (length rs) q →
  filter_mask f ls rs (Some <$> q.*2) (Some <$> q.*1) SideLeft jt =
  Some (Ok ((λ x, filter_expression f (output_row (filter_column_indices f)
                    (Both (row_of ls x.2) (row_of rs x.1)))) <$> q)).
Proof.
  intros Hf Hq. unfold filter_mask.
  set (ps := zip (Some <$> q.*2) (Some <$> q.*1)).
  destruct (pairs_range _ _ _ (matches_in _ _ _ Hq)) as [Hl Hr]. fold ps in Hl, Hr.
  assert (E1 : ps.*1 = Some <$> q.*2) by (apply fst_zip; by rewrite !length_fmap).
  assert (E2 : ps.*2 = Some <$> q.*1) by (apply snd_zip; by rewrite !length_fmap).
  rewrite <- E1, <- E2, build_batch_pairs by (intros; auto). cbn [try_bind]. do 2 f_equal.
  unfold filter_ok in Hf. unfold ps. clear -Hf. induction q as [|x q IH]; [done|]. cbn. f_equal; [|exact IH].
  f_equal. symmetry. apply (pair_row Inner _ ls rs (Some x.2, Some x.1) (Both x.2 x.1)); done.
Qed.

Lemma filter_chunks_ok f ls rs (q : list (nat * nat)) jt max_size fuel :
  filter_ok f → pairs_in (length ls) (length rs) q → 0 < max_size → length q ≤ fuel →
  filter_chunks fuel f ls rs (Some <$> q.*2) (Some <$> q.*1) SideLeft jt max_size =
  Some (Ok ((λ x, filter_expression f (output_row (filter_column_indices f)
                    (Both (row_of ls x.2) (row_of rs x.1)))) <$> q)).
Proof.
  intros Hf Hq Hmax. revert q Hq. induction fuel as [|fuel IH]; intros q Hq Hlen; [destruct q; [done|cbn in Hlen; lia]|].
  destruct q as [|x q]; [done|]. cbn [filter_chunks fmap list_fmap]. remember (x :: q) as q0 eqn:E.
  replace (Some x.2 :: (Some <$> q.*2)) with (Some <$> q0.*2) by (by rewrite E).
  replace (Some x.1 :: (Some <$> q.*1)) with (Some <$> q0.*1) by (by rewrite E).
  rewrite <- !fmap_take, <- !fmap_drop. unfold pairs_in in *.
  rewrite filter_mask_ok; [|done|by apply Forall_take]. cbn [try_bind].
  rewrite IH; [|by apply Forall_drop|rewrite length_drop; subst; cbn in *; lia]. cbn [try_bind].
  rewrite <- fmap_app, take_drop. by rewrite E.
Qed.

(** The filter keeps the pairs it accepts, whether evaluated at once or in
    slices. *)
Lemma apply_join_filter_ok f ls rs (q : list (nat * nat)) max jt :
  filter_ok f → pairs_in (length ls) (length rs) q → max ≠ Some 0 →
  let q' := filter (λ x, filter_match (Some f) (row_of ls x.2) (row_of rs x.1) = true) q in
  apply_join_filter_to_indices ls rs (Some <$> q.*2) (Some <$> q.*1) f SideLeft max jt =
  Some (Ok (Some <$> q'.*2, Some <$> q'.*1)).
Proof.
  intros Hf Hq Hmax. cbn zeta. unfold apply_join_filter_to_indices.
  destruct (bool_decide _ && bool_decide _) eqn:E.
  { apply andb_true_iff in E as [E _]. apply bool_decide_eq_true in E. by destruct q. }
  replace (match max with Some _ => _ | None => _ end) with (Some (Ok ((λ x, filter_expression f
    (output_row (filter_column_indices f) (Both (row_of ls x.2) (row_of rs x.1)))) <$> q))).
  - cbn [try_bind]. rewrite <- !list_fmap_compose, !compute_filter_fmap. cbn [filter_match].
    rewrite (list_filter_iff _ (λ x, bool_decide (filter_expression f (output_row (filter_column_indices f)
      (Both (row_of ls x.2) (row_of rs x.1))) = Some true) = true)); [done|].
    intros x. by rewrite bool_decide_eq_true.
  - destruct max as [max|]; [|by rewrite filter_mask_ok].
    rewrite bool_decide_false by congruence. rewrite filter_chunks_ok; [done|done|done|destruct max; [done|lia]|].
    by rewrite !length_fmap.
Qed.

End JoinRows.
