(* ===== verification/HashJoinCorrect.v ===== *)
(** * Correctness of the hash join stream

    The stream of HashJoinStream.v against the reference semantics of
    JoinTypes.v: the build side and what either of its indexes, hash map or array,
    offers for a probe batch; the matches of the batch; and from indices to rows. *)

From stdpp Require Import base list strings gmap sorting.
From Stdlib Require Import ZArith Lia.
From S2P Require Import Prelude F64 Relation HashUtils JoinTypes JoinHashMap ArrayMap JoinIndices Coalesce BloomExec Transfer PhysicalPlan HashJoinStream HashJoinRows.

Module JoinParts.
Import Plan.

(** ** The two parts of a join's output *)

(** What the probe phase outputs, and what the build side adds at the end. *)
Definition right_part (jt : JoinType) (m : row → row → bool) (ls rs : list row) : list (jout row row) :=
  let rm := right_matched m ls in
  match jt with
  | Inner | Left => probe_order m ls rs
  | Right | Full => probe_order m ls rs ++ (RightOnly <$> filter (λ r, rm r = false) rs)
  | RightSemi => RightOnly <$> filter (λ r, rm r = true) rs
  | RightAnti => RightOnly <$> filter (λ r, rm r = false) rs
  | RightMark => (λ r, RightMarked r (rm r)) <$> rs
  | LeftSemi | LeftAnti | LeftMark => []
  end.

Definition left_part (jt : JoinType) (m : row → row → bool) (ls rs : list row) : list (jout row row) :=
  let lm := left_matched m rs in
  match jt with
  | Left | Full | LeftAnti => LeftOnly <$> filter (λ l, lm l = false) ls
  | LeftSemi => LeftOnly <$> filter (λ l, lm l = true) ls
  | LeftMark => (λ l, LeftMarked l (lm l)) <$> ls
  | _ => []
  end.

Lemma probe_order_pairs m ls rs : probe_order m ls rs ≡ₚ inner_pairs m ls rs.
Proof.
  induction rs as [|r rs IH]; [by rewrite inner_pairs_nil_r|].
  rewrite inner_pairs_cons_r, <- IH. done.
Qed.

Lemma parts_spec jt m ls rs : right_part jt m ls rs ++ left_part jt m ls rs ≡ₚ join_spec jt m ls rs.
Proof.
  destruct jt; cbn [right_part left_part join_spec app]; rewrite ?app_nil_r, ?probe_order_pairs; try done.
  rewrite <- (assoc_L (++)). f_equiv. apply Permutation_app_comm.
Qed.

Lemma probe_order_app m ls rs1 rs2 : probe_order m ls (rs1 ++ rs2) = probe_order m ls rs1 ++ probe_order m ls rs2.
Proof. unfold probe_order. by rewrite bind_app. Qed.

Lemma right_part_app jt m ls rs1 rs2 :
  right_part jt m ls rs1 ++ right_part jt m ls rs2 ≡ₚ right_part jt m ls (rs1 ++ rs2).
Proof.
  destruct jt; cbn [right_part]; rewrite ?probe_order_app, ?filter_app, ?fmap_app; try done.
  all: rewrite <- !(assoc_L (++)); f_equiv; rewrite !(assoc_L (++)); f_equiv; apply Permutation_app_comm.
Qed.

Lemma right_part_nil jt m ls : right_part jt m ls [] = [].
Proof. by destruct jt. Qed.

(** Both parts are read off the rows, not their order. *)
Lemma left_part_perm jt m ls ls' rs : ls ≡ₚ ls' → left_part jt m ls rs ≡ₚ left_part jt m ls' rs.
Proof. intros Hls. destruct jt; cbn [left_part]; try done; by rewrite Hls. Qed.

(** Over an empty build side nothing matches. *)
Lemma right_part_empty jt m rs :
  right_part jt m [] rs = match jt with
                          | Right | Full | RightAnti => RightOnly <$> rs
                          | RightMark => (λ r, RightMarked r false) <$> rs
                          | _ => []
                          end.
Proof.
  assert (Hp : probe_order m [] rs = []) by (induction rs; [done|exact IHrs]).
  assert (Ha : filter (λ r, right_matched m [] r = false) rs = rs).
  { induction rs as [|r rs IH]; [done|]. rewrite filter_cons, decide_True by done. f_equal. by apply IH. }
  assert (Hn : filter (λ r, right_matched m [] r = true) rs = []) by apply filter_none.
  destruct jt; cbn [right_part]; rewrite ?Hp, ?Ha, ?Hn; done.
Qed.

End JoinParts.

Module JoinBuild.
Import HashJoinStream JoinBatch JoinRows JoinIndices.
Import JoinHashMap(update_from_iter, with_capacity, built, rows_with, build_ok, pairs_from).
Section Build.
Context `{Foldhash}.

(** ** The build side *)

Definition key_cells (on : list PhysicalExpr) (r : row) : row := (λ e, Expr.evaluate e r) <$> on.
Definition key_hash (on : list PhysicalExpr) (r : row) : N := HashUtils.row_hash (key_cells on r).

Lemma create_key_hashes_ok on batch :
  create_key_hashes (evaluate_expressions on batch) (length batch) = key_hash on <$> batch.
Proof.
  apply list_eq. intros i. rewrite list_lookup_fmap. unfold create_key_hashes.
  destruct (decide (i < length batch)) as [Hi|Hi].
  - rewrite lookup_tab by done. destruct (lookup_lt_is_Some_2 batch i Hi) as [r Hr]. rewrite Hr. cbn.
    unfold key_hash. do 2 f_equal. unfold key_row, evaluate_expressions, key_cells. rewrite map_map.
    apply list_fmap_ext. intros k e _.
    change (map (Expr.evaluate e) batch) with (Expr.evaluate e <$> batch). by rewrite list_lookup_fmap, Hr.
  - by rewrite !lookup_ge_None_2 by (rewrite ?length_tab; lia).
Qed.

(** The rows of a batch from [offset], in order, with their hashes. *)
Definition block (on : list PhysicalExpr) (offset : nat) (batch : list row) : list (nat * N) :=
  imap (λ i r, (i + offset, key_hash on r)) batch.

Fixpoint build_ops (on : list PhysicalExpr) (batches : list (list row)) (offset : nat) : list (nat * N) :=
  match batches with
  | [] => []
  | batch :: batches => reverse (block on offset batch) ++ build_ops on batches (offset + length batch)
  end.

Lemma update_from_iter_app tmax d m ops1 ops2 :
  update_from_iter tmax d m (ops1 ++ ops2) = (m' ← update_from_iter tmax d m ops1; update_from_iter tmax d m' ops2).
Proof.
  revert m. induction ops1 as [|p ops1 IH]; intros m; [done|]. cbn.
  destruct (JoinHashMap.update_step _ _ _ _); [apply IH|done].
Qed.

Lemma build_loop_ops tmax on batches offset m :
  build_loop tmax on batches offset m = update_from_iter tmax 0 m (build_ops on batches offset).
Proof.
  revert offset m. induction batches as [|b batches IH]; intros offset m; [done|].
  cbn [build_loop build_ops]. rewrite update_from_iter_app. unfold update_hash. rewrite create_key_hashes_ok.
  replace (imap (λ i val, (i + offset, val)) (key_hash on <$> b)) with (block on offset b).
  - destruct (update_from_iter _ _ _ _); [apply IH|done].
  - unfold block. by rewrite imap_fmap.
Qed.

Lemma block_rows on offset b : (block on offset b).*1 = seq offset (length b).
Proof.
  unfold block. revert offset. induction b as [|r b IH]; intros offset; [done|]. rewrite imap_cons. cbn. f_equal.
  rewrite <- IH. f_equal. apply imap_ext. intros i r' _. cbn. f_equal. lia.
Qed.

(** The inserted rows, last first: the batches in their original order. *)
Lemma build_ops_order on batches offset pre :
  length pre = offset →
  let order := reverse (build_ops on batches offset) in
  let all := pre ++ concat batches in
  order.*1 ≡ₚ seq offset (length (concat batches)) ∧
  row_of all <$> order.*1 = concat (reverse batches) ∧
  Forall (λ x, x.2 = key_hash on (row_of all x.1)) order.
Proof.
  revert offset pre. induction batches as [|b batches IH]; intros offset pre Hpre; cbn [build_ops concat]; [done|].
  destruct (IH (offset + length b) (pre ++ b)) as (Hp & Hr & Hh); [rewrite length_app; lia|]. cbn zeta in *.
  rewrite <- (assoc_L (++)) in Hr, Hh. rewrite reverse_app, reverse_involutive, !fmap_app, block_rows, length_app.
  split_and!.
  - rewrite seq_app, Hp. apply Permutation_app_comm.
  - rewrite Hr, reverse_cons, concat_app. cbn. rewrite app_nil_r. f_equal.
    apply list_eq. intros i. rewrite list_lookup_fmap. destruct (decide (i < length b)) as [Hi|Hi].
    + rewrite lookup_seq_lt by done. cbn. unfold row_of. rewrite lookup_app_r by lia.
      rewrite lookup_app_l by lia. replace (offset + i - length pre) with i by lia.
      by destruct (lookup_lt_is_Some_2 b i Hi) as [r ->].
    + rewrite lookup_seq_ge by lia. by rewrite lookup_ge_None_2 by lia.
  - apply Forall_app. split; [done|]. apply Forall_forall. intros x Hx.
    unfold block in Hx. apply elem_of_lookup_imap in Hx as (i & r & -> & Hi). cbn. f_equal.
    pose proof (lookup_lt_Some _ _ _ Hi). unfold row_of. rewrite lookup_app_r by lia.
    rewrite lookup_app_l by lia. replace (i + offset - length pre) with i by lia. by rewrite Hi.
Qed.

(** *** Integer keys *)

Definition int_keys (e : PhysicalExpr) (batch : list row) : list (option Z) :=
  (λ r, Expr.evaluate e r ≫= int_of) <$> batch.

(** A cell of type [ty]; integers are in the range of their type. *)
Definition cell_fits (ty : DataType) (c : option value) : Prop :=
  match c with
  | None => True
  | Some v => value_type v = ty ∧ ∀ t z, int_type ty = Some t → int_of v = Some z → ArrayMap.in_type t z
  end.

Definition key_fits (ty : DataType) (e : PhysicalExpr) (r : row) : Prop := cell_fits ty (Expr.evaluate e r).

Lemma int_of_typed ty t v : int_type ty = Some t → value_type v = ty → ∃ z, int_of v = Some z.
Proof. destruct v; cbn; intros E <-; (discriminate E || by eexists). Qed.

Lemma int_of_inj v w : value_type v = value_type w → int_of v = int_of w → int_of v ≠ None → v = w.
Proof. destruct v, w; cbn; naive_solver congruence. Qed.

Lemma int_cells_ok ty t e batch :
  int_type ty = Some t → Forall (key_fits ty e) batch →
  mapM (int_cell ty) (map (Expr.evaluate e) batch) = Some (int_keys e batch).
Proof.
  intros Ht HF. induction HF as [|r batch Hr HF IH]; [done|]. cbn [map mapM int_keys fmap list_fmap]. rewrite IH.
  unfold key_fits in Hr. destruct (Expr.evaluate e r) as [v|]; [|done]. destruct Hr as [Hty _]. cbn [int_cell].
  rewrite decide_True by done. cbn [mbind option_bind]. destruct (int_of_typed ty t v Ht Hty) as [z ->]. done.
Qed.

Lemma int_keys_typed ty t e batch :
  int_type ty = Some t → Forall (key_fits ty e) batch → Forall (ArrayMap.probe_typed t) (int_keys e batch).
Proof.
  intros Ht HF. apply Forall_fmap. eapply Forall_impl; [exact HF|]. intros r Hr. cbn. unfold key_fits in Hr.
  destruct (Expr.evaluate e r) as [v|]; [|done]. destruct Hr as [_ Hr]. cbn.
  destruct (int_of v) eqn:E; [|done]. by apply (Hr t).
Qed.

(** *** What probing relies on *)

(** The rows a hash map was filled with, or the one integer key of an array map. *)
Inductive map_index :=
| HashIndex (ops : list (nat * N))
| ArrayIndex (ty : DataType) (t : ArrayMap.IntType) (el er : PhysicalExpr).

Definition index_ok (ne : NullEquality) (on : list (PhysicalExpr * PhysicalExpr)) (ld : JoinLeftData) (ix : map_index)
    (order : list nat) : Prop :=
  match ix, ld_map ld with
  | HashIndex ops, HashMap m =>
      built ops m ∧ ∀ h, rows_with h ops = filter (λ i, key_hash on.*1 (row_of (ld_batch ld) i) = h) order
  | ArrayIndex ty t el er, ArrayMap m =>
      on = [(el, er)] ∧ int_type ty = Some t ∧ Forall (key_fits ty el) (ld_batch ld) ∧
      ArrayMap.built t (int_keys el (ld_batch ld)) m ∧ order = seq 0 (length (ld_batch ld)) ∧
      (ne = NullEqualsNull → Forall (λ r, Expr.evaluate el r ≠ None) (ld_batch ld))
  | _, _ => False
  end.

Record left_ok (ne : NullEquality) (on : list (PhysicalExpr * PhysicalExpr)) (ls : list row) (ld : JoinLeftData)
    (ix : map_index) (order : list nat) : Prop := {
  lo_index : index_ok ne on ld ix order;
  lo_values : ld_values ld = evaluate_expressions on.*1 (ld_batch ld);
  lo_rows : row_of (ld_batch ld) <$> order = ls;
  lo_perm : order ≡ₚ seq 0 (length (ld_batch ld));
  lo_empty : map_is_empty (ld_map ld) = true ↔ ls = [];
}.

Lemma rows_with_order ops f h :
  Forall (λ x, x.2 = f x.1) (reverse ops) → rows_with h ops = filter (λ i, f i = h) (reverse ops).*1.
Proof.
  unfold rows_with. intros Hf. rewrite <- fmap_reverse, <- filter_reverse.
  induction Hf as [|x l Hx Hl IH]; [done|]. cbn [fmap list_fmap]. rewrite !filter_cons, Hx.
  destruct (decide (f x.1 = h)); cbn [fmap list_fmap]; by rewrite IH.
Qed.

Lemma try_collect_ok batches : try_collect (Ok <$> batches) = Ok batches.
Proof. induction batches as [|b batches IH]; [done|]. cbn. by rewrite IH. Qed.

Lemma concat_reverse_perm {A} (l : list (list A)) : concat (reverse l) ≡ₚ concat l.
Proof.
  induction l as [|x l IH]; [done|]. rewrite reverse_cons, concat_app. cbn. rewrite app_nil_r, IH.
  apply Permutation_app_comm.
Qed.

(** The hash map. *)
Lemma build_hash_map_ok batches ne on :
  let ls := concat batches in
  (N.of_nat (length ls) <= u64_max)%N →
  ∃ ld ix order, build_hash_map on.*1 batches = Some ld ∧ left_ok ne on ls ld ix order ∧
    length (ld_batch ld) = length ls ∧ ∃ ops, ix = HashIndex ops.
Proof.
  intros ls Hmax. unfold build_hash_map. fold ls.
  set (tmax := if (u32_max <? N.of_nat (length ls))%N then u64_max else u32_max).
  assert (Htm : (N.of_nat (length ls) <= tmax)%N).
  { unfold tmax. destruct (N.ltb_spec u32_max (N.of_nat (length ls))); lia. }
  assert (Hlen : length (concat (reverse batches)) = length ls) by (by rewrite concat_reverse_perm).
  rewrite build_loop_ops. set (ops := build_ops on.*1 (reverse batches) 0).
  destruct (build_ops_order on.*1 (reverse batches) 0 [] eq_refl) as (Hp & Hr & Hh). cbn zeta in *.
  rewrite app_nil_l, Hlen in *. rewrite reverse_involutive in Hr. fold ops in Hp, Hr, Hh.
  assert (Hperm : ops.*1 ≡ₚ seq 0 (length ls)) by (by rewrite <- Hp, fmap_reverse, reverse_Permutation).
  destruct (build_ok tmax (length ls) ops) as (m & -> & Hb & Hl).
  { rewrite Hperm. apply NoDup_seq. }
  { apply Forall_forall. intros x Hx. assert (Hin : x.1 ∈ seq 0 (length ls)).
    { rewrite <- Hperm. by apply list_elem_of_fmap_2. }
    apply elem_of_seq in Hin. lia. }
  cbn [mbind option_bind]. eexists _, (HashIndex ops), (reverse ops).*1. split; [done|]. split; [|by eauto].
  split; cbn [ld_map ld_batch ld_values]; [|done|done|by rewrite Hlen|].
  - split; [done|]. intros h. by apply rows_with_order.
  - unfold map_is_empty. cbn [num_of_distinct_key].
    rewrite bool_decide_eq_true, map_size_empty_iff, <- dom_empty_iff_L, (JoinHashMap.b_dom _ _ Hb). split.
    + intros He. assert (ops = []) as Ho by (destruct ops as [|x ops']; [done|set_solver]).
      rewrite Ho in Hperm. apply Permutation_length in Hperm. rewrite length_seq in Hperm. by destruct ls.
    + intros Hls. assert (ops = []) as ->; [|done]. rewrite Hls in Hperm.
      apply Permutation_length in Hperm. by destruct ops.
Qed.

(** *** The array map *)

Lemma foldl_concat {A B} (f : A → B → A) a (ls : list (list B)) : foldl (foldl f) a ls = foldl f a (concat ls).
Proof. revert a. induction ls as [|l ls IH]; intros a; [done|]. cbn. by rewrite foldl_app, IH. Qed.

Lemma accumulate_bound f (R : Z → Z → Prop) `{!Transitive R, !Reflexive R} (l : list (option Z)) :
  (∀ x y, f x y = x ∨ f x y = y) → (∀ x y, R (f x y) x ∧ R (f x y) y) →
  match foldl (accumulate f) None l with
  | Some a => Some a ∈ l ∧ ∀ v, Some v ∈ l → R a v
  | None => ∀ v, Some v ∉ l
  end.
Proof.
  intros Hf HR. induction l as [|x l IH] using rev_ind; [by intros v ?%elem_of_nil|]. rewrite foldl_app. cbn.
  destruct (foldl (accumulate f) None l) as [a|], x as [x|]; cbn.
  - destruct IH as [Ha Hall]. destruct (HR a x) as [Rx Ry]. split.
    + destruct (Hf a x) as [->| ->]; [set_solver|]. apply elem_of_app. right. by apply list_elem_of_singleton.
    + intros v [Hv|[= ->]%list_elem_of_singleton]%elem_of_app; [|done]. etransitivity; [exact Rx|by apply Hall].
  - destruct IH as [Ha Hall]. split; [set_solver|]. intros v [Hv|?%list_elem_of_singleton]%elem_of_app; [by apply Hall|done].
  - split; [apply elem_of_app; right; by apply list_elem_of_singleton|].
    intros v [Hv|[= ->]%list_elem_of_singleton]%elem_of_app; [by apply IH in Hv|done].
  - intros v [Hv|?%list_elem_of_singleton]%elem_of_app; [by apply IH in Hv|done].
Qed.

(** The bounds are the least and the largest key. *)
Lemma column_bounds_ok t cols :
  ∃ mn mx, column_bounds t cols = (ArrayMap.IntScalar t mn, ArrayMap.IntScalar t mx) ∧
    match mn, mx with
    | Some a, Some b => Some a ∈ concat cols ∧ Some b ∈ concat cols ∧ ∀ v, Some v ∈ concat cols → (a <= v <= b)%Z
    | None, None => ∀ v, Some v ∉ concat cols
    | _, _ => False
    end.
Proof.
  eexists _, _. split; [done|]. rewrite !foldl_concat.
  pose proof (accumulate_bound Z.min Z.le (concat cols) ltac:(lia) ltac:(lia)) as Hmin.
  assert (Transitive Z.ge) as Htr by (intros x y z; lia). assert (Reflexive Z.ge) as Hrf by (intros x; lia).
  pose proof (accumulate_bound Z.max Z.ge (concat cols) ltac:(lia) ltac:(lia)) as Hmax.
  destruct (foldl (accumulate Z.min) _ _) as [a|], (foldl (accumulate Z.max) _ _) as [b|]; [|..|done].
  - destruct Hmin as [Ha Hmin], Hmax as [Hb Hmax]. split_and!; [done|done|]. intros v Hv.
    specialize (Hmin v Hv). specialize (Hmax v Hv). lia.
  - destruct Hmin as [Ha _]. by apply Hmax in Ha.
  - destruct Hmax as [Hb _]. by apply Hmin in Hb.
Qed.

Lemma int_keys_concat e batches : int_keys e (concat batches) = concat (int_keys e <$> batches).
Proof. unfold int_keys. induction batches as [|b bs IH]; [done|]. cbn. by rewrite fmap_app, IH. Qed.

Lemma collect_bounds_ok ty t e schema batches :
  Expr.data_type e schema = Ok ty → int_type ty = Some t → Forall (key_fits ty e) (concat batches) →
  collect_bounds [e] schema batches =
  Some (if bool_decide (0 < length (concat batches)) then Some (column_bounds t (int_keys e <$> batches)) else None).
Proof.
  intros Hd Ht HF. unfold collect_bounds. rewrite Hd, Ht.
  assert (E : mapM (λ batch, mapM (int_cell ty) (map (Expr.evaluate e) batch)) batches = Some (int_keys e <$> batches)).
  { induction batches as [|b bs IH]; [done|]. cbn in HF. apply Forall_app in HF as [Hb HF].
    cbn [mapM]. rewrite (int_cells_ok ty t e b Ht Hb). cbn [mbind option_bind]. by rewrite (IH HF). }
  by rewrite E.
Qed.

Lemma no_nulls e (batches : list (list row)) :
  existsb (λ batch, bool_decide (0 < HashUtils.null_count (map (Expr.evaluate e) batch))) batches = false →
  Forall (λ r, Expr.evaluate e r ≠ None) (concat batches).
Proof.
  intros Hex. apply Forall_forall. intros r Hr Hn. apply not_true_iff_false in Hex. apply Hex, existsb_exists.
  apply list_elem_of_In, in_concat in Hr as (b & Hb & Hr). exists b. split; [done|]. apply bool_decide_eq_true.
  unfold HashUtils.null_count.
  assert (Hin : None ∈ filter (λ o : option value, o = None) (map (Expr.evaluate e) b)).
  { apply list_elem_of_filter. split; [done|]. rewrite <- Hn. by apply list_elem_of_In, in_map. }
  destruct (filter _ _); [by apply elem_of_nil in Hin|cbn; lia].
Qed.

Lemma row_of_seq (ls : list row) : row_of ls <$> seq 0 (length ls) = ls.
Proof.
  apply list_eq. intros i. rewrite list_lookup_fmap. destruct (decide (i < length ls)) as [Hi|Hi].
  - rewrite lookup_seq_lt by done. cbn. unfold row_of. by destruct (lookup_lt_is_Some_2 ls i Hi) as [r ->].
  - rewrite lookup_seq_ge by lia. by rewrite lookup_ge_None_2 by lia.
Qed.

(** The array map is created or not, by the guards; if so it answers for the keys. *)
Lemma try_create_ok cfg ty t el er batches bounds :
  on_left cfg = [el] → Expr.data_type el (left_schema cfg) = Ok ty → int_type ty = Some t →
  Forall (key_fits ty el) (concat batches) →
  (bounds = None ∨ bounds = Some (column_bounds t (int_keys el <$> batches))) →
  try_create_array_map cfg bounds batches = Some (Ok None) ∨
  ∃ am, try_create_array_map cfg bounds batches =
          Some (Ok (Some (am, concat batches, evaluate_expressions [el] (concat batches)))) ∧
    left_ok (null_equality cfg) [(el, er)] (concat batches)
      {| ld_map := ArrayMap am; ld_batch := concat batches; ld_values := evaluate_expressions [el] (concat batches) |}
      (ArrayIndex ty t el er) (seq 0 (length (concat batches))).
Proof.
  intros Hon Hd Ht HF Hbounds. unfold try_create_array_map. rewrite Hon.
  destruct (bool_decide (null_equality cfg = NullEqualsNull) && _) eqn:Hnulls; [by left|].
  destruct Hbounds as [->| ->]; [by left|].
  destruct (column_bounds_ok t (int_keys el <$> batches)) as (mn & mx & -> & Hb). rewrite <- int_keys_concat in Hb.
  destruct mn as [mn|], mx as [mx|]; [|done|done|by left]. destruct Hb as (Hmn & Hmx & Hb).
  pose proof (int_keys_typed ty t el _ Ht HF) as Htyped. rewrite Forall_forall in Htyped.
  pose proof (Htyped _ Hmn) as Tmn. pose proof (Htyped _ Hmx) as Tmx. cbn in Tmn, Tmx.
  pose proof (Hb _ Hmx) as Hle. cbn [scalar_is_null scalar_gt ArrayMap.key_to_u64].
  rewrite !bool_decide_false by done. cbn [orb]. destruct (Z.ltb_spec mx mn); [lia|].
  destruct (Z.leb_spec (Z.of_N u32_max) (Z.of_nat (length (concat batches)))) as [|Hrows]; [by left|].
  unfold ArrayMap.calculate_range. rewrite (ArrayMap.slot_inside t mn mx mx) by (done || lia).
  destruct (Z.eqb_spec (mx - mn) usize_max) as [|Hrange]; [by left|].
  destruct (_ && f64_le _ _); [by left|]. right. rewrite Hd. cbn [try_bind]. unfold key_array. rewrite Ht.
  rewrite (int_cells_ok ty t el _ Ht HF). cbn [mbind option_bind].
  destruct (ArrayMap.try_new_ok t mn mx (int_keys el (concat batches))) as (am & E & Ham); [done|done|lia| | |done|].
  { pose proof (ArrayMap.type_width t). unfold ArrayMap.in_type in *. unfold usize_max in *. lia. }
  { unfold int_keys. rewrite length_fmap. unfold u32_max in Hrows. lia. }
  rewrite E. cbn [try_bind]. exists am. split; [done|]. split; cbn [ld_map ld_batch ld_values].
  - cbn. split_and!; try done. intros Hne. rewrite Hne in Hnulls. by apply no_nulls.
  - done.
  - apply row_of_seq.
  - done.
  - unfold map_is_empty. cbn [num_of_distinct_key]. rewrite bool_decide_eq_true, (ArrayMap.am_distinct _ _ _ Ham). split.
    + intros Hs%size_empty_inv. exfalso. apply ArrayMap.elem_of_distinct in Hmn. set_solver.
    + intros Hls. rewrite Hls in Hmn. by apply elem_of_nil in Hmn.
Qed.

(** The one key of a join has the same type on both sides, and the rows fit it. *)
Definition keys_typed (cfg : HashJoinConfig) (on : list (PhysicalExpr * PhysicalExpr)) (ls rs : list row) : Prop :=
  ∀ el er, on = [(el, er)] → ∃ ty, Expr.data_type el (left_schema cfg) = Ok ty ∧
    Expr.data_type er (right_schema cfg) = Ok ty ∧ Forall (key_fits ty el) ls ∧ Forall (key_fits ty er) rs.

(** Probe rows an index can be asked for. *)
Definition probe_fits (cfg : HashJoinConfig) (ix : map_index) (rs : list row) : Prop :=
  match ix with
  | HashIndex _ => True
  | ArrayIndex ty _ _ er => Expr.data_type er (right_schema cfg) = Ok ty ∧ Forall (key_fits ty er) rs
  end.

Lemma probe_fits_app cfg ix rs1 rs2 : probe_fits cfg ix (rs1 ++ rs2) ↔ probe_fits cfg ix rs1 ∧ probe_fits cfg ix rs2.
Proof. destruct ix; cbn; rewrite ?Forall_app; naive_solver. Qed.

Lemma collect_left_input_ok cfg on batches rs bitmap threads :
  let ls := concat batches in
  on_left cfg = on.*1 → (N.of_nat (length ls) <= u64_max)%N → keys_typed cfg on ls rs →
  ∃ ld ix order, collect_left_input cfg (Ok <$> batches) bitmap threads =
    Some (Ok (ld, {| visited_indices_bitmap := if bitmap then replicate (length ls) false else [];
                     probe_threads_counter := threads;
                     probe_side_non_empty := false; probe_side_has_null := false |})) ∧
    left_ok (null_equality cfg) on ls ld ix order ∧ length (ld_batch ld) = length ls ∧ probe_fits cfg ix rs.
Proof.
  intros ls Hon Hmax Htyped. unfold collect_left_input. rewrite try_collect_ok. fold ls.
  destruct (build_hash_map_ok batches (null_equality cfg) on Hmax) as (ldh & ixh & orderh & Eh & Hloh & Hlh & opsh & ->).
  destruct on as [|[el er] [|p on]].
  - rewrite Hon. cbn [should_collect_min_max_for_perfect_hash fmap list_fmap try_bind mbind option_bind].
    unfold try_create_array_map. rewrite Hon. cbn [fmap list_fmap try_bind] in *. rewrite Eh. cbn.
    eexists _, (HashIndex opsh), orderh. by split_and!.
  - destruct (Htyped el er eq_refl) as (ty & Hdl & Hdr & HFl & HFr). cbn [fmap list_fmap fst] in Hon, Eh.
    rewrite Hon. cbn [should_collect_min_max_for_perfect_hash]. rewrite Hdl. cbn [mbind Result_bind try_bind].
    assert (Hany : ∀ bounds, try_create_array_map cfg bounds batches = Some (Ok None) →
      ∃ ld ix order, (array ←? try_create_array_map cfg bounds batches;
        left_data ← match array with
          | Some (array_map, batch, left_values) =>
              Some {| ld_map := ArrayMap array_map; ld_batch := batch; ld_values := left_values |}
          | None => build_hash_map [el] batches end;
        Some (Ok (left_data, {| visited_indices_bitmap := if bitmap then replicate (length ls) false else [];
           probe_threads_counter := threads; probe_side_non_empty := false; probe_side_has_null := false |}))) =
        Some (Ok (ld, {| visited_indices_bitmap := if bitmap then replicate (length ls) false else [];
           probe_threads_counter := threads; probe_side_non_empty := false; probe_side_has_null := false |})) ∧
        left_ok (null_equality cfg) [(el, er)] ls ld ix order ∧ length (ld_batch ld) = length ls ∧ probe_fits cfg ix rs).
    { intros bounds ->. cbn [try_bind]. rewrite Eh. cbn. eexists _, (HashIndex opsh), orderh. by split_and!. }
    destruct (int_type ty) as [t|] eqn:Et.
    + rewrite bool_decide_true by done. rewrite (collect_bounds_ok ty t) by done. cbn [mbind option_bind].
      set (bounds := if bool_decide _ then _ else _).
      destruct (try_create_ok cfg ty t el er batches bounds) as [E|(am & E & Ham)]; try done.
      { unfold bounds. case_bool_decide; auto. }
      { by apply Hany. }
      rewrite E. cbn. eexists _, (ArrayIndex ty t el er), _. split_and!; [done|exact Ham|done|by split].
    + rewrite bool_decide_false by (by intros []). cbn [mbind option_bind]. apply Hany.
      unfold try_create_array_map. rewrite Hon. by destruct (_ && _).
  - rewrite Hon. cbn [should_collect_min_max_for_perfect_hash fmap list_fmap try_bind mbind option_bind].
    unfold try_create_array_map. rewrite Hon. cbn [fmap list_fmap try_bind] in *. rewrite Eh. cbn.
    eexists _, (HashIndex opsh), orderh. by split_and!.
Qed.

(** ** What the index offers *)

Context (ne : NullEquality) (on : list (PhysicalExpr * PhysicalExpr)) (ls : list row)
        (ld : JoinLeftData) (ix : map_index) (order : list nat) (Hlo : left_ok ne on ls ld ix order).

Abbreviation lbatch := (ld_batch ld).

(** The build rows for a probe row, and the pairs for the rows [rs] numbered from [p]. *)
Definition index_rows (r : row) : list nat :=
  match ix with
  | HashIndex ops => rows_with (key_hash on.*2 r) ops
  | ArrayIndex _ _ el er => ArrayMap.key_rows (int_keys el lbatch) (Expr.evaluate er r ≫= int_of)
  end.

Definition candidates (p : nat) (rs : list row) : list (nat * nat) :=
  match ix with
  | HashIndex ops => pairs_from ops p (key_hash on.*2 <$> rs)
  | ArrayIndex _ _ el er => ArrayMap.key_pairs (int_keys el lbatch) p (int_keys er rs)
  end.

Lemma candidates_cons p r rs : candidates p (r :: rs) = ((λ b, (p, b)) <$> index_rows r) ++ candidates (p + 1) rs.
Proof. unfold candidates, index_rows. by destruct ix. Qed.

Definition row_fits (r : row) : Prop :=
  match ix with HashIndex _ => True | ArrayIndex ty _ _ er => key_fits ty er r end.

(** Same hash, or same integer. *)
Definition offered (r : row) (b : nat) : Prop :=
  match ix with
  | HashIndex _ => key_hash on.*1 (row_of lbatch b) = key_hash on.*2 r
  | ArrayIndex _ _ el er =>
      Expr.evaluate el (row_of lbatch b) ≫= int_of = Expr.evaluate er r ≫= int_of ∧ Expr.evaluate er r ≫= int_of ≠ None
  end.

Lemma rows_of_filter (f : row → option Z) k pre rs :
  ArrayMap.rows_of k (length pre) (f <$> rs) =
  filter (λ b, f (row_of (pre ++ rs) b) = Some k) (seq (length pre) (length rs)).
Proof.
  revert pre. induction rs as [|r rs IH]; intros pre; [done|].
  cbn [fmap list_fmap ArrayMap.rows_of length seq]. rewrite filter_cons.
  assert (Hr : row_of (pre ++ r :: rs) (length pre) = r) by (unfold row_of; by rewrite lookup_app_r, Nat.sub_diag by lia).
  rewrite Hr. specialize (IH (pre ++ [r])). rewrite <- (assoc_L (++)), length_app in IH. cbn [length app] in IH.
  rewrite Nat.add_1_r in IH. destruct (decide (f r = Some k)); by rewrite IH.
Qed.

Lemma index_rows_ok r :
  ∃ Q (dec : ∀ b, Decision (Q b)), index_rows r = filter Q order ∧ ∀ b, Q b ↔ offered r b.
Proof.
  pose proof (lo_index _ _ _ _ _ _ Hlo) as Hix. unfold index_rows, offered, index_ok in *. clear Hlo.
  destruct ix as [ops|ty t el er], (ld_map ld) as [hm|am]; try done.
  - destruct Hix as [_ ->]. by eexists _, _.
  - destruct Hix as (_ & _ & _ & _ & -> & _).
    unfold ArrayMap.key_rows. destruct (Expr.evaluate er r ≫= int_of) as [k|].
    + pose proof (rows_of_filter (λ l, Expr.evaluate el l ≫= int_of) k [] lbatch) as E. cbn [length app] in E.
      eexists _, _. split; [exact E|]. naive_solver.
    + exists (λ _, False), _. split; [|naive_solver]. by induction (seq 0 (length lbatch)).
Qed.

Lemma candidates_in p rs : Forall (λ x, p ≤ x.1 < p + length rs ∧ x.2 < length lbatch) (candidates p rs).
Proof.
  revert p. induction rs as [|r rs IH]; intros p; [unfold candidates; by destruct ix|]. rewrite candidates_cons. apply Forall_app. split.
  - apply Forall_fmap, Forall_forall. intros b Hb. cbn.
    destruct (index_rows_ok r) as (Q & dec & E & _). rewrite E in Hb. apply list_elem_of_filter in Hb as [_ Hb]. rewrite (lo_perm _ _ _ _ _ _ Hlo), elem_of_seq in Hb. lia.
  - eapply Forall_impl; [apply IH|]. cbn. lia.
Qed.

(** What an array map offers has equal keys. *)
Lemma array_offers r b :
  match ix with HashIndex _ => False | ArrayIndex _ _ _ _ => True end → b ∈ order → row_fits r → offered r b →
  keys_match on ne (row_of lbatch b) r = true.
Proof.
  intros Harr Hb Hr Ho. unfold offered, row_fits in *. destruct ix as [|ty t el er]; [done|].
  pose proof (lo_index _ _ _ _ _ _ Hlo) as Hix. unfold index_ok in Hix. destruct (ld_map ld) as [|am]; [done|].
  destruct Hix as (Eon & Ht & HF & _ & Eord & _). rewrite Eon. cbn. rewrite andb_true_r.
  rewrite Eord, elem_of_seq in Hb. destruct (lookup_lt_is_Some_2 lbatch b) as [l Hl]; [lia|].
  pose proof (Forall_lookup_1 _ _ _ _ HF Hl) as Hl'. unfold row_of in *. rewrite Hl in *. cbn in Ho |- *.
  unfold key_fits in *. destruct Ho as [Eo Hn]. destruct (Expr.evaluate er r) as [w|]; [|done].
  destruct (Expr.evaluate el l) as [v|]; [|by rewrite <- Eo in Hn]. cbn in Eo, Hn. destruct Hr as [Hr _], Hl' as [Hv _].
  rewrite (int_of_inj v w) by congruence. cbn. by apply bool_decide_eq_true.
Qed.

Lemma array_candidates pre rs :
  match ix with HashIndex _ => False | ArrayIndex _ _ _ _ => True end → Forall row_fits rs →
  Forall (λ x, keys_match on ne (row_of lbatch x.2) (row_of (pre ++ rs) x.1) = true) (candidates (length pre) rs).
Proof.
  intros Harr. revert pre. induction rs as [|r rs IH]; intros pre HF; [unfold candidates; by destruct ix|].
  apply Forall_cons in HF as [Hr HF]. rewrite candidates_cons. apply Forall_app. split.
  - apply Forall_fmap, Forall_forall. intros b Hb. destruct (index_rows_ok r) as (Q & dec & E & HQ).
    rewrite E in Hb. apply list_elem_of_filter in Hb as [Ho%HQ Hb]. cbn. unfold row_of at 2. rewrite lookup_app_r, Nat.sub_diag by lia.
    by apply array_offers.
  - specialize (IH (pre ++ [r]) HF). rewrite <- (assoc_L (++)), length_app in IH. exact IH.
Qed.

(** *** Pages of the index *)

(** What is left to output at an offset into the batch [P]. *)
Definition left_at (P : list row) (off : MapOffset) (ps : list (nat * nat)) : Prop :=
  match ix, ld_map ld with
  | HashIndex ops, HashMap hm => JoinHashMap.at_offset ops hm (key_hash on.*2 <$> P) off ps
  | ArrayIndex _ _ el er, ArrayMap am =>
      ArrayMap.at_offset (int_keys el lbatch) am (int_keys er P) off ps ∧
      Forall (λ x, keys_match on ne (row_of lbatch x.2) (row_of P x.1) = true) ps
  | _, _ => False
  end.

Lemma left_at_start P : Forall row_fits P → left_at P (0, None) (candidates 0 P).
Proof.
  intros HF. pose proof (lo_index _ _ _ _ _ _ Hlo) as Hix. pose proof (array_candidates [] P) as Hac.
  unfold left_at, candidates, index_ok in *. destruct ix as [ops|ty t el er], (ld_map ld) as [hm|am]; try done.
  - exact (JoinHashMap.at_row ops hm (key_hash on.*2 <$> P) 0 ltac:(lia)).
  - split; [exact (ArrayMap.at_row _ am (int_keys er P) 0 ltac:(lia))|by apply Hac].
Qed.

(** The next page of either map. *)
Definition index_page (P : list row) : nat → MapOffset → option (JoinHashMap.page * option MapOffset) :=
  match ix, ld_map ld with
  | HashIndex _, HashMap hm => JoinHashMap.get_matched_indices_with_limit_offset hm (key_hash on.*2 <$> P)
  | ArrayIndex _ _ _ er, ArrayMap am => ArrayMap.lookup_and_get_indices am (int_keys er P)
  | _, _ => λ _ _, None
  end.

Lemma index_pager P : Forall row_fits P → JoinHashMap.Pager (length P) (index_page P) (left_at P).
Proof.
  intros HF. pose proof (lo_index _ _ _ _ _ _ Hlo) as Hix.
  unfold index_page, left_at, index_ok, row_fits in *. destruct ix as [ops|ty t el er], (ld_map ld) as [hm|am]; try done.
  - destruct Hix as [Hb _]. pose proof (JoinHashMap.hash_pager ops hm Hb (key_hash on.*2 <$> P)) as Hp.
    by rewrite length_fmap in Hp.
  - destruct Hix as (_ & Ht & _ & Hb & _). pose proof (int_keys_typed ty t er P Ht HF) as Htyped.
    pose proof (ArrayMap.array_pager t _ am Hb (int_keys er P) Htyped) as Hp. split.
    + intros limit off ps0 Hlim [Hat Hkeys].
      destruct (JoinHashMap.pager_page limit off ps0 Hlim Hat) as (pg & off' & ps & E & Hi & Hmi & Hlen & Ho).
      exists pg, off', ps. split_and!; try done. destruct off' as [o|]; [|done].
      destruct Ho as (ps1 & -> & Hat1 & ? & ?). apply Forall_app in Hkeys as [_ Hkeys]. exists ps1. by split_and!.
    + intros off ps [Hat _]. pose proof (JoinHashMap.pager_bound off ps Hat) as Hbd. unfold int_keys in Hbd.
      by rewrite length_fmap in Hbd.
Qed.

(** ** Matches of a probe batch *)

Context (m : row → row → bool) (Hm : ∀ l r, m l r = true → keys_match on ne l r = true).

Fixpoint matches_from (p : nat) (rs : list row) : list (nat * nat) :=
  match rs with
  | [] => []
  | r :: rs => ((λ b, (p, b)) <$> filter (λ b, m (row_of lbatch b) r = true) order) ++ matches_from (p + 1) rs
  end.

Lemma key_eq_same ne' a b : Transfer.key_eq ne' a b = true → a = b.
Proof. destruct a, b; cbn; try done. by intros ->%bool_decide_eq_true. Qed.

Lemma match_hash l r : m l r = true → key_hash on.*1 l = key_hash on.*2 r.
Proof.
  intros Hk%Hm. unfold key_hash. f_equal. unfold key_cells. unfold keys_match in Hk. rewrite forallb_Forall in Hk.
  clear Hlo Hm. induction Hk as [|p on' Hp Hk IH]; [done|]. cbn. f_equal; [by apply key_eq_same in Hp|exact IH].
Qed.

(** Rows that include every match of a probe row, filtered, are its matches. *)
Lemma filter_pairs_row (r : row) p (all : list row) (Q : nat → Prop) `{!∀ i, Decision (Q i)} :
  all !! p = Some r → (∀ b, b ∈ order → m (row_of lbatch b) r = true → Q b) →
  filter (λ x, m (row_of lbatch x.2) (row_of all x.1) = true) ((λ b, (p, b)) <$> filter Q order) =
  (λ b, (p, b)) <$> filter (λ b, m (row_of lbatch b) r = true) order.
Proof.
  intros Hr. generalize order. intros ord HQ. induction ord as [|b l IH]; [done|]. rewrite !filter_cons.
  assert (Hrow : row_of all p = r) by (unfold row_of; by rewrite Hr).
  specialize (IH ltac:(intros; apply HQ; [by right|done])).
  destruct (decide (m (row_of lbatch b) r = true)) as [Em|Em].
  - rewrite decide_True by (apply HQ; [left|done]). cbn [fmap list_fmap]. rewrite filter_cons. cbn [fst snd].
    rewrite decide_True by (by rewrite Hrow). by rewrite IH.
  - destruct (decide _); [|by rewrite IH]. cbn [fmap list_fmap]. rewrite filter_cons. cbn [fst snd].
    rewrite decide_False by (by rewrite Hrow). by rewrite IH.
Qed.

(** Every build row that joins is offered. *)
Lemma match_offered r b : b ∈ order → row_fits r → m (row_of lbatch b) r = true → offered r b.
Proof.
  intros Hb Hr Hmr. pose proof (match_hash _ _ Hmr) as Hhash. pose proof (lo_index _ _ _ _ _ _ Hlo) as Hix.
  unfold offered, row_fits, index_ok in *. destruct ix as [ops|ty t el er]; [done|]. destruct (ld_map ld) as [|am]; [done|].
  destruct Hix as (Eon & Ht & HF & _ & Eord & Hnn). apply Hm in Hmr. rewrite Eon in Hmr. cbn in Hmr.
  rewrite andb_true_r in Hmr. rewrite (key_eq_same _ _ _ Hmr). split; [done|]. unfold key_fits in Hr. destruct (Expr.evaluate er r) as [v|] eqn:Ev.
  - destruct Hr as [Hty _]. cbn. by destruct (int_of_typed ty t v Ht Hty) as [z ->].
  - exfalso. destruct ne; cbn in Hmr; [by destruct (Expr.evaluate el _)|].
    rewrite Eord, elem_of_seq in Hb. destruct (lookup_lt_is_Some_2 lbatch b) as [l Hl]; [lia|].
    pose proof (Forall_lookup_1 _ _ _ _ (Hnn eq_refl) Hl) as Hl'. unfold row_of in Hmr. rewrite Hl in Hmr. cbn in Hmr.
    cbn in Hl'. by destruct (Expr.evaluate el l).
Qed.

(** Filtering the candidates leaves exactly the matches. *)
Lemma filter_candidates pre rs :
  Forall row_fits rs →
  filter (λ x, m (row_of lbatch x.2) (row_of (pre ++ rs) x.1) = true) (candidates (length pre) rs) =
  matches_from (length pre) rs.
Proof.
  revert pre. induction rs as [|r rs IH]; intros pre HF; [unfold candidates; by destruct ix|].
  apply Forall_cons in HF as [Hr HF]. rewrite candidates_cons. cbn [matches_from]. rewrite filter_app. f_equal.
  - destruct (index_rows_ok r) as (Q & dec & -> & HQ).
    apply filter_pairs_row; [by rewrite lookup_app_r, Nat.sub_diag by lia|].
    intros b Hb Hmb. apply HQ. by apply match_offered.
  - specialize (IH (pre ++ [r]) HF). rewrite <- (assoc_L (++)), length_app in IH. exact IH.
Qed.

Lemma matches_from_in p rs :
  Forall (λ x, p ≤ x.1 < p + length rs ∧ x.2 < length lbatch) (matches_from p rs).
Proof.
  revert p. induction rs as [|r rs IH]; intros p; cbn [matches_from]; [done|]. apply Forall_app. split.
  - apply Forall_fmap, Forall_forall. intros b [_ Hb]%list_elem_of_filter. cbn.
    rewrite (lo_perm _ _ _ _ _ _ Hlo), elem_of_seq in Hb. lia.
  - eapply Forall_impl; [apply IH|]. cbn. lia.
Qed.

Lemma matches_from_sorted p rs : StronglySorted le (matches_from p rs).*1.
Proof.
  revert p. induction rs as [|r rs IH]; intros p; cbn [matches_from]; [constructor|].
  rewrite fmap_app. apply StronglySorted_app. split_and!; [|..|apply IH].
  - intros i j (x & -> & (b & -> & _)%list_elem_of_fmap)%list_elem_of_fmap (y & -> & Hy)%list_elem_of_fmap.
    pose proof (matches_from_in (p + 1) rs) as HF. rewrite Forall_forall in HF. specialize (HF y Hy). cbn. lia.
  - induction (filter _ order) as [|b l IHl]; [constructor|]. cbn. constructor; [done|].
    apply Forall_fmap, Forall_fmap, Forall_true. intros b'. cbn. lia.
Qed.

(** ** From index output to rows *)

Lemma elem_matches p rs x :
  x ∈ matches_from p rs ↔
  ∃ i r, rs !! i = Some r ∧ x.1 = p + i ∧ x.2 ∈ order ∧ m (row_of lbatch x.2) r = true.
Proof.
  revert p. induction rs as [|r rs IH]; intros p; cbn [matches_from].
  { rewrite elem_of_nil. split; [done|]. by intros (i & r & ? & _). }
  rewrite elem_of_app, list_elem_of_fmap. setoid_rewrite list_elem_of_filter. rewrite IH. split.
  - intros [(b & -> & Hb & Hin)|(i & r' & Hi & Hx & Hin & Hb)].
    + exists 0, r. cbn. by split_and!; [|lia|..].
    + exists (S i), r'. split_and!; [done|lia|done|done].
  - intros ([|i] & r' & Hi & Hx & Hin & Hb); cbn in Hi.
    + injection Hi as ->. left. exists x.2. destruct x as [p' b]. cbn in *. by rewrite Hx, Nat.add_0_r.
    + right. exists i, r'. split_and!; [done|lia|done|done].
Qed.

Lemma matched_row rs i r :
  rs !! i = Some r → JoinIndices.matched (matches_from 0 rs) i = right_matched m ls r.
Proof.
  intros Hi. apply eq_true_iff_eq. unfold JoinIndices.matched. rewrite bool_decide_eq_true, right_matched_true.
  rewrite list_elem_of_fmap. setoid_rewrite elem_matches. rewrite <- (lo_rows _ _ _ _ _ _ Hlo). split.
  - intros (x & -> & i' & r' & Hi' & Hx & Hin & Hb). rewrite Hx in Hi. cbn in Hi. exists (row_of lbatch x.2).
    split; [by apply list_elem_of_fmap_2|]. congruence.
  - intros (l & (b & -> & Hin)%list_elem_of_fmap & Hb). exists (i, b). split; [done|]. exists i, r. by split_and!.
Qed.

(** The visited build rows are those with a match. *)
Lemma visited_row rs b :
  b ∈ order → b ∈ (matches_from 0 rs).*2 ↔ left_matched m rs (row_of lbatch b) = true.
Proof.
  intros Hin. rewrite left_matched_true, list_elem_of_fmap. setoid_rewrite elem_matches. split.
  - intros (x & -> & i & r & Hi & _ & _ & Hb). exists r. split; [by eapply list_elem_of_lookup_2|done].
  - intros (r & [i Hi]%list_elem_of_lookup_1 & Hb). exists (i, b). split; [done|]. exists i, r. by split_and!.
Qed.

Lemma fill_both pre rs :
  fill lbatch (pre ++ rs) <$> both (matches_from (length pre) rs) = Plan.probe_order m ls rs.
Proof.
  revert pre. induction rs as [|r rs IH]; intros pre; [done|].
  unfold both in *. cbn [matches_from]. rewrite !fmap_app. unfold Plan.probe_order. cbn [mbind list_bind]. f_equal.
  - rewrite <- (lo_rows _ _ _ _ _ _ Hlo). generalize order. intros ord.
    induction ord as [|b l IHl]; [done|]. rewrite fmap_cons, !filter_cons.
    destruct (decide (m (row_of lbatch b) r = true)); cbn [fmap list_fmap]; [|exact IHl].
    f_equal; [|exact IHl]. cbn. f_equal. unfold row_of. rewrite lookup_app_r, Nat.sub_diag by lia. done.
  - specialize (IH (pre ++ [r])). rewrite <- (assoc_L (++)), length_app in IH. exact IH.
Qed.

Lemma fmap_seq_rows {A} (f : nat → A) (g : row → A) (rs : list row) :
  (∀ i r, rs !! i = Some r → f i = g r) → f <$> seq 0 (length rs) = g <$> rs.
Proof.
  intros Hfg. apply list_eq. intros i. rewrite !list_lookup_fmap. destruct (rs !! i) as [r|] eqn:E.
  - rewrite lookup_seq_lt by (by eapply lookup_lt_Some). cbn. f_equal. by apply Hfg.
  - apply lookup_ge_None in E. by rewrite lookup_seq_ge.
Qed.

Lemma filter_seq_rows {A} (p : nat → bool) (p' : row → bool) (f : nat → A) (g : row → A) b (rs : list row) :
  (∀ i r, rs !! i = Some r → p i = p' r ∧ f i = g r) →
  f <$> filter (λ i, p i = b) (seq 0 (length rs)) = g <$> filter (λ r, p' r = b) rs.
Proof.
  intros Hpf. pose proof (fmap_seq_rows (λ i, (p i, f i)) (λ r, (p' r, g r)) rs) as E.
  assert (Hpr : ∀ {X} (q : X → bool) (h : X → A) (l : list X),
    h <$> filter (λ x, q x = b) l = (filter (λ y : bool * A, y.1 = b) ((λ x, (q x, h x)) <$> l)).*2).
  { intros X q h l. induction l as [|x l IHl]; [done|]. rewrite fmap_cons, !filter_cons. cbn [fst].
    destruct (decide (q x = b)); cbn [fmap list_fmap]; by rewrite IHl. }
  rewrite (Hpr _ p f), (Hpr _ p' g), E; [done|]. intros i r Hi. destruct (Hpf i r Hi) as [-> ->]. done.
Qed.

(** The whole probe batch: its index output read as rows. *)
Lemma fill_expected jt rs :
  fill lbatch rs <$> expected jt (matches_from 0 rs) (seq 0 (length rs)) = JoinParts.right_part jt m ls rs.
Proof.
  pose proof (fill_both [] rs) as Hb. cbn [length app] in Hb.
  assert (Hrow : ∀ i r, rs !! i = Some r → row_of rs i = r) by (intros i r Hi; unfold row_of; by rewrite Hi).
  assert (Hf : ∀ b, fill lbatch rs <$> (RightOnly <$> filter (λ i, JoinIndices.matched (matches_from 0 rs) i = b)
      (seq 0 (length rs))) = RightOnly <$> filter (λ r, right_matched m ls r = b) rs).
  { intros b. rewrite <- list_fmap_compose. apply filter_seq_rows. intros i r Hi. split; [by apply matched_row|].
    cbn. by rewrite (Hrow i r). }
  destruct jt; cbn [expected JoinParts.right_part]; rewrite ?fmap_app, ?Hb, ?Hf; try done.
  rewrite <- list_fmap_compose. apply fmap_seq_rows. intros i r Hi. cbn. by rewrite (Hrow i r), (matched_row rs i r).
Qed.

End Build.
End JoinBuild.
