(* ===== verification/HashJoinRun.v ===== *)
(** * Runs of the hash join stream

    Polling one partition's stream to its end: it terminates, and what it yields
    is the reference join of JoinTypes.v cut to the fetch limit, for every join
    type; null-aware anti joins are SQL's [NOT IN]. *)

From stdpp Require Import base list strings gmap sorting.
From Stdlib Require Import ZArith Lia.
From S2P Require Import Prelude F64 Relation HashUtils JoinTypes JoinHashMap ArrayMap JoinIndices Coalesce BloomExec Transfer PhysicalPlan HashJoinStream HashJoinRows HashJoinCorrect.

Module JoinRun.
Import Coalesce HashJoinStream JoinBatch JoinRows JoinIndices JoinBuild JoinParts.
Import Plan(null_key).

Section Poll.
Context `{Foldhash} `{Hc : BatchCoalescer row} `{!BatchCoalescerOk row}.
Context (cfg : HashJoinConfig) (fut : Result JoinLeftData).

(** ** Polling *)

(** Polling from [s], after [out] was yielded, ends with [total] in all. *)
Definition yields (s : HashJoinStream) (sh : Shared) (out total : list row) : Prop :=
  ∃ fuel rows s' sh', run fuel cfg fut s sh = Some (rows, None, s', sh') ∧ out ++ rows = total.

Lemma yields_running s sh s' sh' out total :
  poll_step cfg fut s sh = Some (Running, s', sh') → yields s' sh' out total → yields s sh out total.
Proof.
  intros E (fuel & rows & s2 & sh2 & Hr & Ht). exists (S fuel), rows, s2, sh2. split; [|done].
  cbn [run]. by rewrite E.
Qed.

Lemma yields_yield s sh b s' sh' out total :
  poll_step cfg fut s sh = Some (Yield b, s', sh') → yields s' sh' (out ++ b) total → yields s sh out total.
Proof.
  intros E (fuel & rows & s2 & sh2 & Hr & Ht). exists (S fuel), (b ++ rows), s2, sh2.
  split; [|by rewrite (assoc_L (++))]. cbn [run]. rewrite E. cbn [mbind option_bind]. by rewrite Hr.
Qed.

Lemma yields_finished s sh s' sh' out :
  poll_step cfg fut s sh = Some (Finished, s', sh') → yields s sh out out.
Proof. intros E. exists 1, [], s', sh'. cbn [run]. rewrite E. by rewrite app_nil_r. Qed.

Lemma set_output_same s : set_output s (output_buffer s) = s.
Proof. by destruct s. Qed.

Abbreviation inner_done s := (completed (co_inner (output_buffer s))).

(** Completed batches are yielded first, whatever the state. *)
Lemma yields_drain s sh pushed out :
  holds (fetch cfg) (output_buffer s) pushed out →
  ∃ c out', holds (fetch cfg) c pushed out' ∧ completed (co_inner c) = [] ∧
    finished c = finished (output_buffer s) ∧
    ∀ total, yields (set_output s c) sh out' total → yields s sh out total.
Proof.
  remember (length (inner_done s)) as n eqn:En. revert s out En.
  induction n as [|n IH]; intros s out En Hh; pose proof (next_holds _ _ _ _ Hh) as Hn.
  - exists (output_buffer s), out. rewrite set_output_same. split_and!; [done| |done|done]. by apply nil_length_inv.
  - destruct (next_completed_batch (output_buffer s)) as [[b|] c] eqn:E.
    + destruct Hn as (Hh' & Hf & Hl & _).
      destruct (IH (set_output s c) (out ++ b)) as (c' & out' & Hc' & Hd & Hf' & Hy); [cbn; lia|done|].
      exists c', out'. split_and!; [done|done|cbn in Hf'; congruence|].
      intros total Ht. eapply yields_yield; [unfold poll_step; by rewrite E|]. by apply Hy.
    + destruct Hn as [_ Hd]. rewrite Hd in En. done.
Qed.

Lemma poll_ready s sh :
  inner_done s = [] → finished (output_buffer s) = false →
  poll_step cfg fut s sh =
  match state s with
  | WaitBuildSide => handle_state (s' ←? Some (collect_build_side fut s); Some (Ok (s', sh))) s sh
  | FetchProbeBatch => handle_state (s' ←? Some (fetch_probe_batch cfg s); Some (Ok (s', sh))) s sh
  | ProcessProbeBatch st => handle_state (process_probe_batch cfg st s sh) s sh
  | ExhaustedProbeSide => handle_state (process_unmatched_build_batch cfg s sh) s sh
  | Completed => if is_empty (output_buffer s) then Some (Finished, s, sh)
                 else Some (Running, set_output s (finish (output_buffer s)), sh)
  end.
Proof.
  intros Hd Hf. unfold poll_step, next_completed_batch. pose proof (next_ok (co_inner (output_buffer s))) as Hn.
  rewrite Hd in Hn. rewrite Hn.
  replace (Build_LimitedBatchCoalescer _ _ _ _) with (output_buffer s) by (by destruct (output_buffer s)).
  unfold is_finished. by rewrite set_output_same, Hf.
Qed.

(** Nothing more is pushed: what was pushed comes out. *)
Lemma yields_finish s sh pushed out :
  holds (fetch cfg) (output_buffer s) pushed out → finished (output_buffer s) = true →
  yields s sh out (take_fetch (fetch cfg) pushed).
Proof.
  intros Hh Hf. destruct (yields_drain s sh _ _ Hh) as (c & out' & Hc' & Hd & Hfin & Hy). apply Hy.
  erewrite <- (drained _ c) by (first [done|left; congruence]). eapply yields_finished.
  unfold poll_step. cbn [output_buffer set_output].
  pose proof (next_holds _ _ _ _ Hc') as Hn. destruct (next_completed_batch c) as [[b|] c'] eqn:E.
  - destruct Hn as (_ & _ & Hl & _). by rewrite Hd in Hl.
  - destruct Hn as [-> _]. unfold is_finished. by rewrite Hfin, Hf.
Qed.

Lemma yields_completed s sh pushed out :
  holds (fetch cfg) (output_buffer s) pushed out → state s = Completed →
  yields s sh out (take_fetch (fetch cfg) pushed).
Proof.
  intros Hh Hs. destruct (finished (output_buffer s)) eqn:Hf; [by apply yields_finish|].
  destruct (yields_drain s sh _ _ Hh) as (c & out' & Hc' & Hd & Hfin & Hy). apply Hy.
  assert (Hp := poll_ready (set_output s c) sh Hd). cbn [state set_output output_buffer] in Hp.
  rewrite Hs in Hp. specialize (Hp ltac:(congruence)).
  destruct (is_empty c) eqn:He.
  - erewrite <- (drained _ c) by (first [done|by right]). by eapply yields_finished.
  - eapply yields_running; [exact Hp|]. apply yields_finish; [|done]. cbn. by apply finish_holds.
Qed.

End Poll.

(** ** One page *)

(** A configuration [HashJoinExec] builds for the keys [on]. *)
Record cfg_ok (cfg : HashJoinConfig) (on : list (PhysicalExpr * PhysicalExpr)) : Prop := {
  co_on : on ≠ [];
  co_left : on_left cfg = on.*1;
  co_right : on_right cfg = on.*2;
  co_columns : columns_ok (join_type cfg) (column_indices cfg);
  co_filter : ∀ f, jfilter cfg = Some f → filter_ok f;
  co_batch_size : 0 < batch_size cfg;
  co_null_aware : null_aware cfg = true → join_type cfg = LeftAnti ∧ length on = 1;
}.

(** Two rows join: equal keys, and the residual filter accepts them. *)
Definition join_cond (cfg : HashJoinConfig) (on : list (PhysicalExpr * PhysicalExpr)) (l r : row) : bool :=
  keys_match on (null_equality cfg) l r && filter_match (jfilter cfg) l r.

Lemma set_bits_ok bits xs :
  Forall (λ x, x < length bits) xs →
  ∃ bits', set_bits bits xs = Some bits' ∧ length bits' = length bits ∧
    ∀ i, get_bit bits' i = get_bit bits i || bool_decide (i ∈ xs).
Proof.
  revert bits. induction xs as [|x xs IH]; intros bits HF; cbn [set_bits].
  { exists bits. split_and!; [done|done|]. intros i. rewrite bool_decide_false by (by intros ?%elem_of_nil).
    by rewrite orb_false_r. }
  apply Forall_cons in HF as [Hx HF]. rewrite vec_set_in by done. cbn [mbind option_bind].
  destruct (IH (<[x:=true]> bits)) as (bits' & -> & Hl & Hb).
  { eapply Forall_impl; [exact HF|]. intros y Hy. by rewrite length_insert. }
  exists bits'. rewrite Hl, length_insert. split_and!; [done|done|]. intros i. rewrite Hb. unfold get_bit.
  destruct (decide (i = x)) as [->|Hne].
  - rewrite list_lookup_insert_eq by done. rewrite (bool_decide_true (x ∈ x :: xs)) by apply list_elem_of_here.
    cbn. by rewrite orb_true_r.
  - rewrite list_lookup_insert_ne by done. f_equal. apply bool_decide_ext. rewrite elem_of_cons. tauto.
Qed.

(** [sh'] is [sh] with the build rows [xs] marked as visited. *)
Record marks (jt : JoinType) (sh : Shared) (xs : list nat) (sh' : Shared) : Prop := {
  mk_counter : probe_threads_counter sh' = probe_threads_counter sh;
  mk_non_empty : probe_side_non_empty sh' = probe_side_non_empty sh;
  mk_has_null : probe_side_has_null sh' = probe_side_has_null sh;
  mk_length : length (visited_indices_bitmap sh') = length (visited_indices_bitmap sh);
  mk_bits : need_produce_result_in_final jt = true → ∀ i,
    get_bit (visited_indices_bitmap sh') i = get_bit (visited_indices_bitmap sh) i || bool_decide (i ∈ xs);
}.

Lemma mark_visited_ok cfg xs sh :
  (need_produce_result_in_final (join_type cfg) = true →
     Forall (λ x, x < length (visited_indices_bitmap sh)) xs) →
  ∃ sh', mark_visited cfg xs sh = Some sh' ∧ marks (join_type cfg) sh xs sh'.
Proof.
  intros Hxs. unfold mark_visited. destruct (need_produce_result_in_final _) eqn:En.
  - destruct (set_bits_ok _ _ (Hxs eq_refl)) as (bits & -> & Hl & Hb). cbn [mbind option_bind].
    eexists. split; [done|]. split; cbn; auto.
  - exists sh. split; [done|]. split; try done. congruence.
Qed.

Section Join.
Context `{Foldhash} `{Hc : BatchCoalescer row} `{!BatchCoalescerOk row}.
Context (cfg : HashJoinConfig) (on : list (PhysicalExpr * PhysicalExpr)) (Hcfg : cfg_ok cfg on).
Context (ls : list row) (ld : JoinLeftData) (mi : map_index) (order : list nat)
        (Hlo : left_ok (null_equality cfg) on ls ld mi order).

Abbreviation jt := (join_type cfg).
Abbreviation m := (join_cond cfg on).
Abbreviation lbatch := (ld_batch ld).
Abbreviation out_rows := (fmap (M := list) (JoinSchema.output_row (column_indices cfg))).

Lemma join_cond_keys l r : m l r = true → keys_match on (null_equality cfg) l r = true.
Proof. by intros [? _]%andb_true_iff. Qed.

Lemma order_in b : b ∈ order ↔ b < length lbatch.
Proof. rewrite (lo_perm _ _ _ _ _ _ Hlo), elem_of_seq. lia. Qed.

(** The pairs of a page that join. *)
Definition joined (P : list row) (ps : list (nat * nat)) : list (nat * nat) :=
  base.filter (λ x, m (row_of lbatch x.2) (row_of P x.1) = true) ps.

Abbreviation left_at := (JoinBuild.left_at (null_equality cfg) on ld mi).
Abbreviation candidates := (JoinBuild.candidates on ld mi).

(** The hashes of the batch are computed when the index is a hash map. *)
Definition hashes_ready (s : HashJoinStream) (P : list row) : Prop :=
  match ld_map ld with HashMap _ => hashes_buffer s = key_hash on.*2 <$> P | ArrayMap _ => True end.

Lemma fits_rows P : probe_fits cfg mi P → Forall (row_fits mi) P.
Proof. clear Hlo. unfold row_fits. destruct mi; cbn; [intros _; by apply Forall_true|by intros [_ ?]]. Qed.

(** What is left of the matches after a page of [ps]. *)
Definition page_rest (P : list row) (off : MapOffset) (ps0 ps : list (nat * nat)) (off' : option MapOffset)
    (ps1 : list (nat * nat)) : Prop :=
  ps0 = ps ++ ps1 ∧
  match off' with
  | None => ps1 = []
  | Some o => left_at P o ps1 ∧
              (length P - o.1) + length ps1 < (length P - off.1) + length ps0
  end.

Lemma lookup_ok s (P : list row) off ps0 :
  probe_fits cfg mi P → hashes_ready s P → left_at P off ps0 → pairs_in (length lbatch) (length P) ps0 →
  ∃ ps ps1 off',
    let q := base.filter (λ x, keys_match on (null_equality cfg) (row_of lbatch x.2) (row_of P x.1) = true) ps in
    lookup_build_side cfg ld (evaluate_expressions (on_right cfg) P) (hashes_buffer s) off =
      Some (Ok (q.*2, q.*1, off')) ∧
    page_rest P off ps0 ps off' ps1.
Proof.
  intros Hfit Hready Hat Hin. pose proof (index_pager _ on ls ld mi order Hlo P (fits_rows P Hfit)) as Hpg.
  destruct (JoinHashMap.pager_page (batch_size cfg) off ps0 (co_batch_size _ _ Hcfg) Hat)
    as (pg & off' & ps & E & Hi & Hmi & Hlen & Ho).
  assert (∃ ps1, page_rest P off ps0 ps off' ps1) as [ps1 Hrest].
  { destruct off' as [o|].
    - destruct Ho as (ps1 & -> & Hat1 & Hle & Hprog). exists ps1. split; [done|]. split; [done|].
      pose proof (JoinHashMap.pager_bound _ _ Hat1). rewrite length_app. lia.
    - exists []. subst. split; [by rewrite app_nil_r|done]. }
  exists ps, ps1, off'. split; [|done]. destruct Hrest as [Hps0 _]. clear Hpg Ho.
  pose proof (lo_index _ _ _ _ _ _ Hlo) as Hix. pose proof (lo_values _ _ _ _ _ _ Hlo) as Hvals.
  unfold lookup_build_side, index_page, JoinBuild.left_at, index_ok, hashes_ready in *.
  destruct mi as [ops|ty t el er], (ld_map ld) as [hm|am]; try done.
  - unfold lookup_join_hashmap. rewrite Hready, E. cbn [mbind option_bind fst]. rewrite Hi, Hmi, Hvals, (co_right _ _ Hcfg).
    rewrite equal_rows_ok; [done|apply (co_on _ _ Hcfg)|]. rewrite Hps0 in Hin. by apply Forall_app in Hin as [? _].
  - destruct Hix as (Eon & Ht & _). destruct Hfit as [Hdr HF]. unfold probe_arrays.
    rewrite (co_right _ _ Hcfg), Eon. cbn [fmap list_fmap evaluate_expressions map zip zip_with mapM fst snd].
    rewrite Hdr. unfold key_array. rewrite Ht, (int_cells_ok ty t er P Ht HF). cbn [mbind option_bind mret option_ret].
    cbn [ArrayMap.get_matched_indices_with_limit_offset]. rewrite E. cbn [mbind option_bind try_bind fst snd].
    rewrite Hi, Hmi, <- Eon. destruct Hat as [_ Hkeys]. rewrite Hps0 in Hkeys. apply Forall_app in Hkeys as [Hkeys _].
    rewrite (list_filter_iff_in _ (λ _, true = true)), filter_all; [done|]. rewrite Forall_forall in Hkeys. naive_solver.
Qed.

Lemma apply_filter_ok P (q : list (nat * nat)) :
  pairs_in (length lbatch) (length P) q →
  let q' := base.filter (λ x, filter_match (jfilter cfg) (row_of lbatch x.2) (row_of P x.1) = true) q in
  apply_filter cfg lbatch P q.*2 q.*1 = Some (Ok (Some <$> q'.*2, Some <$> q'.*1)).
Proof.
  intros Hq. unfold apply_filter. destruct (jfilter cfg) as [f|] eqn:Ef; cbn zeta.
  - apply apply_join_filter_ok; [by apply (co_filter _ _ Hcfg)|done|done].
  - cbn [filter_match]. by rewrite filter_all.
Qed.

Lemma joined_in (P : list row) ps :
  pairs_in (length lbatch) (length P) ps → pairs_in (length lbatch) (length P) (joined P ps).
Proof.
  unfold pairs_in. rewrite !Forall_forall. intros Hp x [_ Hx]%list_elem_of_filter. by apply Hp.
Qed.

(** Comparing keys and applying the filter leaves the pairs that join. *)
Lemma filter_joined (P : list row) ps :
  base.filter (λ x, filter_match (jfilter cfg) (row_of lbatch x.2) (row_of P x.1) = true)
    (base.filter (λ x, keys_match on (null_equality cfg) (row_of lbatch x.2) (row_of P x.1) = true) ps) =
  joined P ps.
Proof. apply (filter_bool_all (λ x, keys_match _ _ _ _) (λ x, filter_match _ _ _)). Qed.

Lemma last_joined (q : list (nat * nat)) : last (omap id (Some <$> q.*1)) = fst <$> last q.
Proof. by rewrite omap_Some, fmap_last. Qed.

Definition start_of (j : option nat) : nat := match j with Some v => v + 1 | None => 0 end.

Definition stop_of (P : list row) (off' : option MapOffset) (q : list (nat * nat)) : nat :=
  match off' with None => length P | Some _ => page_stop q end.

Lemma stop_of_le P off' q : pairs_in (length lbatch) (length P) q → stop_of P off' q ≤ length P.
Proof.
  intros Hq. destruct off'; [|done]. cbn. unfold page_stop. destruct (last q) as [x|] eqn:E; [|lia].
  apply last_Some_elem_of in E. unfold pairs_in in Hq. rewrite Forall_forall in Hq. destruct (Hq x E). lia.
Qed.

(** The rows of a page's output. *)
Definition page_out (P : list row) (start : nat) (off' : option MapOffset) (q : list (nat * nat)) : list (jout row row) :=
  fill lbatch P <$> page_output jt (right_side_ordered cfg) q (start, stop_of P off' q).

(** The stream [s'] after a page: more pages, the next batch, or the limit. *)
Definition after_page (st : ProcessProbeBatchState) (s : HashJoinStream) (pushed : list row)
    (off' : option MapOffset) (q : list (nat * nat)) (s' : HashJoinStream) : Prop :=
  build_side s' = Some ld ∧ right s' = right s ∧ hashes_buffer s' = hashes_buffer s ∧
  (state s' = Completed ∧ limit_hit (fetch cfg) pushed ∨
   finished (output_buffer s') = false ∧
   state s' = match off' with
              | None => FetchProbeBatch
              | Some o => ProcessProbeBatch (advance st o (fst <$> last q))
              end).

Lemma page_batch_ok (P : list row) q r :
  pairs_in (length lbatch) (length P) q → r.2 ≤ length P →
  let ix := adjust_indices_by_join_type (Some <$> q.*2) (Some <$> q.*1) r jt (right_side_ordered cfg) in
  page_batch cfg lbatch P ix.1 ix.2 =
  Some (Ok (out_rows (fill lbatch P <$> page_output jt (right_side_ordered cfg) q r))).
Proof.
  intros Hq Hr ix. unfold page_batch.
  pose proof (page_rows (column_indices cfg) jt (right_side_ordered cfg) lbatch P q r
    (co_columns _ _ Hcfg) Hq Hr) as E. cbn zeta in E. fold ix in E. rewrite E. by rewrite list_fmap_compose.
Qed.

Lemma process_page st s sh sh1 pushed out ps0 :
  build_side s = Some ld → probe_fits cfg mi (ps_batch st) → hashes_ready s (ps_batch st) →
  ps_values st = evaluate_expressions (on_right cfg) (ps_batch st) →
  note_nulls cfg st sh = Some (false, sh1) → ls ≠ [] ∨ jfilter cfg ≠ None →
  left_at (ps_batch st) (ps_offset st) ps0 →
  pairs_in (length lbatch) (length (ps_batch st)) ps0 →
  (need_produce_result_in_final jt = true → length (visited_indices_bitmap sh1) = length lbatch) →
  holds (fetch cfg) (output_buffer s) pushed out → finished (output_buffer s) = false →
  ∃ ps ps1 off' sh2 s',
    let q := joined (ps_batch st) ps in
    let pushed' := pushed ++ out_rows (page_out (ps_batch st) (start_of (joined_probe_idx st)) off' q) in
    page_rest (ps_batch st) (ps_offset st) ps0 ps off' ps1 ∧ marks jt sh1 q.*2 sh2 ∧
    process_probe_batch cfg st s sh = Some (Ok (s', sh2)) ∧
    holds (fetch cfg) (output_buffer s') pushed' out ∧ after_page st s pushed' off' q s'.
Proof.
  intros Hbs Hfit Hhb Hv Hnn Hne Hat Hin Hbits Hh Hf.
  destruct (lookup_ok s _ _ _ Hfit Hhb Hat Hin) as (ps & ps1 & off' & Hlk & Hrest). exists ps, ps1, off'.
  assert (Hps : pairs_in (length lbatch) (length (ps_batch st)) ps).
  { destruct Hrest as [-> _]. by apply Forall_app in Hin as [? _]. }
  pose proof (joined_in _ _ Hps) as Hq.
  destruct (mark_visited_ok cfg (joined (ps_batch st) ps).*2 sh1) as (sh2 & Hmk & Hmarks).
  { intros Hn. rewrite (Hbits Hn), Forall_fmap. eapply Forall_impl; [exact Hq|]. by intros x [_ ?]. }
  exists sh2. unfold process_probe_batch. rewrite Hbs. cbn [ok_or try_bind]. rewrite Hnn. cbn [mbind option_bind].
  replace (map_is_empty _ && bool_decide _) with false.
  2: { symmetry. apply andb_false_iff. destruct Hne as [Hne|Hne]; [left|right; by apply bool_decide_eq_false].
       apply not_true_iff_false. by rewrite (lo_empty _ _ _ _ _ _ Hlo). }
  cbn [hashes_buffer set_metrics metrics]. rewrite Hv, Hlk. cbn [try_bind].
  rewrite apply_filter_ok by (unfold pairs_in in *; by apply Forall_forall; intros x [_ Hx]%list_elem_of_filter;
    rewrite Forall_forall in Hps; apply Hps).
  rewrite filter_joined. cbn [try_bind]. rewrite last_joined, omap_Some, Hmk. cbn [mbind option_bind].
  set (q := joined (ps_batch st) ps) in *.
  replace (match off' with Some _ => _ | None => _ end) with (stop_of (ps_batch st) off' q)
    by (destruct off'; [unfold stop_of, page_stop; by destruct (last q)|done]).
  change (match joined_probe_idx st with Some v => v + 1 | None => 0 end) with (start_of (joined_probe_idx st)).
  pose proof (page_batch_ok (ps_batch st) q (start_of (joined_probe_idx st), stop_of (ps_batch st) off' q) Hq
    (stop_of_le _ _ _ Hq)) as Hpb. cbn zeta in Hpb.
  destruct (adjust_indices_by_join_type _ _ _ _ _) as [li ri]. cbn [fst snd] in Hpb. rewrite Hpb. cbn [try_bind].
  cbn [output_buffer set_metrics].
  destruct (push_batch_holds _ _ _ _ (out_rows (page_out (ps_batch st) (start_of (joined_probe_idx st)) off' q)) Hh Hf)
    as (status & c & Hp & Hh' & Hf' & Hst).
  unfold page_out in Hp. rewrite Hp. cbn [try_bind]. eexists. split_and!; [exact Hrest|exact Hmarks|reflexivity|..].
  - destruct status; cbn; [exact Hh'|by apply finish_holds].
  - unfold after_page. destruct status; cbn; (split_and!; [done|done|done|]).
    + right. split; [done|]. by destruct off'.
    + left. split; [done|]. by apply Hst.
Qed.

(** ** The pages of a batch *)

(** A null-aware join goes on with a batch when its key column has no null. *)
Definition nulls_ok (P : list row) : Prop :=
  null_aware cfg = true →
  ∃ e es, on_right cfg = e :: es ∧ Forall (λ r, Expr.evaluate e r ≠ None) P.

(** The shared state after the probe rows [ds] and the pairs [qd] of the current
    batch; [ne] tells whether a probe row was seen. *)
Record sh_ok (ds : list row) (qd : list (nat * nat)) (ne : bool) (sh : Shared) : Prop := {
  so_counter : probe_threads_counter sh = 1%N;
  so_null : null_aware cfg = true → probe_side_has_null sh = false ∧ probe_side_non_empty sh = ne;
  so_length : need_produce_result_in_final jt = true → length (visited_indices_bitmap sh) = length lbatch;
  so_bits : need_produce_result_in_final jt = true → ∀ b, b < length lbatch →
    get_bit (visited_indices_bitmap sh) b = left_matched m ds (row_of lbatch b) || bool_decide (b ∈ qd.*2);
}.

Lemma no_null_count (e : PhysicalExpr) (P : list row) :
  Forall (λ r, Expr.evaluate e r ≠ None) P → HashUtils.null_count (map (Expr.evaluate e) P) = 0.
Proof.
  unfold HashUtils.null_count. induction 1 as [|r P Hr HP IH]; [done|]. cbn [map]. rewrite filter_cons.
  by rewrite decide_False.
Qed.

Lemma note_nulls_ok st sh ds qd ne :
  ps_values st = evaluate_expressions (on_right cfg) (ps_batch st) → nulls_ok (ps_batch st) →
  sh_ok ds qd ne sh →
  ∃ sh1, note_nulls cfg st sh = Some (false, sh1) ∧
    sh_ok ds qd (ne || bool_decide (0 < length (ps_batch st))) sh1.
Proof.
  intros Hv Hn [Hc1 Hnull Hl Hb]. unfold note_nulls. destruct (null_aware cfg) eqn:En.
  - destruct (Hn En) as (e & es & He & HF). destruct (Hnull eq_refl) as [Hhas Hne].
    rewrite Hv, He. cbn [evaluate_expressions map vec_get lookup list_lookup mbind option_bind].
    rewrite no_null_count by done. cbn [bool_decide decide_rel]. rewrite bool_decide_false by lia. rewrite Hhas.
    eexists. split; [done|]. split; cbn; auto. intros _. split; [done|]. rewrite Hne.
    by case_bool_decide; rewrite ?orb_true_r, ?orb_false_r.
  - exists sh. split; [done|]. split; try done. congruence.
Qed.

Lemma marks_ok ds qd ne sh q sh' :
  sh_ok ds qd ne sh → marks jt sh q.*2 sh' → sh_ok ds (qd ++ q) ne sh'.
Proof.
  intros [Hc1 Hnull Hl Hb] [Mc Mn Mh Ml Mb]. split.
  - by rewrite Mc.
  - intros En. rewrite Mh, Mn. by apply Hnull.
  - intros Hn. by rewrite Ml, Hl.
  - intros Hn b Hbl. rewrite Mb, Hb by done. rewrite <- orb_assoc. f_equal. rewrite <- bool_decide_or.
    apply bool_decide_ext. by rewrite fmap_app, elem_of_app.
Qed.

(** At the end of a batch its rows are done. *)
Lemma batch_done ds P ne sh :
  sh_ok ds (matches_from ld order m 0 P) ne sh → sh_ok (ds ++ P) [] ne sh.
Proof.
  intros [Hc1 Hnull Hl Hb]. split; [done|done|done|]. intros Hn b Hbl. rewrite Hb by done.
  rewrite (bool_decide_false (b ∈ [].*2)) by (by intros ?%elem_of_nil). rewrite orb_false_r.
  assert (Hv := visited_row ld order m P b). unfold left_matched at 2. rewrite existsb_app. f_equal.
  apply eq_true_iff_eq. rewrite bool_decide_eq_true. apply Hv. by apply order_in.
Qed.

Lemma take_fetch_hit (f : option nat) (l k : list row) :
  limit_hit f l → take_fetch f (l ++ k) = take_fetch f l.
Proof. destruct f as [n|]; cbn; [|done]. intros Hn. by apply take_app_le. Qed.

Lemma start_advance st o q :
  start_of (joined_probe_idx (advance st o (fst <$> last q))) = page_next (start_of (joined_probe_idx st)) q.
Proof. unfold page_next. cbn. by destruct (last q). Qed.

(** Past the limit the rest of the output does not matter. *)
Lemma pages_limit pushed P start off' q q1 outs :
  limit_hit (fetch cfg) (pushed ++ out_rows (page_out P start off' q)) →
  take_fetch (fetch cfg) (pushed ++ out_rows
    ((fill lbatch P <$> pages_output jt (right_side_ordered cfg) (length P) start
        match off' with None => [q] | Some _ => [q; q1] end) ++ outs)) =
  take_fetch (fetch cfg) (pushed ++ out_rows (page_out P start off' q)).
Proof.
  intros Hl. rewrite <- (take_fetch_hit _ _ (out_rows (match off' with None => [] | Some _ =>
    fill lbatch P <$> page_output jt (right_side_ordered cfg) q1 (page_next start q, length P) end ++ outs)) Hl).
  rewrite <- (assoc_L (++)). do 2 f_equal. rewrite <- fmap_app. f_equal.
  destruct off'; cbn [pages_output]; rewrite ?fmap_app; unfold page_out, stop_of; [by rewrite <- (assoc_L (++))|done].
Qed.

Section Pages.
Context (fut : Result JoinLeftData) (P : list row) (ds : list row) (rest : list (Result (list row)))
        (ne : bool) (HP : nulls_ok P) (Hfit : probe_fits cfg mi P) (Hlive : ls ≠ [] ∨ jfilter cfg ≠ None).
Context (R : list (jout row row) → Prop) (outs0 : list (jout row row)) (HR : R outs0).

(** What happens after the batch is given. *)
Context (Hnext : ∀ s sh pushed out,
  state s = FetchProbeBatch → build_side s = Some ld → right s = rest → finished (output_buffer s) = false →
  holds (fetch cfg) (output_buffer s) pushed out → sh_ok (ds ++ P) [] (ne || bool_decide (0 < length P)) sh →
  ∃ outs, R outs ∧ yields cfg fut s sh out (take_fetch (fetch cfg) (pushed ++ out_rows outs))).

(** The pages of a batch, to the last one or to the limit. *)
Lemma process_loop n st s sh pushed out ps0 qd ne' :
  state s = ProcessProbeBatch st → ps_batch st = P → ps_values st = evaluate_expressions (on_right cfg) P →
  build_side s = Some ld → right s = rest → hashes_ready s P → left_at P (ps_offset st) ps0 → pairs_in (length lbatch) (length P) ps0 →
  (length P - (ps_offset st).1) + length ps0 < n → qd ++ joined P ps0 = matches_from ld order m 0 P →
  sh_ok ds qd ne' sh → ne' = ne ∨ ne' = ne || bool_decide (0 < length P) →
  holds (fetch cfg) (output_buffer s) pushed out → finished (output_buffer s) = false →
  ∃ qs outs, qs ≠ [] ∧ concat qs = joined P ps0 ∧ R outs ∧
    yields cfg fut s sh out (take_fetch (fetch cfg) (pushed ++ out_rows
      ((fill lbatch P <$> pages_output jt (right_side_ordered cfg) (length P) (start_of (joined_probe_idx st)) qs)
       ++ outs))).
Proof.
  revert st s sh pushed out ps0 qd ne'. induction n as [|n IH]; [lia|].
  intros st s sh pushed out ps0 qd ne' Hst HPb Hv Hbs Hri Hhb Hat Hin Hn Hqd Hsh Hne' Hh Hf.
  destruct (yields_drain cfg fut s sh _ _ Hh) as (c & out' & Hc' & Hd & Hfin & Hy).
  set (s0 := set_output s c). assert (Hf0 : finished (output_buffer s0) = false) by (cbn; congruence).
  pose proof (poll_ready cfg fut s0 sh Hd Hf0) as Hpoll. cbn [state s0 set_output] in Hpoll. rewrite Hst in Hpoll.
  rewrite <- HPb in Hv, Hhb, Hat, Hin, HP, Hfit.
  destruct (note_nulls_ok st sh ds qd ne' Hv HP Hsh) as (sh1 & Hnn & Hsh1). 
  destruct (process_page st s0 sh sh1 pushed out' ps0) as (ps & ps1 & off' & sh2 & s' & Hrest & Hmk & Hpp & Hh' & Ha);
    [done..|by apply (so_length _ _ _ _ Hsh1)|done|done|]. cbn zeta in *. rewrite HPb in *.
  rewrite Hpp in Hpoll. cbn [handle_state mbind option_bind] in Hpoll.
  assert (Hps0 := proj1 Hrest).
  assert (Hj : joined P ps0 = joined P ps ++ joined P ps1) by (rewrite Hps0; apply filter_app).
  pose proof (marks_ok _ _ _ _ _ _ Hsh1 Hmk) as Hsh2.
  assert (Hne2 : ne' || bool_decide (0 < length P) = ne || bool_decide (0 < length P)).
  { destruct Hne' as [->| ->]; [done|]. by rewrite <- orb_assoc, orb_diag. }
  rewrite Hne2 in *. set (q := joined P ps) in *.
  destruct Ha as (Hbs' & Hri' & Hhb' & [[Hs' Hlim]|[Hf' Hs']]).
  { (* the limit is reached *)
    exists match off' with None => [q] | Some _ => [q; joined P ps1] end, outs0. split_and!; [by destruct off'| |done|].
    - destruct off'; cbn; rewrite app_nil_r; [done|]. destruct Hrest as [_ ->]. by rewrite Hj, app_nil_r.
    - apply Hy. eapply yields_running; [exact Hpoll|]. rewrite pages_limit by done. by apply yields_completed. }
  change (right s' = right s) in Hri'. change (hashes_buffer s' = hashes_buffer s) in Hhb'.
  destruct off' as [o|].
  - destruct Hrest as [_ [Hat1 Hmeas]].
    edestruct (IH (advance st o (fst <$> last q)) s' sh2) as (qs & outs & Hqs & Hcc & Ho & Hyy);
      [done|done|done|done|congruence|unfold hashes_ready in *; by rewrite Hhb'|done| | | | |right; reflexivity|exact Hh'|done|].
    + rewrite Hps0 in Hin. by apply Forall_app in Hin as [_ ?].
    + cbn in Hmeas |- *. lia.
    + by rewrite <- (assoc_L (++)), <- Hj.
    + exact Hsh2.
    + exists (q :: qs), outs. cbn [concat]. rewrite Hcc, Hj. split_and!; [done|done|done|].
      apply Hy. eapply yields_running; [exact Hpoll|]. rewrite start_advance in Hyy.
      destruct qs as [|q2 qs]; [done|].
      change (pages_output jt _ _ _ (q :: q2 :: qs)) with
        (page_output jt (right_side_ordered cfg) q (start_of (joined_probe_idx st), page_stop q) ++
         pages_output jt (right_side_ordered cfg) (length P) (page_next (start_of (joined_probe_idx st)) q) (q2 :: qs)).
      rewrite <- (assoc_L (++)), <- fmap_app in Hyy. by rewrite (fmap_app (fill lbatch P)), <- (assoc_L (++)).
  - destruct Hrest as [_ ->]. rewrite app_nil_r in Hj.
    destruct (Hnext s' sh2 _ _ Hs' Hbs' ltac:(congruence) Hf' Hh') as (outs & Ho & Hyy).
    { apply batch_done. by rewrite <- Hqd, Hj. }
    exists [q], outs. cbn [concat]. rewrite app_nil_r. split_and!; [done|done|done|].
    apply Hy. eapply yields_running; [exact Hpoll|].
    by rewrite <- (assoc_L (++)), <- fmap_app in Hyy.
Qed.
End Pages.

(** ** The output of a batch *)

Lemma pages_output_inner ordered n start qs : pages_output Inner ordered n start qs = both (concat qs).
Proof.
  assert (Hpage : ∀ q r, page_output Inner ordered q r = both q) by (intros q r; by apply batch_both).
  revert start. induction qs as [|q qs IH]; intros start; [done|].
  destruct qs as [|q' qs]; [cbn [pages_output concat]; by rewrite Hpage, app_nil_r|].
  change (page_output Inner ordered q (start, page_stop q) ++
    pages_output Inner ordered n (page_next start q) (q' :: qs) = both (q ++ concat (q' :: qs))).
  rewrite Hpage, IH. unfold both. by rewrite fmap_app.
Qed.

(** The first part of a join's output, in probe order for inner joins. *)
Definition probe_part (P : list row) (outs : list (jout row row)) : Prop :=
  outs ≡ₚ right_part jt m ls P ∧ (jt = Inner → outs = Plan.probe_order m ls P).

Lemma batch_output P qs :
  qs ≠ [] → concat qs = matches_from ld order m 0 P →
  probe_part P (fill lbatch P <$> pages_output jt (right_side_ordered cfg) (length P) 0 qs).
Proof.
  intros Hne Hq. split.
  - rewrite pages_output_spec; [|done|rewrite Hq; apply (matches_from_sorted _ on ls ld mi order Hlo m)|].
    + unfold range_iter, range_len. cbn [fst snd]. rewrite Nat.sub_0_r, Hq.
      by rewrite (fill_expected _ on ls ld mi order Hlo m).
    + rewrite Hq, Forall_fmap. eapply Forall_impl; [apply (matches_from_in _ on ls ld mi order Hlo m)|].
      cbn. lia.
  - intros Hi. rewrite Hi, pages_output_inner, Hq. apply (fill_both _ on ls ld mi order Hlo m []).
Qed.

Lemma probe_part_app P1 P2 outs1 outs2 :
  probe_part P1 outs1 → probe_part P2 outs2 → probe_part (P1 ++ P2) (outs1 ++ outs2).
Proof.
  intros [H1 I1] [H2 I2]. split.
  - by rewrite H1, H2, right_part_app.
  - intros Hi. by rewrite probe_order_app, I1, I2.
Qed.

Lemma empty_build_rows (P : list row) :
  ls = [] → build_batch_empty_build_side (column_indices cfg) P jt = out_rows (right_part jt m ls P).
Proof.
  intros ->. rewrite right_part_empty. unfold build_batch_empty_build_side.
  destruct jt; try done; rewrite <- list_fmap_compose; apply list_fmap_ext; intros i r _; cbn;
    apply list_fmap_ext; intros k ci _; by destruct (JoinSchema.ci_side ci).
Qed.

(** ** The end of the build side *)

Lemma left_rows {A} (g : row → A) (bit : nat → bool) (p : row → bool) v :
  (∀ b, b < length lbatch → bit b = p (row_of lbatch b)) →
  (λ b, g (row_of lbatch b)) <$> base.filter (λ b, bit b = v) (seq 0 (length lbatch)) ≡ₚ
  g <$> base.filter (λ l, p l = v) ls.
Proof.
  intros Hb. rewrite <- (lo_perm _ _ _ _ _ _ Hlo), <- (lo_rows _ _ _ _ _ _ Hlo).
  assert (Hin : ∀ b, b ∈ order → b < length lbatch) by (intros b; by apply order_in).
  revert Hin. generalize order. intros ord Hin. induction ord as [|b ord IH]; [done|].
  rewrite fmap_cons, !filter_cons, (Hb b) by (apply Hin, list_elem_of_here).
  assert (IH' := IH ltac:(intros b' Hb'; apply Hin; by right)).
  destruct (decide (p (row_of lbatch b) = v)); cbn [fmap list_fmap]; [by rewrite IH'|done].
Qed.

(** The build rows at the end, after probe rows [rs]. *)
Definition final_part (rs : list row) (ne : bool) : list (jout row row) :=
  if null_aware cfg then
    LeftOnly <$> base.filter (λ l, left_matched m rs l || (ne && null_key on.*1 l) = false) ls
  else left_part jt m ls rs.

Lemma drop_null_keys_ok (e : PhysicalExpr) (l : list nat) :
  Forall (λ i, i < length lbatch) l →
  drop_null_keys (map (Expr.evaluate e) lbatch) (Some <$> l) =
  Some <$> base.filter (λ i, null_key [e] (row_of lbatch i) = false) l.
Proof.
  induction 1 as [|i l Hi Hl IH]; [done|]. rewrite filter_cons. cbn [fmap list_fmap null_key].
  change (drop_null_keys ?c (Some i :: ?k)) with
    (match (if bool_decide (c !! i = Some None) then None else Some (Some i)) with
     | Some y => y :: drop_null_keys c k | None => drop_null_keys c k end).
  destruct (lookup_lt_is_Some_2 lbatch i Hi) as [r Hr].
  assert (Hcol : map (Expr.evaluate e) lbatch !! i = Some (Expr.evaluate e r)) by (by rewrite list_lookup_fmap, Hr).
  assert (Hrow : row_of lbatch i = r) by (unfold row_of; by rewrite Hr). rewrite Hcol, Hrow.
  destruct (decide (Expr.evaluate e r = None)) as [En|En].
  - rewrite En, !bool_decide_true by done. rewrite decide_False by done. exact IH.
  - rewrite !bool_decide_false by congruence. rewrite decide_True by done. cbn [fmap list_fmap]. by rewrite IH.
Qed.

Lemma final_range (Q : nat → Prop) `{!∀ i, Decision (Q i)} :
  Forall (λ i, i < length lbatch) (base.filter Q (seq 0 (length lbatch))).
Proof. apply Forall_forall. intros i [_ Hi%elem_of_seq]%list_elem_of_filter. lia. Qed.

Lemma all_left_rows {A} (g : row → A) : (λ b, g (row_of lbatch b)) <$> seq 0 (length lbatch) ≡ₚ g <$> ls.
Proof. rewrite <- (lo_perm _ _ _ _ _ _ Hlo), <- (lo_rows _ _ _ _ _ _ Hlo). by rewrite <- list_fmap_compose. Qed.

Lemma filter_none_of {A} (p q : A → bool) (l : list A) :
  base.filter (λ x, q x = false) (base.filter (λ x, p x = false) l) = base.filter (λ x, p x || q x = false) l.
Proof.
  induction l as [|x l IH]; [done|]. rewrite !filter_cons. destruct (p x) eqn:Ep; cbn [orb].
  - by rewrite !decide_False by done.
  - rewrite (decide_True _ _ (eq_refl false)), filter_cons. by destruct (q x); cbn; rewrite IH.
Qed.

(** The indices of the final batch and the rows they stand for. *)
Definition final_batch (rs : list row) (ne : bool) (ix : indices * indices) : Prop :=
  ∃ outs, build_batch_from_indices (column_indices cfg) lbatch [] ix.1 ix.2 SideLeft jt = Some (Ok (out_rows outs)) ∧
    (ix.1 = [] → outs = []) ∧ outs ≡ₚ final_part rs ne.

Lemma left_only_batch (l : list nat) rs ne :
  match jt with Left | Full | LeftSemi | LeftAnti => True | _ => False end →
  Forall (λ i, i < length lbatch) l →
  (λ b, LeftOnly (row_of lbatch b)) <$> l ≡ₚ final_part rs ne →
  final_batch rs ne (Some <$> l, replicate (length l) None).
Proof.
  intros Hjt Hl Hp. eexists. split_and!; [|cbn|exact Hp].
  - cbn [fst snd]. rewrite final_rows by (done || apply (co_columns _ _ Hcfg)).
    do 2 f_equal. by rewrite <- list_fmap_compose.
  - by intros ->%fmap_nil_inv.
Qed.

Lemma final_mark ds ne sh :
  jt = LeftMark → length (visited_indices_bitmap sh) = length lbatch →
  (∀ b, b < length lbatch → get_bit (visited_indices_bitmap sh) b = left_matched m ds (row_of lbatch b)) →
  final_batch ds ne (get_final_indices_from_bit_map (visited_indices_bitmap sh) jt true).
Proof.
  intros Hmark Hl Hbit.
  assert (Hna : null_aware cfg = false).
  { destruct (null_aware cfg) eqn:E; [|done]. destruct (co_null_aware _ _ Hcfg E). congruence. }
  pose proof (co_columns _ _ Hcfg) as Hcols. unfold final_batch, final_part. rewrite Hna, Hmark in *.
  exists ((λ b, LeftMarked (row_of lbatch b) (get_bit (visited_indices_bitmap sh) b)) <$> seq 0 (length lbatch)).
  split_and!.
  - rewrite final_mark_rows by done. do 2 f_equal. by rewrite <- list_fmap_compose.
  - unfold get_final_indices_from_bit_map. rewrite bool_decide_true by done. cbn [orb fst]. rewrite Hl.
    by intros ->%map_eq_nil.
  - cbn [left_part]. rewrite <- all_left_rows. erewrite list_fmap_ext; [done|].
    intros k b Hk. apply lookup_seq in Hk as [-> Hk]. cbn. by rewrite Hbit.
Qed.

Lemma final_sides ds ne sh :
  need_produce_result_in_final jt = true → sh_ok ds [] ne sh →
  let ix := get_final_indices_from_bit_map (visited_indices_bitmap sh) jt true in
  ∃ ix',
    (if null_aware cfg && bool_decide (jt = LeftAnti) && probe_side_non_empty sh then
       build_key_column ← vec_get (ld_values ld) 0;
       let left_side := drop_null_keys build_key_column ix.1 in
       Some (left_side, replicate (length left_side) None)
     else Some ix) = Some ix' ∧ final_batch ds ne ix'.
Proof.
  intros Hn [_ Hnull Hl Hb]. specialize (Hl Hn). specialize (Hb Hn). cbn zeta.
  assert (Hbit : ∀ b, b < length lbatch → get_bit (visited_indices_bitmap sh) b = left_matched m ds (row_of lbatch b)).
  { intros b Hbl. rewrite (Hb b Hbl), bool_decide_false by (by intros ?%elem_of_nil). by rewrite orb_false_r. }
  destruct (null_aware cfg) eqn:Hna.
  - destruct (co_null_aware _ _ Hcfg Hna) as [Hjt Hlen]. destruct (Hnull eq_refl) as [_ Hne].
    pose proof (final_indices jt (visited_indices_bitmap sh)) as Hfi. rewrite Hjt in Hfi at 1.
    specialize (Hfi I). cbn zeta in Hfi. rewrite Hfi, Hl, Hjt, Hne. rewrite !bool_decide_true by done.
    rewrite bool_decide_false by done. cbn [andb fst].
    assert (∃ p, on = [p]) as [p Eon] by (destruct on as [|p [|]]; try done; by exists p).
    assert (Hkey : ∀ r, null_key on.*1 r = null_key [p.1] r) by (intros r; by rewrite Eon).
    assert (Hcol : vec_get (ld_values ld) 0 = Some (map (Expr.evaluate p.1) lbatch))
      by (rewrite (lo_values _ _ _ _ _ _ Hlo), Eon; done).
    destruct ne.
    + rewrite Hcol. cbn [mbind option_bind]. rewrite drop_null_keys_ok by apply final_range.
      eexists. split; [done|]. rewrite length_fmap.
      rewrite (filter_none_of (get_bit (visited_indices_bitmap sh)) (λ i, null_key [p.1] (row_of lbatch i))).
      apply left_only_batch; [by rewrite Hjt|apply final_range|]. unfold final_part. rewrite Hna.
      apply left_rows. intros b Hbl. by rewrite Hbit, Hkey.
    + eexists. split; [done|]. apply left_only_batch; [by rewrite Hjt|apply final_range|].
      unfold final_part. rewrite Hna. apply left_rows. intros b Hbl. rewrite Hbit by done.
      by rewrite orb_false_r.
  - cbn [andb]. eexists. split; [done|]. destruct (decide (jt = LeftMark)) as [Hmark|Hmark]; [by apply final_mark|].
    assert (Hjt : match jt with Left | Full | LeftSemi | LeftAnti => True | _ => False end)
      by (by destruct jt).
    rewrite (final_indices _ _ Hjt). cbn zeta. rewrite Hl. apply left_only_batch; [done|apply final_range|].
    unfold final_part. rewrite Hna. rewrite (left_rows LeftOnly _ (left_matched m ds)) by done.
    by destruct jt.
Qed.

(** ** Runs *)

Section Run.
Context (fut : Result JoinLeftData).

Abbreviation finally s sh out pushed outs := (yields cfg fut s sh out (take_fetch (fetch cfg) (pushed ++ out_rows outs))).

(** Moving a stream that is not finished to its next step. *)
Lemma yields_step s sh pushed out :
  holds (fetch cfg) (output_buffer s) pushed out → finished (output_buffer s) = false →
  ∃ c out', holds (fetch cfg) c pushed out' ∧ finished c = false ∧
    ∀ total s' sh',
      match state s with
      | WaitBuildSide => Some (s' ← collect_build_side fut (set_output s c); Ok (s', sh))
      | FetchProbeBatch => Some (s' ← fetch_probe_batch cfg (set_output s c); Ok (s', sh))
      | ProcessProbeBatch st => process_probe_batch cfg st (set_output s c) sh
      | ExhaustedProbeSide => process_unmatched_build_batch cfg (set_output s c) sh
      | Completed => None
      end = Some (Ok (s', sh')) →
      yields cfg fut s' sh' out' total → yields cfg fut s sh out total.
Proof.
  intros Hh Hf. destruct (yields_drain cfg fut s sh _ _ Hh) as (c & out' & Hc' & Hd & Hfin & Hy).
  exists c, out'. split_and!; [done|congruence|]. intros total s' sh' Hstep Ht. apply Hy.
  pose proof (poll_ready cfg fut (set_output s c) sh Hd ltac:(cbn; congruence)) as Hp. cbn [state set_output] in Hp.
  eapply yields_running; [|exact Ht]. rewrite Hp. destruct (state s); [..|done].
  - destruct (collect_build_side _ _); [|done]. cbn in Hstep |- *. by injection Hstep as -> ->.
  - destruct (fetch_probe_batch _ _); [|done]. cbn in Hstep |- *. by injection Hstep as -> ->.
  - by rewrite Hstep.
  - by rewrite Hstep.
Qed.

Lemma unmatched_ok s sh pushed out ds ne :
  state s = ExhaustedProbeSide → build_side s = Some ld → sh_ok ds [] ne sh →
  holds (fetch cfg) (output_buffer s) pushed out → finished (output_buffer s) = false →
  ∃ outs, outs ≡ₚ final_part ds ne ∧ (jt = Inner → outs = []) ∧ finally s sh out pushed outs.
Proof.
  intros Hs Hbs Hsh Hh Hf.
  destruct (yields_step s sh _ _ Hh Hf) as (c & out' & Hc' & Hf' & Hy). rewrite Hs in Hy.
  unfold process_unmatched_build_batch in Hy. cbn [build_side set_output] in Hy. rewrite Hbs in Hy.
  destruct (need_produce_result_in_final jt) eqn:Hn; cbn [negb ok_or try_bind] in Hy.
  - pose proof Hsh as [Hcnt Hnull _ _]. unfold report_probe_completed in Hy. rewrite Hcnt in Hy.
    replace (null_aware cfg && probe_side_has_null sh) with false in Hy.
    2: { destruct (null_aware cfg) eqn:E; [|done]. destruct (Hnull eq_refl) as [-> _]. done. }
    cbn [N.eqb Pos.eqb negb visited_indices_bitmap probe_side_non_empty] in Hy.
    destruct (final_sides ds ne sh Hn Hsh) as ([li ri] & Hix & outs & Hb & Hnil & Hp). cbn [fst snd] in Hb, Hnil.
    destruct (get_final_indices_from_bit_map _ _ _) as [li0 ri0]. cbn [fst] in Hix. rewrite Hix in Hy.
    cbn [mbind option_bind] in Hy. exists outs. split_and!; [done|by intros Hi; rewrite Hi in Hn|].
    destruct (bool_decide_reflect (li = [])) as [Hli|Hli].
    + rewrite (Hnil Hli), app_nil_r. eapply Hy; [done|]. by apply yields_completed.
    + rewrite Hb in Hy. cbn [try_bind output_buffer set_state set_metrics set_output] in Hy.
      destruct (push_batch_holds _ _ _ _ (out_rows outs) Hc' Hf') as (st & c2 & Hpush & Hh2 & _ & _).
      rewrite Hpush in Hy. eapply Hy; [done|]. apply yields_completed; [|done].
      destruct st; cbn; [done|by apply finish_holds].
  - exists []. assert (Hna : null_aware cfg = false).
    { destruct (null_aware cfg) eqn:E; [|done]. destruct (co_null_aware _ _ Hcfg E) as [E' _]. by rewrite E' in Hn. }
    split_and!; [|done|].
    + unfold final_part. rewrite Hna. by destruct jt.
    + rewrite app_nil_r. eapply Hy; [done|]. by apply yields_completed.
Qed.

(** The state of a stream between batches. *)
Record between (s : HashJoinStream) (rest : list (Result (list row))) (pushed out : list row) : Prop := {
  bt_state : state s = FetchProbeBatch;
  bt_build : build_side s = Some ld;
  bt_right : right s = rest;
  bt_out : holds (fetch cfg) (output_buffer s) pushed out;
  bt_open : finished (output_buffer s) = false;
}.

Definition start_batch (P : list row) : ProcessProbeBatchState := {|
  ps_batch := P; ps_values := evaluate_expressions (on_right cfg) P; ps_offset := (0, None); joined_probe_idx := None |}.

Lemma fetch_step s sh P rest pushed out :
  between s (Ok P :: rest) pushed out →
  ∃ s1 out', state s1 = ProcessProbeBatch (start_batch P) ∧ build_side s1 = Some ld ∧ right s1 = rest ∧
    hashes_ready s1 P ∧ holds (fetch cfg) (output_buffer s1) pushed out' ∧
    finished (output_buffer s1) = false ∧
    ∀ total, yields cfg fut s1 sh out' total → yields cfg fut s sh out total.
Proof.
  intros [Hs Hbs Hr Hh Hf]. destruct (yields_step s sh _ _ Hh Hf) as (c & out' & Hc' & Hf' & Hy).
  rewrite Hs in Hy. unfold fetch_probe_batch in Hy. cbn [right build_side set_output] in Hy. rewrite Hr, Hbs in Hy.
  cbn [ok_or mbind Result_bind] in Hy. eexists _, out'. split_and!; [..|intros total Ht; by eapply Hy];
    cbn; try done.
  unfold hashes_ready. destruct (ld_map ld); [|done]. cbn. by rewrite create_key_hashes_ok, (co_right _ _ Hcfg).
Qed.

Lemma exhaust_step s sh pushed out :
  between s [] pushed out →
  ∃ s1 out', state s1 = ExhaustedProbeSide ∧ build_side s1 = Some ld ∧
    holds (fetch cfg) (output_buffer s1) pushed out' ∧ finished (output_buffer s1) = false ∧
    ∀ total, yields cfg fut s1 sh out' total → yields cfg fut s sh out total.
Proof.
  intros [Hs Hbs Hr Hh Hf]. destruct (yields_step s sh _ _ Hh Hf) as (c & out' & Hc' & Hf' & Hy).
  rewrite Hs in Hy. unfold fetch_probe_batch in Hy. cbn [right set_output] in Hy. rewrite Hr in Hy.
  eexists _, out'. split_and!; [..|intros total Ht; by eapply Hy]; done.
Qed.

(** A null-aware join skips batches once a null key was seen. *)
Lemma skip_step s sh P rest pushed out :
  null_aware cfg = true → between s (Ok P :: rest) pushed out →
  probe_side_has_null sh = true ∨ existsb (null_key on.*2) P = true →
  ∃ s1 sh1 out', between s1 rest pushed out' ∧ probe_side_has_null sh1 = true ∧
    ∀ total, yields cfg fut s1 sh1 out' total → yields cfg fut s sh out total.
Proof.
  intros Hna Hbt Hnull. destruct (fetch_step s sh P rest pushed out Hbt) as (s1 & o1 & Hs1 & Hb1 & Hr1 & Hh1 & Hhs & Hf1 & Hy1).
  destruct (yields_step s1 sh _ _ Hhs Hf1) as (c & o2 & Hc' & Hf2 & Hy2). rewrite Hs1 in Hy2.
  unfold process_probe_batch in Hy2. cbn [build_side set_output] in Hy2. rewrite Hb1 in Hy2.
  unfold note_nulls in Hy2. rewrite Hna in Hy2. cbn [ok_or try_bind ps_values ps_batch start_batch] in Hy2.
  destruct (co_null_aware _ _ Hcfg Hna) as [_ Hlen].
  assert (∃ p, on = [p]) as [p Eon] by (destruct on as [|p [|]]; try done; by exists p).
  assert (Hcol : vec_get (evaluate_expressions (on_right cfg) P) 0 = Some (map (Expr.evaluate p.2) P))
    by (rewrite (co_right _ _ Hcfg), Eon; done).
  rewrite Hcol in Hy2. cbn [mbind option_bind] in Hy2.
  replace (if bool_decide (0 < HashUtils.null_count (map (Expr.evaluate p.2) P)) then true
           else probe_side_has_null sh) with true in Hy2.
  - eexists _, _, o2. split_and!; [..|intros total Ht; apply Hy1; eapply Hy2; [done|exact Ht]]; [|done].
    split; done.
  - case_bool_decide as Hcnt; [done|]. destruct Hnull as [|Hex]; [done|]. exfalso. apply Hcnt.
    apply existsb_exists in Hex as (r & Hr%list_elem_of_In & Hk). rewrite Eon in Hk. cbn in Hk.
    apply bool_decide_eq_true in Hk. unfold HashUtils.null_count.
    assert (Hin : None ∈ base.filter (λ o : option value, o = None) (map (Expr.evaluate p.2) P)).
    { apply list_elem_of_filter. split; [done|]. rewrite <- Hk. apply list_elem_of_In, in_map. by apply list_elem_of_In. }
    destruct (base.filter _ _); [by apply elem_of_nil in Hin|cbn; lia].
Qed.

Lemma null_loop bs s sh pushed out :
  null_aware cfg = true → probe_side_has_null sh = true → between s (Ok <$> bs) pushed out →
  yields cfg fut s sh out (take_fetch (fetch cfg) pushed).
Proof.
  intros Hna. revert s sh out. induction bs as [|P bs IH]; intros s sh out Hnull Hbt.
  - destruct (exhaust_step s sh pushed out Hbt) as (s1 & o1 & Hs1 & Hb1 & Hh1 & Hf1 & Hy1). apply Hy1.
    destruct (yields_step s1 sh _ _ Hh1 Hf1) as (c & o2 & Hc' & Hf2 & Hy2). rewrite Hs1 in Hy2.
    unfold process_unmatched_build_batch in Hy2. cbn [build_side set_output] in Hy2.
    destruct (co_null_aware _ _ Hcfg Hna) as [Hjt _]. rewrite Hjt, Hb1, Hna, Hnull in Hy2.
    eapply Hy2; [done|]. by apply yields_completed.
  - destruct (skip_step s sh P _ pushed out Hna Hbt (or_introl Hnull)) as (s1 & sh1 & o1 & Hbt1 & Hn1 & Hy1).
    apply Hy1. by apply IH.
Qed.

(** An empty build side without a filter is not looked up. *)
Lemma empty_step s sh P rest pushed out ds ne :
  ls = [] → jfilter cfg = None → nulls_ok P → between s (Ok P :: rest) pushed out → sh_ok ds [] ne sh →
  ∃ s1 sh1 out', between s1 rest (pushed ++ out_rows (right_part jt m ls P)) out' ∧
    sh_ok (ds ++ P) [] (ne || bool_decide (0 < length P)) sh1 ∧
    ∀ total, yields cfg fut s1 sh1 out' total → yields cfg fut s sh out total.
Proof.
  intros Hls Hfil HP Hbt Hsh.
  destruct (fetch_step s sh P rest pushed out Hbt) as (s1 & o1 & Hs1 & Hb1 & Hr1 & Hh1 & Hhs & Hf1 & Hy1).
  destruct (yields_step s1 sh _ _ Hhs Hf1) as (c & o2 & Hc' & Hf2 & Hy2). rewrite Hs1 in Hy2.
  unfold process_probe_batch in Hy2. cbn [build_side set_output] in Hy2. rewrite Hb1 in Hy2.
  destruct (note_nulls_ok (start_batch P) sh ds [] ne eq_refl HP Hsh) as (sh1 & Hnn & Hsh1).
  rewrite Hnn in Hy2. cbn [ok_or try_bind mbind option_bind] in Hy2.
  rewrite (bool_decide_true (_ = None)), (proj2 (lo_empty _ _ _ _ _ _ Hlo) Hls) in Hy2 by done.
  cbn [andb output_buffer set_metrics set_output ps_batch start_batch] in Hy2.
  rewrite empty_build_rows in Hy2 by done.
  destruct (push_batch_holds _ _ _ _ (out_rows (right_part jt m ls P)) Hc' Hf2) as (st & c2 & Hpush & Hh2 & Hf3 & _).
  rewrite Hpush in Hy2. eexists _, sh1, o2. split_and!; [..|intros total Ht; apply Hy1; eapply Hy2; [done|exact Ht]].
  - by split.
  - apply batch_done. assert (Hm : matches_from ld order m 0 P = []); [|by rewrite Hm].
    assert (Ho : order = []) by (pose proof (lo_rows _ _ _ _ _ _ Hlo) as E; rewrite Hls in E; by apply fmap_nil_inv in E).
    rewrite Ho. clear. generalize 0. induction P as [|r P IH]; intros p; [done|]. apply IH.
Qed.

(** The join of the remaining probe rows [rs], after [ds]. *)
Definition result (ds rs : list row) (ne : bool) : list (jout row row) :=
  if null_aware cfg && existsb (null_key on.*2) rs then []
  else right_part jt m ls rs ++ final_part (ds ++ rs) (ne || bool_decide (0 < length rs)).

Definition is_result (ds rs : list row) (ne : bool) (outs : list (jout row row)) : Prop :=
  outs ≡ₚ result ds rs ne ∧ (jt = Inner → outs = Plan.probe_order m ls rs).

Lemma result_self ds rs ne : is_result ds rs ne (result ds rs ne).
Proof.
  split; [done|]. intros Hi. unfold result, final_part.
  assert (Hna : null_aware cfg = false).
  { destruct (null_aware cfg) eqn:E; [|done]. destruct (co_null_aware _ _ Hcfg E). congruence. }
  rewrite Hna, Hi. cbn. by rewrite app_nil_r.
Qed.

Lemma nulls_ok_of P : null_aware cfg && existsb (null_key on.*2) P = false → nulls_ok P.
Proof.
  intros Hex Hna. rewrite Hna in Hex. cbn in Hex. destruct (co_null_aware _ _ Hcfg Hna) as [_ Hlen].
  assert (∃ p, on = [p]) as [p Eon] by (destruct on as [|p [|]]; try done; by exists p).
  rewrite (co_right _ _ Hcfg), Eon in *. exists p.2, []. split; [done|]. apply Forall_forall. intros r Hr Hk.
  apply not_true_iff_false in Hex. apply Hex, existsb_exists. exists r. split; [by apply list_elem_of_In|].
  cbn. by apply bool_decide_eq_true.
Qed.

Lemma is_result_app ds P rs ne outs1 outs2 :
  null_aware cfg && existsb (null_key on.*2) P = false → probe_part P outs1 →
  is_result (ds ++ P) rs (ne || bool_decide (0 < length P)) outs2 → is_result ds (P ++ rs) ne (outs1 ++ outs2).
Proof.
  intros Hex [Hp1 Hi1] [Hp2 Hi2]. split.
  - rewrite Hp1, Hp2. unfold result. rewrite existsb_app.
    replace (null_aware cfg && (existsb (null_key on.*2) P || existsb (null_key on.*2) rs)) with
      (null_aware cfg && existsb (null_key on.*2) rs).
    2: { destruct (null_aware cfg); [|done]. cbn in Hex |- *. by rewrite Hex. }
    destruct (null_aware cfg && existsb _ rs) eqn:En.
    + apply andb_true_iff in En as [Hna _]. destruct (co_null_aware _ _ Hcfg Hna) as [Hjt _]. by rewrite Hjt.
    + rewrite <- right_part_app, !(assoc_L (++)). rewrite <- (assoc_L (++) ds P rs).
      replace (ne || bool_decide (0 < length P) || bool_decide (0 < length rs)) with
        (ne || bool_decide (0 < length (P ++ rs))); [done|].
      rewrite <- orb_assoc, <- bool_decide_or. f_equal. apply bool_decide_ext. rewrite length_app. lia.
  - intros Hi. by rewrite probe_order_app, Hi1, Hi2.
Qed.

(** A batch looked up page by page, given what follows it. *)
Lemma batch_step P rest ds ne s sh pushed out (R : list (jout row row) → Prop) outs0 :
  nulls_ok P → probe_fits cfg mi P → ls ≠ [] ∨ jfilter cfg ≠ None → R outs0 →
  between s (Ok P :: rest) pushed out → sh_ok ds [] ne sh →
  (∀ s sh pushed out, between s rest pushed out →
     sh_ok (ds ++ P) [] (ne || bool_decide (0 < length P)) sh →
     ∃ outs, R outs ∧ finally s sh out pushed outs) →
  ∃ outs1 outs, probe_part P outs1 ∧ R outs ∧ finally s sh out pushed (outs1 ++ outs).
Proof.
  intros HP Hfit Hlive HR Hbt Hsh Hnext.
  destruct (fetch_step s sh P _ pushed out Hbt) as (s1 & o1 & Hs1 & Hb1 & Hr1 & Hh1 & Hhs & Hf1 & Hy1).
  pose proof (fits_rows P Hfit) as HF.
  assert (Hj := filter_candidates _ on ls ld mi order Hlo m join_cond_keys [] P HF). cbn [app length] in Hj.
  destruct (process_loop fut P ds rest ne HP Hfit Hlive R outs0 HR) with
    (n := S (length P - 0 + length (candidates 0 P))) (st := start_batch P)
    (s := s1) (sh := sh) (pushed := pushed) (out := o1) (ps0 := candidates 0 P)
    (qd := @nil (nat * nat)) (ne' := ne) as (qs & outs & Hqs & Hcc & Ho & Hy); try done.
  - intros s' sh' pushed' out' ? ? ? ? ? ?. by apply Hnext.
  - by apply (left_at_start _ on ls ld mi order Hlo).
  - eapply Forall_impl; [by eapply candidates_in|]. cbn. lia.
  - cbn. lia.
  - by left.
  - eexists _, outs. split_and!; [|exact Ho|by apply Hy1].
    apply batch_output; [done|]. by rewrite Hcc.
Qed.

(** All batches, then the end. *)
Lemma fetch_loop bs s sh pushed out ds ne :
  between s (Ok <$> bs) pushed out → sh_ok ds [] ne sh → probe_fits cfg mi (concat bs) →
  ∃ outs, is_result ds (concat bs) ne outs ∧ finally s sh out pushed outs.
Proof.
  revert s sh pushed out ds ne. induction bs as [|P bs IH]; intros s sh pushed out ds ne Hbt Hsh Hfit.
  { destruct (exhaust_step s sh pushed out Hbt) as (s1 & o1 & Hs1 & Hb1 & Hh1 & Hf1 & Hy1).
    destruct (unmatched_ok s1 sh pushed o1 ds ne Hs1 Hb1 Hsh Hh1 Hf1) as (outs & Hp & Hi & Hy).
    exists outs. split; [|by apply Hy1]. split; [|exact Hi].
    unfold result. cbn. rewrite andb_false_r, right_part_nil, app_nil_r, orb_false_r. exact Hp. }
  cbn [concat fmap list_fmap] in *. apply probe_fits_app in Hfit as [HfP Hfbs].
  destruct (null_aware cfg && existsb (null_key on.*2) P) eqn:Hex.
  { pose proof Hex as [Hna HexP]%andb_true_iff.
    destruct (skip_step s sh P _ pushed out Hna Hbt (or_intror HexP)) as (s1 & sh1 & o1 & Hbt1 & Hn1 & Hy1).
    exists []. split; [|rewrite app_nil_r; apply Hy1; by eapply null_loop].
    split; [unfold result; by rewrite Hna, existsb_app, HexP|].
    destruct (co_null_aware _ _ Hcfg Hna). congruence. }
  pose proof (nulls_ok_of P Hex) as HP.
  destruct (decide (ls = [] ∧ jfilter cfg = None)) as [[Hls Hfil]|Hlive].
  { destruct (empty_step s sh P _ pushed out ds ne Hls Hfil HP Hbt Hsh) as (s1 & sh1 & o1 & Hbt1 & Hsh1 & Hy1).
    destruct (IH s1 sh1 _ o1 _ _ Hbt1 Hsh1 Hfbs) as (outs & Ho & Hy).
    exists (right_part jt m ls P ++ outs). split; [|apply Hy1; by rewrite fmap_app, (assoc_L (++))].
    apply is_result_app; [done| |done]. split; [done|]. intros Hi. by rewrite Hi. }
  destruct (batch_step P (Ok <$> bs) ds ne s sh pushed out
    (is_result (ds ++ P) (concat bs) (ne || bool_decide (0 < length P)))
    (result (ds ++ P) (concat bs) (ne || bool_decide (0 < length P)))) as (outs1 & outs & Hp & Ho & Hy);
    [done|done| |apply result_self|done|done|by intros; apply IH|].
  { destruct (decide (ls = [])); [|by left]. right. naive_solver. }
  exists (outs1 ++ outs). split; [by apply is_result_app|done].
Qed.

End Run.
End Join.
(** ** The operator *)

Section Execute.
Context `{Foldhash} `{Hc : BatchCoalescer row} `{!BatchCoalescerOk row}.

Lemma run_more cfg fut fuel s sh res fuel' :
  run fuel cfg fut s sh = Some res → fuel ≤ fuel' → run fuel' cfg fut s sh = Some res.
Proof.
  revert s sh res fuel'. induction fuel as [|fuel IH]; intros s sh res fuel' Hr Hle; [done|].
  destruct fuel' as [|fuel']; [lia|]. cbn [run] in *.
  destruct (poll_step cfg fut s sh) as [[[p s1] sh1]|]; [|done]. cbn [mbind option_bind] in *.
  destruct p; [|by apply IH; [|lia]|done|done].
  destruct (run fuel cfg fut s1 sh1) as [r|] eqn:Er; [|done]. cbn in Hr.
  by rewrite (IH _ _ _ fuel' Er) by lia.
Qed.

Lemma build_join_schema_columns l r jt : columns_ok jt (JoinSchema.build_join_schema l r jt).2.
Proof.
  assert (Hs : ∀ (sc : Schema) (b : bool) (side : JoinSide), (if b then SideLeft else SideRight) = side →
    Forall (λ ci, JoinSchema.ci_side ci = side) (JoinSchema.side_fields sc jt b).*2).
  { intros sc b side Hside. apply Forall_fmap, Forall_forall. intros f Hf. unfold JoinSchema.side_fields in Hf.
    apply elem_of_lookup_imap in Hf as (i & x & -> & _). done. }
  pose proof (Hs l true SideLeft eq_refl) as Hl. pose proof (Hs r false SideRight eq_refl) as Hr.
  unfold columns_ok, JoinSchema.build_join_schema.
  destruct jt; cbn [snd]; rewrite ?fmap_app, ?Forall_app; repeat split;
    try (eapply Forall_impl; [eassumption|]; intros ci ->; done);
    apply Forall_singleton; done.
Qed.

Lemma mapM_columns (cis : list JoinSchema.ColumnIndex) projection cis' :
  mapM (vec_get cis) projection = Some cis' →
  cis' = omap (λ i, cis !! i) projection ∧ ∀ ci, ci ∈ cis' → ci ∈ cis.
Proof.
  unfold vec_get. revert cis'. induction projection as [|i projection IH]; intros cis' E; cbn in E.
  { injection E as <-. split; [done|]. by intros ci ?%elem_of_nil. }
  destruct (cis !! i) as [ci|] eqn:Ei; [|done]. cbn in E.
  destruct (mapM _ projection) as [rest|]; [|done]. cbn in E. injection E as <-.
  destruct (IH rest eq_refl) as [-> Hin]. cbn. rewrite Ei. split; [done|].
  intros ci' [->|Hci]%elem_of_cons; [by eapply list_elem_of_lookup_2|by apply Hin].
Qed.

(** The checks [HashJoinExecBuilder::build] makes, and filters over both sides. *)
Record join_ok (j : HashJoin) : Prop := {
  jo_on : on j ≠ [];
  jo_null_aware : PhysicalPlan.null_aware j = true → PhysicalPlan.join_type j = LeftAnti ∧ length (on j) = 1;
  jo_filter : ∀ f, join_filter j = Some f → filter_ok f;
}.

Lemma execute_config_ok j l r opts ordered cfg :
  join_ok j → 0 < opt_batch_size opts → execute_config j l r opts ordered = Some cfg → cfg_ok cfg (on j).
Proof.
  intros [Hon Hna Hf] Hn E. unfold execute_config in E.
  pose proof (build_join_schema_columns l r (PhysicalPlan.join_type j)) as Hcols.
  set (cis := (JoinSchema.build_join_schema l r (PhysicalPlan.join_type j)).2) in *.
  destruct (match projection j with Some _ => _ | None => _ end) as [cis'|] eqn:Ep; [|done].
  cbn in E. injection E as <-. split; cbn; try done.
  destruct (projection j) as [projection|]; [|by injection Ep as <-].
  destruct (mapM_columns _ _ _ Ep) as [_ Hin]. unfold columns_ok in *. rewrite Forall_forall in Hcols |- *. auto.
Qed.

(** Executing the operator on inputs that do not fail. *)
Lemma execute_ok cfg on lbs rbs :
  cfg_ok cfg on → (N.of_nat (length (concat lbs)) <= u64_max)%N → keys_typed cfg on (concat lbs) (concat rbs) →
  ∃ fuel outs s sh,
    is_result cfg on (concat lbs) [] (concat rbs) false outs ∧
    ∀ fuel', fuel ≤ fuel' →
      execute fuel' cfg (Ok <$> lbs) (Ok <$> rbs) =
      Some (take_fetch (fetch cfg) (JoinSchema.output_row (column_indices cfg) <$> outs), None, s, sh).
Proof.
  intros Hcfg Hmax Htyped. unfold execute.
  destruct (collect_left_input_ok cfg on lbs (concat rbs) (need_produce_result_in_final (join_type cfg)) 1
    (co_left _ _ Hcfg) Hmax Htyped) as (ld & mi & order & -> & Hlo & Hlen & Hfit). cbn [mbind option_bind].
  set (sh := Build_Shared _ _ _ _). set (s0 := new cfg (Ok <$> rbs)).
  assert (Hh0 : holds (fetch cfg) (output_buffer s0) [] []) by apply new_holds.
  destruct (yields_step cfg (Ok ld) s0 sh [] [] Hh0 eq_refl) as (c & out & Hc' & Hf & Hy).
  assert (Hsh : sh_ok cfg on ld [] [] false sh).
  { split; cbn; try done; intros ->; [by rewrite length_replicate|]. intros b Hb. unfold get_bit.
    rewrite lookup_replicate_2 by lia. done. }
  destruct (fetch_loop cfg on Hcfg (concat lbs) ld mi order Hlo (Ok ld) rbs
    {| state := FetchProbeBatch; build_side := Some ld; right := Ok <$> rbs; hashes_buffer := [];
       output_buffer := c; metrics := no_metrics |} sh [] out [] false) as (outs & Ho & Hrun); [by split|done|done|].
  destruct (Hy _ _ _ eq_refl Hrun) as (fuel & rows & s' & sh' & Hr & Hrows). cbn in Hrows. subst rows.
  exists fuel, outs, s', sh'. split; [done|]. intros fuel' Hle. by eapply run_more.
Qed.

Lemma execute_config_join j l r opts ordered cfg :
  execute_config j l r opts ordered = Some cfg →
  join_cond cfg (on j) = Plan.join_match j ∧ join_type cfg = PhysicalPlan.join_type j ∧
  null_aware cfg = PhysicalPlan.null_aware j.
Proof.
  unfold execute_config. destruct (match projection j with Some _ => _ | None => _ end); [|done].
  cbn. by intros [= <-].
Qed.

(** What the stream computes is the join the plan's semantics names. *)
Lemma result_join j l r opts ordered cfg ls rs :
  join_ok j → execute_config j l r opts ordered = Some cfg →
  result cfg (on j) ls [] rs false ≡ₚ Plan.join_output j ls rs.
Proof.
  intros Hj E. destruct (execute_config_join _ _ _ _ _ _ E) as (Hm & Hjt & Hna).
  unfold Plan.join_output, result, final_part. rewrite Hm, Hjt, Hna.
  destruct (PhysicalPlan.null_aware j) eqn:En.
  - destruct (jo_null_aware _ Hj En) as [-> _]. unfold Plan.null_aware_output. cbn [andb app orb].
    by destruct (existsb _ rs).
  - cbn [andb app]. destruct (decide (PhysicalPlan.join_type j = Inner)) as [Ei|Ei].
    + rewrite Ei. cbn. by rewrite app_nil_r.
    + rewrite parts_spec. by destruct (PhysicalPlan.join_type j).
Qed.

Lemma result_output j l r opts ordered cfg ls rs outs :
  join_ok j → execute_config j l r opts ordered = Some cfg →
  is_result cfg (on j) ls [] rs false outs →
  outs ≡ₚ Plan.join_output j ls rs ∧ (PhysicalPlan.join_type j = Inner → outs = Plan.join_output j ls rs).
Proof.
  intros Hj E [Hp Hi]. split; [by rewrite Hp, result_join|].
  destruct (execute_config_join _ _ _ _ _ _ E) as (Hm & Hjt & _). intros Ei. unfold Plan.join_output.
  rewrite Hm, Hjt in Hi. rewrite Ei in *. by apply Hi.
Qed.

Lemma execute_config_fields j l r opts ordered cfg :
  execute_config j l r opts ordered = Some cfg →
  fetch cfg = join_fetch j ∧ on_left cfg = (on j).*1 ∧
  column_indices cfg = match projection j with
                       | None => (JoinSchema.build_join_schema l r (PhysicalPlan.join_type j)).2
                       | Some columns =>
                           omap (λ i, (JoinSchema.build_join_schema l r (PhysicalPlan.join_type j)).2 !! i) columns
                       end.
Proof.
  intros E. unfold execute_config in E.
  destruct (projection j) as [projection|]; [|cbn in E; by injection E as <-].
  destruct (mapM _ projection) as [cis|] eqn:Ep; [|done]. cbn in E. injection E as <-. split_and!; [done|done|].
  by destruct (mapM_columns _ _ _ Ep).
Qed.

End Execute.

(** ** Properties *)

(** C3. Executing a hash join on inputs that do not fail ends without an error
    and without a panic, and yields the reference join of the two inputs (all ten
    join types, residual filter, both null equalities, null-aware anti joins),
    up to order, cut to the fetch limit: whatever the batches of either side,
    the batch size, the hash function and the coalescer, and whether the build
    side is indexed by a hash map or, for one dense integer key, by an array.  A
    single key has on both sides the type its schema declares. *)
Theorem hash_join_correct `{Foldhash} `{Hc : BatchCoalescer row} `{!BatchCoalescerOk row}
    j l r opts ordered cfg lbs rbs :
  join_ok j → 0 < opt_batch_size opts → execute_config j l r opts ordered = Some cfg →
  (N.of_nat (length (concat lbs)) <= u64_max)%N → keys_typed cfg (on j) (concat lbs) (concat rbs) →
  ∃ fuel outs s sh,
    outs ≡ₚ Plan.join_output j (concat lbs) (concat rbs) ∧
    ∀ fuel', fuel ≤ fuel' →
      execute fuel' cfg (Ok <$> lbs) (Ok <$> rbs) =
      Some (take_fetch (join_fetch j) (JoinSchema.output_row (column_indices cfg) <$> outs), None, s, sh).
Proof.
  intros Hj Hn E Hmax Ht. pose proof (execute_config_ok _ _ _ _ _ _ Hj Hn E) as Hcfg.
  destruct (execute_ok cfg (on j) lbs rbs Hcfg Hmax Ht) as (fuel & outs & s & sh & Ho & Hr).
  destruct (execute_config_fields _ _ _ _ _ _ E) as [<- _].
  exists fuel, outs, s, sh. split; [|exact Hr]. by eapply result_output.
Qed.

(** For an inner join the executed operator yields exactly the rows, in the
    order and under the fetch limit, that the plan semantics [join_rows] gives:
    the order of the probe side, and of the build side for one probe row. *)
Theorem hash_join_inner_order `{Foldhash} `{Hc : BatchCoalescer row} `{!BatchCoalescerOk row}
    j l r opts ordered cfg lbs rbs :
  join_ok j → PhysicalPlan.join_type j = Inner → 0 < opt_batch_size opts → execute_config j l r opts ordered = Some cfg →
  (N.of_nat (length (concat lbs)) <= u64_max)%N → keys_typed cfg (on j) (concat lbs) (concat rbs) →
  ∃ fuel s sh, ∀ fuel', fuel ≤ fuel' →
    execute fuel' cfg (Ok <$> lbs) (Ok <$> rbs) =
    Some (Plan.join_rows j l r (concat lbs) (concat rbs), None, s, sh).
Proof.
  intros Hj Hi Hn E Hmax Ht. pose proof (execute_config_ok _ _ _ _ _ _ Hj Hn E) as Hcfg.
  destruct (execute_ok cfg (on j) lbs rbs Hcfg Hmax Ht) as (fuel & outs & s & sh & Ho & Hr).
  destruct (result_output _ _ _ _ _ _ _ _ _ Hj E Ho) as [_ Ho'].
  destruct (execute_config_fields _ _ _ _ _ _ E) as (Hf & _ & Hcis). exists fuel, s, sh. intros fuel' Hle.
  rewrite (Hr _ Hle), (Ho' Hi), Hf, Hcis. unfold Plan.join_rows. by destruct (projection j).
Qed.

(** SQL's [v NOT IN vs] in three-valued logic. *)
Definition and3 (a b : option bool) : option bool :=
  match a, b with
  | Some false, _ | _, Some false => Some false
  | Some true, Some true => Some true
  | _, _ => None
  end.

Definition sql_not_in (v : option value) (vs : list (option value)) : option bool :=
  foldr (λ w acc, and3 (negb <$> eq_cell NullEqualsNothing v w) acc) (Some true) vs.

Lemma sql_not_in_true v vs :
  sql_not_in v vs = Some true ↔ Forall (λ w, eq_cell NullEqualsNothing v w = Some false) vs.
Proof.
  induction vs as [|w vs IH]; cbn [sql_not_in foldr]; [done|]. rewrite Forall_cons, <- IH.
  change (foldr _ _ vs) with (sql_not_in v vs).
  destruct (eq_cell NullEqualsNothing v w) as [[]|], (sql_not_in v vs) as [[]|]; cbn; naive_solver.
Qed.

Lemma null_aware_not_in j a b ls rs :
  on j = [(a, b)] → PhysicalPlan.null_equality j = NullEqualsNothing → join_filter j = None →
  Plan.null_aware_output (Plan.join_match j) (on j) ls rs =
  LeftOnly <$> base.filter (λ l, sql_not_in (Expr.evaluate a l) (Expr.evaluate b <$> rs) = Some true) ls.
Proof.
  intros Hon Hne Hf. unfold Plan.null_aware_output. rewrite Hon. cbn [fmap list_fmap fst snd].
  assert (Hm : ∀ l r, Plan.join_match j l r = Transfer.key_eq NullEqualsNothing (Expr.evaluate a l) (Expr.evaluate b r)).
  { intros l r. unfold Plan.join_match. rewrite Hon, Hne, Hf. cbn. by rewrite !andb_true_r. }
  assert (Hin : ∀ l, sql_not_in (Expr.evaluate a l) (Expr.evaluate b <$> rs) = Some true ↔
    Forall (λ r, eq_cell NullEqualsNothing (Expr.evaluate a l) (Expr.evaluate b r) = Some false) rs).
  { intros l. by rewrite sql_not_in_true, Forall_fmap. }
  destruct (existsb (Plan.null_key [b]) rs) eqn:Ex.
  - apply existsb_exists in Ex as (r & Hr%list_elem_of_In & Hk). cbn in Hk. apply bool_decide_eq_true in Hk.
    rewrite (list_filter_iff_in _ (λ _, false = true)), filter_none; [done|]. intros l _. rewrite Hin, Forall_forall.
    split; [|done]. intros HF. specialize (HF r Hr). rewrite Hk in HF. by destruct (Expr.evaluate a l).
  - f_equal. apply list_filter_iff_in. intros l _. rewrite Hin, orb_false_iff, <- not_true_iff_false, left_matched_true.
    assert (Hnn : ∀ r, r ∈ rs → ∃ w, Expr.evaluate b r = Some w).
    { intros r Hr. destruct (Expr.evaluate b r) as [w|] eqn:E; [by exists w|]. exfalso.
      apply not_true_iff_false in Ex. apply Ex, existsb_exists. exists r. split; [by apply list_elem_of_In|].
      cbn. by apply bool_decide_eq_true. }
    rewrite Forall_forall. cbn [Plan.null_key]. destruct (Expr.evaluate a l) as [v|] eqn:Ev.
    + rewrite (bool_decide_false (Some v = None)), andb_false_r by done. split.
      * intros [Hno _] r Hr. destruct (Hnn r Hr) as [w Hw]. rewrite Hw. cbn. f_equal. apply bool_decide_eq_false.
        intros ->. apply Hno. exists r. split; [done|]. rewrite Hm, Ev, Hw. cbn. by apply bool_decide_eq_true.
      * intros HF. split; [|done]. intros (r & Hr & Hmr). specialize (HF r Hr). rewrite Hm, Ev in Hmr.
        destruct (Expr.evaluate b r) as [w|]; cbn in *; [|done]. congruence.
    + rewrite (bool_decide_true (None = None)), andb_true_r, bool_decide_eq_false by done. split.
      * intros [_ Hlen] r Hr. destruct rs; [by apply elem_of_nil in Hr|cbn in Hlen; lia].
      * intros HF. destruct rs as [|r rs]; [|by specialize (HF r ltac:(apply list_elem_of_here))].
        split; [|cbn; lia]. by intros (r & ?%elem_of_nil & _).
Qed.

(** C25. A null-aware anti join (without residual filter) is SQL's [NOT IN]: it
    yields the build rows whose key is [NOT IN] the probe keys in three-valued
    logic, up to order: none when a probe key is null, all of them, null keys
    included, when the probe side is empty. *)
Theorem hash_join_not_in `{Foldhash} `{Hc : BatchCoalescer row} `{!BatchCoalescerOk row}
    j a b l r opts ordered cfg lbs rbs :
  on j = [(a, b)] → PhysicalPlan.join_type j = LeftAnti → PhysicalPlan.null_aware j = true →
  PhysicalPlan.null_equality j = NullEqualsNothing → join_filter j = None → join_fetch j = None →
  0 < opt_batch_size opts → execute_config j l r opts ordered = Some cfg →
  (N.of_nat (length (concat lbs)) <= u64_max)%N → keys_typed cfg (on j) (concat lbs) (concat rbs) →
  ∃ fuel outs s sh,
    outs ≡ₚ base.filter (λ x, sql_not_in (Expr.evaluate a x) (Expr.evaluate b <$> concat rbs) = Some true)
              (concat lbs) ∧
    ∀ fuel', fuel ≤ fuel' →
      execute fuel' cfg (Ok <$> lbs) (Ok <$> rbs) =
      Some (JoinSchema.output_row (column_indices cfg) ∘ LeftOnly <$> outs, None, s, sh).
Proof.
  intros Hon Hjt Hna Hne Hf Hfe Hn E Hmax Ht.
  assert (Hj : join_ok j) by (split; rewrite ?Hon, ?Hf; done).
  pose proof (execute_config_ok _ _ _ _ _ _ Hj Hn E) as Hcfg.
  destruct (execute_ok cfg (on j) lbs rbs Hcfg Hmax Ht) as (fuel & outs & s & sh & Ho & Hr).
  destruct (result_output _ _ _ _ _ _ _ _ _ Hj E Ho) as [Ho' _].
  destruct (execute_config_fields _ _ _ _ _ _ E) as (Hfe' & _). rewrite Hfe' , Hfe in Hr.
  unfold Plan.join_output in Ho'. rewrite Hjt, Hna, (null_aware_not_in j a b) in Ho' by done.
  apply Permutation_map_inv in Ho' as (outs' & -> & Hp).
  exists fuel, outs', s, sh. split; [by symmetry|]. intros fuel' Hle. rewrite (Hr _ Hle). cbn [take_fetch].
  by rewrite list_fmap_compose.
Qed.

(** When the build input fails, and the build keys have types, the stream yields no row and ends with that
    error, whatever the probe side. *)
Theorem hash_join_build_error `{Foldhash} `{Hc : BatchCoalescer row} `{!BatchCoalescerOk row}
    cfg b lbs e rest right :
  should_collect_min_max_for_perfect_hash (on_left cfg) (left_schema cfg) = Ok b →
  ∃ fuel s sh, ∀ fuel', fuel ≤ fuel' →
    execute fuel' cfg ((Ok <$> lbs) ++ Err e :: rest) right = Some ([], Some e, s, sh).
Proof.
  intros Hkeys. unfold execute, collect_left_input. rewrite Hkeys. cbn [try_bind].
  assert (Ht : try_collect ((Ok <$> lbs) ++ Err e :: rest) = Err e).
  { induction lbs as [|lb lbs IH]; [done|]. cbn. by rewrite IH. }
  rewrite Ht. cbn [try_bind mbind option_bind]. set (sh := Build_Shared _ _ _ _).
  exists 1. eexists _, sh. intros fuel' Hle. apply (run_more _ _ 1); [|done].
  cbn [run]. rewrite poll_ready by (done || apply new_done). done.
Qed.

(** ** Examples *)

Definition key_schema : Schema := [{| f_name := "k"; f_type := DInt32; f_nullable := true |}].

Definition key_join (jt : JoinType) (na : bool) : HashJoin := {|
  on := [(Column "k" 0, Column "k" 0)]; PhysicalPlan.join_type := jt;
  PhysicalPlan.null_equality := NullEqualsNothing; PhysicalPlan.null_aware := na;
  projection := None; join_filter := None; join_fetch := None |}.

(** The defaults of the session: arrays of up to 1024 keys are always used. *)
Definition key_density : f64 := f64_lit 15 2.

Definition key_options : ExecutionOptions := {|
  opt_batch_size := 2; opt_small_build_threshold := 1024; opt_min_key_density := key_density |}.

Definition key_config (jt : JoinType) (na : bool) : HashJoinConfig := {|
  on_left := [Column "k" 0]; on_right := [Column "k" 0]; jfilter := None; join_type := jt;
  column_indices := (JoinSchema.build_join_schema key_schema key_schema jt).2;
  null_equality := NullEqualsNothing; batch_size := 2; right_side_ordered := false;
  null_aware := na; fetch := None; left_schema := key_schema; right_schema := key_schema;
  perfect_hash_join_small_build_threshold := 1024; perfect_hash_join_min_key_density := key_density |}.

Definition key_rows (ks : list Z) : list row := (λ k, [Some (VInt32 k)]) <$> ks.

Lemma key_join_ok jt na : (na = true → jt = LeftAnti) → join_ok (key_join jt na).
Proof. intros Hna. split; cbn; auto. done. Qed.

Lemma small_key_fits k : (0 <= k < 1000)%Z → key_fits DInt32 (Column "k" 0) [Some (VInt32 k)].
Proof. intros Hk. split; [done|]. intros t z [= <-] [= <-]. unfold ArrayMap.in_type. cbn. lia. Qed.

Lemma key_config_typed jt na ls rs :
  Forall (key_fits DInt32 (Column "k" 0)) (ls ++ rs) →
  keys_typed (key_config jt na) [(Column "k" 0, Column "k" 0)] ls rs.
Proof. intros [Hl Hr]%Forall_app el er [= <- <-]. by exists DInt32. Qed.

Ltac solve_typed := apply key_config_typed; repeat (constructor; [by apply small_key_fits || done|]); constructor.

#[local] Existing Instance HashUtils.sample_hash.
#[local] Existing Instance queue_coalescer.
#[local] Existing Instance queue_coalescer_ok.

Lemma hash_join_correct_witness :
  ∃ fuel outs s sh,
    outs ≡ₚ Plan.join_output (key_join Full false) (key_rows [1; 2; 2; 3]%Z) (key_rows [2; 4; 1]%Z) ∧
    ∀ fuel', fuel ≤ fuel' →
      execute fuel' (key_config Full false) (Ok <$> [key_rows [1; 2]; key_rows [2; 3]]%Z)
        (Ok <$> [key_rows [2; 4]; key_rows [1]]%Z) =
      Some (JoinSchema.output_row (column_indices (key_config Full false)) <$> outs, None, s, sh).
Proof.
  apply (hash_join_correct (key_join Full false) key_schema key_schema key_options false (key_config Full false)
    [key_rows [1; 2]; key_rows [2; 3]]%Z [key_rows [2; 4]; key_rows [1]]%Z);
    [by apply key_join_ok|cbn; lia|done|by vm_compute|solve_typed].
Defined.

Lemma hash_join_inner_order_witness :
  ∃ fuel s sh, ∀ fuel', fuel ≤ fuel' →
    execute fuel' (key_config Inner false) (Ok <$> [key_rows [1; 2]; key_rows [2; 3]]%Z)
      (Ok <$> [key_rows [2; 4]; key_rows [1]]%Z) =
    Some (Plan.join_rows (key_join Inner false) key_schema key_schema
            (key_rows [1; 2; 2; 3]%Z) (key_rows [2; 4; 1]%Z), None, s, sh).
Proof.
  apply (hash_join_inner_order (key_join Inner false) key_schema key_schema key_options false (key_config Inner false)
    [key_rows [1; 2]; key_rows [2; 3]]%Z [key_rows [2; 4]; key_rows [1]]%Z);
    [by apply key_join_ok|done|cbn; lia|done|by vm_compute|solve_typed].
Defined.

Lemma hash_join_not_in_witness :
  ∃ fuel outs s sh,
    outs ≡ₚ base.filter (λ x, sql_not_in (Expr.evaluate (Column "k" 0) x)
              (Expr.evaluate (Column "k" 0) <$> key_rows [2; 4]%Z) = Some true) ([None] :: key_rows [1; 2]%Z) ∧
    ∀ fuel', fuel ≤ fuel' →
      execute fuel' (key_config LeftAnti true) (Ok <$> [[None] :: key_rows [1; 2]%Z]) (Ok <$> [key_rows [2; 4]%Z]) =
      Some (JoinSchema.output_row (column_indices (key_config LeftAnti true)) ∘ LeftOnly <$> outs, None, s, sh).
Proof.
  apply (hash_join_not_in (key_join LeftAnti true) (Column "k" 0) (Column "k" 0) key_schema key_schema key_options false
    (key_config LeftAnti true) [[None] :: key_rows [1; 2]%Z] [key_rows [2; 4]%Z]); try done; [cbn; lia|solve_typed].
Defined.

Lemma hash_join_build_error_witness :
  ∃ fuel s sh, ∀ fuel', fuel ≤ fuel' →
    execute fuel' (key_config Full false) [Ok (key_rows [1]%Z); Err (Internal "lost")] [Ok (key_rows [2]%Z)] =
    Some ([], Some (Internal "lost"), s, sh).
Proof.
  exact (hash_join_build_error (key_config Full false) true [key_rows [1]%Z] (Internal "lost") [] [Ok (key_rows [2]%Z)]
    eq_refl).
Defined.

(** The hit rate a stream reports counts the rows of a probe batch once per
    page, and a row whose matches span pages once per page: here both of two
    probe rows have a match, and the reported ratio is 3 of 4. *)
Theorem hit_rate_counts_pages :
  (λ x, (x.1.1.2, hit_part (metrics x.1.2), hit_total (metrics x.1.2), input_rows (metrics x.1.2))) <$>
    execute 100 (key_config Inner false) [Ok (key_rows [1; 1; 1; 2]%Z)] [Ok (key_rows [1; 2]%Z)] =
  Some (None, 3, 4, 2).
Proof. vm_compute. reflexivity. Qed.

End JoinRun.
