(* ===== verification/HashJoinTyping.v ===== *)
(** * Types of joined rows (physical-plan/src/joins/utils.rs, hash_join/exec.rs)

    A row fits a schema when every cell has its field's type and is null only
    where the field is nullable.  [build_join_schema] decides nullability from the
    join type alone; [hash_join_typed] shows that this is right for what the
    executed operator yields, projections included. *)

From stdpp Require Import base list strings gmap.
From Stdlib Require Import ZArith Lia.
From S2P Require Import Prelude Relation HashUtils JoinTypes JoinIndices Coalesce BloomExec PhysicalPlan HashJoinStream HashJoinCorrect HashJoinRun.

Module JoinTyping.
Import Coalesce HashJoinStream JoinBatch JoinSchema JoinBuild JoinRun.
Import Plan(take_fetch, join_output, hash_join_schema).

Definition cell_typed (f : Field) (c : option value) : Prop :=
  match c with
  | Some v => value_type v = f_type f
  | None => f_nullable f = true
  end.

Definition row_typed (s : Schema) (r : row) : Prop := Forall2 cell_typed s r.

(** What a join of type [jt] may put together: rows of the two sides, one of
    them missing only where the join type allows it. *)
Definition out_fits (jt : JoinType) (ls rs : list row) (o : jout row row) : Prop :=
  match o with
  | Both l r => l ∈ ls ∧ r ∈ rs ∧ (jt = Inner ∨ jt = Left ∨ jt = Right ∨ jt = Full)
  | LeftOnly l => l ∈ ls ∧ (jt = Left ∨ jt = Full ∨ jt = LeftSemi ∨ jt = LeftAnti)
  | RightOnly r => r ∈ rs ∧ (jt = Right ∨ jt = Full ∨ jt = RightSemi ∨ jt = RightAnti)
  | LeftMarked l _ => l ∈ ls ∧ jt = LeftMark
  | RightMarked r _ => r ∈ rs ∧ jt = RightMark
  end.

(** One cell of an output row. *)
Definition out_cell (o : jout row row) (ci : ColumnIndex) : option value :=
  match output_row [ci] o with c :: _ => c | [] => None end.

(** ** Lemmas *)

Lemma output_row_cells cis o : output_row cis o = out_cell o <$> cis.
Proof. destruct o; reflexivity. Qed.

Lemma inner_pairs_fits jt (m : row → row → bool) ls rs :
  jt = Inner ∨ jt = Left ∨ jt = Right ∨ jt = Full → Forall (out_fits jt ls rs) (inner_pairs m ls rs).
Proof.
  intros Hjt. apply Forall_forall. intros o (l & Ho & Hl)%list_elem_of_bind.
  apply list_elem_of_fmap in Ho as (r & -> & [_ Hr]%list_elem_of_filter). done.
Qed.

Lemma join_spec_fits jt (m : row → row → bool) ls rs : Forall (out_fits jt ls rs) (join_spec jt m ls rs).
Proof.
  assert (Hl : ∀ (P : row → Prop) `{∀ x, Decision (P x)},
    jt = Left ∨ jt = Full ∨ jt = LeftSemi ∨ jt = LeftAnti → Forall (out_fits jt ls rs) (LeftOnly <$> filter P ls)).
  { intros P ? Hjt. apply Forall_fmap, Forall_forall. intros l [_ ?]%list_elem_of_filter. done. }
  assert (Hr : ∀ (P : row → Prop) `{∀ x, Decision (P x)},
    jt = Right ∨ jt = Full ∨ jt = RightSemi ∨ jt = RightAnti → Forall (out_fits jt ls rs) (RightOnly <$> filter P rs)).
  { intros P ? Hjt. apply Forall_fmap, Forall_forall. intros l [_ ?]%list_elem_of_filter. done. }
  pose proof (inner_pairs_fits jt m ls rs) as Hi.
  destruct jt; cbn [join_spec]; rewrite ?Forall_app; split_and?; auto 6;
    apply Forall_fmap, Forall_forall; intros ? ?; done.
Qed.

Lemma probe_order_fits (m : row → row → bool) ls rs : Forall (out_fits Inner ls rs) (Plan.probe_order m ls rs).
Proof.
  apply Forall_forall. intros o (r & Ho & Hr)%list_elem_of_bind.
  apply list_elem_of_fmap in Ho as (l & -> & [_ Hl]%list_elem_of_filter). cbn. auto.
Qed.

Lemma join_output_fits j ls rs : Forall (out_fits (PhysicalPlan.join_type j) ls rs) (join_output j ls rs).
Proof.
  unfold join_output. pose proof (join_spec_fits (PhysicalPlan.join_type j) (Plan.join_match j) ls rs) as Hs.
  destruct (PhysicalPlan.join_type j); try exact Hs; [apply probe_order_fits|].
  destruct (PhysicalPlan.null_aware j); [|exact Hs]. unfold Plan.null_aware_output.
  destruct (existsb _ rs); [constructor|]. apply Forall_fmap, Forall_forall.
  intros l [_ ?]%list_elem_of_filter. cbn. auto.
Qed.

Lemma cell_of_typed s r i f : row_typed s r → s !! i = Some f → cell_typed f (BloomExec.cell i r).
Proof.
  intros Hr Hf. destruct (Forall2_lookup_l _ _ _ _ _ Hr Hf) as (c & Hc & Ht).
  unfold BloomExec.cell. by rewrite Hc.
Qed.

Lemma output_field_typed f jt is_left c : cell_typed f c → cell_typed (output_join_field f jt is_left) c.
Proof. unfold output_join_field. destruct (force_nullable jt is_left), c; done. Qed.

Lemma missing_cell_typed f jt is_left : force_nullable jt is_left = true → cell_typed (output_join_field f jt is_left) None.
Proof. unfold output_join_field. by intros ->. Qed.

(** The columns of one side. *)
Lemma side_fields_typed s jt is_left o :
  (∀ i f, s !! i = Some f →
     cell_typed (output_join_field f jt is_left)
       (out_cell o {| ci_index := i; ci_side := if is_left then SideLeft else SideRight |})) →
  Forall (λ fc, cell_typed fc.1 (out_cell o fc.2)) (side_fields s jt is_left).
Proof.
  intros Hs. apply Forall_lookup. intros i fc E. unfold side_fields in E. rewrite list_lookup_imap in E.
  destruct (s !! i) as [f|] eqn:Ef; [|done]. injection E as <-. by apply Hs.
Qed.

Definition join_fields (l r : Schema) (jt : JoinType) : list (Field * ColumnIndex) :=
  zip (build_join_schema l r jt).1 (build_join_schema l r jt).2.

Lemma join_fields_typed l r jt ls rs o :
  Forall (row_typed l) ls → Forall (row_typed r) rs → out_fits jt ls rs o →
  Forall (λ fc, cell_typed fc.1 (out_cell o fc.2)) (join_fields l r jt).
Proof.
  intros Hl Hr Ho. rewrite Forall_forall in Hl, Hr. unfold join_fields, build_join_schema. cbn zeta. cbn [fst snd]. rewrite zip_fst_snd.
  assert (HL : ∀ x, x ∈ ls → ∀ i f, l !! i = Some f → cell_typed (output_join_field f jt true) (BloomExec.cell i x)).
  { intros x Hx i f Hf. apply output_field_typed. eapply cell_of_typed; [by apply Hl|done]. }
  assert (HR : ∀ x, x ∈ rs → ∀ i f, r !! i = Some f → cell_typed (output_join_field f jt false) (BloomExec.cell i x)).
  { intros x Hx i f Hf. apply output_field_typed. eapply cell_of_typed; [by apply Hr|done]. }
  destruct o as [x y|x|y|x b|y b]; cbn [out_fits] in Ho; destruct_and?; destruct_or?; subst jt;
    lazymatch goal with
    | |- Forall _ (_ ++ [_]) => apply Forall_app_2; [apply side_fields_typed|by apply Forall_singleton]
    | |- Forall _ (_ ++ _) => apply Forall_app_2; apply side_fields_typed
    | |- _ => apply side_fields_typed
    end; intros i f Hf;
    first [apply (missing_cell_typed f); reflexivity
          |exact (HL x ltac:(assumption) i f Hf)|exact (HR y ltac:(assumption) i f Hf)].
Qed.

Lemma project_typed (fields : list (Field * ColumnIndex)) o projection cis :
  Forall (λ fc, cell_typed fc.1 (out_cell o fc.2)) fields →
  mapM (λ i, fields.*2 !! i) projection = Some cis →
  ∃ s, mapM (λ i, fields.*1 !! i) projection = Some s ∧ row_typed s (out_cell o <$> cis).
Proof.
  intros Hf E%mapM_Some. induction E as [|i ci projection cis Hi _ (s & Es & Hs)].
  { exists []. split; [done|constructor]. }
  rewrite list_lookup_fmap in Hi. destruct (fields !! i) as [[f ci']|] eqn:Ei; [|done]. cbn in Hi. injection Hi as ->.
  exists (f :: s). cbn [mapM]. rewrite list_lookup_fmap, Ei. cbn. rewrite Es. split; [done|]. constructor; [|done].
  exact (Forall_lookup_1 _ _ _ _ Hf Ei).
Qed.

Lemma join_fields_fst l r jt : (join_fields l r jt).*1 = (build_join_schema l r jt).1.
Proof. unfold join_fields, build_join_schema. cbn zeta. cbn [fst snd]. by rewrite zip_fst_snd. Qed.

Lemma join_fields_snd l r jt : (join_fields l r jt).*2 = (build_join_schema l r jt).2.
Proof. unfold join_fields, build_join_schema. cbn zeta. cbn [fst snd]. by rewrite zip_fst_snd. Qed.

Lemma output_typed j l r opts ordered cfg ls rs o :
  execute_config j l r opts ordered = Some cfg → Forall (row_typed l) ls → Forall (row_typed r) rs →
  out_fits (PhysicalPlan.join_type j) ls rs o →
  row_typed (hash_join_schema j l r) (output_row (column_indices cfg) o).
Proof.
  intros E Hl Hr Ho. pose proof (join_fields_typed _ _ _ _ _ _ Hl Hr Ho) as Hf. rewrite output_row_cells.
  unfold execute_config in E. rewrite <- join_fields_snd in E. unfold hash_join_schema, project_fields.
  rewrite <- join_fields_fst. set (fields := join_fields l r _) in *. clearbody fields.
  destruct (projection j) as [projection|].
  - destruct (mapM _ projection) as [cis|] eqn:Ep; [|done]. cbn in E. injection E as <-. cbn [column_indices].
    destruct (project_typed _ o projection cis Hf Ep) as (s & -> & Hs). done.
  - cbn in E. injection E as <-. cbn [column_indices default]. unfold row_typed.
    cbn [from_option id]. rewrite <- list_fmap_compose, Forall2_fmap. by apply Forall_Forall2_diag.
Qed.

(** ** Properties *)

(** C8. The rows a hash join yields fit the schema it declares: types of the input
    fields, nulls only in fields [build_join_schema] makes or leaves nullable, and
    a Boolean mark that is never null, for all ten join types and with a
    projection. *)
Theorem hash_join_typed `{Foldhash} `{Hc : BatchCoalescer row} `{!BatchCoalescerOk row}
    j l r opts ordered cfg lbs rbs :
  join_ok j → 0 < opt_batch_size opts → execute_config j l r opts ordered = Some cfg →
  (N.of_nat (length (concat lbs)) <= u64_max)%N → keys_typed cfg (on j) (concat lbs) (concat rbs) →
  Forall (row_typed l) (concat lbs) → Forall (row_typed r) (concat rbs) →
  ∃ fuel out s sh, Forall (row_typed (hash_join_schema j l r)) out ∧
    ∀ fuel', fuel ≤ fuel' → execute fuel' cfg (Ok <$> lbs) (Ok <$> rbs) = Some (out, None, s, sh).
Proof.
  intros Hj Hn E Hmax Ht Hl Hr. pose proof (execute_config_ok _ _ _ _ _ _ Hj Hn E) as Hcfg.
  destruct (execute_ok cfg (on j) lbs rbs Hcfg Hmax Ht) as (fuel & outs & s & sh & Ho & Hrun).
  destruct (result_output _ _ _ _ _ _ _ _ _ Hj E Ho) as [Ho' _].
  exists fuel. eexists _, s, sh. split; [|exact Hrun].
  assert (Hall : Forall (row_typed (hash_join_schema j l r)) (output_row (column_indices cfg) <$> outs)).
  { apply Forall_fmap. rewrite Ho'. eapply Forall_impl; [apply join_output_fits|].
    intros o Hfit. by eapply output_typed. }
  destruct (fetch cfg); [by apply Forall_take|done].
Qed.

#[local] Existing Instance HashUtils.sample_hash.
#[local] Existing Instance queue_coalescer.
#[local] Existing Instance queue_coalescer_ok.

Lemma hash_join_typed_witness :
  ∃ fuel out s sh, Forall (row_typed (hash_join_schema (key_join Full false) key_schema key_schema)) out ∧
    ∀ fuel', fuel ≤ fuel' →
      execute fuel' (key_config Full false) (Ok <$> [key_rows [1; 2]]%Z) (Ok <$> [key_rows [2; 4]]%Z) =
      Some (out, None, s, sh).
Proof.
  apply (hash_join_typed (key_join Full false) key_schema key_schema key_options false (key_config Full false)
    [key_rows [1; 2]]%Z [key_rows [2; 4]]%Z);
    [by apply key_join_ok|cbn; lia|done|by vm_compute|solve_typed|repeat constructor..].
Defined.

End JoinTyping.
