(* ===== verification/HashJoinParallel.v ===== *)
(** * Partitions sharing one build side

    In [CollectLeft] mode the build side is collected once and every probe
    partition polls a stream of its own over it.  The partitions share the bitmap
    of visited build rows, the counter of running partitions and the two flags
    of null-aware joins.  A system is the list of partitions with the shared
    state, and a step polls any one of them.  Proved for every schedule: no
    partition fails or panics, polling ends, and all partitions together yield
    the join of the build side with all probe rows; the unmatched build rows come
    from the partition that reports last, once. *)

From stdpp Require Import base list strings gmap sorting relations.
From Stdlib Require Import ZArith Lia Wellfounded.
From S2P Require Import Prelude Relation HashUtils JoinTypes JoinHashMap JoinIndices Coalesce BloomExec Transfer PhysicalPlan HashJoinStream HashJoinRows HashJoinCorrect HashJoinRun.

Module JoinPartitions.
Import Coalesce HashJoinStream JoinBatch JoinRows JoinIndices JoinBuild JoinParts JoinRun.
Import Plan(null_key).

Section System.
Context `{Foldhash} `{Hc : BatchCoalescer row}.

Inductive status := Polling | Ended | Errored (e : DataFusionError).

(** A partition: its stream, what it has yielded, and whether it ended. *)
Record thread := { th_stream : HashJoinStream; th_out : list row; th_status : status }.

Record system := { threads : list thread; shared : Shared }.

Definition poll_thread (cfg : HashJoinConfig) (fut : Result JoinLeftData) (t : thread) (sh : Shared)
    : option (thread * Shared) :=
  r ← poll_step cfg fut (th_stream t) sh;
  let '(p, s, sh) := r in
  Some match p with
       | Yield batch => ({| th_stream := s; th_out := th_out t ++ batch; th_status := Polling |}, sh)
       | Running => ({| th_stream := s; th_out := th_out t; th_status := Polling |}, sh)
       | Finished => ({| th_stream := s; th_out := th_out t; th_status := Ended |}, sh)
       | Failed e => ({| th_stream := s; th_out := th_out t; th_status := Errored e |}, sh)
       end.

(** Any partition that has not ended may be polled. *)
Inductive step (cfg : HashJoinConfig) (fut : Result JoinLeftData) : system → system → Prop :=
| step_poll i t t' sh' sys :
    threads sys !! i = Some t → th_status t = Polling → poll_thread cfg fut t (shared sys) = Some (t', sh') →
    step cfg fut sys {| threads := <[i := t']> (threads sys); shared := sh' |}.

(** The build side, collected once for as many probe threads as the right input
    has partitions, and the streams of those partitions. *)
Definition execute_collect_left (cfg : HashJoinConfig) (left : list (Result (list row)))
    (rights : list (list (Result (list row)))) : option (Result (JoinLeftData * system)) :=
  r ←? collect_left_input cfg left (need_produce_result_in_final (join_type cfg))
         (N.of_nat (length rights));
  Some (Ok (r.1, {| threads := (λ right, {| th_stream := new cfg right; th_out := []; th_status := Polling |})
                                 <$> rights;
                    shared := r.2 |})).
End System.

(** ** Aggregates over the partitions *)

Lemma existsb_insert {A} (f : A → bool) (l : list A) i x y (e : bool) :
  l !! i = Some x → f y = f x || e → existsb f (<[i := y]> l) = existsb f l || e.
Proof.
  revert i. induction l as [|z l IH]; intros [|i] Hi Hy; cbn in Hi; [done..| |].
  - injection Hi as ->. cbn. rewrite Hy. by destruct (f x), e, (existsb f l).
  - change (<[S i := y]> (z :: l)) with (z :: <[i := y]> l). cbn [existsb]. by rewrite (IH i Hi Hy), orb_assoc.
Qed.

Lemma sum_insert {A} (f : A → nat) (l : list A) i x y :
  l !! i = Some x → sum_list_with f (<[i := y]> l) + f x = sum_list_with f l + f y.
Proof.
  revert i. induction l as [|z l IH]; intros [|i] Hi; cbn in Hi; [done..| |].
  - injection Hi as ->. cbn. lia.
  - specialize (IH i Hi). change (<[S i := y]> (z :: l)) with (z :: <[i := y]> l). cbn [sum_list_with]. lia.
Qed.

Lemma concat_insert {A B} (f : A → list B) (l : list A) i x y k :
  l !! i = Some x → f y ≡ₚ f x ++ k → concat (f <$> <[i := y]> l) ≡ₚ concat (f <$> l) ++ k.
Proof.
  revert i. induction l as [|z l IH]; intros [|i] Hi Hy; cbn in Hi; [done..| |].
  - injection Hi as ->. cbn. rewrite Hy, <- !(assoc_L (++)). f_equiv. apply Permutation_app_comm.
  - change (<[S i := y]> (z :: l)) with (z :: <[i := y]> l). cbn [fmap list_fmap concat].
    by rewrite (IH i Hi Hy), (assoc_L (++)).
Qed.

Lemma Forall3_intro {A B C} (P : A → B → C → Prop) l k k' :
  length l = length k → length k = length k' →
  (∀ i x y z, l !! i = Some x → k !! i = Some y → k' !! i = Some z → P x y z) → Forall3 P l k k'.
Proof.
  revert k k'. induction l as [|x l IH]; intros [|y k] [|z k'] H1 H2 HP; cbn in *; try lia; constructor.
  - by apply (HP 0).
  - apply IH; [lia|lia|]. intros i. apply (HP (S i)).
Qed.

(** What the proofs know of a partition beside its stream. *)
Record ghost := {
  g_ds : list row;                  (* the probe rows of the batches done *)
  g_qd : list (nat * nat);          (* the pairs of the current batch marked so far *)
  g_ne : bool;                      (* it has recorded a probe row *)
  g_outs : list (jout row row);     (* what it has pushed while probing *)
  g_fin : list (jout row row);      (* the unmatched build rows it has pushed *)
  g_rep : bool;                     (* it has reported *)
  g_left : nat;                     (* a bound on the pages of the current batch *)
}.

Definition fresh : ghost :=
  {| g_ds := []; g_qd := []; g_ne := false; g_outs := []; g_fin := []; g_rep := false; g_left := 0 |}.

Section Invariant.
Context `{Foldhash} `{Hc : BatchCoalescer row} `{!BatchCoalescerOk row}.
Context (cfg : HashJoinConfig) (on : list (PhysicalExpr * PhysicalExpr)) (Hcfg : cfg_ok cfg on).
Context (ls : list row) (ld : JoinLeftData) (mi : map_index) (order : list nat)
        (Hlo : left_ok (null_equality cfg) on ls ld mi order).
Context (Hfetch : fetch cfg = None).

Abbreviation jt := (join_type cfg).
Abbreviation m := (join_cond cfg on).
Abbreviation lbatch := (ld_batch ld).
Abbreviation out_rows := (fmap (M := list) (JoinSchema.output_row (column_indices cfg))).
Abbreviation candidates := (JoinBuild.candidates on ld mi).
Abbreviation needs_final := (need_produce_result_in_final (join_type cfg) = true).
Abbreviation has_null_key := (existsb (null_key on.*2)).

(** ** The invariant *)

(** Between batches: nothing is left of the current batch. *)
Record idle (g : ghost) : Prop := {
  id_qd : g_qd g = [];
  id_ne : g_ne g = bool_decide (0 < length (g_ds g));
  id_outs : g_outs g ≡ₚ right_part jt m ls (g_ds g);
}.

(** Within the batch [P], with the pages [qs] done and the pairs [ps0] to come. *)
Record in_batch (rbs rest : list (list row)) (s : HashJoinStream) (st : ProcessProbeBatchState) (g : ghost)
    (P : list row) (ps0 : list (nat * nat)) (qs : list (list (nat * nat)))
    (outs1 : list (jout row row)) (pre : list (jout nat nat)) : Prop := {
  ib_batch : ps_batch st = P;
  ib_values : ps_values st = evaluate_expressions (on_right cfg) P;
  ib_hashes : hashes_ready on ld s P;
  ib_right : right s = Ok <$> rest;
  ib_rows : g_ds g ++ P ++ concat rest = concat rbs;
  ib_offset : left_at (null_equality cfg) on ld mi P (ps_offset st) ps0;
  ib_pairs : pairs_in (length lbatch) (length P) ps0;
  ib_left : (length P - (ps_offset st).1) + length ps0 ≤ g_left g;
  ib_qs : concat qs = g_qd g;
  ib_matches : g_qd g ++ joined cfg on ld P ps0 = matches_from ld order m 0 P;
  ib_ne : g_ne g = bool_decide (0 < length (g_ds g)) ∨
          g_ne g = bool_decide (0 < length (g_ds g)) || bool_decide (0 < length P);
  ib_outs : g_outs g = outs1 ++ (fill lbatch P <$> pre);
  ib_outs1 : outs1 ≡ₚ right_part jt m ls (g_ds g);
  ib_pages : ∀ qs', qs' ≠ [] →
    pages_output jt (right_side_ordered cfg) (length P) 0 (qs ++ qs') =
    pre ++ pages_output jt (right_side_ordered cfg) (length P) (start_of (joined_probe_idx st)) qs';
  ib_empty : ls = [] → jfilter cfg = None → pre = [];
}.

Definition probing (s : HashJoinStream) (g : ghost) : Prop :=
  build_side s = Some ld ∧ finished (output_buffer s) = false ∧ g_rep g = false ∧ g_fin g = [].

Definition phase (hn : bool) (rbs : list (list row)) (s : HashJoinStream) (g : ghost) : Prop :=
  match state s with
  | WaitBuildSide =>
      build_side s = None ∧ finished (output_buffer s) = false ∧ right s = Ok <$> rbs ∧ g = fresh
  | FetchProbeBatch =>
      probing s g ∧ idle g ∧ ∃ rest, right s = Ok <$> rest ∧ g_ds g ++ concat rest = concat rbs
  | ProcessProbeBatch st =>
      probing s g ∧ ∃ rest P ps0 qs outs1 pre, in_batch rbs rest s st g P ps0 qs outs1 pre
  | ExhaustedProbeSide => probing s g ∧ idle g ∧ g_ds g = concat rbs
  | Completed =>
      idle g ∧ g_ds g = concat rbs ∧ (needs_final → g_rep g = true ∨ null_aware cfg = true ∧ hn = true)
  end.

Record tinv (hn : bool) (rbs : list (list row)) (t : thread) (g : ghost) : Prop := {
  ti_out : holds (fetch cfg) (output_buffer (th_stream t)) (out_rows (g_outs g ++ g_fin g)) (th_out t);
  ti_phase : phase hn rbs (th_stream t) g;
  ti_status : match th_status t with
              | Polling => True
              | Ended => state (th_stream t) = Completed ∧ th_out t = out_rows (g_outs g ++ g_fin g)
              | Errored _ => False
              end;
}.

(** A build row this partition has visited. *)
Definition visited_by (b : nat) (g : ghost) : bool :=
  left_matched m (g_ds g) (row_of lbatch b) || bool_decide (b ∈ (g_qd g).*2).

Definition unreported (g : ghost) : nat := if g_rep g then 0 else 1.

Definition null_free (sh : Shared) : Prop := null_aware cfg = true → probe_side_has_null sh = false.

(** The shared state, as the sum of what the partitions did. *)
Record sinv (gs : list ghost) (sh : Shared) : Prop := {
  si_counter : needs_final → probe_threads_counter sh = N.of_nat (sum_list_with unreported gs);
  si_null : null_aware cfg = true →
    probe_side_has_null sh = existsb (λ g, has_null_key (g_ds g)) gs ∧ probe_side_non_empty sh = existsb g_ne gs;
  si_length : needs_final → length (visited_indices_bitmap sh) = length lbatch;
  si_bits : needs_final → null_free sh → ∀ b, b < length lbatch →
    get_bit (visited_indices_bitmap sh) b = existsb (visited_by b) gs;
  si_fin : concat (g_fin <$> gs) ≡ₚ
    if decide (needs_final ∧ probe_threads_counter sh = 0%N)
    then final_part cfg on ls (concat (g_ds <$> gs)) (existsb g_ne gs) else [];
  si_rep : Forall (λ g, g_rep g = true → g_qd g = []) gs;
  si_seen : null_aware cfg = true → probe_side_has_null sh = true → sum_list_with unreported gs ≠ 0;
}.

(** ** How a poll changes it *)

(** What a partition that is still probing does to the shared state. *)
Record effect (g : ghost) (sh : Shared) (g' : ghost) (sh' : Shared) : Prop := {
  ef_counter : probe_threads_counter sh' = probe_threads_counter sh;
  ef_rep : g_rep g = false ∧ g_rep g' = false;
  ef_fin : g_fin g' = g_fin g;
  ef_null : null_aware cfg = true → ∃ e,
    has_null_key (g_ds g') = has_null_key (g_ds g) || e ∧ probe_side_has_null sh' = probe_side_has_null sh || e;
  ef_ne : null_aware cfg = true → ∃ e,
    g_ne g' = g_ne g || e ∧ probe_side_non_empty sh' = probe_side_non_empty sh || e;
  ef_length : length (visited_indices_bitmap sh') = length (visited_indices_bitmap sh);
  ef_bits : needs_final → null_free sh' → ∀ b, b < length lbatch → ∃ e,
    visited_by b g' = visited_by b g || e ∧
    get_bit (visited_indices_bitmap sh') b = get_bit (visited_indices_bitmap sh) b || e;
}.

Lemma unreported_pos gs i g : gs !! i = Some g → g_rep g = false → sum_list_with unreported gs ≠ 0.
Proof.
  intros Hi Hr. pose proof (sum_insert unreported gs i g {| g_ds := []; g_qd := []; g_ne := false; g_outs := [];
    g_fin := []; g_rep := true; g_left := 0 |} Hi) as E. unfold unreported in E at 2 4. rewrite Hr in E. cbn in E. lia.
Qed.

Lemma sinv_effect gs sh i g g' sh' :
  sinv gs sh → gs !! i = Some g → effect g sh g' sh' → sinv (<[i := g']> gs) sh'.
Proof.
  intros [Hcnt Hnull Hlen Hbits Hfin Hrep Hseen] Hi [Ec [Er Er'] Ef En Ene El Eb].
  pose proof (unreported_pos gs i g Hi Er) as Hpos. split.
  - intros Hn. rewrite Ec, (Hcnt Hn). f_equal. pose proof (sum_insert unreported gs i g g' Hi) as E.
    unfold unreported in E at 2 4. rewrite Er, Er' in E. lia.
  - intros Hna. destruct (Hnull Hna) as [H1 H2]. destruct (En Hna) as (e & E1 & E2), (Ene Hna) as (e' & E3 & E4).
    rewrite E2, E4, H1, H2. by rewrite !(existsb_insert _ gs i g g' _ Hi) by done.
  - intros Hn. by rewrite El, Hlen.
  - intros Hn Hnf b Hb. destruct (Eb Hn Hnf b Hb) as (e & E1 & ->).
    rewrite (existsb_insert _ gs i g g' e Hi E1), Hbits; [done..| |done].
    intros Hna. specialize (Hnf Hna). destruct (En Hna) as (e' & _ & E2). rewrite E2 in Hnf.
    by apply orb_false_iff in Hnf as [? _].
  - rewrite (concat_insert g_fin gs i g g' []), app_nil_r by (done || by rewrite Ef, app_nil_r). rewrite Hfin.
    rewrite !decide_False; [done|..]; intros [Hn Hz]; rewrite ?Ec in Hz; rewrite (Hcnt Hn) in Hz; lia.
  - apply Forall_insert; [done|congruence].
  - intros _ _. eapply unreported_pos; [|exact Er']. apply list_lookup_insert_eq. by eapply lookup_lt_Some.
Qed.

(** A poll that leaves the shared state and what counts for it alone. *)
Lemma sinv_quiet gs sh i g g' :
  sinv gs sh → gs !! i = Some g → g_ds g' = g_ds g → g_qd g' = g_qd g → g_ne g' = g_ne g → g_fin g' = g_fin g →
  g_rep g' = g_rep g → sinv (<[i := g']> gs) sh.
Proof.
  intros [Hcnt Hnull Hlen Hbits Hfin Hrep Hseen] Hi Ed Eq Ene Ef Er.
  assert (Hex : ∀ f : ghost → bool, f g' = f g → existsb f (<[i := g']> gs) = existsb f gs).
  { intros f Hf. rewrite (existsb_insert f gs i g g' false Hi); rewrite ?orb_false_r; done. }
  assert (Hds : concat (g_ds <$> <[i := g']> gs) = concat (g_ds <$> gs)).
  { f_equal. rewrite list_fmap_insert, list_insert_id; [done|]. by rewrite list_lookup_fmap, Hi, Ed. }
  split.
  - intros Hn. rewrite (Hcnt Hn). f_equal. pose proof (sum_insert unreported gs i g g' Hi) as E.
    unfold unreported in E at 2 4. rewrite Er in E. lia.
  - intros Hna. rewrite !Hex by (by rewrite ?Ed, ?Ene). by apply Hnull.
  - done.
  - intros Hn Hnf b Hb. rewrite Hex by (unfold visited_by; by rewrite Ed, Eq). by apply Hbits.
  - rewrite (concat_insert g_fin gs i g g' []), app_nil_r by (done || by rewrite Ef, app_nil_r).
    rewrite Hds, (Hex g_ne) by done. exact Hfin.
  - apply Forall_insert; [done|]. rewrite Er, Eq. rewrite Forall_lookup in Hrep. by eapply Hrep.
  - intros Hna Hhn. pose proof (sum_insert unreported gs i g g' Hi) as E. unfold unreported in E at 2 4.
    rewrite Er in E. specialize (Hseen Hna Hhn). lia.
Qed.

(** ** Polling a partition *)

Definition cost_batch (P : list row) : nat := 3 + length P + length (candidates 0 P).

Definition cost (right : list (Result (list row))) : nat :=
  sum_list_with (λ x, match x with Ok P => cost_batch P | Err _ => 0 end) right.

(** A bound on the polls to come that yield nothing. *)
Definition work (t : thread) (g : ghost) : nat :=
  match th_status t with
  | Polling =>
      match state (th_stream t) with
      | WaitBuildSide => 6 + cost (right (th_stream t))
      | FetchProbeBatch => 5 + cost (right (th_stream t))
      | ProcessProbeBatch _ => 6 + g_left g + cost (right (th_stream t))
      | ExhaustedProbeSide => 4
      | Completed => if finished (output_buffer (th_stream t)) then 1 else 2
      end
  | _ => 0
  end.

Definition queued (t : thread) : nat := length (completed (co_inner (output_buffer (th_stream t)))).

(** Polling partition [i] keeps the invariant and makes progress. *)
Definition advances (rbs : list (list row)) (gs : list ghost) (i : nat) (t : thread) (g : ghost) (sh : Shared) : Prop :=
  ∃ t' sh' g', poll_thread cfg (Ok ld) t sh = Some (t', sh') ∧
    tinv (probe_side_has_null sh') rbs t' g' ∧ sinv (<[i := g']> gs) sh' ∧
    (probe_side_has_null sh = true → probe_side_has_null sh' = true) ∧
    (work t' g' < work t g ∨ work t' g' = work t g ∧ queued t' < queued t).

Abbreviation pushed g := (out_rows (g_outs g ++ g_fin g)).

Lemma advances_running rbs gs i t g sh s' sh' g' :
  th_status t = Polling → poll_step cfg (Ok ld) (th_stream t) sh = Some (Running, s', sh') →
  holds (fetch cfg) (output_buffer s') (pushed g') (th_out t) → phase (probe_side_has_null sh') rbs s' g' →
  sinv (<[i := g']> gs) sh' → (probe_side_has_null sh = true → probe_side_has_null sh' = true) →
  work {| th_stream := s'; th_out := th_out t; th_status := Polling |} g' < work t g →
  advances rbs gs i t g sh.
Proof.
  intros Hst Hp Hh Hph Hsi Hmono Hw. eexists _, sh', g'. split; [unfold poll_thread; by rewrite Hp|].
  split_and!; [by split|done|done|by left].
Qed.

(** Completed batches first. *)
Lemma advances_yield rbs gs i t g sh :
  sinv gs sh → gs !! i = Some g → tinv (probe_side_has_null sh) rbs t g → th_status t = Polling →
  completed (co_inner (output_buffer (th_stream t))) ≠ [] → advances rbs gs i t g sh.
Proof.
  intros Hsi Hi [Hh Hph _] Hst Hne. pose proof (next_holds _ _ _ _ Hh) as Hn.
  destruct (next_completed_batch (output_buffer (th_stream t))) as [[b|] c] eqn:E; [|by destruct Hn].
  destruct Hn as (Hh' & Hf & Hl & _).
  eexists _, sh, g. split; [unfold poll_thread, poll_step; by rewrite E|]. split_and!.
  - split; cbn; [done| |done]. unfold phase in *. cbn. destruct (state (th_stream t)); try done;
      unfold probing in *; cbn; rewrite ?Hf; try done.
    destruct Hph as [Hp (rest & P & ps0 & qs & outs1 & pre & Hb)]. split; [done|].
    exists rest, P, ps0, qs, outs1, pre. by destruct Hb.
  - rewrite list_insert_id; done.
  - done.
  - right. unfold work, queued. rewrite Hst. cbn. rewrite Hf. split; [done|lia].
Qed.

Lemma advances_finished rbs gs i t g sh :
  sinv gs sh → gs !! i = Some g → tinv (probe_side_has_null sh) rbs t g → th_status t = Polling →
  completed (co_inner (output_buffer (th_stream t))) = [] →
  finished (output_buffer (th_stream t)) = true → advances rbs gs i t g sh.
Proof.
  intros Hsi Hi [Hh Hph _] Hst Hd Hf.
  assert (Hs : state (th_stream t) = Completed).
  { unfold phase, probing in Hph. destruct (state (th_stream t)); try done; exfalso; naive_solver congruence. }
  assert (Hp : poll_step cfg (Ok ld) (th_stream t) sh = Some (Finished, th_stream t, sh)).
  { unfold poll_step. pose proof (next_holds _ _ _ _ Hh) as Hn.
    destruct (next_completed_batch (output_buffer (th_stream t))) as [[b|] c] eqn:E.
    - destruct Hn as (_ & _ & Hl & _). by rewrite Hd in Hl.
    - destruct Hn as [-> _]. unfold is_finished. by rewrite Hf, set_output_same. }
  eexists _, sh, g. split; [unfold poll_thread; by rewrite Hp|]. split_and!.
  - split; cbn; [done|done|]. split; [done|]. erewrite (drained _ _ _ _ Hh) by (done || by left). by rewrite Hfetch.
  - by rewrite list_insert_id.
  - done.
  - left. unfold work. cbn. rewrite Hst, Hs, Hf. lia.
Qed.

(** A null-aware join looks at the key column of every batch it processes. *)
Lemma null_count_exists (e : PhysicalExpr) (P : list row) :
  bool_decide (0 < HashUtils.null_count (map (Expr.evaluate e) P)) = existsb (null_key [e]) P.
Proof.
  unfold HashUtils.null_count. induction P as [|r P IH]; [done|]. cbn [map existsb]. rewrite filter_cons, <- IH.
  unfold null_key at 1. cbn [existsb]. rewrite ?orb_false_r.
  destruct (decide (Expr.evaluate e r = None)) as [E|E]; [rewrite (bool_decide_true _ E)|rewrite (bool_decide_false _ E)].
  - by rewrite bool_decide_true by (cbn; lia).
  - done.
Qed.

Lemma note_nulls_eq st sh P :
  ps_batch st = P → ps_values st = evaluate_expressions (on_right cfg) P →
  ∃ sh1, note_nulls cfg st sh = Some (null_aware cfg && (has_null_key P || probe_side_has_null sh), sh1) ∧
    visited_indices_bitmap sh1 = visited_indices_bitmap sh ∧ probe_threads_counter sh1 = probe_threads_counter sh ∧
    (null_aware cfg = true → probe_side_has_null sh1 = probe_side_has_null sh || has_null_key P ∧
      probe_side_non_empty sh1 = probe_side_non_empty sh || bool_decide (0 < length P)) ∧
    (null_aware cfg = false → probe_side_has_null sh1 = probe_side_has_null sh).
Proof.
  intros <- Hv. unfold note_nulls. destruct (null_aware cfg) eqn:Hna; [|by exists sh].
  destruct (co_null_aware _ _ Hcfg Hna) as [_ Hlen].
  assert (∃ p, on = [p]) as [p Eon] by (destruct on as [|p [|]]; try done; by exists p).
  assert (Hcol : vec_get (ps_values st) 0 = Some (map (Expr.evaluate p.2) (ps_batch st)))
    by (rewrite Hv, (co_right _ _ Hcfg), Eon; done).
  rewrite Hcol. cbn [mbind option_bind]. rewrite null_count_exists.
  replace (has_null_key (ps_batch st)) with (existsb (null_key [p.2]) (ps_batch st)) by (by rewrite Eon).
  set (e := existsb (null_key [p.2]) (ps_batch st)).
  replace (if e then true else probe_side_has_null sh) with (e || probe_side_has_null sh) by (by destruct e).
  eexists. split; [done|]. cbn. split_and!; [done|done| |done].
  intros _. split; [apply orb_comm|]. case_bool_decide; [by rewrite orb_true_r|by rewrite orb_false_r].
Qed.

Lemma advances_wait rbs gs i t g sh :
  sinv gs sh → gs !! i = Some g → tinv (probe_side_has_null sh) rbs t g → th_status t = Polling →
  completed (co_inner (output_buffer (th_stream t))) = [] → finished (output_buffer (th_stream t)) = false →
  state (th_stream t) = WaitBuildSide → advances rbs gs i t g sh.
Proof.
  intros Hsi Hi [Hh Hph _] Hst Hd Hf Hs. pose proof (poll_ready cfg (Ok ld) _ sh Hd Hf) as Hp. rewrite Hs in Hp.
  unfold phase in Hph. rewrite Hs in Hph. destruct Hph as (Hb & _ & Hr & ->).
  unfold collect_build_side in Hp. rewrite Hb in Hp. cbn [mbind Result_bind try_bind handle_state option_bind] in Hp.
  eapply advances_running; [done|exact Hp|exact Hh| |by rewrite list_insert_id|done|].
  - cbn. split; [done|]. split; [split; [done|done|by rewrite right_part_nil]|]. exists rbs. by cbn.
  - unfold work. rewrite Hst, Hs. cbn [th_status th_stream state right]. lia.
Qed.

Lemma advances_fetch rbs gs i t g sh :
  probe_fits cfg mi (concat rbs) → sinv gs sh → gs !! i = Some g → tinv (probe_side_has_null sh) rbs t g → th_status t = Polling →
  completed (co_inner (output_buffer (th_stream t))) = [] → finished (output_buffer (th_stream t)) = false →
  state (th_stream t) = FetchProbeBatch → advances rbs gs i t g sh.
Proof.
  intros Hfit Hsi Hi [Hh Hph _] Hst Hd Hf Hs. pose proof (poll_ready cfg (Ok ld) _ sh Hd Hf) as Hp. rewrite Hs in Hp.
  unfold phase in Hph. rewrite Hs in Hph. destruct Hph as ((Hb & _ & Hre & Hfi) & Hid & rest & Hr & Hds).
  unfold fetch_probe_batch in Hp. rewrite Hr, Hb in Hp. destruct rest as [|P rest].
  - cbn in Hp. eapply advances_running; [done|exact Hp|exact Hh| |by rewrite list_insert_id|done|].
    + cbn. split; [done|]. split; [done|]. by rewrite app_nil_r in Hds.
    + unfold work. rewrite Hst, Hs. cbn [th_status th_stream state set_state]. lia.
  - cbn [fmap list_fmap ok_or mbind Result_bind try_bind handle_state option_bind] in Hp.
    rewrite <- Hds in Hfit. apply probe_fits_app in Hfit as [_ Hfit]. cbn in Hfit. apply probe_fits_app in Hfit as [Hfit _].
    pose proof (fits_rows cfg mi P Hfit) as HF. set (L := length P + length (candidates 0 P)).
    eapply (advances_running _ _ _ _ _ _ _ _ {| g_ds := g_ds g; g_qd := g_qd g; g_ne := g_ne g; g_outs := g_outs g;
      g_fin := g_fin g; g_rep := g_rep g; g_left := L |}); [done|exact Hp|exact Hh| |by eapply sinv_quiet|done|].
    + cbn. split; [done|]. exists rest, P, (candidates 0 P), [], (g_outs g), [].
      destruct Hid as [Hq Hne Ho]. split; cbn; try done.
      * unfold hashes_ready. destruct (ld_map ld); [|done]. cbn. by rewrite create_key_hashes_ok, (co_right _ _ Hcfg).
      * by apply (left_at_start _ on ls ld mi order Hlo).
      * eapply Forall_impl; [by eapply candidates_in|]. cbn. lia.
      * unfold L. lia.
      * rewrite Hq. cbn.
        exact (filter_candidates _ on ls ld mi order Hlo m (join_cond_keys cfg on) [] P HF).
      * by left.
      * by rewrite app_nil_r.
    + unfold work. rewrite Hst, Hs, Hr. cbn [th_status th_stream state right g_left].
      unfold cost. cbn [fmap list_fmap sum_list_with]. unfold cost_batch, L. lia.
Qed.

(** ** Processing a batch *)

Lemma pages_output_anti ordered n start qs : pages_output LeftAnti ordered n start qs = [].
Proof.
  revert start. induction qs as [|q qs IH]; intros start; [done|]. destruct qs as [|q' qs]; [done|].
  change (page_output LeftAnti ordered q (start, page_stop q) ++
    pages_output LeftAnti ordered n (page_next start q) (q' :: qs) = []). by rewrite IH.
Qed.

(** The partition after a batch. *)
Definition batch_ghost (g : ghost) (P : list row) (more : list (jout row row)) : ghost :=
  {| g_ds := g_ds g ++ P; g_qd := []; g_ne := bool_decide (0 < length (g_ds g ++ P)); g_outs := g_outs g ++ more;
     g_fin := g_fin g; g_rep := g_rep g; g_left := 0 |}.

Lemma ne_batch g P :
  g_ne g = bool_decide (0 < length (g_ds g)) ∨
  g_ne g = bool_decide (0 < length (g_ds g)) || bool_decide (0 < length P) →
  bool_decide (0 < length (g_ds g ++ P)) = g_ne g || bool_decide (0 < length P).
Proof.
  intros Hne. rewrite length_app.
  replace (bool_decide (0 < length (g_ds g) + length P))
    with (bool_decide (0 < length (g_ds g)) || bool_decide (0 < length P)).
  - destruct Hne as [->| ->]; [done|]. by rewrite <- orb_assoc, orb_diag.
  - rewrite <- bool_decide_or. apply bool_decide_ext. lia.
Qed.

(** The flags a batch sets. *)
Lemma batch_flags g P sh sh1 more :
  g_ne g = bool_decide (0 < length (g_ds g)) ∨
    g_ne g = bool_decide (0 < length (g_ds g)) || bool_decide (0 < length P) →
  (null_aware cfg = true → probe_side_has_null sh1 = probe_side_has_null sh || has_null_key P ∧
      probe_side_non_empty sh1 = probe_side_non_empty sh || bool_decide (0 < length P)) →
  (null_aware cfg = true → ∃ e, has_null_key (g_ds (batch_ghost g P more)) = has_null_key (g_ds g) || e ∧
     probe_side_has_null sh1 = probe_side_has_null sh || e) ∧
  (null_aware cfg = true → ∃ e, g_ne (batch_ghost g P more) = g_ne g || e ∧
     probe_side_non_empty sh1 = probe_side_non_empty sh || e).
Proof.
  intros Hne Hfl. split; intros Hna; destruct (Hfl Hna) as [E1 E2]; cbn.
  - exists (has_null_key P). by rewrite existsb_app.
  - exists (bool_decide (0 < length P)). by rewrite ne_batch.
Qed.

(** Once a null was seen, a batch is skipped. *)
Lemma process_skip rbs rest s st g sh P ps0 qs outs1 pre :
  probing s g → in_batch rbs rest s st g P ps0 qs outs1 pre →
  null_aware cfg = true → has_null_key P || probe_side_has_null sh = true →
  ∃ s' sh' g', process_probe_batch cfg st s sh = Some (Ok (s', sh')) ∧ state s' = FetchProbeBatch ∧
    build_side s' = Some ld ∧ right s' = Ok <$> rest ∧ output_buffer s' = output_buffer s ∧
    g' = batch_ghost g P [] ∧ idle g' ∧ effect g sh g' sh' ∧ probe_side_has_null sh' = true.
Proof.
  intros (Hb & Hf & Hrep & Hfin) [Hbat Hval _ Hri _ _ _ _ _ _ Hne Hout Hout1 Hpg _] Hna Hnull.
  destruct (note_nulls_eq st sh P Hbat Hval) as (sh1 & Hnn & Hbm & Hcn & Hfl & _).
  destruct (co_null_aware _ _ Hcfg Hna) as [Hjt _]. destruct (batch_flags g P sh sh1 [] Hne Hfl) as [E1 E2].
  assert (Hnull1 : probe_side_has_null sh1 = true) by (destruct (Hfl Hna) as [-> _]; by rewrite orb_comm).
  unfold process_probe_batch. rewrite Hb, Hnn, Hna, Hnull. cbn [ok_or try_bind mbind option_bind andb].
  eexists _, sh1, _. split_and!; [done|done|exact Hb|exact Hri|done|done| | |done].
  - split; cbn; [done|done|]. rewrite app_nil_r, Hout. rewrite Hjt in *. cbn [right_part] in *.
    apply Permutation_nil_r in Hout1 as ->. specialize (Hpg [[]] ltac:(done)). rewrite !pages_output_anti in Hpg.
    symmetry in Hpg. by apply app_eq_nil in Hpg as [-> _].
  - split; cbn; [done|done|done|exact E1|exact E2|by rewrite Hbm|]. intros _ Hnf. specialize (Hnf Hna). congruence.
Qed.

Lemma left_rows_empty : ls = [] → length lbatch = 0.
Proof.
  intros Hls. pose proof (lo_rows _ _ _ _ _ _ Hlo) as E. rewrite Hls in E. apply fmap_nil_inv in E.
  pose proof (lo_perm _ _ _ _ _ _ Hlo) as Hp. rewrite E in Hp. apply Permutation_nil_l in Hp.
  apply (f_equal length) in Hp. by rewrite length_seq in Hp.
Qed.

(** An empty build side without a filter is not looked up. *)
Lemma process_empty rbs rest s st g sh out P ps0 qs outs1 pre :
  probing s g → in_batch rbs rest s st g P ps0 qs outs1 pre →
  holds (fetch cfg) (output_buffer s) (pushed g) out →
  null_aware cfg && (has_null_key P || probe_side_has_null sh) = false → ls = [] → jfilter cfg = None →
  ∃ s' sh' g', process_probe_batch cfg st s sh = Some (Ok (s', sh')) ∧ state s' = FetchProbeBatch ∧
    build_side s' = Some ld ∧ right s' = Ok <$> rest ∧ finished (output_buffer s') = false ∧
    holds (fetch cfg) (output_buffer s') (pushed g') out ∧
    g' = batch_ghost g P (right_part jt m ls P) ∧ idle g' ∧ effect g sh g' sh' ∧
    (probe_side_has_null sh = true → probe_side_has_null sh' = true).
Proof.
  intros (Hb & Hf & Hrep & Hfin) [Hbat Hval _ Hri _ _ _ _ _ _ Hne Hout Hout1 _ Hem] Hh Hnull Hls Hfil.
  destruct (note_nulls_eq st sh P Hbat Hval) as (sh1 & Hnn & Hbm & Hcn & Hfl & Hfl0).
  destruct (batch_flags g P sh sh1 (right_part jt m ls P) Hne Hfl) as [E1 E2].
  unfold process_probe_batch. rewrite Hb, Hnn, Hnull. cbn [ok_or try_bind mbind option_bind].
  rewrite (bool_decide_true (_ = None)), (proj2 (lo_empty _ _ _ _ _ _ Hlo) Hls) by done.
  cbn [andb output_buffer set_metrics]. rewrite Hbat, (empty_build_rows cfg on ls ld mi order Hlo P Hls).
  destruct (push_batch_holds _ _ _ _ (out_rows (right_part jt m ls P)) Hh Hf) as (pst & c & -> & Hh2 & Hf2 & _).
  cbn [try_bind]. eexists _, sh1, _. split_and!; [done|done|exact Hb|exact Hri|done| |done| | |].
  - cbn. rewrite Hfin, app_nil_r in Hh2 |- *. by rewrite <- fmap_app in Hh2.
  - split; cbn; [done|done|]. rewrite Hout, (Hem Hls Hfil). cbn. by rewrite app_nil_r, Hout1, right_part_app.
  - split; cbn; [done|done|done|exact E1|exact E2|by rewrite Hbm|]. intros _ _ b Hbl.
    rewrite (left_rows_empty Hls) in Hbl. lia.
  - intros Hn. destruct (null_aware cfg); [|by rewrite Hfl0]. destruct (Hfl eq_refl) as [-> _]. by rewrite Hn.
Qed.

(** The partition after a page that is not the last of its batch. *)
Definition page_ghost (g : ghost) (P : list row) (q : list (nat * nat)) (more : list (jout row row)) (left : nat) : ghost :=
  {| g_ds := g_ds g; g_qd := g_qd g ++ q; g_ne := g_ne g || bool_decide (0 < length P); g_outs := g_outs g ++ more;
     g_fin := g_fin g; g_rep := g_rep g; g_left := left |}.

Lemma visited_page g P q more left b :
  visited_by b (page_ghost g P q more left) = visited_by b g || bool_decide (b ∈ q.*2).
Proof.
  unfold visited_by. cbn. rewrite <- orb_assoc, <- bool_decide_or. f_equal. apply bool_decide_ext.
  by rewrite fmap_app, elem_of_app.
Qed.

Lemma visited_batch g P q more b :
  g_qd g ++ q = matches_from ld order m 0 P → b < length lbatch →
  visited_by b (batch_ghost g P more) = visited_by b g || bool_decide (b ∈ q.*2).
Proof.
  intros Hq Hb. unfold visited_by. cbn. rewrite (bool_decide_false (b ∈ [])) by (by intros ?%elem_of_nil).
  rewrite orb_false_r. unfold left_matched at 1. rewrite existsb_app, <- orb_assoc, <- bool_decide_or. f_equal.
  apply eq_true_iff_eq. rewrite bool_decide_eq_true, <- elem_of_app, <- fmap_app, Hq. symmetry.
  apply visited_row. by apply (order_in cfg on ls ld mi order Hlo).
Qed.

(** The shared state after a page: the flags of the batch, and the marks. *)
Lemma page_effect g sh sh1 sh2 g' (q : list (nat * nat)) :
  probe_threads_counter sh1 = probe_threads_counter sh → visited_indices_bitmap sh1 = visited_indices_bitmap sh →
  marks jt sh1 q.*2 sh2 → g_rep g = false ∧ g_rep g' = false → g_fin g' = g_fin g →
  (null_aware cfg = true → ∃ e, has_null_key (g_ds g') = has_null_key (g_ds g) || e ∧
     probe_side_has_null sh1 = probe_side_has_null sh || e) →
  (null_aware cfg = true → ∃ e, g_ne g' = g_ne g || e ∧ probe_side_non_empty sh1 = probe_side_non_empty sh || e) →
  (∀ b, b < length lbatch → visited_by b g' = visited_by b g || bool_decide (b ∈ q.*2)) →
  effect g sh g' sh2.
Proof.
  intros Hcn Hbm [Mc Mn Mh Ml Mb] Hr Hf E1 E2 Hv. split; rewrite ?Mh, ?Mn; try done.
  - by rewrite Mc.
  - by rewrite Ml, Hbm.
  - intros Hn _ b Hb. exists (bool_decide (b ∈ q.*2)). split; [by apply Hv|]. by rewrite (Mb Hn), Hbm.
Qed.

Abbreviation ordered := (right_side_ordered cfg).

(** A page in the middle of a batch leaves the partition in that batch. *)
Lemma in_batch_advance rbs rest s s' st g P ps0 ps ps1 o qs outs1 pre :
  let q := joined cfg on ld P ps in
  let more := page_out cfg ld P (start_of (joined_probe_idx st)) (Some o) q in
  in_batch rbs rest s st g P ps0 qs outs1 pre →
  ps0 = ps ++ ps1 → left_at (null_equality cfg) on ld mi P o ps1 →
  hashes_buffer s' = hashes_buffer s → right s' = right s → ls ≠ [] ∨ jfilter cfg ≠ None →
  in_batch rbs rest s' (advance st o (fst <$> last q)) (page_ghost g P q more ((length P - o.1) + length ps1))
    P ps1 (qs ++ [q]) outs1 (pre ++ page_output jt ordered q (start_of (joined_probe_idx st), page_stop q)).
Proof.
  intros q more [Hbat Hval Hhash Hri Hrow Hoff Hpair Hleft Hqs Hmat Hne Hout Hout1 Hpg Hem] Hps Hat Hh2 Hr' Hlive.
  assert (Hj : joined cfg on ld P ps0 = q ++ joined cfg on ld P ps1) by (rewrite Hps; apply filter_app).
  split; cbn; try done.
  - unfold hashes_ready in *. by rewrite Hh2.
  - by rewrite Hr'.
  - rewrite Hps in Hpair. by apply Forall_app in Hpair as [_ ?].
  - rewrite concat_app. cbn. by rewrite app_nil_r, Hqs.
  - by rewrite <- (assoc_L (++)), <- Hj.
  - right. destruct Hne as [->| ->]; [done|]. by rewrite <- orb_assoc, orb_diag.
  - rewrite Hout, fmap_app, (assoc_L (++)). done.
  - intros qs' Hq'. rewrite <- (assoc_L (++)), Hpg by done. rewrite <- (assoc_L (++)). f_equal.
    destruct qs' as [|q2 qs']; [done|].
    pose proof (start_advance st o q) as Hsa. cbn in Hsa. by rewrite Hsa.
  - intros Hls Hfil. naive_solver.
Qed.

(** The last page of a batch leaves it between batches. *)
Lemma in_batch_last rbs rest s st g P ps0 qs outs1 pre :
  let q := joined cfg on ld P ps0 in
  in_batch rbs rest s st g P ps0 qs outs1 pre →
  idle (batch_ghost g P (page_out cfg ld P (start_of (joined_probe_idx st)) None q)).
Proof.
  intros q [_ _ _ _ _ _ _ _ Hqs Hmat _ Hout Hout1 Hpg _]. split; cbn; [done|done|].
  rewrite Hout, <- (assoc_L (++)), <- right_part_app. f_equiv; [done|].
  destruct (batch_output cfg on ls ld mi order Hlo P (qs ++ [q])) as [Hbo _]; [by destruct qs| |].
  { rewrite concat_app. cbn. by rewrite app_nil_r, Hqs. }
  rewrite Hpg in Hbo by done. rewrite fmap_app in Hbo. exact Hbo.
Qed.

(** A page of matches. *)
Lemma process_live rbs rest s st g sh out P ps0 qs outs1 pre :
  probe_fits cfg mi (concat rbs) → probing s g → in_batch rbs rest s st g P ps0 qs outs1 pre →
  holds (fetch cfg) (output_buffer s) (pushed g) out →
  (needs_final → length (visited_indices_bitmap sh) = length lbatch) →
  null_aware cfg && (has_null_key P || probe_side_has_null sh) = false → ls ≠ [] ∨ jfilter cfg ≠ None →
  ∃ s' sh' g', process_probe_batch cfg st s sh = Some (Ok (s', sh')) ∧
    build_side s' = Some ld ∧ right s' = Ok <$> rest ∧ finished (output_buffer s') = false ∧
    holds (fetch cfg) (output_buffer s') (pushed g') out ∧ effect g sh g' sh' ∧
    (probe_side_has_null sh = true → probe_side_has_null sh' = true) ∧
    (state s' = FetchProbeBatch ∧ idle g' ∧ g_ds g' = g_ds g ++ P ∨
     ∃ st', state s' = ProcessProbeBatch st' ∧ g_left g' < g_left g ∧
       ∃ ps1 qs' pre', in_batch rbs rest s' st' g' P ps1 qs' outs1 pre').
Proof.
  intros Hfit (Hb & Hf & Hrep & Hfin) Hib Hh Hbl Hnull Hlive. pose proof Hib as [Hbat Hval Hhash Hri Hrow Hoff Hpair Hleft Hqs Hmat Hne Hout Hout1 Hpg Hem].
  destruct (note_nulls_eq st sh P Hbat Hval) as (sh1 & Hnn & Hbm & Hcn & Hfl & Hfl0). rewrite Hnull in Hnn.
  assert (Hmono : probe_side_has_null sh = true → probe_side_has_null sh1 = true).
  { intros Hn. destruct (null_aware cfg); [|by rewrite Hfl0]. destruct (Hfl eq_refl) as [-> _]. by rewrite Hn. }
  rewrite <- Hrow in Hfit. apply probe_fits_app in Hfit as [_ [Hfit _]%probe_fits_app].
  subst P. destruct (process_page cfg on Hcfg ls ld mi order Hlo st s sh sh1 (pushed g) out ps0)
    as (ps & ps1 & off' & sh2 & s' & Hrest & Hmk & Hpp & Hh' & Hb' & Hr' & Hh2 & Hst'); try done.
  { by rewrite Hbm. }
  set (P := ps_batch st) in *. set (q := joined cfg on ld P ps) in *. cbn zeta in *.
  destruct Hst' as [[_ Hlim]|[Hf' Hst']]; [by rewrite Hfetch in Hlim|].
  assert (Hj : joined cfg on ld P ps0 = q ++ joined cfg on ld P ps1) by (rewrite (proj1 Hrest); apply filter_app).
  set (more := page_out cfg ld P (start_of (joined_probe_idx st)) off' q) in *.
  assert (Hh3 : ∀ g', g_fin g' = [] → g_outs g' = g_outs g ++ more → holds (fetch cfg) (output_buffer s') (pushed g') out).
  { intros g' Ef Eo. rewrite Ef, Eo, app_nil_r, fmap_app. by rewrite Hfin, app_nil_r in Hh'. }
  assert (Hhn : probe_side_has_null sh2 = probe_side_has_null sh1) by apply Hmk.
  destruct off' as [o|].
  - destruct Hrest as [Hps [Hat1 Hlt]].
    set (g' := page_ghost g P q more ((length P - o.1) + length ps1)). exists s', sh2, g'.
    split_and!; [done|done|by rewrite Hr'|done|by apply Hh3| |by rewrite Hhn|].
    + apply (page_effect g sh sh1 sh2 g' q); try done.
      * intros Hna. destruct (Hfl Hna) as [E _]. exists false. rewrite Hna in Hnull. cbn in Hnull.
        apply orb_false_iff in Hnull as [EP _]. rewrite E, EP, !orb_false_r. done.
      * intros Hna. destruct (Hfl Hna) as [_ E]. by exists (bool_decide (0 < length P)).
      * intros b _. apply visited_page.
    + right. exists (advance st o (fst <$> last q)). split_and!; [done|unfold g', page_ghost; cbn; lia|].
      eexists ps1, _, _. by apply (in_batch_advance _ _ s _ st g P ps0 ps).
  - destruct Hrest as [Hps ->]. rewrite app_nil_r in Hj.
    assert (Hcat : g_qd g ++ q = matches_from ld order m 0 P) by (by rewrite <- Hj).
    destruct (batch_flags g P sh sh1 more Hne Hfl) as [E1 E2].
    exists s', sh2, (batch_ghost g P more). split_and!; [done|done|by rewrite Hr'|done|by apply Hh3| |by rewrite Hhn|].
    + apply (page_effect g sh sh1 sh2 _ q); try done. intros b Hbl'. by apply visited_batch.
    + left. split_and!; [done| |done]. unfold more. rewrite <- Hj. by eapply in_batch_last.
Qed.

Lemma advances_process rbs gs i t g sh st :
  probe_fits cfg mi (concat rbs) → sinv gs sh → gs !! i = Some g → tinv (probe_side_has_null sh) rbs t g → th_status t = Polling →
  completed (co_inner (output_buffer (th_stream t))) = [] → finished (output_buffer (th_stream t)) = false →
  state (th_stream t) = ProcessProbeBatch st → advances rbs gs i t g sh.
Proof.
  intros Hfit Hsi Hi [Hh Hph _] Hst Hd Hf Hs. pose proof (poll_ready cfg (Ok ld) _ sh Hd Hf) as Hp. rewrite Hs in Hp.
  unfold phase in Hph. rewrite Hs in Hph. destruct Hph as (Hpr & rest & P & ps0 & qs & outs1 & pre & Hib).
  pose proof Hpr as (_ & _ & Hrep & Hfin). pose proof (ib_rows _ _ _ _ _ _ _ _ _ _ Hib) as Hrow.
  pose proof (ib_right _ _ _ _ _ _ _ _ _ _ Hib) as Hri.
  destruct (null_aware cfg && (has_null_key P || probe_side_has_null sh)) eqn:Hnull.
  { apply andb_true_iff in Hnull as [Hna Hnull].
    destruct (process_skip _ _ _ _ _ sh _ _ _ _ _ Hpr Hib Hna Hnull)
      as (s' & sh' & g' & E & Es & Eb & Er & Eo & -> & Hid & Hef & Hn). rewrite E in Hp. cbn in Hp.
    eapply advances_running; [done|exact Hp| | |by eapply sinv_effect|done|].
    - rewrite Eo. cbn. by rewrite app_nil_r.
    - unfold phase. rewrite Es. split; [by unfold probing; rewrite Eo|]. split; [done|]. exists rest. split; [done|].
      cbn. by rewrite <- (assoc_L (++)).
    - unfold work. rewrite Hst, Hs. cbn [th_status th_stream]. rewrite Es, Er, Hri. lia. }
  destruct (decide (ls = [] ∧ jfilter cfg = None)) as [[Hls Hfil]|Hlive].
  { destruct (process_empty _ _ _ _ _ sh _ _ _ _ _ _ Hpr Hib Hh Hnull Hls Hfil)
      as (s' & sh' & g' & E & Es & Eb & Er & Ef & Hh' & -> & Hid & Hef & Hn). rewrite E in Hp. cbn in Hp.
    eapply advances_running; [done|exact Hp|exact Hh'| |by eapply sinv_effect|done|].
    - unfold phase. rewrite Es. split; [by split_and!|]. split; [done|]. exists rest. split; [done|].
      cbn. by rewrite <- (assoc_L (++)).
    - unfold work. rewrite Hst, Hs. cbn [th_status th_stream]. rewrite Es, Er, Hri. lia. }
  destruct (process_live _ _ _ _ _ sh _ _ _ _ _ _ Hfit Hpr Hib Hh (si_length _ _ Hsi) Hnull)
    as (s' & sh' & g' & E & Eb & Er & Ef & Hh' & Hef & Hn & Hcase).
  { destruct (decide (ls = [])); [|by left]. right. naive_solver. }
  rewrite E in Hp. cbn in Hp.
  assert (Hpr' : probing s' g').
  { split_and!; [done|done|apply Hef|]. by rewrite (ef_fin _ _ _ _ Hef). }
  eapply advances_running; [done|exact Hp|exact Hh'| |by eapply sinv_effect|done|].
  - unfold phase. destruct Hcase as [(-> & Hid & Hds)|(st' & -> & _ & ps1 & qs' & pre' & Hib')].
    + split; [done|]. split; [done|]. exists rest. split; [done|]. by rewrite Hds, <- (assoc_L (++)).
    + split; [done|]. by exists rest, P, ps1, qs', outs1, pre'.
  - unfold work. rewrite Hst, Hs. cbn [th_status th_stream]. rewrite Er, Hri.
    destruct Hcase as [(-> & _ & _)|(st' & -> & Hlt & _)]; lia.
Qed.

Lemma advances_completed rbs gs i t g sh :
  sinv gs sh → gs !! i = Some g → tinv (probe_side_has_null sh) rbs t g → th_status t = Polling →
  completed (co_inner (output_buffer (th_stream t))) = [] → finished (output_buffer (th_stream t)) = false →
  state (th_stream t) = Completed → advances rbs gs i t g sh.
Proof.
  intros Hsi Hi [Hh Hph _] Hst Hd Hf Hs. pose proof (poll_ready cfg (Ok ld) _ sh Hd Hf) as Hp. rewrite Hs in Hp.
  destruct (is_empty (output_buffer (th_stream t))) eqn:He.
  - eexists _, sh, g. split; [unfold poll_thread; by rewrite Hp|]. split_and!.
    + split; cbn; [done|done|]. split; [done|]. erewrite (drained _ _ _ _ Hh) by (done || by right). by rewrite Hfetch.
    + by rewrite list_insert_id.
    + done.
    + left. unfold work. cbn [th_status]. rewrite Hst, Hs, Hf. lia.
  - eapply advances_running; [done|exact Hp|cbn; by apply finish_holds| |by rewrite list_insert_id|done|].
    + unfold phase in Hph |- *. cbn. by rewrite Hs in Hph |- *.
    + unfold work. cbn [th_status th_stream]. rewrite Hst, Hs, Hf. cbn. rewrite Hs. lia.
Qed.

(** ** Reporting *)

Lemma all_reported gs i g :
  gs !! i = Some g → g_rep g = false → g_qd g = [] → sum_list_with unreported gs = 1 →
  Forall (λ g, g_rep g = true → g_qd g = []) gs → Forall (λ g, g_qd g = []) gs.
Proof.
  intros Hi Hr Hq Hsum Hall. rewrite Forall_lookup in Hall |- *. intros j g2 Hj.
  destruct (g_rep g2) eqn:Hr2; [by eapply Hall|]. destruct (decide (j = i)) as [->|Hne]; [congruence|]. exfalso.
  pose proof (sum_insert unreported gs i g {| g_ds := []; g_qd := []; g_ne := false; g_outs := []; g_fin := [];
    g_rep := true; g_left := 0 |} Hi) as E. unfold unreported in E at 2 4. rewrite Hr in E. cbn in E.
  assert (Hj' : <[i := {| g_ds := []; g_qd := []; g_ne := false; g_outs := []; g_fin := []; g_rep := true;
    g_left := 0 |}]> gs !! j = Some g2) by (by rewrite list_lookup_insert_ne).
  pose proof (unreported_pos _ _ _ Hj' Hr2). lia.
Qed.

Lemma visited_all gs b :
  Forall (λ g, g_qd g = []) gs →
  existsb (visited_by b) gs = left_matched m (concat (g_ds <$> gs)) (row_of lbatch b).
Proof.
  unfold left_matched. induction 1 as [|g gs Hq _ IH]; [done|]. cbn [existsb fmap list_fmap concat].
  rewrite existsb_app, IH. unfold visited_by. rewrite Hq, (bool_decide_false (b ∈ [].*2)) by (by intros ?%elem_of_nil).
  by rewrite orb_false_r.
Qed.

(** The partition after its report. *)
Definition report_ghost (g : ghost) (fin : list (jout row row)) : ghost :=
  {| g_ds := g_ds g; g_qd := g_qd g; g_ne := g_ne g; g_outs := g_outs g; g_fin := g_fin g ++ fin; g_rep := true;
     g_left := g_left g |}.

Lemma sinv_report gs sh i g sh' fin :
  sinv gs sh → gs !! i = Some g → g_rep g = false → g_qd g = [] → needs_final → null_free sh →
  visited_indices_bitmap sh' = visited_indices_bitmap sh →
  probe_side_has_null sh' = probe_side_has_null sh → probe_side_non_empty sh' = probe_side_non_empty sh →
  probe_threads_counter sh' = N.pred (probe_threads_counter sh) →
  (if decide (probe_threads_counter sh = 1%N)
   then fin ≡ₚ final_part cfg on ls (concat (g_ds <$> gs)) (existsb g_ne gs) else fin = []) →
  sinv (<[i := report_ghost g fin]> gs) sh'.
Proof.
  intros [Hcnt Hnull Hlen Hbits Hfin Hrep Hseen] Hi Hr Hq Hn Hnf Eb Ehn Ene Ec Hf.
  assert (Hex : ∀ f : ghost → bool, f (report_ghost g fin) = f g → existsb f (<[i := report_ghost g fin]> gs) = existsb f gs).
  { intros f Hff. rewrite (existsb_insert f gs i g _ false Hi); rewrite ?orb_false_r; done. }
  assert (Hds : concat (g_ds <$> <[i := report_ghost g fin]> gs) = concat (g_ds <$> gs)).
  { f_equal. rewrite list_fmap_insert, list_insert_id; [done|]. by rewrite list_lookup_fmap, Hi. }
  pose proof (unreported_pos gs i g Hi Hr) as Hpos. pose proof (sum_insert unreported gs i g (report_ghost g fin) Hi) as E.
  unfold unreported in E at 2 4. rewrite Hr in E. cbn in E. specialize (Hcnt Hn).
  split; rewrite ?Eb, ?Ehn, ?Ene; try done.
  - intros _. rewrite Ec, Hcnt. lia.
  - intros Hna. rewrite !Hex by done. by apply Hnull.
  - intros _ _ b Hb. rewrite Hex by done. by apply Hbits.
  - rewrite (concat_insert g_fin gs i g _ fin Hi) by done. rewrite Hfin, Hds, (Hex g_ne) by done.
    rewrite decide_False by (intros [_ Hz]; lia). cbn. rewrite Ec.
    destruct (decide (probe_threads_counter sh = 1%N)) as [H1|H1].
    + rewrite decide_True by (split; [done|]; by rewrite H1). done.
    + rewrite decide_False by (intros [_ Hz]; lia). by rewrite Hf.
  - apply Forall_insert; [done|]. by intros _.
  - intros Hna Hhn. specialize (Hnf Hna). congruence.
Qed.

(** What the last partition to report finds. *)
Lemma last_report gs sh i g :
  sinv gs sh → gs !! i = Some g → g_rep g = false → g_qd g = [] → needs_final → null_free sh →
  probe_threads_counter sh = 1%N →
  sh_ok cfg on ld (concat (g_ds <$> gs)) [] (existsb g_ne gs) sh.
Proof.
  intros [Hcnt Hnull Hlen Hbits _ Hrep _] Hi Hr Hq Hn Hnf H1.
  assert (Hall : Forall (λ g, g_qd g = []) gs).
  { eapply all_reported; try done. specialize (Hcnt Hn). lia. }
  split; [done| |done|].
  - intros Hna. split; [by apply Hnf|]. by apply Hnull.
  - intros _ b Hb. rewrite Hbits, visited_all by done.
    by rewrite (bool_decide_false (b ∈ [].*2)), orb_false_r by (by intros ?%elem_of_nil).
Qed.

(** The poll that reports: the last partition pushes the unmatched build rows. *)
Lemma unmatched_reports gs sh i g s out :
  sinv gs sh → gs !! i = Some g → probing s g → g_qd g = [] → needs_final → null_free sh →
  holds (fetch cfg) (output_buffer s) (pushed g) out →
  ∃ s' sh' fin, process_unmatched_build_batch cfg s sh = Some (Ok (s', sh')) ∧ state s' = Completed ∧
    holds (fetch cfg) (output_buffer s') (pushed (report_ghost g fin)) out ∧
    probe_side_has_null sh' = probe_side_has_null sh ∧ sinv (<[i := report_ghost g fin]> gs) sh'.
Proof.
  intros Hsi Hi (Hb & Hf & Hrep & Hfi) Hq Hn Hnf Hh. unfold process_unmatched_build_batch. rewrite Hn, Hb.
  cbn [negb ok_or try_bind].
  replace (null_aware cfg && probe_side_has_null sh) with false.
  2: { destruct (null_aware cfg) eqn:E; [|done]. by rewrite (Hnf E). }
  unfold report_probe_completed. set (sh' := Build_Shared _ _ _ _).
  pose proof (unreported_pos gs i g Hi Hrep) as Hpos. pose proof (si_counter _ _ Hsi Hn) as Hcnt.
  assert (Hc' : probe_threads_counter sh' = N.pred (probe_threads_counter sh)).
  { cbn. destruct (N.eqb_spec (probe_threads_counter sh) 0); [lia|done]. }
  destruct (N.eqb_spec (probe_threads_counter sh) 1) as [H1|H1]; cbn [negb].
  - destruct (final_sides cfg on Hcfg ls ld mi order Hlo _ _ sh Hn (last_report _ _ _ _ Hsi Hi Hrep Hq Hn Hnf H1))
      as ([li ri] & Hix & outs & Hbat & Hnil & Hp). cbn [fst snd] in Hbat, Hnil.
    change (visited_indices_bitmap sh') with (visited_indices_bitmap sh).
    change (probe_side_non_empty sh') with (probe_side_non_empty sh).
    destruct (get_final_indices_from_bit_map _ _ _) as [li0 ri0]. cbn [fst] in Hix. rewrite Hix.
    cbn [mbind option_bind].
    assert (Hs' : sinv (<[i := report_ghost g outs]> gs) sh').
    { eapply sinv_report; try done. by rewrite decide_True. }
    destruct (bool_decide_reflect (li = [])) as [Hli|Hli].
    + eexists _, sh', outs. split_and!; [done|done| |done|done]. cbn. rewrite (Hnil Hli), app_nil_r. exact Hh.
    + rewrite Hbat. cbn [try_bind output_buffer set_state set_metrics].
      destruct (push_batch_holds _ _ _ _ (out_rows outs) Hh Hf) as (pst & c & -> & Hh2 & _ & _). cbn [try_bind].
      eexists _, sh', outs. split_and!; [done|done| |done|done]. cbn. rewrite (assoc_L (++)), fmap_app.
      destruct pst; [exact Hh2|by apply finish_holds].
  - eexists _, sh', []. split_and!; [done|done| |done|].
    + cbn. by rewrite app_nil_r.
    + eapply sinv_report; try done. by rewrite decide_False.
Qed.

Lemma advances_exhausted rbs gs i t g sh :
  sinv gs sh → gs !! i = Some g → tinv (probe_side_has_null sh) rbs t g → th_status t = Polling →
  completed (co_inner (output_buffer (th_stream t))) = [] → finished (output_buffer (th_stream t)) = false →
  state (th_stream t) = ExhaustedProbeSide → advances rbs gs i t g sh.
Proof.
  intros Hsi Hi [Hh Hph _] Hst Hd Hf Hs. pose proof (poll_ready cfg (Ok ld) _ sh Hd Hf) as Hp. rewrite Hs in Hp.
  unfold phase in Hph. rewrite Hs in Hph. destruct Hph as (Hpr & Hid & Hds).
  assert (Hwork : ∀ s', state s' = Completed →
    work {| th_stream := s'; th_out := th_out t; th_status := Polling |} g < work t g).
  { intros s' Es. unfold work. cbn [th_status th_stream]. rewrite Hst, Hs, Es. by destruct (finished (output_buffer s')); cbn; lia. }
  destruct (need_produce_result_in_final jt) eqn:Hn.
  2: { unfold process_unmatched_build_batch in Hp. rewrite Hn in Hp. cbn in Hp.
       eapply advances_running; [done|exact Hp|exact Hh| |by rewrite list_insert_id|done|by apply Hwork].
       cbn. split_and!; [done|done|]. congruence. }
  destruct (null_aware cfg && probe_side_has_null sh) eqn:Hnull.
  - unfold process_unmatched_build_batch in Hp. rewrite Hn, (proj1 Hpr), Hnull in Hp. cbn in Hp.
    apply andb_true_iff in Hnull as [Hna Hhn].
    eapply advances_running; [done|exact Hp|exact Hh| |by rewrite list_insert_id|done|by apply Hwork].
    cbn. split_and!; [done|done|]. by right.
  - assert (Hnf : null_free sh) by (intros Hna; by rewrite Hna in Hnull).
    destruct (unmatched_reports gs sh i g _ _ Hsi Hi Hpr (id_qd _ Hid) Hn Hnf Hh)
      as (s' & sh' & fin & E & Es & Hh' & Hhn & Hsi'). rewrite E in Hp. cbn in Hp.
    eapply advances_running; [done|exact Hp|exact Hh'| |exact Hsi'|by rewrite Hhn|by apply Hwork].
    unfold phase. rewrite Es. split_and!; [by destruct Hid|done|by left].
Qed.

(** Every poll of a partition that has not ended. *)
Lemma poll_advances rbs gs i t g sh :
  probe_fits cfg mi (concat rbs) → sinv gs sh → gs !! i = Some g → tinv (probe_side_has_null sh) rbs t g → th_status t = Polling →
  advances rbs gs i t g sh.
Proof.
  intros Hfit Hsi Hi Ht Hst.
  destruct (decide (completed (co_inner (output_buffer (th_stream t))) = [])) as [Hd|Hd]; [|by eapply advances_yield].
  destruct (finished (output_buffer (th_stream t))) eqn:Hf; [by eapply advances_finished|].
  destruct (state (th_stream t)) eqn:Hs; [by eapply advances_wait|by eapply advances_fetch|by eapply advances_process
    |by eapply advances_exhausted|by eapply advances_completed].
Qed.

(** ** Schedules *)

Record sys_ok (rbss : list (list (list row))) (gs : list ghost) (sys : system) : Prop := {
  sy_length : length gs = length (threads sys);
  sy_parts : length rbss = length gs;
  sy_threads : ∀ i rbs t g, rbss !! i = Some rbs → threads sys !! i = Some t → gs !! i = Some g →
    tinv (probe_side_has_null (shared sys)) rbs t g;
  sy_shared : sinv gs (shared sys);
  sy_fits : probe_fits cfg mi (concat (concat rbss));
}.

Lemma tinv_mono hn hn' rbs t g : (hn = true → hn' = true) → tinv hn rbs t g → tinv hn' rbs t g.
Proof.
  intros Hm [Ho Hp Hs]. split; [done| |done]. unfold phase in *. destruct (state (th_stream t)); try done.
  destruct Hp as (? & ? & Hr). split_and!; [done|done|]. intros Hn. destruct (Hr Hn) as [|[]]; auto.
Qed.

Definition total_work (sys : system) (gs : list ghost) : nat :=
  sum_list_with (λ p, work p.1 p.2) (zip (threads sys) gs).
Definition total_queued (sys : system) : nat := sum_list_with queued (threads sys).

Lemma fits_part rbss i rbs :
  probe_fits cfg mi (concat (concat rbss)) → rbss !! i = Some rbs → probe_fits cfg mi (concat rbs).
Proof.
  intros Hf Hi. rewrite <- (take_drop_middle rbss i rbs Hi), !concat_app in Hf.
  apply probe_fits_app in Hf as [_ Hf]. cbn in Hf. rewrite concat_app in Hf. by apply probe_fits_app in Hf as [? _].
Qed.

(** A partition that has not ended can be polled, and the poll makes progress. *)
Lemma sys_poll rbss gs sys i t :
  sys_ok rbss gs sys → threads sys !! i = Some t → th_status t = Polling →
  ∃ t' sh' gs', poll_thread cfg (Ok ld) t (shared sys) = Some (t', sh') ∧
    let sys' := {| threads := <[i := t']> (threads sys); shared := sh' |} in
    sys_ok rbss gs' sys' ∧
    (total_work sys' gs' < total_work sys gs ∨
     total_work sys' gs' = total_work sys gs ∧ total_queued sys' < total_queued sys).
Proof.
  intros [Hl Hp Ht Hsi Hfits] Hi Hst. pose proof (lookup_lt_Some _ _ _ Hi) as Hlt.
  destruct (lookup_lt_is_Some_2 gs i) as [g Hg]; [lia|].
  destruct (lookup_lt_is_Some_2 rbss i) as [rbs Hr]; [lia|].
  destruct (poll_advances rbs gs i t g (shared sys) (fits_part _ _ _ Hfits Hr) Hsi Hg (Ht _ _ _ _ Hr Hi Hg) Hst)
    as (t' & sh' & g' & E & Ht' & Hsi' & Hmono & Hw).
  exists t', sh', (<[i := g']> gs). split; [done|]. cbn zeta. split.
  - split; cbn; [by rewrite !length_insert|by rewrite length_insert| |done|done].
    intros j rbs2 t2 g2 Hr2 Hj Hg2. destruct (decide (j = i)) as [->|Hne].
    + rewrite list_lookup_insert_eq in Hj by lia. rewrite list_lookup_insert_eq in Hg2 by lia. by simplify_eq.
    + rewrite list_lookup_insert_ne in Hj by done. rewrite list_lookup_insert_ne in Hg2 by done. eapply tinv_mono; [exact Hmono|by eapply Ht].
  - unfold total_work, total_queued. cbn [threads].
    change (zip (<[i := t']> (threads sys)) (<[i := g']> gs)) with
      (zip_with pair (<[i := t']> (threads sys)) (<[i := g']> gs)).
    rewrite <- insert_zip_with.
    assert (Hz : zip (threads sys) gs !! i = Some (t, g)) by (rewrite lookup_zip_with, Hi; cbn; by rewrite Hg).
    pose proof (sum_insert (λ p, work p.1 p.2) _ i _ (t', g') Hz) as E1. cbn [fst snd] in E1.
    pose proof (sum_insert queued _ i _ t' Hi) as E2. lia.
Qed.

Lemma sys_step rbss gs sys sys' :
  sys_ok rbss gs sys → step cfg (Ok ld) sys sys' →
  ∃ gs', sys_ok rbss gs' sys' ∧
    (total_work sys' gs' < total_work sys gs ∨
     total_work sys' gs' = total_work sys gs ∧ total_queued sys' < total_queued sys).
Proof.
  intros Hok Hs. destruct Hs as [i t t' sh' sys Hi Hst E].
  destruct (sys_poll _ _ _ _ _ Hok Hi Hst) as (t2 & sh2 & gs' & E2 & Hok' & Hw). simplify_eq. by exists gs'.
Qed.

Lemma sys_steps rbss gs sys sys' :
  sys_ok rbss gs sys → rtc (step cfg (Ok ld)) sys sys' → ∃ gs', sys_ok rbss gs' sys'.
Proof.
  intros Hok Hr. revert gs Hok. induction Hr as [sys|sys sys1 sys2 Hs _ IH]; intros gs Hok; [by exists gs|].
  destruct (sys_step _ _ _ _ Hok Hs) as (gs' & Hok' & _). by eapply IH.
Qed.

(** No schedule is infinite. *)
Lemma sys_terminates rbss gs sys : sys_ok rbss gs sys → sn (step cfg (Ok ld)) sys.
Proof.
  remember (total_work sys gs) as w eqn:Hw. revert gs sys Hw.
  induction w as [w IHw] using lt_wf_ind. intros gs sys.
  remember (total_queued sys) as q eqn:Hq. revert gs sys Hq.
  induction q as [q IHq] using lt_wf_ind. intros gs sys -> -> Hok. constructor. intros sys' Hs.
  destruct (sys_step _ _ _ _ Hok Hs) as (gs' & Hok' & [Hlt|[Heq Hlt]]).
  - by eapply (IHw _ Hlt gs').
  - by eapply (IHq _ Hlt gs').
Qed.

(** ** The end of a schedule *)

Lemma concat_right_part (dss : list (list row)) (oss : list (list (jout row row))) :
  Forall2 (λ ds os, os ≡ₚ right_part jt m ls ds) dss oss → concat oss ≡ₚ right_part jt m ls (concat dss).
Proof.
  induction 1 as [|ds os dss oss Ho _ IH]; [by rewrite right_part_nil|]. cbn. by rewrite Ho, IH, right_part_app.
Qed.

Lemma concat_outputs (gs : list ghost) :
  concat ((λ g, g_outs g ++ g_fin g) <$> gs) ≡ₚ concat (g_outs <$> gs) ++ concat (g_fin <$> gs).
Proof.
  induction gs as [|g gs IH]; [done|]. cbn. rewrite IH, <- !(assoc_L (++)). f_equiv.
  rewrite !(assoc_L (++)). f_equiv. apply Permutation_app_comm.
Qed.

Lemma no_unreported gs : Forall (λ g, g_rep g = true) gs → sum_list_with unreported gs = 0.
Proof. induction 1 as [|g gs Hg _ IH]; [done|]. cbn. rewrite IH. unfold unreported. by rewrite Hg. Qed.

Lemma nonempty_rows gs :
  Forall idle gs → existsb g_ne gs = bool_decide (0 < length (concat (g_ds <$> gs))).
Proof.
  induction 1 as [|g gs Hg _ IH]; [done|]. cbn. rewrite (id_ne _ Hg), IH, <- bool_decide_or, length_app.
  apply bool_decide_ext. lia.
Qed.

(** All partitions together, when all of them are through. *)
Lemma final_outputs gs sh :
  sinv gs sh → Forall idle gs →
  Forall (λ g, needs_final → g_rep g = true ∨ null_aware cfg = true ∧ probe_side_has_null sh = true) gs →
  concat ((λ g, g_outs g ++ g_fin g) <$> gs) ≡ₚ result cfg on ls [] (concat (g_ds <$> gs)) false.
Proof.
  intros Hsi Hid Hrep. rewrite concat_outputs, (si_fin _ _ Hsi).
  rewrite (concat_right_part (g_ds <$> gs)).
  2: { apply Forall2_fmap, Forall_Forall2_diag. eapply Forall_impl; [exact Hid|]. by intros g [_ _ ?]. }
  rewrite (nonempty_rows gs Hid). unfold result. cbn [app orb].
  assert (Hcase : needs_final → (null_aware cfg = true ∧ probe_side_has_null sh = true) ∨ Forall (λ g, g_rep g = true) gs).
  { intros Hn. destruct (decide (null_aware cfg = true ∧ probe_side_has_null sh = true)) as [|Hno]; [by left|right].
    eapply Forall_impl; [exact Hrep|]. intros g Hg. by destruct (Hg Hn). }
  assert (Hnk : null_aware cfg = true → probe_side_has_null sh = has_null_key (concat (g_ds <$> gs))).
  { intros Hna. destruct (si_null _ _ Hsi Hna) as [-> _]. clear. induction gs as [|g gs IH]; [done|]. cbn.
    by rewrite existsb_app, IH. }
  destruct (need_produce_result_in_final jt) eqn:Hn.
  - destruct (Hcase eq_refl) as [[Hna Hhn]|Hall].
    + rewrite decide_False. 2: { intros [_ Hz]. pose proof (si_seen _ _ Hsi Hna Hhn). rewrite (si_counter _ _ Hsi Hn) in Hz. lia. }
      rewrite <- (Hnk Hna), Hna, Hhn. destruct (co_null_aware _ _ Hcfg Hna) as [-> _]. done.
    + rewrite decide_True. 2: { split; [done|]. by rewrite (si_counter _ _ Hsi Hn), no_unreported. }
      destruct (null_aware cfg) eqn:Hna; [|done]. rewrite <- Hnk by done.
      destruct (probe_side_has_null sh) eqn:Hhn; [|done]. exfalso.
      apply (si_seen _ _ Hsi Hna Hhn). by apply no_unreported.
  - rewrite decide_False by (by intros [? _]).
    assert (Hna : null_aware cfg = false).
    { destruct (null_aware cfg) eqn:E; [|done]. destruct (co_null_aware _ _ Hcfg E) as [E' _]. by rewrite E' in Hn. }
    unfold final_part. rewrite Hna. by destruct jt.
Qed.

(** A system in which no partition can be polled. *)
Lemma sys_final rbss gs sys :
  sys_ok rbss gs sys → nf (step cfg (Ok ld)) sys →
  ∃ outs, outs ≡ₚ result cfg on ls [] (concat (concat rbss)) false ∧
    concat (th_out <$> threads sys) ≡ₚ out_rows outs.
Proof.
  intros Hok Hnf. pose proof Hok as [Hl Hp Ht Hsi _].
  assert (Hend : ∀ i rbs t g, rbss !! i = Some rbs → threads sys !! i = Some t → gs !! i = Some g →
    th_out t = out_rows (g_outs g ++ g_fin g) ∧ phase (probe_side_has_null (shared sys)) rbs (th_stream t) g ∧
    state (th_stream t) = Completed).
  { intros i rbs t g Hr Hi Hg. destruct (Ht _ _ _ _ Hr Hi Hg) as [_ Hph Hst].
    destruct (th_status t) eqn:Es; [|by destruct Hst|done]. exfalso. apply Hnf.
    destruct (sys_poll _ _ _ _ _ Hok Hi Es) as (t' & sh' & gs' & E & _). eexists. by eapply step_poll. }
  assert (Hall : Forall3 (λ rbs t g, th_out t = out_rows (g_outs g ++ g_fin g) ∧ idle g ∧ g_ds g = concat rbs ∧
    (needs_final → g_rep g = true ∨ null_aware cfg = true ∧ probe_side_has_null (shared sys) = true))
    rbss (threads sys) gs).
  { apply Forall3_intro; [lia|lia|]. intros i rbs t g Hr Hi Hg. destruct (Hend _ _ _ _ Hr Hi Hg) as (Ho & Hph & Hs).
    unfold phase in Hph. rewrite Hs in Hph. tauto. }
  exists (concat ((λ g, g_outs g ++ g_fin g) <$> gs)). split.
  - assert (Hds : concat (g_ds <$> gs) = concat (concat rbss)).
    { clear -Hall. induction Hall as [|rbs t g rbss ts gs (_ & _ & Hd & _) _ IH]; [done|]. cbn.
      by rewrite concat_app, Hd, IH. }
    rewrite <- Hds. apply (final_outputs _ (shared sys)); [done|..];
      clear -Hall; induction Hall as [|rbs t g rbss ts gs Hx _ IH]; constructor; tauto.
  - clear -Hall. induction Hall as [|rbs t g rbss ts gs (Ho & _) _ IH]; [done|]. cbn. by rewrite Ho, IH, <- fmap_app.
Qed.

(** The start. *)
Lemma sys_initial rbss sh :
  rbss ≠ [] → probe_fits cfg mi (concat (concat rbss)) → (needs_final → length (visited_indices_bitmap sh) = length lbatch) →
  (∀ b, get_bit (visited_indices_bitmap sh) b = false) →
  probe_threads_counter sh = N.of_nat (length rbss) → probe_side_has_null sh = false → probe_side_non_empty sh = false →
  sys_ok rbss (replicate (length rbss) fresh)
    {| threads := (λ right, {| th_stream := new cfg right; th_out := []; th_status := Polling |}) <$>
         (fmap Ok <$> rbss); shared := sh |}.
Proof.
  intros Hne Hfits Hlen Hbits Hcnt Hhn Hnon.
  assert (Hex : ∀ (f : ghost → bool) n, f fresh = false → existsb f (replicate n fresh) = false).
  { intros f n Hf. induction n; cbn; by rewrite ?Hf. }
  assert (Hun : ∀ n, sum_list_with unreported (replicate n fresh) = n) by (intros n; induction n; cbn; [done|lia]).
  split; cbn [threads shared]; [..|done].
  - by rewrite !length_fmap, length_replicate.
  - by rewrite length_replicate.
  - intros i rbs t g Hr Hi Hg. apply lookup_replicate in Hg as [-> _].
    rewrite !list_lookup_fmap, Hr in Hi. cbn in Hi. injection Hi as <-. split; cbn; [apply new_holds|done|done].
  - split.
    + intros _. by rewrite Hcnt, Hun.
    + intros _. by rewrite Hhn, Hnon, !Hex.
    + done.
    + intros _ _ b _. rewrite Hbits. symmetry. apply Hex. unfold visited_by. cbn. apply bool_decide_eq_false.
      by intros ?%elem_of_nil.
    + rewrite decide_False by (intros [_ Hz]; rewrite Hcnt in Hz; destruct rbss; [done|cbn in Hz; lia]).
      clear. induction (length rbss); cbn; done.
    + apply Forall_replicate. by cbn.
    + intros _ E. congruence.
Qed.

End Invariant.

(** ** Properties *)

(** C4. In [CollectLeft] mode every schedule of the probe partitions works: no
    schedule is infinite, at every moment each partition that has not ended can
    be polled (nothing panics) and none ends with an error, and when all have
    ended they have yielded, together and up to order, the join of the build
    side with all probe rows, the unmatched build rows exactly once (all join
    types, null-aware anti joins included, either index of the build side, no
    fetch limit). *)
Theorem collect_left_schedules `{Foldhash} `{Hc : BatchCoalescer row} `{!BatchCoalescerOk row}
    j l r opts ordered cfg (lbs : list (list row)) (rbss : list (list (list row))) :
  join_ok j → 0 < opt_batch_size opts → execute_config j l r opts ordered = Some cfg → join_fetch j = None → rbss ≠ [] →
  (N.of_nat (length (concat lbs)) <= u64_max)%N → keys_typed cfg (on j) (concat lbs) (concat (concat rbss)) →
  ∃ ld sys, execute_collect_left cfg (Ok <$> lbs) (fmap (M := list) Ok <$> rbss) = Some (Ok (ld, sys)) ∧
    sn (step cfg (Ok ld)) sys ∧
    ∀ sys', rtc (step cfg (Ok ld)) sys sys' →
      (∀ t, t ∈ threads sys' → match th_status t with
         | Polling => is_Some (poll_thread cfg (Ok ld) t (shared sys'))
         | Ended => True
         | Errored _ => False
         end) ∧
      (nf (step cfg (Ok ld)) sys' →
       ∃ outs, outs ≡ₚ Plan.join_output j (concat lbs) (concat (concat rbss)) ∧
         concat (th_out <$> threads sys') ≡ₚ JoinSchema.output_row (column_indices cfg) <$> outs).
Proof.
  intros Hj Hn E Hfe Hne Hmax Htyped. pose proof (execute_config_ok _ _ _ _ _ _ Hj Hn E) as Hcfg.
  destruct (execute_config_fields _ _ _ _ _ _ E) as [Hfe' _]. rewrite Hfe in Hfe'.
  unfold execute_collect_left. rewrite length_fmap.
  destruct (collect_left_input_ok cfg (on j) lbs (concat (concat rbss)) (need_produce_result_in_final (join_type cfg))
    (N.of_nat (length rbss)) (co_left _ _ Hcfg) Hmax Htyped) as (ld & mi & order & -> & Hlo & Hlen & Hfits).
  cbn [try_bind fst snd]. eexists ld, _. split; [done|].
  set (sh := Build_Shared _ _ _ _). set (sys := Build_system _ _).
  assert (Hok : sys_ok cfg (on j) (concat lbs) ld mi order rbss (replicate (length rbss) fresh) sys).
  { apply sys_initial; try done; cbn; destruct (need_produce_result_in_final _); try done.
    - intros _. by rewrite length_replicate.
    - intros b. unfold get_bit. destruct (replicate _ _ !! b) eqn:Eb; [|done]. by apply lookup_replicate in Eb as [-> _]. }
  split; [by eapply (sys_terminates cfg (on j) Hcfg (concat lbs) ld mi order Hlo Hfe')|]. intros sys' Hr.
  destruct (sys_steps cfg (on j) Hcfg (concat lbs) ld mi order Hlo Hfe' _ _ _ _ Hok Hr) as [gs Hok']. split.
  - intros t Ht. apply list_elem_of_lookup in Ht as [i Hi]. destruct (th_status t) eqn:Es; [|done|].
    + destruct (sys_poll cfg (on j) Hcfg (concat lbs) ld mi order Hlo Hfe' _ _ _ _ _ Hok' Hi Es) as (t' & sh' & gs' & -> & _).
      by eexists.
    + pose proof Hok' as [Hl Hp Ht _ _]. pose proof (lookup_lt_Some _ _ _ Hi).
      destruct (lookup_lt_is_Some_2 gs i) as [g Hg]; [lia|]. destruct (lookup_lt_is_Some_2 rbss i) as [rbs Hrb]; [lia|].
      destruct (Ht _ _ _ _ Hrb Hi Hg) as [_ _ Hst]. by rewrite Es in Hst.
  - intros Hnf. destruct (sys_final cfg (on j) Hcfg (concat lbs) ld mi order Hlo Hfe' _ _ _ Hok' Hnf) as (outs & Ho & Hp).
    exists outs. split; [|done]. rewrite Ho. by eapply result_join.
Qed.

#[local] Existing Instance HashUtils.sample_hash.
#[local] Existing Instance queue_coalescer.
#[local] Existing Instance queue_coalescer_ok.

Lemma collect_left_schedules_witness :
  let cfg := key_config Full false in
  ∃ ld sys, execute_collect_left cfg (Ok <$> [key_rows [1; 2]; key_rows [2; 3]]%Z)
      (fmap (M := list) Ok <$> [[key_rows [2; 4]]; [key_rows [1]; key_rows [4]]]%Z) = Some (Ok (ld, sys)) ∧
    sn (step cfg (Ok ld)) sys ∧
    ∀ sys', rtc (step cfg (Ok ld)) sys sys' →
      (∀ t, t ∈ threads sys' → match th_status t with
         | Polling => is_Some (poll_thread cfg (Ok ld) t (shared sys'))
         | Ended => True
         | Errored _ => False
         end) ∧
      (nf (step cfg (Ok ld)) sys' →
       ∃ outs, outs ≡ₚ Plan.join_output (key_join Full false) (key_rows [1; 2; 2; 3]%Z) (key_rows [2; 4; 1; 4]%Z) ∧
         concat (th_out <$> threads sys') ≡ₚ JoinSchema.output_row (column_indices cfg) <$> outs).
Proof.
  apply (collect_left_schedules (key_join Full false) key_schema key_schema key_options false (key_config Full false)
    [key_rows [1; 2]; key_rows [2; 3]]%Z [[key_rows [2; 4]]; [key_rows [1]; key_rows [4]]]%Z);
    [by apply key_join_ok|cbn; lia|done|done|done|by vm_compute|solve_typed].
Defined.

End JoinPartitions.
