(* ===== verification/JoinSelection.v ===== *)
(** * Join selection (physical-optimizer/src/join_selection.rs)

    The rule that runs before the filter rule: it turns hash joins over unbounded
    inputs into symmetric joins or exchanges their inputs, decides between the
    partition modes, and puts the smaller input on the build side, of cross and
    nested loop joins as well.  Exchanging inputs rewrites keys, residual filter,
    join type and projection, and puts a projection on top that restores the
    order of the columns.  Statistics, boundedness and the other operators are
    parameters.  Proved: the rewritten plan has the same schema and the same rows
    up to order, and no join is left to an undecided partition mode. *)

From stdpp Require Import base list strings.
From Stdlib Require Import ZArith Lia.
From S2P Require Import Prelude Text Relation JoinTypes Stats BloomExec Transfer PhysicalPlan JoinCardinality HashJoinCorrect.

Module JoinSelection.
Import BloomExec JoinSchema.
Import JoinCardinality(PartitionMode(..), Partitioned, CollectLeft, Auto).

(** ** Plans *)

(** The fields of [NestedLoopJoinExec] that decide its rows. *)
Record NestedLoopJoin := {
  nl_join_type : JoinType;
  nl_filter : option JoinFilter;
  nl_projection : option (list nat);
}.

(** The columns of a join after its projection. *)
Definition projected_indices (cis : list ColumnIndex) (projection : option (list nat)) : list ColumnIndex :=
  match projection with
  | None => cis
  | Some columns => omap (λ i, cis !! i) columns
  end.

(** The rows of a join of type [jt] on the condition [m]. *)
Definition joined_rows (jt : JoinType) (m : row → row → bool) (projection : option (list nat)) (l r : Schema)
    (ls rs : list row) : list row :=
  map (output_row (projected_indices (build_join_schema l r jt).2 projection)) (join_spec jt m ls rs).

(** A column an output field is taken from, by name and index. *)
Definition project_row (columns : list (string * nat)) (r : row) : row := map (λ c, cell c.2 r) columns.

(** [ProjectionExprs::project_schema] for columns. *)
Definition project_columns (columns : list (string * nat)) (s : Schema) : Result Schema :=
  match mapM (λ c : string * nat, f ← s !! c.2;
                Some {| f_name := c.1; f_type := f_type f; f_nullable := f_nullable f |}) columns with
  | Some fields => Ok fields
  | None => Err (Internal "PhysicalExpr Column references a column the input schema does not have")
  end.

(** [Transformed], for rewrites that never stop the recursion. *)
Record Transformed (A : Type) := { data : A; transformed : bool }.
Arguments data {A}.
Arguments transformed {A}.

Definition yes {A} (a : A) : Transformed A := {| data := a; transformed := true |}.
Definition no {A} (a : A) : Transformed A := {| data := a; transformed := false |}.

Section Rule.
Context `{Nodes}.

Inductive exec :=
| HashJoinExec (mode : PartitionMode) (j : HashJoin) (left right : exec)
| SymmetricHashJoinExec (j : HashJoin) (left right : exec)
| CrossJoinExec (left right : exec)
| NestedLoopJoinExec (n : NestedLoopJoin) (left right : exec)
| ProjectionExec (columns : list (string * nat)) (input : exec)
| OtherExec (n : Node) (inputs : list exec).

Fixpoint schema (p : exec) : Schema :=
  match p with
  | HashJoinExec _ j l r => Plan.hash_join_schema j (schema l) (schema r)
  | SymmetricHashJoinExec j l r => (build_join_schema (schema l) (schema r) (join_type j)).1
  | CrossJoinExec l r => schema l ++ schema r
  | NestedLoopJoinExec n l r =>
      default [] (project_fields (build_join_schema (schema l) (schema r) (nl_join_type n)).1 (nl_projection n))
  | ProjectionExec columns input => match project_columns columns (schema input) with Ok s => s | Err _ => [] end
  | OtherExec n inputs => node_schema n (map schema inputs)
  end.

(** What the operators are specified to yield. *)
Fixpoint rows (p : exec) : list row :=
  match p with
  | HashJoinExec _ j l r => Plan.join_rows j (schema l) (schema r) (rows l) (rows r)
  | SymmetricHashJoinExec j l r =>
      joined_rows (join_type j) (Plan.join_match j) None (schema l) (schema r) (rows l) (rows r)
  | CrossJoinExec l r => joined_rows Inner (λ _ _, true) None (schema l) (schema r) (rows l) (rows r)
  | NestedLoopJoinExec n l r =>
      joined_rows (nl_join_type n) (filter_match (nl_filter n)) (nl_projection n) (schema l) (schema r) (rows l) (rows r)
  | ProjectionExec columns input => map (project_row columns) (rows input)
  | OtherExec n inputs => node_rows n (map rows inputs)
  end.

(** ** Constructors *)

Definition hash_join_build (mode : PartitionMode) (j : HashJoin) (l r : exec) : Result exec :=
  _ ← Plan.hash_join_check j (schema l) (schema r);
  Ok (HashJoinExec mode j l r).

Definition symmetric_try_new (j : HashJoin) (l r : exec) : Result exec :=
  _ ← (if bool_decide (on j = []) then Err (Plan "On constraints in SymmetricHashJoinExec should be non-empty")
       else Ok ());
  _ ← check_join_is_valid (schema l) (schema r) (on j);
  Ok (SymmetricHashJoinExec j l r).

(** [schema.field(i)] of the projection panics out of range. *)
Definition nested_loop_build (n : NestedLoopJoin) (l r : exec) : option (Result exec) :=
  _ ← project_fields (build_join_schema (schema l) (schema r) (nl_join_type n)).1 (nl_projection n);
  Some (Ok (NestedLoopJoinExec n l r)).

Definition projection_try_new (columns : list (string * nat)) (input : exec) : Result exec :=
  _ ← project_columns columns (schema input);
  Ok (ProjectionExec columns input).

Definition with_new_children (p : exec) (cs : list exec) : option (Result exec) :=
  match p, cs with
  | HashJoinExec mode j _ _, [l; r] => Some (hash_join_build mode j l r)
  | HashJoinExec _ _ _ _, _ => Some (Err (Internal "wrong number of children passed into `HashJoinExecBuilder`"))
  | SymmetricHashJoinExec j _ _, l :: r :: _ => Some (symmetric_try_new j l r)
  | CrossJoinExec _ _, l :: r :: _ => Some (Ok (CrossJoinExec l r))
  | NestedLoopJoinExec n _ _, l :: r :: _ => nested_loop_build n l r
  | ProjectionExec columns _, input :: _ => Some (projection_try_new columns input)
  | OtherExec n _, cs => Some (n' ← node_rebuild n (map schema cs); Ok (OtherExec n' cs))
  | _, _ => panic!
  end.

(** ** Exchanging inputs *)

Definition swap_filter (f : JoinFilter) : JoinFilter := {|
  filter_expression := filter_expression f;
  filter_column_indices :=
    map (λ idx, {| ci_index := ci_index idx; ci_side := JoinType.negate (ci_side idx) |}) (filter_column_indices f) |}.

Definition swap_join_projection (left_schema_len right_schema_len : nat) (projection : option (list nat))
    (jt : JoinType) : option (list nat) :=
  match jt with
  | LeftAnti | LeftSemi | RightAnti | RightSemi | LeftMark | RightMark => projection
  | _ => map (λ i, if bool_decide (i < left_schema_len) then i + right_schema_len else i - left_schema_len)
           <$> projection
  end.

Definition swap_reverting_projection (left_schema right_schema : Schema) : list (string * nat) :=
  let right_cols := imap (λ i f, (f_name f, i)) right_schema in
  let right_len := length right_cols in
  imap (λ i f, (f_name f, right_len + i)) left_schema ++ right_cols.

Definition reorder_output_after_swap (p : exec) (left_schema right_schema : Schema) : Result exec :=
  projection_try_new (swap_reverting_projection left_schema right_schema) p.

(** Output columns keep their order without a projection on top. *)
Definition keeps_columns (jt : JoinType) (projection : option (list nat)) : bool :=
  match jt with
  | LeftSemi | RightSemi | LeftAnti | RightAnti | LeftMark | RightMark => true
  | _ => bool_decide (projection ≠ None)
  end.

Definition swapped_join (j : HashJoin) (l r : Schema) : HashJoin := {|
  on := map (λ p, (p.2, p.1)) (on j); join_type := JoinType.swap (join_type j);
  null_equality := null_equality j; null_aware := null_aware j;
  projection := swap_join_projection (length l) (length r) (projection j) (join_type j);
  join_filter := swap_filter <$> join_filter j; join_fetch := join_fetch j |}.

Definition swap_inputs (partition_mode : PartitionMode) (j : HashJoin) (l r : exec) : Result exec :=
  new_join ← hash_join_build partition_mode (swapped_join j (schema l) (schema r)) r l;
  if keeps_columns (join_type j) (projection j) then Ok new_join
  else reorder_output_after_swap new_join (schema l) (schema r).

Definition cross_swap_inputs (l r : exec) : Result exec :=
  reorder_output_after_swap (CrossJoinExec r l) (schema l) (schema r).

Definition nested_swap_inputs (n : NestedLoopJoin) (l r : exec) : option (Result exec) :=
  new_join ←? nested_loop_build
    {| nl_join_type := JoinType.swap (nl_join_type n); nl_filter := swap_filter <$> nl_filter n;
       nl_projection := swap_join_projection (length (schema l)) (length (schema r)) (nl_projection n)
                          (nl_join_type n) |} r l;
  Some (if keeps_columns (nl_join_type n) (nl_projection n) then Ok new_join
        else reorder_output_after_swap new_join (schema l) (schema r)).

(** ** The statistical subrule *)

Context `{ScalarOps}.
Context (partition_statistics : exec → Result Statistics.Statistics).

(** What the rule reads of [config.optimizer]. *)
Record OptimizerOptions := {
  join_reordering : bool;
  hash_join_single_partition_threshold : Z;
  hash_join_single_partition_threshold_rows : Z;
}.

Context (config : OptimizerOptions).

Definition should_swap_join_order (l r : exec) : Result bool :=
  if negb (join_reordering config) then Ok false
  else
    left_stats ← partition_statistics l;
    right_stats ← partition_statistics r;
    match Precision.get_value (Statistics.total_byte_size left_stats),
          Precision.get_value (Statistics.total_byte_size right_stats) with
    | Some l, Some r => Ok (r <? l)%Z
    | _, _ =>
        match Precision.get_value (Statistics.num_rows left_stats), Precision.get_value (Statistics.num_rows right_stats) with
        | Some l, Some r => Ok (r <? l)%Z
        | _, _ => Ok false
        end
    end.

Definition supports_collect_by_thresholds (p : exec) (threshold_byte_size threshold_num_rows : Z) : bool :=
  match partition_statistics p with
  | Err _ => false
  | Ok stats =>
      match Precision.get_value (Statistics.total_byte_size stats), Precision.get_value (Statistics.num_rows stats) with
      | Some byte_size, _ => (byte_size <? threshold_byte_size)%Z
      | None, Some num_rows => (num_rows <? threshold_num_rows)%Z
      | None, None => false
      end
  end.

(** A join may be swapped, and it pays. *)
Definition swap_wanted (j : HashJoin) (l r : exec) : Result bool :=
  if JoinType.supports_swap (join_type j) && negb (null_aware j) then should_swap_join_order l r else Ok false.

Definition try_collect_left (j : HashJoin) (l r : exec) (ignore_threshold : bool) : Result (option exec) :=
  let can_collect p := ignore_threshold ||
    supports_collect_by_thresholds p (hash_join_single_partition_threshold config)
      (hash_join_single_partition_threshold_rows config) in
  match can_collect l, can_collect r with
  | true, true =>
      swap ← swap_wanted j l r;
      new ← (if (swap : bool) then swap_inputs CollectLeft j l r else hash_join_build CollectLeft j l r);
      Ok (Some new)
  | true, false => new ← hash_join_build CollectLeft j l r; Ok (Some new)
  | false, true =>
      if join_reordering config && JoinType.supports_swap (join_type j) && negb (null_aware j)
      then new ← swap_inputs CollectLeft j l r; Ok (Some new)
      else Ok None
  | false, false => Ok None
  end.

Definition partitioned_hash_join (j : HashJoin) (l r : exec) : Result exec :=
  swap ← swap_wanted j l r;
  if (swap : bool) then swap_inputs Partitioned j l r
  else hash_join_build (if null_aware j then CollectLeft else Partitioned) j l r.

Definition statistical_join_selection_subrule (p : exec) : option (Result (Transformed exec)) :=
  match p with
  | HashJoinExec Partitioned j l r =>
      Some (swap ← swap_wanted j l r;
            if (swap : bool) then new ← swap_inputs Partitioned j l r; Ok (yes new) else Ok (no p))
  | HashJoinExec Auto j l r =>
      Some (collected ← try_collect_left j l r false;
            match collected with Some v => Ok (yes v) | None => new ← partitioned_hash_join j l r; Ok (yes new) end)
  | HashJoinExec CollectLeft j l r =>
      Some (collected ← try_collect_left j l r true;
            match collected with Some v => Ok (yes v) | None => new ← partitioned_hash_join j l r; Ok (yes new) end)
  | CrossJoinExec l r =>
      Some (swap ← should_swap_join_order l r;
            if (swap : bool) then new ← cross_swap_inputs l r; Ok (yes new) else Ok (no p))
  | NestedLoopJoinExec n l r =>
      swap ←? Some (if JoinType.supports_swap (nl_join_type n) then should_swap_join_order l r else Ok false);
      if (swap : bool) then new ←? nested_swap_inputs n l r; Some (Ok (yes new)) else Some (Ok (no p))
  | _ => Some (Ok (no p))
  end.

(** ** Unbounded inputs *)

Context (is_unbounded is_incremental : exec → bool).

(** A subrule returns the plan it was given or a new one; the flag tells which. *)
Definition hash_join_convert_symmetric_subrule (p : exec) : Result (Transformed exec) :=
  match p with
  | HashJoinExec _ j l r =>
      if is_unbounded l && is_unbounded r && is_incremental l && is_incremental r
      then new ← symmetric_try_new j l r; Ok (yes new)
      else Ok (no p)
  | _ => Ok (no p)
  end.

Definition swap_join_according_to_unboundedness (mode : PartitionMode) (j : HashJoin) (l r : exec) : Result exec :=
  match mode, join_type j with
  | _, (Right | RightSemi | RightAnti | RightMark | Full) =>
      Err (Internal "join cannot be swapped for unbounded input.")
  | CollectLeft, _ => swap_inputs CollectLeft j l r
  | (Partitioned | Auto), _ => swap_inputs Partitioned j l r
  end.

Definition hash_join_swap_subrule (p : exec) : Result (Transformed exec) :=
  match p with
  | HashJoinExec mode j l r =>
      if is_unbounded l && negb (is_unbounded r) && negb (null_aware j)
         && match join_type j with Inner | Left | LeftSemi | LeftAnti => true | _ => false end
      then new ← swap_join_according_to_unboundedness mode j l r; Ok (yes new)
      else Ok (no p)
  | _ => Ok (no p)
  end.

Definition apply_subrules (p : exec) : option (Result (Transformed exec)) :=
  Some (input ← hash_join_convert_symmetric_subrule p;
        result ← hash_join_swap_subrule (data input);
        Ok {| data := data result; transformed := transformed input || transformed result |}).

(** ** The rule *)

(** A node is rebuilt when a child was rewritten. *)
Definition map_children (p : exec) (new_children : Transformed (list exec)) : option (Result (Transformed exec)) :=
  if transformed new_children then p' ←? with_new_children p (data new_children); Some (Ok (yes p'))
  else Some (Ok (no p)).

Definition transform_parent (t : Transformed exec) (f : exec → option (Result (Transformed exec))) :
    option (Result (Transformed exec)) :=
  t' ←? f (data t); Some (Ok {| data := data t'; transformed := transformed t' || transformed t |}).

Definition collect_child (c : Transformed exec) (cs : Transformed (list exec)) : Transformed (list exec) :=
  {| data := data c :: data cs; transformed := transformed c || transformed cs |}.

Definition children (p : exec) : list exec :=
  match p with
  | HashJoinExec _ _ l r | SymmetricHashJoinExec _ l r | CrossJoinExec l r | NestedLoopJoinExec _ l r => [l; r]
  | ProjectionExec _ input => [input]
  | OtherExec _ inputs => inputs
  end.

(** The children first, then the node over them. *)
Fixpoint transform_up (f : exec → option (Result (Transformed exec))) (p : exec) {struct p} :
    option (Result (Transformed exec)) :=
  let all := fix all (ps : list exec) : option (Result (Transformed (list exec))) :=
    match ps with
    | [] => Some (Ok (no []))
    | p :: ps => c ←? transform_up f p; cs ←? all ps; Some (Ok (collect_child c cs))
    end in
  new_children ←?
    match p with
    | HashJoinExec _ _ l r | SymmetricHashJoinExec _ l r | CrossJoinExec l r | NestedLoopJoinExec _ l r =>
        l' ←? transform_up f l; r' ←? transform_up f r; Some (Ok (collect_child l' (collect_child r' (no []))))
    | ProjectionExec _ input => input' ←? transform_up f input; Some (Ok (collect_child input' (no [])))
    | OtherExec _ inputs => all inputs
    end;
  t ←? map_children p new_children;
  transform_parent t f.

Definition optimize (p : exec) : option (Result exec) :=
  new_plan ←? transform_up apply_subrules p;
  t ←? transform_up statistical_join_selection_subrule (data new_plan);
  Some (Ok (data t)).
End Rule.

(** ** Exchanged columns *)

Definition flip_index (ci : ColumnIndex) : ColumnIndex :=
  {| ci_index := ci_index ci; ci_side := JoinType.negate (ci_side ci) |}.

Lemma output_row_flip cis o : output_row (flip_index <$> cis) (swap_out o) = output_row cis o.
Proof.
  unfold output_row. change (flip_index <$> cis) with (map flip_index cis).
  destruct o; cbn -[map]; rewrite map_map; apply map_ext; intros ci; cbn; by destruct (ci_side ci).
Qed.

Definition flip_field (x : Field * ColumnIndex) : Field * ColumnIndex := (x.1, flip_index x.2).

Lemma side_fields_swap s jt b :
  side_fields s (JoinType.swap jt) (negb b) = flip_field <$> side_fields s jt b.
Proof.
  unfold side_fields. rewrite fmap_imap. apply imap_ext. intros i f _. cbn. unfold flip_field. cbn. f_equal.
  - unfold output_join_field. by destruct jt, b.
  - by destruct b.
Qed.

(** The columns of both sides, in the order of the join. *)
Definition pair_type (jt : JoinType) : bool :=
  match jt with Inner | Left | Right | Full => true | _ => false end.

Lemma length_side_fields s jt b : length (side_fields s jt b) = length s.
Proof. unfold side_fields. by rewrite length_imap. Qed.

Lemma join_fields_pair l r jt :
  pair_type jt = true →
  let fs := side_fields l jt true ++ side_fields r jt false in build_join_schema l r jt = (fs.*1, fs.*2).
Proof. by destruct jt. Qed.

Lemma flip_fst (fs : list (Field * ColumnIndex)) : (flip_field <$> fs).*1 = fs.*1.
Proof. rewrite <- list_fmap_compose. by apply list_fmap_ext. Qed.

Lemma flip_snd (fs : list (Field * ColumnIndex)) : (flip_field <$> fs).*2 = flip_index <$> fs.*2.
Proof. rewrite <- !list_fmap_compose. by apply list_fmap_ext. Qed.

Lemma swapped_fields_pair l r jt :
  pair_type jt = true →
  let fs := side_fields r jt false ++ side_fields l jt true in
  build_join_schema r l (JoinType.swap jt) = (fs.*1, flip_index <$> fs.*2).
Proof.
  intros Hp fs. rewrite join_fields_pair by (by destruct jt). cbn zeta.
  rewrite <- (flip_fst fs), <- flip_snd. unfold fs. rewrite !fmap_app.
  by rewrite <- (side_fields_swap r jt false), <- (side_fields_swap l jt true).
Qed.

(** Joins that keep one side. *)
Lemma swapped_fields_one l r jt :
  pair_type jt = false →
  build_join_schema r l (JoinType.swap jt) = ((build_join_schema l r jt).1, flip_index <$> (build_join_schema l r jt).2).
Proof.
  pose proof (side_fields_swap l jt true) as Hl. pose proof (side_fields_swap r jt false) as Hr.
  cbn [negb] in Hl, Hr. destruct jt; try done; intros _; unfold build_join_schema; cbn [JoinType.swap fst snd] in *;
    rewrite ?Hl, ?Hr, ?fmap_app, <- ?flip_snd, ?flip_fst; done.
Qed.

(** Where column [i] of [A ++ B] is in [B ++ A]. *)
Definition rotate (a b i : nat) : nat := if bool_decide (i < a) then i + b else i - a.

Lemma lookup_rotate {A} (l r : list A) i :
  i < length l + length r → (r ++ l) !! rotate (length l) (length r) i = (l ++ r) !! i.
Proof.
  intros Hi. unfold rotate. case_bool_decide.
  - rewrite lookup_app_r, lookup_app_l by lia. f_equal. lia.
  - rewrite lookup_app_l, lookup_app_r by lia. f_equal.
Qed.

Lemma mapM_rotate {A} (l r : list A) columns :
  Forall (λ i, i < length l + length r) columns →
  mapM (λ i, (r ++ l) !! i) (map (rotate (length l) (length r)) columns) = mapM (λ i, (l ++ r) !! i) columns.
Proof. induction 1 as [|i columns Hi _ IH]; [done|]. cbn [map mapM]. by rewrite lookup_rotate, IH. Qed.

Lemma omap_rotate {A} (l r : list A) columns :
  Forall (λ i, i < length l + length r) columns →
  omap (λ i, (r ++ l) !! i) (map (rotate (length l) (length r)) columns) = omap (λ i, (l ++ r) !! i) columns.
Proof.
  induction 1 as [|i columns Hi _ IH]; [done|]. cbn [map omap list_omap]. rewrite lookup_rotate by done.
  change (list_omap _ _ ?f ?k) with (omap f k). by rewrite IH.
Qed.

(** The projection that restores the columns. *)
Lemma cells_at (A B C : row) : map (λ k, cell k (A ++ B ++ C)) (seq (length A) (length B)) = B.
Proof.
  revert A. induction B as [|x B IH]; intros A; [done|]. cbn [length seq map]. f_equal.
  - unfold cell. cbn. by rewrite lookup_app_r, Nat.sub_diag by lia.
  - specialize (IH (A ++ [x])). rewrite length_app in IH. cbn [length] in IH. rewrite Nat.add_1_r in IH.
    etransitivity; [|exact IH]. apply map_ext. intros k. by rewrite <- !(assoc_L (++)).
Qed.

Lemma reverting_snd l r :
  (swap_reverting_projection l r).*2 = seq (length r) (length l) ++ seq 0 (length r).
Proof.
  assert (Hseq : ∀ n (s : Schema), snd <$> imap (λ i f, (f_name f, n + i)) s = seq n (length s)).
  { intros n s. revert n. induction s as [|f s IH]; intros n; [done|]. rewrite imap_cons. cbn. rewrite Nat.add_0_r.
    f_equal. rewrite <- IH. f_equal. apply imap_ext. intros i x _. cbn. f_equal. lia. }
  unfold swap_reverting_projection. rewrite fmap_app, length_imap, (Hseq (length r)). f_equal. apply (Hseq 0).
Qed.

Lemma project_row_reverting l r (A B : row) :
  length A = length r → length B = length l → project_row (swap_reverting_projection l r) (A ++ B) = B ++ A.
Proof.
  intros HA HB. unfold project_row.
  transitivity (map (λ i, cell i (A ++ B)) (map snd (swap_reverting_projection l r))); [by rewrite map_map|].
  change (map snd ?k) with (k.*2). rewrite reverting_snd, map_app, <- HA, <- HB. f_equal.
  - pose proof (cells_at A B []) as E. by rewrite app_nil_r in E.
  - exact (cells_at [] A B).
Qed.

Lemma side_fields_fst s jt b : (side_fields s jt b).*1 = (λ f, output_join_field f jt b) <$> s.
Proof. unfold side_fields. rewrite fmap_imap. apply imap_const. Qed.

Lemma inner_fields l r : (build_join_schema l r Inner).1 = l ++ r.
Proof.
  rewrite join_fields_pair by done. cbn [fst]. rewrite fmap_app, !side_fields_fst.
  by rewrite !list_fmap_id.
Qed.

Lemma output_join_field_name f jt b : f_name (output_join_field f jt b) = f_name f.
Proof. unfold output_join_field. by destruct (force_nullable jt b). Qed.

Lemma columns_at (g : Field → Field) pre l post :
  (∀ f, f_name (g f) = f_name f) →
  mapM (λ c : string * nat, f ← (pre ++ (g <$> l) ++ post) !! c.2;
          Some {| f_name := c.1; f_type := f_type f; f_nullable := f_nullable f |})
    (imap (λ i f, (f_name f, length pre + i)) l) = Some (g <$> l).
Proof.
  intros Hg. revert pre. induction l as [|f l IH]; intros pre; [done|].
  rewrite imap_cons. cbn [mapM fst snd]. rewrite Nat.add_0_r.
  rewrite lookup_app_r, Nat.sub_diag by lia. cbn [fmap list_fmap app lookup list_lookup mbind option_bind].
  specialize (IH (pre ++ [g f])). rewrite length_app in IH. cbn [length] in IH. rewrite <- (assoc_L (++) pre) in IH.
  cbn [app] in IH. erewrite (imap_ext (_ ∘ S)); [rewrite IH|].
  - cbn. rewrite <- Hg. by destruct (g f).
  - intros i x _. cbn. f_equal. lia.
Qed.

Lemma project_columns_reverting l r jt :
  pair_type jt = true →
  project_columns (swap_reverting_projection l r) (build_join_schema r l (JoinType.swap jt)).1 =
  Ok (build_join_schema l r jt).1.
Proof.
  intros Hp. rewrite swapped_fields_pair, join_fields_pair by done. cbn [fst]. rewrite !fmap_app, !side_fields_fst.
  unfold project_columns, swap_reverting_projection. rewrite length_imap.
  set (gl := λ f, output_join_field f jt true). set (gr := λ f, output_join_field f jt false).
  pose proof (columns_at gl (gr <$> r) l [] ltac:(intros; apply output_join_field_name)) as El.
  pose proof (columns_at gr [] r (gl <$> l) ltac:(intros; apply output_join_field_name)) as Er.
  rewrite app_nil_r, length_fmap in El. cbn [app length Nat.add] in Er.
  by rewrite (mapM_app_Some _ _ _ _ _ El Er).
Qed.

(** ** Exchanged rows *)

Definition in_range (l r : Schema) (jt : JoinType) (projection : option (list nat)) : Prop :=
  match projection with
  | Some columns => Forall (λ i, i < length (build_join_schema l r jt).1) columns
  | None => True
  end.

Lemma length_join_fields l r jt : pair_type jt = true → length (build_join_schema l r jt).1 = length l + length r.
Proof.
  intros Hp. rewrite join_fields_pair by done. cbn [fst]. by rewrite length_fmap, length_app, !length_side_fields.
Qed.

Lemma swap_projection_pair l r jt columns :
  pair_type jt = true → swap_join_projection l r (Some columns) jt = Some (map (rotate l r) columns).
Proof. by destruct jt. Qed.

Lemma swap_projection_one l r jt projection :
  pair_type jt = false → swap_join_projection l r projection jt = projection.
Proof. by destruct jt. Qed.

Lemma in_range_swap l r jt projection :
  in_range l r jt projection →
  in_range r l (JoinType.swap jt) (swap_join_projection (length l) (length r) projection jt).
Proof.
  destruct projection as [columns|]; [|by destruct jt]. cbn [in_range]. intros Hr. destruct (pair_type jt) eqn:Hp.
  - rewrite swap_projection_pair by done. cbn [in_range].
    rewrite length_join_fields in Hr |- * by (done || by destruct jt).
    apply Forall_map. eapply Forall_impl; [exact Hr|]. intros i Hi. cbn in Hi. unfold rotate. case_bool_decide; lia.
  - rewrite swap_projection_one by done. cbn [in_range]. by rewrite swapped_fields_one.
Qed.

(** The schema after the exchange: the same fields. *)
Lemma fields_swap l r jt projection :
  in_range l r jt projection → keeps_columns jt projection = true →
  project_fields (build_join_schema r l (JoinType.swap jt)).1
    (swap_join_projection (length l) (length r) projection jt) =
  project_fields (build_join_schema l r jt).1 projection.
Proof.
  intros Hr Hk. destruct (pair_type jt) eqn:Hp.
  - destruct projection as [columns|]; [|by destruct jt]. cbn [in_range] in Hr.
    rewrite length_join_fields in Hr by done. rewrite swap_projection_pair by done.
    rewrite swapped_fields_pair, join_fields_pair by done. cbn [fst project_fields]. rewrite !fmap_app.
    pose proof (mapM_rotate (side_fields l jt true).*1 (side_fields r jt false).*1 columns) as E.
    rewrite !length_fmap, !length_side_fields in E. by apply E.
  - rewrite swap_projection_one, swapped_fields_one by done. done.
Qed.

Lemma indices_swap l r jt projection :
  in_range l r jt projection → keeps_columns jt projection = true →
  projected_indices (build_join_schema r l (JoinType.swap jt)).2
    (swap_join_projection (length l) (length r) projection jt) =
  flip_index <$> projected_indices (build_join_schema l r jt).2 projection.
Proof.
  assert (Hom : ∀ (cis : list ColumnIndex) (columns : list nat),
    omap (λ i, (flip_index <$> cis) !! i) columns = flip_index <$> omap (λ i, cis !! i) columns).
  { intros cis columns. induction columns as [|i columns IH]; [done|]. cbn. rewrite list_lookup_fmap.
    destruct (cis !! i); cbn; by rewrite ?IH. }
  intros Hr Hk. destruct (pair_type jt) eqn:Hp.
  - destruct projection as [columns|]; [|by destruct jt]. cbn [in_range] in Hr.
    rewrite length_join_fields in Hr by done. rewrite swap_projection_pair by done.
    rewrite swapped_fields_pair, join_fields_pair by done. cbn [snd projected_indices]. rewrite Hom. f_equal.
    rewrite !(fmap_app snd).
    pose proof (omap_rotate (side_fields l jt true).*2 (side_fields r jt false).*2 columns) as E.
    rewrite !length_fmap, !length_side_fields in E. by apply E.
  - rewrite swap_projection_one, swapped_fields_one by done. cbn [snd]. destruct projection; [apply Hom|done].
Qed.

Lemma output_row_app cis1 cis2 o : output_row (cis1 ++ cis2) o = output_row cis1 o ++ output_row cis2 o.
Proof. unfold output_row. destruct o; apply map_app. Qed.

Lemma length_output_row cis o : length (output_row cis o) = length cis.
Proof. unfold output_row. destruct o; apply length_map. Qed.

(** The rows after the exchange: the same, in the same columns. *)
Definition exchanged_rows (jt : JoinType) (m' : row → row → bool) (projection : option (list nat)) (l r : Schema)
    (ls rs : list row) : list row :=
  let new := joined_rows (JoinType.swap jt) m' (swap_join_projection (length l) (length r) projection jt) r l rs ls in
  if keeps_columns jt projection then new else map (project_row (swap_reverting_projection l r)) new.

Lemma joined_rows_swap jt m m' projection l r ls rs :
  (∀ x y, m' y x = m x y) → in_range l r jt projection →
  exchanged_rows jt m' projection l r ls rs ≡ₚ joined_rows jt m projection l r ls rs.
Proof.
  intros Hm Hr. unfold exchanged_rows, joined_rows. rewrite (join_spec_ext _ m' (λ y x, m x y)) by done.
  pose proof (swap_correct jt m ls rs) as Hs. destruct (keeps_columns jt projection) eqn:Hk.
  - rewrite indices_swap by done. change (map ?f ?k) with (f <$> k). rewrite Hs, <- list_fmap_compose.
    erewrite list_fmap_ext; [done|]. intros i o _. apply output_row_flip.
  - assert (Hp : pair_type jt = true) by (by destruct jt). assert (projection = None) as -> by (by destruct jt, projection).
    replace (swap_join_projection _ _ None jt) with (@None (list nat)) by (by destruct jt). cbn [projected_indices].
    rewrite swapped_fields_pair, join_fields_pair by done. cbn [snd].
    remember ((side_fields r jt false ++ side_fields l jt true).*2) as cis eqn:Ecis.
    change (map ?f ?k) with (f <$> k). rewrite Hs, <- !list_fmap_compose.
    erewrite list_fmap_ext; [done|]. intros i o _. unfold compose. rewrite output_row_flip, Ecis, !fmap_app, !output_row_app.
    apply project_row_reverting; by rewrite length_output_row, length_fmap, length_side_fields.
Qed.

(** ** Exchanging the inputs of a join *)

Lemma filter_match_swap f x y : filter_match (swap_filter <$> f) y x = filter_match f x y.
Proof.
  destruct f as [f|]; [|done]. unfold filter_match. cbn [fmap option_fmap option_map].
  change (Both y x) with (swap_out (Both x y)).
  change (filter_column_indices (swap_filter f)) with (flip_index <$> filter_column_indices f). by rewrite output_row_flip.
Qed.

Lemma key_eq_sym ne a b : Transfer.key_eq ne a b = Transfer.key_eq ne b a.
Proof. destruct a, b; cbn; try done. by apply bool_decide_ext. Qed.

Lemma join_match_swap j l r x y : Plan.join_match (swapped_join j l r) y x = Plan.join_match j x y.
Proof.
  unfold Plan.join_match. cbn [swapped_join on null_equality join_filter]. rewrite filter_match_swap. f_equal.
  induction (on j) as [|p ons IH]; [done|]. cbn. by rewrite IH, key_eq_sym.
Qed.

Lemma join_output_spec j ls rs :
  null_aware j = false → Plan.join_output j ls rs ≡ₚ join_spec (join_type j) (Plan.join_match j) ls rs.
Proof.
  intros Hn. unfold Plan.join_output. rewrite Hn. destruct (join_type j); try done. apply JoinParts.probe_order_pairs.
Qed.

Lemma join_rows_joined j l r ls rs :
  null_aware j = false → join_fetch j = None →
  Plan.join_rows j l r ls rs ≡ₚ joined_rows (join_type j) (Plan.join_match j) (projection j) l r ls rs.
Proof.
  intros Hn Hf. unfold Plan.join_rows, joined_rows. rewrite Hf. cbn [Plan.take_fetch].
  change (map ?f ?k) with (f <$> k). by rewrite join_output_spec.
Qed.

Lemma join_output_permutation j ls ls' rs rs' :
  ls ≡ₚ ls' → rs ≡ₚ rs' → Plan.join_output j ls rs ≡ₚ Plan.join_output j ls' rs'.
Proof.
  intros Hl Hr. destruct (null_aware j) eqn:Hn.
  - unfold Plan.join_output. rewrite Hn. pose proof (λ jt, join_spec_permutation jt (Plan.join_match j) _ _ _ _ Hl Hr) as Hs.
    destruct (join_type j); try apply Hs; [rewrite !JoinParts.probe_order_pairs; by apply inner_pairs_permutation|].
    unfold Plan.null_aware_output. rewrite (existsb_permutation _ _ _ Hr). destruct (existsb _ rs'); [done|].
    rewrite Hl. f_equiv. apply Permutation_refl', filter_ext_bool. intros x. unfold left_matched.
    by rewrite (existsb_permutation _ _ _ Hr), (Permutation_length Hr).
  - rewrite !join_output_spec by done. by apply join_spec_permutation.
Qed.

Lemma joined_rows_permutation jt m projection l r ls ls' rs rs' :
  ls ≡ₚ ls' → rs ≡ₚ rs' → joined_rows jt m projection l r ls rs ≡ₚ joined_rows jt m projection l r ls' rs'.
Proof.
  intros Hl Hr. unfold joined_rows. change (map ?f ?k) with (f <$> k). by rewrite (join_spec_permutation _ _ _ _ _ _ Hl Hr).
Qed.

(** ** The rewrite *)

Section Correct.
Context `{Nodes, !NodesOk, ScalarOps}.

(** Rebuilt nodes can be rebuilt, and the order of the inputs' rows changes only
    the order of the output. *)
Class NodesStable : Prop := {
  node_rebuild_again : ∀ n ss n', node_rebuild n ss = Ok n' → ∃ n'', node_rebuild n' ss = Ok n'';
  node_rows_permutation : ∀ n rss rss', Forall2 (≡ₚ) rss rss' → node_rows n rss ≡ₚ node_rows n rss';
}.
Context `{!NodesStable}.

Definition same (p q : exec) : Prop := schema q = schema p ∧ rows q ≡ₚ rows p.

#[local] Instance same_equivalence : Equivalence same.
Proof.
  split; [by intros p|by intros p q [? ?]|]. intros p q r [S1 R1] [S2 R2]. split; [congruence|by rewrite R2, R1].
Qed.

Context (partition_statistics : exec → Result Statistics.Statistics) (config : OptimizerOptions)
        (is_unbounded is_incremental : exec → bool).

Definition becomes_symmetric (l r : exec) : bool :=
  is_unbounded l && is_unbounded r && is_incremental l && is_incremental r.

(** A symmetric join has no projection and is not null-aware. *)
Definition streams (j : HashJoin) : Prop :=
  projection j = None ∧ null_aware j = false ∨ ∀ l r, becomes_symmetric l r = false.

(** Every node accepts its children; limits have not been pushed into joins. *)
Fixpoint valid (p : exec) : Prop :=
  match p with
  | HashJoinExec _ j l r =>
      valid l ∧ valid r ∧ Plan.hash_join_check j (schema l) (schema r) = Ok () ∧ join_fetch j = None ∧ streams j
  | SymmetricHashJoinExec j l r => valid l ∧ valid r ∧ on j ≠ [] ∧ check_join_is_valid (schema l) (schema r) (on j) = Ok ()
  | CrossJoinExec l r => valid l ∧ valid r
  | NestedLoopJoinExec n l r => valid l ∧ valid r ∧ in_range (schema l) (schema r) (nl_join_type n) (nl_projection n)
  | ProjectionExec columns input => valid input ∧ ∃ s, project_columns columns (schema input) = Ok s
  | OtherExec n inputs =>
      foldr (λ q acc, valid q ∧ acc) True inputs ∧
      (inputs ≠ [] → ∃ n', node_rebuild n (map schema inputs) = Ok n')
  end.

(** What the rule may put in place of [p]. *)
Definition replaces (p q : exec) : Prop := valid q ∧ same p q.

Lemma project_fields_in_range l r jt projection :
  in_range l r jt projection → ∃ s, project_fields (build_join_schema l r jt).1 projection = Some s.
Proof.
  destruct projection as [columns|]; cbn [in_range project_fields]; [|by eexists]. intros HF.
  destruct (mapM (λ i, (build_join_schema l r jt).1 !! i) columns) eqn:E; [by eexists|]. exfalso.
  apply mapM_None in E. apply Exists_exists in E as (i & Hi & Hn). rewrite Forall_forall in HF.
  apply lookup_ge_None in Hn. specialize (HF i Hi). lia.
Qed.

Lemma check_in_range j l r : Plan.hash_join_check j l r = Ok () → in_range l r (join_type j) (projection j).
Proof.
  intros Hc. assert (Hp : can_project (build_join_schema l r (join_type j)).1 (projection j) = Ok ()).
  { revert Hc. unfold Plan.hash_join_check, mbind, Result_bind. by repeat case_match. }
  unfold can_project in Hp. unfold in_range. destruct (projection j) as [columns|]; [|done].
  destruct (forallb _ columns) eqn:Ef; [|done]. apply forallb_Forall in Ef. eapply Forall_impl; [exact Ef|].
  intros i Hi. by apply bool_decide_eq_true in Hi.
Qed.

(** The exchanged join passes the checks of the builder. *)
Lemma swapped_check j l r :
  Plan.hash_join_check j l r = Ok () → null_aware j = false →
  Plan.hash_join_check (swapped_join j l r) r l = Ok ().
Proof.
  intros Hc Hn. pose proof (check_in_range _ _ _ Hc) as Hr.
  unfold Plan.hash_join_check in *. cbn [swapped_join null_aware on join_type projection]. rewrite Hn in *.
  cbn [mbind Result_bind] in *. destruct (bool_decide_reflect (on j = [])) as [|Hon]; [done|].
  rewrite bool_decide_false by (by intros ?%map_eq_nil). cbn [mbind Result_bind] in *.
  unfold check_join_is_valid in *.
  assert (Ef : forallb (λ p, has_columns r p.1 && has_columns l p.2) (map (λ p, (p.2, p.1)) (on j)) =
               forallb (λ p, has_columns l p.1 && has_columns r p.2) (on j)).
  { clear. induction (on j) as [|p ons IH]; [done|]. cbn. by rewrite IH, (andb_comm (has_columns r _)). }
  rewrite Ef. destruct (forallb _ (on j)); [|done]. cbn [mbind Result_bind] in *.
  apply in_range_swap in Hr. unfold can_project. destruct (swap_join_projection _ _ _ _); [|done].
  rewrite (proj2 (forallb_Forall _ _)); [done|]. eapply Forall_impl; [exact Hr|]. intros i Hi. by apply bool_decide_eq_true.
Qed.

Lemma streams_swapped j l r : streams j → streams (swapped_join j l r).
Proof.
  intros [[Hp Hn]|Hs]; [left|by right]. cbn [swapped_join projection null_aware]. rewrite Hp.
  split; [by destruct (join_type j)|done].
Qed.

(** A join of exchanged inputs, with the projection on top where it is needed. *)
Lemma swap_inputs_ok mode mode' j l r :
  valid (HashJoinExec mode j l r) → null_aware j = false →
  ∃ q, swap_inputs mode' j l r = Ok q ∧ replaces (HashJoinExec mode j l r) q.
Proof.
  intros (Hl & Hr & Hc & Hf & Hs) Hn. pose proof (check_in_range _ _ _ Hc) as Hin.
  unfold swap_inputs, hash_join_build. rewrite (swapped_check _ _ _ Hc Hn). cbn [mbind Result_bind].
  set (new := HashJoinExec mode' (swapped_join j (schema l) (schema r)) r l).
  assert (Hv : valid new).
  { cbn. split_and!; [done|done|by apply swapped_check|done|by apply streams_swapped]. }
  pose proof (joined_rows_swap (join_type j) (Plan.join_match j) (Plan.join_match (swapped_join j (schema l) (schema r)))
    (projection j) (schema l) (schema r) (rows l) (rows r) (join_match_swap j _ _) Hin) as Hrows.
  rewrite <- (join_rows_joined j) in Hrows by done. unfold exchanged_rows in Hrows.
  assert (Hnew : rows new ≡ₚ joined_rows (JoinType.swap (join_type j))
    (Plan.join_match (swapped_join j (schema l) (schema r)))
    (swap_join_projection (length (schema l)) (length (schema r)) (projection j) (join_type j))
    (schema r) (schema l) (rows r) (rows l)) by (by apply join_rows_joined).
  destruct (keeps_columns (join_type j) (projection j)) eqn:Hk.
  - exists new. split; [done|]. split; [done|]. split; [|by rewrite Hnew].
    cbn [schema new]. unfold Plan.hash_join_schema. cbn [swapped_join join_type projection]. by rewrite fields_swap.
  - assert (Hp : pair_type (join_type j) = true) by (by destruct (join_type j)).
    assert (Hpj : projection j = None) by (by destruct (join_type j), (projection j)).
    assert (Hsch : schema new = (build_join_schema (schema r) (schema l) (JoinType.swap (join_type j))).1).
    { cbn [schema new]. unfold Plan.hash_join_schema. cbn [swapped_join join_type projection]. rewrite Hpj.
      by destruct (join_type j). }
    unfold reorder_output_after_swap, projection_try_new. rewrite Hsch, project_columns_reverting by done.
    cbn [mbind Result_bind]. eexists. split; [done|]. split; [|split].
    + cbn [valid]. split; [done|]. rewrite Hsch, project_columns_reverting by done. by eexists.
    + cbn [schema]. rewrite Hsch, project_columns_reverting by done. unfold Plan.hash_join_schema. by rewrite Hpj.
    + cbn [rows]. fold (rows new). change (map ?f ?k) with (f <$> k). rewrite Hnew. exact Hrows.
Qed.

Lemma cross_swap_ok l r :
  valid (CrossJoinExec l r) → ∃ q, cross_swap_inputs l r = Ok q ∧ replaces (CrossJoinExec l r) q.
Proof.
  intros [Hl Hr]. unfold cross_swap_inputs, reorder_output_after_swap, projection_try_new.
  pose proof (joined_rows_swap Inner (λ _ _, true) (λ _ _, true) None (schema l) (schema r) (rows l) (rows r)
    ltac:(done) I) as Hrows. unfold exchanged_rows in Hrows. cbn [keeps_columns JoinType.swap swap_join_projection] in Hrows.
  assert (Hsch : project_columns (swap_reverting_projection (schema l) (schema r)) (schema r ++ schema l) =
                 Ok (schema l ++ schema r)).
  { pose proof (project_columns_reverting (schema l) (schema r) Inner eq_refl) as E.
    by rewrite !inner_fields in E. }
  cbn [schema]. rewrite Hsch. cbn [mbind Result_bind]. eexists. split; [done|]. split; [|split].
  - cbn [valid schema]. split; [done|]. rewrite Hsch. by eexists.
  - cbn [schema]. by rewrite Hsch.
  - exact Hrows.
Qed.

Lemma nested_swap_ok n l r :
  valid (NestedLoopJoinExec n l r) →
  ∃ q, nested_swap_inputs n l r = Some (Ok q) ∧ replaces (NestedLoopJoinExec n l r) q.
Proof.
  intros (Hl & Hr & Hin). unfold nested_swap_inputs, nested_loop_build.
  cbn [nl_join_type nl_filter nl_projection].
  pose proof (in_range_swap _ _ _ _ Hin) as Hin'. destruct (project_fields_in_range _ _ _ _ Hin') as [s Hs].
  rewrite Hs. cbn [mbind option_bind try_bind].
  pose proof (joined_rows_swap (nl_join_type n) (filter_match (nl_filter n)) (filter_match (swap_filter <$> nl_filter n))
    (nl_projection n) (schema l) (schema r) (rows l) (rows r) (filter_match_swap (nl_filter n)) Hin) as Hrows.
  unfold exchanged_rows in Hrows.
  destruct (keeps_columns (nl_join_type n) (nl_projection n)) eqn:Hk.
  - eexists. split; [done|]. split; [done|]. split; [|exact Hrows].
    cbn [schema nl_join_type nl_projection]. by rewrite fields_swap.
  - assert (Hp : pair_type (nl_join_type n) = true) by (by destruct (nl_join_type n)).
    assert (Hpj : nl_projection n = None) by (by destruct (nl_join_type n), (nl_projection n)).
    set (new := NestedLoopJoinExec _ r l).
    assert (Hsch : schema new = (build_join_schema (schema r) (schema l) (JoinType.swap (nl_join_type n))).1).
    { cbn [schema new nl_join_type nl_projection]. rewrite Hpj. by destruct (nl_join_type n). }
    unfold reorder_output_after_swap, projection_try_new. rewrite Hsch, project_columns_reverting by done.
    cbn [mbind Result_bind]. eexists. split; [done|]. split; [|split].
    + cbn [valid]. split; [done|]. rewrite Hsch, project_columns_reverting by done. by eexists.
    + cbn [schema]. rewrite Hsch, project_columns_reverting by done. by rewrite Hpj.
    + exact Hrows.
Qed.

(** *** The traversal *)

Lemma exec_children_ind (P : exec → Prop) : (∀ p, Forall P (children p) → P p) → ∀ p, P p.
Proof.
  intros IH. fix rec 1. intros p. apply IH.
  destruct p as [mode j l r|j l r|l r|n l r|columns input|n inputs]; cbn [children].
  1-4: constructor; [apply rec|constructor; [apply rec|constructor]].
  - constructor; [apply rec|constructor].
  - induction inputs as [|q inputs IHi]; constructor; [apply rec|exact IHi].
Qed.

Lemma valid_children p : valid p → Forall valid (children p).
Proof.
  destruct p as [mode j l r|j l r|l r|n l r|columns input|n inputs]; cbn [valid children]; intros Hv; [by decompose_Forall; naive_solver..|].
  destruct Hv as [Hv _]. induction inputs as [|q inputs IH]; constructor; [apply Hv|apply IH, Hv].
Qed.

Lemma replaces_refl p : valid p → replaces p p.
Proof. by split. Qed.

Lemma replaces_trans p q r : replaces p q → replaces q r → replaces p r.
Proof. intros [? ?] [? ?]. split; [done|by etransitivity]. Qed.

Lemma replaces_all ps cs :
  Forall2 replaces ps cs →
  foldr (λ q acc, valid q ∧ acc) True cs ∧ map schema cs = map schema ps ∧ Forall2 (≡ₚ) (map rows cs) (map rows ps).
Proof.
  induction 1 as [|p q ps cs [Hv [Hs Hr]] _ (Hvs & Hss & Hrs)]; [done|]. cbn. rewrite Hs, Hss. by repeat constructor.
Qed.

Lemma join_rows_permutation j l r ls ls' rs rs' :
  join_fetch j = None → ls ≡ₚ ls' → rs ≡ₚ rs' → Plan.join_rows j l r ls rs ≡ₚ Plan.join_rows j l r ls' rs'.
Proof.
  intros Hf Hl Hr. unfold Plan.join_rows. rewrite Hf. cbn [Plan.take_fetch]. change (map ?f ?k) with (f <$> k).
  by rewrite (join_output_permutation _ _ _ _ _ Hl Hr).
Qed.

(** A node over replaced children replaces the node. *)
Lemma with_new_children_ok p cs :
  valid p → children p ≠ [] → Forall2 replaces (children p) cs →
  ∃ q, with_new_children p cs = Some (Ok q) ∧ replaces p q.
Proof.
  destruct p as [mode j l r|j l r|l r|n l r|columns input|n inputs]; cbn [children valid]; intros Hv Hne Hcs.
  1-4: apply Forall2_cons_inv_l in Hcs as (l' & ? & [Hvl [Sl Rl]] & Hcs & ->);
    apply Forall2_cons_inv_l in Hcs as (r' & ? & [Hvr [Sr Rr]] & ->%Forall2_nil_inv_l & ->); cbn [with_new_children].
  - destruct Hv as (_ & _ & Hc & Hf & Hs). unfold hash_join_build. rewrite Sl, Sr, Hc. cbn [mbind Result_bind].
    eexists. split; [done|]. split; [cbn [valid]; by rewrite Sl, Sr|]. split; cbn [schema rows]; rewrite Sl, Sr; [done|].
    by apply join_rows_permutation.
  - destruct Hv as (_ & _ & Hon & Hc). unfold symmetric_try_new. rewrite bool_decide_false by done. cbn [mbind Result_bind].
    rewrite Sl, Sr, Hc. cbn [mbind Result_bind]. eexists. split; [done|]. split; [cbn [valid]; by rewrite Sl, Sr|].
    split; cbn [schema rows]; rewrite Sl, Sr; [done|by apply joined_rows_permutation].
  - eexists. split; [done|]. split; [done|]. split; cbn [schema rows]; rewrite Sl, Sr; [done|by apply joined_rows_permutation].
  - destruct Hv as (_ & _ & Hin). destruct (project_fields_in_range _ _ _ _ Hin) as [s Hs].
    unfold nested_loop_build. rewrite Sl, Sr, Hs. cbn [mbind option_bind]. eexists. split; [done|].
    split; [cbn [valid]; by rewrite Sl, Sr|]. split; cbn [schema rows]; rewrite Sl, Sr; [done|by apply joined_rows_permutation].
  - apply Forall2_cons_inv_l in Hcs as (c & ? & [Hvc [Sc Rc]] & ->%Forall2_nil_inv_l & ->). destruct Hv as [_ [s Hs]].
    cbn [with_new_children]. unfold projection_try_new. rewrite Sc, Hs. cbn [mbind Result_bind]. eexists. split; [done|].
    split; [cbn [valid]; rewrite Sc; by eauto|]. split; cbn [schema rows]; [by rewrite Sc|].
    change (map ?f ?k) with (f <$> k). by rewrite Rc.
  - destruct Hv as [_ Hv]. destruct (Hv Hne) as [n' Hn]. destruct (replaces_all _ _ Hcs) as (Hvs & Ss & Rs).
    cbn [with_new_children]. rewrite Ss, Hn. cbn [mbind Result_bind]. eexists. split; [done|].
    split; [cbn [valid]; rewrite Ss; by eauto using node_rebuild_again|].
    split; cbn [schema rows]; [rewrite Ss; by apply node_rebuild_schema|].
    rewrite (node_rebuild_rows _ _ _ _ Hn). by apply node_rows_permutation.
Qed.

(** [transform_up] over the list of children. *)
Fixpoint transform_all (f : exec → option (Result (Transformed exec))) (ps : list exec) :
    option (Result (Transformed (list exec))) :=
  match ps with
  | [] => Some (Ok (no []))
  | p :: ps => c ←? transform_up f p; cs ←? transform_all f ps; Some (Ok (collect_child c cs))
  end.

Lemma transform_up_eq f p :
  transform_up f p = (cs ←? transform_all f (children p); t ←? map_children p cs; transform_parent t f).
Proof.
  destruct p as [mode j l r|j l r|l r|n l r|columns input|n inputs]; cbn [children transform_all transform_up].
  1-4: by destruct (transform_up f l) as [[]|]; cbn [try_bind]; [destruct (transform_up f r) as [[]|]| |].
  - by destruct (transform_up f input) as [[]|].
  - f_equal. induction inputs as [|q inputs IH]; [done|]. cbn [transform_all]. by rewrite <- IH.
Qed.

(** A rewrite that returns a replacement of every valid plan. *)
Definition good (f : exec → option (Result (Transformed exec))) : Prop :=
  ∀ p, valid p → ∃ t, f p = Some (Ok t) ∧ replaces p (data t).

Lemma transform_all_good f ps :
  Forall (λ p, valid p → ∃ t, transform_up f p = Some (Ok t) ∧ replaces p (data t)) ps → Forall valid ps →
  ∃ cs, transform_all f ps = Some (Ok cs) ∧ Forall2 replaces ps (data cs) ∧ (ps = [] → transformed cs = false).
Proof.
  induction 1 as [|p ps Hp _ IH]; intros Hv; [by eexists|]. apply Forall_cons in Hv as [Hv Hvs].
  destruct (Hp Hv) as (t & Et & Ht), (IH Hvs) as (cs & Ecs & Hcs & _). cbn. rewrite Et. cbn. rewrite Ecs. cbn.
  eexists. split; [done|]. split; [by constructor|done].
Qed.

Lemma transform_up_good f : good f → good (transform_up f).
Proof.
  intros Hf p. induction p as [p IH] using exec_children_ind. intros Hv. rewrite transform_up_eq.
  destruct (transform_all_good f _ IH (valid_children _ Hv)) as (cs & Ecs & Hcs & Hnil). rewrite Ecs. cbn [try_bind].
  assert (∃ t, map_children p cs = Some (Ok t) ∧ replaces p (data t)) as (t & Et & Ht).
  { unfold map_children. destruct (transformed cs); [|by eexists; split; [done|apply replaces_refl]].
    destruct (with_new_children_ok p (data cs) Hv) as (q & Eq & Hq); [by intros ?%Hnil|done|].
    rewrite Eq. cbn. by eexists. }
  rewrite Et. cbn [try_bind]. unfold transform_parent. destruct (Hf (data t) (proj1 Ht)) as (t' & Et' & Ht').
  rewrite Et'. cbn [try_bind]. eexists. split; [done|]. by eapply replaces_trans.
Qed.

(** *** The subrules *)

(** The mode of a join can be changed. *)
Lemma rebuild_ok mode mode' j l r :
  valid (HashJoinExec mode j l r) →
  hash_join_build mode' j l r = Ok (HashJoinExec mode' j l r) ∧ replaces (HashJoinExec mode j l r) (HashJoinExec mode' j l r).
Proof. intros Hv. split; [|by split]. destruct Hv as (_ & _ & Hc & _). unfold hash_join_build. by rewrite Hc. Qed.

Lemma convert_ok p :
  valid p → ∃ t, hash_join_convert_symmetric_subrule is_unbounded is_incremental p = Ok t ∧ replaces p (data t).
Proof.
  intros Hv. destruct p as [mode j l r|j l r|l r|n l r|columns input|n inputs];
    try (by eexists; split; [done|apply replaces_refl]).
  cbn [hash_join_convert_symmetric_subrule]. fold (becomes_symmetric l r).
  destruct (becomes_symmetric l r) eqn:Hb; [|by eexists; split; [done|apply replaces_refl]].
  destruct Hv as (Hl & Hr & Hc & Hf & [[Hp Hn]|Hs]); [|by rewrite Hs in Hb].
  unfold Plan.hash_join_check in Hc. rewrite Hn in Hc. cbn [mbind Result_bind] in Hc. unfold symmetric_try_new.
  destruct (bool_decide_reflect (on j = [])) as [|Hon]; [done|]. cbn [mbind Result_bind] in *.
  destruct (check_join_is_valid _ _ _) as [[]|] eqn:Ec; [|done]. cbn [mbind Result_bind] in *.
  eexists. split; [done|]. split; [done|]. split; cbn [data yes schema rows].
  - unfold Plan.hash_join_schema. by rewrite Hp.
  - by rewrite join_rows_joined, Hp.
Qed.

Lemma swap_subrule_ok p : valid p → ∃ t, hash_join_swap_subrule is_unbounded p = Ok t ∧ replaces p (data t).
Proof.
  intros Hv. destruct p as [mode j l r|j l r|l r|n l r|columns input|n inputs];
    try (by eexists; split; [done|apply replaces_refl]).
  cbn [hash_join_swap_subrule]. case_match eqn:E; [|by eexists; split; [done|apply replaces_refl]].
  apply andb_prop in E as [[_ Hn]%andb_prop Ht]. apply negb_true_iff in Hn.
  unfold swap_join_according_to_unboundedness.
  destruct (swap_inputs_ok mode CollectLeft j l r Hv Hn) as (q & Eq & Hq).
  destruct (swap_inputs_ok mode Partitioned j l r Hv Hn) as (q' & Eq' & Hq').
  destruct mode, (join_type j); try done; rewrite ?Eq, ?Eq'; cbn [mbind Result_bind]; by eexists.
Qed.

Lemma apply_subrules_good : good (apply_subrules is_unbounded is_incremental).
Proof.
  intros p Hv. unfold apply_subrules. destruct (convert_ok p Hv) as (t & Et & Ht). rewrite Et. cbn [mbind Result_bind].
  destruct (swap_subrule_ok (data t) (proj1 Ht)) as (t' & Et' & Ht'). rewrite Et'. cbn [mbind Result_bind].
  eexists. split; [done|]. by eapply replaces_trans.
Qed.

(** Statistics can be had for every plan. *)
Context (Hstats : ∀ p, ∃ s, partition_statistics p = Ok s).

Lemma should_swap_ok l r : ∃ b, should_swap_join_order partition_statistics config l r = Ok b.
Proof.
  unfold should_swap_join_order. destruct (negb _); [by eexists|]. destruct (Hstats l) as [sl El], (Hstats r) as [sr Er].
  rewrite El, Er. cbn [mbind Result_bind]. repeat case_match; by eexists.
Qed.

Lemma swap_wanted_ok j l r :
  ∃ b, swap_wanted partition_statistics config j l r = Ok b ∧ (b = true → null_aware j = false).
Proof.
  unfold swap_wanted. destruct (should_swap_ok l r) as [b Eb]. rewrite Eb.
  destruct (JoinType.supports_swap _), (null_aware j); cbn; by eexists.
Qed.

Lemma partitioned_ok mode j l r :
  valid (HashJoinExec mode j l r) →
  ∃ q, partitioned_hash_join partition_statistics config j l r = Ok q ∧ replaces (HashJoinExec mode j l r) q.
Proof.
  intros Hv. unfold partitioned_hash_join. destruct (swap_wanted_ok j l r) as ([] & Eb & Hb); rewrite Eb; cbn [mbind Result_bind].
  - apply swap_inputs_ok; auto.
  - eexists. by apply rebuild_ok.
Qed.

Lemma collected_ok mode j l r ignore :
  valid (HashJoinExec mode j l r) →
  ∃ o, try_collect_left partition_statistics config j l r ignore = Ok o ∧
       ∀ q, o = Some q → replaces (HashJoinExec mode j l r) q.
Proof.
  intros Hv. unfold try_collect_left. destruct (rebuild_ok mode CollectLeft j l r Hv) as [Er Hr].
  destruct (_ || _), (_ || _).
  - destruct (swap_wanted_ok j l r) as ([] & Eb & Hb); rewrite Eb; cbn [mbind Result_bind].
    + destruct (swap_inputs_ok mode CollectLeft j l r Hv (Hb eq_refl)) as (q & -> & Hq). cbn. eexists. split; [done|]. by intros ? [= <-].
    + rewrite Er. cbn. eexists. split; [done|]. by intros ? [= <-].
  - rewrite Er. cbn. eexists. split; [done|]. by intros ? [= <-].
  - case_match eqn:E; [|by eexists]. apply andb_prop in E as [_ Hn%negb_true_iff].
    destruct (swap_inputs_ok mode CollectLeft j l r Hv Hn) as (q & -> & Hq). cbn. eexists. split; [done|]. by intros ? [= <-].
  - by eexists.
Qed.

Lemma statistical_good : good (statistical_join_selection_subrule partition_statistics config).
Proof.
  intros p Hv. destruct p as [mode j l r|j l r|l r|n l r|columns input|n inputs];
    try (by eexists; split; [done|apply replaces_refl]); cbn [statistical_join_selection_subrule].
  - destruct mode.
    + destruct (swap_wanted_ok j l r) as ([] & Eb & Hb); rewrite Eb; cbn [mbind Result_bind];
        [|by eexists; split; [done|apply replaces_refl]].
      destruct (swap_inputs_ok Partitioned Partitioned j l r Hv (Hb eq_refl)) as (q & -> & Hq). cbn. by eexists.
    + destruct (collected_ok CollectLeft j l r true Hv) as ([q|] & -> & Hq); cbn [mbind Result_bind]; [eexists; by auto|].
      destruct (partitioned_ok CollectLeft j l r Hv) as (q & -> & Hq'). cbn. by eexists.
    + destruct (collected_ok Auto j l r false Hv) as ([q|] & -> & Hq); cbn [mbind Result_bind]; [eexists; by auto|].
      destruct (partitioned_ok Auto j l r Hv) as (q & -> & Hq'). cbn. by eexists.
  - destruct (should_swap_ok l r) as [[] ->]; cbn [mbind Result_bind]; [|by eexists; split; [done|apply replaces_refl]].
    destruct (cross_swap_ok l r Hv) as (q & -> & Hq). cbn. by eexists.
  - destruct (should_swap_ok l r) as [b Eb]. rewrite Eb.
    destruct (JoinType.supports_swap _); [destruct b|]; cbn [try_bind];
      [|by eexists; split; [done|apply replaces_refl]..].
    destruct (nested_swap_ok n l r Hv) as (q & -> & Hq). cbn. by eexists.
Qed.

Lemma optimize_replaces p :
  valid p → ∃ q, optimize partition_statistics config is_unbounded is_incremental p = Some (Ok q) ∧ replaces p q.
Proof.
  intros Hv. unfold optimize.
  destruct (transform_up_good _ apply_subrules_good p Hv) as (t & -> & Ht). cbn [try_bind].
  destruct (transform_up_good _ statistical_good (data t) (proj1 Ht)) as (t' & -> & Ht'). cbn [try_bind].
  eexists. split; [done|]. by eapply replaces_trans.
Qed.

(** C7. Join selection preserves results: on a plan whose nodes accept their
    children, whose joins have no limit pushed into them and, where both inputs of
    a join can be unbounded, no projection or null-aware join, and whose
    statistics can be computed, the rule does not fail or panic, and the plan it
    returns has the same schema and the same rows up to order, whatever the
    statistics and the configuration are. *)
Theorem join_selection_preserves p :
  valid p →
  ∃ q, optimize partition_statistics config is_unbounded is_incremental p = Some (Ok q) ∧
       schema q = schema p ∧ rows q ≡ₚ rows p.
Proof. intros Hv. destruct (optimize_replaces p Hv) as (q & Eq & _ & Hs). by exists q. Qed.

(** *** Partition modes *)

(** [P] of every hash join of a plan. *)
Fixpoint every (P : PartitionMode → HashJoin → Prop) (p : exec) : Prop :=
  match p with
  | HashJoinExec mode j l r => P mode j ∧ every P l ∧ every P r
  | SymmetricHashJoinExec _ l r | CrossJoinExec l r | NestedLoopJoinExec _ l r => every P l ∧ every P r
  | ProjectionExec _ input => every P input
  | OtherExec _ inputs => foldr (λ q acc, every P q ∧ acc) True inputs
  end.

(** Null-aware joins are not planned in partitioned mode. *)
Definition not_in_parts (mode : PartitionMode) (j : HashJoin) : Prop := null_aware j = true → mode ≠ Partitioned.

(** A mode the join can execute in. *)
Definition decided (mode : PartitionMode) (j : HashJoin) : Prop :=
  mode ≠ Auto ∧ (null_aware j = true → mode = CollectLeft).

Definition top (P : PartitionMode → HashJoin → Prop) (p : exec) : Prop :=
  match p with HashJoinExec mode j _ _ => P mode j | _ => True end.

Lemma every_children P p : every P p ↔ top P p ∧ Forall (every P) (children p).
Proof.
  destruct p as [mode j l r|j l r|l r|n l r|columns input|n inputs]; cbn [every top children];
    rewrite ?Forall_cons, ?Forall_nil; [tauto..|].
  induction inputs as [|q inputs IH]; cbn; rewrite ?Forall_cons, ?Forall_nil; tauto.
Qed.

Lemma with_new_children_top P p cs q :
  with_new_children p cs = Some (Ok q) → length cs = length (children p) → top P p → children q = cs ∧ top P q.
Proof.
  destruct p as [mode j l r|j l r|l r|n l r|columns input|n inputs]; cbn [children].
  1-4: destruct cs as [|l' [|r' []]]; try done; intros Hw _ Hp; revert Hw; cbn [with_new_children];
    unfold hash_join_build, symmetric_try_new, nested_loop_build, mbind, Result_bind, option_bind;
    repeat case_match; intros; simplify_eq; done.
  - destruct cs as [|c []]; try done. intros Hw _ _. revert Hw. cbn [with_new_children].
    unfold projection_try_new, mbind, Result_bind. case_match; intros; by simplify_eq.
  - intros Hw _ _. revert Hw. cbn [with_new_children]. unfold mbind, Result_bind. case_match; intros; by simplify_eq.
Qed.

(** A rewrite that reports what it changes. *)
Definition reports (f : exec → option (Result (Transformed exec))) : Prop :=
  ∀ p t, f p = Some (Ok t) → transformed t = false → data t = p.

Lemma transform_all_every Q f ps cs :
  Forall (λ p, ∀ t, transform_up f p = Some (Ok t) → every Q (data t) ∧ (transformed t = false → data t = p)) ps →
  transform_all f ps = Some (Ok cs) →
  length (data cs) = length ps ∧ Forall (every Q) (data cs) ∧ (transformed cs = false → data cs = ps).
Proof.
  intros HF. revert cs. induction HF as [|p ps Hp _ IH]; intros cs Hcs; [by injection Hcs as <-|]. revert Hcs. cbn [transform_all].
  destruct (transform_up f p) as [[t|]|] eqn:Et; [|done..]. cbn [try_bind].
  destruct (transform_all f ps) as [[ts|]|]; [|done..]. cbn [try_bind]. intros [= <-].
  destruct (Hp t eq_refl) as [Hq Hd], (IH ts eq_refl) as (Hl & Hqs & Hds). cbn [collect_child data transformed length].
  split; [by rewrite Hl|]. split; [by constructor|]. intros [Ht Hts]%orb_false_iff. by rewrite Hd, Hds.
Qed.

Lemma transform_up_every P Q f :
  reports f →
  (∀ p t, top P p → Forall (every Q) (children p) → f p = Some (Ok t) → every Q (data t)) →
  ∀ p t, every P p → transform_up f p = Some (Ok t) → every Q (data t) ∧ (transformed t = false → data t = p).
Proof.
  intros Hrep Hf p. induction p as [p IH] using exec_children_ind. intros t [Hp Hps]%every_children Ht.
  rewrite transform_up_eq in Ht. destruct (transform_all f (children p)) as [[cs|]|] eqn:Ecs; [|done..]. cbn [try_bind] in Ht.
  destruct (transform_all_every Q f (children p) cs) as (Hl & Hq & Hd); [|done|].
  { apply Forall_forall. intros c Hc s Hs. rewrite Forall_forall in IH, Hps. eauto. }
  assert (∃ u, map_children p cs = Some (Ok u) ∧ top P (data u) ∧ Forall (every Q) (children (data u)) ∧
               (transformed u = false → data u = p)) as (u & Eu & Hu & Huq & Hud).
  { unfold map_children in *. destruct (transformed cs).
    - destruct (with_new_children p (data cs)) as [[q|]|] eqn:Ew; [|done..]. eexists. split; [done|].
      destruct (with_new_children_top P _ _ _ Ew Hl Hp) as [Ec Hq']. cbn [data yes]. by rewrite Ec.
    - eexists. split; [done|]. cbn [data no]. rewrite <- (Hd eq_refl). done. }
  rewrite Eu in Ht. cbn [try_bind] in Ht. unfold transform_parent in Ht.
  destruct (f (data u)) as [[v|]|] eqn:Ev; [|done..]. cbn [try_bind] in Ht. injection Ht as <-. cbn [data transformed].
  split; [by eapply Hf|]. intros [Hv Hfu]%orb_false_iff. rewrite (Hrep _ _ Ev Hv). auto.
Qed.

Lemma build_every P mode j l r q :
  hash_join_build mode j l r = Ok q → P mode j → every P l → every P r → every P q.
Proof. unfold hash_join_build, mbind, Result_bind. case_match; [|done]. by intros [= <-]. Qed.

Lemma reorder_every P p l r q : reorder_output_after_swap p l r = Ok q → every P p → every P q.
Proof.
  unfold reorder_output_after_swap, projection_try_new, mbind, Result_bind. case_match; [|done]. by intros [= <-].
Qed.

(** An exchanged join keeps whether it is null-aware. *)
Lemma swap_every P mode j l r q :
  swap_inputs mode j l r = Ok q → (∀ j', null_aware j' = null_aware j → P mode j') → every P l → every P r → every P q.
Proof.
  unfold swap_inputs. intros Hq HP Hl Hr. destruct (hash_join_build _ _ _ _) as [new|] eqn:En; [|done].
  pose proof (build_every P _ _ _ _ _ En (HP (swapped_join j (schema l) (schema r)) eq_refl) Hr Hl) as Hn. cbn [mbind Result_bind] in Hq.
  destruct (keeps_columns _ _); [by injection Hq as <-|by eapply reorder_every].
Qed.

Lemma apply_subrules_every p t :
  top not_in_parts p → Forall (every not_in_parts) (children p) →
  apply_subrules is_unbounded is_incremental p = Some (Ok t) →
  every not_in_parts (data t).
Proof.
  intros Hp Hps. pose proof (proj2 (every_children _ _) (conj Hp Hps)) as He.
  destruct p as [mode j l r|j l r|l r|n l r|columns input|n inputs]; try (by intros [= <-]).
  destruct He as (Hm & Hl & Hr). unfold apply_subrules. cbn [hash_join_convert_symmetric_subrule].
  destruct (_ && _).
  - unfold symmetric_try_new, mbind, Result_bind. repeat case_match; try done; intros; by simplify_eq/=.
  - cbn [mbind Result_bind data no hash_join_swap_subrule]. destruct (_ && _) eqn:Ec; [|by intros [= <-]].
    apply andb_prop in Ec as [[_ Hn%negb_true_iff]%andb_prop _].
    destruct (swap_join_according_to_unboundedness _ _ _ _) as [q|] eqn:Eq; [|done]. intros [= <-]. cbn [data yes].
    unfold swap_join_according_to_unboundedness in Eq.
    assert (∃ mode', swap_inputs mode' j l r = Ok q) as [mode' Es] by (destruct mode, (join_type j); try done; by eexists).
    eapply swap_every; [done| |done..]. intros j' Hj'. unfold not_in_parts. congruence.
Qed.

Lemma apply_subrules_reports : reports (apply_subrules is_unbounded is_incremental).
Proof.
  intros p t. destruct p as [mode j l r|j l r|l r|n l r|columns input|n inputs]; try (by intros [= <-]).
  unfold apply_subrules. cbn [hash_join_convert_symmetric_subrule]. destruct (_ && _).
  - unfold symmetric_try_new, mbind, Result_bind. repeat case_match; intros; simplify_eq/=.
  - cbn [mbind Result_bind data no hash_join_swap_subrule]. destruct (_ && _); [|by intros [= <-]].
    destruct (swap_join_according_to_unboundedness _ _ _ _); [|done]. by intros [= <-].
Qed.

Lemma statistical_reports : reports (statistical_join_selection_subrule partition_statistics config).
Proof.
  intros p t. destruct p as [[] j l r|j l r|l r|n l r|columns input|n inputs]; cbn [statistical_join_selection_subrule];
    unfold mbind, Result_bind, try_bind; repeat case_match; intros; by simplify_eq/=.
Qed.

(** Exchanges are for joins that are not null-aware. *)
Lemma swap_decided mode j l r q :
  swap_inputs mode j l r = Ok q → mode ≠ Auto → null_aware j = false → every decided l → every decided r → every decided q.
Proof. intros Hq Hm Hn Hl Hr. eapply swap_every; [done| |done..]. intros j' Hj'. split; congruence. Qed.

Lemma swap_wanted_aware j l r : swap_wanted partition_statistics config j l r = Ok true → null_aware j = false.
Proof. unfold swap_wanted. destruct (null_aware j); [by rewrite andb_false_r|done]. Qed.

Lemma partitioned_decided j l r q :
  partitioned_hash_join partition_statistics config j l r = Ok q → every decided l → every decided r → every decided q.
Proof.
  unfold partitioned_hash_join. intros Hq Hl Hr. destruct (swap_wanted _ _ _ _ _) as [[]|] eqn:Ew; [| |done]; cbn [mbind Result_bind] in Hq.
  - eapply swap_decided; [done|done| |done..]. by eapply swap_wanted_aware.
  - eapply build_every; [done| |done..]. by destruct (null_aware j) eqn:Hn; split; rewrite ?Hn.
Qed.

Lemma collected_decided j l r ignore q :
  try_collect_left partition_statistics config j l r ignore = Ok (Some q) → every decided l → every decided r → every decided q.
Proof.
  unfold try_collect_left. intros Hq Hl Hr.
  assert (Hb : ∀ q', hash_join_build CollectLeft j l r = Ok q' → every decided q').
  { intros q' Hq'. by eapply build_every. }
  assert (Hs : ∀ q', swap_inputs CollectLeft j l r = Ok q' → null_aware j = false → every decided q').
  { intros q' Hq' Hn. by eapply swap_decided. }
  destruct (_ || _), (_ || _).
  - destruct (swap_wanted _ _ _ _ _) as [[]|] eqn:Ew; [| |done]; cbn [mbind Result_bind] in Hq.
    + apply swap_wanted_aware in Ew. destruct (swap_inputs _ _ _ _); [|done]. injection Hq as <-. auto.
    + destruct (hash_join_build _ _ _ _); [|done]. injection Hq as <-. auto.
  - destruct (hash_join_build _ _ _ _); [|done]. injection Hq as <-. auto.
  - destruct (_ && _) eqn:Ec; [|done]. apply andb_prop in Ec as [_ Hn%negb_true_iff].
    destruct (swap_inputs _ _ _ _); [|done]. injection Hq as <-. auto.
  - done.
Qed.

Lemma statistical_every p t :
  top not_in_parts p → Forall (every decided) (children p) →
  statistical_join_selection_subrule partition_statistics config p = Some (Ok t) → every decided (data t).
Proof.
  intros Hp Hps. destruct p as [mode j l r|j l r|l r|n l r|columns input|n inputs].
  2,5,6: intros [= <-]; by apply every_children.
  all: cbn [children] in Hps; apply Forall_cons in Hps as [Hl [Hr _]%Forall_cons]; cbn [statistical_join_selection_subrule].
  - assert (He : ∀ collected, (∀ q, collected = Ok (Some q) → every decided q) →
      Some (o ← collected; match o with Some v => Ok (yes v)
                           | None => new ← partitioned_hash_join partition_statistics config j l r; Ok (yes new) end) = Some (Ok t) →
      every decided (data t)).
    { intros [[q|]|] Hq; cbn [mbind Result_bind]; [intros [= <-]; by apply Hq| |done].
      destruct (partitioned_hash_join _ _ _ _ _) eqn:E; [|done]. intros [= <-]. by eapply partitioned_decided. }
    destruct mode; [|apply He; intros q Hq; by eapply collected_decided..]. cbn [top] in Hp. unfold not_in_parts in Hp.
    assert (Hn : null_aware j = false) by (destruct (null_aware j); naive_solver).
    destruct (swap_wanted _ _ _ _ _) as [[]|]; [| |done]; cbn [mbind Result_bind].
    + destruct (swap_inputs _ _ _ _) as [q|] eqn:E; [|done]. intros [= <-]. by eapply swap_decided.
    + intros [= <-]. cbn [data no every]. unfold decided. by rewrite Hn.
  - destruct (should_swap_join_order _ _ _ _) as [[]|]; [| |done]; cbn [mbind Result_bind]; [|by intros [= <-]].
    unfold cross_swap_inputs. destruct (reorder_output_after_swap _ _ _) eqn:E; [|done]. intros [= <-]. by eapply reorder_every.
  - destruct (if JoinType.supports_swap _ then _ else _) as [[]|]; [| |done]; cbn [try_bind]; [|by intros [= <-]].
    unfold nested_swap_inputs, nested_loop_build. destruct (project_fields _ _); [|done].
    cbn [mbind option_bind try_bind]. destruct (keeps_columns _ _); cbn [try_bind]; [by intros [= <-]|].
    destruct (reorder_output_after_swap _ _ _) eqn:E; [|done]. intros [= <-]. by eapply reorder_every.
Qed.

(** Join selection decides the partition mode of every hash join: on a plan
    it accepts in which no null-aware join is planned in partitioned mode, no join
    of the returned plan is in [Auto] mode and every null-aware join collects its
    build side into one partition. *)
Theorem join_selection_modes p :
  valid p → every not_in_parts p →
  ∃ q, optimize partition_statistics config is_unbounded is_incremental p = Some (Ok q) ∧ every decided q.
Proof.
  intros Hv Hp. destruct (optimize_replaces p Hv) as (q & Eq & _). exists q. split; [done|]. unfold optimize in Eq.
  destruct (transform_up (apply_subrules _ _) p) as [[t|]|] eqn:Et; [|done..]. cbn [try_bind] in Eq.
  destruct (transform_up_every not_in_parts not_in_parts _ apply_subrules_reports apply_subrules_every p t Hp Et) as [Ht _].
  destruct (transform_up _ (data t)) as [[u|]|] eqn:Eu; [|done..]. injection Eq as <-.
  by destruct (transform_up_every not_in_parts decided _ statistical_reports statistical_every _ u Ht Eu).
Qed.

End Correct.

(** ** Examples *)

Section Examples.
#[local] Existing Instances Plan.scans Plan.scans_ok Statistics.int_scalars.

#[local] Instance scans_stable : NodesStable.
Proof. split; [intros n ss n' _; by eexists|done]. Qed.

(** The number of rows is known, their size is not. *)
Definition counted (p : exec) : Result Statistics.Statistics :=
  Ok {| Statistics.num_rows := Exact (Z.of_nat (length (rows p))); Statistics.total_byte_size := Absent;
        Statistics.column_statistics := [] |}.

Definition small_build : OptimizerOptions :=
  {| join_reordering := true; hash_join_single_partition_threshold := 1048576;
     hash_join_single_partition_threshold_rows := 131072 |}.

Definition table (names : list string) (rs : list (list Z)) : exec :=
  OtherExec (map Plan.int_field names, map (map (λ z, Some (VInt64 z))) rs) [].

Definition left_join : HashJoin :=
  {| on := [(Column "ck" 0, Column "ok" 1)]; join_type := Left; null_equality := NullEqualsNothing;
     null_aware := false; projection := None; join_filter := None; join_fetch := None |}.

(** [o left join c], the larger table on the build side. *)
Definition large_build : exec :=
  HashJoinExec Auto left_join (table ["ck"; "seg"] [[1; 7]; [2; 8]; [3; 9]]%Z) (table ["id"; "ok"] [[10; 2]; [11; 5]]%Z).

Lemma large_build_valid : valid (λ _, false) (λ _, true) large_build.
Proof. split_and!; [done|done|done|done|by left]. Qed.

Lemma join_selection_preserves_witness :
  optimize counted small_build (λ _, false) (λ _, true) large_build =
    Some (Ok (ProjectionExec [("ck", 2); ("seg", 3); ("id", 0); ("ok", 1)]
      (HashJoinExec CollectLeft
         {| on := [(Column "ok" 1, Column "ck" 0)]; join_type := Right; null_equality := NullEqualsNothing;
            null_aware := false; projection := None; join_filter := None; join_fetch := None |}
         (table ["id"; "ok"] [[10; 2]; [11; 5]]%Z) (table ["ck"; "seg"] [[1; 7]; [2; 8]; [3; 9]]%Z)))) ∧
  ∃ q, optimize counted small_build (λ _, false) (λ _, true) large_build = Some (Ok q) ∧
       schema q = schema large_build ∧ rows q ≡ₚ rows large_build.
Proof.
  split; [vm_compute; reflexivity|].
  apply (join_selection_preserves counted small_build (λ _, false) (λ _, true)); [by eexists|].
  exact large_build_valid.
Defined.

Lemma join_selection_modes_witness :
  ∃ q, optimize counted small_build (λ _, false) (λ _, true) large_build = Some (Ok q) ∧ every decided q.
Proof.
  apply (join_selection_modes counted small_build (λ _, false) (λ _, true)); [by eexists|exact large_build_valid|].
  by vm_compute.
Defined.

(** [t where a not in (select b from u)] *)
Definition not_in : HashJoin :=
  {| on := [(Column "a" 0, Column "b" 0)]; join_type := LeftAnti; null_equality := NullEqualsNothing;
     null_aware := true; projection := None; join_filter := None; join_fetch := None |}.

Definition not_in_null : exec :=
  HashJoinExec CollectLeft not_in (table ["a"] [[1]; [2]]%Z)
    (OtherExec (map Plan.int_field ["b"], [[Some (VInt64 2%Z)]; [None]]) []).

(** C38. The conversion to a symmetric join drops the null-aware flag: over two
    unbounded inputs a [NOT IN] whose subquery yields a null keeps no row, and the
    plan the rule returns keeps the rows without a match. *)
Theorem symmetric_join_forgets_null_aware :
  rows not_in_null = [] ∧
  ∃ q, optimize counted small_build (λ _, true) (λ _, true) not_in_null = Some (Ok q) ∧ rows q = [[Some (VInt64 1%Z)]].
Proof. split; [done|]. eexists. split; [vm_compute; reflexivity|]. by vm_compute. Qed.

End Examples.
End JoinSelection.
