(* ===== verification/MemoryPool.v ===== *)
(** * Memory pools (execution/src/memory_pool)

    Operators account for memory through reservations: a [MemoryConsumer] is
    registered with a pool and grows, shrinks, splits and drops reservations.
    [MemoryPool] is the trait, [PoolOk] what its implementations promise about an
    abstract ledger of consumers, and the four pools are its instances, the
    tracking pool over any other.  Threads share reservations; a method is two
    atomic steps, one on the pool and one on the size, and the step relation
    interleaves them.  Proved: under every interleaving the pool reports the bytes
    of the live reservations, no counter underflows, and a greedy pool that is
    only asked stays within its size. *)

From stdpp Require Import base gmap list strings.
From Stdlib Require Import ZArith Lia.
From S2P Require Import Prelude.

#[local] Open Scope N_scope.

Module Memory.

(** ** Machine words *)

Definition usize_end : N := 2 ^ 64.

(** [fetch_add] and [fetch_sub] wrap around. *)
Definition fetch_add (a b : N) : N := (a + b) mod usize_end.
Definition fetch_sub (a b : N) : N := (a + usize_end - b) mod usize_end.

(** [+=], [-=] and [checked_sub(..).unwrap()] do not. *)
Definition checked_add (a b : N) : option N := if a + b <? usize_end then Some (a + b) else panic!.
Definition checked_sub (a b : N) : option N := if b <=? a then Some (a - b) else panic!.

(** ** Consumers, reservations, pools *)

Record MemoryConsumer := { name : string; can_spill : bool; id : nat }.

#[export] Instance MemoryConsumer_eq_dec : EqDecision MemoryConsumer.
Proof. solve_decision. Defined.

Record MemoryReservation := { consumer : MemoryConsumer; size : N }.

Inductive MemoryLimit := Infinite | Finite (limit : N).

Class MemoryPool (P : Type) := {
  register : P → MemoryConsumer → option P;
  unregister : P → MemoryConsumer → option P;
  grow : P → MemoryReservation → N → option P;
  shrink : P → MemoryReservation → N → option P;
  try_grow : P → MemoryReservation → N → option (Result P);
  reserved : P → option N;
  memory_limit : P → MemoryLimit;
}.

Definition insufficient_capacity_err : DataFusionError := ResourcesExhausted "Failed to allocate additional".

(** *** No limit *)

Record UnboundedMemoryPool := { unbounded_used : N }.

#[export] Instance unbounded_pool : MemoryPool UnboundedMemoryPool := {|
  register p _ := Some p;
  unregister p _ := Some p;
  grow p _ additional := Some {| unbounded_used := fetch_add (unbounded_used p) additional |};
  shrink p _ n := Some {| unbounded_used := fetch_sub (unbounded_used p) n |};
  try_grow p _ additional := Some (Ok {| unbounded_used := fetch_add (unbounded_used p) additional |});
  reserved p := Some (unbounded_used p);
  memory_limit _ := Infinite |}.

(** *** First come, first served *)

Record GreedyMemoryPool := { greedy_size : N; used : N }.

Definition greedy_new (pool_size : N) : GreedyMemoryPool := {| greedy_size := pool_size; used := 0 |}.

Definition with_used (p : GreedyMemoryPool) (n : N) : GreedyMemoryPool := {| greedy_size := greedy_size p; used := n |}.

Definition greedy_try_grow (p : GreedyMemoryPool) (r : MemoryReservation) (additional : N) :
    option (Result GreedyMemoryPool) :=
  new_used ← checked_add (used p) additional;
  Some (if new_used <=? greedy_size p then Ok (with_used p new_used) else Err insufficient_capacity_err).

#[export] Instance greedy_pool : MemoryPool GreedyMemoryPool := {|
  register p _ := Some p;
  unregister p _ := Some p;
  grow p _ additional := Some (with_used p (fetch_add (used p) additional));
  shrink p _ n := Some (with_used p (fetch_sub (used p) n));
  try_grow := greedy_try_grow;
  reserved p := Some (used p);
  memory_limit p := Finite (greedy_size p) |}.

(** *** Even shares for consumers that spill *)

Record FairSpillPool := { fair_size : N; num_spill : N; spillable : N; unspillable : N }.

Definition fair_new (pool_size : N) : FairSpillPool :=
  {| fair_size := pool_size; num_spill := 0; spillable := 0; unspillable := 0 |}.

Definition fair_register (p : FairSpillPool) (c : MemoryConsumer) : option FairSpillPool :=
  if can_spill c then
    n ← checked_add (num_spill p) 1;
    Some {| fair_size := fair_size p; num_spill := n; spillable := spillable p; unspillable := unspillable p |}
  else Some p.

Definition fair_unregister (p : FairSpillPool) (c : MemoryConsumer) : option FairSpillPool :=
  if can_spill c then
    n ← checked_sub (num_spill p) 1;
    Some {| fair_size := fair_size p; num_spill := n; spillable := spillable p; unspillable := unspillable p |}
  else Some p.

(** The counter of the reservation's kind changed by [f]. *)
Definition fair_update (f : N → option N) (p : FairSpillPool) (c : MemoryConsumer) : option FairSpillPool :=
  if can_spill c then
    s ← f (spillable p);
    Some {| fair_size := fair_size p; num_spill := num_spill p; spillable := s; unspillable := unspillable p |}
  else
    u ← f (unspillable p);
    Some {| fair_size := fair_size p; num_spill := num_spill p; spillable := spillable p; unspillable := u |}.

(** What the next allocation may use. *)
Definition fair_available (p : FairSpillPool) (c : MemoryConsumer) : option N :=
  if can_spill c then
    let spill_available := fair_size p - unspillable p in
    Some (if num_spill p =? 0 then spill_available else spill_available / num_spill p)
  else
    taken ← checked_add (unspillable p) (spillable p);
    Some (fair_size p - taken).

Definition fair_try_grow (p : FairSpillPool) (r : MemoryReservation) (additional : N) : option (Result FairSpillPool) :=
  available ← fair_available p (consumer r);
  wanted ← (if can_spill (consumer r) then checked_add (size r) additional else Some additional);
  if available <? wanted then Some (Err insufficient_capacity_err)
  else p' ← fair_update (λ n, checked_add n additional) p (consumer r); Some (Ok p').

#[export] Instance fair_pool : MemoryPool FairSpillPool := {|
  register := fair_register;
  unregister := fair_unregister;
  grow p r additional := fair_update (λ n, checked_add n additional) p (consumer r);
  shrink p r n := fair_update (λ k, checked_sub k n) p (consumer r);
  try_grow := fair_try_grow;
  reserved p := checked_add (spillable p) (unspillable p);
  memory_limit p := Finite (fair_size p) |}.

(** *** Tracking the consumers of another pool *)

Record TrackedConsumer := { tracked_name : string; tracked_can_spill : bool; tracked_reserved : N; peak : N }.

Definition tracked_grow (additional : N) (t : TrackedConsumer) : TrackedConsumer :=
  let n := fetch_add (tracked_reserved t) additional in
  {| tracked_name := tracked_name t; tracked_can_spill := tracked_can_spill t;
     tracked_reserved := n; peak := N.max (peak t) n |}.

Definition tracked_shrink (n : N) (t : TrackedConsumer) : TrackedConsumer :=
  {| tracked_name := tracked_name t; tracked_can_spill := tracked_can_spill t;
     tracked_reserved := fetch_sub (tracked_reserved t) n; peak := peak t |}.

Record TrackConsumersPool (I : Type) := { inner : I; tracked_consumers : gmap nat TrackedConsumer }.
Arguments inner {I}.
Arguments tracked_consumers {I}.

(** [entry(..).and_modify(..)] *)
Definition and_modify {I} (f : TrackedConsumer → TrackedConsumer) (i : nat) (p' : I)
    (tracked : gmap nat TrackedConsumer) : TrackConsumersPool I :=
  {| inner := p'; tracked_consumers := alter f i tracked |}.

(** Registering a consumer twice is a failed assertion. *)
Definition track_register {I} `{MemoryPool I} (p : TrackConsumersPool I) (c : MemoryConsumer) :
    option (TrackConsumersPool I) :=
  p' ← register (inner p) c;
  match tracked_consumers p !! id c with
  | Some _ => panic!
  | None =>
      Some {| inner := p';
              tracked_consumers := <[id c := {| tracked_name := name c; tracked_can_spill := can_spill c;
                                                tracked_reserved := 0; peak := 0 |}]> (tracked_consumers p) |}
  end.

Definition track_unregister {I} `{MemoryPool I} (p : TrackConsumersPool I) (c : MemoryConsumer) :
    option (TrackConsumersPool I) :=
  p' ← unregister (inner p) c;
  Some {| inner := p'; tracked_consumers := delete (id c) (tracked_consumers p) |}.

#[export] Instance track_pool {I} `{MemoryPool I} : MemoryPool (TrackConsumersPool I) := {|
  register := track_register;
  unregister := track_unregister;
  grow p r additional :=
    p' ← grow (inner p) r additional;
    Some (and_modify (tracked_grow additional) (id (consumer r)) p' (tracked_consumers p));
  shrink p r n :=
    p' ← shrink (inner p) r n;
    Some (and_modify (tracked_shrink n) (id (consumer r)) p' (tracked_consumers p));
  try_grow p r additional :=
    p' ←? try_grow (inner p) r additional;
    Some (Ok (and_modify (tracked_grow additional) (id (consumer r)) p' (tracked_consumers p)));
  reserved p := reserved (inner p);
  memory_limit p := memory_limit (inner p) |}.

(** ** Reservations *)

Section Reservations.
Context {P : Type} `{MemoryPool P}.

Definition with_size (r : MemoryReservation) (n : N) : MemoryReservation := {| consumer := consumer r; size := n |}.

(** The bytes freed come last. *)
Definition free (p : P) (r : MemoryReservation) : option (P * MemoryReservation * N) :=
  let n := size r in
  if n =? 0 then Some (p, with_size r 0, n)
  else p' ← shrink p (with_size r 0) n; Some (p', with_size r 0, n).

Definition reservation_shrink (p : P) (r : MemoryReservation) (capacity : N) : option (P * MemoryReservation) :=
  n ← checked_sub (size r) capacity;
  p' ← shrink p (with_size r n) capacity;
  Some (p', with_size r n).

Definition try_shrink (p : P) (r : MemoryReservation) (capacity : N) : option (Result (P * MemoryReservation * N)) :=
  match checked_sub (size r) capacity with
  | None => Some (Err (Internal "Cannot free the capacity out of allocated size"))
  | Some n => p' ← shrink p (with_size r n) capacity; Some (Ok (p', with_size r n, n))
  end.

Definition reservation_grow (p : P) (r : MemoryReservation) (capacity : N) : option (P * MemoryReservation) :=
  p' ← grow p r capacity;
  Some (p', with_size r (fetch_add (size r) capacity)).

Definition reservation_try_grow (p : P) (r : MemoryReservation) (capacity : N) : option (Result (P * MemoryReservation)) :=
  p' ←? try_grow p r capacity;
  Some (Ok (p', with_size r (fetch_add (size r) capacity))).

Definition resize (p : P) (r : MemoryReservation) (capacity : N) : option (P * MemoryReservation) :=
  match (capacity ?= size r)%N with
  | Gt => reservation_grow p r (capacity - size r)
  | Lt => reservation_shrink p r (size r - capacity)
  | Eq => Some (p, r)
  end.

Definition try_resize (p : P) (r : MemoryReservation) (capacity : N) : option (Result (P * MemoryReservation)) :=
  match (capacity ?= size r)%N with
  | Gt => reservation_try_grow p r (capacity - size r)
  | Lt => res ←? try_shrink p r (size r - capacity); Some (Ok res.1)
  | Eq => Some (Ok (p, r))
  end.

Definition split (r : MemoryReservation) (capacity : N) : option (MemoryReservation * MemoryReservation) :=
  n ← checked_sub (size r) capacity;
  Some (with_size r n, with_size r capacity).

Definition new_empty (r : MemoryReservation) : MemoryReservation := with_size r 0.

Definition take (r : MemoryReservation) : option (MemoryReservation * MemoryReservation) := split r (size r).

(** The bytes are freed; the last reservation of a registration ends it. *)
Definition drop (p : P) (r : MemoryReservation) (last : bool) : option P :=
  freed ← free p r;
  if last then unregister freed.1.1 (consumer r) else Some freed.1.1.
End Reservations.

(** Sums over the entries of a map. *)
Definition sum_map {A} (f : A → N) (m : gmap nat A) : N := map_fold (λ _ x acc, f x + acc) 0 m.

Definition sum_list (l : list N) : N := foldr N.add 0 l.

(** ** Reservations shared by threads *)

Section Threads.
Context {P : Type} `{MemoryPool P}.

(** A reservation with the calls under way: bytes the pool has granted and the
    size does not show yet, and bytes taken off the size that the pool still
    counts. *)
Record handle := { reservation : MemoryReservation; adds : list N; subs : list N }.

Record memory := { pool : P; handles : gmap nat handle; next_id : nat }.

Definition start (p : P) : memory := {| pool := p; handles := ∅; next_id := 0%nat |}.

Definition owner (x : handle) : MemoryConsumer := consumer (reservation x).

Definition bytes (x : handle) : N := size (reservation x) + sum_list (adds x) + sum_list (subs x).

Definition total_bytes (m : memory) : N := sum_map bytes (handles m).

(** No other reservation shares the registration of [c]. *)
Definition is_last (hs : gmap nat handle) (h : nat) (c : MemoryConsumer) : bool :=
  bool_decide (map_Forall (λ _ y, id (owner y) ≠ id c) (delete h hs)).

Definition update (m : memory) (p : P) (h : nat) (x : handle) : memory :=
  {| pool := p; handles := <[h := x]> (handles m); next_id := next_id m |}.

Inductive action := Register | PoolGrow | PoolTryGrow | SizeGrow | SizeShrink | PoolShrink | Split | Drop.

#[export] Instance action_eq_dec : EqDecision action.
Proof. solve_decision. Defined.

(** One atomic action of a thread. *)
Inductive step (m : memory) : action → memory → Prop :=
| step_register h nm spill p' :
    let c := {| name := nm; can_spill := spill; id := next_id m |} in
    handles m !! h = None → register (pool m) c = Some p' →
    step m Register
      {| pool := p';
         handles := <[h := {| reservation := {| consumer := c; size := 0 |}; adds := []; subs := [] |}]> (handles m);
         next_id := S (next_id m) |}
| step_pool_grow h x n p' :
    handles m !! h = Some x → total_bytes m + n < usize_end → grow (pool m) (reservation x) n = Some p' →
    step m PoolGrow (update m p' h {| reservation := reservation x; adds := n :: adds x; subs := subs x |})
| step_pool_try_grow h x n p' :
    handles m !! h = Some x → total_bytes m + n < usize_end → try_grow (pool m) (reservation x) n = Some (Ok p') →
    step m PoolTryGrow (update m p' h {| reservation := reservation x; adds := n :: adds x; subs := subs x |})
| step_size_grow h r n l1 l2 ss :
    handles m !! h = Some {| reservation := r; adds := l1 ++ n :: l2; subs := ss |} →
    step m SizeGrow
      (update m (pool m) h {| reservation := with_size r (fetch_add (size r) n); adds := l1 ++ l2; subs := ss |})
| step_size_shrink h x n k :
    handles m !! h = Some x → checked_sub (size (reservation x)) n = Some k →
    step m SizeShrink
      (update m (pool m) h {| reservation := with_size (reservation x) k; adds := adds x; subs := n :: subs x |})
| step_pool_shrink h r n gs l1 l2 p' :
    handles m !! h = Some {| reservation := r; adds := gs; subs := l1 ++ n :: l2 |} →
    shrink (pool m) r n = Some p' →
    step m PoolShrink (update m p' h {| reservation := r; adds := gs; subs := l1 ++ l2 |})
| step_split h h' x n r1 r2 :
    handles m !! h = Some x → handles m !! h' = None → split (reservation x) n = Some (r1, r2) →
    step m Split
      (update (update m (pool m) h {| reservation := r1; adds := adds x; subs := subs x |})
         (pool m) h' {| reservation := r2; adds := []; subs := [] |})
| step_drop h r p' :
    handles m !! h = Some {| reservation := r; adds := []; subs := [] |} →
    drop (pool m) r (is_last (handles m) h (consumer r)) = Some p' →
    step m Drop {| pool := p'; handles := delete h (handles m); next_id := next_id m |}.

Definition any_step (m m' : memory) : Prop := ∃ a, step m a m'.

(** The calls on a reservation, by themselves. *)
Inductive method :=
| Grow (capacity : N) | TryGrow (capacity : N) | Shrink (capacity : N) | TryShrink (capacity : N)
| Resize (capacity : N) | TryResize (capacity : N) | Free.

Definition call (f : method) (p : P) (r : MemoryReservation) : option (Result (P * MemoryReservation)) :=
  match f with
  | Grow n => Ok <$> reservation_grow p r n
  | TryGrow n => reservation_try_grow p r n
  | Shrink n => Ok <$> reservation_shrink p r n
  | TryShrink n => res ←? try_shrink p r n; Some (Ok res.1)
  | Resize n => Ok <$> resize p r n
  | TryResize n => try_resize p r n
  | Free => res ← free p r; Some (Ok res.1)
  end.

(** The most a call can add to a reservation of size [n]. *)
Definition growth (f : method) (n : N) : N :=
  match f with
  | Grow k | TryGrow k => k
  | Resize k | TryResize k => k - n
  | _ => 0
  end.
End Threads.
Arguments memory : clear implicits.

(** ** What a pool promises

    The ledger lists the registered consumers with the bytes they hold. *)

Abbreviation ledger := (gmap nat (MemoryConsumer * N)).

Definition total (L : ledger) : N := sum_map snd L.

(** Bytes and number of the consumers of one kind. *)
Definition total_of (spill : bool) (L : ledger) : N :=
  sum_map (λ e, if eqb (can_spill e.1) spill then e.2 else 0) L.
Definition spillers (L : ledger) : N := sum_map (λ e, if can_spill e.1 then 1 else 0) L.

Class PoolOk (P : Type) `{MemoryPool P} := {
  tracks : P → ledger → Prop;
  register_ok : ∀ p L c,
    tracks p L → L !! id c = None →
    (∃ p', register p c = Some p' ∧ tracks p' (<[id c := (c, 0)]> L)) ∨
    (register p c = panic! ∧ usize_end ≤ spillers L + 1);
  unregister_ok : ∀ p L c,
    tracks p L → L !! id c = Some (c, 0) →
    ∃ p', unregister p c = Some p' ∧ tracks p' (delete (id c) L);
  grow_ok : ∀ p L r held n,
    tracks p L → L !! id (consumer r) = Some (consumer r, held) → total L + n < usize_end →
    ∃ p', grow p r n = Some p' ∧ tracks p' (<[id (consumer r) := (consumer r, held + n)]> L);
  shrink_ok : ∀ p L r held n,
    tracks p L → L !! id (consumer r) = Some (consumer r, held) → n ≤ held →
    ∃ p', shrink p r n = Some p' ∧ tracks p' (<[id (consumer r) := (consumer r, held - n)]> L);
  try_grow_ok : ∀ p L r held n,
    tracks p L → L !! id (consumer r) = Some (consumer r, held) → size r ≤ held → total L + n < usize_end →
    (∃ p', try_grow p r n = Some (Ok p') ∧ tracks p' (<[id (consumer r) := (consumer r, held + n)]> L)) ∨
    (∃ e, try_grow p r n = Some (Err e));
  reserved_ok : ∀ p L, tracks p L → reserved p = Some (total L);
  tracks_fits : ∀ p L, tracks p L → total L < usize_end;
}.

(** A pool with a limit grants requests within it and keeps it. *)
Class PoolBounded (P : Type) `{MemoryPool P} : Prop := {
  try_grow_bounded : ∀ p r n p' limit used,
    try_grow p r n = Some (Ok p') → memory_limit p = Finite limit → reserved p' = Some used → used ≤ limit;
  try_grow_limit : ∀ p r n p', try_grow p r n = Some (Ok p') → memory_limit p' = memory_limit p;
  shrink_limit : ∀ p r n p', shrink p r n = Some p' → memory_limit p' = memory_limit p;
  register_limit : ∀ p c p', register p c = Some p' → memory_limit p' = memory_limit p;
  unregister_limit : ∀ p c p', unregister p c = Some p' → memory_limit p' = memory_limit p;
}.

Section Sums.
Context {A : Type} (f : A → N).
Implicit Types (m : gmap nat A).

Lemma sum_map_empty : sum_map f ∅ = 0.
Proof. apply map_fold_empty. Qed.

Lemma sum_map_insert m i x : m !! i = None → sum_map f (<[i := x]> m) = f x + sum_map f m.
Proof. intros Hi. exact (map_fold_insert_L (λ _ y acc, f y + acc) 0 i x m ltac:(intros; cbn beta; lia) Hi). Qed.

Lemma sum_map_delete m i x : m !! i = Some x → sum_map f m = f x + sum_map f (delete i m).
Proof. intros Hi. exact (map_fold_delete_L (λ _ y acc, f y + acc) 0 i x m ltac:(intros; cbn beta; lia) Hi). Qed.

Lemma sum_map_update m i x y : m !! i = Some x → sum_map f (<[i := y]> m) + f x = sum_map f m + f y.
Proof.
  intros Hi. rewrite (sum_map_delete m i x Hi), <- insert_delete_eq, sum_map_insert by apply lookup_delete_eq. lia.
Qed.

Lemma sum_map_lookup m i x : m !! i = Some x → f x ≤ sum_map f m.
Proof. intros Hi. rewrite (sum_map_delete m i x Hi). lia. Qed.
End Sums.

Lemma total_split L : total L = total_of true L + total_of false L.
Proof.
  unfold total, total_of. induction L as [|i [c n] L Hi IH] using map_ind; [done|].
  rewrite !sum_map_insert by done. cbn [fst snd]. destruct (can_spill c); cbn [eqb]; lia.
Qed.

Lemma fetch_add_fits a b : a + b < usize_end → fetch_add a b = a + b.
Proof. intros. by apply N.mod_small. Qed.

Lemma fetch_sub_fits a b : b ≤ a → a < usize_end → fetch_sub a b = a - b.
Proof.
  intros. unfold fetch_sub. replace (a + usize_end - b) with (a - b + 1 * usize_end) by lia.
  rewrite N.Div0.mod_add. apply N.mod_small. lia.
Qed.

Lemma checked_add_fits a b : a + b < usize_end → checked_add a b = Some (a + b).
Proof. intros. unfold checked_add. by rewrite (proj2 (N.ltb_lt _ _)). Qed.

Lemma checked_sub_fits a b : b ≤ a → checked_sub a b = Some (a - b).
Proof. intros. unfold checked_sub. by rewrite (proj2 (N.leb_le _ _)). Qed.

(** Sums after an entry of consumer [c] changed. *)
Lemma total_update L c held n : L !! id c = Some (c, held) → total (<[id c := (c, n)]> L) + held = total L + n.
Proof. intros HL. exact (sum_map_update snd L _ _ (c, n) HL). Qed.

Lemma total_of_update spill L c held n :
  L !! id c = Some (c, held) →
  total_of spill (<[id c := (c, n)]> L) + (if eqb (can_spill c) spill then held else 0) =
  total_of spill L + (if eqb (can_spill c) spill then n else 0).
Proof. intros HL. exact (sum_map_update _ L _ _ (c, n) HL). Qed.

Lemma spillers_update L c held n : L !! id c = Some (c, held) → spillers (<[id c := (c, n)]> L) = spillers L.
Proof. intros HL. eapply N.add_cancel_r. exact (sum_map_update _ L _ _ (c, n) HL). Qed.

Lemma total_register L c : L !! id c = None → total (<[id c := (c, 0)]> L) = total L.
Proof. intros HL. unfold total. by rewrite sum_map_insert. Qed.

Lemma total_unregister L c : L !! id c = Some (c, 0) → total (delete (id c) L) = total L.
Proof. intros HL. unfold total. by rewrite (sum_map_delete snd L _ _ HL). Qed.

Lemma total_of_unregister spill L c : L !! id c = Some (c, 0) → total_of spill (delete (id c) L) = total_of spill L.
Proof.
  intros HL. unfold total_of. rewrite (sum_map_delete _ L _ _ HL). cbn [fst snd]. by destruct (eqb _ _).
Qed.

Lemma spillers_unregister L c :
  L !! id c = Some (c, 0) → spillers L = (if can_spill c then 1 else 0) + spillers (delete (id c) L).
Proof. intros HL. exact (sum_map_delete _ L _ _ HL). Qed.

Lemma held_le L c held : L !! id c = Some (c, held) → held ≤ total L.
Proof. intros HL. exact (sum_map_lookup snd L _ _ HL). Qed.

(** Pools that count bytes in one word. *)
Ltac count_bytes :=
  match goal with
  | HL : _ !! id ?c = Some (?c, ?h) |- context [<[id ?c := (?c, ?n)]> _] =>
      let Hu := fresh in pose proof (total_update _ _ _ n HL) as Hu; pose proof (held_le _ _ _ HL)
  end.

#[export] Instance unbounded_ok : PoolOk UnboundedMemoryPool.
Proof.
  refine (Build_PoolOk _ _ (λ p L, unbounded_used p = total L ∧ total L < usize_end) _ _ _ _ _ _ _).
  - intros p L c [Hu Ht] HL. left. eexists. split; [done|]. by rewrite total_register.
  - intros p L c [Hu Ht] HL. eexists. split; [done|]. by rewrite total_unregister.
  - intros p L r held n [Hu Ht] HL Hn. eexists. split; [done|]. count_bytes. cbn [unbounded_used].
    rewrite Hu, fetch_add_fits by lia. lia.
  - intros p L r held n [Hu Ht] HL Hn. eexists. split; [done|]. count_bytes. cbn [unbounded_used].
    rewrite Hu, fetch_sub_fits by lia. lia.
  - intros p L r held n [Hu Ht] HL _ Hn. left. eexists. split; [done|]. count_bytes. cbn [unbounded_used].
    rewrite Hu, fetch_add_fits by lia. lia.
  - intros p L [Hu _]. cbn. by rewrite Hu.
  - by intros p L [_ Ht].
Defined.

#[export] Instance greedy_ok : PoolOk GreedyMemoryPool.
Proof.
  refine (Build_PoolOk _ _ (λ p L, used p = total L ∧ total L < usize_end) _ _ _ _ _ _ _).
  - intros p L c [Hu Ht] HL. left. eexists. split; [done|]. by rewrite total_register.
  - intros p L c [Hu Ht] HL. eexists. split; [done|]. by rewrite total_unregister.
  - intros p L r held n [Hu Ht] HL Hn. eexists. split; [done|]. count_bytes. cbn [used with_used].
    rewrite Hu, fetch_add_fits by lia. lia.
  - intros p L r held n [Hu Ht] HL Hn. eexists. split; [done|]. count_bytes. cbn [used with_used].
    rewrite Hu, fetch_sub_fits by lia. lia.
  - intros p L r held n [Hu Ht] HL _ Hn. cbn [try_grow greedy_pool]. unfold greedy_try_grow.
    rewrite Hu, checked_add_fits by lia. cbn [mbind option_bind]. destruct (_ <=? _); [left|right; by eexists].
    eexists. split; [done|]. count_bytes. cbn [used with_used]. lia.
  - intros p L [Hu _]. cbn. by rewrite Hu.
  - by intros p L [_ Ht].
Defined.

(** *** The counters of the fair pool *)

Definition fair_tracks (p : FairSpillPool) (L : ledger) : Prop :=
  num_spill p = spillers L ∧ spillable p = total_of true L ∧ unspillable p = total_of false L ∧ total L < usize_end.

(** A counter changed by the change of one entry. *)
Lemma fair_update_ok f p L c held n :
  fair_tracks p L → L !! id c = Some (c, held) → total (<[id c := (c, n)]> L) < usize_end →
  (∀ k, held ≤ k → k ≤ total L → f k = Some (k - held + n)) →
  ∃ p', fair_update f p c = Some p' ∧ fair_tracks p' (<[id c := (c, n)]> L).
Proof.
  intros (Hn & Hs & Hu & Ht) HL Ht' Hf. unfold fair_update, fair_tracks.
  pose proof (total_of_update true L c held n HL) as Es. pose proof (total_of_update false L c held n HL) as Eu.
  pose proof (sum_map_lookup (λ e : MemoryConsumer * N, if eqb (can_spill e.1) (can_spill c) then e.2 else 0) L _ _ HL) as Hle.
  cbn [fst snd] in Hle. rewrite eqb_reflx in Hle. fold (total_of (can_spill c) L) in Hle.
  pose proof (total_split L) as Hsp. rewrite (spillers_update L c held n HL).
  destruct (can_spill c); cbn [eqb] in *; rewrite Hf by lia; cbn [mbind option_bind]; eexists; (split; [done|]);
    cbn [num_spill spillable unspillable]; split_and!; lia.
Qed.

#[export] Instance fair_ok : PoolOk FairSpillPool.
Proof.
  refine (Build_PoolOk _ _ fair_tracks _ _ _ _ _ _ _).
  - intros p L c (Hn & Hs & Hu & Ht) HL. cbn [register fair_pool]. unfold fair_register, fair_tracks.
    destruct (decide (can_spill c = true ∧ usize_end ≤ spillers L + 1)) as [[Hc Hover]|Hfew].
    { right. rewrite Hc, Hn. unfold checked_add. by rewrite (proj2 (N.ltb_ge _ _)). }
    left. rewrite total_register by done. unfold spillers, total_of. rewrite !sum_map_insert by done. cbn [fst snd].
    fold (spillers L) (total_of true L) (total_of false L).
    destruct (can_spill c); [rewrite Hn, checked_add_fits by (apply N.nle_gt; tauto)|]; cbn [mbind option_bind eqb];
      eexists; (split; [done|]); cbn [num_spill spillable unspillable]; split_and!; lia.
  - intros p L c (Hn & Hs & Hu & Ht) HL. cbn [unregister fair_pool]. unfold fair_unregister, fair_tracks.
    rewrite total_unregister, !total_of_unregister by done. rewrite (spillers_unregister L c HL) in Hn.
    destruct (can_spill c); [rewrite Hn, checked_sub_fits by lia|]; cbn [mbind option_bind eqb] in *;
      eexists; (split; [done|]); cbn [num_spill spillable unspillable]; split_and!; lia.
  - intros p L r held n Hp HL Hn. pose proof (total_update _ _ _ (held + n) HL).
    eapply fair_update_ok; [done|done|lia|]. intros k ? ?. rewrite checked_add_fits by lia. f_equal. lia.
  - intros p L r held n Hp HL Hn. pose proof (total_update _ _ _ (held - n) HL). pose proof (held_le _ _ _ HL).
    destruct Hp as (? & ? & ? & ?). eapply fair_update_ok; [done|done|lia|]. intros k ? ?. rewrite checked_sub_fits by lia. f_equal. lia.
  - intros p L r held n Hp HL Hsz Hn. cbn [try_grow fair_pool]. unfold fair_try_grow.
    pose proof (total_update _ _ _ (held + n) HL). pose proof (held_le _ _ _ HL). pose proof (total_split L).
    assert (∃ a, fair_available p (consumer r) = Some a) as [a ->].
    { destruct Hp as (_ & Hs & Hu & _). unfold fair_available. destruct (can_spill _); [by eexists|].
      rewrite checked_add_fits by lia. by eexists. }
    assert (∃ w, (if can_spill (consumer r) then checked_add (size r) n else Some n) = Some w) as [w ->].
    { destruct (can_spill _); [rewrite checked_add_fits by lia|]; by eexists. }
    cbn [mbind option_bind]. destruct (_ <? _); [right; by eexists|left].
    destruct (fair_update_ok (λ k, checked_add k n) p L (consumer r) held (held + n) Hp HL ltac:(lia)) as (p' & -> & Hp').
    { intros k ? ?. rewrite checked_add_fits by lia. f_equal. lia. }
    by eexists.
  - intros p L (_ & Hs & Hu & Ht). pose proof (total_split L). cbn [reserved fair_pool].
    rewrite checked_add_fits by lia. f_equal. lia.
  - by intros p L (_ & _ & _ & Ht).
Defined.

(** *** The entries of the tracking pool *)

Definition shows (e : option (MemoryConsumer * N)) (t : option TrackedConsumer) : Prop :=
  match e, t with
  | Some (c, held), Some t =>
      tracked_name t = name c ∧ tracked_can_spill t = can_spill c ∧ tracked_reserved t = held ∧ held ≤ peak t
  | None, None => True
  | _, _ => False
  end.

Section Tracking.
Context {I : Type} `{PoolOk I}.

Definition track_tracks (p : TrackConsumersPool I) (L : ledger) : Prop :=
  tracks (inner p) L ∧ ∀ i, shows (L !! i) (tracked_consumers p !! i).

Lemma shows_alter f c held n (L : ledger) (T : gmap nat TrackedConsumer) :
  L !! id c = Some (c, held) → (∀ i, shows (L !! i) (T !! i)) →
  (∀ t, shows (Some (c, held)) (Some t) → shows (Some (c, n)) (Some (f t))) →
  ∀ i, shows (<[id c := (c, n)]> L !! i) (alter f (id c) T !! i).
Proof.
  intros HL HT Hf i. specialize (HT i). destruct (decide (i = id c)) as [->|Hi].
  - rewrite lookup_insert_eq, lookup_alter_eq. rewrite HL in HT. destruct (T !! id c); [by apply Hf|done].
  - by rewrite lookup_insert_ne, lookup_alter_ne.
Qed.

Lemma track_grow_ok p p' L c held n :
  tracks (inner p) L → (∀ i, shows (L !! i) (tracked_consumers p !! i)) → L !! id c = Some (c, held) →
  total L + n < usize_end → tracks p' (<[id c := (c, held + n)]> L) →
  track_tracks (and_modify (tracked_grow n) (id c) p' (tracked_consumers p)) (<[id c := (c, held + n)]> L).
Proof.
  intros Hp HT HL Hn Hp'. pose proof (held_le _ _ _ HL). split; [done|]. cbn [tracked_consumers and_modify].
  eapply shows_alter; [done|done|]. intros t (Hna & Hc & Hr & Hk). cbn [shows tracked_grow tracked_name tracked_can_spill tracked_reserved peak].
  rewrite Hr, fetch_add_fits by lia. split_and!; [done|done|done|lia].
Qed.

#[export] Instance track_ok : PoolOk (TrackConsumersPool I).
Proof.
  refine (Build_PoolOk _ _ track_tracks _ _ _ _ _ _ _).
  - intros p L c [Hp HT] HL. cbn [register track_pool]. unfold track_register.
    destruct (register_ok _ _ _ Hp HL) as [(p' & -> & Hp')|[-> Hover]]; [left|by right]. cbn [mbind option_bind].
    pose proof (HT (id c)) as Hc. rewrite HL in Hc. destruct (tracked_consumers p !! id c); [done|].
    eexists. split; [done|]. split; [done|]. intros i. cbn [tracked_consumers].
    destruct (decide (i = id c)) as [->|Hi]; [by rewrite !lookup_insert_eq|by rewrite !lookup_insert_ne].
  - intros p L c [Hp HT] HL. cbn [unregister track_pool]. unfold track_unregister.
    destruct (unregister_ok _ _ _ Hp HL) as (p' & -> & Hp'). cbn [mbind option_bind].
    eexists. split; [done|]. split; [done|]. intros i. cbn [tracked_consumers].
    destruct (decide (i = id c)) as [->|Hi]; [by rewrite !lookup_delete_eq|by rewrite !lookup_delete_ne].
  - intros p L r held n [Hp HT] HL Hn. cbn [grow track_pool].
    destruct (grow_ok _ _ _ _ _ Hp HL Hn) as (p' & -> & Hp'). cbn [mbind option_bind].
    eexists. split; [done|]. by apply track_grow_ok.
  - intros p L r held n [Hp HT] HL Hn. cbn [shrink track_pool]. pose proof (held_le _ _ _ HL). pose proof (tracks_fits _ _ Hp).
    destruct (shrink_ok _ _ _ _ _ Hp HL Hn) as (p' & -> & Hp'). cbn [mbind option_bind].
    eexists. split; [done|]. split; [done|]. cbn [tracked_consumers and_modify]. eapply shows_alter; [done|done|].
    intros t (Hna & Hc & Hr & Hk). cbn [shows tracked_shrink tracked_name tracked_can_spill tracked_reserved peak].
    rewrite Hr, fetch_sub_fits by lia. split_and!; [done|done|done|lia].
  - intros p L r held n [Hp HT] HL Hs Hn. cbn [try_grow track_pool].
    destruct (try_grow_ok _ _ _ _ _ Hp HL Hs Hn) as [(p' & -> & Hp')|[e ->]]; cbn [try_bind]; [left|right; by eexists].
    eexists. split; [done|]. by apply track_grow_ok.
  - intros p L [Hp _]. exact (reserved_ok _ _ Hp).
  - intros p L [Hp _]. exact (tracks_fits _ _ Hp).
Defined.
End Tracking.

(** ** Accounting *)

Section Accounting.
Context {P : Type} `{PoolOk P}.

Definition held_by (i : nat) (hs : gmap nat handle) : N :=
  sum_map (λ x, if bool_decide (id (owner x) = i) then bytes x else 0) hs.

(** The ledger of the live reservations. *)
Record agrees (hs : gmap nat handle) (bound : nat) (L : ledger) : Prop := {
  agrees_live : ∀ h x, hs !! h = Some x → ∃ held, L !! id (owner x) = Some (owner x, held);
  agrees_entry : ∀ i c held, L !! i = Some (c, held) →
    id c = i ∧ (i < bound)%nat ∧ held = held_by i hs ∧ ∃ h x, hs !! h = Some x ∧ owner x = c;
  agrees_total : total L = sum_map bytes hs;
}.

Definition accounted (m : memory P) : Prop := ∃ L, tracks (pool m) L ∧ agrees (handles m) (next_id m) L.

(** The consumer of a handle and another entry of the ledger. *)
Lemma held_by_update i (hs : gmap nat handle) h x x' :
  hs !! h = Some x → owner x' = owner x →
  held_by i (<[h := x']> hs) + (if bool_decide (id (owner x) = i) then bytes x else 0) =
  held_by i hs + (if bool_decide (id (owner x) = i) then bytes x' else 0).
Proof.
  intros Hx Ho. pose proof (sum_map_update (λ y, if bool_decide (id (owner y) = i) then bytes y else 0) hs h x x' Hx) as E.
  cbn beta in E. rewrite Ho in E. exact E.
Qed.

Lemma held_by_insert i (hs : gmap nat handle) h x :
  hs !! h = None →
  held_by i (<[h := x]> hs) = (if bool_decide (id (owner x) = i) then bytes x else 0) + held_by i hs.
Proof. intros Hh. exact (sum_map_insert _ hs h x Hh). Qed.

Lemma agrees_update hs bound L h x x' held held' :
  agrees hs bound L → hs !! h = Some x → owner x' = owner x → L !! id (owner x) = Some (owner x, held) →
  held' + bytes x = held + bytes x' →
  agrees (<[h := x']> hs) bound (<[id (owner x) := (owner x, held')]> L).
Proof.
  intros [Hlive Hentry Htot] Hx Ho HL Hb. split.
  - intros g y Hy. assert (∃ k, L !! id (owner y) = Some (owner y, k)) as [k Hk].
    { apply lookup_insert_Some in Hy as [[_ <-]|[_ Hy]]; [rewrite Ho|]; eauto. }
    destruct (decide (id (owner y) = id (owner x))) as [E|E].
    + rewrite E, lookup_insert_eq. rewrite E, HL in Hk. injection Hk as <- _. by eexists.
    + rewrite lookup_insert_ne by congruence. by eexists.
  - intros i c k Hi. pose proof (held_by_update i hs h x x' Hx Ho) as Hh.
    assert (Hw : ∀ g y, hs !! g = Some y → ∃ g' y', <[h := x']> hs !! g' = Some y' ∧ owner y' = owner y).
    { intros g y Hy. destruct (decide (g = h)) as [->|Hg].
      - exists h, x'. rewrite lookup_insert_eq. split; [done|]. congruence.
      - exists g, y. by rewrite lookup_insert_ne. }
    apply lookup_insert_Some in Hi as [[<- [= <- <-]]|[Hne Hi]].
    + destruct (Hentry _ _ _ HL) as (_ & Hlt & He & _). rewrite bool_decide_true in Hh by done.
      split_and!; [done|done|lia|]. destruct (Hw h x Hx) as (g & y & Hg & Hy). exists g, y. by split.
    + destruct (Hentry _ _ _ Hi) as (Hc & Hlt & He & g & y & Hg & Hy). rewrite bool_decide_false in Hh by done.
      split_and!; [done|done|lia|]. destruct (Hw g y Hg) as (g' & y' & Hg' & Hy'). exists g', y'. split; [done|congruence].
  - pose proof (total_update L (owner x) held held' HL). pose proof (sum_map_update bytes hs h x x' Hx). lia.
Qed.

(** A further reservation of a registered consumer. *)
Lemma agrees_insert hs bound L h x held :
  agrees hs bound L → hs !! h = None → L !! id (owner x) = Some (owner x, held) →
  agrees (<[h := x]> hs) bound (<[id (owner x) := (owner x, held + bytes x)]> L).
Proof.
  intros [Hlive Hentry Htot] Hh HL. split.
  - intros g y Hy. assert (∃ k, L !! id (owner y) = Some (owner y, k)) as [k Hk].
    { apply lookup_insert_Some in Hy as [[_ <-]|[_ Hy]]; eauto. }
    destruct (decide (id (owner y) = id (owner x))) as [E|E].
    + rewrite E, lookup_insert_eq. rewrite E, HL in Hk. injection Hk as <- _. by eexists.
    + rewrite lookup_insert_ne by congruence. by eexists.
  - intros i c k Hi. pose proof (held_by_insert i hs h x Hh) as Hb.
    apply lookup_insert_Some in Hi as [[<- [= <- <-]]|[Hne Hi]].
    + destruct (Hentry _ _ _ HL) as (_ & Hlt & He & _). rewrite bool_decide_true in Hb by done.
      split_and!; [done|done|lia|]. exists h, x. by rewrite lookup_insert_eq.
    + destruct (Hentry _ _ _ Hi) as (Hc & Hlt & He & g & y & Hg & Hy). rewrite bool_decide_false in Hb by done.
      split_and!; [done|done|lia|]. exists g, y. by rewrite lookup_insert_ne by congruence.
  - pose proof (total_update L (owner x) held (held + bytes x) HL). pose proof (sum_map_insert bytes hs h x Hh). lia.
Qed.

Lemma held_by_zero i hs : (∀ h x, hs !! h = Some x → id (owner x) = i → bytes x = 0) → held_by i hs = 0.
Proof.
  unfold held_by. induction hs as [|h x hs Hh IH] using map_ind; intros Hz; [done|]. rewrite sum_map_insert by done.
  rewrite IH.
  - case_bool_decide as Hi; [|done]. rewrite (Hz h x); [done|by rewrite lookup_insert_eq|done].
  - intros g y Hg. apply (Hz g y). rewrite lookup_insert_ne; [done|]. congruence.
Qed.

(** A fresh consumer. *)
Lemma agrees_register hs bound L h x :
  agrees hs bound L → hs !! h = None → id (owner x) = bound → bytes x = 0 →
  agrees (<[h := x]> hs) (S bound) (<[id (owner x) := (owner x, 0)]> L).
Proof.
  intros [Hlive Hentry Htot] Hh Hid Hb.
  assert (HL : L !! id (owner x) = None).
  { destruct (L !! id (owner x)) as [[c k]|] eqn:E; [|done]. destruct (Hentry _ _ _ E) as (_ & Hlt & _). lia. }
  split.
  - intros g y [[_ <-]|[Hg Hy]]%lookup_insert_Some; [rewrite lookup_insert_eq; by eexists|].
    destruct (Hlive g y Hy) as [k Hk]. exists k. rewrite lookup_insert_ne by congruence. done.
  - intros i c k Hi. pose proof (held_by_insert i hs h x Hh) as Hi'.
    apply lookup_insert_Some in Hi as [[<- [= <- <-]]|[Hne Hi]].
    + rewrite bool_decide_true, (held_by_zero (id (owner x)) hs) in Hi' by (done || intros g y Hy Ei; destruct (Hlive g y Hy); congruence).
      split_and!; [done|lia|lia|]. exists h, x. by rewrite lookup_insert_eq.
    + destruct (Hentry _ _ _ Hi) as (Hc & Hlt & He & g & y & Hg & Hy). rewrite bool_decide_false in Hi' by done.
      split_and!; [done|lia|lia|]. exists g, y. by rewrite lookup_insert_ne by congruence.
  - rewrite total_register, sum_map_insert by done. lia.
Qed.

(** An empty reservation goes; with the last one its consumer does. *)
Lemma agrees_delete hs bound L h x held :
  agrees hs bound L → hs !! h = Some x → bytes x = 0 → L !! id (owner x) = Some (owner x, held) →
  if is_last hs h (owner x) then held = 0 ∧ agrees (delete h hs) bound (delete (id (owner x)) L)
  else agrees (delete h hs) bound L.
Proof.
  intros [Hlive Hentry Htot] Hx Hb HL.
  assert (Hsum : sum_map bytes (delete h hs) = sum_map bytes hs) by (rewrite (sum_map_delete bytes hs h x Hx); lia).
  assert (Hheld : ∀ i, held_by i (delete h hs) = held_by i hs).
  { intros i. unfold held_by. rewrite (sum_map_delete _ hs h x Hx), Hb. by case_bool_decide. }
  assert (Hkeep : ∀ c, owner x ≠ c → (∃ g y, hs !! g = Some y ∧ owner y = c) → ∃ g y, delete h hs !! g = Some y ∧ owner y = c).
  { intros c Hc (g & y & Hg & Hy). exists g, y. rewrite lookup_delete_ne; [done|]. congruence. }
  unfold is_last. case_bool_decide as Hlast.
  - assert (held = 0) as ->.
    { destruct (Hentry _ _ _ HL) as (_ & _ & -> & _). rewrite <- Hheld. apply held_by_zero.
      intros g y Hg Hy. by destruct (map_Forall_lookup_1 _ _ _ _ Hlast Hg). }
    split; [done|]. split.
    + intros g y Hg. pose proof (map_Forall_lookup_1 _ _ _ _ Hlast Hg). apply lookup_delete_Some in Hg as [_ Hg].
      destruct (Hlive g y Hg) as [k Hk]. exists k. by rewrite lookup_delete_ne.
    + intros i c k [Hi Hk]%lookup_delete_Some. destruct (Hentry _ _ _ Hk) as (Hc & Hlt & He & Hw).
      rewrite Hheld. split_and!; [done|done|done|]. apply Hkeep; [congruence|done].
    + by rewrite total_unregister, Hsum.
  - split; [intros g y [_ Hg]%lookup_delete_Some; eauto| |by rewrite Hsum].
    intros i c k Hk. destruct (Hentry _ _ _ Hk) as (Hc & Hlt & He & Hw). rewrite Hheld. split_and!; [done|done|done|].
    destruct (decide (owner x = c)) as [Ec|Ec]; [|by apply Hkeep].
    apply (map_not_Forall _) in Hlast as (g & y & Hg & Hy). apply dec_stable in Hy.
    exists g, y. split; [done|]. apply lookup_delete_Some in Hg as [_ Hg]. destruct (Hlive g y Hg) as [k' Hk'].
    rewrite Hy, HL in Hk'. congruence.
Qed.

Lemma sum_list_cons n l : sum_list (n :: l) = n + sum_list l.
Proof. done. Qed.

Lemma sum_list_middle l1 n l2 : sum_list (l1 ++ n :: l2) = n + sum_list (l1 ++ l2).
Proof. induction l1 as [|k l1 IH]; [done|]. cbn [app]. rewrite !sum_list_cons. lia. Qed.

(** A live handle and its entry. *)
Lemma agrees_handle hs bound L h x :
  agrees hs bound L → hs !! h = Some x → ∃ held, L !! id (owner x) = Some (owner x, held) ∧ bytes x ≤ held.
Proof.
  intros [Hlive Hentry _] Hx. destruct (Hlive h x Hx) as [held HL]. exists held. split; [done|].
  destruct (Hentry _ _ _ HL) as (_ & _ & -> & _).
  pose proof (sum_map_lookup (λ y, if bool_decide (id (owner y) = id (owner x)) then bytes y else 0) hs h x Hx) as Hle.
  cbn beta in Hle. by rewrite bool_decide_true in Hle.
Qed.

Lemma agrees_same hs bound L h x x' :
  agrees hs bound L → hs !! h = Some x → owner x' = owner x → bytes x' = bytes x → agrees (<[h := x']> hs) bound L.
Proof.
  intros Ha Hx Ho Hb. destruct (agrees_handle _ _ _ _ _ Ha Hx) as (held & HL & _).
  rewrite <- (insert_id L _ _ HL). eapply agrees_update; [done..|lia].
Qed.

Lemma pool_shrink_ok m h r gs l1 n l2 :
  accounted m → handles m !! h = Some {| reservation := r; adds := gs; subs := l1 ++ n :: l2 |} →
  ∃ p', shrink (pool m) r n = Some p' ∧ accounted (update m p' h {| reservation := r; adds := gs; subs := l1 ++ l2 |}).
Proof.
  intros (L & HL & Ha) Hh. destruct (agrees_handle _ _ _ _ _ Ha Hh) as (held & Hheld & Hle).
  unfold bytes in Hle. cbn [reservation adds subs] in Hle. rewrite sum_list_middle in Hle.
  destruct (shrink_ok _ _ r _ n HL Hheld ltac:(lia)) as (p' & Hp' & HL'). exists p'. split; [done|]. eexists. split; [done|].
  eapply (agrees_update _ _ _ _ _ _ _ (held - n) Ha Hh); [done|done|]. unfold bytes. cbn [reservation adds subs].
  rewrite sum_list_middle. lia.
Qed.

Lemma free_ok p L r held :
  tracks p L → L !! id (consumer r) = Some (consumer r, held) → size r ≤ held →
  ∃ p', free p r = Some (p', with_size r 0, size r) ∧ tracks p' (<[id (consumer r) := (consumer r, held - size r)]> L).
Proof.
  intros HL Hheld Hle. unfold free. destruct (N.eqb_spec (size r) 0) as [E|E].
  - exists p. split; [done|]. by rewrite E, N.sub_0_r, insert_id.
  - destruct (shrink_ok _ _ (with_size r 0) _ _ HL Hheld Hle) as (p' & -> & Hp'). by exists p'.
Qed.

Lemma drop_ok m h r :
  accounted m → handles m !! h = Some {| reservation := r; adds := []; subs := [] |} →
  ∃ p', drop (pool m) r (is_last (handles m) h (consumer r)) = Some p' ∧
        accounted {| pool := p'; handles := delete h (handles m); next_id := next_id m |}.
Proof.
  intros (L & HL & Ha) Hh. destruct (agrees_handle _ _ _ _ _ Ha Hh) as (held & Hheld & Hle).
  unfold bytes in Hle. cbn [reservation adds subs sum_list foldr] in Hle. change (owner _) with (consumer r) in Hheld.
  destruct (free_ok _ _ r held HL Hheld ltac:(lia)) as (p1 & Hfree & HL1).
  set (x0 := {| reservation := with_size r 0; adds := []; subs := [] |}).
  assert (Ha1 : agrees (<[h := x0]> (handles m)) (next_id m) (<[id (consumer r) := (consumer r, held - size r)]> L)).
  { eapply (agrees_update _ _ _ _ _ x0 held (held - size r) Ha Hh); [done|done|]. unfold bytes. cbn. lia. }
  pose proof (agrees_delete _ _ _ h x0 (held - size r) Ha1 ltac:(apply lookup_insert_eq) eq_refl ltac:(apply lookup_insert_eq)) as Hd.
  unfold drop. rewrite Hfree. cbn [mbind option_bind fst].
  assert (Hlast : is_last (<[h := x0]> (handles m)) h (owner x0) = is_last (handles m) h (consumer r)).
  { unfold is_last. by rewrite delete_insert_eq. }
  rewrite Hlast, delete_insert_eq in Hd. destruct (is_last _ _ _).
  - destruct Hd as [Hz Hd]. rewrite Hz in HL1, Hd.
    destruct (unregister_ok _ _ (consumer r) HL1 ltac:(apply lookup_insert_eq)) as (p2 & -> & HL2).
    exists p2. split; [done|]. by eexists.
  - exists p1. split; [done|]. by eexists.
Qed.

Lemma grown_ok m L L' h x n p' held :
  agrees (handles m) (next_id m) L → handles m !! h = Some x → L !! id (owner x) = Some (owner x, held) →
  L' = <[id (owner x) := (owner x, held + n)]> L → tracks p' L' →
  accounted (update m p' h {| reservation := reservation x; adds := n :: adds x; subs := subs x |}).
Proof.
  intros Ha Hh HL -> Hp'. eexists. split; [exact Hp'|]. eapply (agrees_update _ _ _ _ _ _ _ (held + n) Ha Hh); [done|done|].
  unfold bytes. cbn [reservation adds subs]. rewrite sum_list_cons. lia.
Qed.

Lemma step_accounted m a m' : accounted m → step m a m' → accounted m'.
Proof.
  intros Hm Hs. destruct Hs as [h nm spill p' c Hh Hp|h x n p' Hh Hn Hp|h x n p' Hh Hn Hp|h r n l1 l2 ss Hh|h x n k Hh Hk
    |h r n gs l1 l2 p' Hh Hp|h h' x n r1 r2 Hh Hh' Hsp|h r p' Hh Hp].
  - destruct Hm as (L & HL & Ha).
    pose proof (agrees_register _ _ _ h {| reservation := {| consumer := c; size := 0 |}; adds := []; subs := [] |} Ha Hh eq_refl eq_refl) as Ha'.
    destruct (register_ok _ _ c HL) as [(p1 & Ep & HL')|[Ep _]]; [|rewrite Ep in Hp; injection Hp as ->; by eexists|by rewrite Ep in Hp].
    destruct (L !! id c) as [[c' k]|] eqn:E; [|done]. destruct (agrees_entry _ _ _ Ha _ _ _ E) as (_ & Hlt & _). cbn in Hlt. lia.
  - destruct Hm as (L & HL & Ha). destruct (agrees_handle _ _ _ _ _ Ha Hh) as (held & Hheld & _).
    unfold total_bytes in Hn. rewrite <- (agrees_total _ _ _ Ha) in Hn.
    destruct (grow_ok _ _ _ _ n HL Hheld Hn) as (p1 & Ep & HL'). rewrite Ep in Hp. injection Hp as ->. by eapply grown_ok.
  - destruct Hm as (L & HL & Ha). destruct (agrees_handle _ _ _ _ _ Ha Hh) as (held & Hheld & Hle). unfold bytes in Hle.
    unfold total_bytes in Hn. rewrite <- (agrees_total _ _ _ Ha) in Hn.
    destruct (try_grow_ok _ _ _ _ n HL Hheld ltac:(lia) Hn) as [(p1 & Ep & HL')|[e Ep]]; rewrite Ep in Hp; [|done].
    injection Hp as ->. by eapply grown_ok.
  - destruct Hm as (L & HL & Ha). exists L. split; [done|]. destruct (agrees_handle _ _ _ _ _ Ha Hh) as (held & Hheld & Hle).
    pose proof (held_le _ _ _ Hheld). pose proof (tracks_fits _ _ HL). eapply (agrees_same _ _ _ _ _ _ Ha Hh); [done|].
    unfold bytes in *. cbn [reservation adds subs with_size size] in *. rewrite sum_list_middle in *.
    rewrite fetch_add_fits by lia. lia.
  - destruct Hm as (L & HL & Ha). exists L. split; [done|]. eapply (agrees_same _ _ _ _ _ _ Ha Hh); [done|].
    unfold checked_sub in Hk. destruct (N.leb_spec n (size (reservation x))); [|done]. injection Hk as <-.
    unfold bytes. cbn [reservation adds subs with_size size]. rewrite sum_list_cons. lia.
  - destruct (pool_shrink_ok _ _ _ _ _ _ _ Hm Hh) as (p1 & Ep & Hp1). rewrite Ep in Hp. by injection Hp as ->.
  - destruct Hm as (L & HL & Ha). destruct (agrees_handle _ _ _ _ _ Ha Hh) as (held & Hheld & Hle). exists L. split; [done|].
    unfold split, checked_sub in Hsp. destruct (N.leb_spec n (size (reservation x))); [|done]. injection Hsp as <- <-.
    unfold bytes in Hle. set (x1 := {| reservation := with_size (reservation x) (size (reservation x) - n); adds := adds x; subs := subs x |}).
    set (x2 := {| reservation := with_size (reservation x) n; adds := []; subs := [] |}).
    assert (Ha1 : agrees (<[h := x1]> (handles m)) (next_id m) (<[id (owner x) := (owner x, held - n)]> L)).
    { eapply agrees_update; [done..|]. unfold bytes. cbn [x1 reservation adds subs with_size size]. lia. }
    pose proof (agrees_insert _ _ _ h' x2 (held - n) Ha1) as Ha2. rewrite insert_insert_eq in Ha2.
    replace (held - n + bytes x2) with held in Ha2 by (unfold bytes; cbn; lia).
    change (owner x2) with (owner x) in Ha2. rewrite (insert_id L _ _ Hheld) in Ha2.
    apply Ha2; [|apply lookup_insert_eq]. rewrite lookup_insert_ne; [done|congruence].
  - destruct (drop_ok _ _ _ Hm Hh) as (p1 & Ep & Hp1). rewrite Ep in Hp. by injection Hp as ->.
Qed.

Lemma steps_accounted m m' : accounted m → rtc any_step m m' → accounted m'.
Proof. intros Hm Hs. induction Hs as [|m1 m2 m3 [a Ha] _ IH]; [done|]. apply IH. by eapply step_accounted. Qed.

Lemma start_accounted p : tracks p ∅ → accounted (start p).
Proof. intros Hp. exists ∅. split; [done|]. split; [done|done|]. unfold total. by rewrite !sum_map_empty. Qed.

(** C31. Memory accounting under every interleaving of threads: a pool that starts
    empty reports, after any atomic steps of calls on its reservations, the bytes
    of the live reservations and of the calls under way; what a call still has to
    give back can be given back, and a reservation can be dropped, its consumer
    unregistered with the last one, without a counter underflowing. *)
Theorem memory_accounting p m :
  tracks p ∅ → rtc any_step (start p) m →
  reserved (pool m) = Some (total_bytes m) ∧
  (∀ h r gs l1 n l2, handles m !! h = Some {| reservation := r; adds := gs; subs := l1 ++ n :: l2 |} →
     is_Some (shrink (pool m) r n)) ∧
  (∀ h r, handles m !! h = Some {| reservation := r; adds := []; subs := [] |} →
     is_Some (drop (pool m) r (is_last (handles m) h (consumer r)))).
Proof.
  intros Hp Hs. pose proof (steps_accounted _ _ (start_accounted p Hp) Hs) as Hm. split_and!.
  - destruct Hm as (L & HL & Ha). rewrite (reserved_ok _ _ HL). by rewrite (agrees_total _ _ _ Ha).
  - intros h r gs l1 n l2 Hh. destruct (pool_shrink_ok _ _ _ _ _ _ _ Hm Hh) as (p' & Hp' & _). by exists p'.
  - intros h r Hh. destruct (drop_ok _ _ _ Hm Hh) as (p' & Hp' & _). by exists p'.
Qed.

Lemma total_replace (hs : gmap nat handle) h x y :
  hs !! h = Some x → bytes y ≤ bytes x → sum_map bytes (<[h := y]> hs) ≤ sum_map bytes hs.
Proof. intros Hh Hle. pose proof (sum_map_update bytes hs h x y Hh). lia. Qed.

(** Only granted bytes add to the total. *)
Lemma total_step m a m' :
  accounted m → step m a m' → a ≠ PoolGrow → a ≠ PoolTryGrow → total_bytes m' ≤ total_bytes m.
Proof.
  intros Hm Hs Hg Ht. unfold total_bytes. destruct Hs as [h nm spill p' c Hh Hp| | |h r n l1 l2 ss Hh|h x n k Hh Hk
    |h r n gs l1 l2 p' Hh Hp|h h' x n r1 r2 Hh Hh' Hsp|h r p' Hh Hp]; [|done..| | | | |]; cbn [handles update].
  - by rewrite sum_map_insert.
  - destruct Hm as (L & HL & Ha). destruct (agrees_handle _ _ _ _ _ Ha Hh) as (held & Hheld & Hle).
    pose proof (held_le _ _ _ Hheld). pose proof (tracks_fits _ _ HL). eapply total_replace; [done|].
    unfold bytes in *. cbn [reservation adds subs with_size size] in *. rewrite sum_list_middle in *.
    rewrite fetch_add_fits by lia. lia.
  - unfold checked_sub in Hk. destruct (N.leb_spec n (size (reservation x))); [|done]. injection Hk as <-.
    eapply total_replace; [done|]. unfold bytes. cbn [reservation adds subs with_size size]. rewrite sum_list_cons. lia.
  - eapply total_replace; [done|]. unfold bytes. cbn [reservation adds subs]. rewrite sum_list_middle. lia.
  - unfold split, checked_sub in Hsp. destruct (N.leb_spec n (size (reservation x))); [|done]. injection Hsp as <- <-.
    rewrite sum_map_insert by (rewrite lookup_insert_ne; [done|congruence]).
    set (x1 := {| reservation := with_size (reservation x) (size (reservation x) - n); adds := adds x; subs := subs x |}).
    assert (bytes x1 + n = bytes x) by (unfold bytes; cbn [x1 reservation adds subs with_size size]; lia).
    pose proof (sum_map_update bytes _ h _ x1 Hh). unfold bytes at 1. cbn [reservation adds subs with_size size sum_list foldr]. lia.
  - rewrite (sum_map_delete bytes _ h _ Hh). lia.
Qed.

(** A step that asks before it takes. *)
Definition asking_step (m m' : memory P) : Prop := ∃ a, a ≠ PoolGrow ∧ step m a m'.

Context `{!PoolBounded P}.

Lemma drop_limit p r last p' : drop p r last = Some p' → memory_limit p' = memory_limit p.
Proof.
  unfold drop, free. intros Hd. destruct (size r =? 0); cbn [mbind option_bind] in Hd.
  - destruct last; cbn [fst] in Hd; [by eapply unregister_limit|by injection Hd as ->].
  - destruct (shrink _ _ _) as [p1|] eqn:E; [|done]. apply shrink_limit in E. rewrite <- E. cbn [mbind option_bind fst] in Hd.
    destruct last; [by eapply unregister_limit|by injection Hd as ->].
Qed.

Lemma step_limit m a m' : step m a m' → a ≠ PoolGrow → memory_limit (pool m') = memory_limit (pool m).
Proof.
  intros Hs Hg. destruct Hs; try done; cbn [pool update];
    eauto using register_limit, try_grow_limit, shrink_limit, drop_limit.
Qed.

Lemma asking_bounded limit m m' :
  accounted m → memory_limit (pool m) = Finite limit → total_bytes m ≤ limit → asking_step m m' →
  accounted m' ∧ memory_limit (pool m') = Finite limit ∧ total_bytes m' ≤ limit.
Proof.
  intros Hm Hl Hb (a & Ha & Hs). pose proof (step_accounted _ _ _ Hm Hs) as Hm'.
  split_and!; [done|by rewrite (step_limit _ _ _ Hs Ha)|].
  destruct (decide (a = PoolTryGrow)) as [->|Ht]; [|pose proof (total_step _ _ _ Hm Hs Ha Ht); lia].
  destruct Hm' as (L & HL & Hag). pose proof (reserved_ok _ _ HL) as Hr. rewrite (agrees_total _ _ _ Hag) in Hr.
  inversion Hs as [| |h x n p' Hh Hn Hp| | | | |]; subst. by eapply try_grow_bounded.
Qed.

(** A pool with a limit, when its users only ask (no infallible [grow] and no
    growing [resize]), never has more reserved than its limit, whatever threads
    register, request, free, split and drop in whatever order. *)
Theorem memory_within_limit p limit m :
  tracks p ∅ → memory_limit p = Finite limit → rtc asking_step (start p) m →
  total_bytes m ≤ limit ∧ reserved (pool m) = Some (total_bytes m).
Proof.
  intros Hp Hl Hs.
  assert (accounted m ∧ memory_limit (pool m) = Finite limit ∧ total_bytes m ≤ limit) as (Hm & _ & Hb).
  { remember (start p) as m0 eqn:E0. assert (Hi : accounted m0 ∧ memory_limit (pool m0) = Finite limit ∧ total_bytes m0 ≤ limit).
    { subst m0. split_and!; [by apply start_accounted|done|]. unfold total_bytes. cbn [handles start]. rewrite sum_map_empty. lia. }
    clear E0 Hp Hl. induction Hs as [|m1 m2 m3 H12 _ IH]; [done|]. apply IH. destruct Hi as (? & ? & ?). by eapply asking_bounded. }
  split; [done|]. destruct Hm as (L & HL & Ha). by rewrite (reserved_ok _ _ HL), (agrees_total _ _ _ Ha).
Qed.

End Accounting.

(** ** Calls as steps *)

Section Calls.
Context {P : Type} `{MemoryPool P}.

Definition quiet (r : MemoryReservation) : handle := {| reservation := r; adds := []; subs := [] |}.

Lemma update_twice (m : memory P) p1 p2 h x y : update (update m p1 h x) p2 h y = update m p2 h y.
Proof. unfold update. cbn [handles next_id]. by rewrite insert_insert_eq. Qed.

Lemma grow_steps (m : memory P) h r n p' :
  handles m !! h = Some (quiet r) → total_bytes m + n < usize_end →
  grow (pool m) r n = Some p' ∨ try_grow (pool m) r n = Some (Ok p') →
  rtc any_step m (update m p' h (quiet (with_size r (fetch_add (size r) n)))).
Proof.
  intros Hh Hn Hp. rewrite <- (update_twice m p' p' h {| reservation := r; adds := [n]; subs := [] |}).
  eapply rtc_l; [|eapply rtc_once].
  - destruct Hp as [Hp|Hp]; eexists; [by eapply (step_pool_grow _ h (quiet r))|by eapply (step_pool_try_grow _ h (quiet r))].
  - exists SizeGrow. apply (step_size_grow (update m p' h {| reservation := r; adds := [n]; subs := [] |}) h r n [] [] []). apply lookup_insert_eq.
Qed.

Lemma shrink_steps (m : memory P) h r n k p' :
  handles m !! h = Some (quiet r) → checked_sub (size r) n = Some k → shrink (pool m) (with_size r k) n = Some p' →
  rtc any_step m (update m p' h (quiet (with_size r k))).
Proof.
  intros Hh Hk Hp. rewrite <- (update_twice m (pool m) p' h {| reservation := with_size r k; adds := []; subs := [n] |}).
  eapply rtc_l; [|eapply rtc_once].
  - exists SizeShrink. by eapply (step_size_shrink _ h (quiet r)).
  - exists PoolShrink. apply (step_pool_shrink (update m (pool m) h {| reservation := with_size r k; adds := []; subs := [n] |}) h (with_size r k) n [] [] [] p'); [apply lookup_insert_eq|done].
Qed.

Lemma update_id (m : memory P) h x : handles m !! h = Some x → update m (pool m) h x = m.
Proof. intros Hh. unfold update. rewrite insert_id by done. by destruct m. Qed.

Lemma reservation_shrink_steps (m : memory P) h r n p' r' :
  handles m !! h = Some (quiet r) → reservation_shrink (pool m) r n = Some (p', r') →
  rtc any_step m (update m p' h (quiet r')).
Proof.
  unfold reservation_shrink. intros Hh Hc. destruct (checked_sub (size r) n) as [k|] eqn:Ek; [|done]. cbn [mbind option_bind] in Hc.
  destruct (shrink _ _ _) eqn:Es; [|done]. injection Hc as <- <-. by eapply shrink_steps.
Qed.

Lemma try_shrink_steps (m : memory P) h r n res :
  handles m !! h = Some (quiet r) → try_shrink (pool m) r n = Some (Ok res) →
  rtc any_step m (update m res.1.1 h (quiet res.1.2)).
Proof.
  unfold try_shrink. intros Hh Hc. destruct (checked_sub (size r) n) as [k|] eqn:Ek; [|done]. cbn [mbind option_bind] in Hc.
  destruct (shrink _ _ _) eqn:Es; [|done]. injection Hc as <-. by eapply shrink_steps.
Qed.

Lemma reservation_grow_steps (m : memory P) h r n p' r' :
  handles m !! h = Some (quiet r) → total_bytes m + n < usize_end →
  reservation_grow (pool m) r n = Some (p', r') ∨ reservation_try_grow (pool m) r n = Some (Ok (p', r')) →
  rtc any_step m (update m p' h (quiet r')).
Proof.
  unfold reservation_grow, reservation_try_grow. intros Hh Hn [Hc|Hc].
  - destruct (grow _ _ _) eqn:E; [|done]. injection Hc as <- <-. eapply grow_steps; eauto.
  - destruct (try_grow _ _ _) as [[]|] eqn:E; [|done..]. injection Hc as <- <-. eapply grow_steps; eauto.
Qed.

(** A call that returns is a run of steps. *)
Lemma call_steps f (m : memory P) h r p' r' :
  handles m !! h = Some (quiet r) → total_bytes m + growth f (size r) < usize_end →
  call f (pool m) r = Some (Ok (p', r')) → rtc any_step m (update m p' h (quiet r')).
Proof.
  intros Hh Hn Hc. destruct f as [n|n|n|n|n|n|]; cbn [call growth] in *.
  - apply fmap_Some in Hc as (x & Hx & [= <-]). eapply reservation_grow_steps; eauto.
  - eapply reservation_grow_steps; eauto.
  - apply fmap_Some in Hc as (x & Hx & [= <-]). by eapply reservation_shrink_steps.
  - destruct (try_shrink _ _ _) as [[[[p1 r1] k]|]|] eqn:E; [|done..]. injection Hc as <- <-. by eapply (try_shrink_steps _ _ _ _ (p1, r1, k)).
  - apply fmap_Some in Hc as (x & Hx & [= <-]). unfold resize in Hx. destruct (n ?= size r)%N.
    + injection Hx as <- <-. by rewrite update_id.
    + by eapply reservation_shrink_steps.
    + eapply reservation_grow_steps; eauto.
  - unfold try_resize in Hc. destruct (n ?= size r)%N.
    + injection Hc as <- <-. by rewrite update_id.
    + destruct (try_shrink _ _ _) as [[[[p1 r1] k]|]|] eqn:E; [|done..]. injection Hc as <- <-. by eapply (try_shrink_steps _ _ _ _ (p1, r1, k)).
    + eapply reservation_grow_steps; eauto.
  - unfold free in Hc. destruct (N.eqb_spec (size r) 0) as [E|E].
    + injection Hc as <- <-. rewrite update_id; [done|]. rewrite Hh. f_equal. unfold quiet, with_size. rewrite <- E. by destruct r.
    + destruct (shrink _ _ _) eqn:Es; [|done]. injection Hc as <- <-. eapply shrink_steps; [done| |done].
      rewrite checked_sub_fits, N.sub_diag by lia. done.
Qed.

End Calls.

(** ** The limits of the pools *)

#[export] Instance greedy_bounded : PoolBounded GreedyMemoryPool.
Proof.
  split; try by intros p r n p' [= <-].
  - cbn [try_grow memory_limit reserved greedy_pool]. unfold greedy_try_grow. intros p r n p' limit k Hp [= <-] [= <-].
    destruct (checked_add _ _) as [u|]; [|done]. cbn [mbind option_bind] in Hp.
    destruct (N.leb_spec u (greedy_size p)); [|done]. by injection Hp as <-.
  - cbn [try_grow memory_limit greedy_pool]. unfold greedy_try_grow. intros p r n p' Hp.
    destruct (checked_add _ _) as [u|]; [|done]. cbn [mbind option_bind] in Hp. destruct (_ <=? _); [|done]. by injection Hp as <-.
  - by intros p c p' [= <-].
  - by intros p c p' [= <-].
Qed.

#[export] Instance track_bounded {I} `{PoolBounded I} : PoolBounded (TrackConsumersPool I).
Proof.
  split; cbn [try_grow shrink register unregister memory_limit reserved track_pool].
  - intros p r n p' limit k Hp Hl Hk. destruct (try_grow _ _ _) as [[q|]|] eqn:E; [|done..]. injection Hp as <-.
    by eapply try_grow_bounded.
  - intros p r n p' Hp. destruct (try_grow _ _ _) as [[q|]|] eqn:E; [|done..]. injection Hp as <-. by eapply try_grow_limit.
  - intros p r n p' Hp. destruct (shrink _ _ _) eqn:E; [|done]. injection Hp as <-. by eapply shrink_limit.
  - unfold track_register. intros p c p' Hp. destruct (register _ _) eqn:E; [|done]. cbn [mbind option_bind] in Hp.
    destruct (_ !! _); [done|]. injection Hp as <-. by eapply register_limit.
  - unfold track_unregister. intros p c p' Hp. destruct (unregister _ _) eqn:E; [|done]. injection Hp as <-. by eapply unregister_limit.
Qed.

(** ** Examples *)

Section Examples.

Definition tracked {I} (p : I) : TrackConsumersPool I := {| inner := p; tracked_consumers := ∅ |}.

Lemma tracked_fair_empty n : tracks (tracked (fair_new n)) ∅.
Proof. split; [|done]. by split_and!. Qed.

Lemma tracked_greedy_empty n : tracks (tracked (greedy_new n)) ∅.
Proof. split; [|done]. by split. Qed.

(** One asking step, evaluated. *)
Tactic Notation "ask" uconstr(rule) := eexists; split; [|eapply rule; reflexivity]; discriminate.

(** A thread is between the pool and the size of its reservation. *)
Lemma memory_accounting_witness :
  ∃ m : memory (TrackConsumersPool FairSpillPool),
    rtc any_step (start (tracked (fair_new 100))) m ∧ total_bytes m = 40 ∧
    reserved (pool m) = Some (total_bytes m).
Proof.
  eexists. match goal with |- ?R ∧ _ => assert R as HR end.
  { eapply rtc_l; [eexists; eapply (step_register _ 0%nat "sort" true); reflexivity|].
    eapply rtc_l; [eexists; eapply (step_pool_try_grow _ 0%nat _ 40); reflexivity|]. apply rtc_refl. }
  split; [exact HR|]. split; [done|]. apply (memory_accounting _ _ (tracked_fair_empty 100) HR).
Defined.

Lemma memory_within_limit_witness :
  ∃ m : memory (TrackConsumersPool GreedyMemoryPool),
    rtc asking_step (start (tracked (greedy_new 100))) m ∧ total_bytes m = 60 ∧
    total_bytes m ≤ 100 ∧ reserved (pool m) = Some (total_bytes m).
Proof.
  eexists. match goal with |- ?R ∧ _ => assert R as HR end.
  { eapply rtc_l; [ask (step_register _ 0%nat "sort" true)|].
    eapply rtc_l; [ask (step_pool_try_grow _ 0%nat _ 60)|]. apply rtc_refl. }
  split; [exact HR|]. split; [done|]. apply (memory_within_limit _ 100 _ (tracked_greedy_empty 100) eq_refl HR).
Defined.

(** A fair pool grants more than its limit although its users only ask: a
    consumer that spills takes the whole pool, a second one registers and is
    granted its half. *)
Theorem fair_pool_overcommits :
  memory_limit (fair_new 100) = Finite 100 ∧
  ∃ m : memory FairSpillPool, rtc asking_step (start (fair_new 100)) m ∧ reserved (pool m) = Some 150.
Proof.
  split; [done|]. eexists. split.
  - eapply rtc_l; [ask (step_register _ 0%nat "a" true)|].
    eapply rtc_l; [ask (step_pool_try_grow _ 0%nat _ 100)|].
    eapply rtc_l; [ask (step_register _ 1%nat "b" true)|].
    eapply rtc_l; [ask (step_pool_try_grow _ 1%nat _ 50)|]. apply rtc_refl.
  - done.
Qed.

End Examples.

End Memory.
