(* ===== verification/SpillPool.v ===== *)
(** * Spill pools (physical-plan/src/spill/spill_pool.rs)

    A spill pool passes batches from writers to a reader through a queue of
    files: writers that share a current file and rotate it when it is large, a
    reader that follows the files while they are written and sleeps when it has
    caught up.  Writers and reader interleave at their critical sections; an
    [event] is one such section and [exec] what it does to the shared state.
    Proved: as long as writes neither overlap nor fail, the reader yields the pushed
    batches in order, reports the end of the stream exactly when the writers are gone
    and all is read, and is never asleep over data it has not been woken for.  Examples
    with two overlapping writers and with a failed write show a batch that is never
    read. *)

From stdpp Require Import base list relations.
From Stdlib Require Import ZArith Lia.
From S2P Require Import Prelude.

Module Spill.

Section Pool.
Context {B : Type} (num_rows get_array_memory_size : B → N) (max_file_size_bytes : N).

(** ** State *)

(** [ActiveSpillFileShared]; [contents] is what a reader of the file finds. *)
Record ActiveSpillFileShared := {
  writer : bool;
  file : bool;
  contents : list B;
  batches_written : nat;
  estimated_size : N;
  writer_finished : bool;
  file_waker : bool;
}.

(** Files are shared by reference: the queue and the current file name them by
    their index in the store. *)
Record SpillPoolShared := {
  files : list nat;
  waker : bool;
  writer_dropped : bool;
  current_write_file : option nat;
  active_writer_count : nat;
}.

(** Where a writer is between two critical sections: outside a call, about to
    create a file, about to write, about to put the current file back; and in
    [drop], about to finish the last file or to mark the pool. *)
Inductive writer_phase :=
| Idle
| Creating (b : B)
| Writing (b : B) (f : nat)
| PuttingBack (f : nat)
| Finishing (f : nat)
| Marking
| Dropped.

Inductive poll_result := Batch (b : B) | ReadError | EndOfStream.

(** Where the reader is: at the head of the loop of [poll_next], having found a
    file exhausted, having found it not ready, or suspended. *)
Inductive reader_phase := Polled | Popping | Parking | Suspended.

(** [current_file] is the [SpillFile] of the reader with the count of its lazily
    opened stream.  [woken] says that a waker of the reader was called since it
    was last resumed.  [results] and [pushed] record what the reader returned and
    the batches written. *)
Record pool := {
  store : list ActiveSpillFileShared;
  shared : SpillPoolShared;
  writers : list writer_phase;
  current_file : option (nat * option nat);
  phase : reader_phase;
  woken : bool;
  results : list poll_result;
  pushed : list B;
}.

(** ** Updates *)

Definition set_shared (g : SpillPoolShared → SpillPoolShared) (s : pool) : pool :=
  {| store := store s; shared := g (shared s); writers := writers s; current_file := current_file s;
     phase := phase s; woken := woken s; results := results s; pushed := pushed s |}.

Definition set_store (st : list ActiveSpillFileShared) (s : pool) : pool :=
  {| store := st; shared := shared s; writers := writers s; current_file := current_file s;
     phase := phase s; woken := woken s; results := results s; pushed := pushed s |}.

Definition set_writer (i : nat) (p : writer_phase) (s : pool) : pool :=
  {| store := store s; shared := shared s; writers := <[i := p]> (writers s); current_file := current_file s;
     phase := phase s; woken := woken s; results := results s; pushed := pushed s |}.

Definition set_reader (cf : option (nat * option nat)) (ph : reader_phase) (s : pool) : pool :=
  {| store := store s; shared := shared s; writers := writers s; current_file := cf;
     phase := ph; woken := woken s; results := results s; pushed := pushed s |}.

Definition emit (r : poll_result) (s : pool) : pool :=
  {| store := store s; shared := shared s; writers := writers s; current_file := current_file s;
     phase := phase s; woken := woken s; results := results s ++ [r]; pushed := pushed s |}.

Definition note_pushed (bs : list B) (s : pool) : pool :=
  {| store := store s; shared := shared s; writers := writers s; current_file := current_file s;
     phase := phase s; woken := woken s; results := results s; pushed := pushed s ++ bs |}.

Definition set_woken (w : bool) (s : pool) : pool :=
  {| store := store s; shared := shared s; writers := writers s; current_file := current_file s;
     phase := phase s; woken := w; results := results s; pushed := pushed s |}.

Definition set_file (f : nat) (g : ActiveSpillFileShared → ActiveSpillFileShared) (s : pool) : pool :=
  set_store (alter g f (store s)) s.

Definition set_pool_waker (w : bool) (sh : SpillPoolShared) : SpillPoolShared :=
  {| files := files sh; waker := w; writer_dropped := writer_dropped sh;
     current_write_file := current_write_file sh; active_writer_count := active_writer_count sh |}.

Definition set_current (c : option nat) (sh : SpillPoolShared) : SpillPoolShared :=
  {| files := files sh; waker := waker sh; writer_dropped := writer_dropped sh;
     current_write_file := c; active_writer_count := active_writer_count sh |}.

Definition set_files (fs : list nat) (sh : SpillPoolShared) : SpillPoolShared :=
  {| files := fs; waker := waker sh; writer_dropped := writer_dropped sh;
     current_write_file := current_write_file sh; active_writer_count := active_writer_count sh |}.

Definition set_count (n : nat) (sh : SpillPoolShared) : SpillPoolShared :=
  {| files := files sh; waker := waker sh; writer_dropped := writer_dropped sh;
     current_write_file := current_write_file sh; active_writer_count := n |}.

Definition set_dropped (sh : SpillPoolShared) : SpillPoolShared :=
  {| files := files sh; waker := waker sh; writer_dropped := true;
     current_write_file := current_write_file sh; active_writer_count := active_writer_count sh |}.

Definition set_file_waker (w : bool) (x : ActiveSpillFileShared) : ActiveSpillFileShared :=
  {| writer := writer x; file := file x; contents := contents x; batches_written := batches_written x;
     estimated_size := estimated_size x; writer_finished := writer_finished x; file_waker := w |}.

(** [SpillPoolShared::wake] and [ActiveSpillFileShared::wake] take the waker. *)
Definition wake (s : pool) : pool :=
  set_woken (woken s || waker (shared s)) (set_shared (set_pool_waker false) s).

Definition wake_file (f : nat) (s : pool) : pool :=
  let registered := match store s !! f with Some x => file_waker x | None => false end in
  set_woken (woken s || registered) (set_file f (set_file_waker false) s).

(** ** Writers *)

Definition new_file : ActiveSpillFileShared :=
  {| writer := true; file := true; contents := []; batches_written := 0; estimated_size := 0;
     writer_finished := false; file_waker := false |}.

(** [append_batch], [flush] and the counters; a failed write may leave its batch
    in the file, uncounted. *)
Definition append (b : B) (x : ActiveSpillFileShared) : ActiveSpillFileShared :=
  {| writer := writer x; file := file x; contents := contents x ++ [b]; batches_written := S (batches_written x);
     estimated_size := estimated_size x + get_array_memory_size b; writer_finished := writer_finished x;
     file_waker := file_waker x |}.

Definition append_failed (rest : list B) (x : ActiveSpillFileShared) : ActiveSpillFileShared :=
  {| writer := writer x; file := file x; contents := contents x ++ rest; batches_written := batches_written x;
     estimated_size := estimated_size x; writer_finished := writer_finished x; file_waker := file_waker x |}.

(** The writer of the file is taken; [done] says that its [finish] succeeded. *)
Definition finish (done : bool) (x : ActiveSpillFileShared) : ActiveSpillFileShared :=
  {| writer := false; file := file x; contents := contents x; batches_written := batches_written x;
     estimated_size := estimated_size x; writer_finished := done || writer_finished x; file_waker := file_waker x |}.

(** [push_batch], up to the point where the shared lock is released. *)
Definition push_batch (i : nat) (b : B) (s : pool) : pool :=
  if (num_rows b =? 0)%N then s
  else match current_write_file (shared s) with
       | None => set_writer i (Creating b) s
       | Some f => set_writer i (Writing b f) (set_shared (set_current None) s)
       end.

(** [push_batch]: a new file enters the queue, becomes the current file and is
    taken, all under the shared lock. *)
Definition create_file (i : nat) (b : B) (s : pool) : pool :=
  let f := length (store s) in
  let s := set_store (store s ++ [new_file]) s in
  let s := wake (set_shared (λ sh, set_current (Some f) (set_files (files sh ++ [f]) sh)) s) in
  set_writer i (Writing b f) (set_shared (set_current None) s).

Inductive write_result := Written | AppendFailed (rest : list B) | FinishFailed.

(** [push_batch]: the section under the lock of the file. *)
Definition write_batch (i : nat) (b : B) (f : nat) (r : write_result) (s : pool) : option pool :=
  x ← store s !! f;
  match r with
  | AppendFailed rest => Some (set_writer i Idle (set_file f (append_failed rest) s))
  | _ =>
      let x := if writer x then append b x else x in
      let s := note_pushed (if writer x then [b] else []) (set_file f (λ _, x) s) in
      let s := wake_file f s in
      if (max_file_size_bytes <? estimated_size x)%N then
        match r with
        | FinishFailed => Some (set_writer i Idle (set_file f (finish false) s))
        | _ => Some (set_writer i Idle (wake_file f (set_file f (finish true) s)))
        end
      else Some (set_writer i (PuttingBack f) s)
  end.

Definition put_back (i f : nat) (s : pool) : pool :=
  set_writer i Idle (set_shared (set_current (Some f)) s).

(** [Clone for SpillPoolWriter] *)
Definition clone (s : pool) : pool :=
  let s := set_shared (λ sh, set_count (S (active_writer_count sh)) sh) s in
  {| store := store s; shared := shared s; writers := writers s ++ [Idle]; current_file := current_file s;
     phase := phase s; woken := woken s; results := results s; pushed := pushed s |}.

(** [Drop for SpillPoolWriter], in three sections when a file is open. *)
Definition mark_dropped (i : nat) (s : pool) : pool :=
  set_writer i Dropped (wake (set_shared set_dropped s)).

Definition drop_writer (i : nat) (s : pool) : option pool :=
  count ← usize_sub (active_writer_count (shared s)) 1;
  let s := set_shared (set_count count) s in
  Some (if decide (count = 0) then
          match current_write_file (shared s) with
          | Some f => set_writer i (Finishing f) (set_shared (set_current None) s)
          | None => mark_dropped i s
          end
        else set_writer i Dropped s).

Definition finish_file (i f : nat) (s : pool) : pool :=
  set_writer i Marking (wake_file f (set_file f (finish true) s)).

(** ** The reader *)

Definition take_file (x : ActiveSpillFileShared) : ActiveSpillFileShared :=
  {| writer := writer x; file := false; contents := contents x; batches_written := batches_written x;
     estimated_size := estimated_size x; writer_finished := writer_finished x; file_waker := file_waker x |}.

(** The open stream of file [f] is polled at batch [k]. *)
Definition read_next (f k : nat) (read_ok : bool) (x : ActiveSpillFileShared) (s : pool) : pool :=
  if read_ok then
    match contents x !! k with
    | Some b => emit (Batch b) (set_reader (Some (f, Some (S k))) Polled s)
    | None => set_reader (Some (f, Some k)) Popping s
    end
  else emit ReadError (set_reader (Some (f, Some k)) Polled s).

(** [SpillFile::poll_next] *)
Definition poll_file (f : nat) (reader : option nat) (open_ok read_ok : bool) (s : pool) : option pool :=
  x ← store s !! f;
  let wait := set_reader (Some (f, reader)) Parking (set_file f (set_file_waker true) s) in
  Some (if decide (default 0 reader < batches_written x) then
          match reader with
          | Some k => read_next f k read_ok x s
          | None =>
              if file x then
                let s := set_file f take_file s in
                if open_ok then read_next f 0 read_ok x s else emit ReadError (set_reader (Some (f, None)) Polled s)
              else wait
          end
        else if writer_finished x then set_reader (Some (f, reader)) Popping s
        else wait).

(** [SpillPoolReader::poll_next]: one turn of its loop, up to the point where a
    lock is taken again. *)
Definition poll_next (open_ok read_ok : bool) (s : pool) : option pool :=
  match current_file s with
  | Some (f, reader) => poll_file f reader open_ok read_ok s
  | None =>
      Some (match files (shared s) with
            | f :: _ => set_reader (Some (f, None)) Polled s
            | [] => if writer_dropped (shared s) then emit EndOfStream (set_reader None Polled s)
                    else set_reader None Suspended (set_shared (set_pool_waker true) s)
            end)
  end.

Definition pop_file (f : nat) (reader : option nat) (s : pool) : option pool :=
  x ← store s !! f;
  Some (if writer_finished x
        then set_reader None Polled (set_shared (λ sh, set_files (tail (files sh)) sh) s)
        else emit EndOfStream (set_reader (Some (f, reader)) Polled s)).

(** ** Interleavings *)

Inductive event :=
| Push (i : nat) (b : B)
| CreateFile (i : nat) (ok : bool)
| WriteBatch (i : nat) (r : write_result)
| PutBack (i : nat)
| Clone (i : nat)
| DropWriter (i : nat)
| FinishFile (i : nat)
| MarkDropped (i : nat)
| PollReader (open_ok read_ok : bool)
| PopFile
| Park.

(** What an event does; [None] if it cannot happen.  A suspended reader may be
    polled at any time; doing so consumes its wake. *)
Definition exec (e : event) (s : pool) : option pool :=
  match e with
  | Push i b => match writers s !! i with Some Idle => Some (push_batch i b s) | _ => None end
  | CreateFile i ok =>
      match writers s !! i with
      | Some (Creating b) => Some (if ok then create_file i b s else set_writer i Idle s)
      | _ => None
      end
  | WriteBatch i r => match writers s !! i with Some (Writing b f) => write_batch i b f r s | _ => None end
  | PutBack i => match writers s !! i with Some (PuttingBack f) => Some (put_back i f s) | _ => None end
  | Clone i => match writers s !! i with Some Idle => Some (clone s) | _ => None end
  | DropWriter i => match writers s !! i with Some Idle => drop_writer i s | _ => None end
  | FinishFile i => match writers s !! i with Some (Finishing f) => Some (finish_file i f s) | _ => None end
  | MarkDropped i => match writers s !! i with Some Marking => Some (mark_dropped i s) | _ => None end
  | PollReader open_ok read_ok =>
      match phase s with
      | Polled => poll_next open_ok read_ok s
      | Suspended => poll_next open_ok read_ok (set_woken false s)
      | _ => None
      end
  | PopFile =>
      match phase s, current_file s with Popping, Some (f, reader) => pop_file f reader s | _, _ => None end
  | Park =>
      match phase s with
      | Parking => Some (set_reader (current_file s) Suspended (set_shared (set_pool_waker true) s))
      | _ => None
      end
  end.

Definition run (es : list event) (s : pool) : option pool := foldM (λ s e, exec e s) es s.

(** [channel] *)
Definition channel : pool :=
  {| store := [];
     shared := {| files := []; waker := false; writer_dropped := false; current_write_file := None;
                  active_writer_count := 1 |};
     writers := [Idle]; current_file := None; phase := Polled; woken := false; results := []; pushed := [] |}.

Definition read (s : pool) : list B := omap (λ r, match r with Batch b => Some b | _ => None end) (results s).

Definition busy (p : writer_phase) : bool := match p with Idle | Dropped => false | _ => true end.

(** No writer is inside a call. *)
Definition quiet (s : pool) : bool := forallb (λ p, negb (busy p)) (writers s).

(** Events without I/O errors in which a write starts while no other is under way. *)
Definition calm (s : pool) (e : event) : bool :=
  match e with
  | Push _ _ => quiet s
  | CreateFile _ ok => ok
  | WriteBatch _ r => match r with Written => true | _ => false end
  | PollReader open_ok read_ok => open_ok && read_ok
  | _ => true
  end.

Definition calm_step (s s' : pool) : Prop := ∃ e, calm s e = true ∧ exec e s = Some s'.

(** ** Invariant *)

Definition holds (p : writer_phase) : option nat :=
  match p with Writing _ f | PuttingBack f | Finishing f => Some f | _ => None end.

Definition live (p : writer_phase) : bool :=
  match p with Finishing _ | Marking | Dropped => false | _ => true end.

(** The file that is written: the current file, or the one a writer has taken. *)
Definition active (s : pool) (f : nat) : Prop :=
  current_write_file (shared s) = Some f ∨ ∃ i p, writers s !! i = Some p ∧ holds p = Some f.

Definition contents_of (s : pool) (f : nat) : list B :=
  match store s !! f with Some x => contents x | None => [] end.

Definition position (s : pool) : nat :=
  match current_file s with Some (_, reader) => default 0 reader | None => 0 end.

(** The batches in the queue that the reader has not returned. *)
Definition unread (s : pool) : list B := drop (position s) (files (shared s) ≫= contents_of s).

Record writers_ok (s : pool) : Prop := {
  ok_exclusive i j p q : writers s !! i = Some p → writers s !! j = Some q →
    busy p = true → busy q = true → i = j;
  ok_current f i p : current_write_file (shared s) = Some f → writers s !! i = Some p → busy p = false;
  ok_count : active_writer_count (shared s) = length (filter (λ p, live p = true) (writers s));
  ok_dropped i p : writer_dropped (shared s) = true → writers s !! i = Some p → p = Dropped;
  ok_closed f : current_write_file (shared s) = Some f → active_writer_count (shared s) ≠ 0;
  ok_last i p q : writers s !! i = Some p → busy p = true → live p = false → q ∈ writers s → live q = false;
}.

Record files_ok (s : pool) : Prop := {
  ok_active f : active s f →
    last (files (shared s)) = Some f ∧
    ∃ x, store s !! f = Some x ∧ writer x = true ∧ writer_finished x = false;
  ok_files f : f ∈ files (shared s) →
    ∃ x, store s !! f = Some x ∧ (writer_finished x = false → active s f);
  ok_nodup : NoDup (files (shared s));
  ok_written f x : store s !! f = Some x → batches_written x = length (contents x);
}.

(** A reader that waits has caught up and left its waker. *)
Definition waiting (s : pool) : Prop :=
  match current_file s with
  | Some (f, reader) =>
      ∃ x, store s !! f = Some x ∧ file_waker x = true ∧ default 0 reader = batches_written x ∧
           writer_finished x = false
  | None => files (shared s) = [] ∧ waker (shared s) = true ∧ writer_dropped (shared s) = false ∧ phase s = Suspended
  end.

Record reader_ok (s : pool) : Prop := {
  ok_head f reader : current_file s = Some (f, reader) → head (files (shared s)) = Some f;
  ok_position f reader x : current_file s = Some (f, reader) → store s !! f = Some x →
    default 0 reader ≤ length (contents x);
  ok_unopened f x : f ∈ files (shared s) → store s !! f = Some x →
    (∀ k, current_file s ≠ Some (f, Some k)) → file x = true;
  ok_popping : phase s = Popping → ∃ f reader x, current_file s = Some (f, reader) ∧ store s !! f = Some x ∧
    writer_finished x = true ∧ default 0 reader = length (contents x);
  ok_waiting : phase s = Parking ∨ phase s = Suspended → woken s = true ∨ waiting s;
}.

Record ok (s : pool) : Prop := {
  ok_writers : writers_ok s;
  ok_queue : files_ok s;
  ok_reader : reader_ok s;
  ok_data : pushed s = read s ++ unread s;
}.

(** ** Preservation *)

Lemma head_last_single f (l : list nat) : NoDup l → head l = Some f → last l = Some f → l = [f].
Proof.
  destruct l as [|x [|y l]]; [done|cbn; congruence|]. intros Hnd [= ->] Hl. exfalso.
  apply NoDup_cons in Hnd as [Hn _]. apply Hn. rewrite last_cons_cons in Hl. apply last_Some in Hl as [l' Hl].
  rewrite Hl. apply elem_of_app. right. apply list_elem_of_singleton. done.
Qed.

(** What the parts of the invariant look at. *)
Lemma files_ok_ext s s' :
  store s' = store s → files (shared s') = files (shared s) → (∀ f, active s' f ↔ active s f) →
  files_ok s → files_ok s'.
Proof.
  intros Hst Hf Ha [H1 H2 H3 H4]. constructor; rewrite ?Hst, ?Hf; [..|done|done].
  - intros f Hact. by apply H1, Ha.
  - intros f Hin. destruct (H2 f Hin) as (x & ? & Hx). exists x. split; [done|]. intros Hfin. by apply Ha, Hx.
Qed.

Lemma reader_ok_ext s s' :
  store s' = store s → files (shared s') = files (shared s) → waker (shared s') = waker (shared s) →
  writer_dropped (shared s') = writer_dropped (shared s) →
  current_file s' = current_file s → phase s' = phase s → woken s' = woken s →
  reader_ok s → reader_ok s'.
Proof.
  intros Hst Hf Hw Hd Hc Hp Hk [H1 H2 H3 H4 H5].
  constructor; unfold waiting; rewrite ?Hst, ?Hf, ?Hw, ?Hd, ?Hc, ?Hp, ?Hk; done.
Qed.

Lemma data_ext s s' :
  store s' = store s → files (shared s') = files (shared s) → current_file s' = current_file s →
  results s' = results s → pushed s' = pushed s →
  pushed s = read s ++ unread s → pushed s' = read s' ++ unread s'.
Proof.
  intros Hst Hf Hc Hr Hp H. unfold read, unread, position. rewrite Hp, Hr, Hc, Hf.
  assert (∀ l, l ≫= contents_of s' = l ≫= contents_of s) as ->; [|exact H].
  intros l. unfold contents_of. by rewrite Hst.
Qed.

(** A step of the writers that leaves files and reader alone. *)
Lemma ok_writer_step s s' :
  store s' = store s → files (shared s') = files (shared s) → waker (shared s') = waker (shared s) →
  writer_dropped (shared s') = writer_dropped (shared s) → current_file s' = current_file s →
  phase s' = phase s → woken s' = woken s → results s' = results s → pushed s' = pushed s →
  (∀ f, active s' f ↔ active s f) → writers_ok s' → ok s → ok s'.
Proof.
  intros. destruct H10 as [? ? ? ?]. constructor; [done|by eapply files_ok_ext|by eapply reader_ok_ext|by eapply data_ext].
Qed.

Lemma lookup_set {A} (l : list A) i p j q :
  <[i := p]> l !! j = Some q → (j = i ∧ q = p) ∨ (j ≠ i ∧ l !! j = Some q).
Proof. intros [(-> & -> & _)|[? ?]]%list_lookup_insert_Some; [by left|by right]. Qed.

Lemma length_filter_set (l : list writer_phase) i p0 p :
  l !! i = Some p0 →
  length (filter (λ p, live p = true) (<[i := p]> l)) + (if live p0 then 1 else 0) =
  length (filter (λ p, live p = true) l) + (if live p then 1 else 0).
Proof.
  revert i. induction l as [|q l IH]; intros [|i] Hi; cbn in Hi; [done..| |].
  - injection Hi as ->. cbn [insert list_insert]. rewrite !filter_cons.
    destruct (live p0), (live p); repeat case_decide; try done; cbn [length]; lia.
  - change (<[S i := p]> (q :: l)) with (q :: <[i := p]> l). rewrite !filter_cons. specialize (IH i Hi).
    destruct (live q); [rewrite !decide_True by done|rewrite !decide_False by done]; cbn [length]; lia.
Qed.

Lemma none_live (l : list writer_phase) p :
  length (filter (λ p, live p = true) l) = 0 → p ∈ l → live p = false.
Proof.
  intros H%nil_length_inv Hp. destruct (live p) eqn:E; [|done].
  assert (Hf : p ∈ filter (λ p, live p = true) l) by by apply list_elem_of_filter. rewrite H in Hf. by apply elem_of_nil in Hf.
Qed.

Lemma quiet_lookup s i p : quiet s = true → writers s !! i = Some p → busy p = false.
Proof.
  unfold quiet. rewrite forallb_Forall. intros H Hi. eapply Forall_lookup_1 in H; [|done]. cbn in H. by destruct (busy p).
Qed.

Abbreviation count s := (active_writer_count (shared s)).
Abbreviation current s := (current_write_file (shared s)).

(** A writer moves to another phase. *)
Lemma writers_ok_set s s' i p0 p :
  writers_ok s → writers s !! i = Some p0 → p0 ≠ Dropped → writers s' = <[i := p]> (writers s) →
  (busy p = true → busy p0 = true ∨ quiet s = true) →
  (∀ f, current s' = Some f → busy p = false ∧ count s' ≠ 0 ∧ (current s = Some f ∨ busy p0 = true)) →
  count s' + (if live p0 then 1 else 0) = count s + (if live p then 1 else 0) →
  (writer_dropped (shared s') = true → p = Dropped ∧ (writer_dropped (shared s) = true ∨ count s' = 0)) →
  (busy p = true → live p = false → count s' = 0) →
  writers_ok s'.
Proof.
  intros [Hex Hcur Hcnt Hdrop Hcl Hlast] Hi Hp0 Hw Hbusy Hc Hn Hd Hl.
  assert (Hcnt' : count s' = length (filter (λ p, live p = true) (writers s'))).
  { pose proof (length_filter_set _ _ _ p Hi). rewrite Hw. lia. }
  assert (Hidle : ∀ j q, busy p0 = true → j ≠ i → writers s !! j = Some q → busy q = false).
  { intros j q Hb Hj Hq. destruct (busy q) eqn:E; [|done]. destruct Hj. by eapply Hex. }
  constructor; [..|done| | |].
  - rewrite Hw. intros j k q r [[-> ->]|[Hj Hq]]%lookup_set [[-> ->]|[Hk Hr]]%lookup_set Bq Br; [done|..|by eapply Hex].
    + destruct (Hbusy Bq) as [Hb|Hb]; [by rewrite (Hidle _ _ Hb Hk Hr) in Br|by rewrite (quiet_lookup _ _ _ Hb Hr) in Br].
    + destruct (Hbusy Br) as [Hb|Hb]; [by rewrite (Hidle _ _ Hb Hj Hq) in Bq|by rewrite (quiet_lookup _ _ _ Hb Hq) in Bq].
  - intros f j q Hf. rewrite Hw. intros [[-> ->]|[Hj Hq]]%lookup_set; [by apply (Hc f)|].
    destruct (Hc f Hf) as (_ & _ & [Hs|Hb]); [by eapply Hcur|by eapply Hidle].
  - intros j q Hs. rewrite Hw. intros [[-> ->]|[Hj Hq]]%lookup_set; [by apply Hd|].
    destruct (Hd Hs) as [-> [Hs'|Hz]]; [by eapply Hdrop|].
    assert (live q = false).
    { eapply none_live; [rewrite <- Hcnt'; exact Hz|]. rewrite Hw. eapply list_elem_of_lookup_2. by rewrite list_lookup_insert_ne. }
    destruct (busy q) eqn:Eq; [|by destruct q]. exfalso. destruct (busy p0) eqn:E0; [by rewrite (Hidle _ _ eq_refl Hj Hq) in Eq|].
    assert (live p0 = false) by (eapply (Hlast j q); [done..|by eapply list_elem_of_lookup_2]).
    by destruct p0.
  - intros f Hf. by apply (Hc f).
  - intros j q r. rewrite Hw. intros [[-> ->]|[Hj Hq]]%lookup_set Bq Lq Hr.
    + eapply none_live; [rewrite <- Hcnt'; by apply Hl|]. by rewrite Hw.
    + assert (live p0 = false) by (eapply (Hlast j q); [done..|by eapply list_elem_of_lookup_2]).
      assert (Hb : busy p0 = true) by by destruct p0. by rewrite (Hidle _ _ Hb Hj Hq) in Bq.
Qed.

Lemma active_set s i p0 f :
  writers s !! i = Some p0 →
  active s f ↔ (current s = Some f ∨ holds p0 = Some f) ∨
               ∃ j q, j ≠ i ∧ writers s !! j = Some q ∧ holds q = Some f.
Proof.
  intros Hi. unfold active. split.
  - intros [?|(j & q & Hj & Hq)]; [by left; left|]. destruct (decide (j = i)) as [->|]; [left; right; congruence|eauto 10].
  - intros [[?|?]|(j & q & _ & ? & ?)]; eauto 10.
Qed.

Lemma active_move s s' i p0 p f :
  writers s !! i = Some p0 → writers s' = <[i := p]> (writers s) →
  (current s' = Some f ∨ holds p = Some f ↔ current s = Some f ∨ holds p0 = Some f) →
  active s' f ↔ active s f.
Proof.
  intros Hi Hw Hf. pose proof (lookup_lt_Some _ _ _ Hi) as Hlt.
  rewrite (active_set s i p0) by done.
  rewrite (active_set s' i p) by (rewrite Hw; by apply list_lookup_insert_eq). rewrite Hf, Hw.
  apply or_iff_compat_l. split; intros (j & q & Hj & Hq & ?); exists j, q; split_and!; try done.
  - by rewrite list_lookup_insert_ne in Hq.
  - by rewrite list_lookup_insert_ne.
Qed.

Lemma spill_push_ok s i b : ok s → quiet s = true → writers s !! i = Some Idle → ok (push_batch i b s).
Proof.
  intros Hok Hq Hi. unfold push_batch. destruct (num_rows b =? 0)%N; [done|].
  destruct (current s) as [f|] eqn:Ec; apply (ok_writer_step s); try done.
  - intros g. eapply active_move; [done..|]. cbn. rewrite Ec. intuition congruence.
  - eapply writers_ok_set; [apply Hok|done..|eauto|done|done| |done].
    intros Hd. by pose proof (ok_dropped _ (ok_writers _ Hok) _ _ Hd Hi).
  - intros g. eapply active_move; [done..|]. cbn. rewrite Ec. intuition congruence.
  - eapply writers_ok_set; [apply Hok|done..|eauto| |done| |done].
    + intros g. cbn. by rewrite Ec.
    + intros Hd. by pose proof (ok_dropped _ (ok_writers _ Hok) _ _ Hd Hi).
Qed.

Lemma put_back_ok s i f : ok s → writers s !! i = Some (PuttingBack f) → ok (put_back i f s).
Proof.
  intros Hok Hi. pose proof (ok_writers _ Hok) as Hw. apply (ok_writer_step s); try done.
  - intros g. eapply active_move; [done..|]. cbn.
    destruct (current s) as [h|] eqn:Ec; [by pose proof (ok_current _ Hw _ _ _ Ec Hi)|intuition congruence].
  - eapply writers_ok_set; [done..| |done| |done].
    + intros g _. split_and!; [done| |by right]. cbn. rewrite (ok_count _ Hw). intros Hz.
      by pose proof (none_live _ _ Hz (list_elem_of_lookup_2 _ _ _ Hi)).
    + intros Hd. by pose proof (ok_dropped _ Hw _ _ Hd Hi).
Qed.

(** What waking the pool does to the reader. *)
Lemma reader_ok_woken s s' :
  store s' = store s → files (shared s') = files (shared s) → current_file s' = current_file s →
  phase s' = phase s → woken s' = woken s || waker (shared s) → reader_ok s → reader_ok s'.
Proof.
  intros Hst Hf Hc Hp Hk [H1 H2 H3 H4 H5].
  constructor; unfold waiting; rewrite ?Hst, ?Hf, ?Hc, ?Hp, ?Hk; [done..|].
  intros [->|Hw]%H5; [by left|]. unfold waiting in Hw. destruct (current_file s) as [[f rd]|]; [by right|].
  destruct Hw as (_ & -> & _). left. by rewrite orb_true_r.
Qed.

Lemma clone_ok s i : ok s → writers s !! i = Some Idle → ok (clone s).
Proof.
  intros Hok Hi. pose proof (ok_writers _ Hok) as Hw.
  assert (Hl : ∀ j q, (writers s ++ [Idle]) !! j = Some q → q = Idle ∨ writers s !! j = Some q).
  { intros j q [Hj|[_ Hj]]%lookup_app_Some; [by right|]. left. by apply list_lookup_singleton_Some in Hj as [_ <-]. }
  apply (ok_writer_step s); try done.
  - intros f. unfold active. cbn. apply or_iff_compat_l. split.
    + intros (j & q & [->|Hq]%Hl & Hh); [done|eauto].
    + intros (j & q & Hq & Hh). exists j, q. split; [by apply lookup_app_l_Some|done].
  - destruct Hw as [H1 H2 H3 H4 H5 H6]. constructor; cbn.
    + intros j k q r [->|Hq]%Hl [->|Hr]%Hl Bq Br; try done. by eapply H1.
    + intros f j q Hf [->|Hq]%Hl; [done|by eapply H2].
    + rewrite filter_app, length_app, H3, (filter_cons_True _ Idle []) by done. cbn [length]. rewrite filter_nil. cbn. lia.
    + intros j q Hd _. by pose proof (H4 _ _ Hd Hi).
    + done.
    + intros j q r [->|Hq]%Hl Bq Lq; [done|].
      by pose proof (H6 _ _ _ Hq Bq Lq (list_elem_of_lookup_2 _ _ _ Hi)).
Qed.

(** The last writer leaves. *)
Lemma dropped_ok s s' i p0 :
  ok s → writers s !! i = Some p0 → p0 ≠ Dropped → holds p0 = None → current s = None →
  count s = (if live p0 then 1 else 0) →
  current s' = None → count s' = 0 → writers s' = <[i := Dropped]> (writers s) → store s' = store s →
  files (shared s') = files (shared s) → current_file s' = current_file s → phase s' = phase s →
  results s' = results s → pushed s' = pushed s → woken s' = woken s || waker (shared s) → ok s'.
Proof.
  intros [Hw Hf Hr Hdata] Hi Hd Hh Hc Hn Hc' Hn' Hw' **. constructor.
  - eapply (writers_ok_set s); [done..| | | |].
    + intros f. by rewrite Hc'.
    + rewrite Hn, Hn'. cbn. lia.
    + split; [done|by right].
    + done.
  - eapply (files_ok_ext s); [done..| |done]. intros f. eapply active_move; [done..|]. cbn. rewrite Hc, Hc', Hh. intuition congruence.
  - by eapply (reader_ok_woken s).
  - by eapply (data_ext s).
Qed.

Lemma drop_writer_ok s s' i : ok s → writers s !! i = Some Idle → drop_writer i s = Some s' → ok s'.
Proof.
  intros Hok Hi. pose proof (ok_writers _ Hok) as Hw. unfold drop_writer, usize_sub. case_decide as Hle; [|done]. cbn.
  intros [= <-]. destruct (decide (count s - 1 = 0)) as [Hz|Hz]; [destruct (current s) as [f|] eqn:Ec|].
  - apply (ok_writer_step s); try done.
    + intros g. eapply active_move; [done..|]. cbn. rewrite Ec. intuition congruence.
    + eapply (writers_ok_set s); [done..| |done| | |done].
      * intros _. right. unfold quiet. rewrite forallb_Forall, Forall_lookup. intros j q Hj.
        by rewrite (ok_current _ Hw _ _ _ Ec Hj).
      * cbn. lia.
      * intros Hd. by pose proof (ok_dropped _ Hw _ _ Hd Hi).
  - apply (dropped_ok s _ i Idle); try done. cbn. lia.
  - apply (ok_writer_step s); try done.
    + intros g. eapply active_move; [done..|]. cbn. intuition congruence.
    + eapply (writers_ok_set s); [done..| | | |done].
      * intros f Hf. split_and!; [done|cbn; lia|by left].
      * cbn. lia.
      * intros Hd. by pose proof (ok_dropped _ Hw _ _ Hd Hi).
Qed.

Lemma closing_count s i p :
  writers_ok s → writers s !! i = Some p → busy p = true → live p = false → count s = 0.
Proof.
  intros Hw Hi Hb Hl. rewrite (ok_count _ Hw). destruct (filter _ _) as [|q l] eqn:E; [done|].
  assert (Hq : q ∈ filter (λ p, live p = true) (writers s)) by (rewrite E; apply list_elem_of_here).
  apply list_elem_of_filter in Hq as [Hq Hin]. by rewrite (ok_last _ Hw _ _ _ Hi Hb Hl Hin) in Hq.
Qed.

Lemma mark_dropped_ok s i : ok s → writers s !! i = Some Marking → ok (mark_dropped i s).
Proof.
  intros Hok Hi. pose proof (ok_writers _ Hok) as Hw.
  pose proof (closing_count _ _ _ Hw Hi eq_refl eq_refl) as Hn.
  assert (Hc : current s = None).
  { destruct (current s) eqn:E; [|done]. by pose proof (ok_current _ Hw _ _ _ E Hi). }
  by apply (dropped_ok s _ i Marking).
Qed.

(** ** Files *)

Lemma file_lt s f : files_ok s → f ∈ files (shared s) → f < length (store s).
Proof. intros Hf Hin. destruct (ok_files _ Hf f Hin) as (x & Hx & _). by eapply lookup_lt_Some. Qed.

Lemma bind_contents_ext (g h : nat → list B) (l : list nat) : (∀ f, f ∈ l → g f = h f) → l ≫= g = l ≫= h.
Proof. intros H. induction l as [|f l IH]; [done|]. cbn. rewrite H, IH; [done|set_solver..]. Qed.

Lemma old_file s f : files_ok s → f ∈ files (shared s) → (store s ++ [new_file]) !! f = store s !! f.
Proof. intros Hf Hin. apply lookup_app_l. by apply file_lt. Qed.

Lemma fresh_file s : (store s ++ [new_file]) !! length (store s) = Some new_file.
Proof. by rewrite lookup_app_r, Nat.sub_diag by lia. Qed.

Lemma reader_file s f reader : reader_ok s → current_file s = Some (f, reader) → f ∈ files (shared s).
Proof. intros Hr Hc. pose proof (ok_head _ Hr _ _ Hc). apply list_elem_of_lookup. exists 0. by rewrite <- head_lookup. Qed.

(** A new file enters the queue and the reader is woken. *)
Lemma reader_ok_new s s' :
  files_ok s → reader_ok s → store s' = store s ++ [new_file] → files (shared s') = files (shared s) ++ [length (store s)] →
  current_file s' = current_file s → phase s' = phase s → woken s' = woken s || waker (shared s) → reader_ok s'.
Proof.
  intros Hf Hr Hst Hfs Hc Hp Hk. pose proof (λ f reader Hc, old_file s f Hf (reader_file s f reader Hr Hc)) as Hold.
  constructor; unfold waiting; rewrite ?Hst, ?Hfs, ?Hc, ?Hp, ?Hk.
  - intros f reader Hcf. pose proof (ok_head _ Hr _ _ Hcf) as Hh. by destruct (files (shared s)).
  - intros f reader x Hcf. rewrite (Hold _ _ Hcf). by apply (ok_position _ Hr).
  - intros f x [Hin| ->%list_elem_of_singleton]%elem_of_app; [|by rewrite fresh_file; intros [= <-]].
    rewrite old_file by done. by apply (ok_unopened _ Hr).
  - intros (f & reader & x & Hcf & Hx)%(ok_popping _ Hr). exists f, reader, x. by rewrite (Hold _ _ Hcf).
  - intros [->|Hw]%(ok_waiting _ Hr); [by left|]. unfold waiting in Hw.
    destruct (current_file s) as [[f reader]|]; [right; by rewrite (Hold _ _ eq_refl)|].
    left. destruct Hw as (_ & -> & _). by rewrite orb_true_r.
Qed.

Lemma data_new s s' :
  files_ok s → store s' = store s ++ [new_file] → files (shared s') = files (shared s) ++ [length (store s)] →
  current_file s' = current_file s → results s' = results s → pushed s' = pushed s →
  pushed s = read s ++ unread s → pushed s' = read s' ++ unread s'.
Proof.
  intros Hf Hst Hfs Hc Hr Hp H. unfold read, unread, position. rewrite Hp, Hr, Hc, Hfs, bind_app, H. unfold read, unread, position.
  do 2 f_equal. rewrite (bind_contents_ext (contents_of s') (contents_of s) (files (shared s))).
  - cbn. unfold contents_of at 3. rewrite Hst, fresh_file. cbn. by rewrite !app_nil_r.
  - intros f Hin. unfold contents_of. by rewrite Hst, old_file.
Qed.

Lemma create_ok s i b : ok s → writers s !! i = Some (Creating b) → ok (create_file i b s).
Proof.
  intros [Hw Hf Hr Hdata] Hi.
  assert (Hc : current s = None).
  { destruct (current s) eqn:E; [|done]. by pose proof (ok_current _ Hw _ _ _ E Hi). }
  assert (Hother : ∀ j q, j ≠ i → writers s !! j = Some q → holds q = None).
  { intros j q Hj Hq. destruct (busy q) eqn:Eq; [|by destruct q]. destruct Hj. by eapply (ok_exclusive _ Hw). }
  assert (Hnone : ∀ f, ¬ active s f).
  { intros f. rewrite (active_set s i _ f Hi), Hc. intros [[?|?]|(j & q & Hj & Hq & Hh)]; [done..|].
    by rewrite (Hother _ _ Hj Hq) in Hh. }
  pose proof (old_file s) as Hold. pose proof (fresh_file s) as Hnew. constructor.
  - eapply (writers_ok_set s); [done..| | |done| |done]; [by left|done|].
    intros Hd. by pose proof (ok_dropped _ Hw _ _ Hd Hi).
  - constructor; cbn.
    + intros f. rewrite (active_set _ i (Writing b (length (store s)))) by (cbn; apply list_lookup_insert_eq; by eapply lookup_lt_Some).
      cbn. intros [[?|[= <-]]|(j & q & Hj & Hq & Hh)]; [done|..].
      * split; [apply last_snoc|by exists new_file].
      * rewrite list_lookup_insert_ne in Hq by done. by rewrite (Hother _ _ Hj Hq) in Hh.
    + intros f [Hin| ->%list_elem_of_singleton]%elem_of_app.
      * destruct (ok_files _ Hf f Hin) as (x & Hx & Ha). exists x. rewrite Hold by done. split; [done|].
        intros Hfin. by destruct (Hnone f (Ha Hfin)).
      * exists new_file. split; [done|]. intros _. right. exists i, (Writing b (length (store s))). split; [|done].
        cbn. apply list_lookup_insert_eq. by eapply lookup_lt_Some.
    + apply NoDup_app. split_and!; [apply Hf| |apply NoDup_singleton].
      intros f Hin ->%list_elem_of_singleton. apply file_lt in Hin; [lia|done].
    + intros f x [Hx|[_ Hx]]%lookup_app_Some; [by eapply (ok_written _ Hf)|].
      by apply list_lookup_singleton_Some in Hx as [_ <-].
  - by apply (reader_ok_new s).
  - by apply (data_new s).
Qed.

(** One file changes from [x] to [y]. *)
Definition changed (s s' : pool) (f : nat) (x y : ActiveSpillFileShared) : Prop :=
  store s !! f = Some x ∧ store s' !! f = Some y ∧ ∀ g, g ≠ f → store s' !! g = store s !! g.

Lemma changed_lookup s s' f x y g z :
  changed s s' f x y → store s' !! g = Some z → (g = f ∧ z = y) ∨ (g ≠ f ∧ store s !! g = Some z).
Proof. intros (_ & Hy & Ho) Hg. destruct (decide (g = f)) as [->|Hne]; [left; split; congruence|right; by rewrite <- Ho]. Qed.

Lemma changed_get s s' f x y g z :
  changed s s' f x y → store s !! g = Some z → ∃ z', store s' !! g = Some z' ∧ (z' = z ∨ (g = f ∧ z = x ∧ z' = y)).
Proof.
  intros (Hx & Hy & Ho) Hg. destruct (decide (g = f)) as [->|Hne]; [exists y; split; [done|right; split_and!; congruence]|].
  exists z. rewrite Ho by done. by split; [|left].
Qed.

Lemma files_ok_changed s s' f x y :
  changed s s' f x y → files (shared s') = files (shared s) → (∀ g, active s' g ↔ active s g) →
  writer y = writer x → writer_finished y = writer_finished x → batches_written y = length (contents y) →
  files_ok s → files_ok s'.
Proof.
  intros Hch Hfs Ha Hwr Hfin Hbw [H1 H2 H3 H4]. constructor; rewrite ?Hfs; [..|done|].
  - intros g (Hl & z & Hz & Hzw & Hzf)%Ha%H1. split; [done|].
    destruct (changed_get _ _ _ _ _ _ _ Hch Hz) as (z' & Hz' & [->|(-> & -> & ->)]); [eauto|].
    exists y. split_and!; congruence.
  - intros g (z & Hz & Hza)%H2.
    destruct (changed_get _ _ _ _ _ _ _ Hch Hz) as (z' & Hz' & [->|(-> & -> & ->)]); eexists; (split; [done|]); rewrite Ha; [done|].
    by rewrite Hfin.
  - intros g z Hz. destruct (changed_lookup _ _ _ _ _ _ _ Hch Hz) as [[-> ->]|[_ Hg]]; [done|by eapply H4].
Qed.

Lemma reader_ok_changed s s' f x y :
  changed s s' f x y → files (shared s') = files (shared s) → waker (shared s') = waker (shared s) →
  writer_dropped (shared s') = writer_dropped (shared s) → current_file s' = current_file s → phase s' = phase s →
  length (contents x) ≤ length (contents y) → file y = file x →
  (writer_finished x = true → writer_finished y = true ∧ contents y = contents x) →
  woken s' = woken s || file_waker x → reader_ok s → reader_ok s'.
Proof.
  intros Hch Hfs Hw Hd Hc Hp Hlen Hfile Hfin Hk Hr. constructor; unfold waiting; rewrite ?Hfs, ?Hw, ?Hd, ?Hc, ?Hp, ?Hk.
  - by apply (ok_head _ Hr).
  - intros g reader z Hcf Hz. destruct (changed_lookup _ _ _ _ _ _ _ Hch Hz) as [[-> ->]|[_ Hg]].
    + etrans; [eapply (ok_position _ Hr); [done|apply Hch]|done].
    + by eapply (ok_position _ Hr).
  - intros g z Hin Hz. destruct (changed_lookup _ _ _ _ _ _ _ Hch Hz) as [[-> ->]|[_ Hg]].
    + rewrite Hfile. apply (ok_unopened _ Hr); [done|apply Hch].
    + by apply (ok_unopened _ Hr).
  - intros (g & reader & z & Hcf & Hz & Hzf & Hpos)%(ok_popping _ Hr).
    destruct (changed_get _ _ _ _ _ _ _ Hch Hz) as (z' & Hz' & [->|(-> & -> & ->)]); [eauto 10|].
    destruct (Hfin Hzf) as [? Hco]. exists f, reader, y. split_and!; [done..|]. by rewrite Hco.
  - intros [->|Hwt]%(ok_waiting _ Hr); [by left|]. unfold waiting in Hwt.
    destruct (current_file s) as [[g reader]|]; [|by right].
    destruct Hwt as (z & Hz & Hzw & Hpos & Hzf).
    destruct (changed_get _ _ _ _ _ _ _ Hch Hz) as (z' & Hz' & [->|(-> & -> & ->)]); [right; eauto 10|].
    left. rewrite Hzw. by rewrite orb_true_r.
Qed.

Lemma position_le s : files_ok s → reader_ok s → position s ≤ length (files (shared s) ≫= contents_of s).
Proof.
  intros Hf Hr. unfold position. destruct (current_file s) as [[f reader]|] eqn:Hc; [|lia].
  pose proof (reader_file _ _ _ Hr Hc) as Hin. destruct (ok_files _ Hf f Hin) as (x & Hx & _).
  pose proof (ok_position _ Hr _ _ _ Hc Hx) as Hp. pose proof (ok_head _ Hr _ _ Hc) as Hh.
  destruct (files (shared s)) as [|g l]; [done|]. injection Hh as ->. cbn. rewrite length_app.
  unfold contents_of at 1. rewrite Hx. lia.
Qed.

Lemma data_changed s s' f x y d :
  files_ok s → reader_ok s → last (files (shared s)) = Some f →
  changed s s' f x y → contents y = contents x ++ d → files (shared s') = files (shared s) →
  current_file s' = current_file s → results s' = results s → pushed s' = pushed s ++ d →
  pushed s = read s ++ unread s → pushed s' = read s' ++ unread s'.
Proof.
  intros Hf Hr Hl Hch Hd Hfs Hc Hres Hp H. pose proof (position_le s Hf Hr) as Hpos.
  unfold read, unread, position in *. rewrite Hp, Hres, Hc, Hfs, H, <- app_assoc. f_equal.
  rewrite <- drop_app_le by exact Hpos. f_equal.
  apply last_Some in Hl as [l Hl]. rewrite Hl, !bind_app, <- app_assoc. f_equal.
  - apply bind_contents_ext. intros g Hg. unfold contents_of. destruct Hch as (_ & _ & Ho). rewrite Ho; [done|].
    intros ->. pose proof (ok_nodup _ Hf) as Hnd. rewrite Hl in Hnd. apply NoDup_app in Hnd as (_ & Hdis & _).
    by apply (Hdis f Hg), list_elem_of_singleton.
  - cbn. rewrite !app_nil_r. unfold contents_of. destruct Hch as (-> & -> & _). done.
Qed.

Lemma changed_alter s s' f x (g : ActiveSpillFileShared → ActiveSpillFileShared) :
  store s !! f = Some x → store s' = alter g f (store s) → changed s s' f x (g x).
Proof.
  intros Hx Hst. split_and!; [done| |].
  - by rewrite Hst, list_lookup_alter_eq, Hx.
  - intros h Hh. by rewrite Hst, list_lookup_alter_ne.
Qed.

Lemma held_unique s i p f :
  writers_ok s → writers s !! i = Some p → holds p = Some f →
  current s = None ∧ ∀ j q, j ≠ i → writers s !! j = Some q → holds q = None.
Proof.
  intros Hw Hi Hh. assert (Hb : busy p = true) by by destruct p. split.
  - destruct (current s) eqn:E; [|done]. by rewrite (ok_current _ Hw _ _ _ E Hi) in Hb.
  - intros j q Hj Hq. destruct (busy q) eqn:Eq; [|by destruct q]. destruct Hj. by eapply (ok_exclusive _ Hw).
Qed.

(** The batch is written to the file the writer has taken, and the reader of the
    file is woken. *)
Lemma append_ok s i b f x :
  ok s → writers s !! i = Some (Writing b f) → store s !! f = Some x →
  ok (wake_file f (note_pushed [b] (set_file f (λ _, append b x) s))).
Proof.
  intros [Hw Hf Hr Hdata] Hi Hx. set (s' := wake_file f _).
  assert (Hact : active s f) by (right; by exists i, (Writing b f)).
  destruct (ok_active _ Hf f Hact) as (Hlast & x' & Hx' & Hwr & Hfin). rewrite Hx in Hx'. injection Hx' as <-.
  assert (Hch : changed s s' f x (set_file_waker false (append b x))).
  { split_and!; [done|..]; subst s'; cbn.
    - by rewrite list_lookup_alter_eq, list_lookup_alter_eq, Hx.
    - intros g Hg. by rewrite !list_lookup_alter_ne. }
  assert (Hwk : woken s' = woken s || file_waker x).
  { subst s'. cbn. by rewrite list_lookup_alter_eq, Hx. }
  constructor.
  - destruct Hw. by constructor.
  - eapply (files_ok_changed s); [done..| |done]. cbn. rewrite length_app, (ok_written _ Hf _ _ Hx). cbn. lia.
  - eapply (reader_ok_changed s); [done..| |done|by rewrite Hfin|done|done]. cbn. rewrite length_app. lia.
  - by eapply (data_changed s).
Qed.

(** The writer of a file finishes it and lets it go. *)
Lemma spill_finish_ok s i p0 p f x :
  ok s → writers s !! i = Some p0 → holds p0 = Some f → holds p = None → live p = live p0 → (busy p = true → live p = false) →
  p ≠ Dropped → store s !! f = Some x →
  ok (set_writer i p (wake_file f (set_file f (finish true) s))).
Proof.
  intros [Hw Hf Hr Hdata] Hi Hh Hh' Hl Hb Hp Hx. set (s' := set_writer i p _).
  assert (Hact : active s f) by (right; by exists i, p0).
  destruct (ok_active _ Hf f Hact) as (Hlast & x' & Hx' & Hwr & Hfin). rewrite Hx in Hx'. injection Hx' as <-.
  destruct (held_unique _ _ _ _ Hw Hi Hh) as [Hc Hother]. pose proof (lookup_lt_Some _ _ _ Hi) as Hlt.
  assert (Hch : changed s s' f x (set_file_waker false (finish true x))).
  { split_and!; [done|..]; subst s'; cbn.
    - by rewrite list_lookup_alter_eq, list_lookup_alter_eq, Hx.
    - intros g Hg. by rewrite !list_lookup_alter_ne. }
  constructor.
  - eapply (writers_ok_set s _ i p0 p); try done.
    + by intros ->.
    + intros _. left. by destruct p0.
    + intros g. cbn. by rewrite Hc.
    + cbn. by rewrite Hl.
    + intros Hd. by pose proof (ok_dropped _ Hw _ _ Hd Hi) as ->.
    + intros Hbp Hlp. cbn. eapply closing_count; [done..|by destruct p0|congruence].
  - assert (Hnone : ∀ g, ¬ active s' g).
    { intros g. rewrite (active_set s' i p) by (subst s'; cbn; by apply list_lookup_insert_eq).
      intros [[Hg|Hg]|(j & q & Hj & Hq & Hg)]; [by cbn in Hg; rewrite Hc in Hg|congruence|].
      subst s'. cbn in Hq. rewrite list_lookup_insert_ne in Hq by done. by rewrite (Hother _ _ Hj Hq) in Hg. }
    constructor; cbn; [by intros g ?%Hnone| |apply Hf|].
    + intros g (z & Hz & Hzf)%(ok_files _ Hf).
      destruct (decide (g = f)) as [->|Hg]; [eexists; split; [apply Hch|done]|].
      destruct Hch as (_ & _ & Ho). exists z. rewrite Ho by done. split; [done|]. intros Ha%Hzf. exfalso.
      apply (active_set s i p0 g Hi) in Ha as [[Ha|Ha]|(j & q & Hj & Hq & Ha)]; [congruence..|].
      by rewrite (Hother _ _ Hj Hq) in Ha.
    + intros g z Hz. destruct (changed_lookup _ _ _ _ _ _ _ Hch Hz) as [[-> ->]|[_ Hg]]; [|by eapply (ok_written _ Hf)].
      by apply (ok_written _ Hf _ _ Hx).
  - eapply (reader_ok_changed s); try done.
    cbn. by rewrite list_lookup_alter_eq, Hx.
  - eapply (data_changed s _ f x _ []); try done; cbn; by rewrite app_nil_r.
Qed.

Lemma write_ok s s' i b f :
  ok s → writers s !! i = Some (Writing b f) → write_batch i b f Written s = Some s' → ok s'.
Proof.
  intros Hok Hi. unfold write_batch. intros (x & Hx & Hs')%bind_Some. cbn in Hs'.
  assert (Hact : active s f) by (right; by exists i, (Writing b f)).
  destruct (ok_active _ (ok_queue _ Hok) f Hact) as (_ & x' & Hx' & Hwr & _). rewrite Hx in Hx'. injection Hx' as <-.
  rewrite Hwr in Hs'. cbn [writer append] in Hs'. rewrite Hwr in Hs'.
  pose proof (append_ok _ _ _ _ _ Hok Hi Hx) as Hok1. revert Hs'. set (s1 := wake_file f _) in *.
  assert (Hi1 : writers s1 !! i = Some (Writing b f)) by done.
  assert (is_Some (store s1 !! f)) as [x1 Hx1].
  { subst s1. cbn. by rewrite list_lookup_alter_eq, list_lookup_alter_eq, Hx. }
  destruct (_ <? _)%N; intros [= <-].
  - by apply (spill_finish_ok s1 i (Writing b f) Idle f x1).
  - apply (ok_writer_step s1); try done.
    + intros g. by eapply active_move.
    + eapply (writers_ok_set s1); try done; [apply Hok1|by left|..].
      * intros g Hg. by pose proof (ok_current _ (ok_writers _ Hok1) _ _ _ Hg Hi1).
      * intros Hd. by pose proof (ok_dropped _ (ok_writers _ Hok1) _ _ Hd Hi1).
Qed.

(** ** The reader *)

Lemma head_contents s f reader x k b :
  reader_ok s → current_file s = Some (f, reader) → store s !! f = Some x → contents x !! k = Some b →
  (files (shared s) ≫= contents_of s) !! k = Some b.
Proof.
  intros Hr Hc Hx Hk. pose proof (ok_head _ Hr _ _ Hc) as Hh. destruct (files (shared s)) as [|g l]; [done|].
  injection Hh as ->. cbn. apply lookup_app_l_Some. unfold contents_of. by rewrite Hx.
Qed.

(** The reader returns the next batch of its file. *)
Lemma read_next_ok s s0 f reader x :
  ok s → current_file s = Some (f, reader) → store s !! f = Some x → default 0 reader < batches_written x →
  s0 = (match reader with Some _ => s | None => set_file f take_file s end) →
  ok (read_next f (default 0 reader) true x s0).
Proof.
  intros [Hw Hf Hr Hdata] Hc Hx Hlt Hs0. rewrite (ok_written _ Hf _ _ Hx) in Hlt.
  destruct (lookup_lt_is_Some_2 _ _ Hlt) as [b Hb]. unfold read_next. rewrite Hb. set (s' := emit _ _).
  assert (Hsame : shared s0 = shared s ∧ writers s0 = writers s ∧ results s0 = results s ∧ pushed s0 = pushed s) by (subst s0; by destruct reader).
  destruct Hsame as (Hsh & Hws & Hres & Hpu).
  assert (Hch : ∃ y, changed s s' f x y ∧ writer y = writer x ∧ writer_finished y = writer_finished x ∧
                     contents y = contents x ∧ batches_written y = batches_written x ).
  { subst s' s0. destruct reader as [k|]; [exists x; by split_and!|].
    exists (take_file x). split; [by apply changed_alter|done]. }
  destruct Hch as (y & Hch & Hy1 & Hy2 & Hy3 & Hy4). constructor.
  - destruct Hw. constructor; cbn; rewrite ?Hsh, ?Hws; done.
  - eapply (files_ok_changed s); [done|cbn; by rewrite Hsh| |done..| |done].
    + intros g. unfold active. cbn. by rewrite Hsh, Hws.
    + by rewrite Hy3, Hy4, (ok_written _ Hf _ _ Hx).
  - constructor; cbn; [..|done|by intros [?|?]]; rewrite ?Hsh.
    + intros g rd [= <- <-]. by eapply (ok_head _ Hr).
    + intros g rd z [= <- <-] Hz. destruct (changed_lookup _ _ _ _ _ _ _ Hch Hz) as [[_ ->]|[? _]]; [|done].
      rewrite Hy3. cbn. lia.
    + intros g z Hin Hz Hne. destruct (changed_lookup _ _ _ _ _ _ _ Hch Hz) as [[-> _]|[Hg Hgz]]; [by destruct (Hne (S (default 0 reader)))|].
      apply (ok_unopened _ Hr g); [done..|]. intros k. rewrite Hc. congruence.
  - unfold read, unread, position. cbn [results s' emit set_reader current_file pushed]. rewrite omap_app, Hres, Hpu, Hdata. cbn.
    unfold read, unread, position. rewrite Hc, Hsh, <- app_assoc. f_equal.
    rewrite (bind_contents_ext (contents_of s') (contents_of s)).
    + rewrite (drop_S _ b (default 0 reader)); [done|]. by eapply head_contents.
    + intros g _. unfold contents_of. destruct Hch as (_ & Hy & Ho).
      destruct (decide (g = f)) as [->|Hg]; [by rewrite Hy, Hx|by rewrite Ho].
Qed.

(** The reader moves without looking at data. *)
Lemma ok_reader_step s s' :
  store s' = store s → files (shared s') = files (shared s) → current s' = current s → count s' = count s →
  writer_dropped (shared s') = writer_dropped (shared s) → writers s' = writers s → position s' = position s →
  read s' = read s → pushed s' = pushed s → reader_ok s' → ok s → ok s'.
Proof.
  intros Hst Hfs Hc Hn Hd Hws Hp Hr Hpu Hrd [Hw Hf _ Hdata]. constructor; [|eapply (files_ok_ext s); try done|done|].
  - destruct Hw. constructor; rewrite ?Hc, ?Hn, ?Hd, ?Hws; done.
  - intros f. unfold active. by rewrite Hc, Hws.
  - unfold unread. rewrite Hpu, Hr, Hp, Hfs, Hdata. unfold unread. do 2 f_equal. apply bind_contents_ext.
    intros f _. unfold contents_of. by rewrite Hst.
Qed.

(** The reader leaves its waker with the file it has read up to. *)
Lemma park_file_ok s f reader x :
  ok s → current_file s = Some (f, reader) → store s !! f = Some x →
  default 0 reader = batches_written x → writer_finished x = false →
  ok (set_reader (Some (f, reader)) Parking (set_file f (set_file_waker true) s)).
Proof.
  intros [Hw Hf Hr Hdata] Hc Hx Hpos Hfin. set (s' := set_reader _ _ _).
  assert (Hch : changed s s' f x (set_file_waker true x)) by by apply changed_alter. constructor.
  - destruct Hw. by constructor.
  - eapply (files_ok_changed s); [done..| |done]. cbn. by apply (ok_written _ Hf _ _ Hx).
  - constructor; cbn; [..|done|].
    + intros g rd [= <- <-]. by eapply (ok_head _ Hr).
    + intros g rd z [= <- <-] Hz. destruct (changed_lookup _ _ _ _ _ _ _ Hch Hz) as [[_ ->]|[? _]]; [|done].
      cbn. by eapply (ok_position _ Hr).
    + intros g z Hin Hz Hne. destruct (changed_lookup _ _ _ _ _ _ _ Hch Hz) as [[-> ->]|[_ Hg]].
      * cbn. apply (ok_unopened _ Hr f); [done..|]. intros k. by rewrite Hc.
      * apply (ok_unopened _ Hr g); [done..|]. intros k. by rewrite Hc.
    + intros _. right. unfold waiting. cbn. exists (set_file_waker true x). destruct Hch as (_ & Hy & _). by split_and!.
  - change (pushed s = read s ++ unread s'). rewrite Hdata. f_equal. unfold unread, position. rewrite Hc.
    change (current_file s') with (Some (f, reader)). f_equal. apply bind_contents_ext. intros g _. unfold contents_of.
    destruct Hch as (_ & Hy & Ho). destruct (decide (g = f)) as [->|Hg]; [by rewrite Hy, Hx|by rewrite Ho].
Qed.

Lemma poll_file_ok s s' f reader :
  ok s → phase s = Polled → current_file s = Some (f, reader) → poll_file f reader true true s = Some s' → ok s'.
Proof.
  intros Hok Hp Hc. unfold poll_file. intros (x & Hx & Hs')%bind_Some. injection Hs' as <-.
  pose proof (ok_queue _ Hok) as Hf. pose proof (ok_reader _ Hok) as Hr.
  case_decide as Hlt.
  - destruct reader as [k|]; [by eapply (read_next_ok s s f (Some k))|].
    rewrite (ok_unopened _ Hr f x); [|by eapply reader_file|done|intros k; by rewrite Hc].
    by eapply (read_next_ok s _ f None).
  - assert (Hpos : default 0 reader = batches_written x).
    { pose proof (ok_position _ Hr _ _ _ Hc Hx) as Hle. rewrite (ok_written _ Hf _ _ Hx) in *. lia. }
    destruct (writer_finished x) eqn:Hfin; [|by apply (park_file_ok s f reader x)].
    apply (ok_reader_step s); try done; [unfold position; cbn; by rewrite Hc|].
    destruct Hr as [H1 H2 H3 H4 H5]. constructor; cbn; [intros g rd [= <- <-]; by eapply H1|intros g rd z [= <- <-]; by eapply H2|..].
    + intros g z Hin Hz Hne. apply (H3 g); [done..|]. intros k. rewrite Hc. apply Hne.
    + intros _. exists f, reader, x. rewrite (ok_written _ Hf _ _ Hx) in Hpos. done.
    + by intros [?|?].
Qed.

Lemma poll_ok s s' : ok s → phase s = Polled → poll_next true true s = Some s' → ok s'.
Proof.
  intros Hok Hp. unfold poll_next. destruct (current_file s) as [[f reader]|] eqn:Hc; [by apply poll_file_ok|].
  pose proof (ok_reader _ Hok) as [H1 H2 H3 H4 H5].
  destruct (files (shared s)) as [|f l] eqn:Hfs; [destruct (writer_dropped (shared s)) eqn:Hd|]; intros [= <-];
    apply (ok_reader_step s); try done; try (unfold position; cbn; by rewrite Hc).
  - unfold read. cbn. rewrite omap_app. cbn. by rewrite app_nil_r.
  - constructor; cbn; try done; [intros g z Hin; by rewrite Hfs in Hin; apply elem_of_nil in Hin|by intros [?|?]].
  - constructor; cbn; try done; [intros g z Hin; by rewrite Hfs in Hin; apply elem_of_nil in Hin|].
    intros _. right. by split_and!.
  - constructor; cbn; try done; [..|by intros [?|?]].
    + intros g rd [= <- <-]. by rewrite Hfs.
    + intros g rd z [= <- <-] Hz. cbn. lia.
    + intros g z Hin Hz Hne. apply (H3 g); [by rewrite <- Hfs|done|]. intros k. by rewrite Hc.
Qed.

(** The reader lets go of a finished file it has read to the end. *)
Lemma pop_ok s s' f reader :
  ok s → phase s = Popping → current_file s = Some (f, reader) → pop_file f reader s = Some s' → ok s'.
Proof.
  intros [Hw Hf Hr Hdata] Hp Hc. unfold pop_file.
  destruct (ok_popping _ Hr Hp) as (g & rd & x & Hc' & Hx & Hfin & Hpos). rewrite Hc in Hc'. injection Hc' as <- <-.
  rewrite Hx. cbn. rewrite Hfin. intros [= <-]. pose proof (ok_head _ Hr _ _ Hc) as Hh.
  destruct (files (shared s)) as [|g l] eqn:Hfs; [done|]. injection Hh as ->.
  pose proof (ok_nodup _ Hf) as Hnd. rewrite Hfs in Hnd. apply NoDup_cons in Hnd as [Hn Hnd].
  constructor.
  - destruct Hw. by constructor.
  - destruct Hf as [H1 H2 _ H4]. constructor; cbn; rewrite ?Hfs; [..|done|done].
    + intros g Ha. destruct (H1 g Ha) as (Hl & y & Hy & ? & ?). split; [|eauto]. rewrite Hfs in Hl.
      destruct l as [|h l]; [|by rewrite last_cons_cons in Hl]. cbn in Hl. injection Hl as <-. congruence.
    + intros g Hin. apply H2. rewrite Hfs. by right.
  - constructor; cbn; try done; [|by intros [?|?]]. rewrite Hfs. intros g z Hin Hz _. apply (ok_unopened _ Hr g); [|done|].
    + rewrite Hfs. by right.
    + intros k. rewrite Hc. intros [= -> _]. done.
  - change (pushed s = read s ++ unread (set_shared (λ sh, set_files (tail (files sh)) sh) (set_reader None Polled s))).
    rewrite Hdata. f_equal. unfold unread, position. rewrite Hc. cbn. rewrite Hfs. cbn.
    unfold contents_of at 1. rewrite Hx, Hpos, drop_app_length. done.
Qed.

Lemma park_ok s :
  ok s → phase s = Parking → ok (set_reader (current_file s) Suspended (set_shared (set_pool_waker true) s)).
Proof.
  intros Hok Hp. apply (ok_reader_step s); try done. destruct (ok_reader _ Hok) as [H1 H2 H3 H4 H5]. constructor; try done.
  intros _. destruct (H5 (or_introl Hp)) as [?|Hw]; [by left|]. right. unfold waiting in *. cbn.
  destruct (current_file s) as [[f reader]|]; [done|]. destruct Hw as (_ & _ & _ & Hs). by rewrite Hp in Hs.
Qed.

Lemma poll_phase o r ph s : poll_next o r (set_reader (current_file s) ph s) = poll_next o r s.
Proof.
  unfold poll_next. cbn. destruct (current_file s) as [[f [k|]]|]; cbn; [..|by destruct (files (shared s)), (writer_dropped (shared s))].
  all: unfold poll_file, read_next; cbn; destruct (store s !! f) as [x|]; [|done]; cbn; case_decide; [|by destruct (writer_finished x)].
  - by destruct r, (contents x !! k).
  - by destruct (file x), o, r, (contents x !! 0).
Qed.

Lemma resume_ok s : ok s → ok (set_reader (current_file s) Polled (set_woken false s)).
Proof.
  intros Hok. apply (ok_reader_step s); try done. destruct (ok_reader _ Hok) as [H1 H2 H3 H4 H5].
  constructor; cbn; try done. by intros [?|?].
Qed.

Lemma spill_exec_ok s e s' : calm s e = true → ok s → exec e s = Some s' → ok s'.
Proof.
  intros Hcalm Hok. destruct e as [i b|i []|i []|i|i|i|i|i|[] []| |]; try done; cbn [exec].
  - destruct (writers s !! i) as [[]|] eqn:Hi; try done. intros [= <-]. by apply spill_push_ok.
  - destruct (writers s !! i) as [[]|] eqn:Hi; try done. intros [= <-]. by apply create_ok.
  - destruct (writers s !! i) as [[]|] eqn:Hi; try done. by apply write_ok.
  - destruct (writers s !! i) as [[]|] eqn:Hi; try done. intros [= <-]. by apply put_back_ok.
  - destruct (writers s !! i) as [[]|] eqn:Hi; try done. intros [= <-]. by eapply clone_ok.
  - destruct (writers s !! i) as [[]|] eqn:Hi; try done. by apply drop_writer_ok.
  - destruct (writers s !! i) as [[]|] eqn:Hi; try done. intros [= <-].
    destruct (ok_active _ (ok_queue _ Hok) f) as (_ & x & Hx & _); [right; by exists i, (Finishing f)|].
    by apply (spill_finish_ok s i (Finishing f) Marking f x).
  - destruct (writers s !! i) as [[]|] eqn:Hi; try done. intros [= <-]. by apply mark_dropped_ok.
  - destruct (phase s) eqn:Hp; try done; [by apply poll_ok|].
    rewrite <- (poll_phase _ _ Polled). apply poll_ok; [by apply (resume_ok s)|done].
  - destruct (phase s) eqn:Hp; try done. destruct (current_file s) as [[f reader]|] eqn:Hc; [|done]. by apply pop_ok.
  - destruct (phase s) eqn:Hp; try done. intros [= <-]. by apply park_ok.
Qed.

Lemma channel_ok : ok channel.
Proof.
  constructor; [constructor|constructor|constructor|]; cbn; try done.
  - intros i j p q [-> <-]%list_lookup_singleton_Some. done.
  - intros i p q [-> <-]%list_lookup_singleton_Some. done.
  - intros f [?|(i & p & [-> <-]%list_lookup_singleton_Some & ?)]; done.
  - intros f Hin. by apply elem_of_nil in Hin.
  - apply NoDup_nil_2.
  - by intros [?|?].
Qed.

Lemma calm_ok s : rtc calm_step channel s → ok s.
Proof.
  intros Hs. assert (Hi : ok channel) by apply channel_ok. revert Hi.
  induction Hs as [|s1 s2 s3 (e & He & H12) _ IH]; [done|]. intros Hok. apply IH. by eapply spill_exec_ok.
Qed.

(** ** What the reader gets *)

Definition reader_event (e : event) : bool :=
  match e with PollReader open_ok read_ok => open_ok && read_ok | PopFile | Park => true | _ => false end.

Definition weight (s : pool) : nat :=
  2 * (length (pushed s) - length (read s)) + 3 * length (files (shared s)) + (match current_file s with None => 1 | Some _ => 0 end) +
  match phase s with Parking => 3 | Suspended => 2 | Polled => 1 | Popping => 0 end.

Lemma unread_head s f reader x :
  ok s → current_file s = Some (f, reader) → store s !! f = Some x → default 0 reader = batches_written x →
  unread s ≠ [] → writer_finished x = true.
Proof.
  intros Hok Hc Hx Hpos Hne. destruct (writer_finished x) eqn:Hfin; [done|]. destruct Hne.
  pose proof (ok_queue _ Hok) as Hf. pose proof (ok_reader _ Hok) as Hr.
  destruct (ok_files _ Hf f (reader_file _ _ _ Hr Hc)) as (y & Hy & Ha). rewrite Hx in Hy. injection Hy as <-.
  pose proof (head_last_single f _ (ok_nodup _ Hf) (ok_head _ Hr _ _ Hc) (proj1 (ok_active _ Hf f (Ha Hfin)))) as Hfs.
  unfold unread, position. rewrite Hc, Hfs. cbn. unfold contents_of. rewrite Hx, app_nil_r, Hpos, (ok_written _ Hf _ _ Hx).
  apply drop_ge. lia.
Qed.

Lemma unread_length s : ok s → unread s ≠ [] → length (read s) < length (pushed s).
Proof. intros Hok Hne. rewrite (ok_data _ Hok), length_app. destruct (unread s); [done|]. cbn. lia. Qed.

Lemma closed_inactive s f : writers_ok s → writer_dropped (shared s) = true → ¬ active s f.
Proof.
  intros Hw Hd [Hc|(i & p & Hi & Hh)]; [|by rewrite (ok_dropped _ Hw _ _ Hd Hi) in Hh].
  destruct (ok_closed _ Hw _ Hc). rewrite (ok_count _ Hw). destruct (filter _ _) as [|p l] eqn:E; [done|].
  assert (Hp : p ∈ filter (λ p, live p = true) (writers s)) by (rewrite E; apply list_elem_of_here).
  apply list_elem_of_filter in Hp as [Hl [i Hi]%list_elem_of_lookup]. by rewrite (ok_dropped _ Hw _ _ Hd Hi) in Hl.
Qed.

(** The reader has batches to read, or files to let go of before it sees the end. *)
Definition pending (s : pool) : Prop :=
  unread s ≠ [] ∨ writer_dropped (shared s) = true ∧ (files (shared s) ≠ [] ∨ current_file s ≠ None).

Lemma pending_head s f reader x :
  ok s → pending s → current_file s = Some (f, reader) → store s !! f = Some x → default 0 reader = batches_written x →
  writer_finished x = true.
Proof.
  intros Hok [Hne|[Hd _]] Hc Hx Hpos; [by eapply unread_head|]. destruct (writer_finished x) eqn:Hfin; [done|].
  destruct (ok_files _ (ok_queue _ Hok) f (reader_file _ _ _ (ok_reader _ Hok) Hc)) as (y & Hy & Ha).
  rewrite Hx in Hy. injection Hy as <-. by destruct (closed_inactive s f (ok_writers _ Hok) Hd (Ha Hfin)).
Qed.

(** What a step of the reader leaves alone. *)
Definition same_pool (s s' : pool) : Prop :=
  pushed s' = pushed s ∧ writer_dropped (shared s') = writer_dropped (shared s).

Lemma spill_poll_progress s :
  ok s → phase s = Polled → pending s →
  ∃ s', poll_next true true s = Some s' ∧ same_pool s s' ∧ weight s' < weight s.
Proof.
  intros Hok Hp Hne. pose proof (ok_queue _ Hok) as Hf. pose proof (ok_reader _ Hok) as Hr.
  unfold poll_next. destruct (current_file s) as [[f reader]|] eqn:Hc.
  - unfold poll_file. destruct (ok_files _ Hf f (reader_file _ _ _ Hr Hc)) as (x & Hx & _). rewrite Hx. cbn [mbind option_bind].
    eexists. split; [done|]. pose proof (ok_position _ Hr _ _ _ Hc Hx) as Hpos. rewrite (ok_written _ Hf _ _ Hx).
    case_decide as Hlt.
    + destruct (lookup_lt_is_Some_2 _ _ Hlt) as [b Hb].
      assert (length (read s) < length (pushed s)) as Hlen.
      { apply unread_length; [done|]. unfold unread, position. rewrite Hc.
        rewrite (drop_S _ b (default 0 reader)); [done|]. by eapply head_contents. }
      assert (Hread : ∀ s0, shared s0 = shared s → results s0 = results s → pushed s0 = pushed s →
        same_pool s (read_next f (default 0 reader) true x s0) ∧
        weight (read_next f (default 0 reader) true x s0) < weight s).
      { intros s0 Hsh Hres Hpu. unfold read_next, same_pool. rewrite Hb. cbn [shared pushed emit set_reader]. rewrite Hsh, Hpu.
        split; [done|]. unfold weight, read in *. cbn. rewrite Hp, Hc, Hsh, Hres, Hpu, omap_app, length_app. cbn. lia. }
      destruct reader as [k|]; [by apply Hread|].
      rewrite (ok_unopened _ Hr f x); [by apply Hread|by eapply reader_file|done|intros k; by rewrite Hc].
    + rewrite (pending_head s f reader x); try done; [|rewrite (ok_written _ Hf _ _ Hx); lia].
      split; [done|]. unfold weight, read. cbn. rewrite Hp, Hc. lia.
  - destruct (files (shared s)) as [|f l] eqn:Hfs.
    { destruct Hne as [Hne|[_ [Hne|Hne]]]; [|congruence..]. destruct Hne. unfold unread. rewrite Hfs. by destruct (position s). }
    eexists. split_and!; [done..|]. unfold weight, read. cbn. rewrite Hp, Hc. lia.
Qed.

(** The reader can go on and gets closer to what is pending. *)
Lemma reader_progress s :
  ok s → pending s →
  ∃ e s', reader_event e = true ∧ exec e s = Some s' ∧ same_pool s s' ∧ weight s' < weight s.
Proof.
  intros Hok Hne. pose proof (ok_reader _ Hok) as Hr. destruct (phase s) eqn:Hp.
  - exists (PollReader true true). cbn [exec]. rewrite Hp. destruct (spill_poll_progress s Hok Hp Hne) as (s' & ? & ? & ?). eauto 10.
  - exists PopFile. cbn [exec]. rewrite Hp. destruct (ok_popping _ Hr Hp) as (f & reader & x & Hc & Hx & Hfin & Hpos).
    rewrite Hc. unfold pop_file. rewrite Hx. cbn. rewrite Hfin. eexists. split_and!; [done..|].
    pose proof (ok_head _ Hr _ _ Hc) as Hh. unfold weight, read. cbn. rewrite Hp, Hc.
    destruct (files (shared s)); [done|]. cbn. lia.
  - exists Park. cbn [exec]. rewrite Hp. eexists. split_and!; [done..|]. unfold weight, read. cbn. rewrite Hp. lia.
  - exists (PollReader true true). cbn [exec]. rewrite Hp, <- (poll_phase _ _ Polled).
    destruct (spill_poll_progress (set_reader (current_file (set_woken false s)) Polled (set_woken false s))) as (s' & H1 & H2 & H3); [by apply (resume_ok s)|done..|].
    exists s'. split_and!; [done|done|exact H2|]. etrans; [done|]. unfold weight, read. cbn. rewrite Hp. lia.
Qed.

Lemma pending_dec s : pending s ∨ unread s = [] ∧ (writer_dropped (shared s) = true → files (shared s) = [] ∧ current_file s = None).
Proof.
  unfold pending. destruct (unread s); [|by left; left]. destruct (writer_dropped (shared s)); [|by right].
  destruct (files (shared s)); [|left; right; auto]. destruct (current_file s); [left; right; auto|by right].
Qed.

(** With nothing pending in a pool that is closed, the reader sees the end. *)
Lemma reader_ends s :
  ok s → writer_dropped (shared s) = true → files (shared s) = [] → current_file s = None →
  ∃ es s', forallb reader_event es = true ∧ run es s = Some s' ∧ read s' = read s ∧ last (results s') = Some EndOfStream.
Proof.
  intros Hok Hd Hfs Hc. destruct (phase s) eqn:Hp.
  2: { destruct (ok_popping _ (ok_reader _ Hok) Hp) as (f & reader & x & Hc' & _). congruence. }
  1,3: exists [PollReader true true].
  3: exists [Park; PollReader true true].
  all: cbn; rewrite Hp; cbn; unfold poll_next; cbn; rewrite Hc; cbn; rewrite Hfs, Hd; cbn; eexists; (split; [done|]);
    (split; [done|]); unfold read; cbn; rewrite omap_app, last_snoc; cbn; by rewrite app_nil_r.
Qed.

Lemma reader_drains s :
  ok s → ∃ es s', forallb reader_event es = true ∧ run es s = Some s' ∧ read s' = pushed s ∧
    (writer_dropped (shared s) = true → last (results s') = Some EndOfStream).
Proof.
  remember (weight s) as n eqn:Hn. revert s Hn. induction n as [n IH] using lt_wf_ind. intros s -> Hok.
  destruct (pending_dec s) as [Hne|[Hu Hend]].
  - destruct (reader_progress s Hok Hne) as (e & s1 & He & Hex & [Hpu Hd] & Hw).
    destruct (IH _ Hw s1 eq_refl) as (es & s' & Hes & Hrun & Hread).
    { eapply spill_exec_ok; [|done..]. by destruct e. }
    exists (e :: es), s'. cbn. rewrite He, Hes, Hex. rewrite Hpu, Hd in Hread. done.
  - assert (read s = pushed s) as Hall by by rewrite (ok_data _ Hok), Hu, app_nil_r.
    destruct (writer_dropped (shared s)) eqn:Hd; [|exists [], s; by split_and!].
    destruct (Hend eq_refl) as [Hfs Hc]. destruct (reader_ends s Hok Hd Hfs Hc) as (es & s' & ? & ? & Hr & ?).
    exists es, s'. rewrite Hr. by split_and!.
Qed.

(** *** The end of the stream *)

(** Batches, and after them only ends, which are seen once the writers are gone and all is read. *)
Definition results_ok (s : pool) : Prop :=
  ∃ ends, results s = (Batch <$> read s) ++ replicate ends EndOfStream ∧
    (ends ≠ 0 → writer_dropped (shared s) = true ∧ read s = pushed s).

Lemma read_same s s' : results s' = results s → read s' = read s.
Proof. unfold read. by intros ->. Qed.

Lemma read_emit s s' r :
  results s' = results s ++ [r] → read s' = read s ++ match r with Batch b => [b] | _ => [] end.
Proof. unfold read. intros ->. rewrite omap_app. by destruct r. Qed.

(** What a poll returns. *)
Lemma poll_results s s' :
  ok s → poll_next true true s = Some s' → same_pool s s' ∧
  (results s' = results s ∨ (∃ b, results s' = results s ++ [Batch b]) ∨
   results s' = results s ++ [EndOfStream] ∧ writer_dropped (shared s) = true ∧ files (shared s) = []).
Proof.
  intros Hok. unfold poll_next. destruct (current_file s) as [[f reader]|] eqn:Hc.
  - unfold poll_file. intros (x & Hx & [= <-])%bind_Some. pose proof (ok_written _ (ok_queue _ Hok) _ _ Hx) as Hlen.
    case_decide as Hlt; [|by destruct (writer_finished x); (split; [|left])].
    destruct (lookup_lt_is_Some_2 (contents x) (default 0 reader)) as [b Hb]; [by rewrite <- Hlen|].
    destruct reader as [k|]; cbn in Hb; [|destruct (file x); [|by split; [|left]]]; unfold read_next; rewrite Hb;
      (split; [done|]); right; left; by exists b.
  - destruct (files (shared s)) as [|f l]; [destruct (writer_dropped (shared s)) eqn:Hd|]; intros [= <-];
      (split; [done|]); [by right; right|by left..].
Qed.

(** A step of a writer returns nothing, and there is none once the pool is closed. *)
Lemma writer_results s e s' :
  ok s → reader_event e = false → calm s e = true → exec e s = Some s' →
  results s' = results s ∧ writer_dropped (shared s) = false.
Proof.
  intros Hok Hre Hcalm He.
  assert (Hopen : ∀ i p, writers s !! i = Some p → p ≠ Dropped → writer_dropped (shared s) = false).
  { intros i p Hi Hp. destruct (writer_dropped (shared s)) eqn:Hd; [|done]. destruct Hp. by eapply (ok_dropped _ (ok_writers _ Hok)). }
  destruct e as [i b|i o|i r|i|i|i|i|i|o r| |]; cbn in Hre; try done; cbn [exec] in He; try (cbn in Hcalm; congruence).
  all: destruct (writers s !! i) as [p|] eqn:Hi; [|done]; destruct p; try done; (split; [|by eapply Hopen]).
  - injection He as <-. unfold push_batch. by repeat case_match.
  - injection He as <-. by destruct o.
  - unfold write_batch in He. apply bind_Some in He as (x & _ & He). repeat case_match; by simplify_eq.
  - by injection He as <-.
  - by injection He as <-.
  - unfold drop_writer in He. apply bind_Some in He as (c & _ & [= <-]). by repeat case_match.
  - by injection He as <-.
  - by injection He as <-.
Qed.

(** What a step of the reader returns. *)
Lemma reader_results s e s' :
  ok s → reader_event e = true → exec e s = Some s' → same_pool s s' ∧
  (results s' = results s ∨ (∃ b, results s' = results s ++ [Batch b]) ∨
   results s' = results s ++ [EndOfStream] ∧ writer_dropped (shared s) = true ∧ files (shared s) = []).
Proof.
  intros Hok Hre He. destruct e as [| | | | | | | |[] []| |]; try done; cbn [exec] in He.
  - destruct (phase s); try done; [by apply poll_results|]. rewrite <- (poll_phase _ _ Polled) in He.
    exact (poll_results _ _ (resume_ok s Hok) He).
  - destruct (phase s) eqn:Hp; try done. destruct (ok_popping _ (ok_reader _ Hok) Hp) as (f & reader & x & Hc & Hx & Hfin & _).
    rewrite Hc in He. unfold pop_file in He. rewrite Hx in He. cbn in He. rewrite Hfin in He. injection He as <-.
    split; [done|by left].
  - destruct (phase s); try done. injection He as <-. split; [done|by left].
Qed.

Lemma results_exec s e s' :
  calm s e = true → ok s → exec e s = Some s' → results_ok s → results_ok s'.
Proof.
  intros Hcalm Hok He (ends & Hres & Hend). pose proof (spill_exec_ok s e s' Hcalm Hok He) as Hok'.
  destruct (reader_event e) eqn:Hre.
  - destruct (reader_results s e s' Hok Hre He) as [[Hpu Hd] [Hr|[[b Hr]|(Hr & Hdr & Hfs)]]].
    + exists ends. by rewrite Hr, Hpu, Hd, (read_same _ _ Hr).
    + assert (ends = 0) as ->; [|exists 0; by rewrite (read_emit _ _ _ Hr), Hr, Hres, fmap_app, !app_nil_r].
      destruct (decide (ends = 0)) as [|Hne]; [done|]. destruct (Hend Hne) as [_ Hall]. pose proof (ok_data _ Hok') as Hd'.
      rewrite Hpu, (read_emit _ _ _ Hr), Hall in Hd'. apply (f_equal length) in Hd'. rewrite !length_app in Hd'. cbn in Hd'. lia.
    + exists (S ends). rewrite Hr, Hpu, Hd, (read_emit _ _ _ Hr), app_nil_r, Hres, <- (assoc_L (++)), <- replicate_S_end.
      split; [done|]. intros _. split; [done|]. rewrite (ok_data _ Hok). unfold unread. rewrite Hfs.
      by destruct (position s); cbn; rewrite app_nil_r.
  - destruct (writer_results s e s' Hok Hre Hcalm He) as [Hr Hd].
    assert (ends = 0) as ->; [|exists 0; by rewrite Hr, (read_same _ _ Hr)].
    destruct (decide (ends = 0)) as [|Hne]; [done|]. destruct (Hend Hne). congruence.
Qed.

Lemma calm_results s : rtc calm_step channel s → results_ok s.
Proof.
  intros Hs. assert (Hi : ok channel ∧ results_ok channel) by (split; [apply channel_ok|by exists 0]). revert Hi.
  induction Hs as [|s1 s2 s3 (e & He & H12) _ IH]; [by intros []|]. intros [Hok Hres].
  apply IH. split; [by eapply spill_exec_ok|by eapply results_exec].
Qed.

(** A reader that has caught up with a file nobody will finish. *)
Definition stuck (s : pool) : Prop :=
  Forall (λ p, p = Dropped) (writers s) ∧ phase s ≠ Popping ∧
  ∃ f k x, current_file s = Some (f, Some k) ∧ store s !! f = Some x ∧ k = batches_written x ∧ writer_finished x = false.

Lemma stuck_exec s e s' : stuck s → exec e s = Some s' → stuck s' ∧ read s' = read s.
Proof.
  intros (Hw & Hp & f & k & x & Hc & Hx & Hk & Hfin) He.
  assert (Hd : ∀ i p, writers s !! i = Some p → p = Dropped) by (intros i p Hi; by eapply Forall_lookup_1 in Hw).
  destruct e as [i b|i ok|i r|i|i|i|i|i|o r| |]; cbn [exec] in He;
    try (destruct (writers s !! i) as [p|] eqn:Hi; [|done]; by rewrite (Hd i p Hi) in He).
  - assert (Hs' : s' = set_reader (Some (f, Some k)) Parking (set_file f (set_file_waker true)
                        (match phase s with Suspended => set_woken false s | _ => s end))).
    { destruct (phase s); try done; unfold poll_next, poll_file in He; cbn in He; rewrite Hc, Hx in He; cbn in He;
        (rewrite decide_False in He by lia); rewrite Hfin in He; by injection He as <-. }
    subst s'. destruct (phase s) eqn:E; try done; (split; [|done]); (split_and!; [done..|]);
      exists f, k, (set_file_waker true x); cbn; by rewrite list_lookup_alter_eq, Hx.
  - rewrite Hc in He. by destruct (phase s).
  - destruct (phase s); try done. injection He as <-. split; [|done]. split_and!; [done..|]. by exists f, k, x.
Qed.

Lemma stuck_run s es s' : stuck s → run es s = Some s' → read s' = read s.
Proof.
  revert s. induction es as [|e es IH]; intros s Hs; cbn; [by intros [= <-]|].
  intros (s1 & He & Hrun)%bind_Some. destruct (stuck_exec _ _ _ Hs He) as [Hs1 <-]. by apply IH.
Qed.


End Pool.

(** ** Examples *)

Section Examples.

#[local] Abbreviation step := (calm_step (B:=nat) (λ _, 1%N) (λ _, 10%N) 15%N).
#[local] Abbreviation exec_all := (run (B:=nat) (λ _, 1%N) (λ _, 10%N) 15%N).

Lemma run_calm (es : list (event (B:=nat))) s s' :
  foldM (λ s e, if calm s e then exec (λ _, 1%N) (λ _, 10%N) 15%N e s else None) es s = Some s' → rtc step s s'.
Proof.
  revert s. induction es as [|e es IH]; intros s; cbn; [intros [= <-]; apply rtc_refl|].
  intros (s1 & He & Hr)%bind_Some. destruct (calm s e) eqn:Hcalm; [|done]. eapply rtc_l; [by exists e|by apply IH].
Qed.


(** C39. When two clones of a writer push at the same time, each creates a file and
    one of them is forgotten unfinished: the reader waits at its end forever, and
    the batch of the other writer, pushed without error, is never read, whatever
    happens afterwards. *)
Theorem overlapping_writers_lose_batch :
  ∃ es s, exec_all es channel = Some s ∧ Forall (λ p, p = Dropped) (writers s) ∧
    pushed s = [1; 2] ∧ read s = [1] ∧ phase s = Suspended ∧ woken s = false ∧
    ∀ es' s', exec_all es' s = Some s' → read s' = [1].
Proof.
  exists [Clone 0; Push 0 1; Push 1 2; CreateFile 0 true; CreateFile 1 true; WriteBatch 0 Written; WriteBatch 1 Written;
    PutBack 0; PutBack 1; DropWriter 0; DropWriter 1; FinishFile 1; MarkDropped 1;
    PollReader true true; PollReader true true; PollReader true true; Park].
  eexists. split; [vm_compute; reflexivity|]. split_and!; [by repeat constructor|done..|].
  intros es' s' Hrun. apply stuck_run in Hrun; [done|]. split_and!; [by repeat constructor|done|].
  by eexists _, _, _.
Qed.

(** A write that fails leaves its file unfinished: what another clone pushes afterwards
    goes to a new file, which the reader never gets to. *)
Lemma failed_write_blocks_reader :
  ∃ es s, exec_all es channel = Some s ∧ pushed s = [1; 3] ∧ read s = [1] ∧
    ∀ es' s', exec_all es' s = Some s' → read s' = [1].
Proof.
  exists [Clone 0; Push 0 1; CreateFile 0 true; WriteBatch 0 Written; PutBack 0; Push 0 2; WriteBatch 0 (AppendFailed []);
    Push 1 3; CreateFile 1 true; WriteBatch 1 Written; PutBack 1; DropWriter 0; DropWriter 1; FinishFile 1; MarkDropped 1;
    PollReader true true; PollReader true true; PollReader true true; Park].
  eexists. split; [vm_compute; reflexivity|]. split_and!; [done..|].
  intros es' s' Hrun. apply stuck_run in Hrun; [done|]. split_and!; [by repeat constructor|done|].
  by eexists _, _, _.
Qed.

End Examples.

End Spill.
