(* ===== verification/DistributorChannels.v ===== *)
(** * Distribution channels (physical-plan/src/repartition/distributor_channels.rs)

    Repartitioning sends batches through one unbounded channel per output and a
    gate shared by all of them: while every open channel holds data, senders are
    suspended.  A channel is guarded by a lock, the gate by an atomic counter and a
    lock of its own, taken inside that of the channel.  A critical section is
    modelled at its accesses to the gate: [phase] says how far the section of a
    channel has come, and [exec] advances any channel next.  Proved: channels are
    queues, no section panics or blocks for good, the counter counts the open
    empty channels, and no wakeup is lost: senders are suspended only while every
    open channel has data for its receiver.  An example shows a race of the two
    ends of a channel after which the gate never closes again. *)

From stdpp Require Import base gmap list relations.
From Stdlib Require Import ZArith Lia.
From S2P Require Import Prelude MemoryPool.

Module Distributor.

Import Memory (usize_end, fetch_add, fetch_sub, fetch_add_fits, fetch_sub_fits).

Section Channels.
Context {T : Type}.

(** ** State *)

(** Who decrements the counter of empty channels. *)
Inductive cont := AfterSend | AfterSenderDrop | AfterReceiverDrop.

(** The critical section of a channel that is under way, at its next access to
    the gate: [SendFuture::poll] about to load the counter or to look at the
    wakers, [decr_empty_channels] about to subtract, to look at the wakers or to
    set them, the end of the section that follows, and [RecvFuture::poll] about to
    add, to look at the counter or to take the wakers. *)
Inductive phase :=
| Free
| SendLoad (t : nat) (v : T)
| SendGate (t : nat) (v : T)
| Decr (k : cont)
| CloseLoad (k : cont)
| CloseSet (k : cont)
| Done (k : cont)
| RecvIncr
| OpenLoad
| OpenTake.

(** A channel; wakers are the tasks they belong to.  [closing] says that the last
    sender has left the count but not yet entered its critical section; [sent] and
    [received] record what went through, [leaked] that the receiver was dropped in
    between. *)
Record channel := {
  n_senders : nat;
  data : option (list T);
  recv_wakers : option (list nat);
  section : phase;
  closing : bool;
  sent : list T;
  received : list T;
  leaked : bool;
}.

(** [gate_lock] names the channel whose section holds the lock of the wakers.
    [asleep] are the sender tasks that were suspended and not woken since, with
    their channels; [recv_asleep] the channels whose receiver is. *)
Record system := {
  chans : list channel;
  empty_channels : N;
  send_wakers : option (list (nat * nat));
  gate_lock : option nat;
  asleep : gmap nat nat;
  recv_asleep : gset nat;
}.

(** ** Updates *)

Definition set_chan (c : nat) (x : channel) (s : system) : system :=
  {| chans := <[c := x]> (chans s); empty_channels := empty_channels s; send_wakers := send_wakers s;
     gate_lock := gate_lock s; asleep := asleep s; recv_asleep := recv_asleep s |}.

Definition set_empty (n : N) (s : system) : system :=
  {| chans := chans s; empty_channels := n; send_wakers := send_wakers s;
     gate_lock := gate_lock s; asleep := asleep s; recv_asleep := recv_asleep s |}.

Definition set_gate (ws : option (list (nat * nat))) (lock : option nat) (s : system) : system :=
  {| chans := chans s; empty_channels := empty_channels s; send_wakers := ws;
     gate_lock := lock; asleep := asleep s; recv_asleep := recv_asleep s |}.

Definition set_asleep (m : gmap nat nat) (s : system) : system :=
  {| chans := chans s; empty_channels := empty_channels s; send_wakers := send_wakers s;
     gate_lock := gate_lock s; asleep := m; recv_asleep := recv_asleep s |}.

Definition set_recv_asleep (m : gset nat) (s : system) : system :=
  {| chans := chans s; empty_channels := empty_channels s; send_wakers := send_wakers s;
     gate_lock := gate_lock s; asleep := asleep s; recv_asleep := m |}.

Definition in_section (p : phase) (x : channel) : channel :=
  {| n_senders := n_senders x; data := data x; recv_wakers := recv_wakers x; section := p;
     closing := closing x; sent := sent x; received := received x; leaked := leaked x |}.

Definition with_senders (n : nat) (cl : bool) (x : channel) : channel :=
  {| n_senders := n; data := data x; recv_wakers := recv_wakers x; section := section x;
     closing := cl; sent := sent x; received := received x; leaked := leaked x |}.

Definition with_wakers (ws : option (list nat)) (x : channel) : channel :=
  {| n_senders := n_senders x; data := data x; recv_wakers := ws; section := section x;
     closing := closing x; sent := sent x; received := received x; leaked := leaked x |}.

(** Senders are woken: [ws] are no longer asleep. *)
Definition wake_all (ws : list (nat * nat)) (s : system) : system :=
  set_asleep (foldr (λ w, delete w.1) (asleep s) ws) s.

(** The channel after a push, a pop and the loss of its receiver. *)
Definition pushed (v : T) (d : list T) (x : channel) : channel :=
  {| n_senders := n_senders x; data := Some (d ++ [v]); recv_wakers := recv_wakers x;
     section := if decide (d = []) then Decr AfterSend else Free;
     closing := closing x; sent := sent x ++ [v]; received := received x; leaked := leaked x |}.

Definition popped (v : T) (d : list T) (x : channel) : channel :=
  {| n_senders := n_senders x; data := Some d; recv_wakers := recv_wakers x;
     section := match d, recv_wakers x with [], Some _ => RecvIncr | _, _ => Free end;
     closing := closing x; sent := sent x; received := received x ++ [v]; leaked := leaked x |}.

Definition abandoned (d : list T) (x : channel) : channel :=
  {| n_senders := n_senders x; data := None; recv_wakers := recv_wakers x;
     section := if decide (d = [] ∧ 0 < n_senders x) then Decr AfterReceiverDrop else Done AfterReceiverDrop;
     closing := closing x; sent := sent x; received := received x;
     leaked := match d, recv_wakers x with [], Some _ => bool_decide (n_senders x = 0) | _, _ => false end |}.

(** ** Critical sections *)

Definition push (c : nat) (v : T) (x : channel) (s : system) : option system :=
  d ← data x; Some (set_chan c (pushed v d x) s).

(** The end of a section that called [decr_empty_channels]: [take_recv_wakers]
    and [recv_wakers.take().expect(..)] wake the receiver, [wake_channel_senders]
    the senders of the channel. *)
Definition finish (c : nat) (k : cont) (x : channel) (s : system) : option system :=
  match k with
  | AfterSend =>
      _ ← recv_wakers x;
      Some (set_recv_asleep (recv_asleep s ∖ {[c]}) (set_chan c (with_wakers (Some []) (in_section Free x)) s))
  | AfterSenderDrop =>
      _ ← recv_wakers x;
      Some (set_recv_asleep (recv_asleep s ∖ {[c]}) (set_chan c (with_wakers None (in_section Free x)) s))
  | AfterReceiverDrop =>
      match gate_lock s with
      | Some _ => None
      | None =>
          let s := set_chan c (in_section Free x) s in
          Some (match send_wakers s with
                | Some ws =>
                    wake_all (filter (λ w, w.2 = c) ws) (set_gate (Some (filter (λ w, w.2 ≠ c) ws)) None s)
                | None => s
                end)
      end
  end.

(** The section of channel [c] goes on to its next access; [None] if it waits for
    the lock of the wakers, or panics. *)
Definition advance (c : nat) (s : system) : option system :=
  x ← chans s !! c;
  match section x with
  | Free => None
  | SendLoad t v =>
      if (empty_channels s =? 0)%N then Some (set_chan c (in_section (SendGate t v) x) s) else push c v x s
  | SendGate t v =>
      match gate_lock s with
      | Some _ => None
      | None =>
          match send_wakers s with
          | Some ws =>
              Some (set_asleep (<[t := c]> (asleep s))
                      (set_gate (Some (ws ++ [(t, c)])) None (set_chan c (in_section Free x) s)))
          | None => push c v x s
          end
      end
  | Decr k =>
      let p := if (empty_channels s =? 1)%N then CloseLoad k else Done k in
      Some (set_empty (fetch_sub (empty_channels s) 1) (set_chan c (in_section p x) s))
  | CloseLoad k =>
      match gate_lock s with
      | Some _ => None
      | None =>
          Some (if (empty_channels s =? 0)%N && bool_decide (send_wakers s = None)
                then set_gate (send_wakers s) (Some c) (set_chan c (in_section (CloseSet k) x) s)
                else set_chan c (in_section (Done k) x) s)
      end
  | CloseSet k => Some (set_gate (Some []) None (set_chan c (in_section (Done k) x) s))
  | Done k => finish c k x s
  | RecvIncr =>
      let p := if (empty_channels s =? 0)%N then OpenLoad else Free in
      Some (set_empty (fetch_add (empty_channels s) 1) (set_chan c (in_section p x) s))
  | OpenLoad =>
      match gate_lock s with
      | Some _ => None
      | None =>
          Some (if (0 <? empty_channels s)%N
                then set_gate (send_wakers s) (Some c) (set_chan c (in_section OpenTake x) s)
                else set_chan c (in_section Free x) s)
      end
  | OpenTake => Some (wake_all (default [] (send_wakers s)) (set_gate None None (set_chan c (in_section Free x) s)))
  end.

(** ** Calls *)

Inductive event :=
| SendPoll (c t : nat) (v : T)
| RecvPoll (c t : nat)
| CloneSender (c : nat)
| DropSender (c : nat)
| CloseSender (c : nat)
| DropReceiver (c : nat)
| Advance (c : nat).

Definition is_free (x : channel) : bool := match section x with Free => true | _ => false end.

(** [SendFuture::poll] of task [t], up to the first access to the gate; a task that
    is polled is awake. *)
Definition send_poll (c t : nat) (v : T) (x : channel) (s : system) : option system :=
  if is_free x && bool_decide (0 < n_senders x) then
    let s := set_asleep (delete t (asleep s)) s in
    Some (match data x with
          | None => s
          | Some _ => set_chan c (in_section (SendLoad t v) x) s
          end)
  else None.

(** [RecvFuture::poll] *)
Definition recv_poll (c t : nat) (x : channel) (s : system) : option system :=
  if is_free x then
    d ← data x;
    let s := set_recv_asleep (recv_asleep s ∖ {[c]}) s in
    Some (match d with
          | v :: d => set_chan c (popped v d x) s
          | [] =>
              match recv_wakers x with
              | Some ws => set_recv_asleep ({[c]} ∪ recv_asleep s) (set_chan c (with_wakers (Some (ws ++ [t])) x) s)
              | None => s
              end
          end)
  else None.

(** [Drop for DistributionSender]: the count is decremented before the lock. *)
Definition drop_sender (c : nat) (x : channel) (s : system) : option system :=
  match n_senders x with
  | 0 => None
  | 1 => Some (set_chan c (with_senders 0 true x) s)
  | S n => Some (set_chan c (with_senders n (closing x) x) s)
  end.

Definition close_sender (c : nat) (x : channel) (s : system) : option system :=
  if is_free x && closing x then
    let p := match data x with Some [] => Decr AfterSenderDrop | _ => Done AfterSenderDrop end in
    Some (set_chan c (in_section p (with_senders (n_senders x) false x)) s)
  else None.

(** [Drop for DistributionReceiver] *)
Definition drop_receiver (c : nat) (x : channel) (s : system) : option system :=
  if is_free x then
    d ← data x;
    Some (set_recv_asleep (recv_asleep s ∖ {[c]}) (set_chan c (abandoned d x) s))
  else None.

Definition exec (e : event) (s : system) : option system :=
  match e with
  | SendPoll c t v => x ← chans s !! c; send_poll c t v x s
  | RecvPoll c t => x ← chans s !! c; recv_poll c t x s
  | CloneSender c =>
      x ← chans s !! c;
      match n_senders x with 0 => None | n => Some (set_chan c (with_senders (S n) (closing x) x) s) end
  | DropSender c => x ← chans s !! c; drop_sender c x s
  | CloseSender c => x ← chans s !! c; close_sender c x s
  | DropReceiver c => x ← chans s !! c; drop_receiver c x s
  | Advance c => advance c s
  end.

Definition run (es : list event) (s : system) : option system := foldM (λ s e, exec e s) es s.

Definition step (s s' : system) : Prop := ∃ e, exec e s = Some s'.

(** [channels] with [Channel::new_with_one_sender] *)
Definition new_channel : channel :=
  {| n_senders := 1; data := Some []; recv_wakers := Some []; section := Free; closing := false;
     sent := []; received := []; leaked := false |}.

Definition channels (n : nat) : system :=
  {| chans := replicate n new_channel; empty_channels := N.of_nat n; send_wakers := None; gate_lock := None;
     asleep := ∅; recv_asleep := ∅ |}.

(** Every input has channels and a gate of its own. *)
Definition partition_aware_channels (n_in n_out : nat) : list system := map (λ _, channels n_out) (seq 0 n_in).

(** ** Invariant *)

Definition cont_of (p : phase) : option cont :=
  match p with Decr k | CloseLoad k | CloseSet k | Done k => Some k | _ => None end.

(** What a channel contributes to the counter of empty channels. *)
Definition counted (x : channel) : N :=
  (if leaked x then 1 else 0) +
  match section x with
  | Decr _ => 1
  | RecvIncr => 0
  | CloseLoad AfterSenderDrop | CloseSet AfterSenderDrop | Done AfterSenderDrop => 0
  | _ => match data x, recv_wakers x with Some [], Some _ => 1 | _, _ => 0 end
  end.

(** A section knows what its channel looks like. *)
Definition section_ok (x : channel) : Prop :=
  match section x with
  | Free => True
  | SendLoad _ _ | SendGate _ _ => is_Some (data x) ∧ is_Some (recv_wakers x)
  | RecvIncr | OpenLoad | OpenTake => data x = Some [] ∧ is_Some (recv_wakers x)
  | Decr AfterSend | CloseLoad AfterSend | CloseSet AfterSend | Done AfterSend =>
      (∃ v d, data x = Some (v :: d)) ∧ is_Some (recv_wakers x)
  | Decr AfterSenderDrop | CloseLoad AfterSenderDrop | CloseSet AfterSenderDrop =>
      data x = Some [] ∧ is_Some (recv_wakers x) ∧ n_senders x = 0 ∧ closing x = false
  | Done AfterSenderDrop => is_Some (recv_wakers x) ∧ n_senders x = 0 ∧ closing x = false
  | Decr AfterReceiverDrop | CloseLoad AfterReceiverDrop | CloseSet AfterReceiverDrop | Done AfterReceiverDrop =>
      data x = None
  end.

Record chan_ok (x : channel) : Prop := {
  ok_section : section_ok x;
  ok_leaked : leaked x = true → data x = None ∧ section x ≠ Decr AfterReceiverDrop;
  ok_closed : recv_wakers x = None → n_senders x = 0 ∧ closing x = false;
  ok_closing : closing x = true → n_senders x = 0 ∧ is_Some (recv_wakers x);
  ok_queue d : data x = Some d → sent x = received x ++ d;
}.

(** The suspended senders of a channel and its suspended receiver will be woken. *)
Definition sender_ok (x : channel) : Prop := data x ≠ None ∨ cont_of (section x) = Some AfterReceiverDrop.

Definition receiver_ok (x : channel) : Prop :=
  is_Some (recv_wakers x) ∧ (data x = Some [] ∨ cont_of (section x) = Some AfterSend).

Definition opening (p : phase) : Prop := p = OpenLoad ∨ p = OpenTake.
Definition shutting (p : phase) : Prop := ∃ k, p = CloseLoad k ∨ p = CloseSet k.
Definition setting (p : phase) : Prop := ∃ k, p = CloseSet k.
Definition taking (p : phase) : Prop := p = OpenTake.
Definition locking (p : phase) : Prop := setting p ∨ taking p.

Definition has (s : system) (P : phase → Prop) : Prop := ∃ c x, chans s !! c = Some x ∧ P (section x).

Definition total (l : list channel) : N := foldr (λ x n, counted x + n)%N 0%N l.

Record ok (s : system) : Prop := {
  ok_chans c x : chans s !! c = Some x → chan_ok x;
  ok_count : empty_channels s = total (chans s);
  ok_size : (N.of_nat (length (chans s)) < usize_end)%N;
  ok_lock c x : chans s !! c = Some x → locking (section x) ↔ gate_lock s = Some c;
  ok_locked c : gate_lock s = Some c → is_Some (chans s !! c);
  ok_set : has s setting → send_wakers s = None;
  ok_open : (0 < empty_channels s)%N → send_wakers s ≠ None ∨ has s setting → has s opening;
  ok_shut : empty_channels s = 0%N → send_wakers s = None ∨ has s taking → has s shutting;
  ok_asleep t c : asleep s !! t = Some c → ∃ ws x, send_wakers s = Some ws ∧ (t, c) ∈ ws ∧ chans s !! c = Some x ∧ sender_ok x;
  ok_recv c : c ∈ recv_asleep s → ∃ x, chans s !! c = Some x ∧ receiver_ok x;
}.

(** ** Preservation *)

Lemma counted_le x : chan_ok x → (counted x ≤ 1)%N.
Proof.
  intros Hx. unfold counted. destruct (leaked x) eqn:El; [|destruct (section x) as [| | |[]|[]|[]|[]| | |], (data x) as [[]|], (recv_wakers x); lia].
  destruct (ok_leaked _ Hx El) as [Hd Hs]. rewrite Hd. pose proof (ok_section _ Hx) as Hsec. unfold section_ok in Hsec.
  rewrite Hd in Hsec. destruct (section x) as [| | |[]|[]|[]|[]| | |]; try lia; naive_solver.
Qed.

Lemma total_set l c x x' : l !! c = Some x → (total (<[c := x']> l) + counted x = total l + counted x')%N.
Proof.
  revert c. induction l as [|y l IH]; intros [|c] Hc; cbn in Hc; [done..| |].
  - injection Hc as ->. cbn. lia.
  - specialize (IH c Hc). change (<[S c := x']> (y :: l)) with (y :: <[c := x']> l). cbn [total foldr].
    fold (total (<[c := x']> l)) (total l). lia.
Qed.

Lemma total_le l : (∀ c x, l !! c = Some x → chan_ok x) → (total l ≤ N.of_nat (length l))%N.
Proof.
  induction l as [|x l IH]; intros Hl; [done|]. cbn [total foldr length]. fold (total l).
  pose proof (counted_le x (Hl 0 x eq_refl)). specialize (IH (λ c y, Hl (S c) y)). lia.
Qed.

Lemma total_ge l c x : l !! c = Some x → (counted x ≤ total l)%N.
Proof.
  revert c. induction l as [|y l IH]; intros [|c] Hc; cbn in Hc; [done..| |]; cbn [total foldr]; fold (total l).
  - injection Hc as ->. lia.
  - specialize (IH c Hc). lia.
Qed.

Lemma has_set s s' c x x' (P : phase → Prop) :
  chans s !! c = Some x → chans s' = <[c := x']> (chans s) →
  has s' P ↔ P (section x') ∨ ∃ c' y, c' ≠ c ∧ chans s !! c' = Some y ∧ P (section y).
Proof.
  intros Hc Hs'. pose proof (lookup_lt_Some _ _ _ Hc) as Hlt. unfold has. rewrite Hs'. split.
  - intros (c' & y & [(-> & -> & _)|[Hne Hy]]%list_lookup_insert_Some & HP); [by left|right; eauto].
  - intros [HP|(c' & y & Hne & Hy & HP)]; [exists c, x'|exists c', y].
    + by rewrite list_lookup_insert_eq.
    + by rewrite list_lookup_insert_ne.
Qed.

Lemma has_split s c x (P : phase → Prop) :
  chans s !! c = Some x → has s P ↔ P (section x) ∨ ∃ c' y, c' ≠ c ∧ chans s !! c' = Some y ∧ P (section y).
Proof.
  intros Hc. apply (has_set s s c x); [done|]. by rewrite list_insert_id.
Qed.

(** A section that plays the same part at the gate before and after. *)
Lemma has_same s s' c x x' (P : phase → Prop) :
  chans s !! c = Some x → chans s' = <[c := x']> (chans s) → (P (section x') ↔ P (section x)) → has s' P ↔ has s P.
Proof. intros Hc Hs' HP. by rewrite (has_set s s' c x x'), (has_split s c x), HP. Qed.

(** Channel [c] moves from [x] to [x']; what is left to show is about the gate. *)
Lemma update_ok s s' c x x' :
  ok s → chans s !! c = Some x → chans s' = <[c := x']> (chans s) → chan_ok x' →
  (empty_channels s' + counted x = empty_channels s + counted x')%N →
  (locking (section x') ↔ gate_lock s' = Some c) →
  (∀ c', c' ≠ c → gate_lock s' = Some c' ↔ gate_lock s = Some c') →
  (has s' setting → send_wakers s' = None) →
  ((0 < empty_channels s')%N → send_wakers s' ≠ None ∨ has s' setting → has s' opening) →
  (empty_channels s' = 0%N → send_wakers s' = None ∨ has s' taking → has s' shutting) →
  (∀ t c', asleep s' !! t = Some c' → ∃ ws, send_wakers s' = Some ws ∧ (t, c') ∈ ws ∧
     if decide (c' = c) then sender_ok x' else asleep s !! t = Some c') →
  (∀ c', c' ∈ recv_asleep s' → if decide (c' = c) then receiver_ok x' else c' ∈ recv_asleep s) →
  ok s'.
Proof.
  intros Hok Hc Hs' Hx' Hn Hl Hl' Hset Hopen Hshut Has Hrc. pose proof (lookup_lt_Some _ _ _ Hc) as Hlt.
  assert (Hother : ∀ c' y, c' ≠ c → chans s !! c' = Some y → chans s' !! c' = Some y).
  { intros c' y Hne Hy. by rewrite Hs', list_lookup_insert_ne. }
  assert (Hself : chans s' !! c = Some x') by (rewrite Hs'; by apply list_lookup_insert_eq).
  constructor; [..|done|done|done| |].
  - intros c' y. rewrite Hs'. intros [(-> & -> & _)|[Hne Hy]]%list_lookup_insert_Some; [done|by eapply (ok_chans _ Hok)].
  - rewrite Hs'. pose proof (total_set _ _ _ x' Hc). rewrite (ok_count _ Hok) in Hn. lia.
  - rewrite Hs', length_insert. apply Hok.
  - intros c' y. rewrite Hs'. intros [(-> & -> & _)|[Hne Hy]]%list_lookup_insert_Some; [done|].
    rewrite Hl' by done. by apply (ok_lock _ Hok).
  - intros c' Hc'. destruct (decide (c' = c)) as [->|Hne]; [by rewrite Hself|].
    destruct (ok_locked _ Hok c') as [y Hy]; [by apply Hl'|]. by rewrite (Hother _ _ Hne Hy).
  - intros t c' (ws & Hws & Hin & Hx)%Has. exists ws. case_decide as Hd; [subst c'; by exists x'|].
    destruct (ok_asleep _ Hok t c' Hx) as (_ & y & _ & _ & Hy & Hsy). exists y. split_and!; [done..| |done]. by apply Hother.
  - intros c' Hx%Hrc. case_decide as Hd; [subst c'; by exists x'|].
    destruct (ok_recv _ Hok c' Hx) as (y & Hy & Hry). exists y. split; [by apply Hother|done].
Qed.

(** A part of a section that does not touch the gate. *)
Definition plain (p : phase) : Prop := ¬ opening p ∧ ¬ shutting p ∧ ¬ locking p.

Lemma quiet_ok s s' c x x' :
  ok s → chans s !! c = Some x → chans s' = <[c := x']> (chans s) → chan_ok x' → counted x' = counted x →
  plain (section x) → plain (section x') →
  empty_channels s' = empty_channels s → send_wakers s' = send_wakers s → gate_lock s' = gate_lock s →
  (∀ t c', asleep s' !! t = Some c' → asleep s !! t = Some c') → (sender_ok x → sender_ok x') →
  (∀ c', c' ∈ recv_asleep s' → if decide (c' = c) then receiver_ok x' else c' ∈ recv_asleep s) →
  ok s'.
Proof.
  intros Hok Hc Hs' Hx' Hn (Ho & Hsh & Hl) (Ho' & Hsh' & Hl') He Hw Hg Ha Hso Hr.
  assert (Hhas : ∀ P : phase → Prop, ¬ P (section x) → ¬ P (section x') → has s' P ↔ has s P).
  { intros P H1 H2. eapply has_same; [done..|tauto]. }
  assert (Hset : has s' setting ↔ has s setting) by (apply Hhas; intros ?; [apply Hl|apply Hl']; by left).
  assert (Htak : has s' taking ↔ has s taking) by (apply Hhas; intros ?; [apply Hl|apply Hl']; by right).
  eapply (update_ok s); try done; rewrite ?He, ?Hw, ?Hg, ?Hset, ?Htak, ?Hhas by done.
  - by rewrite Hn.
  - rewrite <- (ok_lock _ Hok _ _ Hc). tauto.
  - done.
  - apply Hok.
  - apply Hok.
  - apply Hok.
  - intros t c' Hs%Ha. destruct (ok_asleep _ Hok t c' Hs) as (ws & y & Hws & Hin & Hy & Hsy). exists ws. split_and!; [done..|].
    case_decide as Hd; [|done]. subst c'. apply Hso. congruence.
Qed.

(** Decides that a concrete phase does not touch the gate. *)
Ltac plain := split_and!; [by intros [?|?]|by intros (? & [?|?])|by intros [[? ?]|?]].

Lemma is_free_section x : is_free x = true → section x = Free.
Proof. unfold is_free. by destruct (section x). Qed.

(** Channels other than [c] keep their suspended receivers. *)
Lemma recv_other (m m' : gset nat) c (P : Prop) :
  m' ⊆ m → c ∉ m' → ∀ c', c' ∈ m' → if decide (c' = c) then P else c' ∈ m.
Proof. intros Hm Hc c' Hc'. case_decide as Hd; [by subst|set_solver]. Qed.

Lemma recv_same s c x (P : Prop) :
  ok s → chans s !! c = Some x → (receiver_ok x → P) →
  ∀ c', c' ∈ recv_asleep s → if decide (c' = c) then P else c' ∈ recv_asleep s.
Proof.
  intros Hok Hc HP c' Hc'. case_decide as Hd; [|done]. subst c'. apply HP.
  destruct (ok_recv _ Hok c Hc') as (y & Hy & Hry). congruence.
Qed.

Lemma chan_ok_section x p :
  chan_ok x → section_ok (in_section p x) → p ≠ Decr AfterReceiverDrop → chan_ok (in_section p x).
Proof. intros [H1 H2 H3 H4 H5] Hs Hp. constructor; try done. intros Hl. split; [by apply H2|done]. Qed.

Lemma send_poll_ok s s' c t v x :
  ok s → chans s !! c = Some x → send_poll c t v x s = Some s' → ok s'.
Proof.
  intros Hok Hc. unfold send_poll. destruct (is_free x && _) eqn:Hg; [|done].
  apply andb_true_iff in Hg as [Hfree%is_free_section Hn%bool_decide_eq_true]. intros [= <-].
  pose proof (ok_chans _ Hok _ _ Hc) as Hx. pose proof Hx as [_ H2 H3 H4 H5].
  assert (Hdel : ∀ t0 c', delete t (asleep s) !! t0 = Some c' → asleep s !! t0 = Some c').
  { intros t0 c'. rewrite lookup_delete_Some. by intros [_ ?]. }
  destruct (data x) as [d|] eqn:Hd.
  - apply (quiet_ok s _ c x (in_section (SendLoad t v) x)); try done.
    + apply chan_ok_section; [done| |done]. unfold section_ok. cbn. rewrite Hd. split; [done|].
      destruct (recv_wakers x); [done|]. destruct (H3 eq_refl). lia.
    + unfold counted. cbn. by rewrite Hfree.
    + rewrite Hfree. plain.
    + plain.
    + intros _. left. cbn. by rewrite Hd.
    + apply (recv_same s c x); [done..|]. intros [Hw [He|He]]; [by split; [|left]|by rewrite Hfree in He].
  - apply (quiet_ok s _ c x x); try done; rewrite ?Hfree; try plain.
    + cbn. by rewrite list_insert_id.
    + apply (recv_same s c x); done.
Qed.

Lemma popped_ok x v d : chan_ok x → data x = Some (v :: d) → chan_ok (popped v d x).
Proof.
  intros [H1 H2 H3 H4 H5] Hd. constructor; cbn; [|intros Hl; by destruct (H2 Hl); congruence|done|done|].
  - unfold section_ok. cbn. destruct d, (recv_wakers x); done.
  - intros d0 [= <-]. rewrite (H5 _ Hd), <- app_assoc. done.
Qed.

Lemma recv_poll_ok s s' c t x :
  ok s → chans s !! c = Some x → recv_poll c t x s = Some s' → ok s'.
Proof.
  intros Hok Hc. unfold recv_poll. destruct (is_free x) eqn:Hfree; [apply is_free_section in Hfree|done].
  intros (d & Hd & [= <-])%bind_Some. pose proof (ok_chans _ Hok _ _ Hc) as Hx. pose proof Hx as [H1 H2 H3 H4 H5].
  assert (Hpl : plain (section x)) by (rewrite Hfree; plain).
  assert (Hnot : ∀ P : Prop, ∀ c', c' ∈ recv_asleep s ∖ {[c]} → if decide (c' = c) then P else c' ∈ recv_asleep s).
  { intros P. apply recv_other; set_solver. }
  destruct d as [|v d].
  - destruct (recv_wakers x) as [ws|] eqn:Hw.
    + apply (quiet_ok s _ c x (with_wakers (Some (ws ++ [t])) x)); try done.
      * constructor; cbn; try done; [|intros Hcl; split; [by apply H4|done]].
        unfold section_ok. cbn. by rewrite Hfree.
      * unfold counted. cbn. by rewrite Hfree, Hd, Hw.
      * cbn. intros c' Hc'. case_decide as E; [|set_solver]. split; [done|by left].
    + apply (quiet_ok s _ c x x); try done; [cbn; by rewrite list_insert_id|apply Hnot].
  - apply (quiet_ok s _ c x (popped v d x)); try done.
    + by apply popped_ok.
    + unfold counted. cbn. rewrite Hfree, Hd. by destruct d, (recv_wakers x).
    + cbn. destruct d, (recv_wakers x); plain.
    + intros _. by left.
    + apply Hnot.
Qed.

Lemma senders_ok s c x n cl :
  ok s → chans s !! c = Some x → chan_ok (with_senders n cl x) →
  ok (set_chan c (with_senders n cl x) s).
Proof.
  intros Hok Hc Hx'.
  assert (Hhas : ∀ P, has (set_chan c (with_senders n cl x) s) P ↔ has s P) by (intros P; by eapply has_same).
  apply (update_ok s _ c x (with_senders n cl x)); try done.
  - exact (ok_lock _ Hok _ _ Hc).
  - rewrite Hhas. apply Hok.
  - rewrite !Hhas. apply Hok.
  - rewrite !Hhas. apply Hok.
  - intros t c' Ht. destruct (ok_asleep _ Hok t c' Ht) as (ws & y & Hws & Hin & Hy & Hsy). exists ws. split_and!; [done..|].
    case_decide as Hd; [|done]. subst c'. rewrite Hc in Hy. by injection Hy as <-.
  - by apply (recv_same s c x).
Qed.

(** The count of senders may change while there are any. *)
Lemma chan_ok_senders x n (cl : bool) :
  chan_ok x → n_senders x ≠ 0 → closing x = false ∧ (if cl then n = 0 else True) → chan_ok (with_senders n cl x).
Proof.
  intros [H1 H2 H3 H4 H5] Hn [Hcl Hn']. assert (Hw : recv_wakers x ≠ None) by (intros Hw; by destruct (H3 Hw)).
  constructor; cbn; try done.
  - unfold section_ok in *. cbn. destruct (section x) as [| | |[]|[]|[]|[]| | |]; naive_solver.
  - intros ->. split; [done|]. by apply not_eq_None_Some.
Qed.

Lemma close_sender_ok s s' c x : ok s → chans s !! c = Some x → close_sender c x s = Some s' → ok s'.
Proof.
  intros Hok Hc. unfold close_sender. destruct (is_free x && closing x) eqn:Hg; [|done].
  apply andb_true_iff in Hg as [Hfree%is_free_section Hcl]. intros [= <-].
  pose proof (ok_chans _ Hok _ _ Hc) as Hx. pose proof Hx as [H1 H2 H3 H4 H5]. destruct (H4 Hcl) as [Hn Hw].
  assert (Hx1 : chan_ok (with_senders (n_senders x) false x)).
  { constructor; cbn; try done; [unfold section_ok; cbn; by rewrite Hfree|..]. }
  eapply (quiet_ok s _ c x); try done.
  - apply chan_ok_section; [done| |by destruct (data x) as [[]|]]. unfold section_ok. cbn. destruct (data x) as [[]|] eqn:Hd; cbn; rewrite ?Hd; done.
  - unfold counted. cbn. rewrite Hfree. destruct Hw as [ws ->]. by destruct (data x) as [[]|].
  - rewrite Hfree. plain.
  - cbn. destruct (data x) as [[]|]; plain.
  - intros [Hd|Hd]; [by left|by rewrite Hfree in Hd].
  - apply (recv_same s c x); [done..|]. intros [_ [Hd|Hd]]; [|by rewrite Hfree in Hd]. split; [done|by left].
Qed.

Lemma drop_receiver_ok s s' c x : ok s → chans s !! c = Some x → drop_receiver c x s = Some s' → ok s'.
Proof.
  intros Hok Hc. unfold drop_receiver. destruct (is_free x) eqn:Hfree; [apply is_free_section in Hfree|done].
  intros (d & Hd & [= <-])%bind_Some. pose proof (ok_chans _ Hok _ _ Hc) as Hx. pose proof Hx as [H1 H2 H3 H4 H5].
  assert (Hl : leaked x = false) by (destruct (leaked x); [destruct H2; [done|congruence]|done]).
  eapply (quiet_ok s _ c x (abandoned d x)); try done.
  - constructor; cbn; try done.
    + unfold section_ok. cbn. case_decide; done.
    + intros Hlk. split; [done|]. destruct (decide (_ ∧ _)) as [E|]; [|discriminate]. destruct E as [-> E]. destruct (recv_wakers x); [|done].
      apply bool_decide_eq_true in Hlk. lia.
  - unfold counted. cbn. rewrite Hfree, Hl, Hd. destruct d as [|v d]; [|by rewrite decide_False by naive_solver].
    destruct (recv_wakers x) as [ws|] eqn:Hw.
    + case_bool_decide as E; [by rewrite decide_False by lia|by rewrite decide_True by (split; [done|lia])].
    + destruct (H3 eq_refl) as [E _]. by rewrite decide_False by lia.
  - rewrite Hfree. plain.
  - cbn. case_decide; plain.
  - intros _. right. cbn. by case_decide.
  - cbn. apply recv_other; set_solver.
Qed.

Lemma clone_drop_ok s c x n (cl : bool) :
  ok s → chans s !! c = Some x → n_senders x ≠ 0 → (if cl then n = 0 else True) → ok (set_chan c (with_senders n cl x) s).
Proof.
  intros Hok Hc Hn Hcl. pose proof (ok_chans _ Hok _ _ Hc) as Hx. apply senders_ok; [done..|].
  apply chan_ok_senders; [done..|]. split; [|done]. destruct (closing x) eqn:E; [|done]. by destruct (ok_closing _ Hx E).
Qed.

(** ** Sections *)

Lemma has_keep s s' c x x' (P : phase → Prop) :
  chans s !! c = Some x → chans s' = <[c := x']> (chans s) → has s P → ¬ P (section x) → has s' P.
Proof. intros Hc Hs' HP Hx. rewrite (has_set s s' c x x') by done. apply (has_split s c x P Hc) in HP as [?|?]; [done|by right]. Qed.

Lemma has_here s s' c x x' (P : phase → Prop) :
  chans s !! c = Some x → chans s' = <[c := x']> (chans s) → P (section x') → has s' P.
Proof. intros Hc Hs' HP. rewrite (has_set s s' c x x') by done. by left. Qed.

(** Only the holder of the lock can be setting or taking the wakers. *)
Lemma has_locking s s' c x x' (P : phase → Prop) :
  ok s → chans s !! c = Some x → chans s' = <[c := x']> (chans s) → (∀ p, P p → locking p) →
  gate_lock s = None ∨ gate_lock s = Some c → ¬ P (section x') → ¬ has s' P.
Proof.
  intros Hok Hc Hs' HP Hl Hx'. rewrite (has_set s s' c x x') by done. intros [?|(c' & y & Hne & Hy & Hp)]; [done|].
  apply HP, (ok_lock _ Hok _ _ Hy) in Hp. destruct Hl; congruence.
Qed.

Lemma setting_locking p : setting p → locking p.
Proof. by left. Qed.

Lemma taking_locking p : taking p → locking p.
Proof. by right. Qed.

Lemma pushed_ok x v d : chan_ok x → data x = Some d → is_Some (recv_wakers x) → chan_ok (pushed v d x).
Proof.
  intros [H1 H2 H3 H4 H5] Hd Hw. constructor; cbn; [|intros Hl; by destruct (H2 Hl); congruence|done|done|].
  - unfold section_ok. cbn. case_decide as E; [subst d; cbn; eauto|done].
  - intros d0 [= <-]. rewrite (H5 _ Hd). by rewrite app_assoc.
Qed.

Lemma channel_push_ok s s' c x v :
  ok s → chans s !! c = Some x → (∃ t, section x = SendLoad t v ∨ section x = SendGate t v) → push c v x s = Some s' → ok s'.
Proof.
  intros Hok Hc Hsec. pose proof (ok_chans _ Hok _ _ Hc) as Hx. unfold push. intros (d & Hd & [= <-])%bind_Some.
  assert (Hw : is_Some (recv_wakers x)).
  { pose proof (ok_section _ Hx) as H. unfold section_ok in H. destruct Hsec as (t & [E|E]); rewrite E in H; by destruct H. }
  assert (Hpl : plain (section x)) by (destruct Hsec as (t & [E|E]); rewrite E; plain).
  apply (quiet_ok s _ c x (pushed v d x)); try done.
  - by apply pushed_ok.
  - unfold counted. cbn. destruct Hw as [ws Hw]. rewrite Hd, Hw.
    destruct Hsec as (t & [E|E]); rewrite E; destruct d; cbn; done.
  - cbn. case_decide; plain.
  - intros _. by left.
  - apply (recv_same s c x); [done..|]. intros [_ [Hd0|Hd0]].
    + split; [done|]. right. cbn. rewrite decide_True by congruence. done.
    + destruct Hsec as (t & [E|E]); by rewrite E in Hd0.
Qed.

Lemma foldr_delete (ws : list (nat * nat)) (m : gmap nat nat) t c :
  foldr (λ w, delete w.1) m ws !! t = Some c ↔ m !! t = Some c ∧ t ∉ ws.*1.
Proof.
  induction ws as [|w ws IH]; cbn; [by split; [intros ?; split; [done|apply not_elem_of_nil]|intros [? _]]|].
  rewrite lookup_delete_Some, IH. set_solver.
Qed.

(** The suspended senders when the wakers stay. *)
Lemma asleep_same s c x (P : Prop) :
  ok s → chans s !! c = Some x → (sender_ok x → P) →
  ∀ t c', asleep s !! t = Some c' → ∃ ws, send_wakers s = Some ws ∧ (t, c') ∈ ws ∧
     if decide (c' = c) then P else asleep s !! t = Some c'.
Proof.
  intros Hok Hc HP t c' Ht. destruct (ok_asleep _ Hok t c' Ht) as (ws & y & Hws & Hin & Hy & Hsy). exists ws. split_and!; [done..|].
  case_decide as Hd; [|done]. subst c'. apply HP. congruence.
Qed.

(** A sender finds the gate closed. *)
Lemma suspend_ok s c x t v ws :
  ok s → chans s !! c = Some x → section x = SendGate t v → gate_lock s = None → send_wakers s = Some ws →
  ok (set_asleep (<[t := c]> (asleep s)) (set_gate (Some (ws ++ [(t, c)])) None (set_chan c (in_section Free x) s))).
Proof.
  intros Hok Hc Hsec Hl Hws. pose proof (ok_chans _ Hok _ _ Hc) as Hx.
  pose proof (ok_section _ Hx) as Hso. unfold section_ok in Hso. rewrite Hsec in Hso. destruct Hso as [[d Hd] Hw].
  set (s' := set_asleep _ _).
  assert (Hhas : ∀ P : phase → Prop, (∀ p, P p → opening p ∨ shutting p ∨ locking p) → has s' P ↔ has s P).
  { intros P HP. eapply has_same; [done..|]. rewrite Hsec. cbn.
    split; intros [[?|?]|[(? & [?|?])|[[? ?]|?]]]%HP; done. }
  assert (Hset : has s' setting ↔ has s setting) by (apply Hhas; unfold locking; tauto).
  assert (Htak : has s' taking ↔ has s taking) by (apply Hhas; unfold locking; tauto).
  apply (update_ok s _ c x (in_section Free x)); try done; rewrite ?Hset, ?Htak, ?Hhas by tauto.
  - by apply chan_ok_section.
  - unfold counted. cbn. rewrite Hsec. done.
  - split; [|done]. by intros [[? ?]|?].
  - intros c' _. cbn. by rewrite Hl.
  - intros Hs. by rewrite (ok_set _ Hok Hs) in Hws.
  - intros He _. apply (ok_open _ Hok He). left. by rewrite Hws.
  - intros He [?|Ht]; [done|]. apply (ok_shut _ Hok He). by right.
  - intros t0 c' Ht0. exists (ws ++ [(t, c)]). split; [done|]. cbn in Ht0.
    apply lookup_insert_Some in Ht0 as [[<- <-]|[Hne Ht0]].
    + split; [set_solver|]. rewrite decide_True by done. left. cbn. by rewrite Hd.
    + destruct (ok_asleep _ Hok t0 c' Ht0) as (ws' & y & Hws' & Hin & _). rewrite Hws in Hws'. injection Hws' as <-.
      split; [set_solver|]. case_decide; [|done]. left. cbn. by rewrite Hd.
  - apply (recv_same s c x); [done..|]. intros [_ [?|Hd0]]; [by split; [|left]|by rewrite Hsec in Hd0].
Qed.

(** Decides what part a concrete phase plays at the gate. *)
Ltac role := unfold locking, setting, taking, opening, shutting; cbn; naive_solver.

Lemma counted_ge s c x n : ok s → chans s !! c = Some x → (n ≤ counted x → n ≤ empty_channels s)%N.
Proof. intros Hok Hc Hn. rewrite (ok_count _ Hok). pose proof (total_ge _ _ _ Hc). lia. Qed.

Lemma empty_fits s : ok s → (empty_channels s < usize_end)%N.
Proof.
  intros Hok. rewrite (ok_count _ Hok). pose proof (total_le _ (ok_chans _ Hok)). pose proof (ok_size _ Hok). lia.
Qed.

Lemma section_ok_next x k p :
  section x = Decr k → p = CloseLoad k ∨ p = Done k → section_ok x → section_ok (in_section p x).
Proof. intros Hs Hp. unfold section_ok. rewrite Hs. destruct Hp as [-> | ->], k; cbn; naive_solver. Qed.

Lemma decr_ok s c x k :
  ok s → chans s !! c = Some x → section x = Decr k →
  let p := if (empty_channels s =? 1)%N then CloseLoad k else Done k in
  ok (set_empty (fetch_sub (empty_channels s) 1) (set_chan c (in_section p x) s)).
Proof.
  intros Hok Hc Hsec p. pose proof (ok_chans _ Hok _ _ Hc) as Hx.
  assert (Hp : p = CloseLoad k ∨ p = Done k) by (subst p; destruct (_ =? _)%N; tauto).
  assert (Hp1 : empty_channels s = 1%N → p = CloseLoad k) by (subst p; by intros ->). clearbody p.
  assert (Hcx : counted x = 1%N ∧ counted (in_section p x) = 0%N).
  { pose proof (ok_section _ Hx) as Hso. unfold section_ok in Hso. rewrite Hsec in Hso. unfold counted. cbn. rewrite Hsec.
    assert (Hl : leaked x = false).
    { destruct (leaked x) eqn:E; [|done]. destruct (ok_leaked _ Hx E) as [Hd Hne]. rewrite Hd in Hso.
      destruct k; [by destruct Hso as [(v & d & ?) _]|by destruct Hso|by destruct Hne]. }
    rewrite Hl. split; [done|].
    destruct Hp as [-> | ->], k; cbn; try done; [destruct Hso as [(v & d & ->) _]|rewrite Hso|destruct Hso as [(v & d & ->) _]|rewrite Hso]; done. }
  destruct Hcx as [Hcx Hcx']. pose proof (counted_ge s c x 1 Hok Hc) as Hge. rewrite Hcx in Hge. specialize (Hge ltac:(lia)).
  pose proof (empty_fits s Hok) as Hfit. rewrite fetch_sub_fits by lia. set (s' := set_empty _ _).
  assert (Hhas : ∀ P : phase → Prop, (∀ p, P p → opening p ∨ locking p) → has s' P ↔ has s P).
  { intros P HP. eapply has_same; [done..|]. rewrite Hsec. cbn. split; intros H%HP; exfalso; revert H; destruct Hp as [-> | ->]; role. }
  assert (Hset : has s' setting ↔ has s setting) by (apply Hhas; unfold locking; tauto).
  assert (Htak : has s' taking ↔ has s taking) by (apply Hhas; unfold locking; tauto).
  apply (update_ok s _ c x (in_section p x)); try done; rewrite ?Hset, ?Htak, ?Hhas by tauto.
  - apply chan_ok_section; [done| |by destruct Hp as [-> | ->]]. eapply section_ok_next; [done..|apply Hx].
  - cbn. rewrite Hcx, Hcx'. lia.
  - change (gate_lock s') with (gate_lock s). rewrite <- (ok_lock _ Hok _ _ Hc), Hsec. cbn. destruct Hp as [-> | ->]; role.
  - apply Hok.
  - cbn. intros He. apply (ok_open _ Hok). lia.
  - cbn. intros He _. eapply has_here; [done..|]. cbn. rewrite Hp1 by lia. role.
  - apply (asleep_same s c x); [done..|]. intros [?|Hs]; [by left|]. right. rewrite Hsec in Hs. by destruct Hp as [-> | ->].
  - apply (recv_same s c x); [done..|]. intros [? [?|Hs]]; (split; [done|]); [by left|]. right. rewrite Hsec in Hs. by destruct Hp as [-> | ->].
Qed.

(** The rest of [decr_empty_channels] keeps what the section knows. *)
Lemma shut_section x k p q :
  p = CloseLoad k ∨ p = CloseSet k → q = CloseSet k ∨ q = Done k → section x = p → chan_ok x →
  chan_ok (in_section q x) ∧ counted (in_section q x) = counted x ∧
  (sender_ok x → sender_ok (in_section q x)) ∧ (receiver_ok x → receiver_ok (in_section q x)).
Proof.
  intros Hp Hq Hsec Hx. split_and!.
  - apply chan_ok_section; [done| |by destruct Hq as [-> | ->]]. pose proof (ok_section _ Hx) as Hso.
    unfold section_ok in *. rewrite Hsec in Hso. destruct Hp as [-> | ->], Hq as [-> | ->], k; cbn; tauto.
  - unfold counted. cbn. rewrite Hsec. by destruct Hp as [-> | ->], Hq as [-> | ->], k.
  - intros [?|Hs]; [by left|]. right. rewrite Hsec in Hs. by destruct Hp as [-> | ->], Hq as [-> | ->].
  - intros [? [?|Hs]]; (split; [done|]); [by left|]. right. rewrite Hsec in Hs. by destruct Hp as [-> | ->], Hq as [-> | ->].
Qed.

Lemma close_load_ok s c x k :
  ok s → chans s !! c = Some x → section x = CloseLoad k → gate_lock s = None → empty_channels s = 0%N → send_wakers s = None →
  ok (set_gate (send_wakers s) (Some c) (set_chan c (in_section (CloseSet k) x) s)).
Proof.
  intros Hok Hc Hsec Hl He Hw. pose proof (ok_chans _ Hok _ _ Hc) as Hx.
  destruct (shut_section x k _ (CloseSet k) (or_introl eq_refl) (or_introl eq_refl) Hsec Hx) as (Hx' & Hn & Hs & Hr).
  apply (update_ok s _ c x (in_section (CloseSet k) x)); try done; cbn.
  - by rewrite Hn.
  - role.
  - intros c' Hne. rewrite Hl. naive_solver.
  - rewrite He. lia.
  - intros _ _. eapply has_here; [done..|]. role.
  - by apply (asleep_same s c x).
  - by apply (recv_same s c x).
Qed.

Lemma close_skip_ok s c x k :
  ok s → chans s !! c = Some x → section x = CloseLoad k → gate_lock s = None → empty_channels s ≠ 0%N ∨ send_wakers s ≠ None →
  ok (set_chan c (in_section (Done k) x) s).
Proof.
  intros Hok Hc Hsec Hl He. pose proof (ok_chans _ Hok _ _ Hc) as Hx.
  destruct (shut_section x k _ (Done k) (or_introl eq_refl) (or_intror eq_refl) Hsec Hx) as (Hx' & Hn & Hs & Hr).
  set (s' := set_chan _ _ _).
  assert (Hset : has s' setting ↔ has s setting) by (eapply has_same; [done..|rewrite Hsec; role]).
  assert (Hop : has s' opening ↔ has s opening) by (eapply has_same; [done..|rewrite Hsec; role]).
  apply (update_ok s _ c x (in_section (Done k) x)); try done; rewrite ?Hset, ?Hop; cbn.
  - by rewrite Hn.
  - rewrite Hl. role.
  - apply Hok.
  - apply Hok.
  - intros He0 [Hw|Ht]; [by destruct He|]. exfalso. revert Ht.
    eapply (has_locking s); [done..|apply taking_locking|by left|role].
  - by apply (asleep_same s c x).
  - by apply (recv_same s c x).
Qed.

Lemma close_set_ok s c x k :
  ok s → chans s !! c = Some x → section x = CloseSet k →
  ok (set_gate (Some []) None (set_chan c (in_section (Done k) x) s)).
Proof.
  intros Hok Hc Hsec. pose proof (ok_chans _ Hok _ _ Hc) as Hx.
  destruct (shut_section x k _ (Done k) (or_intror eq_refl) (or_intror eq_refl) Hsec Hx) as (Hx' & Hn & Hs & Hr).
  assert (Hhs : has s setting) by (exists c, x; rewrite Hsec; split; [done|by exists k]).
  assert (Hl : gate_lock s = Some c) by (apply (ok_lock _ Hok _ _ Hc); rewrite Hsec; role).
  pose proof (ok_set _ Hok Hhs) as Hw. set (s' := set_gate _ _ _).
  apply (update_ok s _ c x (in_section (Done k) x)); try done.
  - cbn. by rewrite Hn.
  - role.
  - intros c' Hne. rewrite Hl. cbn. naive_solver.
  - intros H. exfalso. revert H. eapply (has_locking s); [done..|apply setting_locking|by right|role].
  - intros He _. eapply has_keep; [done..|by apply (ok_open _ Hok); [|by right]|]. rewrite Hsec. role.
  - intros He [?|H]; [done|]. exfalso. revert H. eapply (has_locking s); [done..|apply taking_locking|by right|role].
  - intros t c' Ht. destruct (ok_asleep _ Hok t c' Ht) as (ws & y & Hws & _). congruence.
  - by apply (recv_same s c x).
Qed.

(** The end of a send and of the last sender's drop. *)
Lemma wake_receiver_ok s c x k ws' :
  ok s → chans s !! c = Some x → section x = Done k →
  (k = AfterSend ∧ ws' = Some [] ∨ k = AfterSenderDrop ∧ ws' = None) →
  ok (set_recv_asleep (recv_asleep s ∖ {[c]}) (set_chan c (with_wakers ws' (in_section Free x)) s)).
Proof.
  intros Hok Hc Hsec Hk. pose proof (ok_chans _ Hok _ _ Hc) as Hx. pose proof Hx as [H1 H2 H3 H4 H5].
  unfold section_ok in H1. rewrite Hsec in H1.
  apply (quiet_ok s _ c x (with_wakers ws' (in_section Free x))); try done.
  - constructor; cbn; try done; [intros Hl; by split; [apply H2|]|..].
    + intros ->. destruct Hk as [[? ?]|[-> _]]; [done|]. by destruct H1 as (_ & ? & ?).
    + intros Hcl. split; [by apply H4|]. destruct Hk as [[_ ->]|[-> _]]; [done|]. destruct H1 as (_ & _ & ?). congruence.
  - unfold counted. cbn. rewrite Hsec. destruct Hk as [[-> ->]|[-> ->]].
    + destruct H1 as [(v & d & ->) _]. done.
    + by destruct (data x) as [[]|].
  - rewrite Hsec. plain.
  - plain.
  - intros [?|Hs]; [by left|]. rewrite Hsec in Hs. destruct Hk as [[-> _]|[-> _]]; done.
  - cbn. apply recv_other; set_solver.
Qed.

(** The end of the receiver's drop: its senders are woken. *)
Lemma wake_senders_ok s c x :
  ok s → chans s !! c = Some x → section x = Done AfterReceiverDrop → gate_lock s = None →
  ok (match send_wakers s with
      | Some ws => wake_all (filter (λ w, w.2 = c) ws) (set_gate (Some (filter (λ w, w.2 ≠ c) ws)) None (set_chan c (in_section Free x) s))
      | None => set_chan c (in_section Free x) s
      end).
Proof.
  intros Hok Hc Hsec Hl. pose proof (ok_chans _ Hok _ _ Hc) as Hx. pose proof (ok_section _ Hx) as Hso.
  unfold section_ok in Hso. rewrite Hsec in Hso. match goal with |- ok ?S => set (s' := S) end.
  assert (Hs' : chans s' = <[c := in_section Free x]> (chans s) ∧ empty_channels s' = empty_channels s ∧
    (send_wakers s' = None ↔ send_wakers s = None) ∧ gate_lock s' = None ∧ recv_asleep s' = recv_asleep s).
  { subst s'. destruct (send_wakers s) eqn:E; cbn; rewrite ?E; done. }
  destruct Hs' as (Hch & He & Hw & Hl' & Hr).
  assert (Hhas : ∀ P : phase → Prop, (∀ p, P p → opening p ∨ shutting p ∨ locking p) → has s' P ↔ has s P).
  { intros P HP. eapply has_same; [done..|]. rewrite Hsec. cbn. split; intros H%HP; exfalso; revert H; role. }
  assert (Hset : has s' setting ↔ has s setting) by (apply Hhas; unfold locking; tauto).
  assert (Htak : has s' taking ↔ has s taking) by (apply Hhas; unfold locking; tauto).
  apply (update_ok s _ c x (in_section Free x)); try done; rewrite ?He, ?Hl', ?Hl, ?Hset, ?Htak, ?Hw, ?Hr, ?Hhas by tauto; try apply Hok.
  - by apply chan_ok_section.
  - unfold counted. cbn. by rewrite Hsec.
  - role.
  - done.
  - intros t c' Ht. subst s'. destruct (send_wakers s) as [ws|] eqn:E.
    + cbn in Ht. apply foldr_delete in Ht as [Ht Hn]. destruct (ok_asleep _ Hok t c' Ht) as (ws' & y & Hws' & Hin & _).
      rewrite E in Hws'. injection Hws' as <-.
      assert (Hne : c' ≠ c).
      { intros ->. apply Hn. apply list_elem_of_fmap. exists (t, c). split; [done|]. by apply list_elem_of_filter. }
      eexists. split; [done|]. split; [by apply list_elem_of_filter|]. by rewrite decide_False.
    + destruct (ok_asleep _ Hok t c' Ht) as (ws' & y & Hws' & _). congruence.
  - apply (recv_same s c x); [done..|]. intros [? [?|Hs]]; [by split; [|left]|by rewrite Hsec in Hs].
Qed.

Lemma incr_ok s c x :
  ok s → chans s !! c = Some x → section x = RecvIncr →
  let p := if (empty_channels s =? 0)%N then OpenLoad else Free in
  ok (set_empty (fetch_add (empty_channels s) 1) (set_chan c (in_section p x) s)).
Proof.
  intros Hok Hc Hsec p. pose proof (ok_chans _ Hok _ _ Hc) as Hx.
  assert (Hp : p = OpenLoad ∨ p = Free) by (subst p; destruct (_ =? _)%N; tauto).
  assert (Hp0 : empty_channels s = 0%N → p = OpenLoad) by (subst p; by intros ->). clearbody p.
  pose proof (ok_section _ Hx) as Hso. unfold section_ok in Hso. rewrite Hsec in Hso. destruct Hso as [Hd [ws Hw]].
  assert (Hlk : leaked x = false).
  { destruct (leaked x) eqn:E; [|done]. destruct (ok_leaked _ Hx E). congruence. }
  assert (Hcx : counted x = 0%N ∧ counted (in_section p x) = 1%N).
  { unfold counted. cbn. rewrite Hsec, Hlk, Hd, Hw. by destruct Hp as [-> | ->]. }
  destruct Hcx as [Hcx Hcx'].
  assert (Hx' : chan_ok (in_section p x)).
  { apply chan_ok_section; [done| |by destruct Hp as [-> | ->]]. unfold section_ok. cbn. rewrite Hd, Hw. by destruct Hp as [-> | ->]. }
  assert (Hfit : (empty_channels s + 1 < usize_end)%N).
  { pose proof (total_set _ _ _ (in_section p x) Hc) as Ht. rewrite <- (ok_count _ Hok) in Ht.
    assert (Hle : (total (<[c := in_section p x]> (chans s)) ≤ N.of_nat (length (chans s)))%N).
    { etrans; [apply total_le|by rewrite length_insert].
      intros c' y [(-> & <- & _)|[Hne Hy]]%list_lookup_insert_Some; [done|by eapply (ok_chans _ Hok)]. }
    pose proof (ok_size _ Hok). lia. }
  rewrite fetch_add_fits by done. set (s' := set_empty _ _).
  assert (Hset : has s' setting ↔ has s setting) by (eapply has_same; [done..|rewrite Hsec; cbn; destruct Hp as [-> | ->]; role]).
  apply (update_ok s _ c x (in_section p x)); try done; rewrite ?Hset.
  - cbn. rewrite Hcx, Hcx'. lia.
  - change (gate_lock s') with (gate_lock s). rewrite <- (ok_lock _ Hok _ _ Hc), Hsec. cbn. destruct Hp as [-> | ->]; role.
  - apply Hok.
  - intros _ Hs. destruct (N.eq_dec (empty_channels s) 0) as [E|E].
    + eapply has_here; [done..|]. cbn. rewrite Hp0 by done. role.
    + eapply has_keep; [done..|by apply (ok_open _ Hok); [lia|]|]. rewrite Hsec. role.
  - cbn. intros He. lia.
  - apply (asleep_same s c x); [done..|]. intros _. left. cbn. by rewrite Hd.
  - apply (recv_same s c x); [done..|]. intros _. split; [cbn; by rewrite Hw|by left].
Qed.

(** [RecvFuture::poll] opens the gate. *)
Lemma open_section x p q :
  p = OpenLoad ∨ p = OpenTake → q = OpenTake ∨ q = Free → section x = p → chan_ok x →
  chan_ok (in_section q x) ∧ counted (in_section q x) = counted x ∧ sender_ok (in_section q x) ∧ receiver_ok (in_section q x).
Proof.
  intros Hp Hq Hsec Hx. pose proof (ok_section _ Hx) as Hso. unfold section_ok in Hso.
  assert (Hdw : data x = Some [] ∧ is_Some (recv_wakers x)) by (rewrite Hsec in Hso; by destruct Hp as [-> | ->]).
  destruct Hdw as [Hd Hw]. split_and!.
  - apply chan_ok_section; [done| |by destruct Hq as [-> | ->]]. unfold section_ok. cbn. by destruct Hq as [-> | ->].
  - unfold counted. cbn. rewrite Hsec. by destruct Hp as [-> | ->], Hq as [-> | ->].
  - left. cbn. by rewrite Hd.
  - split; [done|by left].
Qed.

Lemma open_load_ok s c x :
  ok s → chans s !! c = Some x → section x = OpenLoad → gate_lock s = None → (0 < empty_channels s)%N →
  ok (set_gate (send_wakers s) (Some c) (set_chan c (in_section OpenTake x) s)).
Proof.
  intros Hok Hc Hsec Hl He. pose proof (ok_chans _ Hok _ _ Hc) as Hx.
  destruct (open_section x _ OpenTake (or_introl eq_refl) (or_introl eq_refl) Hsec Hx) as (Hx' & Hn & Hs & Hr).
  set (s' := set_gate _ _ _).
  assert (Hset : has s' setting ↔ has s setting) by (eapply has_same; [done..|rewrite Hsec; role]).
  apply (update_ok s _ c x (in_section OpenTake x)); try done; rewrite ?Hset.
  - cbn. by rewrite Hn.
  - role.
  - intros c' Hne. rewrite Hl. cbn. naive_solver.
  - apply Hok.
  - intros _ _. eapply has_here; [done..|]. role.
  - cbn. lia.
  - by apply (asleep_same s c x).
  - by apply (recv_same s c x).
Qed.

Lemma open_skip_ok s c x :
  ok s → chans s !! c = Some x → section x = OpenLoad → gate_lock s = None → empty_channels s = 0%N →
  ok (set_chan c (in_section Free x) s).
Proof.
  intros Hok Hc Hsec Hl He. pose proof (ok_chans _ Hok _ _ Hc) as Hx.
  destruct (open_section x _ Free (or_introl eq_refl) (or_intror eq_refl) Hsec Hx) as (Hx' & Hn & Hs & Hr).
  set (s' := set_chan _ _ _).
  assert (Hhas : ∀ P : phase → Prop, (∀ p, P p → shutting p ∨ locking p) → has s' P ↔ has s P).
  { intros P HP. eapply has_same; [done..|]. rewrite Hsec. cbn. split; intros H%HP; exfalso; revert H; role. }
  assert (Hset : has s' setting ↔ has s setting) by (apply Hhas; unfold locking; tauto).
  assert (Htak : has s' taking ↔ has s taking) by (apply Hhas; unfold locking; tauto).
  apply (update_ok s _ c x (in_section Free x)); try done; rewrite ?Hset, ?Htak.
  - cbn. by rewrite Hn.
  - cbn. rewrite Hl. role.
  - apply Hok.
  - cbn. rewrite He. lia.
  - rewrite Hhas by tauto. apply Hok.
  - by apply (asleep_same s c x).
  - by apply (recv_same s c x).
Qed.

Lemma open_take_ok s c x :
  ok s → chans s !! c = Some x → section x = OpenTake →
  ok (wake_all (default [] (send_wakers s)) (set_gate None None (set_chan c (in_section Free x) s))).
Proof.
  intros Hok Hc Hsec. pose proof (ok_chans _ Hok _ _ Hc) as Hx.
  destruct (open_section x _ Free (or_intror eq_refl) (or_intror eq_refl) Hsec Hx) as (Hx' & Hn & Hs & Hr).
  assert (Ht : has s taking) by (exists c, x; by rewrite Hsec).
  assert (Hl : gate_lock s = Some c) by (apply (ok_lock _ Hok _ _ Hc); rewrite Hsec; role).
  set (s' := wake_all _ _). apply (update_ok s _ c x (in_section Free x)); try done.
  - cbn. by rewrite Hn.
  - role.
  - intros c' Hne. rewrite Hl. cbn. naive_solver.
  - intros _ [?|H]; [done|]. exfalso. revert H. eapply (has_locking s); [done..|apply setting_locking|by right|role].
  - intros He _. eapply has_keep; [done..|by apply (ok_shut _ Hok); [|by right]|]. rewrite Hsec. role.
  - intros t c' Hsl. cbn in Hsl. apply foldr_delete in Hsl as [Hsl Hnin]. exfalso. apply Hnin.
    destruct (ok_asleep _ Hok t c' Hsl) as (ws & y & -> & Hin & _). apply list_elem_of_fmap. by exists (t, c').
  - by apply (recv_same s c x).
Qed.

Lemma advance_ok s s' c : ok s → advance c s = Some s' → ok s'.
Proof.
  intros Hok. unfold advance. intros (x & Hc & Hs')%bind_Some. pose proof (ok_chans _ Hok _ _ Hc) as Hx.
  destruct (section x) as [|t v|t v|k|k|k|k| | |] eqn:Hsec; [done|..].
  - destruct (_ =? _)%N; [|by eapply channel_push_ok; eauto]. injection Hs' as <-.
    pose proof (ok_section _ Hx) as Hso. unfold section_ok in Hso. rewrite Hsec in Hso.
    apply (quiet_ok s _ c x (in_section (SendGate t v) x)); try done.
    + by apply chan_ok_section.
    + unfold counted. cbn. by rewrite Hsec.
    + rewrite Hsec. plain.
    + plain.
    + intros [?|Hs]; [by left|by rewrite Hsec in Hs].
    + apply (recv_same s c x); [done..|]. intros [? [?|Hs]]; [by split; [|left]|by rewrite Hsec in Hs].
  - destruct (gate_lock s) eqn:Hl; [done|]. destruct (send_wakers s) eqn:Hw; [|by eapply channel_push_ok; eauto].
    injection Hs' as <-. by eapply suspend_ok.
  - injection Hs' as <-. by apply decr_ok.
  - destruct (gate_lock s) eqn:Hl; [done|]. injection Hs' as <-. destruct (_ && _) eqn:Hg.
    + apply andb_true_iff in Hg as [?%N.eqb_eq ?%bool_decide_eq_true]. by apply close_load_ok.
    + apply close_skip_ok; try done. apply andb_false_iff in Hg as [?%N.eqb_neq|?%bool_decide_eq_false]; tauto.
  - injection Hs' as <-. by apply close_set_ok.
  - unfold finish in Hs'. destruct k.
    + destruct (recv_wakers x); [|done]. injection Hs' as <-. eapply wake_receiver_ok; eauto.
    + destruct (recv_wakers x); [|done]. injection Hs' as <-. eapply wake_receiver_ok; eauto.
    + destruct (gate_lock s) eqn:Hl; [done|]. injection Hs' as <-. by apply wake_senders_ok.
  - injection Hs' as <-. by apply incr_ok.
  - destruct (gate_lock s) eqn:Hl; [done|]. injection Hs' as <-. destruct (0 <? _)%N eqn:Hg.
    + apply N.ltb_lt in Hg. by apply open_load_ok.
    + apply N.ltb_ge in Hg. apply open_skip_ok; try done. lia.
  - injection Hs' as <-. by apply open_take_ok.
Qed.

Lemma channel_exec_ok s e s' : ok s → exec e s = Some s' → ok s'.
Proof.
  intros Hok. destruct e as [c t v|c t|c|c|c|c|c]; cbn [exec]; [..|by apply advance_ok];
    intros (x & Hc & Hs')%bind_Some.
  - by eapply send_poll_ok.
  - by eapply recv_poll_ok.
  - destruct (n_senders x) as [|n] eqn:Hn; [done|]. injection Hs' as <-.
    pose proof (ok_chans _ Hok _ _ Hc) as Hx. apply clone_drop_ok; [done..|by rewrite Hn|].
    destruct (closing x) eqn:E; [|done]. destruct (ok_closing _ Hx E). congruence.
  - unfold drop_sender in Hs'. destruct (n_senders x) as [|[|n]] eqn:Hn; [done|..]; injection Hs' as <-.
    + apply clone_drop_ok; [done..|by rewrite Hn|done].
    + pose proof (ok_chans _ Hok _ _ Hc) as Hx. apply clone_drop_ok; [done..|by rewrite Hn|].
      destruct (closing x) eqn:E; [|done]. destruct (ok_closing _ Hx E). congruence.
  - by eapply close_sender_ok.
  - by eapply drop_receiver_ok.
Qed.

Lemma total_replicate n : total (replicate n new_channel) = N.of_nat n.
Proof. induction n as [|n IH]; [done|]. cbn [replicate total foldr]. fold (total (replicate n new_channel)). rewrite IH. change (counted new_channel) with 1%N. lia. Qed.

Lemma new_free n (P : phase → Prop) : ¬ P Free → ¬ has (channels n) P.
Proof. intros HP (c & x & [-> _]%lookup_replicate & Hx). done. Qed.

Lemma channels_ok n : 0 < n → (N.of_nat n < usize_end)%N → ok (channels n).
Proof.
  intros Hn Hsize. constructor; cbn; try done.
  - intros c x [-> _]%lookup_replicate. constructor; try done. by intros d [= <-].
  - by rewrite total_replicate.
  - by rewrite length_replicate.
  - intros c x [-> _]%lookup_replicate. role.
  - intros _ [?|H]; [done|]. exfalso. revert H. apply new_free. role.
  - intros He. lia.
Qed.

Lemma channel_reachable_ok n s : 0 < n → (N.of_nat n < usize_end)%N → rtc step (channels n) s → ok s.
Proof.
  intros Hn Hsize Hs. assert (Hi : ok (channels n)) by by apply channels_ok. revert Hi.
  induction Hs as [|s1 s2 s3 (e & H12) _ IH]; [done|]. intros Hok. apply IH. by eapply channel_exec_ok.
Qed.

(** ** Sections come to an end *)

Definition quiescent (s : system) : bool := forallb is_free (chans s).

Definition rank (p : phase) : nat :=
  match p with
  | Free => 0 | SendLoad _ _ => 7 | SendGate _ _ => 6 | Decr _ => 5 | CloseLoad _ => 4 | CloseSet _ => 3 | Done _ => 2
  | RecvIncr => 4 | OpenLoad => 3 | OpenTake => 2
  end.

Definition ranks (l : list channel) : nat := foldr (λ x n, rank (section x) + n) 0 l.

Lemma ranks_set l c x x' : l !! c = Some x → rank (section x') < rank (section x) → ranks (<[c := x']> l) < ranks l.
Proof.
  revert c. induction l as [|y l IH]; intros [|c] Hc Hr; cbn in Hc; [done..| |].
  - injection Hc as ->. cbn. lia.
  - specialize (IH c Hc Hr). change (<[S c := x']> (y :: l)) with (y :: <[c := x']> l). cbn [ranks foldr].
    fold (ranks (<[c := x']> l)) (ranks l). lia.
Qed.

(** A section that has the lock of the wakers, or finds it free, goes on. *)
Lemma advance_enabled s c x :
  ok s → chans s !! c = Some x → section x ≠ Free → gate_lock s = None ∨ gate_lock s = Some c →
  ∃ s', advance c s = Some s' ∧ ranks (chans s') < ranks (chans s).
Proof.
  intros Hok Hc Hne Hl. pose proof (ok_section _ (ok_chans _ Hok _ _ Hc)) as Hso. unfold section_ok in Hso.
  assert (Hlk : ¬ locking (section x) → gate_lock s = None).
  { intros Hn. destruct Hl as [?|Hl]; [done|]. by apply (ok_lock _ Hok _ _ Hc) in Hl. }
  assert (Hstep : ∀ s' x', chans s' = <[c := x']> (chans s) → rank (section x') < rank (section x) →
    ∃ s'', Some s' = Some s'' ∧ ranks (chans s'') < ranks (chans s)).
  { intros s' x' Hs' Hr. eexists. split; [done|]. rewrite Hs'. by apply (ranks_set _ _ x). }
  assert (Hpush : ∀ v d, data x = Some d → 5 < rank (section x) → ∃ s', push c v x s = Some s' ∧ ranks (chans s') < ranks (chans s)).
  { intros v d Hd Hr. unfold push. rewrite Hd. eapply Hstep; [done|]. cbn. case_decide; cbn; lia. }
  unfold advance. rewrite Hc. cbn [mbind option_bind].
  destruct (section x) as [|t v|t v|k|k|k|k| | |] eqn:Hsec; try done; try (rewrite Hlk by role).
  - destruct Hso as [[d Hd] _], (_ =? _)%N; [|by eapply Hpush; [|cbn; lia]]. eapply Hstep; [done|cbn; lia].
  - destruct Hso as [[d Hd] _], (send_wakers s); [|by eapply Hpush; [|cbn; lia]]. eapply Hstep; [done|cbn; lia].
  - eapply Hstep; [done|]. cbn. destruct (_ =? _)%N; cbn; lia.
  - destruct (_ && _); (eapply Hstep; [done|cbn; lia]).
  - eapply Hstep; [done|cbn; lia].
  - destruct k; cbn [finish].
    + destruct Hso as [_ [ws ->]]. eapply Hstep; [done|cbn; lia].
    + destruct Hso as [[ws ->] _]. eapply Hstep; [done|cbn; lia].
    + rewrite Hlk by role. cbn. destruct (send_wakers s); (eapply Hstep; [done|cbn; lia]).
  - eapply Hstep; [done|]. cbn. destruct (_ =? _)%N; cbn; lia.
  - destruct (_ <? _)%N; (eapply Hstep; [done|cbn; lia]).
  - eapply Hstep; [done|cbn; lia].
Qed.

Definition is_advance (e : event) : bool := match e with Advance _ => true | _ => false end.

(** Whatever is under way can be completed: sections neither panic nor wait for
    each other in a circle. *)
Lemma settles s :
  ok s → ∃ es s', forallb is_advance es = true ∧ run es s = Some s' ∧ quiescent s' = true.
Proof.
  remember (ranks (chans s)) as n eqn:Hn. revert s Hn. induction n as [n IH] using lt_wf_ind. intros s -> Hok.
  destruct (quiescent s) eqn:Hq; [by exists [], s|].
  assert (Hbusy : ∃ c x, chans s !! c = Some x ∧ section x ≠ Free ∧ (gate_lock s = None ∨ gate_lock s = Some c)).
  { destruct (gate_lock s) as [c|] eqn:Hl.
    - destruct (ok_locked _ Hok c Hl) as [x Hx]. exists c, x. split_and!; [done| |by right].
      pose proof (proj2 (ok_lock _ Hok _ _ Hx) Hl) as Hlk. intros E. rewrite E in Hlk. revert Hlk. role.
    - unfold quiescent in Hq. apply not_true_iff_false in Hq. rewrite forallb_Forall in Hq.
      apply (not_Forall_Exists _) in Hq. apply Exists_exists in Hq as (x & [c Hc]%list_elem_of_lookup & Hx).
      exists c, x. split_and!; [done| |by left]. intros E. apply Hx. unfold is_free. by rewrite E. }
  destruct Hbusy as (c & x & Hc & Hne & Hl).
  destruct (advance_enabled s c x Hok Hc Hne Hl) as (s1 & H1 & Hr).
  destruct (IH _ Hr s1 eq_refl) as (es & s' & Hes & Hrun & Hq'); [by eapply advance_ok|].
  exists (Advance c :: es), s'. cbn. rewrite Hes, H1. done.
Qed.

Lemma quiescent_free s c x : quiescent s = true → chans s !! c = Some x → section x = Free.
Proof.
  unfold quiescent. rewrite forallb_Forall. intros H Hc. eapply Forall_lookup_1 in H; [|done]. by apply is_free_section.
Qed.

Lemma quiescent_has s (P : phase → Prop) : quiescent s = true → ¬ P Free → ¬ has s P.
Proof. intros Hq HP (c & x & Hc & Hx). by rewrite (quiescent_free s c x Hq Hc) in Hx. Qed.

(** A channel that can still be sent to and holds nothing. *)
Definition open_empty (x : channel) : Prop := data x = Some [] ∧ is_Some (recv_wakers x).

Lemma open_empty_counted s c x :
  ok s → quiescent s = true → chans s !! c = Some x → open_empty x → (0 < empty_channels s)%N.
Proof.
  intros Hok Hq Hc [Hd [ws Hw]]. assert (1 ≤ empty_channels s)%N; [|lia].
  apply (counted_ge s c x 1 Hok Hc). unfold counted. rewrite (quiescent_free s c x Hq Hc), Hd, Hw. destruct (leaked x); lia.
Qed.

Lemma total_zero l : (∀ c x, l !! c = Some x → counted x = 0%N) → total l = 0%N.
Proof.
  induction l as [|x l IH]; intros Hl; [done|]. cbn [total foldr]. fold (total l).
  rewrite (Hl 0 x eq_refl), (IH (λ c y, Hl (S c) y)). done.
Qed.

(** With no empty channel a sender that is polled is suspended. *)
Lemma gate_closed s c t v x d :
  ok s → quiescent s = true → empty_channels s = 0%N → chans s !! c = Some x → data x = Some d → 0 < n_senders x →
  ∃ s', run [SendPoll c t v; Advance c; Advance c] s = Some s' ∧ asleep s' !! t = Some c.
Proof.
  intros Hok Hq He Hc Hd Hsn.
  assert (is_Some (send_wakers s)) as [ws Hws].
  { apply not_eq_None_Some. intros Hw. apply (quiescent_has s shutting Hq); [role|]. apply (ok_shut _ Hok He). by left. }
  assert (Hl : gate_lock s = None).
  { destruct (gate_lock s) as [c'|] eqn:E; [|done]. destruct (ok_locked _ Hok c' E) as [y Hy].
    pose proof (proj2 (ok_lock _ Hok _ _ Hy) E) as H. rewrite (quiescent_free s c' y Hq Hy) in H. revert H. role. }
  pose proof (lookup_lt_Some _ _ _ Hc) as Hlt. pose proof (quiescent_free s c x Hq Hc) as Hf.
  eexists. split.
  - cbn. rewrite Hc. cbn. unfold send_poll, is_free. rewrite Hf, bool_decide_true, Hd by done. cbn.
    unfold advance. cbn. rewrite list_lookup_insert_eq by done. cbn. rewrite He. cbn.
    rewrite list_lookup_insert_eq by (by rewrite length_insert). cbn. rewrite Hl, Hws. reflexivity.
  - cbn. apply lookup_insert_eq.
Qed.

(** C29. The gate of the distribution channels, for every interleaving of the
    accesses that calls of senders and receivers make to locks and counters: every
    channel is a queue, and the calls under way can always be completed, without a
    panic.  When no call is under way, a suspended sender means that every channel
    that is open holds data for a receiver that exists, a suspended receiver means
    that no sender is suspended and its channel is open and empty, and (if no
    receiver was dropped while the last sender was leaving) a sender is suspended
    whenever every open channel holds data. *)
Theorem distributor_no_lost_wakeup n s :
  0 < n → (N.of_nat n < usize_end)%N → rtc step (channels n) s →
  (∀ c x d, chans s !! c = Some x → data x = Some d → sent x = received x ++ d) ∧
  (∃ es s', forallb is_advance es = true ∧ run es s = Some s' ∧ quiescent s' = true) ∧
  (quiescent s = true →
    (∀ t c, asleep s !! t = Some c →
       (∃ x, chans s !! c = Some x ∧ is_Some (data x)) ∧ ∀ c' x, chans s !! c' = Some x → ¬ open_empty x) ∧
    (∀ c, c ∈ recv_asleep s → asleep s = ∅ ∧ ∃ x, chans s !! c = Some x ∧ open_empty x) ∧
    ((∀ c x, chans s !! c = Some x → leaked x = false ∧ ¬ open_empty x) →
       ∀ c t v x, chans s !! c = Some x → is_Some (data x) → 0 < n_senders x →
       ∃ s', run [SendPoll c t v; Advance c; Advance c] s = Some s' ∧ asleep s' !! t = Some c)).
Proof.
  intros Hn Hsize Hs. pose proof (channel_reachable_ok n s Hn Hsize Hs) as Hok. split_and!.
  - intros c x d Hc. apply (ok_queue _ (ok_chans _ Hok _ _ Hc)).
  - by apply settles.
  - intros Hq. assert (Hblocked : ∀ t c, asleep s !! t = Some c → empty_channels s = 0%N).
    { intros t c Ht. destruct (ok_asleep _ Hok t c Ht) as (ws & _ & Hws & _).
      destruct (N.eq_dec (empty_channels s) 0) as [|He]; [done|]. exfalso.
      apply (quiescent_has s opening Hq); [role|]. apply (ok_open _ Hok); [lia|]. left. by rewrite Hws. }
    split_and!.
    + intros t c Ht. split.
      * destruct (ok_asleep _ Hok t c Ht) as (_ & x & _ & _ & Hc & [Hd|Hd]); [exists x; split; [done|by apply not_eq_None_Some]|].
        by rewrite (quiescent_free s c x Hq Hc) in Hd.
      * intros c' x Hc' Hoe. pose proof (open_empty_counted s c' x Hok Hq Hc' Hoe). rewrite (Hblocked t c Ht) in *. lia.
    + intros c Hc. destruct (ok_recv _ Hok c Hc) as (x & Hx & Hw & [Hd|Hd]); [|by rewrite (quiescent_free s c x Hq Hx) in Hd].
      split; [|exists x; by split_and!]. apply map_empty. intros t. destruct (asleep s !! t) as [c'|] eqn:Ht; [|done].
      pose proof (open_empty_counted s c x Hok Hq Hx (conj Hd Hw)). rewrite (Hblocked t c' Ht) in *. lia.
    + intros Hall c t v x Hc [d Hd] Hsn.
      assert (He : empty_channels s = 0%N).
      { rewrite (ok_count _ Hok). apply total_zero. intros c' y Hy. destruct (Hall c' y Hy) as [Hl Ho]. unfold counted.
        rewrite Hl, (quiescent_free s c' y Hq Hy). destruct (data y) as [[|]|] eqn:E1, (recv_wakers y) eqn:E2; try done.
        destruct Ho. split; [done|]. by rewrite E2. }
      by eapply gate_closed.
Qed.

End Channels.

(** ** Examples *)

Section Examples.

Lemma channel_run_steps (es : list (event (T:=nat))) s s' : run es s = Some s' → rtc step s s'.
Proof.
  revert s. induction es as [|e es IH]; intros s; cbn; [intros [= <-]; apply rtc_refl|].
  intros (s1 & He & Hr)%bind_Some. eapply rtc_l; [by exists e|by apply IH].
Qed.

(** Two channels are filled, and a third element has to wait. *)
Lemma distributor_no_lost_wakeup_witness :
  ∃ s : system (T:=nat), rtc step (channels 2) s ∧ asleep s !! 2 = Some 0 ∧
    ∀ c x, chans s !! c = Some x → ¬ open_empty x.
Proof.
  pose (es := [SendPoll 0 1 10; Advance 0; Advance 0; Advance 0; SendPoll 1 1 20; Advance 1; Advance 1; Advance 1;
    Advance 1; Advance 1; SendPoll 0 2 11; Advance 0; Advance 0] : list (event (T:=nat))).
  eexists. match goal with |- ?R ∧ _ => assert R as Hs end; [apply (channel_run_steps es); vm_compute; reflexivity|].
  split; [exact Hs|]. split; [reflexivity|].
  destruct (distributor_no_lost_wakeup 2 _ (le_S _ _ (le_n 1)) eq_refl Hs) as (_ & _ & Hq).
  destruct (Hq eq_refl) as (Ha & _ & _). apply (Ha 2 0). reflexivity.
Defined.

(** The state after the race, with [d] in the second channel. *)
Definition raced (d : list nat) : system :=
  {| chans := [ {| n_senders := 0; data := None; recv_wakers := None; section := Free; closing := false;
                   sent := []; received := []; leaked := true |};
                {| n_senders := 1; data := Some d; recv_wakers := Some []; section := Free; closing := false;
                   sent := d; received := []; leaked := false |} ];
     empty_channels := 1; send_wakers := None; gate_lock := None; asleep := ∅; recv_asleep := ∅ |}.

Lemma raced_start :
  run [DropSender 0; DropReceiver 0; Advance 0; CloseSender 0; Advance 0;
       SendPoll 1 0 7; Advance 1; Advance 1; Advance 1] (channels 2) = Some (raced [7]).
Proof. vm_compute. reflexivity. Qed.

Lemma raced_send v d : run [SendPoll 1 0 7; Advance 1] (raced (v :: d)) = Some (raced (v :: d ++ [7])).
Proof. reflexivity. Qed.

(** C40. The last sender of an empty channel leaves the count of senders before it
    takes the lock of the channel.  When the receiver is dropped in between, neither
    end takes the channel out of the counter of empty channels: afterwards every
    open channel may hold data, and sends still succeed, any number of them. *)
Theorem dropped_ends_disable_gate :
  ∀ k, ∃ es s x, run es (channels 2) = Some s ∧ quiescent s = true ∧
    (∀ c y, chans s !! c = Some y → ¬ open_empty y) ∧
    chans s !! 1 = Some x ∧ data x = Some (replicate (S k) 7) ∧ asleep s = ∅.
Proof.
  intros k. assert (Hrun : ∃ es, run es (channels 2) = Some (raced (replicate (S k) 7))).
  { induction k as [|k [es IH]]; [eexists; exact raced_start|].
    exists (es ++ [SendPoll 1 0 7; Advance 1]). unfold run. rewrite foldM_app. unfold run in IH. rewrite IH. cbn [mbind option_bind].
    change (replicate (S k) 7) with (7 :: replicate k 7). etrans; [apply raced_send|].
    do 2 f_equal. change (7 :: replicate k 7 ++ [7]) with (replicate (S k) 7 ++ replicate 1 7).
    rewrite <- replicate_add. f_equal. lia. }
  destruct Hrun as [es Hrun]. eexists es, _, _. split_and!; [done|done| |done|done|done].
  intros [|[|c]] y; cbn; [..|done]; intros [= <-] [Hd _]; done.
Qed.

End Examples.

End Distributor.
