(* ===== verification/Repartition.v ===== *)
(** * Partitioning batches (physical-plan/src/repartition/mod.rs)

    [BatchPartitioner] splits a batch by the hash of its key expressions or deals
    batches out in turn.  Proved: a hash partitioner sends every row to the
    partition of its key and keeps the order of rows within a partition; a join
    whose inputs are partitioned by its keys gives, over all partitions, the join
    of the whole inputs. *)

From stdpp Require Import base list strings gmap sorting.
From Stdlib Require Import ZArith Lia.
From S2P Require Import Prelude F64 Relation HashUtils JoinTypes JoinHashMap ArrayMap JoinIndices Coalesce BloomExec Transfer PhysicalPlan HashJoinStream HashJoinRows HashJoinCorrect HashJoinRun JoinSelection.

Module Repartition.
Import Coalesce HashJoinStream JoinBuild.

(** [Partitioning] of physical-expr *)
Inductive Partitioning :=
| HashPartitioning (exprs : list PhysicalExpr) (n : nat)
| RoundRobinBatch (n : nat)
| UnknownPartitioning (n : nat).

Section Partitioner.
Context `{Foldhash}.

(** The buffers of hashes and indices are cleared by every call and not part of
    the state. *)
Inductive BatchPartitioner :=
| Hash (exprs : list PhysicalExpr) (num_partitions : nat)
| RoundRobin (num_partitions next_idx : nat).

Definition new_hash_partitioner (exprs : list PhysicalExpr) (num_partitions : nat) : BatchPartitioner :=
  Hash exprs num_partitions.

(** Division by zero panics. *)
Definition new_round_robin_partitioner (num_partitions input_partition num_input_partitions : nat) :
    option BatchPartitioner :=
  if decide (num_input_partitions = 0) then panic!
  else Some (RoundRobin num_partitions (input_partition * num_partitions / num_input_partitions)).

Definition try_new (partitioning : Partitioning) (input_partition num_input_partitions : nat) :
    option (Result BatchPartitioner) :=
  match partitioning with
  | HashPartitioning exprs n => Some (Ok (new_hash_partitioner exprs n))
  | RoundRobinBatch n => Ok <$> new_round_robin_partitioner n input_partition num_input_partitions
  | UnknownPartitioning _ => Some (Err (Internal "Unsupported repartitioning scheme"))
  end.

Definition num_partitions (pt : BatchPartitioner) : nat :=
  match pt with Hash _ n => n | RoundRobin n _ => n end.

Definition u32_end : N := 2 ^ 32.

(** [indices[(hash % partitions as u64) as usize].push(index as u32)] *)
Definition push_index (partitions : nat) (indices : list (list nat)) (x : nat * N) : option (list (list nat)) :=
  if decide (partitions = 0) then panic!
  else
    let p := N.to_nat (x.2 mod N.of_nat partitions) in
    v ← vec_get indices p;
    vec_set indices p (v ++ [N.to_nat (N.of_nat x.1 mod u32_end)]).

(** [take_arrays] of the columns: the rows at the indices, which it checks. *)
Definition take_rows (batch : list row) (indices : list nat) : option (list row) := mapM (λ i, batch !! i) indices.

(** The loop over the partitions; empty ones are skipped. *)
Fixpoint partitioned_batches (batch : list row) (p : nat) (indices : list (list nat)) : option (list (nat * list row)) :=
  match indices with
  | [] => Some []
  | [] :: indices => partitioned_batches batch (S p) indices
  | taken :: indices =>
      rows ← take_rows batch taken; rest ← partitioned_batches batch (S p) indices; Some ((p, rows) :: rest)
  end.

Definition partition_iter (pt : BatchPartitioner) (batch : list row) :
    option (list (nat * list row) * BatchPartitioner) :=
  match pt with
  | RoundRobin n idx => if decide (n = 0) then panic! else Some ([(idx, batch)], RoundRobin n ((idx + 1) mod n))
  | Hash exprs n =>
      let hash_buffer := create_key_hashes (evaluate_expressions exprs batch) (length batch) in
      indices ← foldM (push_index n) (imap pair hash_buffer) (replicate n []);
      batches ← partitioned_batches batch 0 indices;
      Some (batches, pt)
  end.

(** [partition]: the batches in turn are handed to [f], up to its first error. *)
Fixpoint try_for_each {S} (f : S → nat → list row → Result S) (batches : list (nat * list row)) (s : S) : Result S :=
  match batches with
  | [] => Ok s
  | (p, b) :: batches => s ← f s p b; try_for_each f batches s
  end.

Definition partition {S} (pt : BatchPartitioner) (batch : list row) (f : S → nat → list row → Result S) (s : S) :
    option (Result S * BatchPartitioner) :=
  r ← partition_iter pt batch; Some (try_for_each f r.1 s, r.2).

(** ** Routes *)

(** The partition of a row. *)
Definition route (exprs : list PhysicalExpr) (n : nat) (r : row) : nat :=
  N.to_nat (key_hash exprs r mod N.of_nat n).

Lemma route_lt exprs n r : 0 < n → route exprs n r < n.
Proof. intros Hn. unfold route. pose proof (N.mod_lt (key_hash exprs r) (N.of_nat n)). lia. Qed.

(** The rows of a partition, in order, and their indices. *)
Definition rows_of (exprs : list PhysicalExpr) (n p : nat) (batch : list row) : list row :=
  filter (λ r, route exprs n r = p) batch.

Definition indices_of (exprs : list PhysicalExpr) (n p : nat) (xs : list (nat * row)) : list nat :=
  (filter (λ x, route exprs n x.2 = p) xs).*1.

Lemma push_index_ok exprs n (xs : list (nat * row)) i r :
  0 < n → (N.of_nat i < u32_end)%N →
  push_index n (tab n (λ p, indices_of exprs n p xs)) (i, key_hash exprs r) =
  Some (tab n (λ p, indices_of exprs n p (xs ++ [(i, r)]))).
Proof.
  intros Hn Hi. unfold push_index. rewrite decide_False by lia. cbn [fst snd]. fold (route exprs n r).
  pose proof (route_lt exprs n r Hn) as Hlt. rewrite vec_get_tab by done. cbn [mbind option_bind].
  rewrite vec_set_tab by done. f_equal. apply tab_ext. intros p Hp. unfold indices_of. rewrite filter_app, fmap_app.
  destruct (decide (p = route exprs n r)) as [->|Hne].
  - rewrite filter_cons_True by done. cbn. rewrite N.mod_small, Nat2N.id by done. done.
  - rewrite filter_cons_False by (cbn; congruence). by rewrite app_nil_r.
Qed.

Lemma push_indices_ok exprs n (ys xs : list (nat * row)) :
  0 < n → Forall (λ x, N.of_nat x.1 < u32_end)%N ys →
  foldM (push_index n) ((λ x, (x.1, key_hash exprs x.2)) <$> ys) (tab n (λ p, indices_of exprs n p xs)) =
  Some (tab n (λ p, indices_of exprs n p (xs ++ ys))).
Proof.
  intros Hn. revert xs. induction ys as [|[i r] ys IH]; intros xs Hys; [by rewrite app_nil_r|].
  apply Forall_cons in Hys as [Hi Hys]. cbn [fmap list_fmap foldM fst snd]. rewrite push_index_ok by done. cbn [mbind option_bind].
  rewrite IH by done. by rewrite <- app_assoc.
Qed.

Lemma take_rows_ok batch (xs : list (nat * row)) :
  Forall (λ x, batch !! x.1 = Some x.2) xs → take_rows batch xs.*1 = Some xs.*2.
Proof.
  unfold take_rows. induction 1 as [|[i r] xs Hx Hxs IH]; [done|]. cbn [fmap list_fmap mapM fst snd] in *. rewrite Hx. cbn. by rewrite IH.
Qed.

Lemma imap_pair_lookup {A} (l : list A) x : x ∈ imap pair l → l !! x.1 = Some x.2.
Proof.
  intros [i Hi]%list_elem_of_lookup. rewrite list_lookup_imap in Hi.
  destruct (l !! i) as [a|] eqn:Ha; [|done]. by injection Hi as <-.
Qed.

Lemma imap_pair_snd {A} (l : list A) : (imap pair l).*2 = l.
Proof.
  apply list_eq. intros i. rewrite list_lookup_fmap, list_lookup_imap. by destruct (l !! i).
Qed.

Lemma filter_route exprs n p (xs : list (nat * row)) :
  (filter (λ x, route exprs n x.2 = p) xs).*2 = rows_of exprs n p xs.*2.
Proof.
  unfold rows_of. induction xs as [|[i r] xs IH]; [done|]. cbn [fmap list_fmap snd]. rewrite !filter_cons. cbn [snd].
  destruct (decide (route exprs n r = p)); cbn [fmap list_fmap]; by rewrite ?IH.
Qed.

Lemma take_partition exprs n p batch :
  take_rows batch (indices_of exprs n p (imap pair batch)) = Some (rows_of exprs n p batch).
Proof.
  unfold indices_of. rewrite take_rows_ok.
  - by rewrite filter_route, imap_pair_snd.
  - apply Forall_forall. intros x [_ Hx]%list_elem_of_filter. by apply imap_pair_lookup.
Qed.

(** What a hash partitioner makes of a batch. *)
Definition partition_rows (exprs : list PhysicalExpr) (n : nat) (batch : list row) : list (nat * list row) :=
  filter (λ x, x.2 ≠ []) ((λ p, (p, rows_of exprs n p batch)) <$> seq 0 n).

Lemma partitioned_batches_ok exprs n batch p k :
  partitioned_batches batch p (map (λ q, indices_of exprs n q (imap pair batch)) (seq p k)) =
  Some (filter (λ x, x.2 ≠ []) ((λ q, (q, rows_of exprs n q batch)) <$> seq p k)).
Proof.
  revert p. induction k as [|k IH]; intros p; [done|]. cbn [seq map fmap list_fmap]. rewrite filter_cons. cbn [snd].
  pose proof (take_partition exprs n p batch) as Ht. specialize (IH (S p)).
  destruct (indices_of exprs n p (imap pair batch)) as [|i l] eqn:Ei; cbn [partitioned_batches].
  - cbn in Ht. injection Ht as <-. rewrite decide_False by (intros E; by apply E). exact IH.
  - rewrite Ht. cbn [mbind option_bind]. rewrite IH. cbn.
    destruct (rows_of exprs n p batch) as [|r rs]; [|by rewrite decide_True].
    cbn in Ht. apply bind_Some in Ht as (? & _ & Ht). cbn in Ht. apply bind_Some in Ht as (? & _ & Ht). done.
Qed.

Lemma partition_iter_hash exprs n batch :
  0 < n → (N.of_nat (length batch) <= u32_end)%N →
  partition_iter (Hash exprs n) batch = Some (partition_rows exprs n batch, Hash exprs n).
Proof.
  intros Hn Hlen. cbn [partition_iter]. rewrite create_key_hashes_ok.
  replace (imap pair (key_hash exprs <$> batch)) with ((λ x, (x.1, key_hash exprs x.2)) <$> imap pair batch).
  2:{ apply list_eq. intros i. rewrite list_lookup_fmap, !list_lookup_imap, list_lookup_fmap. by destruct (batch !! i). }
  rewrite replicate_tab. change (tab n (λ _, [])) with (tab n (λ p, indices_of exprs n p [])).
  rewrite push_indices_ok; [|done|].
  - cbn [mbind option_bind app]. unfold tab. rewrite partitioned_batches_ok. done.
  - apply Forall_forall. intros x Hx%imap_pair_lookup%lookup_lt_Some. lia.
Qed.

End Partitioner.

(** ** Joins by partition *)

Section Partitioned.
Context {L R : Type}.
Implicit Types (m : L → R → bool) (ls : list L) (rs : list R).

Lemma bind_app_perm {A B} (h k : A → list B) (l : list A) :
  (l ≫= λ x, h x ++ k x) ≡ₚ (l ≫= h) ++ (l ≫= k).
Proof.
  induction l as [|x l IH]; [done|]. cbn. rewrite IH. rewrite <- !app_assoc. f_equiv.
  rewrite !app_assoc. f_equiv. apply Permutation_app_comm.
Qed.

Lemma bind_nil {A B} (l : list A) : (l ≫= λ _, []) = @nil B.
Proof. induction l as [|x l IH]; [done|]. exact IH. Qed.

Lemma bind_ext_in {A B} (h k : A → list B) (l : list A) : (∀ x, x ∈ l → h x = k x) → l ≫= h = l ≫= k.
Proof. intros H. induction l as [|x l IH]; [done|]. cbn. rewrite H, IH; [done|set_solver..]. Qed.

(** A row lies in one class. *)
Lemma bind_class {A B} (b : nat) (x : A) (h : A → list B) p n :
  (seq p n ≫= λ q, if decide (b = q) then h x else []) = if decide (p ≤ b < p + n) then h x else [].
Proof.
  revert p. induction n as [|n IH]; intros p; [by rewrite decide_False by lia|]. cbn [seq mbind list_bind]. rewrite IH.
  repeat case_decide; try lia; by rewrite ?app_nil_r.
Qed.

(** What rows contribute, one by one, can be collected by class. *)
Lemma bind_classes {A B} (f : A → nat) n (h : A → list B) (l : list A) :
  (∀ x, x ∈ l → f x < n) → l ≫= h ≡ₚ (seq 0 n ≫= λ p, filter (λ x, f x = p) l ≫= h).
Proof.
  induction l as [|x l IH]; intros Hf; [apply Permutation_refl'; symmetry; apply (bind_nil (seq 0 n))|]. cbn [mbind list_bind].
  rewrite IH by (intros y Hy; apply Hf; by right).
  transitivity (seq 0 n ≫= λ p, (if decide (f x = p) then h x else []) ++ (filter (λ x, f x = p) l ≫= h)).
  - rewrite bind_app_perm, bind_class, decide_True; [done|]. split; [lia|]. apply Hf, list_elem_of_here.
  - apply Permutation_refl', bind_ext_in. intros p _. rewrite filter_cons. by destruct (decide (f x = p)).
Qed.

Lemma fmap_filter_bind {A B} (P : A → Prop) `{!∀ x, Decision (P x)} (g : A → B) (l : list A) :
  g <$> filter P l = l ≫= λ x, if decide (P x) then [g x] else [].
Proof.
  induction l as [|x l IH]; [done|]. rewrite filter_cons. cbn [mbind list_bind].
  destruct (decide (P x)); cbn; by rewrite IH.
Qed.

Lemma fmap_bind_single {A B} (g : A → B) (l : list A) : g <$> l = l ≫= λ x, [g x].
Proof. induction l as [|x l IH]; [done|]. cbn. by rewrite IH. Qed.

(** A part of the join that is read off the rows of one side, whose contribution
    depends on the rows of their class alone. *)
Lemma part_classes {A B} (f : A → nat) n (h : A → list B) (hp : nat → A → list B) (l : list A) :
  (∀ x, x ∈ l → f x < n) → (∀ x, x ∈ l → h x = hp (f x) x) →
  l ≫= h ≡ₚ (seq 0 n ≫= λ p, filter (λ x, f x = p) l ≫= hp p).
Proof.
  intros Hf Hh. rewrite (bind_classes f n) by done. apply Permutation_refl', bind_ext_in. intros p _. apply bind_ext_in.
  intros x [<- Hx]%list_elem_of_filter. by apply Hh.
Qed.

Context (f : L → nat) (g : R → nat) (n : nat) (m : L → R → bool) (ls : list L) (rs : list R).
Context (Hf : ∀ l, l ∈ ls → f l < n) (Hg : ∀ r, r ∈ rs → g r < n) (Hm : ∀ l r, m l r = true → f l = g r).

Lemma matches_class l : filter (λ r, m l r = true) rs = filter (λ r, m l r = true) (filter (λ r, g r = f l) rs).
Proof.
  clear Hg. induction rs as [|r l0 IH]; [done|]. rewrite (filter_cons _ r l0), (filter_cons (λ r, g r = f l) r l0).
  destruct (decide (m l r = true)) as [E|E].
  - rewrite decide_True by (symmetry; by apply Hm). rewrite filter_cons_True by done. by rewrite IH.
  - destruct (decide (g r = f l)); [rewrite filter_cons_False by done|]; done.
Qed.

Lemma left_matched_class l : left_matched m rs l = left_matched m (filter (λ r, g r = f l) rs) l.
Proof.
  apply eq_true_iff_eq. rewrite !left_matched_true. split.
  - intros (r & Hr & E). exists r. split; [|done]. apply list_elem_of_filter. split; [symmetry; by apply Hm|done].
  - intros (r & [_ Hr]%list_elem_of_filter & E). eauto.
Qed.

Lemma right_matched_class r : right_matched m ls r = right_matched m (filter (λ l, f l = g r) ls) r.
Proof.
  apply eq_true_iff_eq. rewrite !right_matched_true. split.
  - intros (l & Hl & E). exists l. split; [|done]. apply list_elem_of_filter. split; [by apply Hm|done].
  - intros (l & [_ Hl]%list_elem_of_filter & E). eauto.
Qed.

(** A join whose condition only matches rows of the same class is the union of the
    joins of the classes, for all ten join types. *)
Lemma join_spec_classes jt :
  join_spec jt m ls rs ≡ₚ
  (seq 0 n ≫= λ p, join_spec jt m (filter (λ l, f l = p) ls) (filter (λ r, g r = p) rs)).
Proof.
  assert (Hin : inner_pairs m ls rs ≡ₚ
    (seq 0 n ≫= λ p, inner_pairs m (filter (λ l, f l = p) ls) (filter (λ r, g r = p) rs))).
  { apply (part_classes f n _ (λ p l, Both l <$> filter (λ r, m l r = true) (filter (λ r, g r = p) rs))); [done|].
    intros l _. by rewrite matches_class. }
  assert (Hl : ∀ b, (LeftOnly <$> filter (λ l, left_matched m rs l = b) ls : list (jout L R)) ≡ₚ
    (seq 0 n ≫= λ p, (LeftOnly <$> filter (λ l, left_matched m (filter (λ r, g r = p) rs) l = b) (filter (λ l, f l = p) ls) : list (jout L R)))).
  { intros b. rewrite fmap_filter_bind, (part_classes f n _ (λ p l, if decide (left_matched m (filter (λ r, g r = p) rs) l = b) then [LeftOnly l] else [])); [|done|].
    - apply Permutation_refl', bind_ext_in. intros p _. by rewrite fmap_filter_bind.
    - intros l _. by rewrite left_matched_class. }
  assert (Hr : ∀ b, (RightOnly <$> filter (λ r, right_matched m ls r = b) rs : list (jout L R)) ≡ₚ
    (seq 0 n ≫= λ p, (RightOnly <$> filter (λ r, right_matched m (filter (λ l, f l = p) ls) r = b) (filter (λ r, g r = p) rs) : list (jout L R)))).
  { intros b. rewrite fmap_filter_bind, (part_classes g n _ (λ p r, if decide (right_matched m (filter (λ l, f l = p) ls) r = b) then [RightOnly r] else [])); [|done|].
    - apply Permutation_refl', bind_ext_in. intros p _. by rewrite fmap_filter_bind.
    - intros r _. by rewrite right_matched_class. }
  destruct jt; cbn [join_spec]; [done| | | |apply Hl|apply Hr|apply Hl|apply Hr|..].
  - rewrite bind_app_perm, Hin. f_equiv. apply Hl.
  - rewrite bind_app_perm, Hin. f_equiv. apply Hr.
  - rewrite !bind_app_perm, Hin. f_equiv. f_equiv; [apply Hl|apply Hr].
  - rewrite fmap_bind_single, (part_classes f n _ (λ p l, [LeftMarked l (left_matched m (filter (λ r, g r = p) rs) l)])); [|done|].
    + apply Permutation_refl', bind_ext_in. intros p _. by rewrite fmap_bind_single.
    + intros l _. by rewrite left_matched_class.
  - rewrite fmap_bind_single, (part_classes g n _ (λ p r, [RightMarked r (right_matched m (filter (λ l, f l = p) ls) r)])); [|done|].
    + apply Permutation_refl', bind_ext_in. intros p _. by rewrite fmap_bind_single.
    + intros r _. by rewrite right_matched_class.
Qed.

End Partitioned.

(** ** Partitioned hash joins *)

Lemma list_choice {A} (Q : nat → A → Prop) n :
  (∀ p, p < n → ∃ a, Q p a) → ∃ l, length l = n ∧ ∀ p a, l !! p = Some a → Q p a.
Proof.
  induction n as [|n IH]; intros H; [by exists []|]. destruct IH as (l & Hl & HQ); [intros p Hp; apply H; lia|].
  destruct (H n) as [a Ha]; [lia|]. exists (l ++ [a]). split; [rewrite length_app; cbn; lia|].
  intros p b [Hp|[Hp Hb]]%lookup_app_Some; [by apply HQ|]. apply list_lookup_singleton_Some in Hb as [Hp0 <-].
  by replace p with n by lia.
Qed.

Lemma concat_classes {A} (h : nat → list A) n (outs : list (list A)) p :
  length outs = n → (∀ q os, outs !! q = Some os → os ≡ₚ h (p + q)) → concat outs ≡ₚ (seq p n ≫= h).
Proof.
  revert n p. induction outs as [|os outs IH]; intros n p <- Ho; [done|]. cbn [length seq concat mbind list_bind].
  rewrite (Ho 0 os eq_refl), Nat.add_0_r. f_equiv. apply (IH _ (S p)); [done|].
  intros q os' Hq. rewrite (Ho (S q) os' Hq). by rewrite Nat.add_succ_r.
Qed.

(** Rows that join have the same keys, and so the same route. *)
Lemma join_match_route `{Foldhash} j n l r :
  Plan.join_match j l r = true → route (on j).*1 n l = route (on j).*2 n r.
Proof.
  intros [Hk _]%andb_true_iff. unfold route, key_hash. do 3 f_equal. unfold key_cells. rewrite forallb_Forall in Hk.
  induction Hk as [|p ons Hp Hk IH]; [done|]. cbn. f_equal; [|exact IH].
  destruct (Expr.evaluate p.1 l), (Expr.evaluate p.2 r); cbn in Hp; try done. by apply bool_decide_eq_true in Hp as ->.
Qed.

Lemma rows_of_sub `{Foldhash} exprs n p rs r : r ∈ rows_of exprs n p rs → r ∈ rs.
Proof. by intros [_ ?]%list_elem_of_filter. Qed.

(** The keys of a part of the inputs have the types of the whole. *)
Lemma keys_typed_sub cfg ons ls rs ls' rs' :
  (∀ l, l ∈ ls' → l ∈ ls) → (∀ r, r ∈ rs' → r ∈ rs) → keys_typed cfg ons ls rs → keys_typed cfg ons ls' rs'.
Proof.
  intros Hl Hr Ht el er E. destruct (Ht el er E) as (ty & H1 & H2 & H3 & H4). exists ty. split_and!; [done..| |].
  - rewrite Forall_forall in *. auto.
  - rewrite Forall_forall in *. auto.
Qed.

Lemma rows_of_length `{Foldhash} exprs n p rs : length (rows_of exprs n p rs) ≤ length rs.
Proof. unfold rows_of. apply length_filter. Qed.

(** A partitioned hash join: its inputs are split by the hash of the join keys
    into as many partitions as the repartitioning has, in whatever batches and order
    each partition receives its rows, and every partition executes the join of its
    parts with a build side of its own.  Every partition ends without an error or a
    panic, and over all partitions they compute the reference join of the whole
    inputs, for every join type but null-aware anti joins (which are not run
    partitioned), both null equalities and any two hash functions. *)
Lemma partitioned_join (HR HJ : Foldhash) `{Hc : BatchCoalescer row} `{!BatchCoalescerOk row}
    j l r opts ordered cfg n ls rs (lps rps : list (list (list row))) :
  JoinRun.join_ok j → PhysicalPlan.null_aware j = false → 0 < n → 0 < opt_batch_size opts →
  execute_config j l r opts ordered = Some cfg →
  (N.of_nat (length ls) <= u64_max)%N → keys_typed cfg (on j) ls rs →
  length lps = n → length rps = n →
  (∀ p lbs, lps !! p = Some lbs → concat lbs ≡ₚ rows_of (H:=HR) (on j).*1 n p ls) →
  (∀ p rbs, rps !! p = Some rbs → concat rbs ≡ₚ rows_of (H:=HR) (on j).*2 n p rs) →
  ∃ outs, length outs = n ∧ concat outs ≡ₚ Plan.join_output j ls rs ∧
    ∀ p lbs rbs os, lps !! p = Some lbs → rps !! p = Some rbs → outs !! p = Some os →
      ∃ fuel s sh, ∀ fuel', fuel ≤ fuel' →
        execute (H:=HJ) fuel' cfg (Ok <$> lbs) (Ok <$> rbs) =
        Some (take_fetch (join_fetch j) (JoinSchema.output_row (column_indices cfg) <$> os), None, s, sh).
Proof.
  intros Hj Hna Hn Hb E Hmax Ht Hlp Hrp Hl Hr.
  pose proof (JoinRun.execute_config_ok _ _ _ _ _ _ Hj Hb E) as Hcfg.
  destruct (list_choice (λ p os, os ≡ₚ join_spec (PhysicalPlan.join_type j) (Plan.join_match j)
      (rows_of (H:=HR) (on j).*1 n p ls) (rows_of (H:=HR) (on j).*2 n p rs) ∧
    ∀ lbs rbs, lps !! p = Some lbs → rps !! p = Some rbs → ∃ fuel s sh, ∀ fuel', fuel ≤ fuel' →
      execute (H:=HJ) fuel' cfg (Ok <$> lbs) (Ok <$> rbs) =
      Some (take_fetch (join_fetch j) (JoinSchema.output_row (column_indices cfg) <$> os), None, s, sh)) n)
    as (outs & Hlen & Ho).
  - intros p Hp. destruct (lookup_lt_is_Some_2 lps p) as [lbs Hlbs]; [lia|].
    destruct (lookup_lt_is_Some_2 rps p) as [rbs Hrbs]; [lia|].
    specialize (Hl p lbs Hlbs). specialize (Hr p rbs Hrbs).
    destruct (JoinRun.execute_ok cfg (on j) lbs rbs Hcfg) as (fuel & os & s & sh & Hos & Hex).
    + rewrite Hl. pose proof (rows_of_length (H:=HR) (on j).*1 n p ls). lia.
    + eapply keys_typed_sub; [| |done]; intros x; [rewrite Hl|rewrite Hr]; apply rows_of_sub.
    + exists os. split.
      * destruct (JoinRun.result_output _ _ _ _ _ _ _ _ _ Hj E Hos) as [Hperm _]. rewrite Hperm.
        rewrite JoinSelection.join_output_spec by done. by apply join_spec_permutation.
      * intros lbs' rbs' E1 E2. rewrite Hlbs in E1. rewrite Hrbs in E2. injection E1 as <-. injection E2 as <-.
        destruct (JoinRun.execute_config_fields _ _ _ _ _ _ E) as [<- _]. exists fuel, s, sh. exact Hex.
  - exists outs. split_and!; [done| |].
    + rewrite JoinSelection.join_output_spec by done.
      rewrite (join_spec_classes (route (H:=HR) (on j).*1 n) (route (H:=HR) (on j).*2 n) n) by (intros; by apply route_lt || by apply join_match_route).
      apply (concat_classes _ n _ 0); [done|]. intros q os Hq. by apply Ho.
    + intros p lbs rbs os H1 H2 H3. by apply (proj2 (Ho p os H3)).
Qed.

End Repartition.
