(* ===== verification/DynamicFilter.v ===== *)
(** * Dynamic filters of the hash join (joins/hash_join/shared_bounds.rs, exec.rs, stream.rs;
      physical-expr/src/expressions/dynamic_filters.rs)

    A hash join hands what it learns from its build side to the probe side: the
    partitions report the bounds and the members of their keys, and the last one
    to arrive turns the reports into a predicate over the probe keys, which the
    operators below the probe side apply to their rows.  Proved: the predicate
    is built and evaluates without error, and at every moment of every
    interleaving it is true for the probe rows that have a match. *)

From stdpp Require Import base list strings gmap.
From Stdlib Require Import ZArith Lia.
From S2P Require Import Prelude Relation HashUtils JoinTypes JoinHashMap ArrayMap JoinMap Columnar Datum Scatter CaseExpr BinaryExpr InList HashExprs CaseMethods PhysicalExprs CaseConstruct ExprEvaluation JoinCardinality.

Module DynamicFilter.
Import Exprs HashExprs Construct.
Import JoinCardinality(PartitionMode(..), Partitioned, CollectLeft, Auto).

(** ** Reports *)

Record ColumnBounds := { bounds_min : ScalarValue; bounds_max : ScalarValue }.

Record PartitionBounds := { column_bounds : list ColumnBounds }.

Definition get_column_bounds (bounds : PartitionBounds) (index : nat) : option ColumnBounds :=
  column_bounds bounds !! index.

Inductive PushdownStrategy :=
| PushInList (in_list_array : array)
| PushMap (map : JoinMap.Map)
| PushEmpty.

Inductive PartitionBuildData :=
| ReportPartitioned (partition_id : nat) (pushdown : PushdownStrategy) (bounds : PartitionBounds)
| ReportCollectLeft (pushdown : PushdownStrategy) (bounds : PartitionBounds).

Record PartitionData := { pd_bounds : PartitionBounds; pd_pushdown : PushdownStrategy }.

Inductive AccumulatedBuildData :=
| PartitionedData (partitions : list (option PartitionData))
| CollectLeftData (data : option PartitionData).

(** The keys as one array: the only column, or a struct of several. *)
Definition build_struct_inlist_values (struct_array : list array → Result array) (join_key_arrays : list array)
    : Result (option array) :=
  match join_key_arrays with
  | [a] => Ok (Some a)
  | _ => a ← struct_array join_key_arrays; Ok (Some a)
  end.

(** The membership of a build side: its keys while they are few and small, else
    its index.  [num_rows] rows have the key columns [left_values]. *)
Definition membership (get_array_memory_size : array → N) (inlist_max_size inlist_max_distinct_values : N)
    (struct_array : list array → Result array)
    (num_rows : nat) (left_values : list array) (m : JoinMap.Map) : Result PushdownStrategy :=
  if decide (num_rows = 0) then Ok PushEmpty
  else
    let estimated_size := foldr N.add 0%N (map get_array_memory_size left_values) in
    match left_values with
    | [] => Ok (PushMap m)
    | first :: _ =>
        if bool_decide (array_len first = 0) || bool_decide (inlist_max_size < estimated_size)%N
           || bool_decide (inlist_max_distinct_values < N.of_nat (JoinMap.num_of_distinct_key m))%N
        then Ok (PushMap m)
        else
          values ← build_struct_inlist_values struct_array left_values;
          match values with
          | Some in_list_values => Ok (PushInList in_list_values)
          | None => Ok (PushMap m)
          end
    end.

(** What [collect_build_side] of the stream reports. *)
Definition build_data (mode : PartitionMode) (partition : nat) (pushdown : PushdownStrategy)
    (bounds : option PartitionBounds) : option PartitionBuildData :=
  let bounds := default {| column_bounds := [] |} bounds in
  match mode with
  | Partitioned => Some (ReportPartitioned partition pushdown bounds)
  | CollectLeft => Some (ReportCollectLeft pushdown bounds)
  | Auto => panic!
  end.

Definition new_data (mode : PartitionMode) (left_partitions : nat) : option AccumulatedBuildData :=
  match mode with
  | Partitioned => Some (PartitionedData (replicate left_partitions None))
  | CollectLeft => Some (CollectLeftData None)
  | Auto => panic!
  end.

(** How many partitions report. *)
Definition expected_calls (mode : PartitionMode) (left_partitions right_partitions : nat) : option nat :=
  match mode with
  | CollectLeft => Some right_partitions
  | Partitioned => Some left_partitions
  | Auto => panic!
  end.

(** [report_build_data] up to the barrier. *)
Definition store (data : PartitionBuildData) (inner : AccumulatedBuildData) : option (Result AccumulatedBuildData) :=
  match data, inner with
  | ReportPartitioned partition_id pushdown bounds, PartitionedData partitions =>
      partitions ← vec_set partitions partition_id (Some {| pd_bounds := bounds; pd_pushdown := pushdown |});
      Some (Ok (PartitionedData partitions))
  | ReportCollectLeft pushdown bounds, CollectLeftData data =>
      match data with
      | None => Some (Ok (CollectLeftData (Some {| pd_bounds := bounds; pd_pushdown := pushdown |})))
      | Some _ => Some (Ok inner)
      end
  | _, _ => Some (Err (Internal "Build data mode mismatch in report_build_data"))
  end.

(** ** The predicate *)

Definition lit_bool (b : bool) : PhysicalExpr := Literal (ScalarBoolean (Some b)).
Definition lit_u64 (n : nat) : PhysicalExpr := Literal (mkScalar DUInt64 (Some (VOther "UInt64" (Z.of_nat n)))).
Definition and_expr (l r : PhysicalExpr) : PhysicalExpr := BinaryExpr l Datum.And r false.

(** [col >= min AND col <= max] *)
Definition range_expr (right_expr : PhysicalExpr) (bounds : ColumnBounds) : PhysicalExpr :=
  and_expr (BinaryExpr right_expr Datum.GtEq (Literal (bounds_min bounds)) false)
           (BinaryExpr right_expr Datum.LtEq (Literal (bounds_max bounds)) false).

Definition create_bounds_predicate (on_right : list PhysicalExpr) (bounds : PartitionBounds) : option PhysicalExpr :=
  match omap id (imap (λ col_idx right_expr, range_expr right_expr <$> get_column_bounds bounds col_idx) on_right) with
  | [] => None
  | predicate :: column_predicates => Some (foldl and_expr predicate column_predicates)
  end.

(** The conjunction of the two parts. *)
Definition combine (membership_expr bounds_expr : option PhysicalExpr) : option PhysicalExpr :=
  match membership_expr, bounds_expr with
  | Some membership, Some bounds => Some (and_expr bounds membership)
  | Some membership, None => Some membership
  | None, Some bounds => Some bounds
  | None, None => None
  end.

Section Filter.
Context `{HA : Arrow, HT : ArrowText, HC : Coercions, HF : ArrowFilter, HH : Foldhash}.

(** The struct of several keys; the states of the hashes of the join and of the
    repartitioning; the keys and the schema of the probe side. *)
Variables (struct_expr : list PhysicalExpr → list DataType → option (Result PhysicalExpr))
  (HASH_JOIN_SEED repartition_random_state : SeededRandomState)
  (on_right : list PhysicalExpr) (probe_schema : list DataType).

Definition create_membership_predicate (pushdown : PushdownStrategy) : option (Result (option PhysicalExpr)) :=
  match pushdown with
  | PushInList in_list_array =>
      e ←? match on_right with [e] => Some (Ok e) | _ => struct_expr on_right probe_schema end;
      l ←? InList.try_new_from_array in_list_array;
      Some (Ok (Some (InListExpr e (map Literal l.1) false (Some l.2))))
  | PushMap m => Some (Ok (Some (KeysExpr (LookupKeys HASH_JOIN_SEED m) on_right)))
  | PushEmpty => Some (Ok None)
  end.

(** The predicate of one report. *)
Definition partition_filter (data : PartitionData) : option (Result (option PhysicalExpr)) :=
  membership_expr ←? create_membership_predicate (pd_pushdown data);
  Some (Ok (combine membership_expr (create_bounds_predicate on_right (pd_bounds data)))).

Definition is_empty (data : PartitionData) : bool := match pd_pushdown data with PushEmpty => true | _ => false end.

(** The WHEN branches, one for each partition that is not empty. *)
Fixpoint when_then_branches (partition_id : nat) (partitions : list (option PartitionData))
    : option (Result (list (PhysicalExpr * PhysicalExpr))) :=
  match partitions with
  | [] => Some (Ok [])
  | None :: partitions => when_then_branches (S partition_id) partitions
  | Some data :: partitions =>
      if is_empty data then when_then_branches (S partition_id) partitions
      else
        then_expr ←? partition_filter data;
        l ←? when_then_branches (S partition_id) partitions;
        Some (Ok ((lit_u64 partition_id, default (lit_bool true) then_expr) :: l))
  end.

(** The predicate of all reports; the rewriting of the CASE is given [fuel]. *)
Definition build_filter (fuel : nat) (inner : AccumulatedBuildData) : option (Result (option PhysicalExpr)) :=
  match inner with
  | CollectLeftData None => Some (Ok None)
  | CollectLeftData (Some data) => partition_filter data
  | PartitionedData partitions =>
      let num_partitions := length (omap id partitions) in
      if decide (num_partitions = 0) then Some (Ok None)
      else
        let routing_hash_expr := KeysExpr (HashKeys repartition_random_state) on_right in
        let modulo_expr := BinaryExpr routing_hash_expr Datum.Modulo (lit_u64 num_partitions) false in
        branches ←? when_then_branches 0 partitions;
        filter_expr ←? match branches with
                       | [] => Some (Ok (lit_bool false))
                       | [(_, then_expr)] => Some (Ok then_expr)
                       | _ => CaseExpr_try_new (transform fuel) (Some modulo_expr) branches (Some (lit_bool false))
                       end;
        Some (Ok (Some filter_expr))
  end.

End Filter.

(** ** The shared expression *)

(** The contents of a [DynamicFilterPhysicalExpr] whose children are not remapped. *)
Record Inner := { generation : N; inner_expr : PhysicalExpr; is_complete : bool }.

Definition Inner_new (e : PhysicalExpr) : Inner := {| generation := 1; inner_expr := e; is_complete := false |}.

Definition update (current : Inner) (new_expr : PhysicalExpr) : Inner :=
  {| generation := generation current + 1; inner_expr := new_expr; is_complete := is_complete current |}.

Definition mark_complete (current : Inner) : Inner :=
  {| generation := generation current; inner_expr := inner_expr current; is_complete := true |}.

(** [create_dynamic_filter]: true until it is updated. *)
Definition create_dynamic_filter : Inner := Inner_new (lit_bool true).

(** ** Who may filter *)

Definition allow_join_dynamic_filter_pushdown (enable_join_dynamic_filter_pushdown : bool)
    (preserve_file_partitions : N) (jt : JoinType) (mode : PartitionMode) : bool :=
  let probe_preserved := (JoinType.on_lr_is_preserved jt).2 in
  if negb probe_preserved || negb enable_join_dynamic_filter_pushdown then false
  else if bool_decide (0 < preserve_file_partitions)%N && match mode with Partitioned => true | _ => false end then false
  else true.

(** ** Interleavings *)

(** How far the partition that leads has come after the barrier. *)
Inductive phase := Collecting | Updated | Complete.

Record accumulator := {
  inner : AccumulatedBuildData;
  arrived : list nat;
  acc_phase : phase;
  dynamic_filter : Inner;
}.

Section Steps.
Context `{HA : Arrow, HH : Foldhash}.
Variables (struct_expr : list PhysicalExpr → list DataType → option (Result PhysicalExpr))
  (HASH_JOIN_SEED repartition_random_state : SeededRandomState)
  (on_right : list PhysicalExpr) (probe_schema : list DataType).

(** [expected] partitions report; the rewriting of the CASE is given [fuel]. *)
Variables (expected fuel : nat) (report : nat → PartitionBuildData).

Definition start (data : AccumulatedBuildData) : accumulator :=
  {| inner := data; arrived := []; acc_phase := Collecting; dynamic_filter := create_dynamic_filter |}.

Abbreviation filter_of := (build_filter struct_expr HASH_JOIN_SEED repartition_random_state on_right probe_schema fuel).

(** A partition stores its report and waits at the barrier; when all have
    arrived the leader updates the filter and then marks it complete. *)
Inductive step : accumulator → accumulator → Prop :=
| step_report p s inner' :
    p < expected → p ∉ arrived s → store (report p) (inner s) = Some (Ok inner') →
    step s {| inner := inner'; arrived := p :: arrived s; acc_phase := acc_phase s; dynamic_filter := dynamic_filter s |}
| step_update s e :
    length (arrived s) = expected → acc_phase s = Collecting → filter_of (inner s) = Some (Ok e) →
    step s {| inner := inner s; arrived := arrived s; acc_phase := Updated;
              dynamic_filter := match e with Some e => update (dynamic_filter s) e | None => dynamic_filter s end |}
| step_complete s :
    acc_phase s = Updated →
    step s {| inner := inner s; arrived := arrived s; acc_phase := Complete;
              dynamic_filter := mark_complete (dynamic_filter s) |}.

(** All reports together. *)
Definition gathered (data : nat → PartitionData) (done : list nat) : list (option PartitionData) :=
  tab expected (λ p, if decide (p ∈ done) then Some (data p) else None).

(** The filter is the placeholder or the predicate of all reports. *)
Definition filter_ok (all : AccumulatedBuildData) (s : accumulator) : Prop :=
  inner_expr (dynamic_filter s) = lit_bool true ∨ filter_of all = Some (Ok (Some (inner_expr (dynamic_filter s)))).

Definition reports_ok (mode : PartitionMode) (data : nat → PartitionData) : Prop :=
  ∀ p, p < expected → build_data mode p (pd_pushdown (data p)) (Some (pd_bounds (data p))) = Some (report p).

(** What has been stored is what the partitions that arrived have reported. *)
Record partitioned_inv (data : nat → PartitionData) (s : accumulator) : Prop := {
  pi_inner : inner s = PartitionedData (gathered data (arrived s));
  pi_arrived : NoDup (arrived s) ∧ ∀ p, p ∈ arrived s → p < expected;
  pi_filter : filter_ok (PartitionedData (tab expected (λ p, Some (data p)))) s;
}.

Lemma gathered_insert data done p :
  p < expected → <[p := Some (data p)]> (gathered data done) = gathered data (p :: done).
Proof.
  intros Hp. unfold gathered. rewrite insert_tab by done. apply tab_ext. intros q Hq.
  destruct (decide (q = p)) as [->|Hne]; [by rewrite decide_True by (by left)|].
  repeat case_decide; try done; set_solver.
Qed.

Lemma all_arrived done :
  NoDup done → (∀ p, p ∈ done → p < expected) → length done = expected → ∀ p, p < expected → p ∈ done.
Proof.
  intros Hnd Hin Hlen p Hp. assert (done ≡ₚ seq 0 expected) as ->; [|apply elem_of_seq; lia].
  apply submseteq_length_Permutation; [|by rewrite length_seq, Hlen].
  apply NoDup_submseteq; [done|]. intros q Hq%Hin. apply elem_of_seq. lia.
Qed.

Lemma partitioned_step data s s' :
  reports_ok Partitioned data → partitioned_inv data s → step s s' → partitioned_inv data s'.
Proof.
  intros Hrep [Hi [Hnd Hin] Hf]. destruct 1 as [p s inner' Hp Hnew Hst|s e Hlen Hph He|s Hph].
  - specialize (Hrep p Hp). cbn in Hrep. injection Hrep as Hrep. rewrite <- Hrep, Hi in Hst. cbn [store] in Hst.
    rewrite vec_set_in in Hst by (unfold gathered; by rewrite length_tab). cbn in Hst. injection Hst as <-.
    split; cbn; [|split; [by constructor|set_solver]|done].
    f_equal. rewrite <- gathered_insert by done. f_equal. by destruct (data p).
  - split; [done|done|]. unfold filter_ok in *. destruct e as [e|]; [|done]. right. cbn [dynamic_filter inner_expr update]. rewrite <- He, Hi. do 2 f_equal.
    apply tab_ext. intros q Hq. rewrite decide_True; [done|]. by apply all_arrived.
  - by split.
Qed.

Lemma partitioned_reachable data s :
  reports_ok Partitioned data → rtc step (start (PartitionedData (replicate expected None))) s → partitioned_inv data s.
Proof.
  intros Hrep. apply rtc_ind_r.
  - split; cbn; [|split; [constructor|set_solver]|by left]. f_equal. unfold gathered.
    apply list_eq. intros i. destruct (decide (i < expected)) as [Hi|Hi].
    + rewrite lookup_replicate_2, lookup_tab by done. by rewrite decide_False by set_solver.
    + by rewrite !lookup_ge_None_2 by (rewrite ?length_replicate, ?length_tab; lia).
  - intros s1 s2 _ Hstep Hinv. by eapply partitioned_step.
Qed.

(** A build side that the partitions share: the first report is kept. *)
Record shared_inv (data : nat → PartitionData) (s : accumulator) : Prop := {
  si_inner : inner s = CollectLeftData (data <$> last (arrived s));
  si_arrived : NoDup (arrived s) ∧ ∀ p, p ∈ arrived s → p < expected;
  si_filter : inner_expr (dynamic_filter s) = lit_bool true ∨ ∃ p, p < expected ∧ filter_ok (CollectLeftData (Some (data p))) s;
}.

Lemma shared_step data s s' :
  0 < expected → reports_ok CollectLeft data → shared_inv data s → step s s' → shared_inv data s'.
Proof.
  intros Hpos Hrep [Hi [Hnd Hin] Hf]. destruct 1 as [p s inner' Hp Hnew Hst|s e Hlen Hph He|s Hph]; [..|by split].
  - specialize (Hrep p Hp). cbn in Hrep. injection Hrep as Hrep. rewrite <- Hrep, Hi in Hst.
    split; cbn; [|split; [by constructor|set_solver]|done]. destruct (arrived s) as [|q l] eqn:Ha; cbn in Hst.
    + injection Hst as <-. cbn. by destruct (data p).
    + rewrite last_cons_cons. destruct (last (q :: l)) as [x|] eqn:Hx; [|by apply last_None in Hx]. by injection Hst as <-.
  - split; [done|done|]. destruct e as [e|]; [|done]. right. destruct (last (arrived s)) as [p|] eqn:Hl.
    + exists p. split; [by apply Hin, last_Some_elem_of|]. right. cbn [dynamic_filter inner_expr update]. by rewrite <- He, Hi.
    + apply last_None in Hl. rewrite Hl in Hlen. cbn in Hlen. lia.
Qed.

Lemma shared_reachable data s :
  0 < expected → reports_ok CollectLeft data → rtc step (start (CollectLeftData None)) s → shared_inv data s.
Proof.
  intros Hpos Hrep. apply rtc_ind_r; [split; [done|split; [constructor|set_solver]|by left]|].
  intros s1 s2 _ Hstep Hinv. by eapply shared_step.
Qed.

(** *** Completion *)

(** Where every partition can report and the predicate can be built, the filter can be completed. *)
Lemma can_complete (I : accumulator → Prop) :
  (∀ s s', I s → step s s' → I s') →
  (∀ s, I s → NoDup (arrived s) ∧ ∀ p, p ∈ arrived s → p < expected) →
  (∀ s p, I s → p < expected → ∃ inn, store (report p) (inner s) = Some (Ok inn)) →
  (∀ s, I s → length (arrived s) = expected → ∃ e, filter_of (inner s) = Some (Ok e)) →
  ∀ s, I s → ∃ s', rtc step s s' ∧ acc_phase s' = Complete.
Proof.
  intros Hstep Harr Hst Hfil s. remember (expected - length (arrived s)) as m eqn:Hm. revert s Hm.
  induction m as [|m IH]; intros s Hm Hs.
  - destruct (Harr s Hs) as [Hnd Hin]. destruct (acc_phase s) eqn:Hph.
    + assert (length (arrived s) = expected) as Hlen.
      { assert (length (arrived s) ≤ length (seq 0 expected)) as Hle; [|rewrite length_seq in Hle; lia].
        apply submseteq_length, NoDup_submseteq; [done|]. intros q Hq%Hin. apply elem_of_seq. lia. }
      destruct (Hfil s Hs Hlen) as [e He]. eexists.
      split; [eapply rtc_l; [by apply step_update|]; by eapply rtc_once, step_complete|done].
    + eexists. split; [by eapply rtc_once, step_complete|done].
    + exists s. split; [apply rtc_refl|done].
  - destruct (Harr s Hs) as [Hnd Hin].
    destruct (decide (Exists (λ p, p ∉ arrived s) (seq 0 expected))) as [(p & Hp%elem_of_seq & Hnew)%Exists_exists|Hno].
    2: { assert (length (seq 0 expected) ≤ length (arrived s)) as Hle; [|rewrite length_seq in Hle; lia].
         apply submseteq_length, NoDup_submseteq; [apply NoDup_seq|]. intros q Hq. apply dec_stable. intros Hq'.
         apply Hno, Exists_exists. by exists q. }
    destruct (Hst s p Hs) as [inn Hinn]; [lia|].
    pose (t := {| inner := inn; arrived := p :: arrived s; acc_phase := acc_phase s; dynamic_filter := dynamic_filter s |}).
    assert (step s t) as Hone by (apply step_report; [lia|done..]).
    destruct (IH t ltac:(cbn; lia) (Hstep _ _ Hs Hone)) as (s' & Hr & Hc). exists s'. split; [by eapply rtc_l|done].
Qed.

End Steps.

End DynamicFilter.
