(* ===== verification/DynamicFilterCorrect.v ===== *)
(** * Dynamic filters keep the rows that match

    The predicate a hash join builds from its build side is well typed and has a
    value on every row of the probe side; on rows whose keys are keys of the build
    side, none of them null, it is true. *)

From stdpp Require Import base list strings gmap.
From Stdlib Require Import ZArith Lia.
From S2P Require Import Prelude Relation HashUtils JoinTypes JoinHashMap ArrayMap JoinMap Columnar Datum Scatter CaseExpr BinaryExpr InList HashExprs CaseMethods PhysicalExprs CaseConstruct ExprEvaluation JoinCardinality DynamicFilter.

Definition compare_cells (f : value → value → bool) (a b : option value) : option bool :=
  match a, b with Some x, Some y => Some (f x y) | _, _ => None end.

(** Documented: comparisons follow an order on the values of a type and are null
    for null operands; the remainder of unsigned integers. *)
Class OrderOk `{ArrowCells} (le : value → value → bool) : Prop := {
  compare_type : ∀ k ty, k = K_lt_eq ∨ k = K_gt_eq → is_nested ty = false → kernel_type k ty ty = Some DBoolean;
  lt_eq_cell : ∀ a b, kernel_cell K_lt_eq a b = Some (bool_cell (compare_cells le a b));
  gt_eq_cell : ∀ a b, kernel_cell K_gt_eq a b = Some (bool_cell (compare_cells (λ x y, le y x) a b));
  rem_type : kernel_type K_rem HashExprs.DUInt64 HashExprs.DUInt64 = Some HashExprs.DUInt64;
  rem_cell : ∀ a b, (0 ≤ a)%Z → (0 < b < 2 ^ 64)%Z →
    kernel_cell K_rem (Some (VOther "UInt64" a)) (Some (VOther "UInt64" b)) = Some (Some (VOther "UInt64" (a mod b)));
  le_integers : ∀ ty t a b, JoinMap.int_type ty = Some t → le (value_int ty a) (value_int ty b) = (a <=? b)%Z;
}.

(** *** An order on values *)

Definition plain_le (a b : value) : bool := bool_decide (value_compare a b ≠ Gt).

Lemma value_compare_antisym a b : value_compare a b = CompOpp (value_compare b a).
Proof. destruct a, b; first [exact (String.compare_antisym _ _)|exact (Z.compare_antisym _ _)]. Qed.

#[global] Instance plain_order : OrderOk plain_le.
Proof.
  split.
  - intros k ty Hk Hn. cbn. unfold plain_kernel_type. rewrite decide_True, Hn by done. by destruct Hk as [-> | ->].
  - intros [x|] [y|]; done.
  - intros [x|] [y|]; try done. cbn. unfold plain_le. do 3 f_equal. apply bool_decide_ext.
    rewrite (value_compare_antisym x y). by destruct (value_compare y x).
  - done.
  - intros a b Ha Hb. cbn. rewrite decide_False, Z.rem_mod_nonneg by lia. unfold checked. cbn.
    pose proof (Z.mod_pos_bound a b). by rewrite decide_True by lia.
  - intros ty t a b Ht. unfold plain_le.
    assert (value_compare (value_int ty a) (value_int ty b) = Z.compare a b) as -> by (by destruct ty).
    rewrite Z.leb_compare. by destruct (Z.compare a b).
Qed.

Module FilterCorrect.
Import Exprs HashExprs Construct DynamicFilter.

Section Correct.
Context `{HA : Arrow, HT : ArrowText, HC : Coercions, HF : ArrowFilter, HH : Foldhash, HCells : ArrowCells}.
Variables (debug_assertions : bool) (h : Scatter.hidden) (at_null : value).
Variable (bit_value : Datum.Operator → value → value → value).
Context `{!ArrowOk, !ArrowFilterOk, !Binary.BitwiseOk bit_value}.
Variable (le : value → value → bool).
Context `{!OrderOk le}.

Variables (struct_expr : list PhysicalExpr → list DataType → option (Result PhysicalExpr)) (HJ HR : SeededRandomState)
  (on_right : list PhysicalExpr) (schema tys : list DataType) (height : nat).

Abbreviation well_typed := (wt debug_assertions h at_null schema).
Abbreviation value_of := (row_value debug_assertions h at_null bit_value schema).

(** The keys of the probe side: typed expressions of a bounded height over types that can be hashed. *)
Record keys_wf : Prop := {
  kw_length : length on_right = length tys;
  kw_typed : ∀ i e ty, on_right !! i = Some e → tys !! i = Some ty → well_typed e ty;
  kw_flat : Forall InList.flat_type tys;
  kw_built : ∀ e, e ∈ on_right → built height e;
}.
Hypothesis (Hkeys : keys_wf).

(** The keys of a row. *)
Definition key_values (r keys : row) : Prop :=
  mapM (λ e, value_of e r) on_right = Some keys ∧ Forall2 has_type tys keys.

(** A report tells the truth about a build side with these keys. *)
Definition members_ok (pushdown : PushdownStrategy) (keys : list row) : Prop :=
  match pushdown with
  | PushInList a => tys = [array_type a] ∧ cells a ≠ [] ∧ ∀ c, [c] ∈ keys → c ∈ cells a
  | PushMap m =>
      keys_ok (LookupKeys HJ m) tys ∧ ∀ k, k ∈ keys → Forall is_Some k → lookup_row HJ m k = Some true
  | PushEmpty => keys = []
  end.

Definition bounds_ok (bounds : PartitionBounds) (keys : list row) : Prop :=
  ∀ i b, get_column_bounds bounds i = Some b →
    ∃ ty, tys !! i = Some ty ∧ s_type (bounds_min b) = ty ∧ s_type (bounds_max b) = ty ∧
      has_type ty (s_value (bounds_min b)) ∧ has_type ty (s_value (bounds_max b)) ∧
      ∀ k v, k ∈ keys → k !! i = Some (Some v) →
        ∃ a c, s_value (bounds_min b) = Some a ∧ s_value (bounds_max b) = Some c ∧ le a v = true ∧ le v c = true.

Definition describes (data : PartitionData) (keys : list row) : Prop :=
  members_ok (pd_pushdown data) keys ∧ bounds_ok (pd_bounds data) keys.

(** A predicate that is true where the keys satisfy [P]. *)
Record predicate_ok (n : nat) (P : row → Prop) (e : PhysicalExpr) : Prop := {
  po_typed : well_typed e DBoolean;
  po_built : built n e;
  po_value : ∀ r keys, key_values r keys → ∃ c, value_of e r = Some (bool_cell c) ∧ (P keys → c = Some true);
}.

(** ** Shared lemmas *)

Lemma built_more n m e : built n e → n ≤ m → built m e.
Proof.
  intros He. revert m. induction He as [n e Hok Hch IH]; intros [|m] Hle; [lia|]. constructor; [done|].
  intros c Hc. apply IH; [done|lia].
Qed.

Lemma built_pos n e : built n e → 0 < n.
Proof. destruct 1. lia. Qed.

Lemma predicate_more n m P e : predicate_ok n P e → n ≤ m → predicate_ok m P e.
Proof. intros [Ht Hb Hv] Hle. split; [done|by eapply built_more|done]. Qed.

Lemma key_lookup r keys i e ty :
  key_values r keys → on_right !! i = Some e → tys !! i = Some ty →
  ∃ x, keys !! i = Some x ∧ value_of e r = Some x ∧ has_type ty x.
Proof.
  intros [Hm Ht] He Hty. apply mapM_Some_1 in Hm. destruct (Forall2_lookup_l _ _ _ _ _ Hm He) as (x & Hx & Hv).
  exists x. split_and!; [done..|]. by eapply (Forall2_lookup_lr _ _ _ _ _ _ Ht).
Qed.

Lemma flat_not_nested ty : InList.flat_type ty → is_nested ty = false.
Proof.
  unfold InList.flat_type, is_nested. destruct ty as [| | | |name]; try done. cbn. intros Hf.
  apply bool_decide_eq_false. intros Hn. unfold HashUtils.primitive_types, HashUtils.byte_types in Hf.
  set_unfold in Hn. set_unfold in Hf. naive_solver.
Qed.

Lemma leaf_height n e : node_ok e → children e = [] → 0 < n → built n e.
Proof. intros Hok He Hn. destruct n as [|n]; [lia|]. constructor; [done|]. rewrite He. by intros c ?%elem_of_nil. Qed.

Lemma binary_built n l op r fo : built n l → built n r → built (S n) (BinaryExpr l op r fo).
Proof. intros Hl Hr. constructor; [done|]. by intros c [-> | ->%list_elem_of_singleton]%elem_of_cons. Qed.

(** ** Bounds *)

Lemma compare_result_type ty op : op = Datum.GtEq ∨ op = Datum.LtEq → Binary.get_result_type ty op ty = Ok DBoolean.
Proof.
  intros Hop. unfold Binary.get_result_type, Binary.signature.
  assert (Binary.is_numerical_operators op = false) as -> by (by destruct Hop as [-> | ->]). rewrite andb_false_r.
  assert (∀ t, Binary.signature_inner op t t = Ok (Binary.comparison_sig t)) as Hs.
  { intros t. destruct Hop as [-> | ->]; cbn; unfold Binary.comparison_coercion; by rewrite decide_True. }
  assert (Binary.result_kernel op = None) as -> by (by destruct Hop as [-> | ->]).
  destruct (Binary.null_coercion ty ty); by rewrite Hs.
Qed.

Lemma compare_wt e ty op s :
  well_typed e ty → is_nested ty = false → op = Datum.GtEq ∨ op = Datum.LtEq → s_type s = ty → has_type ty (s_value s) →
  well_typed (BinaryExpr e op (Literal s) false) DBoolean.
Proof.
  intros He Hn Hop <- Hs. eapply wt_binary; [done|by apply wt_literal|by apply compare_result_type|].
  destruct Hop as [-> | ->]; cbn; rewrite Hn; apply compare_type; auto.
Qed.

Lemma compare_value e ty op f s r x :
  well_typed e ty → (op = Datum.GtEq ∧ f = λ x y, le y x) ∨ (op = Datum.LtEq ∧ f = le) → value_of e r = Some x →
  value_of (BinaryExpr e op (Literal s) false) r = Some (bool_cell (compare_cells f x (s_value s))).
Proof.
  intros He Hop Hx. cbn [row_value]. rewrite (wt_type _ _ _ _ _ _ He). cbn [to_dyn Literal_dyn data_type].
  unfold Binary.binary_row. rewrite Hx. cbn.
  destruct Hop as [[-> ->]|[-> ->]]; cbn; [apply gt_eq_cell|apply lt_eq_cell].
Qed.

Lemma and_ok n P l r : predicate_ok n P l → predicate_ok n P r → predicate_ok (S n) P (and_expr l r).
Proof.
  intros [Hlt Hlb Hlv] [Hrt Hrb Hrv]. split.
  - eapply wt_binary; [done..|apply Binary.logic_result_type; auto|done].
  - by apply binary_built.
  - intros row keys Hk. destruct (Hlv row keys Hk) as (c & Hc & Hp), (Hrv row keys Hk) as (d & Hd & Hq).
    exists (and3 c d). split; [|intros HP; by rewrite (Hp HP), (Hq HP)]. unfold and_expr. cbn [row_value].
    rewrite (wt_type _ _ _ _ _ _ Hlt), (wt_type _ _ _ _ _ _ Hrt). unfold Binary.binary_row. rewrite Hc, Hd. cbn.
    by destruct c, d.
Qed.

Lemma and_all_ok n P l p : Forall (predicate_ok n P) (p :: l) → predicate_ok (n + length l) P (foldl and_expr p l).
Proof.
  revert n p. induction l as [|q l IH]; intros n p [Hp Hl]%Forall_cons; cbn.
  - by rewrite Nat.add_0_r.
  - apply Forall_cons in Hl as [Hq Hl]. replace (n + S (length l)) with (S n + length l) by lia. apply IH.
    constructor; [by apply and_ok|]. eapply Forall_impl; [exact Hl|]. intros e He. eapply predicate_more; [done|lia].
Qed.

(** The predicates hold for the keys of the build side that have no null. *)
Definition member (keys : list row) (k : row) : Prop := k ∈ keys ∧ Forall is_Some k.

Lemma length_omap_le {A B} (f : A → option B) l : length (omap f l) ≤ length l.
Proof. induction l as [|x l IH]; [done|]. cbn. destruct (f x); cbn; lia. Qed.

Lemma range_ok i e b bounds keys :
  bounds_ok bounds keys → on_right !! i = Some e → get_column_bounds bounds i = Some b →
  predicate_ok (height + 2) (member keys) (range_expr e b).
Proof.
  intros Hb He Hbi. destruct (Hb i b Hbi) as (ty & Hty & Hmin & Hmax & Htmin & Htmax & Hin).
  pose proof (kw_typed Hkeys i e ty He Hty) as Hwt.
  assert (is_nested ty = false) as Hn.
  { apply flat_not_nested. pose proof (kw_flat Hkeys) as Hf. rewrite Forall_forall in Hf. apply Hf. by eapply list_elem_of_lookup_2. }
  assert (Hheight : built height e) by (apply (kw_built Hkeys); by eapply list_elem_of_lookup_2).
  pose proof (built_pos _ _ Hheight) as Hpos.
  replace (height + 2) with (S (S height)) by lia. apply and_ok; (split; [apply (compare_wt _ ty); auto| |]).
  1,3: by apply binary_built; [|apply leaf_height].
  - intros r k Hk. destruct (key_lookup r k i e ty Hk He Hty) as (x & Hkx & Hx & _).
    exists (compare_cells (λ x y, le y x) x (s_value (bounds_min b))). split; [apply (compare_value e ty); auto|]. intros [Hin' Hall].
    destruct (Forall_lookup_1 _ _ _ _ Hall Hkx) as [v ->]. destruct (Hin k v Hin' Hkx) as (a & c & -> & _ & Ha & _).
    cbn. by rewrite Ha.
  - intros r k Hk. destruct (key_lookup r k i e ty Hk He Hty) as (x & Hkx & Hx & _).
    exists (compare_cells le x (s_value (bounds_max b))). split; [apply (compare_value e ty); auto|]. intros [Hin' Hall].
    destruct (Forall_lookup_1 _ _ _ _ Hall Hkx) as [v ->]. destruct (Hin k v Hin' Hkx) as (a & c & _ & -> & _ & Hc).
    cbn. by rewrite Hc.
Qed.

Lemma bounds_predicate_ok bounds keys e :
  bounds_ok bounds keys → create_bounds_predicate on_right bounds = Some e →
  predicate_ok (height + 2 + length on_right) (member keys) e.
Proof.
  intros Hb He. unfold create_bounds_predicate in He. set (l := omap id _) in He.
  assert (Forall (predicate_ok (height + 2) (member keys)) l ∧ length l ≤ length on_right) as [Hl Hlen].
  { unfold l. split.
    - apply Forall_forall. intros p Hp. apply list_elem_of_omap in Hp as (o & Ho & Hp). cbn in Hp. subst o.
      apply list_elem_of_lookup in Ho as [i Hi]. rewrite list_lookup_imap in Hi.
      destruct (on_right !! i) as [r|] eqn:Hr; [|done]. cbn in Hi. injection Hi as Hi.
      destruct (get_column_bounds bounds i) as [b|] eqn:Hbi; [|done]. cbn in Hi. injection Hi as <-.
      by eapply range_ok.
    - rewrite <- (length_imap (λ i r, range_expr r <$> get_column_bounds bounds i) on_right). apply length_omap_le. }
  destruct l as [|p l]; [done|]. injection He as <-. eapply predicate_more; [by apply and_all_ok|]. cbn in Hlen. lia.
Qed.

(** ** Members *)

Lemma cells_items a : mapM (try_from_array a) (seq 0 (array_len a)) = Some (mkScalar (array_type a) <$> cells a).
Proof.
  rewrite (mapM_total (try_from_array a) (λ i, mkScalar (array_type a) (default None (cells a !! i)))).
  - f_equal. rewrite <- length_cells. rewrite <- (seq_lookup None (cells a)) at 2. change (map ?f ?l) with (f <$> l).
    by rewrite <- list_fmap_compose.
  - intros i Hi%elem_of_seq. unfold try_from_array.
    destruct (lookup_lt_is_Some_2 (cells a) i) as [c ->]; [rewrite length_cells; lia|done].
Qed.

Lemma in_list_true x cs : x ∈ cs → is_Some x → InList.in_cell false x cs = Some true.
Proof.
  intros Hx [v ->]. unfold InList.in_cell. generalize (Some false) as acc. revert Hx.
  induction cs as [|c cs IH]; [by intros ?%elem_of_nil|]. intros Hx acc. cbn.
  apply elem_of_cons in Hx as [<-|Hx]; [|by apply IH]. cbn. rewrite bool_decide_true by done.
  assert (or3 acc (Some true) = Some true) as -> by (by destruct acc as [[]|]). apply InList.foldl_or3_true.
Qed.

Abbreviation dyn_of := (to_dyn debug_assertions h at_null).

Lemma literal_list ty cs b :
  cs ≠ [] → Forall (has_type ty) cs →
  InList.evaluate_list (map dyn_of (map Literal (mkScalar ty <$> cs))) b = Some (Ok (array_of ty cs)).
Proof.
  intros Hne Hcs. unfold InList.evaluate_list.
  assert (InList.evaluate_scalars (map dyn_of (map Literal (mkScalar ty <$> cs))) b = Some (Ok (mkScalar ty <$> cs))) as ->.
  { clear. induction cs as [|c cs IH]; [done|]. cbn in *. by rewrite IH. }
  cbn [try_bind]. destruct (iter_to_array_ok (mkScalar ty <$> cs) ty) as [-> _].
  - by destruct cs.
  - apply Forall_fmap. eapply Forall_impl; [exact Hcs|]. by split.
  - do 3 f_equal. change (map s_value ?l) with (s_value <$> l). rewrite <- list_fmap_compose. apply list_fmap_id.
Qed.

Lemma in_list_value e ty cs f r x :
  value_of e r = Some x →
  value_of (InListExpr e (map Literal (mkScalar ty <$> cs)) false f) r = Some (bool_cell (InList.in_cell false x cs)).
Proof.
  intros Hx. cbn [row_value]. unfold InList.in_list_row. rewrite Hx. cbn [mbind option_bind].
  assert (mapM (λ f : row → option (option value), f r) (map value_of (map Literal (mkScalar ty <$> cs))) = Some cs) as ->;
    [|done].
  clear. induction cs as [|c cs IH]; [done|]. cbn in *. by rewrite IH.
Qed.

Lemma in_list_ok e a keys :
  on_right = [e] → members_ok (PushInList a) keys →
  ∃ p, create_membership_predicate struct_expr HJ on_right schema (PushInList a) = Some (Ok (Some p)) ∧
    predicate_ok (S height) (member keys) p.
Proof.
  intros Hon (Htys & Hne & Hin). cbn [create_membership_predicate]. rewrite Hon. cbn [try_bind].
  assert (InList.flat_type (array_type a)) as Hflat by (pose proof (kw_flat Hkeys) as Hf; rewrite Htys in Hf; by inversion Hf).
  destruct (InList.instantiate_total a Hflat) as [f Hf]. unfold InList.try_new_from_array. rewrite cells_items.
  cbn [mbind option_bind]. rewrite Hf. cbn [try_bind fst snd]. eexists. split; [done|].
  assert (Hwt : well_typed e (array_type a)) by (by apply (kw_typed Hkeys 0); rewrite ?Hon, ?Htys).
  assert (Hheight : built height e) by (apply (kw_built Hkeys); rewrite Hon; by left).
  pose proof (built_pos _ _ Hheight) as Hpos. split.
  - apply (wt_in_list _ _ _ _ _ _ _ _ (array_type a)); [done| |].
    + intros x (s & -> & (c & -> & Hc)%list_elem_of_fmap)%list_elem_of_fmap. apply (wt_literal _ _ _ _ (mkScalar _ c)).
      pose proof (cells_typed a) as Ht. rewrite Forall_forall in Ht. by apply Ht.
    + intros f' [= <-]. split_and!; [by destruct (cells a)| |done|].
      * clear. induction (cells a) as [|c cs IH]; [done|]. by cbn.
      * exists (new_empty_batch []), a. split; [|done]. rewrite literal_list; [|done|apply cells_typed].
        by rewrite array_of_cells.
  - constructor; [done|]. intros c [->|(s & -> & _)%list_elem_of_fmap]%elem_of_cons; [done|by apply leaf_height].
  - intros r k Hk. destruct (key_lookup r k 0 e (array_type a) Hk) as (x & Hkx & Hx & _); [by rewrite Hon|by rewrite Htys|].
    exists (InList.in_cell false x (cells a)). split; [by apply in_list_value|]. intros [Hmem Hall].
    assert (k = [x]) as ->.
    { destruct Hk as [_ Hk]. rewrite Htys in Hk. apply Forall2_cons_inv_l in Hk as (y & ? & _ & ->%Forall2_nil_inv_l & ->).
      cbn in Hkx. by injection Hkx as ->. }
    apply in_list_true; [by apply Hin|by inversion Hall].
Qed.

Lemma entry_total m val : is_Some (ArrayMap.entry_of m val).
Proof.
  destruct val as [z|]; cbn; [|by eexists]. case_match eqn:Hlt; [by eexists|]. apply Z.leb_gt in Hlt.
  apply lookup_lt_is_Some_2. unfold ArrayMap.wrapping_sub in *.
  match goal with |- context [Z.to_nat ?x] => assert (0 ≤ x)%Z by (apply Z.mod_pos_bound; lia) end. lia.
Qed.

Lemma lookup_total m k : keys_ok (LookupKeys HJ m) tys → Forall2 has_type tys k → is_Some (lookup_row HJ m k).
Proof.
  intros Hok Hk. destruct m as [m|m]; cbn in *; [by eexists|]. destruct Hok as (ty & -> & t & Ht).
  apply Forall2_cons_inv_l in Hk as (x & ? & Hx & ->%Forall2_nil_inv_l & ->).
  destruct x as [v|]; cbn in Hx |- *.
  - assert (is_Some (JoinMap.int_of v)) as [z ->].
    { destruct v; cbn in Hx; subst ty; cbn in Ht; try done; by eexists. }
    cbn. destruct (entry_total m (Some z)) as [n Hn]. cbn in Hn. rewrite Hn. by eexists.
  - by eexists.
Qed.

Lemma keys_built f : built (S height) (KeysExpr f on_right).
Proof. constructor; [done|]. apply (kw_built Hkeys). Qed.

Lemma keys_typed_expr f : keys_ok f tys → well_typed (KeysExpr f on_right) (keys_type f).
Proof. intros Hok. apply (wt_keys _ _ _ _ _ _ tys); [apply (kw_length Hkeys)|apply (kw_typed Hkeys)|done]. Qed.

Lemma keys_value f r k : key_values r k → value_of (KeysExpr f on_right) r = keys_cell f k.
Proof. intros [Hk _]. cbn [row_value]. unfold keys_row. rewrite mapM_map. by rewrite Hk. Qed.

Lemma map_lookup_ok m keys :
  members_ok (PushMap m) keys → predicate_ok (S height) (member keys) (KeysExpr (LookupKeys HJ m) on_right).
Proof.
  intros [Hok Hin]. split; [by apply (keys_typed_expr (LookupKeys HJ m))|apply keys_built|].
  intros r k Hk. rewrite (keys_value _ r k Hk). destruct (lookup_total m k Hok (proj2 Hk)) as [c Hc].
  exists (Some c). cbn. rewrite Hc. split; [done|]. intros [Hmem Hall]. specialize (Hin k Hmem Hall). congruence.
Qed.

(** ** One report *)

Definition filter_height : nat := height + length on_right + 3.

(** IN lists are built for single keys only; several keys are compared as structs. *)
Definition single_list (pushdown : PushdownStrategy) : Prop :=
  match pushdown with PushInList _ => length on_right = 1 | _ => True end.

Lemma partition_filter_ok data keys :
  single_list (pd_pushdown data) → describes data keys →
  ∃ o, partition_filter struct_expr HJ on_right schema data = Some (Ok o) ∧
    ∀ p, o = Some p → predicate_ok filter_height (member keys) p.
Proof.
  intros Hone [Hm Hb]. unfold partition_filter, filter_height.
  assert (∃ o, create_membership_predicate struct_expr HJ on_right schema (pd_pushdown data) = Some (Ok o) ∧
    ∀ p, o = Some p → predicate_ok (S height) (member keys) p) as (o & -> & Ho).
  { destruct (pd_pushdown data) as [a|m|]; cbn [single_list] in Hone.
    - assert (∃ e, on_right = [e]) as [e Hon] by (clear -Hone; destruct on_right as [|e [|? ?]]; [done|by exists e|done]).
      destruct (in_list_ok e a keys Hon Hm) as (p & Hp & Hok). exists (Some p). split; [done|]. by intros ? [= <-].
    - eexists. split; [done|]. intros p [= <-]. by apply map_lookup_ok.
    - exists None. by split. }
  cbn [try_bind]. eexists. split; [done|]. intros p Hp.
  pose proof (bounds_predicate_ok (pd_bounds data) keys) as Hbp.
  destruct o as [q|], (create_bounds_predicate on_right (pd_bounds data)) as [b|]; cbn in Hp; try done; injection Hp as <-.
  - eapply predicate_more; [apply (and_ok (height + 2 + length on_right))|lia]; [by apply Hbp|].
    eapply predicate_more; [by apply Ho|lia].
  - eapply predicate_more; [by apply Ho|lia].
  - eapply predicate_more; [by apply Hbp|lia].
Qed.

Lemma lit_bool_ok n P b : 0 < n → (∀ k, P k → b = true) → predicate_ok n P (lit_bool b).
Proof.
  intros Hn Hb. split; [by apply (wt_literal _ _ _ _ (ScalarBoolean (Some b)))|by apply leaf_height|].
  intros r k _. exists (Some b). split; [done|]. intros HP. by rewrite (Hb k HP).
Qed.

(** ** All reports *)

Section Partitions.
Variables (n : nat) (data : nat → PartitionData) (members : nat → list row).
Hypotheses (Hn : 0 < n) (Hmax : (Z.of_nat n < 2 ^ 32 - 1)%Z)
  (Hdata : ∀ p, p < n → single_list (pd_pushdown (data p)) ∧ describes (data p) (members p)).

(** The partition of a row with these keys. *)
Definition partition_of (k : row) : nat := N.to_nat (@HashUtils.row_hash (random_state HR) k mod N.of_nat n).

(** The keys of a row are among the keys of its partition. *)
Definition routed (k : row) : Prop := member (members (partition_of k)) k.

Definition branch_ok (p : PhysicalExpr * PhysicalExpr) : Prop :=
  ∃ q, q < n ∧ p.1 = lit_u64 q ∧ is_empty (data q) = false ∧ predicate_ok filter_height (member (members q)) p.2.

Lemma partition_of_lt k : partition_of k < n.
Proof. unfold partition_of. pose proof (N.mod_lt (@HashUtils.row_hash (random_state HR) k) (N.of_nat n)). lia. Qed.

Lemma empty_members q : q < n → is_empty (data q) = true → members q = [].
Proof.
  intros Hq He. destruct (Hdata q Hq) as [_ [Hm _]]. unfold is_empty in He. by destruct (pd_pushdown (data q)).
Qed.

Lemma branches_of q m :
  q + m = n →
  ∃ l, when_then_branches struct_expr HJ on_right schema q ((λ i, Some (data i)) <$> seq q m) = Some (Ok l) ∧
    length l ≤ m ∧ Forall branch_ok l ∧
    ∀ i, q ≤ i < n → is_empty (data i) = false → lit_u64 i ∈ l.*1.
Proof.
  revert q. induction m as [|m IH]; intros q Hq.
  { exists []. split_and!; [done..|constructor|lia]. }
  destruct (IH (S q)) as (l & Hl & Hlen & Hok & Hall); [lia|]. cbn [seq fmap list_fmap when_then_branches].
  destruct (is_empty (data q)) eqn:He.
  - exists l. split_and!; [done|lia|done|]. intros i Hi Hne. apply Hall; [|done].
    destruct (decide (i = q)); [congruence|lia].
  - destruct (Hdata q) as [Hone Hd]; [lia|]. destruct (partition_filter_ok (data q) (members q) Hone Hd) as (o & -> & Ho).
    cbn [try_bind]. rewrite Hl. cbn [try_bind]. eexists. split_and!; [done|cbn; lia| |].
    + constructor; [|done]. exists q. split_and!; [lia|done..|]. cbn [snd]. destruct o as [p|]; cbn; [by apply Ho|].
      apply lit_bool_ok; [unfold filter_height; lia|done].
    + intros i Hi Hne. destruct (decide (i = q)) as [->|]; [by left|]. right. apply Hall; [lia|done].
Qed.

Abbreviation modulo_expr := (BinaryExpr (KeysExpr (HashKeys HR) on_right) Datum.Modulo (lit_u64 n) false).

Lemma lit_u64_wt q : well_typed (lit_u64 q) DUInt64.
Proof. by apply (wt_literal _ _ _ _ (mkScalar DUInt64 (Some (VOther "UInt64" (Z.of_nat q))))). Qed.

Lemma hash_wt : well_typed (KeysExpr (HashKeys HR) on_right) DUInt64.
Proof. apply (keys_typed_expr (HashKeys HR)). apply (kw_flat Hkeys). Qed.

Lemma modulo_result_type : Binary.get_result_type DUInt64 Datum.Modulo DUInt64 = Ok DUInt64.
Proof.
  unfold Binary.get_result_type, Binary.signature. rewrite bool_decide_false by naive_solver.
  cbn [andb]. unfold Binary.null_coercion. rewrite !decide_False by done. cbn [Binary.signature_inner].
  unfold Binary.arithmetic_signature, Binary.get_result.
  rewrite (arrow_kernel_ok K_rem _ _ 0 DUInt64 []); [done|by split..|done|apply rem_type|done].
Qed.

Lemma modulo_wt : well_typed modulo_expr DUInt64.
Proof.
  eapply wt_binary; [apply hash_wt|apply lit_u64_wt|apply modulo_result_type|]. cbn. apply rem_type.
Qed.

Lemma modulo_value r k :
  key_values r k → value_of modulo_expr r = Some (Some (VOther "UInt64" (Z.of_nat (partition_of k)))).
Proof.
  intros Hk. cbn [row_value]. rewrite (wt_type _ _ _ _ _ _ hash_wt). cbn [to_dyn lit_u64 Literal_dyn data_type].
  unfold Binary.binary_row. pose proof (keys_value (HashKeys HR) r k Hk) as Hv. cbn [row_value] in Hv. rewrite Hv.
  cbn [keys_cell mbind option_bind s_value]. cbn. rewrite rem_cell by lia. do 3 f_equal. unfold partition_of.
  rewrite N_nat_Z, N2Z.inj_mod, nat_N_Z. done.
Qed.

(** The rows of a partition take the branch of the partition, if there is one. *)
Lemma case_value l r k :
  Forall branch_ok l → key_values r k →
  ∃ c, Case.case_row (map (λ fs : (row → option (option value)) * (row → option (option value)),
      (λ r, v ← fs.1 r; Some (eq_cell v (Some (VOther "UInt64" (Z.of_nat (partition_of k))))), fs.2))
      (map (λ p : PhysicalExpr * PhysicalExpr, match p with (w, t) => (value_of w, value_of t) end) l))
      (λ _, Some (Some (VBoolean false))) r = Some (bool_cell c) ∧
    (routed k → lit_u64 (partition_of k) ∈ l.*1 → c = Some true).
Proof.
  intros Hl Hk. induction Hl as [|[w t] l (q & Hq & Hw & Hne & Ht) Hl IH]; cbn.
  { exists (Some false). split; [done|]. by intros _ ?%elem_of_nil. }
  cbn in Hw. subst w. cbn [lit_u64 row_value s_value mbind option_bind eq_cell truthy].
  case_bool_decide as Heq.
  - assert (q = partition_of k) as -> by (injection Heq; lia). destruct (po_value _ _ _ Ht r k Hk) as (c & Hc & Hp).
    exists c. split; [done|]. intros Hr _. by apply Hp.
  - destruct IH as (c & Hc & Hp). exists c. split; [done|]. intros Hr [Hhd|Hin]%elem_of_cons; [|by apply Hp].
    exfalso. apply Heq. unfold lit_u64 in Hhd. injection Hhd as Hhd. f_equal. lia.
Qed.

Lemma branches_wf l : l ≠ [] → length l ≤ n → Forall branch_ok l → branches_ok l.
Proof.
  intros Hne Hlen Hl. split_and!; [done|lia|]. intros w t s Hin Hs. rewrite Forall_forall in Hl.
  destruct (Hl (w, t) Hin) as (q & _ & Hw & _). cbn in Hw. subst w. by injection Hs as <-.
Qed.

Lemma branch_parts l : Forall branch_ok l → parts_wt debug_assertions h at_null schema (Some modulo_expr) l (Some (lit_bool false)) DUInt64 DBoolean.
Proof.
  intros Hl. split_and!; [intros b [= <-]; apply modulo_wt|done| |].
  - intros w t Hin. rewrite Forall_forall in Hl. destruct (Hl (w, t) Hin) as (q & _ & Hw & _ & Ht). cbn in Hw. subst w.
    split; [apply lit_u64_wt|apply Ht].
  - intros x [= <-]. by apply (wt_literal _ _ _ _ (ScalarBoolean (Some false))).
Qed.

Lemma branch_heights l c :
  Forall branch_ok l → c ∈ case_children (mkCaseBody (Some modulo_expr) l (Some (lit_bool false))) → built filter_height c.
Proof.
  intros Hl Hc. unfold case_children in Hc. cbn [expr when_then_expr else_expr option_list] in Hc.
  assert (0 < filter_height) as Hpos by (unfold filter_height; lia).
  apply elem_of_app in Hc as [->%list_elem_of_singleton|[Hc| ->%list_elem_of_singleton]%elem_of_app].
  - apply (built_more (S (S height))); [|unfold filter_height; lia].
    apply binary_built; [apply keys_built|by apply leaf_height; [| |lia]].
  - apply list_elem_of_In, in_concat in Hc as (pl & ((w & t) & <- & Hp%list_elem_of_In)%in_map_iff & Hpl%list_elem_of_In).
    rewrite Forall_forall in Hl. destruct (Hl (w, t) Hp) as (q & _ & Hw & _ & Ht). cbn in Hw, Hpl. subst w.
    apply elem_of_cons in Hpl as [-> | ->%list_elem_of_singleton]; [by apply leaf_height|apply Ht].
  - by apply leaf_height.
Qed.

(** A filter expression: well typed, with a value where the keys have one. *)
Definition filter_good (P : row → Prop) (e : PhysicalExpr) : Prop :=
  well_typed e DBoolean ∧
  ∀ r k, key_values r k → ∃ c, value_of e r = Some (bool_cell c) ∧ (P k → c = Some true).

Lemma predicate_good m P Q e : predicate_ok m P e → (∀ k, Q k → P k) → filter_good Q e.
Proof.
  intros [Ht _ Hv] HQ. split; [done|]. intros r k Hk. destruct (Hv r k Hk) as (c & Hc & Hp). exists c. split; [done|]. auto.
Qed.

Lemma partitioned_filter_ok :
  ∃ e, build_filter struct_expr HJ HR on_right schema filter_height (PartitionedData (tab n (λ p, Some (data p))))
       = Some (Ok (Some e)) ∧ filter_good routed e.
Proof.
  destruct (branches_of 0 n eq_refl) as (l & Hl & Hlen & Hok & Hall).
  assert (Hroute : ∀ k, routed k → lit_u64 (partition_of k) ∈ l.*1).
  { intros k [Hk _]. apply Hall; [pose proof (partition_of_lt k); lia|]. destruct (is_empty _) eqn:He; [|done].
    rewrite (empty_members _ (partition_of_lt k) He) in Hk. by apply elem_of_nil in Hk. }
  unfold build_filter, tab. change (map ?f ?k) with (f <$> k).
  assert (omap id ((λ p, Some (data p)) <$> seq 0 n) = data <$> seq 0 n) as -> by (clear; induction (seq 0 n); cbn; congruence).
  rewrite length_fmap, length_seq, decide_False by lia. rewrite Hl. cbn [try_bind].
  destruct l as [|[w t] [|b l]].
  - eexists. split; [done|]. eapply (predicate_good 1 routed); [|done]. apply lit_bool_ok; [lia|].
    intros k Hk. by apply Hroute, elem_of_nil in Hk.
  - eexists. split; [done|]. apply Forall_cons in Hok as [(q & Hq & Hw & _ & Ht) _]. cbn in Hw, Ht. subst w.
    eapply predicate_good; [done|]. intros k Hk. pose proof (Hroute k Hk) as Hin. cbn in Hin.
    apply list_elem_of_singleton in Hin. unfold lit_u64 in Hin. injection Hin as Hin.
    assert (partition_of k = q) as <- by lia. apply Hk.
  - set (l' := (w, t) :: b :: l) in *.
    destruct (case_new_typed debug_assertions h at_null filter_height schema (Some modulo_expr) l' (Some (lit_bool false)) DUInt64 DBoolean)
      as (m & Hnew & Hwt); [intros c; by apply branch_heights|by apply branches_wf|by apply branch_parts|].
    cbn [normalize_else lit_bool is_null ScalarBoolean] in Hnew, Hwt. unfold lit_bool in *. rewrite Hnew. cbn [try_bind].
    eexists. split; [done|]. split; [done|]. intros r k Hk. destruct (case_value l' r k Hok Hk) as (c & Hc & Hp).
    exists c. split; [|intros HP; by apply Hp, Hroute]. rewrite <- Hc. cbn [row_value option_map case_body_row default].
    unfold Case.with_expr_row. pose proof (modulo_value r k Hk) as Hv. cbn [row_value] in Hv. rewrite Hv. done.
Qed.

End Partitions.

Lemma shared_filter_ok data keys :
  single_list (pd_pushdown data) → describes data keys →
  ∃ o, build_filter struct_expr HJ HR on_right schema filter_height (CollectLeftData (Some data)) = Some (Ok o) ∧
    ∀ e, o = Some e → filter_good (member keys) e.
Proof.
  intros Hone Hd. destruct (partition_filter_ok data keys Hone Hd) as (o & Ho & Hp). exists o. split; [done|].
  intros e ->. by eapply predicate_good; [apply Hp|].
Qed.

(** ** Batches *)

(** A batch of the probe side on which the keys can be evaluated. *)
Record probe_batch (b : RecordBatch) : Prop := {
  pb_wf : batch_wf b;
  pb_schema : schema_of b = schema;
  pb_rows : 0 < num_rows b ∧ (Z.of_nat (num_rows b) < 2 ^ 32)%Z;
  pb_keys : ∀ r, r ∈ rows b → is_Some (mapM (λ e, value_of e r) on_right);
}.

Lemma probe_keys_typed b r k :
  probe_batch b → r ∈ rows b → mapM (λ e, value_of e r) on_right = Some k → key_values r k.
Proof.
  intros Hb Hr Hk. split; [done|]. apply mapM_Some_1 in Hk. apply Forall2_same_length_lookup_2.
  { by rewrite <- (Forall2_length _ _ _ Hk), (kw_length Hkeys). }
  intros i ty x Hty Hx. destruct (Forall2_lookup_r _ _ _ _ _ Hk Hx) as (e & He & Hv).
  apply list_elem_of_lookup in Hr as [j Hj]. pose proof (lookup_lt_Some _ _ _ Hj) as Hlt. rewrite length_rows in Hlt.
  unfold rows in Hj. rewrite lookup_tab in Hj by done. injection Hj as <-.
  eapply (computes_typed schema (dyn_of e) ty (value_of e) b j); [|apply Hb..|done|done].
  eapply (wt_computes _ _ _ bit_value); [apply Nat.lt_succ_diag_r|]. by eapply (kw_typed Hkeys).
Qed.

(** A filter evaluates on a batch, and keeps what it has to. *)
Lemma filter_batch P e b :
  filter_good P e → probe_batch b →
  ∃ v, evaluate (dyn_of e) b = Some (Ok v) ∧ fits (num_rows b) DBoolean v ∧
    Forall2 (λ r c, ∀ k, mapM (λ e, value_of e r) on_right = Some k → P k → c = Some (VBoolean true))
      (rows b) (spread (num_rows b) v).
Proof.
  intros [Hwt Hv] Hb.
  assert (∃ vs, mapM (value_of e) (rows b) = Some vs ∧
    Forall2 (λ r c, ∀ k, mapM (λ e, value_of e r) on_right = Some k → P k → c = Some (VBoolean true)) (rows b) vs)
    as (vs & Hvs & Hall).
  { assert (Hin : ∀ r, r ∈ rows b → ∃ c, value_of e r = Some c ∧
      ∀ k, mapM (λ e, value_of e r) on_right = Some k → P k → c = Some (VBoolean true)).
    { intros r Hr. destruct (pb_keys _ Hb r Hr) as [k Hk].
      destruct (Hv r k) as (c & Hc & Hp); [by eapply probe_keys_typed|]. exists (bool_cell c). split; [done|].
      intros k' Hk' HP. rewrite Hk in Hk'. injection Hk' as <-. by rewrite (Hp HP). }
    clear -Hin. induction (rows b) as [|r l IH]; [by exists []|]. destruct (Hin r) as (c & Hc & Hp); [by left|].
    destruct IH as (vs & Hvs & Hfs); [intros x Hx; apply Hin; by right|]. exists (c :: vs). cbn. rewrite Hc. cbn.
    rewrite Hvs. by split; [|constructor]. }
  destruct (wt_computes debug_assertions h at_null bit_value (S (size e)) e (Nat.lt_succ_diag_r _) schema DBoolean Hwt)
    as [_ Hc]. destruct (Hc b vs) as (v & He & Hf & Hs); [apply Hb..|done|]. exists v. split_and!; [done..|]. by rewrite Hs.
Qed.

End Correct.

End FilterCorrect.
