(* ===== verification/DynamicFilterJoin.v ===== *)
(** * Joins under dynamic filters

    Applying a dynamic filter to the probe side of a hash join leaves the result
    of the join as it is, whenever the operators below read the filter.  What a
    partition reports is true of the build side it collected.  Two examples show
    the rows that are lost when nulls match and when the join is null-aware. *)

From stdpp Require Import base list strings gmap.
From Stdlib Require Import ZArith Lia.
From S2P Require Import Prelude F64 Relation HashUtils JoinTypes JoinHashMap ArrayMap JoinMap Columnar Datum Scatter CaseExpr BinaryExpr InList HashExprs CaseMethods PhysicalExprs CaseConstruct ExprEvaluation JoinIndices Coalesce BloomExec Transfer PhysicalPlan JoinCardinality HashJoinStream HashJoinRows HashJoinCorrect HashJoinRun Repartition DynamicFilter DynamicFilterCorrect.

(** ** Dropping probe rows without a match *)

(** Rows without a match are dropped, the others kept. *)
Inductive thinned {L R} (m : L → R → bool) (ls : list L) : list R → list R → Prop :=
| thinned_nil : thinned m ls [] []
| thinned_keep r rs rs' : thinned m ls rs rs' → thinned m ls (r :: rs) (r :: rs')
| thinned_drop r rs rs' : right_matched m ls r = false → thinned m ls rs rs' → thinned m ls (r :: rs) rs'.

Section Thinned.
Context {L R : Type} (m : L → R → bool) (ls : list L).

Lemma thinned_app rs1 rs1' rs2 rs2' :
  thinned m ls rs1 rs1' → thinned m ls rs2 rs2' → thinned m ls (rs1 ++ rs2) (rs1' ++ rs2').
Proof. induction 1; [done|by constructor; auto..]. Qed.

Lemma unmatched r l : right_matched m ls r = false → l ∈ ls → m l r = false.
Proof.
  intros Hr Hl. destruct (m l r) eqn:Hm; [|done]. rewrite <- Hr. symmetry. apply right_matched_true. by exists l.
Qed.

Lemma thinned_filter rs rs' l : thinned m ls rs rs' → l ∈ ls → filter (λ r, m l r = true) rs = filter (λ r, m l r = true) rs'.
Proof.
  intros Ht Hl. induction Ht as [|r rs rs' Ht IH|r rs rs' Hr Ht IH]; [done|..]; rewrite !filter_cons.
  - by rewrite IH.
  - by rewrite (unmatched r l Hr Hl).
Qed.

Lemma thinned_left_matched rs rs' l : thinned m ls rs rs' → l ∈ ls → left_matched m rs l = left_matched m rs' l.
Proof.
  intros Ht Hl. induction Ht as [|r rs rs' Ht IH|r rs rs' Hr Ht IH]; [done|..]; unfold left_matched in *; cbn.
  - by rewrite IH.
  - by rewrite (unmatched r l Hr Hl).
Qed.

Lemma filter_ext_elem {A} (p q : A → bool) b (l : list A) :
  (∀ x, x ∈ l → p x = q x) → filter (λ x, p x = b) l = filter (λ x, q x = b) l.
Proof.
  induction l as [|x l IH]; intros Hl; [done|]. rewrite !filter_cons, (Hl x) by (by left).
  by rewrite IH by (intros y Hy; apply Hl; by right).
Qed.

Lemma thinned_inner rs rs' : thinned m ls rs rs' → inner_pairs m ls rs = inner_pairs m ls rs'.
Proof.
  intros Ht. unfold inner_pairs.
  assert (∀ k, (∀ l, l ∈ k → l ∈ ls) → (k ≫= λ l, Both l <$> filter (λ r, m l r = true) rs)
    = (k ≫= λ l, Both l <$> filter (λ r, m l r = true) rs')) as Hk; [|by apply Hk].
  induction k as [|l k IH]; intros Hin; [done|]. cbn. rewrite (thinned_filter rs rs') by (done || apply Hin; by left).
  by rewrite IH by (intros x Hx; apply Hin; by right).
Qed.

Lemma thinned_right_matched rs rs' :
  thinned m ls rs rs' → filter (λ r, right_matched m ls r = true) rs = filter (λ r, right_matched m ls r = true) rs'.
Proof. induction 1 as [|r rs rs' Ht IH|r rs rs' Hr Ht IH]; [done|..]; rewrite !filter_cons, ?Hr; by rewrite IH. Qed.

(** The joins whose guard lets the probe side be filtered do not notice. *)
Lemma thinned_join jt rs rs' :
  (JoinType.on_lr_is_preserved jt).2 = true → thinned m ls rs rs' → join_spec jt m ls rs = join_spec jt m ls rs'.
Proof.
  intros Hjt Ht.
  assert (∀ b, filter (λ l, left_matched m rs l = b) ls = filter (λ l, left_matched m rs' l = b) ls) as Hl.
  { intros b. apply filter_ext_elem. intros l. by apply thinned_left_matched. }
  destruct jt; try done; unfold join_spec.
  - by apply thinned_inner.
  - by rewrite (thinned_inner rs rs'), Hl.
  - by rewrite Hl.
  - by rewrite (thinned_right_matched rs rs').
  - by rewrite Hl.
  - apply list_fmap_ext. intros i l Hil. by rewrite (thinned_left_matched rs rs') by (done || by eapply list_elem_of_lookup_2).
Qed.

End Thinned.

Lemma thinned_probe_order (m : row → row → bool) ls rs rs' :
  thinned m ls rs rs' → Plan.probe_order m ls rs = Plan.probe_order m ls rs'.
Proof.
  unfold Plan.probe_order. induction 1 as [|r rs rs' Ht IH|r rs rs' Hr Ht IH]; [done|..]; cbn; rewrite IH; [done|].
  assert (filter (λ l, m l r = true) ls = []) as ->; [|done].
  assert (∀ k, (∀ l, l ∈ k → l ∈ ls) → filter (λ l, m l r = true) k = []) as Hk; [|by apply Hk].
  induction k as [|l k IHk]; intros Hin; [done|]. rewrite filter_cons, (unmatched m ls r l Hr) by (apply Hin; by left).
  cbn. apply IHk. intros x Hx. apply Hin. by right.
Qed.

Lemma thinned_output j ls rs rs' :
  (JoinType.on_lr_is_preserved (join_type j)).2 = true → null_aware j = false → thinned (Plan.join_match j) ls rs rs' →
  Plan.join_output j ls rs = Plan.join_output j ls rs'.
Proof.
  intros Hjt Hna Ht. unfold Plan.join_output. rewrite Hna.
  destruct (join_type j) eqn:Hj; try done; [by apply thinned_probe_order|..]; by apply thinned_join.
Qed.

Module FilterJoin.
Import HashExprs DynamicFilter FilterCorrect.
Import JoinBuild(key_cells, key_hash).
Import JoinCardinality(PartitionMode(..), Partitioned, CollectLeft, Auto).

Lemma match_keys j l r :
  null_equality j = NullEqualsNothing → Plan.join_match j l r = true →
  key_cells (on j).*1 l = key_cells (on j).*2 r ∧ Forall is_Some (key_cells (on j).*2 r).
Proof.
  intros Hne [Hk _]%andb_true_iff. rewrite Hne in Hk. unfold key_cells. rewrite forallb_Forall in Hk.
  induction Hk as [|p ons Hp Hk [IH1 IH2]]; [by split|]. cbn.
  destruct (Expr.evaluate p.1 l) as [v|], (Expr.evaluate p.2 r) as [w|]; cbn in Hp; try done.
  apply bool_decide_eq_true in Hp as ->. rewrite IH1. split; [done|]. by constructor.
Qed.

Section Join.
Context `{HA : Arrow, HT : ArrowText, HC : Coercions, HF : ArrowFilter, HH : Foldhash, HCells : ArrowCells}.
Variables (debug_assertions : bool) (h : Scatter.hidden) (at_null : value).
Variable (bit_value : Datum.Operator → value → value → value).
Context `{!ArrowOk, !ArrowFilterOk, !Binary.BitwiseOk bit_value}.
Variable (le : value → value → bool).
Context `{!OrderOk le}.
Variables (struct_expr : list Exprs.PhysicalExpr → list DataType → option (Result Exprs.PhysicalExpr))
  (HJ HR : SeededRandomState) (on_right : list Exprs.PhysicalExpr) (schema tys : list DataType) (height : nat).

(** The join, its build side, and [n] partitions that report. *)
Variables (j : HashJoin) (ls : list row) (mode : PartitionMode) (n : nat) (data : nat → PartitionData)
  (report : nat → PartitionBuildData).

Abbreviation value_of := (Exprs.row_value debug_assertions h at_null bit_value schema).

(** The part of the build side a partition collects. *)
Definition build_part (p : nat) : list row :=
  match mode with Partitioned => @Repartition.rows_of (random_state HR) (on j).*1 n p ls | _ => ls end.

(** The reports describe the parts, and the keys the filter evaluates on the probe
    side are those the join compares. *)
Record reports_true : Prop := {
  rt_keys : keys_wf debug_assertions h at_null on_right schema tys height;
  rt_same : ∀ r k, mapM (λ e, value_of e r) on_right = Some k → k = key_cells (on j).*2 r;
  rt_count : 0 < n ∧ (Z.of_nat n < 2 ^ 32 - 1)%Z;
  rt_reports : reports_ok n report mode data;
  rt_data : ∀ p, p < n → single_list on_right (pd_pushdown (data p)) ∧
    describes le HJ tys (data p) (key_cells (on j).*1 <$> build_part p);
}.

Definition reachable (s : accumulator) : Prop :=
  ∃ d, new_data mode n = Some d ∧
    rtc (step struct_expr HJ HR on_right schema n (filter_height on_right height) report) (start d) s.

(** The rows of a batch the filter keeps: those for which it is true. *)
Definition filtered (s : accumulator) (b : RecordBatch) (kept : list row) : Prop :=
  ∃ v, evaluate (Exprs.to_dyn debug_assertions h at_null (inner_expr (dynamic_filter s))) b = Some (Ok v) ∧
    kept = mask_list (selection (map cell_bool (spread (num_rows b) v))) (rows b).

(** The keys of rows that match. *)
Definition matched_keys (k : row) : Prop :=
  ∃ l, l ∈ ls ∧ key_cells (on j).*1 l = k ∧ Forall is_Some k.

Lemma placeholder_good : filter_good debug_assertions h at_null bit_value on_right schema tys matched_keys (lit_bool true).
Proof.
  split; [by apply (Exprs.wt_literal _ _ _ _ (ScalarBoolean (Some true)))|]. intros r k _. by exists (Some true).
Qed.

Lemma good_weaken P Q e :
  filter_good debug_assertions h at_null bit_value on_right schema tys P e → (∀ k, Q k → P k) →
  filter_good debug_assertions h at_null bit_value on_right schema tys Q e.
Proof.
  intros [Ht Hv] HQ. split; [done|]. intros r k Hk. destruct (Hv r k Hk) as (c & Hc & Hp). exists c. split; [done|]. auto.
Qed.

(** Whatever state the reports are in, the filter lets the rows that match pass. *)
Lemma reachable_good s :
  reports_true → reachable s →
  filter_good debug_assertions h at_null bit_value on_right schema tys matched_keys (inner_expr (dynamic_filter s)).
Proof.
  intros [Hk Hsame [Hpos Hmax] Hrep Hdata] (d & Hd & Hs). unfold build_part in Hdata. destruct mode; cbn in Hd; [..|done]; injection Hd as <-.
  - destruct (partitioned_reachable _ _ _ _ _ _ _ _ _ _ Hrep Hs) as [_ _ [->|Hf]]; [apply placeholder_good|].
    edestruct (partitioned_filter_ok debug_assertions h at_null bit_value le struct_expr HJ HR on_right schema tys height Hk n data
      (λ p, key_cells (on j).*1 <$> @Repartition.rows_of (random_state HR) (on j).*1 n p ls)) as (e & He & Hg); [done..|].
    rewrite He in Hf. injection Hf as <-. eapply good_weaken; [done|]. intros k (l & Hl & <- & Hall).
    split; [|done]. apply list_elem_of_fmap. exists l. split; [done|]. by apply list_elem_of_filter.
  - destruct (shared_reachable _ _ _ _ _ _ _ _ _ _ Hpos Hrep Hs) as [_ _ [->|(p & Hp & [->|Hf])]]; [apply placeholder_good..|].
    destruct (Hdata p Hp) as [Hone Hd].
    destruct (shared_filter_ok debug_assertions h at_null bit_value le struct_expr HJ HR on_right schema tys height Hk
      (data p) _ Hone Hd) as (o & Ho & Hg).
    rewrite Ho in Hf. injection Hf as ->. eapply good_weaken; [by apply Hg|]. intros k (l & Hl & <- & Hall).
    split; [|done]. by apply list_elem_of_fmap_2.
Qed.

Abbreviation is_probe_batch := (probe_batch debug_assertions h at_null bit_value on_right schema).

Lemma filter_total s b : reports_true → reachable s → is_probe_batch b → ∃ kept, filtered s b kept.
Proof.
  intros Hrt Hs Hb. destruct (filter_batch _ _ _ bit_value _ _ _ _ (rt_keys Hrt) _ _ b (reachable_good s Hrt Hs) Hb) as (v & Hv & _).
  by eexists _, v.
Qed.

Lemma kept_thinned s b kept :
  reports_true → null_equality j = NullEqualsNothing → reachable s → is_probe_batch b → filtered s b kept →
  thinned (Plan.join_match j) ls (rows b) kept.
Proof.
  intros Hrt Hne Hs Hb (v & Hv & ->).
  destruct (filter_batch _ _ _ bit_value _ _ _ _ (rt_keys Hrt) _ _ b (reachable_good s Hrt Hs) Hb) as (v' & Hv' & _ & Hall).
  rewrite Hv in Hv'. injection Hv' as <-. pose proof (pb_keys _ _ _ _ _ _ _ Hb) as Hkeys. clear Hv.
  induction Hall as [|r c l cs Hc Hall IH]; [constructor|]. cbn.
  assert (thinned (Plan.join_match j) ls l (mask_list (selection (map cell_bool cs)) l)) as Ht
    by (apply IH; intros x Hx; apply Hkeys; by right).
  destruct (truthy (cell_bool c)) eqn:Htr; constructor; try done.
  apply not_true_iff_false. intros (l0 & Hl0 & Hm)%right_matched_true. destruct (Hkeys r) as [k Hk]; [by left|].
  destruct (match_keys j l0 r Hne Hm) as [Hsame Hnull]. pose proof (rt_same Hrt r k Hk) as ->.
  rewrite (Hc _ Hk) in Htr; [done|]. by exists l0.
Qed.

(** C9. A hash join may hand a dynamic filter to the operators below its probe side.  For every join type the guard admits,
    if nulls do not match and the join is not null-aware, the join of the rows the filter keeps is the join of all rows,
    in the same order: whichever partitions have reported when a batch is filtered, before, during and after the update,
    with the build side shared or partitioned, and whatever mixture of IN lists, indexes and bounds the partitions report,
    provided the reports describe the parts of the build side.  The filter evaluates on every batch without error. *)
Theorem dynamic_filter_keeps_join enable preserve_file_partitions batches kepts :
  reports_true → null_equality j = NullEqualsNothing → null_aware j = false →
  allow_join_dynamic_filter_pushdown enable preserve_file_partitions (join_type j) mode = true →
  Forall is_probe_batch batches →
  (∀ s b, reachable s → b ∈ batches → ∃ kept, filtered s b kept) ∧
  (Forall2 (λ b kept, ∃ s, reachable s ∧ filtered s b kept) batches kepts →
   Plan.join_output j ls (concat kepts) = Plan.join_output j ls (concat (rows <$> batches))).
Proof.
  intros Hrt Hne Hna Hallow Hbs. split.
  { intros s b Hs Hb. rewrite Forall_forall in Hbs. apply filter_total; auto. }
  intros Hkept. symmetry. apply thinned_output; [|done|].
  - unfold allow_join_dynamic_filter_pushdown in Hallow. by destruct (JoinType.on_lr_is_preserved (join_type j)).2.
  - induction Hkept as [|b kept batches kepts (s & Hs & Hf) Hkept IH]; [constructor|].
    apply Forall_cons in Hbs as [Hb Hbs]. cbn. apply thinned_app; [by eapply kept_thinned|by apply IH].
Qed.

Lemma partitioned_completes s :
  reports_true → mode = Partitioned → reachable s →
  ∃ s', rtc (step struct_expr HJ HR on_right schema n (filter_height on_right height) report) s s' ∧ acc_phase s' = Complete.
Proof.
  intros [Hk Hsame [Hpos Hmax] Hrep Hdata] Hm (d & Hd & Hs). unfold build_part in Hdata.
  rewrite Hm in Hrep, Hdata, Hd. cbn in Hd. injection Hd as <-.
  apply (can_complete _ _ _ _ _ _ _ _ (partitioned_inv struct_expr HJ HR on_right schema n (filter_height on_right height) data)).
  - intros s1 s2 Hi Hst. by eapply partitioned_step.
  - intros s1 Hi. apply Hi.
  - intros s1 p Hi Hp. specialize (Hrep p Hp). injection Hrep as <-. rewrite (pi_inner _ _ _ _ _ _ _ _ _ Hi). cbn [store].
    rewrite vec_set_in by (unfold gathered; by rewrite length_tab). by eexists.
  - intros s1 Hi Hlen. destruct Hi as [Hi [Hnd Hin] _]. rewrite Hi.
    edestruct (partitioned_filter_ok debug_assertions h at_null bit_value le struct_expr HJ HR on_right schema tys height Hk n data
      (λ p, key_cells (on j).*1 <$> @Repartition.rows_of (random_state HR) (on j).*1 n p ls)) as (e & He & _); [done..|].
    exists (Some e). rewrite <- He. do 2 f_equal. apply tab_ext. intros q Hq. rewrite decide_True; [done|]. by eapply all_arrived.
  - by eapply partitioned_reachable.
Qed.

Lemma shared_completes s :
  reports_true → mode = CollectLeft → reachable s →
  ∃ s', rtc (step struct_expr HJ HR on_right schema n (filter_height on_right height) report) s s' ∧ acc_phase s' = Complete.
Proof.
  intros [Hk Hsame [Hpos Hmax] Hrep Hdata] Hm (d & Hd & Hs). unfold build_part in Hdata.
  rewrite Hm in Hrep, Hdata, Hd. cbn in Hd. injection Hd as <-.
  apply (can_complete _ _ _ _ _ _ _ _ (shared_inv struct_expr HJ HR on_right schema n (filter_height on_right height) data)).
  - intros s1 s2 Hi Hst. by eapply shared_step.
  - intros s1 Hi. apply Hi.
  - intros s1 p Hi Hp. specialize (Hrep p Hp). injection Hrep as <-. rewrite (si_inner _ _ _ _ _ _ _ _ _ Hi).
    destruct (last (arrived s1)); by eexists.
  - intros s1 Hi Hlen. destruct Hi as [Hi [Hnd Hin] _]. rewrite Hi. destruct (last (arrived s1)) as [p|] eqn:Hl.
    + destruct (Hdata p) as [Hone Hd]; [by apply Hin, last_Some_elem_of|].
      destruct (shared_filter_ok debug_assertions h at_null bit_value le struct_expr HJ HR on_right schema tys height Hk
        (data p) _ Hone Hd) as (o & Ho & _). by exists o.
    + by exists None.
  - by eapply shared_reachable.
Qed.

(** C11. The dynamic filter is completed: from every state the reports of the partitions can be in, with a shared or a
    partitioned build side, the partitions can go on until the last one has built the predicate and marked the filter
    complete; no report is refused and building the predicate neither fails nor panics. *)
Theorem dynamic_filter_completes s :
  reports_true → reachable s →
  ∃ s', rtc (step struct_expr HJ HR on_right schema n (filter_height on_right height) report) s s' ∧ acc_phase s' = Complete.
Proof.
  intros Hrt Hs. assert (mode = Partitioned ∨ mode = CollectLeft) as [?|?];
    [|by apply partitioned_completes|by apply shared_completes].
  destruct Hs as (d & Hd & _). destruct mode; auto. done.
Qed.

End Join.

(** ** What is reported *)

Section Collected.
Import HashJoinStream JoinBuild.

(** The bounds of an integer key as the scalars of the predicate. *)
Definition scalar_of (ty : DataType) (v : ArrayMap.KeyScalar) : ScalarValue :=
  mkScalar ty match v with ArrayMap.IntScalar _ z => value_int ty <$> z | ArrayMap.OtherScalar _ => None end.

Definition scalar_bounds (ty : DataType) (b : ArrayMap.KeyScalar * ArrayMap.KeyScalar) : PartitionBounds :=
  {| DynamicFilter.column_bounds := [{| bounds_min := scalar_of ty b.1; bounds_max := scalar_of ty b.2 |}] |}.

Lemma int_type_value ty t z : int_type ty = Some t → value_type (value_int ty z) = ty.
Proof. by destruct ty. Qed.

Lemma int_value_of ty t v z : int_type ty = Some t → value_type v = ty → int_of v = Some z → v = value_int ty z.
Proof. intros Ht <- Hz. destruct v; cbn in *; try done; by injection Hz as ->. Qed.

Lemma hash_member `{Foldhash} ne on ls ld ops order m l :
  left_ok ne on ls ld (HashIndex ops) order → ld_map ld = HashMap m → l ∈ ls → is_Some (JoinHashMap.map m !! key_hash on.*1 l).
Proof.
  intros Hlo Hm Hl. pose proof (lo_index _ _ _ _ _ _ Hlo) as Hix. unfold index_ok in Hix. rewrite Hm in Hix.
  destruct Hix as [Hb Hrows]. rewrite <- (lo_rows _ _ _ _ _ _ Hlo) in Hl. apply list_elem_of_fmap in Hl as (i & -> & Hi).
  apply elem_of_dom. rewrite (JoinHashMap.b_dom _ _ Hb). apply elem_of_list_to_set.
  assert (i ∈ JoinHashMap.rows_with (key_hash on.*1 (JoinRows.row_of (ld_batch ld) i)) ops) as Hin.
  { rewrite Hrows. by apply list_elem_of_filter. }
  unfold JoinHashMap.rows_with in Hin. rewrite elem_of_reverse in Hin. apply list_elem_of_fmap in Hin as (p & _ & Hp).
  apply list_elem_of_filter in Hp as [<- Hp]. by apply list_elem_of_fmap_2.
Qed.

(** The batch of a build side holds the collected rows. *)
Lemma collected_row `{Foldhash} ne on ls ld ix order l : left_ok ne on ls ld ix order → l ∈ ls → l ∈ ld_batch ld.
Proof.
  intros Hlo Hl. rewrite <- (lo_rows _ _ _ _ _ _ Hlo) in Hl. apply list_elem_of_fmap in Hl as (i & -> & Hi).
  rewrite (lo_perm _ _ _ _ _ _ Hlo) in Hi. apply elem_of_seq in Hi. unfold JoinRows.row_of.
  destruct (lookup_lt_is_Some_2 (ld_batch ld) i) as [r Hr]; [lia|]. rewrite Hr. by eapply list_elem_of_lookup_2.
Qed.

Lemma array_member `{Foldhash} HJ ne on ls ld ty t el er order m l :
  left_ok ne on ls ld (ArrayIndex ty t el er) order → ld_map ld = ArrayMap m → l ∈ ls →
  Forall is_Some (key_cells on.*1 l) → lookup_row HJ (ArrayMap m) (key_cells on.*1 l) = Some true.
Proof.
  intros Hlo Hm Hl Hall. pose proof (lo_index _ _ _ _ _ _ Hlo) as Hix. unfold index_ok in Hix. rewrite Hm in Hix.
  destruct Hix as (-> & Ht & Hfit & Hb & _). pose proof (collected_row _ _ _ _ _ _ _ Hlo Hl) as Hin.
  cbn in Hall |- *. rewrite Forall_forall in Hfit. pose proof (Hfit l Hin) as Hl'. unfold key_fits in Hl'.
  destruct (Expr.evaluate el l) as [v|] eqn:Hv; [|by apply Forall_cons in Hall as [[? ?] _]].
  destruct Hl' as [Hty Hr]. destruct (int_of_typed ty t v Ht Hty) as [z Hz]. rewrite Hz. cbn [fmap option_fmap option_map mbind option_bind].
  pose proof (ArrayMap.contain_keys_ok t _ m Hb [Some z]) as Hc. unfold ArrayMap.contain_hashes_helper in Hc. cbn [mapM] in Hc.
  assert (Forall (ArrayMap.probe_typed t) [Some z]) as Hp by (repeat constructor; by apply (Hr t)). specialize (Hc Hp).
  destruct (ArrayMap.entry_of m (Some z)) as [entry|]; cbn in Hc |- *; [|done]. injection Hc as Hc. rewrite Hc. f_equal. apply bool_decide_true. split; [done|].
  unfold int_keys. apply list_elem_of_fmap. exists l. by rewrite Hv.
Qed.

(** The membership chosen for a build side has its keys. *)
Lemma collected_members HJ ne on ls ld ix order arrays size max_size max_distinct struct_array pushdown :
  @left_ok (random_state HJ) ne on ls ld ix order → on ≠ [] →
  map cells arrays = ld_values ld → Forall InList.flat_type (map array_type arrays) →
  (∀ ty t el er, ix = ArrayIndex ty t el er → map array_type arrays = [ty]) →
  membership size max_size max_distinct struct_array (length ls) arrays (ld_map ld) = Ok pushdown →
  match pushdown with PushInList _ => length on = 1 | _ => True end →
  members_ok HJ (map array_type arrays) pushdown (key_cells on.*1 <$> ls).
Proof.
  intros Hlo Hon Hcells Hflat Hty Hp Hone.
  assert (Hmap : members_ok HJ (map array_type arrays) (PushMap (ld_map ld)) (key_cells on.*1 <$> ls)).
  { cbn. destruct (ld_map ld) as [m|m] eqn:Hm; pose proof (lo_index _ _ _ _ _ _ Hlo) as Hix; unfold index_ok in Hix; rewrite Hm in Hix;
      destruct ix as [ops|ty t el er]; try done.
    - split; [split; [|done]|].
      + intros ->%map_eq_nil. rewrite (lo_values _ _ _ _ _ _ Hlo) in Hcells. by destruct on.
      + intros k (l & -> & Hl)%list_elem_of_fmap _. cbn. f_equal. apply bool_decide_true. by eapply hash_member.
    - split; [exists ty; split; [by eapply Hty|]; by destruct Hix as (_ & -> & _)|].
      intros k (l & -> & Hl)%list_elem_of_fmap Hall. by eapply array_member. }
  unfold membership in Hp. case_decide as Hn; [injection Hp as <-; by destruct ls|].
  destruct arrays as [|a arrays]; [by injection Hp as <-|]. destruct (_ || _) in Hp; [by injection Hp as <-|].
  assert (∃ b, pushdown = PushInList b) as [b ->].
  { destruct arrays; cbn in Hp; [injection Hp as <-; eauto|]. destruct (struct_array _); cbn in Hp; [|done]. injection Hp as <-. eauto. }
  rewrite (lo_values _ _ _ _ _ _ Hlo) in Hcells. destruct on as [|[el er] [|? ?]]; [done| |done].
  destruct arrays as [|? ?]; [|done]. cbn in Hp. injection Hp as <-. cbn in Hcells. injection Hcells as Hcells. cbn. split_and!; [done|..].
  - rewrite Hcells. intros Hnil%map_eq_nil. destruct ls as [|l ls']; [done|].
    assert (l ∈ ld_batch ld) as Hl by (eapply collected_row; [done|by left]). rewrite Hnil in Hl. by apply elem_of_nil in Hl.
  - intros c (l & Hc & Hl)%list_elem_of_fmap. cbn in Hc. injection Hc as ->. rewrite Hcells. change (map ?f ?k) with (f <$> k).
    apply list_elem_of_fmap_2. by eapply collected_row.
Qed.

(** The bounds collected for an integer key hold for its values. *)
Lemma collected_bounds `{HCells : ArrowCells} (le : value → value → bool) `{!OrderOk le} e schema ty t batches b :
  Expr.data_type e schema = Ok ty → int_type ty = Some t → Forall (key_fits ty e) (concat batches) →
  collect_bounds [e] schema batches = Some (Some b) →
  bounds_ok le [ty] (scalar_bounds ty b) (key_cells [e] <$> concat batches).
Proof.
  intros Hd Ht Hfit Hb. rewrite (collect_bounds_ok ty t) in Hb by done. case_bool_decide; [|done]. injection Hb as <-.
  destruct (column_bounds_ok t (int_keys e <$> batches)) as (mn & mx & -> & Hmm). rewrite <- int_keys_concat in Hmm.
  assert (Htyped : ∀ z : option Z, has_type ty (value_int ty <$> z)) by (intros [z|]; [by eapply int_type_value|done]).
  intros [|i] cb Hcb; [|by destruct i]. cbn in Hcb. injection Hcb as <-. exists ty. split_and!; [done..|apply Htyped|apply Htyped|].
  intros k v (l & -> & Hl)%list_elem_of_fmap Hv. cbn in Hv. injection Hv as Hv.
  rewrite Forall_forall in Hfit. pose proof (Hfit l Hl) as Hk. unfold key_fits in Hk. rewrite Hv in Hk. destruct Hk as [Hty _].
  destruct (int_of_typed ty t v Ht Hty) as [z Hz]. rewrite (int_value_of ty t v z Ht Hty Hz).
  assert (Some z ∈ int_keys e (concat batches)) as Hin.
  { unfold int_keys. apply list_elem_of_fmap. exists l. by rewrite Hv. }
  destruct mn as [a|], mx as [c|]; try done.
  - destruct Hmm as (_ & _ & Hmm). specialize (Hmm z Hin). exists (value_int ty a), (value_int ty c). cbn.
    rewrite !(le_integers ty t) by done. split_and!; [done..| |]; apply Z.leb_le; lia.
  - by apply Hmm in Hin.
Qed.


End Collected.

(** ** Examples *)

Section Sample.
#[local] Existing Instances plain_filter plain_filter_ok HashUtils.sample_hash.
Import JoinRun(key_join, key_rows, key_config).

Definition state0 : SeededRandomState := {| random_state := HashUtils.sample_hash; seed := 0 |}.
Definition no_structs (on : list Exprs.PhysicalExpr) (schema : list DataType) : option (Result Exprs.PhysicalExpr) :=
  Some (Err (NotImplemented "struct")).
Definition key_expr : list Exprs.PhysicalExpr := [Exprs.Column "k" 0].

Definition int32_bounds (a b : option Z) : PartitionBounds :=
  {| column_bounds := [{| bounds_min := mkScalar DInt32 (VInt32 <$> a); bounds_max := mkScalar DInt32 (VInt32 <$> b) |}] |}.

Definition key_batch (ks : list (option Z)) : RecordBatch := {| columns := [Int32Array ks]; num_rows := length ks |}.

Abbreviation sample_true := (reports_true (HF := plain_filter) (HH := HashUtils.sample_hash)
  false Construct.no_hidden (VInt64 0) Binary.plain_bit plain_le state0 state0 key_expr [DInt32] [DInt32] 1).
Abbreviation sample_reachable := (reachable (HH := HashUtils.sample_hash) no_structs state0 state0 key_expr [DInt32] 1).
Abbreviation sample_filtered := (filtered (HF := plain_filter) (HH := HashUtils.sample_hash) false Construct.no_hidden (VInt64 0)).

Lemma key_expr_wf :
  keys_wf (HF := plain_filter) (HH := HashUtils.sample_hash) false Construct.no_hidden (VInt64 0) key_expr [DInt32] [DInt32] 1.
Proof.
  split; [done| |by repeat constructor|].
  - intros [|i] e ty He Hty; [|by destruct i]. injection He as <-. injection Hty as <-. by constructor.
  - intros e ->%list_elem_of_singleton. by apply Construct.leaf_built.
Qed.

Lemma key_expr_same (on : list (PhysicalExpr * PhysicalExpr)) r k :
  on.*2 = [Column "k" 0] →
  mapM (λ e, Exprs.row_value (HF := plain_filter) (HH := HashUtils.sample_hash) false Construct.no_hidden (VInt64 0)
               Binary.plain_bit [DInt32] e r) key_expr = Some k → k = key_cells on.*2 r.
Proof.
  intros -> Hk. unfold key_cells. cbn in Hk |- *. unfold BloomExec.cell.
  destruct (r !! 0) as [x|]; cbn in Hk; [|done]. by injection Hk as <-.
Qed.

Lemma key_batch_ok ks :
  0 < length ks → (Z.of_nat (length ks) < 2 ^ 32)%Z →
  probe_batch (HF := plain_filter) (HH := HashUtils.sample_hash) false Construct.no_hidden (VInt64 0) Binary.plain_bit
    key_expr [DInt32] (key_batch ks).
Proof.
  intros Hpos Hmax. split; [by repeat constructor|done|done|].
  intros r Hr. apply list_elem_of_lookup in Hr as [i Hr]. unfold rows in Hr. apply lookup_lt_Some in Hr as Hlt.
  rewrite length_tab in Hlt. rewrite lookup_tab in Hr by done. injection Hr as <-. by eexists.
Qed.

(** Build keys 4 and 7 in two partitions: an IN list with bounds and a hash index. *)
Definition hash_index_7 : JoinHashMap.JoinHashMap :=
  default (JoinHashMap.with_capacity 1) (JoinHashMap.update_from_iter HashJoinStream.u32_max 0 (JoinHashMap.with_capacity 1) [(0, 7%N)]).

Definition sample_data (p : nat) : PartitionData :=
  match p with
  | 0 => {| pd_bounds := int32_bounds (Some 4%Z) (Some 4%Z); pd_pushdown := PushInList (Int32Array [Some 4%Z]) |}
  | _ => {| pd_bounds := {| column_bounds := [] |}; pd_pushdown := PushMap (JoinMap.HashMap hash_index_7) |}
  end.

Definition sample_report (p : nat) : PartitionBuildData :=
  ReportPartitioned p (pd_pushdown (sample_data p)) (pd_bounds (sample_data p)).

Lemma sample_data_true : sample_true (key_join JoinTypes.Inner false) (key_rows [4; 7]%Z) Partitioned 2 sample_data sample_report.
Proof.
  split; [apply key_expr_wf|by intros r k; apply key_expr_same|lia|by intros p _|].
  intros [|[|p]] Hp; [..|lia]; (split; [done|]).
  - change (key_cells _ <$> _) with [[Some (VInt32 4)]]. split.
    + split_and!; [done..|]. intros c [= ->]%list_elem_of_singleton. by left.
    + intros [|i] b Hb; [|by destruct i]. injection Hb as <-. exists DInt32. split_and!; [done..|].
      intros k v ->%list_elem_of_singleton [= <-]. by exists (VInt32 4), (VInt32 4).
  - change (key_cells _ <$> _) with [[Some (VInt32 7)]]. split; [|by intros i b Hb].
    split; [split; [done|by repeat constructor]|]. by intros k ->%list_elem_of_singleton _.
Qed.

Definition sample_probe : RecordBatch := key_batch [Some 4; None; Some 5; Some 7]%Z.

Lemma sample_kept :
  ∃ s, sample_reachable Partitioned 2 sample_report s ∧ is_complete (dynamic_filter s) = true ∧
    sample_filtered s sample_probe (key_rows [4; 7]%Z).
Proof.
  eexists. split_and!.
  - eexists. split; [done|]. eapply rtc_l; [by apply (step_report _ _ _ _ _ _ _ _ 0); [lia|set_solver|vm_compute]|].
    eapply rtc_l; [by apply (step_report _ _ _ _ _ _ _ _ 1); [lia|set_solver|vm_compute]|].
    eapply rtc_l; [by eapply step_update; [..|vm_compute]|].
    eapply rtc_once. by apply step_complete.
  - done.
  - eexists. split; [by vm_compute|]. by vm_compute.
Qed.

Lemma dynamic_filter_keeps_join_witness :
  ∃ s, sample_reachable Partitioned 2 sample_report s ∧ sample_filtered s sample_probe (key_rows [4; 7]%Z) ∧
    Plan.join_output (key_join JoinTypes.Inner false) (key_rows [4; 7]%Z) (key_rows [4; 7]%Z)
    = Plan.join_output (key_join JoinTypes.Inner false) (key_rows [4; 7]%Z) (rows sample_probe).
Proof.
  destruct sample_kept as (s & Hs & _ & Hf). exists s. split; [done|]. split; [done|].
  destruct (dynamic_filter_keeps_join false Construct.no_hidden (VInt64 0) Binary.plain_bit plain_le no_structs state0 state0
    key_expr [DInt32] [DInt32] 1 (key_join JoinTypes.Inner false) (key_rows [4; 7]%Z) Partitioned 2 sample_data sample_report
    true 0 [sample_probe] [key_rows [4; 7]%Z] sample_data_true eq_refl eq_refl eq_refl) as [_ Hjoin].
  - constructor; [|constructor]. apply key_batch_ok; cbn; lia.
  - apply Hjoin. constructor; [|constructor]. by exists s.
Defined.

Lemma dynamic_filter_completes_witness :
  ∃ s', rtc (step no_structs state0 state0 key_expr [DInt32] 2 (filter_height key_expr 1) sample_report)
    (start (PartitionedData [None; None])) s' ∧ acc_phase s' = Complete.
Proof.
  apply (dynamic_filter_completes false Construct.no_hidden (VInt64 0) Binary.plain_bit plain_le no_structs state0 state0
    key_expr [DInt32] [DInt32] 1 (key_join JoinTypes.Inner false) (key_rows [4; 7]%Z) Partitioned 2 sample_data sample_report
    _ sample_data_true). eexists. split; [done|apply rtc_refl].
Defined.


(** ** Nulls *)

(** A build side that all partitions share, reported once with its keys and bounds. *)
Definition shared_data (ks : list (option Z)) (a b : Z) : PartitionData :=
  {| pd_bounds := int32_bounds (Some a) (Some b); pd_pushdown := PushInList (Int32Array ks) |}.

Definition shared_report (ks : list (option Z)) (a b : Z) (p : nat) : PartitionBuildData :=
  ReportCollectLeft (pd_pushdown (shared_data ks a b)) (pd_bounds (shared_data ks a b)).

(** LEFT SEMI JOIN in which nulls match, as INTERSECT uses it. *)
Definition null_semi_join : HashJoin := {|
  on := [(Column "k" 0, Column "k" 0)]; join_type := LeftSemi; null_equality := NullEqualsNull; null_aware := false;
  projection := None; join_filter := None; join_fetch := None |}.

Lemma shared_true j ls ks a b :
  on j = [(Column "k" 0, Column "k" 0)] → key_cells [Column "k" 0] <$> ls = (λ k, [VInt32 <$> k]) <$> ks → ks ≠ [] →
  (∀ z, Some z ∈ ks → (a ≤ z ≤ b)%Z) →
  sample_true j ls CollectLeft 1 (λ _, shared_data ks a b) (shared_report ks a b).
Proof.
  intros Hon Hls Hne Hb. split; [apply key_expr_wf|by intros r k; apply key_expr_same; rewrite Hon|lia|by intros p _|].
  intros p _. split; [done|]. rewrite Hon. cbn [build_part fmap list_fmap fst]. rewrite Hls. split.
  - cbn. split_and!; [done|by destruct ks|]. intros c (k & [= ->] & Hk)%list_elem_of_fmap.
    change (map ?f ?l) with (f <$> l). by apply list_elem_of_fmap_2.
  - intros [|i] cb Hcb; [|by destruct i]. injection Hcb as <-. exists DInt32. split_and!; [done..|].
    intros k v (z & -> & Hz)%list_elem_of_fmap Hv. destruct z as [z|]; cbn in Hv; [|done]. injection Hv as <-.
    specialize (Hb z Hz). exists (VInt32 a), (VInt32 b). split_and!; [done..| |]; apply bool_decide_eq_true, Hb.
Qed.

Definition constructed_filter (ks : list (option Z)) : Exprs.PhysicalExpr :=
  match build_filter no_structs state0 state0 key_expr [DInt32] (filter_height key_expr 1)
          (CollectLeftData (Some (shared_data ks 4 4))) with
  | Some (Ok (Some e)) => e
  | _ => lit_bool true
  end.

Lemma null_filtered ks :
  ks = [Some 4%Z] ∨ ks = [None; Some 4%Z] →
  ∃ s, sample_reachable CollectLeft 1 (shared_report ks 4 4) s ∧ sample_filtered s (key_batch [None]) [].
Proof.
  intros Hks. eexists. split.
  - eexists. split; [done|]. eapply rtc_l; [by apply (step_report _ _ _ _ _ _ _ _ 0); [lia|set_solver|]|].
    eapply rtc_once. eapply (step_update _ _ _ _ _ _ _ _ _ (Some (constructed_filter ks))); [done..|].
    by destruct Hks as [-> | ->]; vm_compute.
  - destruct Hks as [-> | ->]; eexists; split; by vm_compute.
Qed.

(** C34. The guard of the dynamic filter looks at the join type only, and the filter is null for a null key.  So, with
    reports that describe the build side: a semi join in which nulls match loses the build row with the null key, when the
    filter drops the null of the probe side; and a null-aware anti join (NOT IN) returns the build row 4, although the
    null on the probe side makes its result empty. *)
Theorem dynamic_filter_loses_nulls :
  (allow_join_dynamic_filter_pushdown true 0 (join_type null_semi_join) CollectLeft = true ∧
   sample_true null_semi_join [[None]; [Some (VInt32 4)]] CollectLeft 1 (λ _, shared_data [None; Some 4%Z] 4 4)
     (shared_report [None; Some 4%Z] 4 4) ∧
   ∃ s, sample_reachable CollectLeft 1 (shared_report [None; Some 4%Z] 4 4) s ∧
     sample_filtered s (key_batch [None]) [] ∧
     Plan.join_output null_semi_join [[None]; [Some (VInt32 4)]] (rows (key_batch [None])) = [LeftOnly [None]] ∧
     Plan.join_output null_semi_join [[None]; [Some (VInt32 4)]] [] = []) ∧
  (allow_join_dynamic_filter_pushdown true 0 LeftAnti CollectLeft = true ∧
   sample_true (key_join LeftAnti true) (key_rows [4]%Z) CollectLeft 1 (λ _, shared_data [Some 4%Z] 4 4)
     (shared_report [Some 4%Z] 4 4) ∧
   ∃ s, sample_reachable CollectLeft 1 (shared_report [Some 4%Z] 4 4) s ∧
     sample_filtered s (key_batch [None]) [] ∧
     Plan.join_output (key_join LeftAnti true) (key_rows [4]%Z) (rows (key_batch [None])) = [] ∧
     Plan.join_output (key_join LeftAnti true) (key_rows [4]%Z) [] = [LeftOnly [Some (VInt32 4)]]).
Proof.
  split; (split; [done|]); (split; [apply shared_true; [done..|intros z Hz; set_unfold; destruct_or?; simplify_eq; lia]|]).
  - destruct (null_filtered [None; Some 4%Z]) as (s & Hs & Hf); [auto|]. by exists s.
  - destruct (null_filtered [Some 4%Z]) as (s & Hs & Hf); [auto|]. by exists s.
Qed.

End Sample.
End FilterJoin.
