(* ===== verification/RepartitionExec.v ===== *)
(** * Repartitioning (physical-plan/src/repartition/mod.rs)

    [RepartitionExec] runs a task per input that partitions its batches and sends
    them to the outputs, in memory or, when memory is short, through a spill pool
    with a marker in the channel; a second task reports the end or the error of an
    input to every output; the stream of an output reads its channel.  Tasks and
    streams interleave at their sends and polls, and at the start and the end of a
    write to a spill pool, during which an input holds the lock of the reservation of
    its output; writes to one pool so never overlap.  A channel and a spill pool are
    the queues [DistributorChannels] and [SpillPool] show them to be, a pool as long
    as no write to it fails: [step] starts no write to a pool after one has failed.
    Proved, for these interleavings: no send and no poll panics, every state can be run
    to the end with sends waiting for their gates and locks, and a stream that ends
    without an error has yielded all rows of its partition, in order if it has one
    input. *)

From stdpp Require Import base list strings gmap sorting relations.
From Stdlib Require Import ZArith Lia.
From S2P Require Import Prelude Relation HashUtils PhysicalPlan HashJoinRun MemoryPool Repartition.

Module RepartitionExec.
Import Repartition.

Inductive RepartitionBatch := InMemory (batch : list row) | Spilled.

Abbreviation MaybeBatch := (option (Result RepartitionBatch)).

Inductive StreamState := ReadingMemory | ReadingSpilled.

(** [PerPartitionStream] with its channel and the batches its spill pool holds;
    [alive] until the stream is dropped, [ended] when it has returned [None],
    [yielded] what it returned before. *)
Record PerPartitionStream := {
  queue : list MaybeBatch;
  spilled : list (list row);
  state : StreamState;
  remaining_partitions : nat;
  alive : bool;
  ended : bool;
  yielded : list (Result (list row));
}.

(** [pull_from_input] at work, or [wait_for_task] with its result and the outputs
    it still has to notify. *)
Inductive task_phase := Pulling | Waiting (result : option DataFusionError) (txs : list nat).

(** An input: [pending] are the batches of the current [partition_iter],
    [in_flight] the message it is sending. *)
Record InputTask := {
  stream : list (Result (list row));
  partitioner : BatchPartitioner;
  pending : list (nat * list row);
  in_flight : option (nat * RepartitionBatch);
  output_channels : list nat;
  task : task_phase;
}.

(** [writing] are the inputs inside [push_batch] of a spill writer, [broken] the
    channels to whose pool a write has failed. *)
Record exec_state := {
  tasks : list InputTask;
  streams : list PerPartitionStream;
  reservations : list N;
  writing : list nat;
  broken : list nat;
}.

Definition join_error : DataFusionError := External "Join Error".

Section Exec.
Context `{Foldhash} (get_array_memory_size : list row → N).
Context (partitioning : Partitioning) (preserve_order : bool) (n_in : nat).

Definition n_out : nat :=
  match partitioning with HashPartitioning _ n | RoundRobinBatch n | UnknownPartitioning n => n end.

(** Input [i] has a channel of its own to output [p] if order is preserved;
    otherwise all inputs share one. *)
Definition key (i p : nat) : nat := (if preserve_order then i else 0) * n_out + p.

Definition feeds (i c : nat) : bool := bool_decide (key i (c mod n_out) = c).

(** ** Updates *)

Definition with_queue (q : list MaybeBatch) (x : PerPartitionStream) : PerPartitionStream :=
  {| queue := q; spilled := spilled x; state := state x; remaining_partitions := remaining_partitions x;
     alive := alive x; ended := ended x; yielded := yielded x |}.

Definition with_spilled (sp : list (list row)) (st : StreamState) (x : PerPartitionStream) : PerPartitionStream :=
  {| queue := queue x; spilled := sp; state := st; remaining_partitions := remaining_partitions x;
     alive := alive x; ended := ended x; yielded := yielded x |}.

Definition with_remaining (n : nat) (x : PerPartitionStream) : PerPartitionStream :=
  {| queue := queue x; spilled := spilled x; state := state x; remaining_partitions := n;
     alive := alive x; ended := ended x; yielded := yielded x |}.

Definition with_result (r : option (Result (list row))) (x : PerPartitionStream) : PerPartitionStream :=
  {| queue := queue x; spilled := spilled x; state := state x; remaining_partitions := remaining_partitions x;
     alive := alive x; ended := match r with None => true | _ => ended x end;
     yielded := yielded x ++ match r with None => [] | Some r => [r] end |}.

Definition hang_up (x : PerPartitionStream) : PerPartitionStream :=
  {| queue := queue x; spilled := spilled x; state := state x; remaining_partitions := remaining_partitions x;
     alive := false; ended := ended x; yielded := yielded x |}.

Definition set_task (i : nat) (t : InputTask) (s : exec_state) : exec_state :=
  {| tasks := <[i := t]> (tasks s); streams := streams s; reservations := reservations s; writing := writing s; broken := broken s |}.

Definition set_stream (c : nat) (x : PerPartitionStream) (s : exec_state) : exec_state :=
  {| tasks := tasks s; streams := <[c := x]> (streams s); reservations := reservations s; writing := writing s; broken := broken s |}.

Definition set_reservation (p : nat) (n : N) (s : exec_state) : exec_state :=
  {| tasks := tasks s; streams := streams s; reservations := <[p := n]> (reservations s);
     writing := writing s; broken := broken s |}.

Definition set_pools (w b : list nat) (s : exec_state) : exec_state :=
  {| tasks := tasks s; streams := streams s; reservations := reservations s; writing := w; broken := b |}.

(** ** Inputs *)

(** [pull_from_input] returns: its senders and spill writers are dropped, and
    [wait_for_task] goes on with a sender for every output. *)
Definition finish (result : option DataFusionError) (t : InputTask) : InputTask :=
  {| stream := []; partitioner := partitioner t; pending := []; in_flight := None; output_channels := [];
     task := Waiting result (seq 0 n_out) |}.

(** The next batch of the input, when the last one has been sent. *)
Definition pull (t : InputTask) : option InputTask :=
  match task t, pending t, in_flight t with
  | Pulling, [], None =>
      Some (match output_channels t, stream t with
            | [], _ => finish None t
            | _, [] => finish None t
            | _, Err e :: _ => finish (Some e) t
            | _, Ok [] :: rest =>
                {| stream := rest; partitioner := partitioner t; pending := []; in_flight := None;
                   output_channels := output_channels t; task := Pulling |}
            | _, Ok batch :: rest =>
                match partition_iter (partitioner t) batch with
                | None => finish (Some join_error) t
                | Some (batches, pt) =>
                    {| stream := rest; partitioner := pt; pending := batches; in_flight := None;
                       output_channels := output_channels t; task := Pulling |}
                end
            end)
  | _, _, _ => None
  end.

(** The memory is granted, or the batch has gone to the spill pool, which may fail. *)
Inductive reserve_result := Granted | SpillOk | SpillErr (e : DataFusionError).

Definition sending (m : option (nat * RepartitionBatch)) (rest : list (nat * list row)) (outs : list nat) (t : InputTask) :
    InputTask :=
  {| stream := stream t; partitioner := partitioner t; pending := rest; in_flight := m;
     output_channels := outs; task := task t |}.

(** The output whose reservation an input turns to next. *)
Definition to_reserve (i : nat) (s : exec_state) : option nat :=
  t ← tasks s !! i;
  match task t, pending t, in_flight t with
  | Pulling, (p, _) :: _, None => if bool_decide (p ∈ output_channels t) then Some p else None
  | _, _, _ => None
  end.

(** The lock of the reservation of output [p], which the [match] on [try_grow] holds
    until [push_batch] has returned. *)
Definition locked (s : exec_state) (p : nat) : bool :=
  existsb (λ j, bool_decide (to_reserve j s = Some p)) (writing s).

(** [try_grow] has failed and [push_batch] is entered. *)
Definition start_spill (i : nat) (s : exec_state) : option exec_state :=
  _ ← to_reserve i s;
  if bool_decide (i ∈ writing s) then None else Some (set_pools (i :: writing s) (broken s) s).

(** [push_batch] has returned. *)
Definition end_spill (i : nat) (failed : list nat) (s : exec_state) : exec_state :=
  set_pools (filter (λ j, j ≠ i) (writing s)) (failed ++ broken s) s.

(** [try_grow] succeeds, or [push_batch] returns.  The arithmetic of reservations is
    that of [MemoryPool], where it is shown not to wrap. *)
Definition reserve (i : nat) (o : reserve_result) (s : exec_state) : option exec_state :=
  t ← tasks s !! i;
  match task t, pending t, in_flight t with
  | Pulling, (p, batch) :: rest, None =>
      if bool_decide (p ∈ output_channels t) then
        match o, bool_decide (i ∈ writing s) with
        | Granted, false =>
            n ← reservations s !! p;
            Some (set_task i (sending (Some (p, InMemory batch)) rest (output_channels t) t)
                    (set_reservation p (n + get_array_memory_size batch) s))
        | SpillOk, true =>
            x ← streams s !! key i p;
            Some (end_spill i [] (set_task i (sending (Some (p, Spilled)) rest (output_channels t) t)
                    (set_stream (key i p) (with_spilled (spilled x ++ [batch]) (state x) x) s)))
        | SpillErr e, true => Some (end_spill i [key i p] (set_task i (finish (Some e) t) s))
        | _, _ => None
        end
      else Some (set_task i (sending None rest (output_channels t) t) s)
  | _, _, _ => None
  end.

(** [send]: if the receiver is gone, memory is given back and the output is
    forgotten. *)
Definition send (i : nat) (s : exec_state) : option exec_state :=
  t ← tasks s !! i;
  match in_flight t with
  | None => None
  | Some (p, m) =>
      x ← streams s !! key i p;
      if alive x then
        Some (set_task i (sending None (pending t) (output_channels t) t)
                (set_stream (key i p) (with_queue (queue x ++ [Some (Ok m)]) x) s))
      else
        let t := sending None (pending t) (filter (λ q, q ≠ p) (output_channels t)) t in
        match m with
        | InMemory batch =>
            n ← reservations s !! p;
            n ← Memory.checked_sub n (get_array_memory_size batch);
            Some (set_task i t (set_reservation p n s))
        | Spilled => Some (set_task i t s)
        end
  end.

(** [wait_for_task] notifies an output. *)
Definition notify (i p : nat) (s : exec_state) : option exec_state :=
  t ← tasks s !! i;
  match task t with
  | Waiting result txs =>
      if bool_decide (p ∈ txs) then
        x ← streams s !! key i p;
        let message : MaybeBatch := match result with None => None | Some e => Some (Err e) end in
        let t := {| stream := stream t; partitioner := partitioner t; pending := pending t; in_flight := in_flight t;
                    output_channels := output_channels t; task := Waiting result (filter (λ q, q ≠ p) txs) |} in
        Some (set_task i t (if alive x then set_stream (key i p) (with_queue (queue x ++ [message]) x) s else s))
      else None
  | Pulling => None
  end.

(** ** Outputs *)

Inductive poll := Pending | Ready (r : option (Result (list row))).

Definition io_error : DataFusionError := External "spill file".

(** The spill stream is polled: the next batch, or an error; when it is empty it
    has ended if no writer is left. *)
Definition read_spilled (read_ok : bool) (sp : list (list row)) (x : PerPartitionStream) (batch : list row) :
    poll * PerPartitionStream :=
  if read_ok then (Ready (Some (Ok batch)), with_spilled sp ReadingMemory x)
  else (Ready (Some (Err io_error)), with_spilled (batch :: sp) ReadingSpilled x).

(** The loop of [poll_next_inner] over the messages of the channel.  [closed]: no
    sender is left; [spill_closed]: no spill writer is left. *)
Fixpoint read_queue (closed spill_closed read_ok : bool) (q : list MaybeBatch) (x : PerPartitionStream) (reservation : N) :
    option (poll * PerPartitionStream * N) :=
  match q with
  | [] => Some (if closed then Ready None else Pending, with_queue [] x, reservation)
  | Some (Ok (InMemory batch)) :: q =>
      reservation ← Memory.checked_sub reservation (get_array_memory_size batch);
      Some (Ready (Some (Ok batch)), with_queue q x, reservation)
  | Some (Ok Spilled) :: q =>
      match spilled x with
      | batch :: sp => Some (read_spilled read_ok sp (with_queue q x) batch, reservation)
      | [] =>
          if spill_closed then read_queue closed spill_closed read_ok q x reservation
          else Some (Pending, with_spilled [] ReadingSpilled (with_queue q x), reservation)
      end
  | Some (Err e) :: q => Some (Ready (Some (Err e)), with_queue q x, reservation)
  | None :: q =>
      remaining ← usize_sub (remaining_partitions x) 1;
      if decide (remaining = 0) then Some (Ready None, with_queue q (with_remaining remaining x), reservation)
      else read_queue closed spill_closed read_ok q (with_remaining remaining x) reservation
  end.

Definition poll_next_inner (closed spill_closed read_ok : bool) (x : PerPartitionStream) (reservation : N) :
    option (poll * PerPartitionStream * N) :=
  match state x, spilled x with
  | ReadingMemory, _ => read_queue closed spill_closed read_ok (queue x) x reservation
  | ReadingSpilled, batch :: sp => Some (read_spilled read_ok sp x batch, reservation)
  | ReadingSpilled, [] =>
      if spill_closed
      then read_queue closed spill_closed read_ok (queue x) (with_spilled [] ReadingMemory x) reservation
      else Some (Pending, x, reservation)
  end.

(** Input [t] has no sender to output [p] left. *)
Definition sender_gone (t : InputTask) (p : nat) : bool :=
  match task t with Pulling => false | Waiting _ txs => bool_decide (p ∉ txs) end.

Definition pulling (t : InputTask) : bool := match task t with Pulling => true | _ => false end.

Definition channel_closed (s : exec_state) (c : nat) : bool :=
  forallb id (imap (λ i t, negb (feeds i c) || sender_gone t (c mod n_out)) (tasks s)).

Definition spill_pool_closed (s : exec_state) (c : nat) : bool :=
  forallb id (imap (λ i t, negb (feeds i c) || negb (pulling t)) (tasks s)).

Definition poll_stream (c : nat) (read_ok : bool) (s : exec_state) : option exec_state :=
  x ← streams s !! c;
  n ← reservations s !! (c mod n_out);
  if alive x && negb (ended x) then
    '(r, x, n) ← poll_next_inner (channel_closed s c) (spill_pool_closed s c) read_ok x n;
    let x := match r with Pending => x | Ready r => with_result r x end in
    Some (set_reservation (c mod n_out) n (set_stream c x s))
  else None.

(** ** Interleavings *)

Inductive event :=
| Pull (i : nat)
| StartSpill (i : nat)
| Reserve (i : nat) (o : reserve_result)
| Send (i : nat)
| Notify (i p : nat)
| PollStream (c : nat) (read_ok : bool)
| DropStream (c : nat).

Definition exec (e : event) (s : exec_state) : option exec_state :=
  match e with
  | Pull i => t ← tasks s !! i; t ← pull t; Some (set_task i t s)
  | StartSpill i => start_spill i s
  | Reserve i o => reserve i o s
  | Send i => send i s
  | Notify i p => notify i p s
  | PollStream c read_ok => poll_stream c read_ok s
  | DropStream c => x ← streams s !! c; Some (set_stream c (hang_up x) s)
  end.

(** Memory is reserved under the lock of the reservation, and no write to a pool starts
    after one has failed. *)
Definition possible (s : exec_state) (e : event) : bool :=
  match e with
  | StartSpill i => match to_reserve i s with Some p => negb (locked s p) && bool_decide (key i p ∉ broken s) | None => false end
  | Reserve i Granted => match to_reserve i s with Some p => negb (locked s p) | None => true end
  | _ => true
  end.

Definition run (es : list event) (s : exec_state) : option exec_state :=
  foldM (λ s e, if possible s e then exec e s else None) es s.

Definition step (s s' : exec_state) : Prop := ∃ e, possible s e = true ∧ exec e s = Some s'.

(** The channels of a gate; it is open while one of them is empty. *)
Definition gate_open (s : exec_state) (g : nat) : bool :=
  existsb id (imap (λ c x, bool_decide (c / n_out = g) && alive x && bool_decide (queue x = []) && negb (channel_closed s c)) (streams s)).

(** A send has to wait at the gate, unless the receiver is gone. *)
Definition may_send (s : exec_state) (c : nat) : bool :=
  match streams s !! c with Some x => negb (alive x) || gate_open s (c / n_out) | None => false end.

(** Events that need not wait for a gate, and for the lock of the reservation in case
    memory is given back. *)
Definition permitted (s : exec_state) (e : event) : bool :=
  match e with
  | Send i => match t ← tasks s !! i; in_flight t with Some (p, _) => may_send s (key i p) && negb (locked s p) | None => false end
  | Notify i p => may_send s (key i p)
  | PollStream c _ => negb (locked s (c mod n_out))
  | _ => true
  end.

Definition gated_step (s s' : exec_state) : Prop := ∃ e, possible s e = true ∧ permitted s e = true ∧ exec e s = Some s'.

(** ** Start *)

(** The task of input [i], which depends on its index unless order is preserved;
    its partitioner is made as in [try_new]. *)
Definition start_task (i : nat) (input : list (Result (list row))) : InputTask :=
  let t pt ph outs := {| stream := input; partitioner := pt; pending := []; in_flight := None; output_channels := outs; task := ph |} in
  match try_new partitioning (if preserve_order then 0 else i) n_in with
  | Some (Ok pt) => t pt Pulling (seq 0 n_out)
  | Some (Err e) => finish (Some e) (t (Hash [] 0) Pulling [])
  | None => finish (Some join_error) (t (Hash [] 0) Pulling [])
  end.

Definition start_stream : PerPartitionStream :=
  {| queue := []; spilled := []; state := ReadingMemory; remaining_partitions := if preserve_order then 1 else n_in;
     alive := true; ended := false; yielded := [] |}.

(** [consume_input_streams] *)
Definition consume_input_streams (inputs : list (list (Result (list row)))) : exec_state :=
  {| tasks := imap start_task inputs;
     streams := replicate ((if preserve_order then n_in else 1) * n_out) start_stream;
     reservations := replicate n_out 0%N; writing := []; broken := [] |}.

(** ** What an input has to send *)

(** The batches [pull_from_input] makes of a stream and the error it ends with. *)
Fixpoint outputs (pt : BatchPartitioner) (stream : list (Result (list row))) :
    list (nat * list row) * option DataFusionError :=
  match stream with
  | [] => ([], None)
  | Err e :: _ => ([], Some e)
  | Ok [] :: stream => outputs pt stream
  | Ok batch :: stream =>
      match partition_iter pt batch with
      | None => ([], Some join_error)
      | Some (batches, pt) => let r := outputs pt stream in (batches ++ r.1, r.2)
      end
  end.

(** Those for output [p]. *)
Definition for_output (p : nat) (bs : list (nat * list row)) : list (list row) := (filter (λ x, x.1 = p) bs).*2.

Definition input_batches (i : nat) (input : list (Result (list row))) (p : nat) : list (list row) :=
  match try_new partitioning (if preserve_order then 0 else i) n_in with
  | Some (Ok pt) => for_output p (outputs pt input).1
  | _ => []
  end.

Definition input_error (i : nat) (input : list (Result (list row))) : option DataFusionError :=
  match try_new partitioning (if preserve_order then 0 else i) n_in with
  | Some (Ok pt) => (outputs pt input).2
  | Some (Err e) => Some e
  | None => Some join_error
  end.

(** ** Sums over a vector *)

Section Sums.
Context {A M : Type} (R : relation M) `{!Equivalence R} (op : M → M → M) `{!Proper (R ==> R ==> R) op} (e : M).
Context (Hassoc : ∀ a b c, R (op a (op b c)) (op (op a b) c)) (Hcomm : ∀ a b, R (op a b) (op b a)).

Definition over (f : nat → A → M) (l : list A) : M := foldr op e (imap f l).

Lemma foldr_split (L : list M) i y :
  L !! i = Some y → ∃ rest, R (foldr op e L) (op y rest) ∧ ∀ y', R (foldr op e (<[i := y']> L)) (op y' rest).
Proof.
  revert i. induction L as [|z L IH]; intros [|i] Hi; cbn in Hi; [done..| |].
  - injection Hi as ->. by exists (foldr op e L).
  - destruct (IH i Hi) as (rest & H1 & H2). exists (op z rest). cbn [insert list_insert foldr].
    assert (Hsw : ∀ a, R (op z (op a rest)) (op a (op z rest))).
    { intros a. rewrite Hassoc, (Hcomm z a), <- Hassoc. done. }
    split; [by rewrite H1, Hsw|]. intros y'. fold (<[i := y']> L). by rewrite H2, Hsw.
Qed.

Lemma imap_insert (f : nat → A → M) (l : list A) i a : imap f (<[i := a]> l) = <[i := f i a]> (imap f l).
Proof.
  apply list_eq. intros j. rewrite list_lookup_imap. destruct (decide (j = i)) as [->|Hne].
  - destruct (decide (i < length l)) as [Hlt|Hge].
    + by rewrite !list_lookup_insert_eq by (rewrite ?length_imap; lia).
    + by rewrite !lookup_ge_None_2 by (rewrite ?length_insert, ?length_imap; lia).
  - by rewrite !list_lookup_insert_ne, list_lookup_imap.
Qed.

(** One element changes: the rest stays. *)
Lemma over_split (f : nat → A → M) (l : list A) i a :
  l !! i = Some a → ∃ rest, R (over f l) (op (f i a) rest) ∧ ∀ a', R (over f (<[i := a']> l)) (op (f i a') rest).
Proof.
  intros Hi. unfold over. destruct (foldr_split (imap f l) i (f i a)) as (rest & H1 & H2).
  { by rewrite list_lookup_imap, Hi. }
  exists rest. split; [done|]. intros a'. by rewrite imap_insert.
Qed.

End Sums.

Abbreviation sum_nat := (over Nat.add 0).
Abbreviation sum_N := (over N.add 0%N).
Abbreviation gather := (over app []).

Lemma sum_nat_split {A} (f : nat → A → nat) l i a :
  l !! i = Some a → ∃ rest, sum_nat f l = f i a + rest ∧ ∀ a', sum_nat f (<[i := a']> l) = f i a' + rest.
Proof. intros Hi. apply (over_split (=)); [solve_proper|intros; lia|intros; lia|done]. Qed.

Lemma sum_N_split {A} (f : nat → A → N) l i a :
  l !! i = Some a → ∃ rest, (sum_N f l = f i a + rest ∧ ∀ a', sum_N f (<[i := a']> l) = f i a' + rest)%N.
Proof. intros Hi. apply (over_split (=)); [solve_proper|intros; lia|intros; lia|done]. Qed.

Lemma gather_split {A B} (f : nat → A → list B) l i a :
  l !! i = Some a → ∃ rest, gather f l ≡ₚ f i a ++ rest ∧ ∀ a', gather f (<[i := a']> l) ≡ₚ f i a' ++ rest.
Proof. intros Hi. apply (over_split Permutation); [solve_proper|intros; by rewrite app_assoc|intros; apply Permutation_app_comm|done]. Qed.

(** ** Messages *)

Definition mems (q : list MaybeBatch) : list (list row) :=
  omap (λ m, match m with Some (Ok (InMemory b)) => Some b | _ => None end) q.

Definition oks (ys : list (Result (list row))) : list (list row) :=
  omap (λ y, match y with Ok b => Some b | Err _ => None end) ys.

Definition count (P : MaybeBatch → bool) (q : list MaybeBatch) : nat := length (filter (λ m, P m = true) q).
Definition is_end (m : MaybeBatch) : bool := match m with None => true | _ => false end.
Definition is_spilled (m : MaybeBatch) : bool := match m with Some (Ok Spilled) => true | _ => false end.

Definition bytes (q : list MaybeBatch) : N :=
  foldr (λ b n, get_array_memory_size b + n)%N 0%N (mems q).

(** The batches the messages stand for, with those of the spill pool in place of
    the markers. *)
Fixpoint fill (q : list MaybeBatch) (sp : list (list row)) : list (list row) :=
  match q with
  | [] => []
  | Some (Ok (InMemory b)) :: q => b :: fill q sp
  | Some (Ok Spilled) :: q => match sp with b :: sp => b :: fill q sp | [] => fill q [] end
  | _ :: q => fill q sp
  end.

(** ** What a task still sends to an output *)

Definition inflight (t : InputTask) (p : nat) : list MaybeBatch :=
  match in_flight t with Some (q, m) => if decide (q = p) then [Some (Ok m)] else [] | None => [] end.

Definition later (t : InputTask) (p : nat) : list (list row) :=
  for_output p (pending t) ++ for_output p (outputs (partitioner t) (stream t)).1.

(** The end of the input is not yet announced to the output. *)
Definition unsent (t : InputTask) (p : nat) : nat :=
  match task t with Waiting None txs => if bool_decide (p ∈ txs) then 1 else 0 | _ => 1 end.

Definition failing (t : InputTask) : bool := match task t with Waiting (Some _) _ => true | _ => false end.

(** Sums over the inputs of a channel. *)
Definition from_feeders {M} (e : M) (f : InputTask → M) (c i : nat) (t : InputTask) : M :=
  if feeds i c then f t else e.

Definition coming (c : nat) (ts : list InputTask) : list (list row) :=
  gather (from_feeders [] (λ t, mems (inflight t (c mod n_out)) ++ later t (c mod n_out)) c) ts.

Definition ends (c : nat) (ts : list InputTask) : nat := sum_nat (from_feeders 0 (λ t, unsent t (c mod n_out)) c) ts.

Definition marks (c : nat) (ts : list InputTask) : nat :=
  sum_nat (from_feeders 0 (λ t, count is_spilled (inflight t (c mod n_out))) c) ts.

Definition expected (inputs : list (list (Result (list row)))) (c : nat) : list (list row) :=
  gather (λ i input, if feeds i c then input_batches i input (c mod n_out) else []) inputs.

(** ** Invariant *)

Section Invariant.
Context (inputs : list (list (Result (list row)))) (Hinputs : length inputs = n_in).

Definition mark (st : StreamState) : list MaybeBatch :=
  match st with ReadingSpilled => [Some (Ok Spilled)] | ReadingMemory => [] end.

(** No other input feeds the channel. *)
Definition only_feeder (i c : nat) : Prop := ∀ j, j < length inputs → feeds j c = true → j = i.

Definition none_failing (ts : list InputTask) (c : nat) : Prop :=
  ∀ i t, ts !! i = Some t → feeds i c = true → failing t = false.

(** What a task knows of the rest of its input. *)
Definition result_ok (t : InputTask) (error : option DataFusionError) : Prop :=
  (task t = Pulling → (outputs (partitioner t) (stream t)).2 = error) ∧ (∀ txs, task t = Waiting None txs → error = None).

(** A channel whose stream is alive and has not ended: batches are yielded, queued,
    spilled or to come, in order if there is one input; ends of inputs and markers
    of spilled batches are counted; errors are queued or yielded. *)
Record chan_ok (ts : list InputTask) (c : nat) (x : PerPartitionStream) : Prop := {
  ck_data : none_failing ts c → oks (yielded x) ++ mems (queue x) ++ spilled x ++ coming c ts ≡ₚ expected inputs c;
  ck_order i t input : none_failing ts c → ts !! i = Some t → inputs !! i = Some input → feeds i c = true → only_feeder i c →
    oks (yielded x) ++ fill (mark (state x) ++ queue x ++ inflight t (c mod n_out)) (spilled x) ++ later t (c mod n_out) =
    input_batches i input (c mod n_out);
  ck_ends : remaining_partitions x = count is_end (queue x) + ends c ts;
  ck_pos : 0 < remaining_partitions x;
  ck_marks : count is_spilled (mark (state x) ++ queue x) + marks c ts = length (spilled x);
  ck_last : ends c ts = 0 → queue x = [] ∨ last (queue x) = Some None;
  ck_error i t e txs : ts !! i = Some t → feeds i c = true → task t = Waiting (Some e) txs → c mod n_out ∉ txs →
    Some (Err e) ∈ queue x ∨ Err e ∈ yielded x;
  ck_open i t : ts !! i = Some t → feeds i c = true → task t = Pulling → c mod n_out ∈ output_channels t;
  ck_result i t input : ts !! i = Some t → inputs !! i = Some input → feeds i c = true → result_ok t (input_error i input);
}.

(** A stream that has ended without an error has yielded everything. *)
Definition complete (c : nat) (x : PerPartitionStream) : Prop :=
  (∀ e, Err e ∉ yielded x) →
  (∀ i input, inputs !! i = Some input → feeds i c = true → input_error i input = None) ∧
  oks (yielded x) ≡ₚ expected inputs c ∧
  (∀ i input, inputs !! i = Some input → feeds i c = true → only_feeder i c →
     oks (yielded x) = input_batches i input (c mod n_out)).

(** No sender to the channel is left. *)
Definition all_gone (ts : list InputTask) (c : nat) : Prop :=
  ∀ i t, ts !! i = Some t → feeds i c = true → sender_gone t (c mod n_out) = true.

Definition stream_ok (ts : list InputTask) (c : nat) (x : PerPartitionStream) : Prop :=
  alive x = true → if ended x then complete c x ∧ all_gone ts c else chan_ok ts c x.

Record task_ok (t : InputTask) : Prop := {
  tk_outputs p : p ∈ output_channels t → p < n_out;
  tk_flight p m : in_flight t = Some (p, m) → p < n_out ∧ task t = Pulling;
  tk_waiting r txs : task t = Waiting r txs → pending t = [] ∧ stream t = [] ∧ ∀ p, p ∈ txs → p < n_out;
}.

Definition reserved (p : nat) (s : exec_state) : N :=
  sum_N (λ c x, if decide (c mod n_out = p) then bytes (queue x) else 0%N) (streams s) +
  sum_N (λ _ t, bytes (inflight t p)) (tasks s).

Record ok (s : exec_state) : Prop := {
  ok_tasks_length : length (tasks s) = length inputs;
  ok_streams_length : length (streams s) = (if preserve_order then n_in else 1) * n_out;
  ok_reservations_length : length (reservations s) = n_out;
  ok_tasks i t : tasks s !! i = Some t → task_ok t;
  ok_streams c x : streams s !! c = Some x → stream_ok (tasks s) c x;
  ok_reserved p n : reservations s !! p = Some n → n = reserved p s;
}.

(** ** Steps of a task *)

(** A task changes without the channel of output [p] noticing. *)
Record compat (t t' : InputTask) (p : nat) : Prop := {
  cp_inflight : inflight t' p = inflight t p;
  cp_unsent : unsent t' p = unsent t p;
  cp_failing : failing t = true → failing t' = true;
  cp_later : failing t' = false → later t' p = later t p;
  cp_error e txs : task t' = Waiting (Some e) txs → p ∉ txs → ∃ txs0, task t = Waiting (Some e) txs0 ∧ p ∉ txs0;
  cp_open : task t' = Pulling → task t = Pulling ∧ (p ∈ output_channels t → p ∈ output_channels t');
  cp_result r : result_ok t r → result_ok t' r;
}.

Lemma lookup_task (ts : list InputTask) i t t' j u :
  ts !! i = Some t → <[i := t']> ts !! j = Some u → (j = i ∧ u = t') ∨ (j ≠ i ∧ ts !! j = Some u).
Proof. intros _ [(-> & -> & _)|[? ?]]%list_lookup_insert_Some; [by left|by right]. Qed.

Lemma sum_nat_same {A} (f : nat → A → nat) l i a a' :
  l !! i = Some a → f i a' = f i a → sum_nat f (<[i := a']> l) = sum_nat f l.
Proof. intros Hi Hf. destruct (sum_nat_split f l i a Hi) as (rest & -> & ->). lia. Qed.

Lemma gather_same {A B} (f : nat → A → list B) l i a a' :
  l !! i = Some a → f i a' = f i a → gather f (<[i := a']> l) ≡ₚ gather f l.
Proof. intros Hi Hf. destruct (gather_split f l i a Hi) as (rest & -> & ->). by rewrite Hf. Qed.

Lemma none_failing_back (ts : list InputTask) i t t' c :
  ts !! i = Some t → (feeds i c = true → failing t = true → failing t' = true) →
  none_failing (<[i := t']> ts) c → none_failing ts c.
Proof.
  intros Hi Hf Hn j u Hu Hj. destruct (decide (j = i)) as [->|Hne].
  - rewrite Hi in Hu. injection Hu as <-. destruct (failing t) eqn:E; [|done]. rewrite <- (Hn i t'); [symmetry; by apply Hf| |done].
    apply list_lookup_insert_eq. by eapply lookup_lt_Some.
  - apply (Hn j u); [|done]. by rewrite list_lookup_insert_ne.
Qed.

Lemma chan_ok_task (ts : list InputTask) i t t' c x :
  ts !! i = Some t → (feeds i c = true → compat t t' (c mod n_out)) → chan_ok ts c x → chan_ok (<[i := t']> ts) c x.
Proof.
  intros Hi Hcp Hx.
  assert (Hself : <[i := t']> ts !! i = Some t') by (apply list_lookup_insert_eq; by eapply lookup_lt_Some).
  assert (Hends : ends c (<[i := t']> ts) = ends c ts).
  { apply (sum_nat_same _ _ _ t); [done|]. unfold from_feeders. destruct (feeds i c) eqn:E; [|done]. by apply Hcp. }
  assert (Hmarks : marks c (<[i := t']> ts) = marks c ts).
  { apply (sum_nat_same _ _ _ t); [done|]. unfold from_feeders. destruct (feeds i c) eqn:E; [|done]. by rewrite (cp_inflight _ _ _ (Hcp eq_refl)). }
  assert (Hback : none_failing (<[i := t']> ts) c → none_failing ts c).
  { apply (none_failing_back ts i t); [done|]. intros E. apply Hcp, E. }
  assert (Hlater : none_failing (<[i := t']> ts) c → feeds i c = true → later t' (c mod n_out) = later t (c mod n_out)).
  { intros Hn E. apply (cp_later _ _ _ (Hcp E)). by eapply Hn. }
  constructor; rewrite ?Hends, ?Hmarks; try apply Hx.
  - intros Hn. rewrite <- (ck_data _ _ _ Hx (Hback Hn)). do 3 f_equiv. apply (gather_same _ _ _ t); [done|].
    unfold from_feeders. destruct (feeds i c) eqn:E; [|done]. by rewrite (cp_inflight _ _ _ (Hcp eq_refl)), (Hlater Hn eq_refl).
  - intros j u input Hn [[-> ->]|[_ Hu]]%(lookup_task _ _ _ _ _ _ Hi) Hin Hf Ho; [|by apply (ck_order _ _ _ Hx _ _ _ (Hback Hn))].
    rewrite (cp_inflight _ _ _ (Hcp Hf)), (Hlater Hn Hf). by apply (ck_order _ _ _ Hx _ _ _ (Hback Hn)).
  - intros j u e txs [[-> ->]|[_ Hu]]%(lookup_task _ _ _ _ _ _ Hi) Hf Ht Hp; [|by eapply (ck_error _ _ _ Hx)].
    destruct (cp_error _ _ _ (Hcp Hf) _ _ Ht Hp) as (txs0 & ? & ?). by eapply (ck_error _ _ _ Hx).
  - intros j u [[-> ->]|[_ Hu]]%(lookup_task _ _ _ _ _ _ Hi) Hf Ht; [|by eapply (ck_open _ _ _ Hx)].
    destruct (cp_open _ _ _ (Hcp Hf) Ht) as [Hp Hin]. apply Hin. by eapply (ck_open _ _ _ Hx).
  - intros j u input [[-> ->]|[_ Hu]]%(lookup_task _ _ _ _ _ _ Hi) Hin Hf; [|by eapply (ck_result _ _ _ Hx)].
    apply (cp_result _ _ _ (Hcp Hf)). by eapply (ck_result _ _ _ Hx).
Qed.

Lemma key_mod i p : p < n_out → key i p mod n_out = p.
Proof. intros Hp. unfold key. rewrite Nat.add_comm, Nat.Div0.mod_add. by apply Nat.mod_small. Qed.

Lemma feeds_key i p : p < n_out → feeds i (key i p) = true.
Proof. intros Hp. unfold feeds. rewrite key_mod by done. by apply bool_decide_eq_true. Qed.

Lemma feeds_eq i c : feeds i c = true → key i (c mod n_out) = c.
Proof. unfold feeds. by intros ?%bool_decide_eq_true. Qed.

Lemma all_gone_task (ts : list InputTask) i t t' c :
  ts !! i = Some t → (∀ p, sender_gone t p = true → sender_gone t' p = true) → all_gone ts c → all_gone (<[i := t']> ts) c.
Proof.
  intros Hi Hg Ha j u [[-> ->]|[_ Hu]]%(lookup_task _ _ _ _ _ _ Hi) Hf; [by eapply Hg, Ha|by eapply Ha].
Qed.

(** Task [i] and the channel of its output [p] change. *)
Lemma ok_step s s' i t t' p x x' :
  ok s → 0 < n_out → p < n_out → tasks s !! i = Some t → streams s !! key i p = Some x →
  tasks s' = <[i := t']> (tasks s) → streams s' = <[key i p := x']> (streams s) →
  length (reservations s') = length (reservations s) → task_ok t' → (∀ q, sender_gone t q = true → sender_gone t' q = true) →
  (∀ q, q ≠ p → inflight t' q = inflight t q) →
  (∀ q y, q < n_out → q ≠ p → streams s !! key i q = Some y → alive y = true → ended y = false → compat t t' q) →
  stream_ok (<[i := t']> (tasks s)) (key i p) x' →
  (∀ q n', reservations s' !! q = Some n' → ∃ n, reservations s !! q = Some n ∧
     if decide (q = p) then (n' + bytes (queue x) + bytes (inflight t p) = n + bytes (queue x') + bytes (inflight t' p))%N
     else n' = n) →
  ok s'.
Proof.
  intros Hok Hn0 Hp Hi Hx Ht Hs Hlen Htk Hg Hfl Hcp Hx' Hres. pose proof (lookup_lt_Some _ _ _ Hx) as Hlt. constructor.
  - rewrite Ht, length_insert. apply Hok.
  - rewrite Hs, length_insert. apply Hok.
  - rewrite Hlen. apply Hok.
  - rewrite Ht. intros j u [[-> ->]|[_ Hu]]%(lookup_task _ _ _ _ _ _ Hi); [done|by eapply (ok_tasks _ Hok)].
  - rewrite Hs, Ht. intros c y [(<- & <- & _)|[Hne Hy]]%list_lookup_insert_Some; [done|].
    intros Hal. pose proof (ok_streams _ Hok c y Hy Hal) as Hy'.
    destruct (ended y) eqn:Hend; [split; [apply Hy'|by eapply all_gone_task, Hy']|].
    apply (chan_ok_task _ _ t); [done| |done]. intros Hf. apply feeds_eq in Hf.
    apply (Hcp _ y); [apply Nat.mod_upper_bound; lia| |by rewrite Hf|done..]. intros E. apply Hne. by rewrite <- E.
  - intros q n' Hq. destruct (Hres q n' Hq) as (n & Hn & Hd). rewrite (ok_reserved _ Hok q n Hn) in Hd.
    unfold reserved in *. rewrite Ht, Hs.
    destruct (sum_N_split (λ c x, if decide (c mod n_out = q) then bytes (queue x) else 0%N) _ _ _ Hx) as (r1 & E1 & F1).
    destruct (sum_N_split (λ (_ : nat) t, bytes (inflight t q)) _ _ _ Hi) as (r2 & E2 & F2).
    rewrite E1, E2 in Hd. rewrite F1, F2. rewrite key_mod in * by done.
    case_decide as Hqp.
    + subst q. rewrite !decide_True in * by done. lia.
    + rewrite !decide_False in * by congruence. rewrite (Hfl q) by congruence. lia.
Qed.

(** Only task [i] changes. *)
Lemma ok_task_step s i t t' :
  ok s → 0 < n_out → tasks s !! i = Some t → task_ok t' → (∀ q, sender_gone t q = true → sender_gone t' q = true) →
  (∀ q, inflight t' q = inflight t q) →
  (∀ q y, q < n_out → streams s !! key i q = Some y → alive y = true → ended y = false → compat t t' q) →
  ok (set_task i t' s).
Proof.
  intros Hok Hn0 Hi Htk Hg Hfl Hcp.
  assert (Hlt : i < length inputs) by (rewrite <- (ok_tasks_length _ Hok); by eapply lookup_lt_Some).
  destruct (streams s !! key i 0) as [x|] eqn:Hx.
  - apply (ok_step s _ i t t' 0 x x); try done.
    + cbn. by rewrite list_insert_id.
    + intros q y Hq _. by apply Hcp.
    + intros Hal. pose proof (ok_streams _ Hok _ x Hx Hal) as Hx'.
      destruct (ended x) eqn:Hend; [split; [apply Hx'|by eapply all_gone_task, Hx']|].
      apply (chan_ok_task _ _ t); [done| |done]. intros _. rewrite key_mod by lia. by apply (Hcp 0 x).
    + intros q n' Hq. exists n'. split; [done|]. case_decide; [|done]. rewrite Hfl. lia.
  - constructor; cbn; try apply Hok.
    + rewrite length_insert. apply Hok.
    + intros j u [[-> ->]|[_ Hu]]%(lookup_task _ _ _ _ _ _ Hi); [done|by eapply (ok_tasks _ Hok)].
    + intros c y Hy Hal. pose proof (ok_streams _ Hok c y Hy Hal) as Hy'.
      destruct (ended y) eqn:Hend; [split; [apply Hy'|by eapply all_gone_task, Hy']|].
      apply (chan_ok_task _ _ t); [done| |done]. intros Hf%feeds_eq.
      apply (Hcp _ y); [apply Nat.mod_upper_bound; lia|by rewrite Hf|done..].
    + intros p n Hp. rewrite (ok_reserved _ Hok p n Hp). unfold reserved. f_equal. change (tasks (set_task i t' s)) with (<[i := t']> (tasks s)).
      destruct (sum_N_split (λ (_ : nat) t, bytes (inflight t p)) _ _ _ Hi) as (r2 & E2 & F2). by rewrite E2, F2, Hfl.
Qed.

Lemma for_output_app p bs bs' : for_output p (bs ++ bs') = for_output p bs ++ for_output p bs'.
Proof. unfold for_output. by rewrite filter_app, fmap_app. Qed.

Lemma for_output_cons p q b bs : for_output p ((q, b) :: bs) = (if decide (q = p) then [b] else []) ++ for_output p bs.
Proof. unfold for_output. rewrite filter_cons. cbn [fst]. by destruct (decide (q = p)). Qed.

Lemma in_outputs q : q < n_out → q ∈ seq 0 n_out.
Proof. intros Hq. apply elem_of_seq. lia. Qed.

Lemma finish_ok r t : task_ok (finish r t).
Proof.
  constructor; cbn; [by intros p ?%elem_of_nil|done|]. intros r' txs [= <- <-]. split_and!; [done..|].
  intros p Hp%elem_of_seq. lia.
Qed.

Lemma compat_fail t e q : q < n_out → in_flight t = None → task t = Pulling → compat t (finish (Some e) t) q.
Proof.
  intros Hq Hfl Ht. constructor; cbn; try done.
  - unfold inflight. cbn. by rewrite Hfl.
  - unfold unsent. cbn. by rewrite Ht.
  - intros e' txs [= <- <-] Hn. by destruct Hn; apply in_outputs.
Qed.

Lemma compat_done t q :
  q < n_out → in_flight t = None → task t = Pulling → pending t = [] → stream t = [] → compat t (finish None t) q.
Proof.
  intros Hq Hfl Ht Hp Hs. constructor; cbn; try done.
  - unfold inflight. cbn. by rewrite Hfl.
  - unfold unsent. cbn. rewrite Ht, bool_decide_true by by apply in_outputs. done.
  - unfold failing. by rewrite Ht.
  - unfold later. cbn. by rewrite Hp, Hs.
  - intros r [Hr _]. split; [done|]. intros txs _. rewrite <- (Hr Ht), Hs. done.
Qed.

(** The input advances by a batch whose parts become pending. *)
Lemma compat_pull t t' q :
  in_flight t = None → in_flight t' = None → task t = Pulling → task t' = Pulling → output_channels t' = output_channels t →
  later t' q = later t q → (outputs (partitioner t') (stream t')).2 = (outputs (partitioner t) (stream t)).2 → compat t t' q.
Proof.
  intros Hf Hf' Ht Ht' Ho Hl Hr. constructor.
  - unfold inflight. by rewrite Hf, Hf'.
  - unfold unsent. by rewrite Ht, Ht'.
  - unfold failing. by rewrite Ht.
  - done.
  - intros e txs. by rewrite Ht'.
  - intros _. by rewrite Ho.
  - intros r [H1 H2]. split; [intros _; by rewrite Hr; apply H1|]. intros txs. by rewrite Ht'.
Qed.

Lemma gone_pulling t t' q : task t = Pulling → sender_gone t q = true → sender_gone t' q = true.
Proof. intros Ht. unfold sender_gone. by rewrite Ht. Qed.

Lemma pull_ok s i t t' : ok s → 0 < n_out → tasks s !! i = Some t → pull t = Some t' → ok (set_task i t' s).
Proof.
  intros Hok Hn Hi. pose proof (ok_tasks _ Hok _ _ Hi) as Htk. unfold pull.
  destruct (task t) eqn:Ht, (pending t) eqn:Hp, (in_flight t) eqn:Hf; try done. intros [= <-].
  assert (Hfin : ∀ r q, inflight (finish r t) q = inflight t q) by (intros r q; unfold inflight; cbn; by rewrite Hf).
  assert (Hfail : ∀ e, ok (set_task i (finish (Some e) t) s)).
  { intros e. apply (ok_task_step s i t); try done; [apply finish_ok|intros q; by apply gone_pulling|]. intros q y Hq _ _ _. by apply compat_fail. }
  destruct (output_channels t) as [|o os] eqn:Ho.
  { apply (ok_task_step s i t); try done; [apply finish_ok|intros q; by apply gone_pulling|]. intros q y Hq Hy Hal Hend. exfalso.
    pose proof (ok_streams _ Hok _ y Hy Hal) as Hc. rewrite Hend in Hc.
    pose proof (ck_open _ _ _ Hc i t Hi (feeds_key i q Hq) Ht) as Hin. rewrite Ho in Hin. by apply elem_of_nil in Hin. }
  assert (Hstep : ∀ t', in_flight t' = None → task t' = Pulling → output_channels t' = o :: os →
    (∀ p, later t' p = later t p) → (outputs (partitioner t') (stream t')).2 = (outputs (partitioner t) (stream t)).2 →
    ok (set_task i t' s)).
  { intros t' Hf' Ht' Ho' Hl Hr. apply (ok_task_step s i t); try done.
    - constructor; rewrite ?Hf', ?Ht', ?Ho'; [|done..]. intros p Hin. apply (tk_outputs _ Htk). by rewrite Ho.
    - intros q. by apply gone_pulling.
    - intros q. unfold inflight. by rewrite Hf, Hf'.
    - intros q y _ _ _ _. apply compat_pull; try done. by rewrite Ho. }
  destruct (stream t) as [|[batch|e] rest] eqn:Hs; [|destruct batch as [|r b]|apply Hfail].
  - apply (ok_task_step s i t); try done; [apply finish_ok|intros q; by apply gone_pulling|]. intros q y Hq _ _ _. by apply compat_done.
  - apply Hstep; try done. intros p. unfold later. cbn. rewrite Hp, Hs. done.
  - destruct (partition_iter (partitioner t) (r :: b)) as [[batches pt]|] eqn:Hpt; [|apply Hfail].
    apply Hstep; try done.
    + intros p. unfold later. cbn [pending partitioner stream]. rewrite Hp, Hs. cbn [outputs]. rewrite Hpt. cbn [fst].
      by rewrite for_output_app.
    + cbn [outputs]. cbn [partitioner stream]. rewrite Hpt. done.
Qed.

Lemma over_nil {A M} (op : M → M → M) (e : M) (f : nat → A → M) l :
  op e e = e → (∀ i a, l !! i = Some a → f i a = e) → over op e f l = e.
Proof.
  unfold over. intros He. revert f. induction l as [|a l IH]; intros f Hf; [done|]. cbn. rewrite (Hf 0 a eq_refl), IH; [done|].
  intros i b Hb. by apply (Hf (S i) b).
Qed.

Lemma sum_nat_only {A} (f : nat → A → nat) l i a :
  l !! i = Some a → (∀ j b, l !! j = Some b → j ≠ i → f j b = 0) → sum_nat f l = f i a.
Proof.
  unfold over. revert i f. induction l as [|b l IH]; intros [|i] f Hi H0; cbn in Hi; [done..| |]; cbn [imap foldr].
  - injection Hi as ->. fold (sum_nat (f ∘ S) l). rewrite over_nil; [lia|done|]. intros j b Hb. by apply (H0 (S j) b).
  - rewrite (H0 0 b eq_refl) by done. rewrite (IH i (f ∘ S) Hi); [done|]. intros j v Hv Hne. apply (H0 (S j) v Hv). lia.
Qed.

(** With one input, what the channel counts is what this input sends. *)
Lemma marks_only ts i t c :
  length ts = length inputs → ts !! i = Some t → feeds i c = true → only_feeder i c →
  marks c ts = count is_spilled (inflight t (c mod n_out)).
Proof.
  intros Hlen Hi Hf Ho. unfold marks. rewrite (sum_nat_only _ _ i t Hi); unfold from_feeders; [by rewrite Hf|].
  intros j u Hu Hne. destruct (feeds j c) eqn:E; [|done]. destruct Hne. apply Ho; [|done]. rewrite <- Hlen. by eapply lookup_lt_Some.
Qed.

Lemma count_app P q q' : count P (q ++ q') = count P q + count P q'.
Proof. unfold count. by rewrite filter_app, length_app. Qed.

Lemma mems_app q q' : mems (q ++ q') = mems q ++ mems q'.
Proof. apply omap_app. Qed.

(** Task [i] and the stream of its channel [c] change together. *)
Lemma chan_ok_update ts i t t' c x x' :
  length ts = length inputs → ts !! i = Some t → feeds i c = true → chan_ok ts c x →
  yielded x' = yielded x → state x' = state x → remaining_partitions x' = remaining_partitions x →
  failing t' = failing t →
  (failing t' = false →
     mems (queue x') ++ spilled x' ++ mems (inflight t' (c mod n_out)) ++ later t' (c mod n_out) ≡ₚ
     mems (queue x) ++ spilled x ++ mems (inflight t (c mod n_out)) ++ later t (c mod n_out)) →
  (failing t' = false →
     count is_spilled (mark (state x) ++ queue x ++ inflight t (c mod n_out)) = length (spilled x) →
     fill (mark (state x) ++ queue x' ++ inflight t' (c mod n_out)) (spilled x') ++ later t' (c mod n_out) =
     fill (mark (state x) ++ queue x ++ inflight t (c mod n_out)) (spilled x) ++ later t (c mod n_out)) →
  count is_end (queue x') + unsent t' (c mod n_out) = count is_end (queue x) + unsent t (c mod n_out) →
  count is_spilled (queue x') + count is_spilled (inflight t' (c mod n_out)) + length (spilled x) =
    count is_spilled (queue x) + count is_spilled (inflight t (c mod n_out)) + length (spilled x') →
  (unsent t' (c mod n_out) = 0 → last (queue x') = Some None) →
  (∀ e txs, task t' = Waiting (Some e) txs → c mod n_out ∉ txs →
     Some (Err e) ∈ queue x' ∨ ∃ txs0, task t = Waiting (Some e) txs0 ∧ c mod n_out ∉ txs0) →
  (∀ m, m ∈ queue x → m ∈ queue x') →
  (task t' = Pulling → c mod n_out ∈ output_channels t') → (∀ r, result_ok t r → result_ok t' r) →
  chan_ok (<[i := t']> ts) c x'.
Proof.
  intros Hlen Hi Hf Hx Hy Hst Hrem Hfail Hdata Hord Hends Hmarks Hlast Herr Hq Hopen Hres.
  destruct (sum_nat_split (from_feeders 0 (λ t, unsent t (c mod n_out)) c) _ _ _ Hi) as (r1 & E1 & F1).
  destruct (sum_nat_split (from_feeders 0 (λ t, count is_spilled (inflight t (c mod n_out))) c) _ _ _ Hi) as (r2 & E2 & F2).
  unfold from_feeders in E1, F1, E2, F2. rewrite Hf in E1, E2. setoid_rewrite Hf in F1. setoid_rewrite Hf in F2.
  assert (Hback : none_failing (<[i := t']> ts) c → none_failing ts c ∧ failing t' = false).
  { intros Hn. split; [apply (none_failing_back ts i t t'); [done| |done]; congruence|]. eapply Hn; [|done].
    apply list_lookup_insert_eq. by eapply lookup_lt_Some. }
  constructor.
  - intros [Hn Hft]%Hback. rewrite <- (ck_data _ _ _ Hx Hn), Hy. f_equiv. unfold coming.
    destruct (gather_split (from_feeders [] (λ t, mems (inflight t (c mod n_out)) ++ later t (c mod n_out)) c) _ _ _ Hi) as (r3 & -> & ->).
    unfold from_feeders. rewrite Hf. specialize (Hdata Hft). rewrite !app_assoc in *. by rewrite Hdata.
  - intros j u input Hn Hu Hin Hfj Ho. apply Hback in Hn as [Hn Hft].
    assert (j = i) as ->. { symmetry. apply Ho; [|done]. rewrite <- Hlen. by eapply lookup_lt_Some. }
    rewrite list_lookup_insert_eq in Hu by (by eapply lookup_lt_Some). injection Hu as <-.
    rewrite <- (ck_order _ _ _ Hx i t input Hn Hi Hin Hf Ho), Hy, Hst, Hord; [done|done|].
    pose proof (ck_marks _ _ _ Hx) as Hm. rewrite (marks_only ts i t c Hlen Hi Hf Ho) in Hm.
    rewrite app_assoc, count_app. exact Hm.
  - rewrite Hrem, (ck_ends _ _ _ Hx). unfold ends, from_feeders in *. rewrite E1, F1. lia.
  - rewrite Hrem. apply Hx.
  - pose proof (ck_marks _ _ _ Hx) as Hm. unfold marks, from_feeders in *. rewrite E2 in Hm. rewrite F2, Hst. rewrite count_app in *. lia.
  - intros Hz. unfold ends, from_feeders in Hz. rewrite F1 in Hz. right. apply Hlast. lia.
  - intros j u e txs [[-> ->]|[_ Hu]]%(lookup_task _ _ _ _ _ _ Hi) Hfj Ht Hp; rewrite Hy.
    + destruct (Herr _ _ Ht Hp) as [?|(txs0 & Ht0 & Hp0)]; [by left|].
      destruct (ck_error _ _ _ Hx _ _ _ _ Hi Hf Ht0 Hp0) as [?|?]; [left; by apply Hq|by right].
    + destruct (ck_error _ _ _ Hx _ _ _ _ Hu Hfj Ht Hp) as [?|?]; [left; by apply Hq|by right].
  - intros j u [[-> ->]|[_ Hu]]%(lookup_task _ _ _ _ _ _ Hi) Hfj Ht; [by apply Hopen|by eapply (ck_open _ _ _ Hx)].
  - intros j u input [[-> ->]|[_ Hu]]%(lookup_task _ _ _ _ _ _ Hi) Hin Hfj; [|by eapply (ck_result _ _ _ Hx)].
    apply Hres. by eapply (ck_result _ _ _ Hx).
Qed.

Lemma fill_memory q b sp : fill (q ++ [Some (Ok (InMemory b))]) sp = fill q sp ++ [b].
Proof.
  revert sp. induction q as [|[[[b'|]|e]|] q IH]; intros sp; cbn; [done|by rewrite IH| |apply IH|apply IH].
  destruct sp; [apply IH|]. by rewrite IH.
Qed.

Lemma fill_other q m sp : (m = None ∨ ∃ e, m = Some (Err e)) → fill (q ++ [m]) sp = fill q sp.
Proof.
  intros Hm. revert sp. induction q as [|[[[b'|]|e]|] q IH]; intros sp; cbn; [|by rewrite IH| |apply IH|apply IH].
  - by destruct Hm as [->|[e ->]].
  - destruct sp; [apply IH|]. by rewrite IH.
Qed.

Lemma count_cons P m q : count P (m :: q) = (if P m then 1 else 0) + count P q.
Proof. unfold count. rewrite filter_cons. destruct (P m); [by rewrite decide_True|by rewrite decide_False]. Qed.

Lemma fill_spill q b sp : count is_spilled q = length sp → fill (q ++ [Some (Ok Spilled)]) (sp ++ [b]) = fill q sp ++ [b].
Proof.
  revert sp. induction q as [|m q IH]; intros sp; cbn [app]; [by destruct sp|]. rewrite count_cons.
  destruct m as [[[b'|]|e]|]; cbn; [intros E; by rewrite IH| |apply IH|apply IH].
  destruct sp as [|b' sp]; [done|]. intros [= E]. cbn. by rewrite IH.
Qed.

Lemma sending_task_ok m rest outs t :
  task_ok t → task t = Pulling → (∀ p, p ∈ outs → p ∈ output_channels t) →
  (∀ p m', m = Some (p, m') → p < n_out) → task_ok (sending m rest outs t).
Proof.
  intros Htk Ht Ho Hm. constructor; cbn.
  - intros p Hp. by apply (tk_outputs _ Htk), Ho.
  - intros p m' Hm'. split; [by eapply Hm|done].
  - intros r txs. by rewrite Ht.
Qed.

Lemma inflight_other t p m q : in_flight t = Some (p, m) → q ≠ p → inflight t q = [].
Proof. intros Hf Hq. unfold inflight. rewrite Hf. by rewrite decide_False. Qed.

(** A message leaves the pending batches; outputs other than [p] do not notice. *)
Lemma compat_other t t' p q :
  task t = Pulling → task t' = Pulling → stream t' = stream t → partitioner t' = partitioner t →
  (∀ o, o ∈ output_channels t → o ≠ p → o ∈ output_channels t') → inflight t' q = inflight t q →
  for_output q (pending t') = for_output q (pending t) → q ≠ p → compat t t' q.
Proof.
  intros Ht Ht' Hs Hpt Ho Hf Hp Hq. constructor.
  - done.
  - unfold unsent. by rewrite Ht, Ht'.
  - unfold failing. by rewrite Ht.
  - intros _. unfold later. by rewrite Hs, Hpt, Hp.
  - intros e txs. by rewrite Ht'.
  - intros _. split; [done|]. intros Hin. by apply Ho.
  - intros r [H1 H2]. split; [intros _; rewrite Hs, Hpt; by apply H1|]. intros txs. by rewrite Ht'.
Qed.

Lemma stream_exists s i t p : ok s → tasks s !! i = Some t → p < n_out → is_Some (streams s !! key i p).
Proof.
  intros Hok Hi Hp. apply lookup_lt_is_Some_2. rewrite (ok_streams_length _ Hok). unfold key.
  apply lookup_lt_Some in Hi. rewrite (ok_tasks_length _ Hok) in Hi. destruct preserve_order; nia.
Qed.

Lemma inflight_sending p m rest outs t q :
  inflight (sending (Some (p, m)) rest outs t) q = if decide (p = q) then [Some (Ok m)] else [].
Proof. done. Qed.

(** Task [i] handles the next pending batch, for an open output [p]. *)
(** Task [i] still has to send to its output [p]. *)
Lemma not_all_gone ts i t p : ts !! i = Some t → p < n_out → sender_gone t p = false → all_gone ts (key i p) → False.
Proof. intros Hi Hp Hg Ha. specialize (Ha i t Hi (feeds_key i p Hp)). rewrite key_mod in Ha by done. congruence. Qed.

Lemma waiting_sends t p r txs : task t = Waiting r txs → p ∈ txs → sender_gone t p = false.
Proof. unfold sender_gone. intros -> Hp. by rewrite bool_decide_false by (intros Hn; by apply Hn). Qed.

Lemma pulling_sends t p : task t = Pulling → sender_gone t p = false.
Proof. unfold sender_gone. by intros ->. Qed.

Lemma sending_ok s s' i t p b rest m x x' :
  ok s → 0 < n_out → tasks s !! i = Some t → task t = Pulling → pending t = (p, b) :: rest → in_flight t = None →
  p ∈ output_channels t → streams s !! key i p = Some x →
  tasks s' = <[i := sending (Some (p, m)) rest (output_channels t) t]> (tasks s) →
  streams s' = <[key i p := x']> (streams s) → queue x' = queue x → yielded x' = yielded x → state x' = state x →
  remaining_partitions x' = remaining_partitions x → alive x' = alive x → ended x' = ended x →
  (m = InMemory b ∧ spilled x' = spilled x ∨ m = Spilled ∧ spilled x' = spilled x ++ [b]) →
  length (reservations s') = length (reservations s) →
  (∀ q n', reservations s' !! q = Some n' → ∃ n, reservations s !! q = Some n ∧
     if decide (q = p) then (n' = n + bytes [Some (Ok m)])%N else n' = n) →
  ok s'.
Proof.
  intros Hok Hn Hi Ht Hp Hf Hin Hx Hts Hst Hq Hy Hsx Hrem Hal Hend Hm Hlen Hres. pose proof (ok_tasks _ Hok _ _ Hi) as Htk.
  pose proof (tk_outputs _ Htk p Hin) as Hlt.
  assert (Hnone : ∀ q, inflight t q = []) by (intros q; unfold inflight; by rewrite Hf).
  assert (Hlater : later t p = b :: later (sending (Some (p, m)) rest (output_channels t) t) p).
  { unfold later. rewrite Hp, for_output_cons, decide_True by done. done. }
  apply (ok_step s s' i t _ p x x' Hok Hn Hlt Hi Hx Hts Hst Hlen).
  - apply sending_task_ok; [done..|]. by intros ? ? [= <- _].
  - intros q. by apply gone_pulling.
  - intros q Hne. rewrite inflight_sending, decide_False by congruence. by rewrite Hnone.
  - intros q y Hqn Hne _ _ _. apply (compat_other _ _ p); try done.
    + rewrite inflight_sending, decide_False by congruence. by rewrite Hnone.
    + rewrite Hp, for_output_cons, decide_False by congruence. done.
  - intros Ha. rewrite Hal in Ha. pose proof (ok_streams _ Hok _ _ Hx Ha) as Hc. rewrite Hend. destruct (ended x); [exfalso; eapply (not_all_gone _ i t p); [done..|by apply pulling_sends|apply Hc]|].
    apply (chan_ok_update _ i t _ _ x); rewrite ?key_mod, ?inflight_sending, ?decide_True, ?Hnone, ?Hlater, ?Hq by done; try done.
    + apply Hok.
    + by apply feeds_key.
    + intros _. destruct Hm as [[-> ->]|[-> ->]]; cbn [mems omap list_omap app]; [done|]. by rewrite <- (app_assoc (spilled x)).
    + intros _ Hc'. rewrite app_nil_r in *. destruct Hm as [[-> ->]|[-> ->]]; rewrite app_assoc.
      * by rewrite fill_memory, <- app_assoc.
      * by rewrite fill_spill, <- app_assoc.
    + destruct Hm as [[-> ->]|[-> ->]]; rewrite ?length_app, count_cons; cbn; lia.
    + unfold unsent. cbn. by rewrite Ht.
    + cbn. intros e txs. by rewrite Ht.
  - intros q n' Hq'. destruct (Hres q n' Hq') as (n & ? & Hd). exists n. split; [done|]. case_decide; [|done].
    rewrite Hnone, inflight_sending, decide_True, Hq by done. rewrite Hd. change (bytes []) with 0%N. lia.
Qed.

(** The invariant does not look at the writes under way. *)
Lemma ok_pools w b s : ok s → ok (set_pools w b s).
Proof. by intros []. Qed.

Lemma reserve_ok s i o s' : ok s → 0 < n_out → reserve i o s = Some s' → ok s'.
Proof.
  intros Hok Hn. unfold reserve. intros (t & Hi & Hs')%bind_Some. pose proof (ok_tasks _ Hok _ _ Hi) as Htk.
  destruct (task t) eqn:Ht, (pending t) as [|[p b] rest] eqn:Hp, (in_flight t) eqn:Hf; try done.
  assert (Hnone : ∀ q, inflight t q = []) by (intros q; unfold inflight; by rewrite Hf).
  case_bool_decide as Hin.
  - destruct o as [| |e], (bool_decide (i ∈ writing s)); try done.
    + apply bind_Some in Hs' as (n & Hres & [= <-]).
      destruct (stream_exists s i t p Hok Hi (tk_outputs _ Htk p Hin)) as [x Hx].
      apply (sending_ok s _ i t p b rest (InMemory b) x x); try done; [cbn; by rewrite list_insert_id|by left|cbn; by rewrite length_insert|].
      cbn. intros q n' [(<- & <- & _)|[Hne Hq]]%list_lookup_insert_Some.
      * exists n. split; [done|]. rewrite decide_True by done. unfold bytes. cbn. lia.
      * exists n'. by rewrite decide_False.
    + apply bind_Some in Hs' as (x & Hx & [= <-]). apply ok_pools.
      apply (sending_ok s _ i t p b rest Spilled x (with_spilled (spilled x ++ [b]) (state x) x)); try done; [by right|].
      cbn. intros q n' Hq. exists n'. split; [done|]. case_decide; [|done]. unfold bytes. cbn. lia.
    + injection Hs' as <-. apply ok_pools, (ok_task_step s i t); try done; [apply finish_ok|intros q; by apply gone_pulling|].
      intros q y Hq _ _ _. by apply compat_fail.
  - injection Hs' as <-. apply (ok_task_step s i t); try done.
    + by apply sending_task_ok.
    + intros q y Hq Hy Hal Hend.
      assert (q ≠ p) as Hne.
      { intros ->. apply Hin. pose proof (ok_streams _ Hok _ y Hy Hal) as Hc. rewrite Hend in Hc.
        rewrite <- (key_mod i p Hq). apply (ck_open _ _ _ Hc i t); [done|by apply feeds_key|done]. }
      apply (compat_other _ _ p); try done. rewrite Hp, for_output_cons, decide_False by congruence. done.
Qed.

Lemma checked_sub_Some n k n' : Memory.checked_sub n k = Some n' ↔ (n = n' + k)%N.
Proof.
  unfold Memory.checked_sub. destruct (N.leb_spec k n).
  - split; [intros [= <-]|intros ->; f_equal]; lia.
  - split; [done|lia].
Qed.

Lemma bytes_app q q' : bytes (q ++ q') = (bytes q + bytes q')%N.
Proof. unfold bytes. rewrite mems_app, foldr_app. induction (mems q) as [|b l IH]; cbn; [done|]. rewrite IH. lia. Qed.

Lemma inflight_self t p m : in_flight t = Some (p, m) → inflight t p = [Some (Ok m)].
Proof. intros Hf. unfold inflight. rewrite Hf. by rewrite decide_True. Qed.

Lemma reserved_inflight s i t p : tasks s !! i = Some t → (bytes (inflight t p) ≤ reserved p s)%N.
Proof.
  intros Hi. unfold reserved. destruct (sum_N_split (λ (_ : nat) t, bytes (inflight t p)) _ _ _ Hi) as (r & -> & _). lia.
Qed.

(** The message of task [i] arrives in its channel. *)
Lemma send_stream_ok s i t p m x :
  ok s → tasks s !! i = Some t → p < n_out → task t = Pulling → in_flight t = Some (p, m) → streams s !! key i p = Some x →
  stream_ok (<[i := sending None (pending t) (output_channels t) t]> (tasks s)) (key i p) (with_queue (queue x ++ [Some (Ok m)]) x).
Proof.
  intros Hok Hi Hp Ht Hf Hx Hal. pose proof (ok_streams _ Hok _ _ Hx Hal) as Hc. cbn [ended with_queue].
  destruct (ended x); [exfalso; eapply (not_all_gone _ i t p); [done..|by apply pulling_sends|apply Hc]|].
  pose proof (inflight_self _ _ _ Hf) as Hself.
  apply (chan_ok_update _ i t _ _ x); rewrite ?key_mod, ?Hself by done; cbn [queue with_queue spilled]; try done.
  - apply Hok.
  - by apply feeds_key.
  - intros _. rewrite mems_app, <- app_assoc. change (mems (inflight (sending None _ _ _) _)) with (@nil (list row)). cbn [app].
    f_equiv. rewrite (app_assoc (mems _) (spilled x)), (Permutation_app_comm (mems _) (spilled x)). by rewrite <- app_assoc.
  - intros _ _. change (inflight (sending None _ _ _) _) with (@nil MaybeBatch). by rewrite app_nil_r.
  - rewrite count_app, count_cons. cbn. unfold unsent. cbn. rewrite Ht. cbn. lia.
  - rewrite count_app. change (inflight (sending None _ _ _) _) with (@nil MaybeBatch). change (count is_spilled []) with 0. lia.
  - unfold unsent. cbn. by rewrite Ht.
  - cbn. intros e txs. by rewrite Ht.
  - intros m' Hm'. apply elem_of_app. by left.
  - intros _. cbn. rewrite <- (key_mod i p Hp). apply (ck_open _ _ _ Hc i t); [done|by apply feeds_key|done].
Qed.

Lemma send_ok s i s' : ok s → 0 < n_out → send i s = Some s' → ok s'.
Proof.
  intros Hok Hn. unfold send. intros (t & Hi & Hs')%bind_Some. pose proof (ok_tasks _ Hok _ _ Hi) as Htk.
  destruct (in_flight t) as [[p m]|] eqn:Hf; [|done]. destruct (tk_flight _ Htk p m Hf) as [Hp Ht].
  apply bind_Some in Hs' as (x & Hx & Hs'). pose proof (inflight_self _ _ _ Hf) as Hself.
  assert (Hother : ∀ q outs, q ≠ p → inflight (sending None (pending t) outs t) q = inflight t q).
  { intros q outs Hq. by rewrite (inflight_other _ _ _ _ Hf Hq). }
  assert (Hcompat : ∀ q outs, (∀ o, o ∈ output_channels t → o ≠ p → o ∈ outs) → q ≠ p →
    compat t (sending None (pending t) outs t) q).
  { intros q outs Ho Hq. apply (compat_other _ _ p); try done. by apply Hother. }
  destruct (alive x) eqn:Hal.
  - injection Hs' as <-. apply (ok_step s _ i t (sending None (pending t) (output_channels t) t) p x (with_queue (queue x ++ [Some (Ok m)]) x)); try done.
    + by apply sending_task_ok.
    + intros q Hq. by apply Hother.
    + intros q y _ Hq _ _ _. by apply Hcompat.
    + by apply send_stream_ok with (x := x).
    + intros q n' Hq. exists n'. split; [done|]. case_decide; [|done]. rewrite Hself. cbn [queue with_queue]. rewrite bytes_app.
      change (bytes (inflight (sending None _ _ _) _)) with 0%N. lia.
  - set (outs := filter (λ q, q ≠ p) (output_channels t)) in Hs'.
    assert (Ho : ∀ o, o ∈ output_channels t → o ≠ p → o ∈ outs) by (intros o ? ?; by apply list_elem_of_filter).
    assert (∃ n', tasks s' = <[i := sending None (pending t) outs t]> (tasks s) ∧ streams s' = streams s ∧
      reservations s' = <[p := n']> (reservations s) ∧ reservations s !! p = Some (n' + bytes [Some (Ok m)])%N) as (n' & E1 & E2 & E3 & E4).
    { destruct m as [b|].
      - apply bind_Some in Hs' as (n & Hr & Hs'). apply bind_Some in Hs' as (n' & Hsub & [= <-]). exists n'. split_and!; try done.
        rewrite Hr. apply checked_sub_Some in Hsub. unfold bytes. cbn. f_equal. lia.
      - injection Hs' as <-. destruct (lookup_lt_is_Some_2 (reservations s) p) as [n Hr]; [by rewrite (ok_reservations_length _ Hok)|].
        exists n. split_and!; try done; [symmetry; by apply list_insert_id|]. rewrite Hr. unfold bytes. cbn. f_equal. lia. }
    apply (ok_step s _ i t (sending None (pending t) outs t) p x x); try done; rewrite ?E2, ?E3.
    + by rewrite list_insert_id.
    + by rewrite length_insert.
    + apply sending_task_ok; [done..| |done]. by intros q [_ ?]%list_elem_of_filter.
    + intros q Hq. by apply Hother.
    + intros q y _ Hq _ _ _. by apply Hcompat.
    + unfold stream_ok. by rewrite Hal.
    + intros q n [(<- & <- & _)|[Hne Hq]]%list_lookup_insert_Some.
      * eexists. split; [done|]. rewrite decide_True, Hself by done. change (bytes (inflight (sending None _ _ _) _)) with 0%N. lia.
      * exists n. by rewrite decide_False.
Qed.

(** [wait_for_task] has notified output [p]. *)
Definition notified (p : nat) (r : option DataFusionError) (txs : list nat) (t : InputTask) : InputTask :=
  {| stream := stream t; partitioner := partitioner t; pending := pending t; in_flight := in_flight t;
     output_channels := output_channels t; task := Waiting r (filter (λ q, q ≠ p) txs) |}.

Definition message (r : option DataFusionError) : MaybeBatch := match r with None => None | Some e => Some (Err e) end.

Lemma compat_notified t p r txs q : task t = Waiting r txs → q ≠ p → compat t (notified p r txs t) q.
Proof.
  intros Ht Hq. assert (Hin : q ∈ filter (λ q, q ≠ p) txs ↔ q ∈ txs) by (rewrite list_elem_of_filter; naive_solver).
  constructor; cbn; try done.
  - unfold unsent. cbn. rewrite Ht. destruct r; [done|]. by rewrite (bool_decide_ext _ _ Hin).
  - unfold failing. cbn. by rewrite Ht.
  - intros e txs' [= -> <-] Hn. exists txs. split; [done|]. by rewrite <- Hin.
  - intros r' [_ H2]. split; [done|]. cbn. intros txs' [= -> _]. by apply (H2 txs).
Qed.

Lemma gone_notified t p r txs q : task t = Waiting r txs → sender_gone t q = true → sender_gone (notified p r txs t) q = true.
Proof.
  unfold sender_gone. intros ->. cbn [notified task]. rewrite !bool_decide_eq_true. intros Hq [_ Hin]%list_elem_of_filter. by apply Hq.
Qed.

Lemma message_other r : message r = None ∨ ∃ e, message r = Some (Err e).
Proof. destruct r; cbn; eauto. Qed.

Lemma notify_stream_ok s i t p r txs x :
  ok s → tasks s !! i = Some t → p < n_out → p ∈ txs → task t = Waiting r txs → streams s !! key i p = Some x →
  stream_ok (<[i := notified p r txs t]> (tasks s)) (key i p) (with_queue (queue x ++ [message r]) x).
Proof.
  intros Hok Hi Hp Hin Ht Hx Hal. pose proof (ok_streams _ Hok _ _ Hx Hal) as Hc. cbn [ended with_queue].
  destruct (ended x); [exfalso; eapply (not_all_gone _ i t p); [done..|by eapply waiting_sends|apply Hc]|].
  pose proof (ok_tasks _ Hok _ _ Hi) as Htk.
  assert (Hf : ∀ q, inflight t q = []).
  { intros q. unfold inflight. destruct (in_flight t) as [[p' m]|] eqn:E; [|done]. apply (tk_flight _ Htk) in E as [_ ?]. congruence. }
  assert (Hmem : mems [message r] = []) by by destruct r.
  assert (Hnin : p ∉ filter (λ q, q ≠ p) txs) by (rewrite list_elem_of_filter; naive_solver).
  apply (chan_ok_update _ i t _ _ x); rewrite ?key_mod by done; cbn [queue with_queue spilled]; try done.
  - apply Hok.
  - by apply feeds_key.
  - unfold failing. cbn. by rewrite Ht.
  - intros _. by rewrite mems_app, Hmem, app_nil_r.
  - intros _ _. change (inflight (notified p r txs t) p) with (inflight t p). rewrite Hf, !app_nil_r, app_assoc.
    by rewrite fill_other by apply message_other.
  - rewrite count_app, count_cons. unfold unsent. cbn. rewrite Ht. destruct r; cbn; [lia|].
    rewrite bool_decide_false, bool_decide_true by done. lia.
  - change (inflight (notified p r txs t) p) with (inflight t p). rewrite count_app, count_cons. destruct r; cbn; lia.
  - unfold unsent. cbn. destruct r; [done|]. intros _. apply last_snoc.
  - cbn. intros e txs' [= -> _] _. left. apply elem_of_app. right. by apply list_elem_of_singleton.
  - intros m' Hm'. apply elem_of_app. by left.
  - intros r' [_ H2]. split; [done|]. cbn. intros txs' [= -> _]. by apply (H2 txs).
Qed.

Lemma notify_ok s i p s' : ok s → 0 < n_out → notify i p s = Some s' → ok s'.
Proof.
  intros Hok Hn. unfold notify. intros (t & Hi & Hs')%bind_Some. pose proof (ok_tasks _ Hok _ _ Hi) as Htk.
  destruct (task t) as [|r txs] eqn:Ht; [done|]. case_bool_decide as Hin; [|done]. apply bind_Some in Hs' as (x & Hx & [= <-]).
  destruct (tk_waiting _ Htk _ _ Ht) as (Hp0 & Hs0 & Htxs). pose proof (Htxs p Hin) as Hp.
  fold (notified p r txs t). fold (message r).
  assert (Htk' : task_ok (notified p r txs t)).
  { constructor; cbn; [apply Htk| |].
    - intros p' m Hf. apply (tk_flight _ Htk) in Hf as [_ ?]. congruence.
    - intros r' txs' [= <- <-]. split_and!; [done..|]. intros q [_ Hq]%list_elem_of_filter. by apply Htxs. }
  destruct (alive x) eqn:Hal.
  - apply (ok_step s _ i t (notified p r txs t) p x (with_queue (queue x ++ [message r]) x)); try done.
    + intros q. by apply gone_notified.
    + intros q y _ Hq _ _ _. by apply compat_notified.
    + by apply notify_stream_ok.
    + intros q n' Hq. exists n'. split; [done|]. case_decide; [|done]. cbn [queue with_queue]. rewrite bytes_app.
      change (inflight (notified p r txs t) p) with (inflight t p). replace (bytes [message r]) with 0%N by by destruct r. lia.
  - apply (ok_task_step s i t); try done; [intros q; by apply gone_notified|]. intros q y _ Hy Hal' _. apply compat_notified; [done|]. intros ->. congruence.
Qed.

(** ** Steps of a stream *)

(** The stream consumes messages and batches of its channel. *)
Lemma chan_ok_consume ts c x x' :
  chan_ok ts c x →
  oks (yielded x') ++ mems (queue x') ++ spilled x' ≡ₚ oks (yielded x) ++ mems (queue x) ++ spilled x →
  (∀ fl, oks (yielded x') ++ fill (mark (state x') ++ queue x' ++ fl) (spilled x') =
         oks (yielded x) ++ fill (mark (state x) ++ queue x ++ fl) (spilled x)) →
  remaining_partitions x' + count is_end (queue x) = remaining_partitions x + count is_end (queue x') →
  0 < remaining_partitions x' →
  count is_spilled (mark (state x') ++ queue x') + length (spilled x) = count is_spilled (mark (state x) ++ queue x) + length (spilled x') →
  (∃ q, queue x = q ++ queue x') →
  (∀ e, Some (Err e) ∈ queue x → Some (Err e) ∈ queue x' ∨ Err e ∈ yielded x') →
  (∀ y, y ∈ yielded x → y ∈ yielded x') → chan_ok ts c x'.
Proof.
  intros Hx Hdata Hord Hends Hpos Hmarks [q Hq] Herr Hy. constructor; try apply Hx; try done.
  - intros Hn. rewrite <- (ck_data _ _ _ Hx Hn). rewrite !app_assoc in *. by rewrite Hdata.
  - intros i t input Hn Hi Hin Hf Ho. rewrite <- (ck_order _ _ _ Hx i t input Hn Hi Hin Hf Ho), !app_assoc.
    f_equal. rewrite <- !app_assoc. apply Hord.
  - pose proof (ck_ends _ _ _ Hx). lia.
  - pose proof (ck_marks _ _ _ Hx). lia.
  - intros Hz. destruct (ck_last _ _ _ Hx Hz) as [E|E]; rewrite Hq in E.
    + left. by apply app_eq_nil in E as [_ ?].
    + destruct (queue x'); [by left|]. right. by rewrite last_app_cons in E.
  - intros i t e txs Hi Hf Ht Hp. destruct (ck_error _ _ _ Hx _ _ _ _ Hi Hf Ht Hp) as [?|?]; [by apply Herr|right; by apply Hy].
Qed.

Lemma reading_spilled ts c x : chan_ok ts c x → state x = ReadingSpilled → spilled x ≠ [].
Proof.
  intros Hx Hst Hsp. pose proof (ck_marks _ _ _ Hx) as Hm. rewrite Hst, Hsp, count_app in Hm.
  change (count is_spilled (mark ReadingSpilled)) with 1 in Hm. cbn in Hm. lia.
Qed.

Lemma count_last q : last q = Some None → 0 < count is_end q.
Proof.
  destruct q as [|m q] using rev_ind; [done|]. rewrite last_snoc, count_app. intros [= ->]. rewrite count_cons. cbn. lia.
Qed.

Lemma over_zero {A} (f : nat → A → nat) l i a : sum_nat f l = 0 → l !! i = Some a → f i a = 0.
Proof. intros Hs Hi. destruct (sum_nat_split f l i a Hi) as (r & E & _). lia. Qed.

Section Poll.
Context (ts : list InputTask) (c : nat) (Hts : length ts = length inputs) (Htasks : ∀ i t, ts !! i = Some t → task_ok t).

(** The last end of an input has arrived. *)
Lemma drained_complete x :
  chan_ok ts c x → ends c ts = 0 → queue x = [None] → state x = ReadingMemory → complete c x.
Proof.
  intros Hx Hz Hq Hst _.
  assert (Hw : ∀ i t, ts !! i = Some t → feeds i c = true → ∃ txs, task t = Waiting None txs).
  { intros i t Hi Hf. pose proof (over_zero _ _ _ _ Hz Hi) as Hu. unfold from_feeders, unsent in Hu. rewrite Hf in Hu.
    destruct (task t) as [|[e|] txs]; [done..|by eexists]. }
  assert (Hnone : none_failing ts c).
  { intros i t Hi Hf. destruct (Hw i t Hi Hf) as [txs E]. unfold failing. by rewrite E. }
  assert (Hquiet : ∀ i t, ts !! i = Some t → feeds i c = true → inflight t (c mod n_out) = [] ∧ later t (c mod n_out) = []).
  { intros i t Hi Hf. destruct (Hw i t Hi Hf) as [txs E]. pose proof (Htasks i t Hi) as Htk. split.
    - unfold inflight. destruct (in_flight t) as [[p m]|] eqn:Hfl; [|done]. apply (tk_flight _ Htk) in Hfl as [_ ?]. congruence.
    - destruct (tk_waiting _ Htk _ _ E) as (Hp & Hs & _). unfold later. rewrite Hp, Hs. done. }
  assert (Hsp : spilled x = []).
  { pose proof (ck_marks _ _ _ Hx) as Hm. rewrite Hq, Hst in Hm. change (count is_spilled _) with 0 in Hm at 1.
    apply nil_length_inv. rewrite <- Hm. apply over_nil; [done|]. intros i t Hi. unfold from_feeders. destruct (feeds i c) eqn:Hf; [|done].
    by destruct (Hquiet i t Hi Hf) as [-> _]. }
  split_and!.
  - intros i input Hin Hf. destruct (lookup_lt_is_Some_2 ts i) as [t Hi]; [rewrite Hts; by eapply lookup_lt_Some|].
    destruct (Hw i t Hi Hf) as [txs E]. by apply (ck_result _ _ _ Hx i t input Hi Hin Hf) in E.
  - rewrite <- (ck_data _ _ _ Hx Hnone), Hq, Hsp. cbn. unfold coming. rewrite over_nil; [by rewrite app_nil_r|done|].
    intros i t Hi. unfold from_feeders. destruct (feeds i c) eqn:Hf; [|done]. by destruct (Hquiet i t Hi Hf) as [-> ->].
  - intros i input Hin Hf Ho. destruct (lookup_lt_is_Some_2 ts i) as [t Hi]; [rewrite Hts; by eapply lookup_lt_Some|].
    rewrite <- (ck_order _ _ _ Hx i t input Hnone Hi Hin Hf Ho), Hq, Hsp, Hst. destruct (Hquiet i t Hi Hf) as [-> ->]. cbn. by rewrite app_nil_r.
Qed.

Lemma ends_gone : ends c ts = 0 → all_gone ts c.
Proof.
  intros Hz i t Hi Hf. pose proof (over_zero _ _ _ _ Hz Hi) as Hu. unfold from_feeders, unsent, sender_gone in *. rewrite Hf in Hu.
  destruct (task t) as [|[e|] txs]; [done..|]. case_bool_decide; [done|]. by apply bool_decide_eq_true.
Qed.

(** A channel closed without all ends has seen an error. *)
Lemma closed_complete x :
  all_gone ts c → chan_ok ts c x → queue x = [] → complete c x.
Proof.
  intros Hgone Hx Hq Hno. exfalso. pose proof (ck_pos _ _ _ Hx) as Hpos. rewrite (ck_ends _ _ _ Hx), Hq in Hpos.
  cut (ends c ts = 0); [cbn in *; lia|]. apply over_nil; [done|]. intros i t Hi. unfold from_feeders. destruct (feeds i c) eqn:Hf; [|done].
  specialize (Hgone i t Hi Hf). unfold sender_gone in Hgone. unfold unsent. destruct (task t) as [|[e|] txs] eqn:Ht; [done| |].
  - apply bool_decide_eq_true in Hgone. destruct (ck_error _ _ _ Hx _ _ _ _ Hi Hf Ht Hgone) as [Hin|Hin]; [|by apply Hno in Hin].
    rewrite Hq in Hin. by apply elem_of_nil in Hin.
  - apply bool_decide_eq_true in Hgone. by rewrite bool_decide_false.
Qed.

(** What a poll leaves behind. *)
Definition polled (x : PerPartitionStream) (r : poll) (x' : PerPartitionStream) : Prop :=
  alive x' = alive x ∧ ended x' = ended x ∧
  match r with
  | Pending => chan_ok ts c x'
  | Ready (Some y) => chan_ok ts c (with_result (Some y) x')
  | Ready None => complete c x' ∧ all_gone ts c
  end.

Lemma oks_app ys ys' : oks (ys ++ ys') = oks ys ++ oks ys'.
Proof. apply omap_app. Qed.

(** The next spilled batch is read for the marker at the front. *)
Lemma read_spilled_ok read_ok x0 x b sp :
  chan_ok ts c x0 → mark (state x0) ++ queue x0 = Some (Ok Spilled) :: queue x →
  queue x0 = queue x ∨ queue x0 = Some (Ok Spilled) :: queue x → spilled x0 = b :: sp →
  yielded x0 = yielded x → remaining_partitions x0 = remaining_partitions x →
  let '(r, x') := read_spilled read_ok sp x b in polled x r x' ∧ queue x' = queue x.
Proof.
  intros Hx0 Hmq Hq Hsp Hy Hrem.
  assert (Hmems : mems (queue x0) = mems (queue x)) by by destruct Hq as [->| ->].
  assert (Hend : count is_end (queue x0) = count is_end (queue x)) by (destruct Hq as [->| ->]; rewrite ?count_cons; done).
  assert (Hsuf : ∃ q, queue x0 = q ++ queue x) by (destruct Hq as [->| ->]; [by exists []|by exists [Some (Ok Spilled)]]).
  assert (Herr : ∀ e, Some (Err e) ∈ queue x0 → Some (Err e) ∈ queue x).
  { intros e. destruct Hq as [->| ->]; [done|]. intros [?|?]%elem_of_cons; done. }
  pose proof (ck_pos _ _ _ Hx0) as Hpos.
  unfold read_spilled. destruct read_ok; (split; [|done]); split_and!; try done.
  - apply (chan_ok_consume _ _ x0); cbn [with_result with_spilled yielded queue spilled state remaining_partitions mark app]; try done.
    + rewrite oks_app, Hmems, Hsp, Hy, <- app_assoc. f_equiv. cbn. by rewrite Permutation_middle.
    + intros fl. rewrite oks_app, <- app_assoc, Hy. f_equal. rewrite (app_assoc _ (queue x0)), Hmq, Hsp. done.
    + lia.
    + lia.
    + rewrite Hmq, Hsp, count_cons. cbn. lia.
    + intros e He. left. by apply Herr.
    + intros y. rewrite Hy, elem_of_app. by left.
  - apply (chan_ok_consume _ _ x0); cbn [with_result with_spilled yielded queue spilled state remaining_partitions mark]; try done.
    + by rewrite oks_app, Hmems, Hsp, Hy, app_nil_r.
    + intros fl. rewrite oks_app, Hy, app_nil_r. f_equal. rewrite (app_assoc _ (queue x0)), Hmq, Hsp. done.
    + lia.
    + lia.
    + rewrite Hmq, Hsp. done.
    + intros e He. left. by apply Herr.
    + intros y. rewrite Hy, elem_of_app. by left.
Qed.

(** The message at the front is yielded. *)
Lemma front_ok q x y :
  chan_ok ts c (with_queue (match y with Ok b => Some (Ok (InMemory b)) | Err e => Some (Err e) end :: q) x) →
  state x = ReadingMemory → chan_ok ts c (with_result (Some y) (with_queue q x)).
Proof.
  set (m := match y with Ok b => _ | Err e => _ end). intros Hx Hst. pose proof (ck_pos _ _ _ Hx) as Hpos.
  apply (chan_ok_consume _ _ _ _ Hx); cbn [with_result with_queue yielded queue spilled state remaining_partitions]; try done.
  - rewrite oks_app, <- app_assoc. subst m. by destruct y.
  - intros fl. rewrite oks_app, <- app_assoc, Hst. subst m. by destruct y.
  - rewrite count_cons. subst m. by destruct y.
  - rewrite !count_app, count_cons. subst m. destruct y; cbn; lia.
  - by exists [m].
  - subst m. intros e [He|?]%elem_of_cons; [right|by left]. destruct y; simplify_eq. apply elem_of_app. right.
    by apply list_elem_of_singleton.
  - intros z Hz. apply elem_of_app. by left.
Qed.

(** An input has ended. *)
Lemma end_ok q x n :
  chan_ok ts c (with_queue (None :: q) x) → state x = ReadingMemory → remaining_partitions x = S n →
  if decide (n = 0) then complete c (with_queue q (with_remaining n x)) ∧ all_gone ts c else chan_ok ts c (with_queue q (with_remaining n x)).
Proof.
  intros Hx Hst Hrem. pose proof (ck_ends _ _ _ Hx) as He. cbn [with_queue queue remaining_partitions] in He. rewrite count_cons, Hrem in He. cbn in He.
  assert (Hx' : 0 < n → chan_ok ts c (with_queue q (with_remaining n x))).
  { intros Hn. apply (chan_ok_consume _ _ _ _ Hx); cbn [with_remaining with_queue yielded queue spilled state remaining_partitions]; try done.
    - intros fl. by rewrite Hst.
    - rewrite count_cons, Hrem. cbn. lia.
    - by rewrite !count_app, count_cons.
    - by exists [None].
    - intros e [?|?]%elem_of_cons; [done|by left]. }
  case_decide as Hn; [|apply Hx'; lia]. subst n.
  assert (q = []) as ->.
  { destruct (ck_last _ _ _ Hx ltac:(lia)) as [?|Hl]; [done|]. cbn [with_queue queue] in Hl. destruct q as [|m q]; [done|].
    change (last (m :: q) = Some None) in Hl. apply count_last in Hl. lia. }
  assert (Hd : complete c (with_queue [None] x)) by (apply drained_complete; [done|lia|done..]).
  split; [done|]. apply ends_gone. lia.
Qed.

Lemma read_queue_ok closed spill_closed read_ok q x n :
  (closed = true → all_gone ts c) →
  state x = ReadingMemory → chan_ok ts c (with_queue q x) → (bytes q ≤ n)%N →
  ∃ r x' n', read_queue closed spill_closed read_ok q x n = Some (r, x', n') ∧ polled x r x' ∧ (n' + bytes q = n + bytes (queue x'))%N.
Proof.
  intros Hclosed. revert x n. induction q as [|m q IH]; intros x n Hst Hx Hn; cbn [read_queue].
  { eexists _, _, _. split; [done|]. split; [|done]. split_and!; try done. destruct closed; [|done].
    split; [by apply closed_complete; [apply Hclosed|..]|by apply Hclosed]. }
  pose proof (ck_pos _ _ _ Hx) as Hpos. cbn in Hpos. change (m :: q) with ([m] ++ q) in Hn. rewrite bytes_app in Hn.
  change (bytes (m :: q)) with (bytes ([m] ++ q)). rewrite bytes_app. destruct m as [[[b|]|e]|].
  - replace (bytes [Some (Ok (InMemory b))]) with (get_array_memory_size b) in * by (unfold bytes; cbn; lia).
    assert (Memory.checked_sub n (get_array_memory_size b) = Some (n - get_array_memory_size b)%N) as ->
      by (apply checked_sub_Some; lia).
    eexists _, _, _. split; [done|]. split; [|cbn [with_queue queue]; lia]. split_and!; try done. by apply front_ok.
  - destruct (spilled x) as [|b sp] eqn:Hsp.
    { pose proof (ck_marks _ _ _ Hx) as Hm. cbn [with_queue state queue spilled] in Hm. rewrite Hsp, Hst, count_app, count_cons in Hm. cbn in Hm. lia. }
    pose proof (read_spilled_ok read_ok _ (with_queue q x) b sp Hx) as Hr. cbn [with_queue queue state spilled yielded remaining_partitions] in Hr.
    rewrite Hst in Hr. specialize (Hr eq_refl (or_intror eq_refl) Hsp eq_refl eq_refl).
    destruct (read_spilled read_ok sp (with_queue q x) b) as [r x']. destruct Hr as [Hr Hq].
    exists r, x', n. split; [done|]. split; [done|]. rewrite Hq. done.
  - eexists _, _, _. split; [done|]. split; [|done]. split_and!; try done. by apply front_ok.
  - destruct (remaining_partitions x) as [|k] eqn:Hrem; [lia|]. rewrite usize_sub_le by lia. cbn [mbind option_bind]. replace (S k - 1) with k by lia.
    pose proof (end_ok q x k Hx Hst Hrem) as Hk. case_decide.
    + eexists _, _, _. split; [done|]. done.
    + destruct (IH (with_remaining k x) n Hst Hk ltac:(lia)) as (r & x' & n' & E & Hp & Hb). exists r, x', n'. split_and!; done.
Qed.

Lemma poll_next_inner_ok closed spill_closed read_ok x n :
  (closed = true → all_gone ts c) →
  chan_ok ts c x → (bytes (queue x) ≤ n)%N →
  ∃ r x' n', poll_next_inner closed spill_closed read_ok x n = Some (r, x', n') ∧ polled x r x' ∧
    (n' + bytes (queue x) = n + bytes (queue x'))%N.
Proof.
  intros Hclosed Hx Hn. unfold poll_next_inner. destruct (state x) eqn:Hst.
  - apply read_queue_ok; try done. by destruct x.
  - destruct (spilled x) as [|b sp] eqn:Hsp.
    { by destruct (reading_spilled _ _ _ Hx Hst). }
    pose proof (read_spilled_ok read_ok x x b sp Hx) as Hr. rewrite Hst in Hr. specialize (Hr eq_refl (or_introl eq_refl) Hsp eq_refl eq_refl).
    destruct (read_spilled read_ok sp x b) as [r x']. destruct Hr as [Hr Hq]. exists r, x', n. split_and!; [done..|]. by rewrite Hq.
Qed.

End Poll.

Lemma ok_stream_step s c x x' n n' :
  ok s → 0 < n_out → streams s !! c = Some x → reservations s !! (c mod n_out) = Some n → stream_ok (tasks s) c x' →
  (n' + bytes (queue x) = n + bytes (queue x'))%N →
  ok (set_reservation (c mod n_out) n' (set_stream c x' s)).
Proof.
  intros Hok Hn Hx Hr Hx' Hb. constructor; cbn; rewrite ?length_insert; try apply Hok.
  - intros d y [(<- & <- & _)|[_ Hy]]%list_lookup_insert_Some; [done|]. by apply (ok_streams _ Hok).
  - intros p k Hk. unfold reserved. cbn [tasks streams set_reservation set_stream].
    destruct (sum_N_split (λ c x, if decide (c mod n_out = p) then bytes (queue x) else 0%N) _ _ _ Hx) as (r1 & E1 & F1). rewrite F1.
    apply list_lookup_insert_Some in Hk as [(<- & <- & _)|[Hne Hk]].
    + rewrite decide_True in * by done. pose proof (ok_reserved _ Hok _ _ Hr) as E. unfold reserved in E. rewrite E1 in E. lia.
    + rewrite decide_False in * by done. pose proof (ok_reserved _ Hok _ _ Hk) as E. unfold reserved in E. rewrite E1 in E. lia.
Qed.

Lemma forallb_imap {A} (f : nat → A → bool) l i a : forallb id (imap f l) = true → l !! i = Some a → f i a = true.
Proof.
  intros Hf Hi. rewrite forallb_forall in Hf. apply (Hf (f i a)). apply list_elem_of_In, list_elem_of_lookup.
  exists i. by rewrite list_lookup_imap, Hi.
Qed.

Lemma channel_closed_gone s c i t :
  channel_closed s c = true → tasks s !! i = Some t → feeds i c = true → sender_gone t (c mod n_out) = true.
Proof. intros Hc Hi Hf. apply (forallb_imap _ _ i t) in Hc; [|done]. cbn beta in Hc. by rewrite Hf in Hc. Qed.

(** A poll of a stream that is alive and has not ended does not panic. *)
Lemma poll_stream_ok s c read_ok x :
  ok s → 0 < n_out → streams s !! c = Some x → alive x = true → ended x = false →
  ∃ s', poll_stream c read_ok s = Some s' ∧ ok s'.
Proof.
  intros Hok Hn Hx Hal Hend. pose proof (ok_streams _ Hok _ _ Hx Hal) as Hc. rewrite Hend in Hc.
  destruct (lookup_lt_is_Some_2 (reservations s) (c mod n_out)) as [n Hr].
  { rewrite (ok_reservations_length _ Hok). apply Nat.mod_upper_bound. lia. }
  assert (Hle : (bytes (queue x) ≤ n)%N).
  { rewrite (ok_reserved _ Hok _ _ Hr). unfold reserved.
    destruct (sum_N_split (λ d x, if decide (d mod n_out = c mod n_out) then bytes (queue x) else 0%N) _ _ _ Hx) as (r1 & -> & _).
    rewrite decide_True by done. lia. }
  destruct (poll_next_inner_ok (tasks s) c (ok_tasks_length _ Hok) (ok_tasks _ Hok) (channel_closed s c) (spill_pool_closed s c) read_ok x n)
    as (r & x' & n' & E & (Hal' & Hend' & Hp) & Hb); [by intros Hcl i t; apply channel_closed_gone|done..|].
  unfold poll_stream. rewrite Hx, Hr. cbn [mbind option_bind]. rewrite Hal, Hend. cbn [andb negb]. rewrite E. cbn [mbind option_bind].
  eexists. split; [done|]. apply (ok_stream_step s c x _ n); try done.
  - intros Ha. destruct r as [|[y|]]; cbn [with_result alive ended] in *; rewrite ?Hend', ?Hend; try done.
    unfold complete in *. cbn [with_result yielded]. by rewrite app_nil_r.
  - by destruct r.
Qed.

Lemma poll_stream_step s c read_ok s' : ok s → 0 < n_out → poll_stream c read_ok s = Some s' → ok s'.
Proof.
  intros Hok Hn Hs'. assert (∃ x, streams s !! c = Some x ∧ alive x = true ∧ ended x = false) as (x & Hx & Hal & Hend).
  { unfold poll_stream in Hs'. apply bind_Some in Hs' as (x & Hx & Hs'). apply bind_Some in Hs' as (n & _ & Hs').
    exists x. split; [done|]. by destruct (alive x), (ended x). }
  destruct (poll_stream_ok s c read_ok x Hok Hn Hx Hal Hend) as (s'' & E & ?). by simplify_eq.
Qed.

Lemma exec_ok e s s' : ok s → 0 < n_out → exec e s = Some s' → ok s'.
Proof.
  intros Hok Hn. destruct e as [i|i|i o|i|i p|c read_ok|c]; cbn [exec].
  - intros (t & Hi & Hs')%bind_Some. apply bind_Some in Hs' as (t' & Ht & [= <-]). by eapply pull_ok.
  - unfold start_spill. intros (c & _ & Hs')%bind_Some. case_bool_decide; [done|]. injection Hs' as <-. by apply ok_pools.
  - by apply reserve_ok.
  - by apply send_ok.
  - by apply notify_ok.
  - by apply poll_stream_step.
  - intros (x & Hx & [= <-])%bind_Some. destruct (lookup_lt_is_Some_2 (reservations s) (c mod n_out)) as [n Hr].
    { rewrite (ok_reservations_length _ Hok). apply Nat.mod_upper_bound. lia. }
    pose proof (ok_stream_step s c x (hang_up x) n n Hok Hn Hx Hr) as Hd. unfold set_reservation in Hd. cbn in Hd.
    rewrite (list_insert_id (reservations s)) in Hd by done. by apply Hd.
Qed.

(** ** The start *)

Lemma over_imap {A B M} (op : M → M → M) (e : M) (f : nat → B → M) (g : nat → A → B) l :
  over op e f (imap g l) = over op e (λ i a, f i (g i a)) l.
Proof. unfold over. f_equal. apply list_eq. intros i. rewrite !list_lookup_imap. by destruct (l !! i). Qed.

Lemma over_ext {A M} (op : M → M → M) (e : M) (f g : nat → A → M) l :
  (∀ i a, l !! i = Some a → f i a = g i a) → over op e f l = over op e g l.
Proof. intros Hfg. unfold over. f_equal. by apply imap_ext. Qed.

Lemma start_task_ok i input : task_ok (start_task i input).
Proof.
  unfold start_task. destruct (try_new _ _ _) as [[pt|e]|]; [|apply finish_ok..].
  constructor; cbn; [|done..]. intros p Hp%elem_of_seq. lia.
Qed.

Lemma start_task_quiet i input p : inflight (start_task i input) p = [] ∧ unsent (start_task i input) p = 1.
Proof. unfold start_task. by destruct (try_new _ _ _) as [[pt|e]|]. Qed.

Lemma start_task_later i input p : failing (start_task i input) = false → later (start_task i input) p = input_batches i input p.
Proof. unfold start_task, input_batches. by destruct (try_new _ _ _) as [[pt|e]|]. Qed.

Lemma start_task_result i input : result_ok (start_task i input) (input_error i input).
Proof. unfold start_task, input_error, result_ok. by destruct (try_new _ _ _) as [[pt|e]|]. Qed.

(** A channel has as many inputs as its stream waits for. *)
Lemma start_ends c :
  0 < n_out → c < (if preserve_order then n_in else 1) * n_out →
  ends c (imap start_task inputs) = if preserve_order then 1 else n_in.
Proof.
  intros Hn Hc. unfold ends. rewrite over_imap. unfold from_feeders, feeds, key. destruct preserve_order.
  - assert (Hdiv : ∀ i, i * n_out + c mod n_out = c ↔ i = c / n_out).
    { intros i. pose proof (Nat.div_mod_eq c n_out). split; [intros E|intros ->; lia].
      apply (Nat.mul_cancel_r _ _ n_out); [lia|]. lia. }
    destruct (lookup_lt_is_Some_2 inputs (c / n_out)) as [input Hi]; [rewrite Hinputs; apply Nat.Div0.div_lt_upper_bound; lia|].
    rewrite (sum_nat_only _ _ _ _ Hi); [rewrite bool_decide_true by (by apply Hdiv); apply start_task_quiet|].
    intros j b _ Hne. rewrite bool_decide_false; [done|]. by rewrite Hdiv.
  - rewrite (over_ext _ _ _ (λ _ _, 1)).
    + rewrite <- Hinputs. unfold over. clear. induction inputs as [|a l IH]; [done|]. cbn. f_equal. exact IH.
    + intros i a _. rewrite bool_decide_true; [apply start_task_quiet|]. rewrite Nat.mod_small; lia.
Qed.

Lemma start_chan_ok c :
  0 < n_out → 0 < n_in → c < (if preserve_order then n_in else 1) * n_out → chan_ok (imap start_task inputs) c start_stream.
Proof.
  intros Hn Hi0 Hc.
  assert (Hlook : ∀ i t, imap start_task inputs !! i = Some t → ∃ input, inputs !! i = Some input ∧ t = start_task i input).
  { intros i t. rewrite list_lookup_imap, fmap_Some. intros (input & ? & ->). eauto. }
  constructor; cbn [start_stream yielded queue spilled state remaining_partitions mark app oks omap list_omap mems fill].
  - intros Hnf. unfold coming, expected. rewrite over_imap. erewrite over_ext; [done|]. intros i input Hin. unfold from_feeders.
    destruct (feeds i c) eqn:Hf; [|done]. rewrite (proj1 (start_task_quiet _ _ _)). apply start_task_later.
    eapply Hnf; [|done]. by rewrite list_lookup_imap, Hin.
  - intros i t input Hnf Ht Hin Hf _. pose proof (Hnf i t Ht Hf) as Hft. apply Hlook in Ht as (input' & Hin' & ->). simplify_eq.
    rewrite (proj1 (start_task_quiet _ _ _)). by apply start_task_later.
  - by rewrite start_ends.
  - by destruct preserve_order; [lia|].
  - cbn. apply over_nil; [done|]. intros i t (input & _ & ->)%Hlook. unfold from_feeders.
    by destruct (feeds i c); rewrite ?(proj1 (start_task_quiet _ _ _)).
  - intros _. by left.
  - intros i t e txs (input & _ & ->)%Hlook _. unfold start_task. destruct (try_new _ _ _) as [[pt|e']|]; cbn; [done|..].
    all: intros [= <- <-] Hp; destruct Hp; apply in_outputs, Nat.mod_upper_bound; lia.
  - intros i t (input & _ & ->)%Hlook _. unfold start_task. destruct (try_new _ _ _) as [[pt|e']|]; cbn; [|done..].
    intros _. apply in_outputs, Nat.mod_upper_bound. lia.
  - intros i t input (input' & Hin' & ->)%Hlook Hin _. simplify_eq. apply start_task_result.
Qed.

Lemma start_ok : 0 < n_out → 0 < n_in → ok (consume_input_streams inputs).
Proof.
  intros Hn Hi0. constructor; cbn [consume_input_streams tasks streams reservations].
  - by rewrite length_imap.
  - by rewrite length_replicate.
  - by rewrite length_replicate.
  - intros i t. rewrite list_lookup_imap, fmap_Some. intros (input & _ & ->). apply start_task_ok.
  - intros c x [-> Hc]%lookup_replicate _. by apply start_chan_ok.
  - intros p n [-> Hp]%lookup_replicate. unfold reserved. cbn [consume_input_streams tasks streams]. rewrite over_nil; [rewrite over_nil; [done..|]|done|].
    + intros i t. rewrite list_lookup_imap, fmap_Some. intros (input & _ & ->). by rewrite (proj1 (start_task_quiet _ _ _)).
    + intros c x [-> _]%lookup_replicate. by case_decide.
Qed.

Lemma steps_ok s s' : 0 < n_out → ok s → rtc step s s' → ok s'.
Proof. intros Hn Hok. induction 1 as [|s s1 s2 (e & _ & He) _ IH]; [done|]. apply IH. by eapply exec_ok. Qed.

(** ** Completion *)

(** A bound on the steps a task takes and the messages it still sends. *)
Definition task_work (t : InputTask) : nat :=
  match task t with
  | Pulling => 4 * length (outputs (partitioner t) (stream t)).1 + length (stream t) + 4 * length (pending t) +
               match in_flight t with Some _ => 2 | None => 0 end + 2 * n_out + 1
  | Waiting _ txs => 2 * length txs
  end.

Definition stream_work (x : PerPartitionStream) : nat :=
  if alive x && negb (ended x) then 1 + length (queue x) + length (spilled x) else 0.

Definition work (s : exec_state) : nat :=
  sum_nat (λ _, task_work) (tasks s) + sum_nat (λ _, stream_work) (streams s).

Lemma work_task s i t t' : tasks s !! i = Some t → task_work t' < task_work t → work (set_task i t' s) < work s.
Proof.
  intros Hi Hlt. unfold work. cbn [set_task tasks streams].
  destruct (sum_nat_split (λ _ : nat, task_work) _ _ _ Hi) as (r & E & F). rewrite E, F. lia.
Qed.

Lemma work_both s i t t' c x x' :
  tasks s !! i = Some t → streams s !! c = Some x → task_work t' + stream_work x' < task_work t + stream_work x →
  work (set_task i t' (set_stream c x' s)) < work s.
Proof.
  intros Hi Hx Hlt. unfold work. cbn [set_task set_stream tasks streams].
  destruct (sum_nat_split (λ _ : nat, task_work) _ _ _ Hi) as (r & E & F).
  destruct (sum_nat_split (λ _ : nat, stream_work) _ _ _ Hx) as (r' & E' & F'). rewrite E, F, E', F'. lia.
Qed.

Lemma pull_work t t' : pull t = Some t' → task_work t' < task_work t.
Proof.
  unfold pull. destruct (task t) eqn:Ht, (pending t) eqn:Hp, (in_flight t) eqn:Hf; try done. intros [= <-].
  assert (Hfin : ∀ r, task_work (finish r t) < task_work t).
  { intros r. unfold task_work. rewrite Ht. cbn [finish task]. rewrite length_seq. lia. }
  destruct (output_channels t) as [|o os]; [apply Hfin|].
  destruct (stream t) as [|[[|r b]|e] rest] eqn:Hs; try apply Hfin.
  - unfold task_work. rewrite Ht, Hs, Hp, Hf. cbn [task stream partitioner pending in_flight outputs length]. lia.
  - destruct (partition_iter (partitioner t) (r :: b)) as [[batches pt]|] eqn:Hpt; [|apply Hfin].
    unfold task_work. rewrite Ht, Hs, Hp, Hf. cbn [task stream partitioner pending in_flight length]. cbn [outputs]. rewrite Hpt.
    cbn [fst]. rewrite length_app. lia.
Qed.

Lemma reserve_progress s i t p b rest :
  ok s → tasks s !! i = Some t → task t = Pulling → pending t = (p, b) :: rest → in_flight t = None →
  ∃ o s', reserve i o s = Some s' ∧ work s' < work s ∧ alive <$> streams s' = alive <$> streams s.
Proof.
  intros Hok Hi Ht Hp Hf. exists (if bool_decide (i ∈ writing s) then SpillOk else Granted).
  unfold reserve. rewrite Hi. cbn [mbind option_bind]. rewrite Ht, Hp, Hf. case_bool_decide as Hin.
  2: { eexists. split_and!; [done| |done]. apply (work_task s i t); [done|]. unfold task_work.
       cbn [sending task stream partitioner pending in_flight]. rewrite Ht, Hp, Hf. cbn [length]. lia. }
  pose proof (tk_outputs _ (ok_tasks _ Hok _ _ Hi) p Hin) as Hlt. destruct (bool_decide (i ∈ writing s)).
  - destruct (stream_exists s i t p Hok Hi Hlt) as [x Hx]. rewrite Hx. cbn [mbind option_bind]. eexists. split_and!; [done| |].
    + change (work (end_spill _ _ ?s)) with (work s). apply (work_both s i t _ _ x); [done..|].
      unfold task_work, stream_work. cbn [sending task stream partitioner pending in_flight with_spilled alive ended queue spilled].
      rewrite Ht, Hp, Hf, length_app. cbn [length]. destruct (alive x && negb (ended x)); lia.
    + cbn. rewrite list_fmap_insert. apply list_insert_id. by rewrite list_lookup_fmap, Hx.
  - destruct (lookup_lt_is_Some_2 (reservations s) p) as [n Hr]; [by rewrite (ok_reservations_length _ Hok)|].
    rewrite Hr. eexists. split_and!; [done| |done].
    change (work (set_task i ?t (set_reservation _ _ s))) with (work (set_task i t s)).
    apply (work_task s i t); [done|]. unfold task_work. cbn [sending task stream partitioner pending in_flight]. rewrite Ht, Hp, Hf. cbn [length]. lia.
Qed.

Lemma send_progress s i t p m :
  ok s → tasks s !! i = Some t → in_flight t = Some (p, m) →
  ∃ s', send i s = Some s' ∧ work s' < work s ∧ alive <$> streams s' = alive <$> streams s.
Proof.
  intros Hok Hi Hf. pose proof (ok_tasks _ Hok _ _ Hi) as Htk. destruct (tk_flight _ Htk p m Hf) as [Hp Ht].
  destruct (stream_exists s i t p Hok Hi Hp) as [x Hx].
  assert (Hwork : ∀ outs, task_work (sending None (pending t) outs t) + 2 = task_work t).
  { intros outs. unfold task_work. cbn [sending task stream partitioner pending in_flight]. rewrite Ht, Hf. lia. }
  unfold send. rewrite Hi. cbn [mbind option_bind]. rewrite Hf, Hx. cbn [mbind option_bind]. destruct (alive x) eqn:Hal.
  - eexists. split_and!; [done| |].
    + apply (work_both s i t _ _ x); [done..|]. rewrite <- (Hwork (output_channels t)). unfold stream_work. cbn [with_queue alive ended queue spilled].
      destruct (alive x && negb (ended x)); rewrite ?length_app; cbn [length]; lia.
    + cbn [set_task set_stream streams]. rewrite list_fmap_insert. apply list_insert_id. by rewrite list_lookup_fmap, Hx.
  - set (outs := filter _ _). assert (Hlt : work (set_task i (sending None (pending t) outs t) s) < work s).
    { apply (work_task s i t); [done|]. rewrite <- (Hwork outs). lia. }
    destruct m as [b|]; [|by eexists]. destruct (lookup_lt_is_Some_2 (reservations s) p) as [n Hr].
    { by rewrite (ok_reservations_length _ Hok). }
    rewrite Hr. cbn [mbind option_bind]. pose proof (reserved_inflight s i t p Hi) as Hle. rewrite (inflight_self _ _ _ Hf) in Hle.
    rewrite <- (ok_reserved _ Hok _ _ Hr) in Hle. unfold bytes in Hle. cbn [mems omap list_omap foldr] in Hle.
    rewrite Memory.checked_sub_fits by lia. cbn [mbind option_bind]. by eexists.
Qed.

Lemma notify_progress s i t p r txs :
  ok s → tasks s !! i = Some t → task t = Waiting r txs → p ∈ txs →
  ∃ s', notify i p s = Some s' ∧ work s' < work s ∧ alive <$> streams s' = alive <$> streams s.
Proof.
  intros Hok Hi Ht Hin. pose proof (ok_tasks _ Hok _ _ Hi) as Htk. destruct (tk_waiting _ Htk _ _ Ht) as (_ & _ & Htxs).
  destruct (stream_exists s i t p Hok Hi (Htxs p Hin)) as [x Hx].
  assert (Hwork : task_work (notified p r txs t) + 2 ≤ task_work t).
  { unfold task_work. cbn [notified task]. rewrite Ht. enough (length (filter (λ q, q ≠ p) txs) < length txs) by lia.
    apply list_elem_of_split in Hin as (l1 & l2 & ->). rewrite filter_app, filter_cons_False by tauto. rewrite !length_app. cbn [length].
    pose proof (length_filter (λ q, q ≠ p) l1). pose proof (length_filter (λ q, q ≠ p) l2). lia. }
  unfold notify. rewrite Hi. cbn [mbind option_bind]. rewrite Ht, bool_decide_true, Hx by done. cbn [mbind option_bind].
  fold (notified p r txs t). fold (message r). eexists. split; [done|]. destruct (alive x) eqn:Hal; split.
  - apply (work_both s i t _ _ x); [done..|]. unfold stream_work. cbn [with_queue alive ended queue spilled].
    destruct (alive x && negb (ended x)); rewrite ?length_app; cbn [length]; lia.
  - cbn [set_task set_stream streams]. rewrite list_fmap_insert. apply list_insert_id. by rewrite list_lookup_fmap, Hx.
  - apply (work_task s i t); [done|lia].
  - done.
Qed.

Lemma read_queue_same closed spill_closed read_ok q x n r x' n' :
  read_queue closed spill_closed read_ok q x n = Some (r, x', n') → alive x' = alive x ∧ ended x' = ended x.
Proof.
  revert x n. induction q as [|[[[b|]|e]|] q IH]; intros x n; cbn [read_queue].
  - by intros [= <- <- <-].
  - by intros (k & _ & [= <- <- <-])%bind_Some.
  - destruct (spilled x); [destruct spill_closed; [apply IH|by intros [= <- <- <-]]|]. unfold read_spilled. by destruct read_ok; intros [= <- <- <-].
  - by intros [= <- <- <-].
  - intros (k & _ & Hk)%bind_Some. case_decide; [by injection Hk as <- <- <-|]. by apply IH in Hk.
Qed.

Lemma read_queue_progress closed spill_closed q x n r x' n' :
  read_queue closed spill_closed true q x n = Some (r, x', n') →
  r = Ready None ∨ length (queue x') + length (spilled x') < length q + length (spilled x) ∨
  q = [] ∧ closed = false ∧ queue x' = [] ∧ spilled x' = spilled x.
Proof.
  revert x n. induction q as [|[[[b|]|e]|] q IH]; intros x n; cbn [read_queue].
  - intros [= <- <- <-]. destruct closed; [by left|]. by right; right.
  - intros (k & _ & [= <- <- <-])%bind_Some. right; left. cbn. lia.
  - destruct (spilled x) as [|b sp] eqn:Hsp; [destruct spill_closed|].
    + intros [?|[?|(-> & _ & Hq & Hs)]]%IH; [by left|right; left..].
      * rewrite Hsp in *. cbn in *. lia.
      * rewrite Hq, Hs, Hsp. cbn. lia.
    + intros [= <- <- <-]. right; left. cbn. lia.
    + intros [= <- <- <-]. right; left. cbn. lia.
  - intros [= <- <- <-]. right; left. cbn. lia.
  - intros (k & _ & Hk)%bind_Some. case_decide; [injection Hk as <- <- <-; by left|].
    apply IH in Hk as [?|[?|(-> & _ & Hq & Hs)]]; [by left|right; left..]; [cbn in *; lia|]. rewrite Hq, Hs. cbn. lia.
Qed.

Lemma poll_next_inner_progress ts c closed spill_closed x n r x' n' :
  chan_ok ts c x → closed = true ∨ queue x ≠ [] → poll_next_inner closed spill_closed true x n = Some (r, x', n') →
  alive x' = alive x ∧ ended x' = ended x ∧
  (r = Ready None ∨ length (queue x') + length (spilled x') < length (queue x) + length (spilled x)).
Proof.
  intros Hc Hne. unfold poll_next_inner. destruct (state x) eqn:Hst; [|destruct (spilled x) as [|b sp] eqn:Hsp].
  - intros E. split_and!; [by apply read_queue_same in E as [? ?]..|].
    apply read_queue_progress in E as [?|[?|(Hq & Hcl & _)]]; [by left|by right|]. destruct Hne; congruence.
  - by destruct (reading_spilled _ _ _ Hc Hst).
  - intros [= <- <- <-]. split_and!; [done..|]. right. cbn. lia.
Qed.

Lemma imap_forallb {A} (f : nat → A → bool) l : (∀ i a, l !! i = Some a → f i a = true) → forallb id (imap f l) = true.
Proof.
  intros Hf. apply forallb_forall. intros b [i Hi]%list_elem_of_In%list_elem_of_lookup. rewrite list_lookup_imap in Hi.
  apply fmap_Some in Hi as (a & Ha & ->). by apply Hf.
Qed.

Lemma poll_progress s c x :
  ok s → 0 < n_out → streams s !! c = Some x → alive x = true → ended x = false →
  channel_closed s c = true ∨ queue x ≠ [] →
  ∃ s', poll_stream c true s = Some s' ∧ work s' < work s ∧ alive <$> streams s' = alive <$> streams s.
Proof.
  intros Hok Hn Hx Hal Hend Hne. destruct (poll_stream_ok s c true x Hok Hn Hx Hal Hend) as (s' & Hs' & _).
  exists s'. split; [done|]. unfold poll_stream in Hs'. rewrite Hx in Hs'. cbn [mbind option_bind] in Hs'.
  apply bind_Some in Hs' as (n & Hr & Hs'). rewrite Hal, Hend in Hs'. cbn [andb negb] in Hs'.
  apply bind_Some in Hs' as ([[r x'] n'] & E & [= <-]).
  pose proof (ok_streams _ Hok _ _ Hx Hal) as Hc. rewrite Hend in Hc.
  pose proof (poll_next_inner_progress _ _ _ _ _ _ _ _ _ Hc Hne E) as (Hal' & Hend' & Hp). cbn [set_reservation set_stream streams]. split.
  - change (work (set_reservation _ _ ?s)) with (work s). unfold work. cbn [set_stream tasks streams].
    destruct (sum_nat_split (λ _ : nat, stream_work) _ _ _ Hx) as (k & -> & ->).
    enough (stream_work (match r with Pending => x' | Ready r => with_result r x' end) < stream_work x) by lia.
    unfold stream_work at 2. rewrite Hal, Hend. destruct Hp as [->|?]; [|destruct r as [|[y|]]].
    all: unfold stream_work; cbn [with_result alive ended queue spilled andb negb]; rewrite ?andb_false_r; try lia.
    all: rewrite Hal', Hal, Hend', Hend; cbn [andb negb]; lia.
  - rewrite list_fmap_insert. apply list_insert_id. rewrite list_lookup_fmap, Hx. cbn. destruct r as [|[y|]]; cbn; by rewrite Hal'.
Qed.

(** *** Writes under way *)

(** An input inside [push_batch] is at the batch it writes. *)
Definition writing_ok (s : exec_state) : Prop := ∀ i, i ∈ writing s → is_Some (to_reserve i s).

Lemma writing_same s s' : tasks s' = tasks s → writing s' = writing s → writing_ok s → writing_ok s'.
Proof. intros Ht Hw Hok i Hi. rewrite Hw in Hi. unfold to_reserve. rewrite Ht. by apply Hok. Qed.

Lemma writing_task s s' i t' :
  tasks s' = <[i := t']> (tasks s) → (∀ j, j ∈ writing s' → j ∈ writing s ∧ j ≠ i) → writing_ok s → writing_ok s'.
Proof.
  intros Ht Hw Hok j [Hj Hne]%Hw. unfold to_reserve. rewrite Ht, list_lookup_insert_ne by done. by apply Hok.
Qed.

(** Only at such a batch is an input inside [push_batch]. *)
Lemma not_writing s i : writing_ok s → to_reserve i s = None → ∀ j, j ∈ writing s → j ∈ writing s ∧ j ≠ i.
Proof. intros Hok Hn j Hj. split; [done|]. intros ->. destruct (Hok i Hj) as [p Hp]. congruence. Qed.

Lemma reserve_writing s i o s' : writing_ok s → reserve i o s = Some s' → writing_ok s'.
Proof.
  intros Hok. unfold reserve. intros (t & Hi & Hs')%bind_Some.
  destruct (task t) eqn:Ht, (pending t) as [|[p b] rest] eqn:Hp, (in_flight t) eqn:Hf; try done.
  case_bool_decide as Hin.
  - destruct o as [| |e]; case_bool_decide as Hw; try done.
    + apply bind_Some in Hs' as (n & _ & [= <-]). eapply (writing_task s); [done| |done].
      intros j Hj. split; [done|]. by intros ->.
    + apply bind_Some in Hs' as (x & _ & [= <-]). eapply (writing_task s); [done| |done].
      intros j [? ?]%list_elem_of_filter. done.
    + injection Hs' as <-. eapply (writing_task s); [done| |done]. intros j [? ?]%list_elem_of_filter. done.
  - injection Hs' as <-. eapply (writing_task s); [done| |done]. refine (not_writing s i Hok _).
    unfold to_reserve. rewrite Hi. cbn. by rewrite Ht, Hp, Hf, bool_decide_false.
Qed.

Lemma send_writing s i s' : writing_ok s → send i s = Some s' → writing_ok s'.
Proof.
  intros Hok. unfold send. intros (t & Hi & Hs')%bind_Some. destruct (in_flight t) as [[p m]|] eqn:Hf; [|done].
  assert (∀ j, j ∈ writing s → j ∈ writing s ∧ j ≠ i) as Hnw.
  { apply not_writing; [done|]. unfold to_reserve. rewrite Hi. cbn. rewrite Hf. by destruct (task t), (pending t) as [|[]]. }
  apply bind_Some in Hs' as (x & _ & Hs'). destruct (alive x); [injection Hs' as <-; by eapply (writing_task s)|].
  destruct m as [b|]; [|injection Hs' as <-; by eapply (writing_task s)].
  apply bind_Some in Hs' as (n & _ & Hs'). apply bind_Some in Hs' as (n' & _ & [= <-]). by eapply (writing_task s).
Qed.

Lemma exec_writing e s s' : writing_ok s → exec e s = Some s' → writing_ok s'.
Proof.
  intros Hok. destruct e as [i|i|i o|i|i p|c read_ok|c]; cbn [exec].
  - intros (t & Hi & Hs')%bind_Some. apply bind_Some in Hs' as (t' & Ht & [= <-]). eapply (writing_task s); [done| |done].
    refine (not_writing s i Hok _). unfold to_reserve. rewrite Hi. cbn. unfold pull in Ht. by destruct (task t), (pending t), (in_flight t).
  - unfold start_spill. intros (p & Hp & Hs')%bind_Some. case_bool_decide; [done|]. injection Hs' as <-.
    intros j [->|Hj]%elem_of_cons; [by exists p|by apply Hok].
  - by apply reserve_writing.
  - by apply send_writing.
  - unfold notify. intros (t & Hi & Hs')%bind_Some. destruct (task t) eqn:Ht; [done|]. case_bool_decide; [|done].
    apply bind_Some in Hs' as (x & _ & [= <-]). eapply (writing_task s); [by destruct (alive x)| |done].
    assert (∀ j, j ∈ writing s → j ∈ writing s ∧ j ≠ i); [|by destruct (alive x)].
    apply not_writing; [done|]. unfold to_reserve. rewrite Hi. cbn. by rewrite Ht.
  - unfold poll_stream. intros (x & _ & Hs')%bind_Some. apply bind_Some in Hs' as (n & _ & Hs').
    destruct (alive x && negb (ended x)); [|done]. apply bind_Some in Hs' as ([[r x'] n'] & _ & [= <-]). by eapply writing_same.
  - intros (x & _ & [= <-])%bind_Some. by eapply writing_same.
Qed.

Lemma start_writing : writing_ok (consume_input_streams inputs).
Proof. intros i Hi. by apply elem_of_nil in Hi. Qed.

Lemma steps_writing s s' : writing_ok s → rtc step s s' → writing_ok s'.
Proof. intros Hok. induction 1 as [|s s1 s2 (e & _ & He) _ IH]; [done|]. apply IH. by eapply exec_writing. Qed.

Lemma unlocked s p : writing s = [] → locked s p = false.
Proof. unfold locked. by intros ->. Qed.

(** The step [s → s'] brings the state closer to the end. *)
Definition advances (s s' : exec_state) : Prop :=
  gated_step s s' ∧ work s' < work s ∧ alive <$> streams s' = alive <$> streams s.

Lemma existsb_imap {A} (f : nat → A → bool) l i a : l !! i = Some a → f i a = true → existsb id (imap f l) = true.
Proof.
  intros Hi Hf. apply existsb_exists. exists true. split; [|done]. apply list_elem_of_In, list_elem_of_lookup. exists i.
  by rewrite list_lookup_imap, Hi, <- Hf.
Qed.

(** A task that has to send to output [p] may do so, or the stream has messages to
    read. *)
Lemma send_or_poll s i t p :
  ok s → 0 < n_out → writing s = [] → tasks s !! i = Some t → p < n_out → sender_gone t p = false →
  may_send s (key i p) = true ∨ ∃ s', advances s s'.
Proof.
  intros Hok Hn Hw Hi Hp Hg. destruct (stream_exists s i t p Hok Hi Hp) as [x Hx]. unfold may_send. rewrite Hx.
  destruct (alive x) eqn:Hal; [|by left]. cbn [negb orb]. destruct (decide (queue x = [])) as [Hq|Hq].
  - left. apply (existsb_imap _ _ _ _ Hx). rewrite !bool_decide_true, Hal by done. cbn [andb].
    destruct (channel_closed s (key i p)) eqn:Hcl; [|done]. exfalso. apply (not_all_gone (tasks s) i t p Hi Hp Hg).
    intros j u. by apply channel_closed_gone.
  - right. pose proof (ok_streams _ Hok _ _ Hx Hal) as Hc.
    destruct (ended x) eqn:Hend; [exfalso; apply (not_all_gone (tasks s) i t p Hi Hp Hg), Hc|].
    destruct (poll_progress s _ x Hok Hn Hx Hal Hend (or_intror Hq)) as (s' & ? & ?). exists s'. split; [|done].
    exists (PollStream (key i p) true). cbn [possible permitted]. by rewrite unlocked.
Qed.

Lemma task_progress s i t :
  ok s → 0 < n_out → writing s = [] → tasks s !! i = Some t → 0 < task_work t → ∃ s', advances s s'.
Proof.
  intros Hok Hn Hw Hi Ht. pose proof (ok_tasks _ Hok _ _ Hi) as Htk. destruct (task t) as [|r [|p txs]] eqn:Htask.
  - destruct (in_flight t) as [[p m]|] eqn:Hf.
    { destruct (tk_flight _ Htk p m Hf) as [Hp _].
      destruct (send_or_poll s i t p Hok Hn Hw Hi Hp (pulling_sends t p Htask)) as [Hm|?]; [|done].
      destruct (send_progress s i t p m Hok Hi Hf) as (s' & ? & ?). exists s'. split; [|done]. exists (Send i). split; [done|]. split; [|done].
      cbn [permitted]. rewrite Hi. cbn [mbind option_bind]. by rewrite Hf, Hm, unlocked. }
    destruct (pending t) as [|[p b] rest] eqn:Hp.
    + destruct (pull t) as [t'|] eqn:Hpull; [|unfold pull in Hpull; by rewrite Htask, Hp, Hf in Hpull].
      exists (set_task i t' s). split_and!; [|by eapply work_task, pull_work|done]. exists (Pull i). cbn. rewrite Hi. cbn. by rewrite Hpull.
    + destruct (reserve_progress s i t p b rest Hok Hi Htask Hp Hf) as (o & s' & ? & ? & ?).
      exists s'. split_and!; [|done..]. exists (Reserve i o). split; [|done]. destruct o; [|done..]. cbn [possible].
      destruct (to_reserve i s); [by rewrite unlocked|done].
  - unfold task_work in Ht. rewrite Htask in Ht. cbn in Ht. lia.
  - assert (Hin : p ∈ p :: txs) by by left. destruct (tk_waiting _ Htk _ _ Htask) as (_ & _ & Htxs).
    destruct (send_or_poll s i t p Hok Hn Hw Hi (Htxs p Hin) (waiting_sends t p _ _ Htask Hin)) as [Hm|?]; [|done].
    destruct (notify_progress s i t p r (p :: txs) Hok Hi Htask Hin) as (s' & ? & ?). exists s'. split; [by exists (Notify i p)|done].
Qed.

(** An input inside [push_batch] can finish it. *)
Lemma write_progress s i : ok s → writing_ok s → i ∈ writing s → ∃ s', advances s s'.
Proof.
  intros Hok Hw Hi. destruct (Hw i Hi) as [p Hp]. unfold to_reserve in Hp. apply bind_Some in Hp as (t & Ht & Hp).
  destruct (task t) eqn:Htask, (pending t) as [|[q b] rest] eqn:Hpd, (in_flight t) eqn:Hf; try done.
  destruct (reserve_progress s i t q b rest Hok Ht Htask Hpd Hf) as (o & s' & Hr & Hlt & Hal).
  exists s'. split_and!; [|done..]. exists (Reserve i o). split; [|done].
  destruct o; [|done..]. unfold reserve in Hr. rewrite Ht in Hr. cbn [mbind option_bind] in Hr. rewrite Htask, Hpd, Hf in Hr.
  case_bool_decide; [|done]. by rewrite bool_decide_true in Hr.
Qed.

Lemma progress s :
  ok s → writing_ok s → 0 < n_out → (∀ c x, streams s !! c = Some x → alive x = true → ended x = true) ∨ ∃ s', advances s s'.
Proof.
  intros Hok Hwr Hn. destruct (writing s) as [|j w] eqn:Hw; [|right; apply (write_progress s j); [done..|rewrite Hw; by left]].
  destruct (decide (Exists (λ t, 0 < task_work t) (tasks s))) as [(t & [i Hi]%list_elem_of_lookup & Ht)%Exists_exists|Hdone].
  { right. by eapply task_progress. }
  destruct (decide (Exists (λ x, alive x = true ∧ ended x = false) (streams s))) as [(x & [c Hx]%list_elem_of_lookup & Hal & Hend)%Exists_exists|Hs].
  - right. destruct (poll_progress s c x Hok Hn Hx Hal Hend) as (s' & ? & ?).
    + left. apply imap_forallb. intros i t Hi. unfold sender_gone. destruct (task t) as [|r [|p txs]] eqn:Ht.
      2: rewrite bool_decide_true by apply not_elem_of_nil; apply orb_true_r.
      all: destruct Hdone; apply Exists_exists; exists t; split; [by eapply list_elem_of_lookup_2|].
      all: unfold task_work; rewrite Ht; cbn [length]; lia.
    + exists s'. split; [|done]. exists (PollStream c true). cbn [possible permitted]. by rewrite unlocked.
  - left. intros c x Hx Hal. destruct (ended x) eqn:Hend; [done|]. destruct Hs. apply Exists_exists. exists x.
    split; [by eapply list_elem_of_lookup_2|done].
Qed.

Lemma completes s :
  ok s → writing_ok s → 0 < n_out →
  ∃ s', rtc gated_step s s' ∧ alive <$> streams s' = alive <$> streams s ∧ ∀ c x, streams s' !! c = Some x → alive x = true → ended x = true.
Proof.
  intros Hok Hw Hn. remember (work s) as k eqn:Hk. revert s Hok Hw Hk. induction (lt_wf k) as [k _ IH]. intros s Hok Hw ->.
  destruct (progress s Hok Hw Hn) as [Hend|(s1 & Hstep & Hlt & Hal)]; [by exists s|]. pose proof Hstep as (e & _ & _ & He).
  destruct (IH _ Hlt s1) as (s2 & Hs2 & Hal2 & Hend); [by eapply exec_ok|by eapply exec_writing|done|].
  exists s2. split_and!; [by eapply rtc_l|by rewrite Hal2|done].
Qed.

End Invariant.
End Exec.

(** ** Hash partitions *)

Lemma concat_partition `{Foldhash} exprs n batch p a k :
  concat (for_output p (filter (λ x, x.2 ≠ []) ((λ q, (q, rows_of exprs n q batch)) <$> seq a k))) =
  if decide (a ≤ p < a + k) then rows_of exprs n p batch else [].
Proof.
  revert a. induction k as [|k IH]; intros a; [by rewrite decide_False by lia|]. cbn [seq fmap list_fmap]. rewrite filter_cons. cbn [snd].
  transitivity ((if decide (a = p) then rows_of exprs n a batch else []) ++
    concat (for_output p (filter (λ x, x.2 ≠ []) ((λ q, (q, rows_of exprs n q batch)) <$> seq (S a) k)))).
  - case_decide as Hne; [|rewrite Hne; by case_decide].
    rewrite for_output_cons. by destruct (decide (a = p)).
  - rewrite IH. repeat case_decide; subst; try lia; by rewrite ?app_nil_r.
Qed.

Lemma outputs_hash `{Foldhash} exprs n input p :
  p < n → Forall (λ b, N.of_nat (length b) <= u32_end)%N (oks input) → (outputs (Hash exprs n) input).2 = None →
  concat (for_output p (outputs (Hash exprs n) input).1) = rows_of exprs n p (concat (oks input)).
Proof.
  intros Hp. induction input as [|[[|r b]|e] input IH]; [done|..|done].
  - change (oks (Ok [] :: input)) with ([] :: oks input). intros [_ Hf]%Forall_cons. by apply IH.
  - change (oks (Ok (r :: b) :: input)) with ((r :: b) :: oks input). intros [Hb Hf]%Forall_cons. cbn [outputs]. rewrite partition_iter_hash by (done || lia). cbn [snd fst]. intros Hr.
    rewrite for_output_app, concat_app, IH by done. unfold partition_rows. rewrite concat_partition, decide_True by lia.
    cbn [concat]. unfold rows_of. by rewrite <- filter_app.
Qed.

Lemma expected_hash `{Foldhash} exprs n n_in inputs c :
  c < n → (∀ input, input ∈ inputs → Forall (λ b, N.of_nat (length b) <= u32_end)%N (oks input)) →
  (∀ i input, inputs !! i = Some input → input_error (HashPartitioning exprs n) false n_in i input = None) →
  concat (expected (HashPartitioning exprs n) false n_in inputs c) = rows_of exprs n c (concat (inputs ≫= oks)).
Proof.
  intros Hc Hb He. unfold expected, feeds, key, over, n_out. rewrite (Nat.mod_small c n) by done. rewrite bool_decide_true by done.
  unfold input_batches, input_error in *. cbn [try_new] in *. unfold new_hash_partitioner in *.
  induction inputs as [|input inputs IH]; [done|]. cbn [imap foldr mbind list_bind]. rewrite !concat_app.
  rewrite (outputs_hash exprs n input) by (done || (apply Hb, list_elem_of_here) || apply (He 0 input eq_refl)).
  unfold rows_of. rewrite filter_app. f_equal. apply IH.
  - intros input' Hin. apply Hb. by right.
  - intros i input' Hi. by apply (He (S i)).
Qed.

Lemma reachable_ok `{Foldhash} get_array_memory_size partitioning preserve_order inputs s :
  0 < n_out partitioning → 0 < length inputs →
  rtc (step get_array_memory_size partitioning preserve_order)
    (consume_input_streams partitioning preserve_order (length inputs) inputs) s →
  ok get_array_memory_size partitioning preserve_order (length inputs) inputs s.
Proof. intros Hn Hi Hs. eapply steps_ok; [done..| |exact Hs]. by apply start_ok. Qed.

(** The rows a hash partition has yielded at its end. *)
Lemma hash_stream_rows `{Foldhash} get_array_memory_size exprs n inputs s c x :
  ok get_array_memory_size (HashPartitioning exprs n) false (length inputs) inputs s →
  (∀ input, input ∈ inputs → Forall (λ b, N.of_nat (length b) <= u32_end)%N (oks input)) →
  streams s !! c = Some x → alive x = true → ended x = true → (∀ e, Err e ∉ yielded x) →
  concat (oks (yielded x)) ≡ₚ rows_of exprs n c (concat (inputs ≫= oks)).
Proof.
  intros Hok Hb Hx Hal Hend Hno. pose proof (ok_streams _ _ _ _ _ _ Hok c x Hx Hal) as Hc. rewrite Hend in Hc.
  destruct (proj1 Hc Hno) as (He & Hd & _). assert (c < n) as Hcn.
  { apply lookup_lt_Some in Hx. rewrite (ok_streams_length _ _ _ _ _ _ Hok) in Hx. unfold n_out in Hx. lia. }
  rewrite Hd, (expected_hash exprs n) by (done || (intros i input Hin; apply (He i input Hin); unfold feeds, key, n_out;
    rewrite Nat.mod_small by done; by rewrite bool_decide_true)). done.
Qed.


(** ** Examples *)

Lemma run_steps `{Foldhash} get_array_memory_size partitioning preserve_order es s s' :
  run get_array_memory_size partitioning preserve_order es s = Some s' →
  rtc (step get_array_memory_size partitioning preserve_order) s s'.
Proof.
  revert s. induction es as [|e es IH]; intros s; cbn; [by intros [= <-]|]. intros (s1 & He & Hs')%bind_Some.
  destruct (possible _ _ s e) eqn:Ha; [|done]. eapply rtc_l; [by exists e|by apply IH].
Qed.

Section Examples.
#[local] Existing Instance HashUtils.sample_hash.

Definition by_key : Partitioning := HashPartitioning [Column "k" 0] 2.

Definition sample_inputs : list (list (Result (list row))) :=
  [[Ok (JoinRun.key_rows [1; 2; 3]%Z); Ok []]; [Ok (JoinRun.key_rows [3; 4]%Z)]].


End Examples.

End RepartitionExec.
