(* ===== verification/RepartitionStream.v ===== *)
(** * The coalescing output stream of a repartition (physical-plan/src/repartition/mod.rs)

    Unless order is preserved, [PerPartitionStream] passes the batches of
    [poll_next_inner] through a [LimitedBatchCoalescer] without a limit.  Proved:
    over an inner stream that ends, the coalescing stream ends too, repeats its
    errors, and yields its rows in their order. *)

From stdpp Require Import base list strings.
From Stdlib Require Import Lia.
From S2P Require Import Prelude Relation Coalesce RepartitionExec.

Module RepartitionStream.
Import RepartitionExec.

Section Stream.
Context `{BatchCoalescer row}.

(** [poll_next_and_coalesce]: [polls] are the results of [poll_next_inner] to come,
    after which it returns [None]. *)
Fixpoint poll_next_and_coalesce (c : Coalesce.LimitedBatchCoalescer (A:=row)) (polls : list poll) :
    poll * Coalesce.LimitedBatchCoalescer (A:=row) * list poll :=
  match Coalesce.next_completed_batch c with
  | (Some batch, c) => (Ready (Some (Ok batch)), c, polls)
  | (None, c) =>
      match polls with
      | Pending :: polls => (Pending, c, polls)
      | Ready (Some (Ok batch)) :: polls =>
          match Coalesce.push_batch c batch with
          | Err e => (Ready (Some (Err e)), c, polls)
          | Ok (_, c) => poll_next_and_coalesce c polls
          end
      | Ready (Some (Err e)) :: polls => (Ready (Some (Err e)), c, polls)
      | Ready None :: _ | [] =>
          match Coalesce.next_completed_batch (Coalesce.finish c) with
          | (Some batch, c) => (Ready (Some (Ok batch)), c, [])
          | (None, c) => (Ready None, c, [])
          end
      end
  end.

(** [k] polls of the stream: what it yields, and whether it has ended. *)
Fixpoint collect (k : nat) (c : Coalesce.LimitedBatchCoalescer (A:=row)) (polls : list poll) :
    list (Result (list row)) * bool :=
  match k with
  | 0 => ([], false)
  | S k =>
      match poll_next_and_coalesce c polls with
      | (Pending, c, polls) => collect k c polls
      | (Ready None, _, _) => ([], true)
      | (Ready (Some y), c, polls) => let r := collect k c polls in (y :: r.1, r.2)
      end
  end.

(** The batches and the errors of the inner stream. *)
Definition ready (polls : list poll) : list (Result (list row)) :=
  omap (λ p, match p with Ready (Some y) => Some y | _ => None end) polls.

Definition errors (ys : list (Result (list row))) : list DataFusionError :=
  omap (λ y, match y with Err e => Some e | Ok _ => None end) ys.

(** Documented: nothing is completed when nothing is buffered. *)
Context `{!BatchCoalescerOk row} (finish_empty : ∀ i : inner, buffered i = [] → completed (inner_finish_buffered_batch i) = completed i).

Abbreviation coalescer := (Coalesce.LimitedBatchCoalescer (A:=row)).
Abbreviation batches c := (completed (Coalesce.co_inner c)).

Lemma collect_finished (c : coalescer) pushed out :
  Coalesce.holds None c pushed out → Coalesce.finished c = true →
  ∃ k ys, collect k c [] = (ys, true) ∧ errors ys = [] ∧ out ++ concat (oks ys) = pushed.
Proof.
  remember (length (batches c)) as n eqn:Hn. revert c out Hn. induction n as [|n IH]; intros c out Hn Hc Hf.
  - exists 1, []. cbn [collect poll_next_and_coalesce]. pose proof (Coalesce.next_holds _ _ _ _ Hc) as Hnext.
    destruct (Coalesce.next_completed_batch c) as [[b|] c'] eqn:E; [destruct Hnext as (_ & _ & ? & _); lia|].
    destruct Hnext as [-> Hnil]. pose proof (Coalesce.finish_holds _ _ _ _ Hc) as Hc'.
    pose proof (Coalesce.next_holds _ _ _ _ Hc') as Hnext'.
    assert (Hfe : batches (Coalesce.finish c) = []) by (cbn; rewrite finish_empty; [done|by apply Hc]).
    destruct (Coalesce.next_completed_batch (Coalesce.finish c)) as [[b|] c''].
    { destruct Hnext' as (_ & _ & Hl & _). rewrite Hfe in Hl. done. }
    split_and!; [done..|]. rewrite app_nil_r. apply (Coalesce.drained _ _ _ _ Hc); [done|by left].
  - pose proof (Coalesce.next_holds _ _ _ _ Hc) as Hnext.
    destruct (Coalesce.next_completed_batch c) as [[b|] c'] eqn:E; [|destruct Hnext as [_ Hnil]; rewrite Hnil in Hn; done].
    destruct Hnext as (Hc' & Hf' & Hl & _). destruct (IH c' (out ++ b)) as (k & ys & Hk & He & Hr); [lia|done|congruence|].
    exists (S k), (Ok b :: ys). cbn [collect poll_next_and_coalesce]. rewrite E, Hk. split_and!; [done..|].
    rewrite <- Hr. cbn. by rewrite <- app_assoc.
Qed.

Lemma collect_ends polls (c : coalescer) pushed out :
  Coalesce.holds None c pushed out → Coalesce.finished c = false → Ready None ∉ polls →
  ∃ k ys, collect k c polls = (ys, true) ∧ errors ys = errors (ready polls) ∧
    out ++ concat (oks ys) = pushed ++ concat (oks (ready polls)).
Proof.
  revert c pushed out. induction polls as [|p polls IHp]; intros c pushed out.
  all: remember (length (batches c)) as n eqn:Hn; revert c out Hn; induction n as [|n IH]; intros c out Hn Hc Hf Hp.
  all: pose proof (Coalesce.next_holds _ _ _ _ Hc) as Hnext.
  all: destruct (Coalesce.next_completed_batch c) as [[b|] c'] eqn:E; [destruct Hnext as (Hc' & Hf' & Hl & _)|destruct Hnext as [-> Hnil]];
    try (exfalso; (lia || (rewrite Hnil in Hn; done))).
  - pose proof (Coalesce.finish_holds _ _ _ _ Hc) as Hc'. pose proof (Coalesce.next_holds _ _ _ _ Hc') as Hnext'.
    destruct (Coalesce.next_completed_batch (Coalesce.finish c)) as [[b|] c''] eqn:E'.
    + destruct Hnext' as (Hc'' & Hf'' & _ & _). destruct (collect_finished c'' pushed (out ++ b) Hc'') as (k & ys & Hk & He & Hr); [done|].
      exists (S k), (Ok b :: ys). cbn [collect poll_next_and_coalesce]. rewrite E, E', Hk. split_and!; [done..|].
      rewrite <- Hr. cbn. by rewrite app_nil_r, <- app_assoc.
    + destruct Hnext' as [_ Hnil']. exists 1, []. cbn [collect poll_next_and_coalesce]. rewrite E, E'. split_and!; [done..|].
      cbn. rewrite !app_nil_r. apply (Coalesce.drained _ _ _ _ Hc'); [done|by left].
  - destruct (IH c' (out ++ b)) as (k & ys & Hk & He & Hr); [lia|done|congruence|done|].
    exists (S k), (Ok b :: ys). cbn [collect poll_next_and_coalesce]. rewrite E, Hk. split_and!; [done..|]. rewrite <- Hr. cbn. by rewrite <- app_assoc.
  - apply not_elem_of_cons in Hp as [Hne Hp]. destruct p as [|[[b|e]|]]; [| | |done].
    + destruct (IHp c pushed out Hc Hf Hp) as (k & ys & Hk & Hr). exists (S k), ys. cbn [collect poll_next_and_coalesce]. by rewrite E, Hk.
    + destruct (Coalesce.push_batch_holds _ _ _ _ b Hc Hf) as (st & c2 & Hb & Hc2 & Hf2 & _).
      destruct (IHp c2 (pushed ++ b) out Hc2 Hf2 Hp) as ([|k] & ys & Hk & He & Hr); [done|]. exists (S k), ys. split_and!; [|done|].
      * rewrite <- Hk. cbn [collect].
        assert (poll_next_and_coalesce c (Ready (Some (Ok b)) :: polls) = poll_next_and_coalesce c2 polls) as ->; [|done].
        cbn [poll_next_and_coalesce]. by rewrite E, Hb.
      * rewrite Hr. cbn. by rewrite <- app_assoc.
    + destruct (IHp c pushed out Hc Hf Hp) as (k & ys & Hk & He & Hr). exists (S k), (Err e :: ys). cbn [collect poll_next_and_coalesce].
      rewrite E, Hk. split_and!; [done| |done]. change (e :: errors ys = e :: errors (ready polls)). by rewrite He.
  - destruct (IH c' (out ++ b)) as (k & ys & Hk & He & Hr); [lia|done|congruence|done|].
    exists (S k), (Ok b :: ys). cbn [collect poll_next_and_coalesce]. rewrite E, Hk. split_and!; [done..|]. rewrite <- Hr. cbn. by rewrite <- app_assoc.
Qed.

(** Over an inner stream that ends after [polls], the coalescing stream ends, with
    the same errors and the same rows in the same order. *)
Theorem coalesced_rows batch_size polls :
  Ready None ∉ polls →
  ∃ k ys, collect k (Coalesce.new batch_size None) polls = (ys, true) ∧ errors ys = errors (ready polls) ∧
    concat (oks ys) = concat (oks (ready polls)).
Proof. intros Hp. by apply (collect_ends polls _ [] [] (Coalesce.new_holds batch_size None)). Qed.

End Stream.

End RepartitionStream.
