(* ===== verification/RepartitionJoin.v ===== *)
(** * Repartitioning and join together

    A hash join in partitioned mode over two [RepartitionExec]s that partition its
    inputs by the join keys.  Proved: once the streams of both have ended without an
    error, the joins of corresponding streams together give the join of the whole
    inputs. *)

From stdpp Require Import base list strings gmap sorting relations.
From Stdlib Require Import ZArith Lia.
From S2P Require Import Prelude Relation HashUtils JoinTypes JoinHashMap JoinIndices Coalesce PhysicalPlan HashJoinStream HashJoinRows HashJoinCorrect HashJoinRun Repartition RepartitionExec.

Module RepartitionJoin.
Import Coalesce HashJoinStream JoinBuild Repartition RepartitionExec.

(** All rows of the inputs. *)
Definition all_rows (inputs : list (list (Result (list row)))) : list row := concat (inputs ≫= oks).

(** The repartition has reached [s] and its streams have ended without an error. *)
Record repartitioned `{Foldhash} (get_array_memory_size : list row → N) (exprs : list PhysicalExpr) (n : nat)
    (inputs : list (list (Result (list row)))) (s : exec_state) : Prop := {
  rd_inputs : 0 < length inputs;
  rd_batches input : input ∈ inputs → Forall (λ b, N.of_nat (length b) <= u32_end)%N (oks input);
  rd_reached : rtc (step get_array_memory_size (HashPartitioning exprs n) false)
    (consume_input_streams (HashPartitioning exprs n) false (length inputs) inputs) s;
  rd_ended c x : streams s !! c = Some x → alive x = true ∧ ended x = true ∧ ∀ e, Err e ∉ yielded x;
}.

(** [parts] are batches with the rows the streams have yielded, as they leave the
    coalescer. *)
Definition coalesced (s : exec_state) (parts : list (list (list row))) : Prop :=
  Forall2 (λ x bs, concat bs = concat (oks (yielded x))) (streams s) parts.

Lemma repartitioned_rows `{Foldhash} get_array_memory_size exprs n inputs s parts :
  0 < n → repartitioned get_array_memory_size exprs n inputs s → coalesced s parts →
  length parts = n ∧ ∀ p bs, parts !! p = Some bs → concat bs ≡ₚ rows_of exprs n p (all_rows inputs).
Proof.
  intros Hn [Hi Hb Hs Hend] Hparts. pose proof (reachable_ok _ (HashPartitioning exprs n) _ _ _ Hn Hi Hs) as Hok. split.
  - rewrite <- (Forall2_length _ _ _ Hparts), (ok_streams_length _ _ _ _ _ _ Hok). cbn. lia.
  - intros p bs Hp. destruct (Forall2_lookup_r _ _ _ _ _ Hparts Hp) as (x & Hx & ->).
    destruct (Hend p x Hx) as (? & ? & ?). by eapply hash_stream_rows.
Qed.

(** C6. A partitioned hash join over two repartitions by its keys: when the streams
    of both have ended without an error, in whatever interleaving and with whatever
    spilled, every partition's join of the rows of its two streams ends without an
    error or a panic, and over all partitions they compute the reference join of
    the whole inputs, for every join type but null-aware anti joins (which are not
    run partitioned), both null equalities and any two hash functions. *)
Theorem repartitioned_join_correct (HR HJ : Foldhash) `{Hc : BatchCoalescer row} `{!BatchCoalescerOk row}
    j l r opts ordered cfg n get_array_memory_size linputs rinputs sl sr (lps rps : list (list (list row))) :
  JoinRun.join_ok j → PhysicalPlan.null_aware j = false → 0 < n → 0 < opt_batch_size opts →
  execute_config j l r opts ordered = Some cfg →
  (N.of_nat (length (all_rows linputs)) <= u64_max)%N → keys_typed cfg (on j) (all_rows linputs) (all_rows rinputs) →
  repartitioned (H:=HR) get_array_memory_size (on j).*1 n linputs sl → coalesced sl lps →
  repartitioned (H:=HR) get_array_memory_size (on j).*2 n rinputs sr → coalesced sr rps →
  ∃ outs, length outs = n ∧ concat outs ≡ₚ Plan.join_output j (all_rows linputs) (all_rows rinputs) ∧
    ∀ p lbs rbs os, lps !! p = Some lbs → rps !! p = Some rbs → outs !! p = Some os →
      ∃ fuel s sh, ∀ fuel', fuel ≤ fuel' →
        execute (H:=HJ) fuel' cfg (Ok <$> lbs) (Ok <$> rbs) =
        Some (take_fetch (join_fetch j) (JoinSchema.output_row (column_indices cfg) <$> os), None, s, sh).
Proof.
  intros Hj Hna Hn Hb E Hmax Ht Hl Hlp Hr Hrp.
  destruct (repartitioned_rows (H:=HR) _ _ _ _ _ _ Hn Hl Hlp) as [Hll Hlr].
  destruct (repartitioned_rows (H:=HR) _ _ _ _ _ _ Hn Hr Hrp) as [Hrl Hrr].
  by apply (partitioned_join HR HJ j l r opts ordered cfg n).
Qed.

(** ** Example *)

Section Example.
#[local] Existing Instance HashUtils.sample_hash.
#[local] Existing Instance queue_coalescer.
#[local] Existing Instance queue_coalescer_ok.

Abbreviation size := (λ b : list row, N.of_nat (length b)).

(** One input, whose second batch is spilled. *)
Definition schedule : list event :=
  [Pull 0; Reserve 0 Granted; Send 0; StartSpill 0; Reserve 0 SpillOk; Send 0; Pull 0; Notify 0 0; Notify 0 1;
   PollStream 0 true; PollStream 1 true; PollStream 0 true; PollStream 1 true].

Definition start (ks : list Z) : exec_state := consume_input_streams by_key false 1 [[Ok (JoinRun.key_rows ks)]].

Definition final (ks : list Z) : exec_state := default (start ks) (run size by_key false schedule (start ks)).

Definition clean (x : PerPartitionStream) : bool :=
  alive x && ended x && forallb (λ y, match y with Ok _ => true | Err _ => false end) (yielded x).

Lemma final_repartitioned ks :
  (N.of_nat (length ks) <= u32_end)%N → run size by_key false schedule (start ks) = Some (final ks) →
  forallb clean (streams (final ks)) = true →
  repartitioned size [Column "k" 0] 2 [[Ok (JoinRun.key_rows ks)]] (final ks).
Proof.
  intros Hks Hs Hc. constructor; [cbn; lia| |by apply (run_steps _ _ _ schedule)|].
  - intros input ->%list_elem_of_singleton. constructor; [|constructor]. unfold JoinRun.key_rows. by rewrite length_fmap.
  - intros c x Hx. rewrite forallb_forall in Hc. specialize (Hc x (proj1 (list_elem_of_In _ _) (list_elem_of_lookup_2 _ _ _ Hx))).
    unfold clean in Hc. apply andb_true_iff in Hc as [[? ?]%andb_true_iff Hy]. split_and!; [done..|].
    intros e He. rewrite forallb_forall in Hy. by specialize (Hy _ (proj1 (list_elem_of_In _ _) He)).
Qed.

Definition parts (s : exec_state) : list (list (list row)) := (λ x, oks (yielded x)) <$> streams s.

Lemma parts_coalesced s : coalesced s (parts s).
Proof. apply Forall2_fmap_r, Forall_Forall2_diag, Forall_true. done. Qed.

Lemma repartitioned_join_correct_witness :
  ∃ outs, length outs = 2 ∧
    concat outs ≡ₚ Plan.join_output (JoinRun.key_join Full false)
      (JoinRun.key_rows [1; 2; 2; 3]%Z) (JoinRun.key_rows [2; 4; 1]%Z).
Proof.
  destruct (repartitioned_join_correct HashUtils.sample_hash HashUtils.sample_hash (JoinRun.key_join Full false)
    JoinRun.key_schema JoinRun.key_schema JoinRun.key_options false (JoinRun.key_config Full false) 2 size
    [[Ok (JoinRun.key_rows [1; 2; 2; 3]%Z)]] [[Ok (JoinRun.key_rows [2; 4; 1]%Z)]]
    (final [1; 2; 2; 3]%Z) (final [2; 4; 1]%Z) (parts (final [1; 2; 2; 3]%Z)) (parts (final [2; 4; 1]%Z)))
    as (outs & Hlen & Ho & _); [by apply JoinRun.key_join_ok|reflexivity|lia|cbn; lia|reflexivity|by vm_compute| | | | | |].
  - apply JoinRun.key_config_typed. repeat (constructor; [by apply JoinRun.small_key_fits|]). constructor.
  - apply final_repartitioned; vm_compute; (reflexivity || discriminate).
  - apply parts_coalesced.
  - apply final_repartitioned; vm_compute; (reflexivity || discriminate).
  - apply parts_coalesced.
  - exists outs. exact (conj Hlen Ho).
Defined.

End Example.

End RepartitionJoin.
