(* ===== verification/BloomRule.v ===== *)
(** * The filter rule (physical-optimizer/src/bloom_filter_transfer.rs)

    [MultiHopBloomFilterRule]: the join edges of a plan, the rewrite that puts a
    Bloom-filter pair around every resolvable inner-join key, the candidates and
    selection of the ML policy, and [optimize] with its environment variables.
    Proved: the rewritten plan has the schema and the rows of the original when
    keys resolve to their own columns and nulls do not match; the filters
    inserted are exactly the accepted candidates, each on a channel of its own;
    the ML policy inserts within the budget when key pairs are distinct; and,
    by examples, what goes wrong otherwise. *)

From stdpp Require Import base list strings gmap pretty.
From Stdlib Require Import ZArith Lia Ascii.
From S2P Require Import Prelude F64 Text Relation JoinTypes Stats GbtModel Knapsack BloomExec.
From S2P Require Import Metrics Transfer PhysicalPlan.

(** ** The rule's monad

    Errors, panics and the supply of broadcast channels. *)

Definition M (A : Type) : Type := nat → option (Result (A * nat)).

#[global] Instance M_ret : MRet M := λ A a n, Some (Ok (a, n)).
#[global] Instance M_bind : MBind M := λ A B f m n,
  match m n with
  | None => None
  | Some (Err e) => Some (Err e)
  | Some (Ok (a, n')) => f a n'
  end.

(** [broadcast::channel(1)] *)
Definition channel : M nat := λ n, Some (Ok (n, S n)).

Definition fallible {A} (r : option (Result A)) : M A := λ n,
  match r with
  | None => None
  | Some (Err e) => Some (Err e)
  | Some (Ok a) => Some (Ok (a, n))
  end.

Definition returns {A} (o : option A) : M A := fallible (Ok <$> o).

Module Rule.
Import BloomExec Plan JoinSchema Knapsack.
Section Rule.
Context `{Nodes}.

(** ** Join edges *)

Record JoinEdge := { left_col : string; right_col : string }.

Fixpoint collect_recursive (p : plan) : list JoinEdge :=
  match p with
  | HashJoinExec j l r =>
      (if bool_decide (join_type j = Inner)
       then map (λ e, {| left_col := Expr.display e.1; right_col := Expr.display e.2 |}) (on j)
       else [])
      ++ collect_recursive l ++ collect_recursive r
  | BloomFilterBuildExec input _ _ | BloomFilterProbeExec input _ _ => collect_recursive input
  | OtherExec _ inputs => concat (map collect_recursive inputs)
  end.

Definition collect_join_edges (p : plan) : list JoinEdge := collect_recursive p.

(** ** Inserting filters *)

(** [schema.fields().iter().find(|f| text.contains(f.name()))] *)
Definition find_field (s : Schema) (text : string) : option string :=
  f_name <$> List.find (λ f, Text.contains text (f_name f)) s.

(** The two columns a pair of keys resolves to. *)
Definition resolve (ls rs : Schema) (e : PhysicalExpr * PhysicalExpr) : option (string * string) :=
  match find_field ls (Expr.display e.1), find_field rs (Expr.display e.2) with
  | Some build_col, Some probe_col => Some (build_col, probe_col)
  | _, _ => None
  end.

(** The loop over the join keys; [accept] decides on a resolved pair. *)
Fixpoint insert_pairs (accept : string * string → bool) (ons : list (PhysicalExpr * PhysicalExpr))
    (new_left new_right : plan) : M (plan * plan) :=
  match ons with
  | [] => mret (new_left, new_right)
  | e :: ons =>
      match resolve (schema new_left) (schema new_right) e with
      | Some (build_col, probe_col) =>
          if accept (build_col, probe_col) then
            sender ← channel;
            insert_pairs accept ons (BloomFilterBuildExec new_left build_col sender)
                                    (BloomFilterProbeExec new_right probe_col sender)
          else insert_pairs accept ons new_left new_right
      | None => insert_pairs accept ons new_left new_right
      end
  end.

(** The recursion shared by [insert_bloom_filters] and
    [insert_bloom_filters_selected]; [stop] is their guard on an empty argument,
    which does not change along the recursion. *)
Fixpoint insert_filters (stop : bool) (accept : string * string → bool) (p : plan) : M plan :=
  if stop then mret p
  else
    match p with
    | HashJoinExec j l r =>
        new_left ← insert_filters stop accept l;
        new_right ← insert_filters stop accept r;
        if bool_decide (join_type j = Inner) then
          new ← insert_pairs accept (on j) new_left new_right;
          fallible (with_new_children p [new.1; new.2])
        else fallible (with_new_children p [new_left; new_right])
    | BloomFilterBuildExec input _ _ | BloomFilterProbeExec input _ _ =>
        new ← insert_filters stop accept input;
        fallible (with_new_children p [new])
    | OtherExec _ [] => mret p
    | OtherExec _ inputs =>
        new ← (fix insert_all (ps : list plan) : M (list plan) :=
                 match ps with
                 | [] => mret []
                 | p :: ps => p' ← insert_filters stop accept p; ps' ← insert_all ps; mret (p' :: ps')
                 end) inputs;
        fallible (with_new_children p new)
    end.

Definition insert_bloom_filters (p : plan) (edges : list JoinEdge) : M plan :=
  insert_filters (bool_decide (length edges = 0)) (λ _, true) p.

Definition insert_bloom_filters_selected (p : plan) (selected : gset (string * string)) : M plan :=
  insert_filters (bool_decide (selected = ∅)) (λ pair, bool_decide (pair ∈ selected)) p.

(** ** Candidates *)

(** [partition_statistics(None)] of the nodes that have statistics: the number
    of rows.  The filter nodes keep the trait's default, unknown. *)
Context (node_num_rows : plan → Result (Precision Z)).

Definition partition_num_rows (p : plan) : Result (Precision Z) :=
  match p with
  | BloomFilterBuildExec _ _ _ | BloomFilterProbeExec _ _ _ => Ok Absent
  | _ => node_num_rows p
  end.

Definition extract_features (build_side : plan) : list f64 :=
  let build_cardinality :=
    match partition_num_rows build_side with
    | Ok n => f64_of_Z (default 10000%Z (Precision.get_value n))
    | Err _ => f64_of_Z 10000
    end in
  let distinct_estimate := f64_mul build_cardinality (f64_lit 8 1) in
  let filter_size_bytes := f64_mul build_cardinality (f64_of_Z 2) in
  let build_time_ms := f64_mul build_cardinality (f64_lit 17 4) in
  let distinctness_ratio := f64_div distinct_estimate (f64_max build_cardinality f64_one) in
  [build_cardinality; distinct_estimate; filter_size_bytes; build_time_ms; distinctness_ratio].

Context (f64_exp : f64 → f64).

(** The keys of one join, pushed on the candidates. *)
Fixpoint push_candidates (ls rs : Schema) (weight : Z) (prob : f64)
    (ons : list (PhysicalExpr * PhysicalExpr)) (candidates : list MlCandidate) : list MlCandidate :=
  match ons with
  | [] => candidates
  | e :: ons =>
      push_candidates ls rs weight prob ons
        (match resolve ls rs e with
         | Some (b, p) =>
             candidates ++ [{| key := b +:+ "_" +:+ Text.usize_text (length candidates);
                               build_col := b; probe_col := p;
                               weight_bytes := weight; pred_prob := prob |}]
         | None => candidates
         end)
  end.

(** [None] when a prediction does not return.  A tree walk that returns visits no
    node twice, so [model_fuel] steps are enough. *)
Fixpoint collect_ml_candidates (model : Gbt.GbtModel) (p : plan) (candidates : list MlCandidate)
    : option (list MlCandidate) :=
  match p with
  | HashJoinExec j l r =>
      candidates ← collect_ml_candidates model l candidates;
      candidates ← collect_ml_candidates model r candidates;
      if bool_decide (join_type j = Inner) then
        let features := extract_features l in
        weight ← f64_to_usize <$> vec_get features 2;
        prob ← Gbt.predict_proba f64_exp (Gbt.model_fuel model) features model;
        Some (push_candidates (schema l) (schema r) weight prob (on j) candidates)
      else Some candidates
  | BloomFilterBuildExec input _ _ | BloomFilterProbeExec input _ _ =>
      collect_ml_candidates model input candidates
  | OtherExec _ inputs =>
      (fix collect_all (ps : list plan) (candidates : list MlCandidate) : option (list MlCandidate) :=
         match ps with
         | [] => Some candidates
         | p :: ps => candidates ← collect_ml_candidates model p candidates; collect_all ps candidates
         end) inputs candidates
  end.

(** The pairs of the selected candidates. *)
Definition selected_pairs (candidates : list MlCandidate) (keys : gset string) : gset (string * string) :=
  list_to_set (map (λ c, (build_col c, probe_col c)) (filter (λ c, key c ∈ keys) candidates)).

(** The rewritten plan, and the predictions file written, if any. *)
Definition insert_bloom_filters_ml (env : string → option string) (opens : string → bool)
    (fs : string → option string) (p : plan) (model : Gbt.GbtModel) (budget_bytes : Z)
    : M (plan * option (string * option string)) :=
  candidates ← returns (collect_ml_candidates model p []);
  if bool_decide (length candidates = 0) then mret (p, None)
  else
    keys ← returns (knapsack_select candidates budget_bytes);
    let log :=
      if bool_decide (default "" (env "BF_LOG_PREDICTIONS") = "1") then
        let path := default "/tmp/bf_predictions.csv" (env "BF_PREDICTIONS_PATH") in
        Some (path, Metrics.write_predictions_csv (opens path) (fs path) (env "BF_QUERY_ID") candidates keys)
      else None in
    p' ← insert_bloom_filters_selected p (selected_pairs candidates keys);
    mret (p', log).

(** ** The rule *)

Definition always_build (p : plan) : M plan :=
  let edges := collect_join_edges p in
  if bool_decide (length edges = 0) then mret p else insert_bloom_filters p edges.

Definition memory_budget (env : string → option string) : Z :=
  default 25000%Z (env "BF_MEMORY_BUDGET" ≫= Text.parse_usize).

Definition optimize (env : string → option string) (opens : string → bool)
    (fs : string → option string) (from_str : string → option Gbt.GbtModel) (c : Gbt.cache) (p : plan)
    : M plan * Gbt.cache :=
  if bool_decide (default "always_build" (env "BF_POLICY") = "ml_guided") then
    let path := default "ml/bf_model.json" (env "BF_MODEL_PATH") in
    let '(model, c') := Gbt.load_model_once fs from_str path c in
    match model with
    | Some model =>
        (r ← insert_bloom_filters_ml env opens fs p model (memory_budget env); mret r.1, c')
    | None => (always_build p, c')
    end
  else (always_build p, c).
End Rule.

(** ** What the rewrite inserts *)

Section Inserted.
Context `{Nodes, !NodesOk}.

(** The resolvable key pairs of the inner joins, children first. *)
Fixpoint key_pairs (p : plan) : list (string * string) :=
  match p with
  | HashJoinExec j l r =>
      key_pairs l ++ key_pairs r ++
      (if bool_decide (join_type j = Inner) then omap (resolve (schema l) (schema r)) (on j) else [])
  | BloomFilterBuildExec input _ _ | BloomFilterProbeExec input _ _ => key_pairs input
  | OtherExec _ inputs => concat (map key_pairs inputs)
  end.

(** Every node accepts its own children. *)
Fixpoint plan_valid (p : plan) : Prop :=
  match p with
  | HashJoinExec j l r => plan_valid l ∧ plan_valid r ∧ ∃ p', hash_join_build j l r = Ok p'
  | BloomFilterBuildExec input _ _ | BloomFilterProbeExec input _ _ => plan_valid input
  | OtherExec n inputs =>
      foldr (λ q acc, plan_valid q ∧ acc) True inputs ∧
      (inputs ≠ [] → ∃ n', node_rebuild n (map schema inputs) = Ok n')
  end.

Definition insert_all (accept : string * string → bool) : list plan → M (list plan) :=
  fix insert_all ps :=
    match ps with
    | [] => mret []
    | p :: ps => p' ← insert_filters false accept p; ps' ← insert_all ps; mret (p' :: ps')
    end.

Lemma insert_filters_other accept n p ps :
  insert_filters false accept (OtherExec n (p :: ps)) =
  (new ← insert_all accept (p :: ps); fallible (with_new_children (OtherExec n (p :: ps)) new)).
Proof. reflexivity. Qed.

(** [sel] is inserted between [(p, n)] and [(p', n')]. *)
Record inserted (sel : list (string * string)) (b b' pr pr' : list (nat * string)) (n n' : nat) : Prop := {
  ins_next : n' = n + length sel;
  ins_builds : b' ≡ₚ b ++ zip (seq n (length sel)) sel.*1;
  ins_probes : pr' ≡ₚ pr ++ zip (seq n (length sel)) sel.*2;
}.

Lemma zip_seq_app {A} n (l1 l2 : list A) :
  zip (seq n (length (l1 ++ l2))) (l1 ++ l2) =
  zip (seq n (length l1)) l1 ++ zip (seq (n + length l1) (length l2)) l2.
Proof.
  rewrite length_app, seq_app, zip_with_app; [done|]. by rewrite length_seq.
Qed.

Lemma zip_seq_fmap {A B} n (s1 s2 : list A) (f : A → B) :
  zip (seq n (length (s1 ++ s2))) ((f <$> s1) ++ (f <$> s2)) =
  zip (seq n (length s1)) (f <$> s1) ++ zip (seq (n + length s1) (length s2)) (f <$> s2).
Proof.
  rewrite <- (length_fmap f s1), <- (length_fmap f s2), <- zip_seq_app.
  by rewrite !length_app, !length_fmap.
Qed.

Lemma inserted_app s1 s2 b1 b1' b2 b2' p1 p1' p2 p2' n n1 n2 :
  inserted s1 b1 b1' p1 p1' n n1 → inserted s2 b2 b2' p2 p2' n1 n2 →
  inserted (s1 ++ s2) (b1 ++ b2) (b1' ++ b2') (p1 ++ p2) (p1' ++ p2') n n2.
Proof.
  intros [-> B1 P1] [-> B2 P2]. split; [rewrite length_app; lia| |];
    rewrite fmap_app, zip_seq_fmap, ?B1, ?B2, ?P1, ?P2; solve_Permutation.
Qed.

Lemma inserted_nil b pr n : inserted [] b b pr pr n n.
Proof. split; cbn; rewrite ?app_nil_r; auto with lia. Qed.

(** Further pairs inserted on top. *)
Lemma inserted_pairs s1 s2 b b1 b2 p p1 p2 n n1 n2 :
  inserted s1 b b1 p p1 n n1 → inserted s2 b1 b2 p1 p2 n1 n2 → inserted (s1 ++ s2) b b2 p p2 n n2.
Proof.
  intros [-> B1 P1] [-> B2 P2]. split.
  - rewrite length_app. lia.
  - by rewrite fmap_app, zip_seq_fmap, B2, B1, <- app_assoc.
  - by rewrite fmap_app, zip_seq_fmap, P2, P1, <- app_assoc.
Qed.

Lemma insert_pairs_ok (accept : string * string → bool) ons nl nr n :
  let sel := filter (λ q, accept q = true) (omap (resolve (schema nl) (schema nr)) ons) in
  ∃ nl' nr' n', insert_pairs accept ons nl nr n = Some (Ok ((nl', nr'), n')) ∧
    schema nl' = schema nl ∧ schema nr' = schema nr ∧
    inserted sel (builds nl ++ builds nr) (builds nl' ++ builds nr')
                 (probes nl ++ probes nr) (probes nl' ++ probes nr') n n'.
Proof.
  revert nl nr n. induction ons as [|e ons IH]; intros nl nr n sel; cbn [insert_pairs].
  { exists nl, nr, n. split_and!; try done. apply inserted_nil. }
  subst sel. cbn [omap list_omap]. destruct (resolve (schema nl) (schema nr) e) as [[bc pc]|]; [|apply IH].
  rewrite filter_cons. destruct (accept (bc, pc)) eqn:Ha; [|apply IH].
  rewrite decide_True by done.
  destruct (IH (BloomFilterBuildExec nl bc n) (BloomFilterProbeExec nr pc n) (S n))
    as (nl' & nr' & n' & E & Hs1 & Hs2 & [Hn Hb Hp]).
  exists nl', nr', n'. split_and!; [exact E|exact Hs1|exact Hs2|].
  cbn [schema builds probes] in *. split; cbn [length fmap list_fmap fst snd].
  - lia.
  - rewrite Hb. cbn [seq zip zip_with]. solve_Permutation.
  - rewrite Hp. cbn [seq zip zip_with]. solve_Permutation.
Qed.

Lemma hash_join_build_ok j l r l' r' p :
  hash_join_build j l r = Ok p → schema l' = schema l → schema r' = schema r →
  hash_join_build j l' r' = Ok (HashJoinExec j l' r').
Proof.
  unfold hash_join_build, hash_join_check, mbind, Result_bind. intros Hb -> ->. by repeat case_match.
Qed.

Lemma bind_ok {A B} (m : M A) (f : A → M B) n a n' :
  m n = Some (Ok (a, n')) → (m ≫= f) n = f a n'.
Proof. intros E. unfold mbind, M_bind. by rewrite E. Qed.

(** The rewrite succeeds on a valid plan, keeps its schema and inserts exactly
    the accepted pairs, in order, on fresh channels. *)
Definition rewrites (accept : string * string → bool) (p : plan) : Prop :=
  ∀ n, ∃ p' n', insert_filters false accept p n = Some (Ok (p', n')) ∧ schema p' = schema p ∧
    inserted (filter (λ q, accept q = true) (key_pairs p))
             (builds p) (builds p') (probes p) (probes p') n n'.

Lemma insert_all_ok accept ps n :
  Forall (rewrites accept) ps →
  ∃ ps' n', insert_all accept ps n = Some (Ok (ps', n')) ∧ map schema ps' = map schema ps ∧
    inserted (filter (λ q, accept q = true) (concat (map key_pairs ps)))
      (concat (map builds ps)) (concat (map builds ps')) (concat (map probes ps))
      (concat (map probes ps')) n n'.
Proof.
  intros Hps. revert n. induction Hps as [|p ps Hp _ IH]; intros n.
  { exists [], n. split_and!; [done|done|apply inserted_nil]. }
  destruct (Hp n) as (p' & n1 & E1 & Hs1 & I1). destruct (IH n1) as (ps' & n2 & E2 & Hs2 & I2).
  exists (p' :: ps'), n2. cbn [insert_all map concat]. split_and!.
  - rewrite (bind_ok _ _ _ _ _ E1). fold (insert_all accept). by rewrite (bind_ok _ _ _ _ _ E2).
  - by f_equal.
  - rewrite filter_app. by eapply inserted_app.
Qed.

Lemma insert_filters_ok accept p : plan_valid p → rewrites accept p.
Proof.
  induction p as [j l r IHl IHr|input k c IH|input k c IH|m inputs IH] using plan_ind'; cbn [plan_valid].
  - intros (Vl & Vr & q & Hq) n. cbn [insert_filters].
    destruct (IHl Vl n) as (l' & n1 & E1 & Hs1 & I1). destruct (IHr Vr n1) as (r' & n2 & E2 & Hs2 & I2).
    rewrite (bind_ok _ _ _ _ _ E1), (bind_ok _ _ _ _ _ E2). cbn [key_pairs].
    rewrite !filter_app. case_bool_decide as Hi.
    + destruct (insert_pairs_ok accept (on j) l' r' n2) as (nl & nr & n3 & E3 & Hl & Hr & I3).
      rewrite (bind_ok _ _ _ _ _ E3). unfold fallible. cbn [with_new_children fst snd].
      rewrite (hash_join_build_ok j l r nl nr q) by congruence. rewrite Hs1, Hs2 in I3.
      eexists _, _. split_and!; [done|cbn [schema]; congruence|].
      destruct I1 as [-> B1 P1], I2 as [-> B2 P2], I3 as [-> B3 P3].
      rewrite app_assoc, <- filter_app in *. cbn [builds probes].
      eapply inserted_pairs; [|by split].
      rewrite filter_app. by eapply inserted_app; split.
    + cbn [with_new_children]. unfold fallible. rewrite (hash_join_build_ok j l r l' r' q) by congruence.
      eexists _, _. split_and!; [done|cbn [schema]; congruence|]. rewrite app_nil_r. by eapply inserted_app.
  - intros V n. destruct (IH V n) as (p' & n1 & E1 & Hs1 & [Hn Hb Hp]). cbn [insert_filters].
    rewrite (bind_ok _ _ _ _ _ E1). eexists _, _. split_and!; [done|done|].
    split; cbn [builds probes key_pairs]; [done| |done]. rewrite Hb. solve_Permutation.
  - intros V n. destruct (IH V n) as (p' & n1 & E1 & Hs1 & [Hn Hb Hp]). cbn [insert_filters].
    rewrite (bind_ok _ _ _ _ _ E1). eexists _, _. split_and!; [done|done|].
    split; cbn [builds probes key_pairs]; [done|done|]. rewrite Hp. solve_Permutation.
  - intros [V Hn] n. destruct inputs as [|p ps].
    { exists (OtherExec m []), n. split_and!; [done|done|apply inserted_nil]. }
    destruct (insert_all_ok accept (p :: ps) n) as (ps' & n' & E & Hs & I).
    { clear -IH V. induction IH as [|q qs Hq _ IHq]; [constructor|]. destruct V. constructor; auto. }
    rewrite insert_filters_other, (bind_ok _ _ _ _ _ E). unfold fallible. cbn [with_new_children].
    rewrite Hs. destruct (Hn ltac:(done)) as [m' Hm']. rewrite Hm'.
    eexists _, _. split_and!; [done| |done]. cbn [schema]. rewrite Hs. by eapply node_rebuild_schema.
Qed.

End Inserted.

(** ** What the rewritten plan computes *)

Section Rows.
Context `{Nodes, BloomLib, !NodesOk, !BloomLibOk}.
Abbreviation chans := (nat → option BloomPayload).

(** A resolved pair names the very columns the keys read. *)
Definition pair_safe (ls rs : Schema) (e : PhysicalExpr * PhysicalExpr) : Prop :=
  match resolve ls rs e with
  | None => True
  | Some (b, p) =>
      ∃ i j, position ls b = Some i ∧ position rs p = Some j ∧
        (∀ r, Expr.evaluate e.1 r = cell i r) ∧ (∀ r, Expr.evaluate e.2 r = cell j r)
  end.

Definition join_safe (j : HashJoin) (ls rs : Schema) : Prop :=
  join_type j = Inner → null_equality j = NullEqualsNothing ∧ Forall (pair_safe ls rs) (on j).

Fixpoint plan_safe (p : plan) : Prop :=
  match p with
  | HashJoinExec j l r => plan_safe l ∧ plan_safe r ∧ join_safe j (schema l) (schema r)
  | BloomFilterBuildExec input _ _ | BloomFilterProbeExec input _ _ => plan_safe input
  | OtherExec _ inputs => foldr (λ q acc, plan_safe q ∧ acc) True inputs
  end.

Definition keys_match (ons : list (PhysicalExpr * PhysicalExpr)) (l r : row) : Prop :=
  Forall (λ e, Transfer.key_eq NullEqualsNothing (Expr.evaluate e.1 l) (Expr.evaluate e.2 r) = true) ons.

(** The filter of a safe pair keeps every probe row that matches. *)
Lemma safe_pair_keeps e i j ls pl l r :
  (∀ r, Expr.evaluate e.1 r = cell i r) → (∀ r, Expr.evaluate e.2 r = cell j r) →
  build_payload (texts i ls) f64_zero = Some pl → l ∈ ls →
  Transfer.key_eq NullEqualsNothing (Expr.evaluate e.1 l) (Expr.evaluate e.2 r) = true →
  keeps (bp_filter pl) j r = true.
Proof.
  intros Hi Hj Hpl Hl Hm. rewrite Hi, Hj in Hm.
  eapply (Transfer.matching_row_kept i j [(i, j)]); [apply list_elem_of_here|done|done|].
  unfold Transfer.row_match. cbn. by rewrite Hm.
Qed.

Lemma filter_twice (k1 k2 : row → bool) (rs : list row) :
  filter (λ r, k2 r = true) (filter (λ r, k1 r = true) rs) = filter (λ r, k1 r && k2 r = true) rs.
Proof.
  rewrite list_filter_filter. apply list_filter_iff. intros r. rewrite andb_true_iff. tauto.
Qed.

Definition below (b : nat) (p : plan) : Prop := ∀ c, c ∈ channels p → c < b.

(** Inserting the pairs of a join: the build side's rows stay, the probe side
    loses only rows that match nothing. *)
Lemma insert_pairs_rows accept ons nl nr n nl' nr' n' ch ls o1 rs o2 :
  insert_pairs accept ons nl nr n = Some (Ok ((nl', nr'), n')) →
  Forall (pair_safe (schema nl) (schema nr)) ons → below n nr →
  eval nl ch = Some (ls, o1) → eval nr o1 = Some (rs, o2) →
  ∃ o1' keep o2', eval nl' ch = Some (ls, o1') ∧
    eval nr' o1' = Some (filter (λ r, keep r = true) rs, o2') ∧
    (∀ l r, l ∈ ls → keys_match ons l r → keep r = true) ∧ (∀ c, c < n → o2 c = o2' c).
Proof.
  revert nl nr n o1 rs o2. induction ons as [|e ons IH]; intros nl nr n o1 rs o2 E Hsafe Hb El Er.
  { injection E as <- <- <-. exists o1, (λ _, true), o2. split_and!; try done.
    rewrite Er. do 2 f_equal. clear. induction rs as [|r rs IHr]; [done|]. rewrite filter_cons_True by done. by f_equal. }
  apply Forall_cons in Hsafe as [He Hsafe]. cbn [insert_pairs] in E. unfold pair_safe in He.
  assert (Hskip : insert_pairs accept ons nl nr n = Some (Ok ((nl', nr'), n')) →
    ∃ o1' keep o2', eval nl' ch = Some (ls, o1') ∧
      eval nr' o1' = Some (filter (λ r, keep r = true) rs, o2') ∧
      (∀ l r, l ∈ ls → keys_match (e :: ons) l r → keep r = true) ∧ (∀ c, c < n → o2 c = o2' c)).
  { intros E'. destruct (IH nl nr n o1 rs o2 E' Hsafe Hb El Er) as (o1' & keep & o2' & ? & ? & Hk & ?).
    exists o1', keep, o2'. split_and!; auto. intros l r Hl [_ Hm]%Forall_cons. eauto. }
  destruct (resolve (schema nl) (schema nr) e) as [[bc pc]|]; [|by apply Hskip].
  destruct (accept (bc, pc)); [|by apply Hskip]. clear Hskip.
  destruct He as (i & j & Hi & Hj & Hvi & Hvj).
  destruct (build_payload_ok (texts i ls) f64_zero) as (pl & Hpl & _).
  unfold mbind, M_bind, channel in E.
  assert (Hn : n ∉ channels nr) by (intros ?%Hb; lia).
  destruct (eval_local nr o1 (send o1 n pl) rs o2) as (o2x & Er' & Hag & Hfr); [|done|].
  { intros c Hc. unfold send. rewrite decide_False; [done|]. intros ->. done. }
  assert (Hx : o2x n = Some pl) by (rewrite Hfr by done; unfold send; by rewrite decide_True).
  destruct (IH (BloomFilterBuildExec nl bc n) (BloomFilterProbeExec nr pc n) (S n) (send o1 n pl)
              (filter (λ r, keeps (bp_filter pl) j r = true) rs) o2x)
    as (o1' & keep & o2' & El' & Erx & Hk & Ho); [exact E|exact Hsafe| | | |].
  { intros c. cbn [channels]. rewrite elem_of_app, elem_of_cons. intros [Hc|[->|Hc]]; [apply Hb in Hc; lia|lia|].
    by apply elem_of_nil in Hc. }
  { cbn [eval]. rewrite El. cbn [mbind option_bind fst snd]. rewrite Hi. cbn. by rewrite Hpl. }
  { cbn [eval]. rewrite Er'. cbn [mbind option_bind fst snd]. rewrite Hj. cbn. by rewrite Hx. }
  exists o1', (λ r, keeps (bp_filter pl) j r && keep r), o2'. split_and!; [done| | |].
  - by rewrite Erx, filter_twice.
  - intros l r Hl [Hm Hms]%Forall_cons. rewrite (Hk l r Hl Hms), andb_true_r. by eapply safe_pair_keeps.
  - intros c Hc. rewrite <- Ho by lia. apply Hag. unfold send. by rewrite decide_False by lia.
Qed.

Lemma channels_nodes p c : c ∈ channels p ↔ c ∈ (builds p).*1 ∨ c ∈ (probes p).*1.
Proof.
  induction p as [j l r IHl IHr|input k c' IH|input k c' IH|m inputs IH] using plan_ind';
    cbn [channels builds probes]; rewrite ?fmap_app, ?elem_of_app; cbn; rewrite ?list_elem_of_singleton.
  - tauto.
  - tauto.
  - tauto.
  - induction IH as [|p ps Hp _ IHps]; cbn [map concat].
    { split; [by intros ?%elem_of_nil|by intros [?%elem_of_nil|?%elem_of_nil]]. }
    rewrite !fmap_app, !elem_of_app. tauto.
Qed.

Lemma zip_seq_fst {A} n (l : list A) c : c ∈ (zip (seq n (length l)) l).*1 → n ≤ c < n + length l.
Proof. rewrite fst_zip by (by rewrite length_seq). rewrite elem_of_seq. lia. Qed.

Lemma inserted_below sel p p' n n' b :
  inserted sel (builds p) (builds p') (probes p) (probes p') n n' → b ≤ n → below b p → below n' p'.
Proof.
  intros [-> Hb Hp] Hn Hbelow c. rewrite channels_nodes.
  assert (Hold : c ∈ (builds p).*1 ∨ c ∈ (probes p).*1 → c < n + length sel).
  { rewrite <- channels_nodes. intros ?%Hbelow. lia. }
  rewrite Hb, Hp, !fmap_app, !elem_of_app.
  intros [[?|Hc]|[?|Hc]]; auto.
  - rewrite <- (length_fmap fst sel) in Hc. apply zip_seq_fst in Hc. rewrite length_fmap in Hc. lia.
  - rewrite <- (length_fmap snd sel) in Hc. apply zip_seq_fst in Hc. rewrite length_fmap in Hc. lia.
Qed.

Definition same_rows (b : nat) (p p' : plan) : Prop :=
  ∀ ch ch' rs o, (∀ c, c < b → ch c = ch' c) → eval p ch = Some (rs, o) →
  ∃ o', eval p' ch' = Some (rs, o') ∧ ∀ c, c < b → o c = o' c.

Lemma same_rows_join b j l r l' r' :
  same_rows b l l' → same_rows b r r' → schema l' = schema l → schema r' = schema r →
  same_rows b (HashJoinExec j l r) (HashJoinExec j l' r').
Proof.
  intros Hl Hr Sl Sr ch ch' rs o Hch ([ls o1] & E1 & ([rs' o2] & E2 & [= <- <-])%bind_Some)%bind_Some.
  cbn [fst snd] in *. destruct (Hl _ _ _ _ Hch E1) as (o1' & E1' & Ho1).
  destruct (Hr _ _ _ _ Ho1 E2) as (o2' & E2' & Ho2).
  exists o2'. cbn [eval]. rewrite E1'. cbn. rewrite E2'. cbn. by rewrite Sl, Sr.
Qed.

Lemma join_match_keys j l r :
  null_equality j = NullEqualsNothing → join_match j l r = true → keys_match (on j) l r.
Proof.
  intros Hne [Hm _]%andb_true_iff. rewrite Hne in Hm. apply Forall_forall. intros e He.
  rewrite forallb_forall in Hm. by apply Hm, list_elem_of_In.
Qed.

(** An inner join whose probe side lost rows that match nothing. *)
Lemma join_rows_filter j sl sr ls rs keep :
  join_type j = Inner → null_equality j = NullEqualsNothing →
  (∀ l r, l ∈ ls → keys_match (on j) l r → keep r = true) →
  join_rows j sl sr ls (filter (λ r, keep r = true) rs) = join_rows j sl sr ls rs.
Proof.
  intros Hi Hne Hk. unfold join_rows. do 2 f_equal. unfold join_output. rewrite Hi.
  apply probe_order_filter. intros l r Hl Hm. by eapply Hk, join_match_keys.
Qed.

Lemma eval_all_same b ps ps' :
  Forall2 (same_rows b) ps ps' →
  ∀ ch ch' rss o, (∀ c, c < b → ch c = ch' c) → eval_all ps ch = Some (rss, o) →
  ∃ o', eval_all ps' ch' = Some (rss, o') ∧ ∀ c, c < b → o c = o' c.
Proof.
  induction 1 as [|p p' ps ps' Hp _ IH]; intros ch ch' rss o Hch.
  { intros [= <- <-]. eauto. }
  intros ([rs o1] & E1 & ([rss' o2] & E2 & [= <- <-])%bind_Some)%bind_Some. cbn [fst snd] in *.
  destruct (Hp _ _ _ _ Hch E1) as (o1' & E1' & Ho1). destruct (IH _ _ _ _ Ho1 E2) as (o2' & E2' & Ho2).
  exists o2'. cbn [eval_all]. rewrite E1'. cbn. by rewrite E2'.
Qed.

Definition keeps_rows (accept : string * string → bool) (b : nat) (p : plan) : Prop :=
  ∀ n p' n', b ≤ n → insert_filters false accept p n = Some (Ok (p', n')) → same_rows b p p'.

Lemma insert_all_rows accept b ps n ps' n' :
  Forall (λ p, plan_valid p ∧ keeps_rows accept b p) ps → b ≤ n →
  insert_all accept ps n = Some (Ok (ps', n')) → Forall2 (same_rows b) ps ps'.
Proof.
  intros HF. revert n ps'. induction HF as [|p ps [Hv Hk] _ IH]; intros n ps' Hn.
  { intros [= <- <-]. constructor. }
  destruct (insert_filters_ok accept p Hv n) as (p1 & n1 & E1 & _ & I1).
  cbn [insert_all]. rewrite (bind_ok _ _ _ _ _ E1). fold (insert_all accept). unfold mbind, M_bind.
  destruct (insert_all accept ps n1) as [[[ps1 n2]|]|] eqn:E2; try done. intros [= <- <-].
  constructor; [by eapply Hk|]. eapply IH; [|exact E2]. destruct I1. lia.
Qed.

Lemma keeps_rows_join accept b j l r :
  plan_valid (HashJoinExec j l r) → join_safe j (schema l) (schema r) → below b r →
  keeps_rows accept b l → keeps_rows accept b r → keeps_rows accept b (HashJoinExec j l r).
Proof.
  intros (Vl & Vr & q & Hq) Sj Hbr IHl IHr n p' n' Hn. cbn [insert_filters].
  destruct (insert_filters_ok accept l Vl n) as (l' & n1 & E1 & Hs1 & I1).
  destruct (insert_filters_ok accept r Vr n1) as (r' & n2 & E2 & Hs2 & I2).
  rewrite (bind_ok _ _ _ _ _ E1), (bind_ok _ _ _ _ _ E2).
  assert (b ≤ n1 ∧ n1 ≤ n2) as [? ?] by (destruct I1, I2; lia).
  pose proof (IHl n l' n1 Hn E1) as Rl.
  assert (Rr : same_rows b r r') by (by eapply (IHr n1)).
  case_bool_decide as Hi.
  - destruct (insert_pairs_ok accept (on j) l' r' n2) as (nl & nr & n3 & E3 & Hl & Hr & I3).
    rewrite (bind_ok _ _ _ _ _ E3). unfold fallible. cbn [with_new_children fst snd].
    rewrite (hash_join_build_ok j l r nl nr q) by congruence. intros [= <- <-].
    intros ch ch' rs o Hch ([ls o1] & El & ([rs0 o2] & Er & [= <- <-])%bind_Some)%bind_Some.
    cbn [fst snd] in *. destruct (Rl _ _ _ _ Hch El) as (o1' & El' & Ho1).
    destruct (Rr _ _ _ _ Ho1 Er) as (o2' & Er' & Ho2). destruct (Sj Hi) as [Hne Hpairs].
    destruct (insert_pairs_rows accept (on j) l' r' n2 nl nr n3 ch' ls o1' rs0 o2')
      as (o1'' & keep & o2'' & El'' & Er'' & Hk & Ho3); [done|by rewrite Hs1, Hs2| |done|done|].
    { eapply inserted_below; [exact I2| |exact Hbr]. lia. }
    exists o2''. cbn [eval]. rewrite El''. cbn [mbind option_bind fst snd]. rewrite Er''. cbn.
    rewrite Hl, Hr, Hs1, Hs2, join_rows_filter by done. split; [done|].
    intros c Hc. rewrite Ho2 by done. apply Ho3. lia.
  - unfold fallible. cbn [with_new_children]. rewrite (hash_join_build_ok j l r l' r' q) by congruence.
    intros [= <- <-]. by apply same_rows_join.
Qed.

Lemma keeps_rows_build accept b input k c :
  plan_valid input → keeps_rows accept b input → keeps_rows accept b (BloomFilterBuildExec input k c).
Proof.
  intros V IH n p' n' Hn. cbn [insert_filters].
  destruct (insert_filters_ok accept input V n) as (i' & n1 & E1 & Hs1 & I1).
  rewrite (bind_ok _ _ _ _ _ E1). intros [= <- <-]. pose proof (IH n i' n1 Hn E1) as R.
  intros ch ch' rs o Hch ([rs0 o1] & Ei & (i & Hi & (pl & Hpl & [= <- <-])%bind_Some)%bind_Some)%bind_Some.
  cbn [fst snd] in *. destruct (R _ _ _ _ Hch Ei) as (o1' & Ei' & Ho1).
  exists (send o1' c pl). cbn [eval]. rewrite Ei'. cbn [mbind option_bind fst snd]. rewrite Hs1, Hi. cbn.
  rewrite Hpl. split; [done|]. intros c' Hc'. unfold send. case_decide; auto.
Qed.

Lemma keeps_rows_probe accept b input k c :
  plan_valid input → c < b → keeps_rows accept b input →
  keeps_rows accept b (BloomFilterProbeExec input k c).
Proof.
  intros V Hc IH n p' n' Hn. cbn [insert_filters].
  destruct (insert_filters_ok accept input V n) as (i' & n1 & E1 & Hs1 & I1).
  rewrite (bind_ok _ _ _ _ _ E1). intros [= <- <-]. pose proof (IH n i' n1 Hn E1) as R.
  intros ch ch' rs o Hch ([rs0 o1] & Ei & (i & Hi & [= <- <-])%bind_Some)%bind_Some.
  cbn [fst snd] in *. destruct (R _ _ _ _ Hch Ei) as (o1' & Ei' & Ho1).
  exists o1'. cbn [eval]. rewrite Ei'. cbn [mbind option_bind fst snd]. rewrite Hs1, Hi. cbn.
  by rewrite (Ho1 c).
Qed.

Lemma keeps_rows_other accept b m inputs :
  (inputs ≠ [] → ∃ m', node_rebuild m (map schema inputs) = Ok m') →
  Forall (λ q, plan_valid q ∧ keeps_rows accept b q) inputs → keeps_rows accept b (OtherExec m inputs).
Proof.
  intros Hre HF n p' n' Hn. destruct inputs as [|p ps].
  { intros [= <- <-] ch ch' rs o Hch [= <- <-]. eexists. done. }
  destruct (insert_all_ok accept (p :: ps) n) as (ps' & n1 & E & Hs & I).
  { eapply Forall_impl; [exact HF|]. intros q [? _]. by apply insert_filters_ok. }
  rewrite insert_filters_other, (bind_ok _ _ _ _ _ E). unfold fallible. cbn [with_new_children].
  rewrite Hs. destruct (Hre ltac:(done)) as [m' Hm']. rewrite Hm'. intros [= <- <-].
  pose proof (insert_all_rows accept b _ n ps' n1 HF Hn E) as R.
  intros ch ch' rs o Hch. rewrite eval_other. intros ([rss o1] & Ei & [= <- <-])%bind_Some.
  destruct (eval_all_same b _ _ R _ _ _ _ Hch Ei) as (o1' & Ei' & Ho1).
  exists o1'. rewrite eval_other, Ei'. cbn. split; [|done]. do 2 f_equal. by eapply node_rebuild_rows.
Qed.

Lemma insert_filters_rows accept b p :
  plan_valid p → plan_safe p → below b p → keeps_rows accept b p.
Proof.
  induction p as [j l r IHl IHr|input k c IH|input k c IH|m inputs IH] using plan_ind'.
  - intros (Vl & Vr & Hq) (Sl & Sr & Sj) Hb.
    assert (below b l ∧ below b r) as [Hbl Hbr] by (split; intros c Hc; apply Hb, elem_of_app; auto).
    apply keeps_rows_join; [by split_and!|auto..].
  - intros V S Hb. apply keeps_rows_build; [done|]. apply IH; [done|done|].
    intros c' Hc'. apply Hb, elem_of_app. by left.
  - intros V S Hb. apply keeps_rows_probe; [done| |apply IH; [done|done|]].
    + apply Hb, elem_of_app. right. apply list_elem_of_here.
    + intros c' Hc'. apply Hb, elem_of_app. by left.
  - intros [V Hre] S Hb. apply keeps_rows_other; [done|]. cbn [plan_safe] in S. clear Hre.
    unfold below in Hb. cbn [channels] in Hb.
    induction IH as [|q qs Hq _ IHq]; [constructor|]. destruct V, S. cbn [map concat] in Hb. constructor.
    + split; [done|]. apply Hq; [done|done|]. intros c Hc. apply Hb, elem_of_app. by left.
    + apply IHq; [done|done|]. intros c Hc. apply Hb, elem_of_app. by right.
Qed.

End Rows.

(** ** Candidates *)

Section Candidates.
Context `{Nodes, !NodesOk}.
Context (node_num_rows : plan → Result (Precision Z)) (f64_exp : f64 → f64).

Abbreviation pair_of := (λ c, (build_col c, probe_col c)).

(** A candidate's key is its build column and its position. *)
Definition keyed (cs : list MlCandidate) : Prop :=
  ∀ i c, cs !! i = Some c → key c = build_col c +:+ "_" +:+ Text.usize_text i.

Lemma keyed_snoc cs c :
  keyed cs → key c = build_col c +:+ "_" +:+ Text.usize_text (length cs) → keyed (cs ++ [c]).
Proof.
  intros Hk Hc i c'. rewrite lookup_app_Some. intros [?|[Hi Hl]]; [auto|].
  destruct (i - length cs) as [|d] eqn:E; [|by destruct d]. injection Hl as <-. rewrite Hc. do 3 f_equal. lia.
Qed.

Lemma push_candidates_ok ls rs w prob ons cs :
  map pair_of (push_candidates ls rs w prob ons cs) = map pair_of cs ++ omap (resolve ls rs) ons ∧
  (keyed cs → keyed (push_candidates ls rs w prob ons cs)).
Proof.
  revert cs. induction ons as [|e ons IH]; intros cs; cbn [push_candidates omap list_omap].
  { by rewrite app_nil_r. }
  destruct (resolve ls rs e) as [[b p]|]; [|apply IH].
  destruct (IH (cs ++ [{| key := b +:+ "_" +:+ Text.usize_text (length cs); build_col := b;
                          probe_col := p; weight_bytes := w; pred_prob := prob |}])) as [Hp Hk].
  split; [|intros ?; by apply Hk, keyed_snoc]. rewrite Hp, map_app, <- app_assoc. done.
Qed.

Definition collects (model : Gbt.GbtModel) (p : plan) : Prop :=
  ∀ cs cs', collect_ml_candidates node_num_rows f64_exp model p cs = Some cs' →
    map pair_of cs' = map pair_of cs ++ key_pairs p ∧ (keyed cs → keyed cs').

(** The candidates are the resolvable key pairs, in the order of the rewrite. *)
Lemma collect_ml_candidates_ok model p : collects model p.
Proof.
  induction p as [j l r IHl IHr|input k c IH|input k c IH|m inputs IH] using plan_ind'; intros cs cs'.
  - cbn [collect_ml_candidates key_pairs].
    intros (cs1 & E1 & (cs2 & E2 & E3)%bind_Some)%bind_Some.
    destruct (IHl _ _ E1) as [P1 K1], (IHr _ _ E2) as [P2 K2]. case_bool_decide.
    + apply bind_Some in E3 as (w & _ & (prob & _ & [= <-])%bind_Some).
      destruct (push_candidates_ok (schema l) (schema r) w prob (on j) cs2) as [P3 K3].
      rewrite P3, P2, P1, <- !app_assoc. auto.
    + injection E3 as <-. rewrite P2, P1, app_nil_r, <- app_assoc. auto.
  - apply IH.
  - apply IH.
  - cbn [collect_ml_candidates key_pairs]. revert cs.
    induction IH as [|p ps Hp _ IHps]; intros cs; cbn [map concat].
    { intros [= <-]. by rewrite app_nil_r. }
    intros (cs1 & E1 & E2)%bind_Some. destruct (Hp _ _ E1) as [P1 K1], (IHps _ E2) as [P2 K2].
    rewrite P2, P1, <- app_assoc. auto.
Qed.

Lemma collect_ml_candidates_total model p cs :
  Gbt.model_wf model = true → is_Some (collect_ml_candidates node_num_rows f64_exp model p cs).
Proof.
  intros Hwf. revert cs.
  induction p as [j l r IHl IHr|input k c IH|input k c IH|m inputs IH] using plan_ind'; intros cs;
    cbn [collect_ml_candidates]; try apply IH.
  - destruct (IHl cs) as [cs1 ->]. cbn. destruct (IHr cs1) as [cs2 ->]. cbn.
    case_bool_decide; [|by eexists]. unfold Gbt.predict_proba.
    destruct (Gbt.score_loop_total (Gbt.trees model) (Gbt.model_fuel model) (Gbt.learning_rate model)
                (extract_features node_num_rows l) (Gbt.init_score model) Hwf ltac:(done)) as [x ->].
    by eexists.
  - revert cs. induction IH as [|p ps Hp _ IHps]; intros cs; [by eexists|].
    destruct (Hp cs) as [cs1 ->]. apply IHps.
Qed.

(** The number after the last underscore of a key. *)
Definition key_number (k : string) : option string := last (Text.split_on "_"%char k).

Lemma keyed_number cs i c : keyed cs → cs !! i = Some c → key_number (key c) = Some (Text.usize_text i).
Proof.
  intros Hk Hi. rewrite (Hk i c Hi). unfold key_number.
  change ("_" +:+ Text.usize_text i) with (String "_" (Text.usize_text i)).
  rewrite Text.split_on_app, (Text.split_on_free _ (Text.usize_text i)) by (by apply Text.usize_text_free).
  apply last_snoc.
Qed.

#[local] Instance usize_text_inj : Inj (=) (=) Text.usize_text.
Proof. intros i j Hij. unfold Text.usize_text in Hij. apply (inj pretty) in Hij. lia. Qed.

Lemma keyed_nodup cs : keyed cs → NoDup (map key cs).
Proof.
  intros Hk. apply NoDup_alt. intros i j k Hi Hj.
  apply list_lookup_fmap_Some in Hi as (c & -> & Hi). apply list_lookup_fmap_Some in Hj as (d & E & Hj).
  apply (keyed_number cs _ _ Hk) in Hi, Hj. rewrite E, Hj in Hi.
  injection Hi as Hi. by apply (inj Text.usize_text) in Hi.
Qed.

End Candidates.

(** ** Selections *)

Section Selection.
Context `{Nodes, !NodesOk}.

Lemma selected_marked cs sel :
  keyed cs → length sel = length cs → filter (λ c, key c ∈ selected_keys cs sel) cs = marked cs sel.
Proof. intros Hk Hlen. apply filter_marked; [done|]. intros i c Hi. apply selected_key_iff; [by apply keyed_nodup|done..]. Qed.

Lemma selected_pairs_marked cs sel :
  keyed cs → length sel = length cs →
  selected_pairs cs (selected_keys cs sel) =
  list_to_set (marked (map (λ c, (build_col c, probe_col c)) cs) sel).
Proof. intros Hk Hlen. unfold selected_pairs. by rewrite <- map_marked, selected_marked. Qed.

Lemma total_kb_marked cs sel : sum_list_with (λ c, to_kb (weight_bytes c)) (marked cs sel) = total_kb cs sel.
Proof.
  revert sel. induction cs as [|c cs IH]; intros [|[] sel]; [done..| |]; unfold total_kb, marked in *; cbn; by rewrite IH.
Qed.

(** Inserting the filters of marked pairs that occur once each. *)
Lemma insert_marked p sel n :
  plan_valid p → NoDup (key_pairs p) → length sel = length (key_pairs p) →
  ∃ p' n', insert_bloom_filters_selected p (list_to_set (marked (key_pairs p) sel)) n = Some (Ok (p', n')) ∧
    inserted (marked (key_pairs p) sel) (builds p) (builds p') (probes p) (probes p') n n'.
Proof.
  intros V Hnd Hlen. set (S := list_to_set (marked (key_pairs p) sel) : gset (string * string)).
  unfold insert_bloom_filters_selected. case_bool_decide as HS.
  - exists p, n. split; [by destruct p|]. destruct (marked (key_pairs p) sel); [apply inserted_nil|set_solver].
  - destruct (insert_filters_ok (λ q, bool_decide (q ∈ S)) p V n) as (p' & n' & E' & _ & I).
    exists p', n'. split; [done|]. rewrite (filter_marked _ _ sel) in I by
      (done || intros i q Hq; rewrite bool_decide_eq_true; unfold S; rewrite elem_of_list_to_set; by apply marked_nodup).
    done.
Qed.

End Selection.

(** ** The rule *)

Section Policy.
Context `{Nodes, !NodesOk}.
Context (node_num_rows : plan → Result (Precision Z)) (f64_exp : f64 → f64).

Lemma insert_filters_stop accept p n : insert_filters true accept p n = Some (Ok (p, n)).
Proof. by destruct p. Qed.

(** Whatever a policy accepts: it is the plan itself or a rewrite of it. *)
Definition rewritten (p p' : plan) (n n' : nat) : Prop :=
  (p' = p ∧ n' = n) ∨ ∃ accept, insert_filters false accept p n = Some (Ok (p', n')).

Lemma insert_filters_rewritten stop accept p n :
  plan_valid p →
  ∃ p' n', insert_filters stop accept p n = Some (Ok (p', n')) ∧ rewritten p p' n n'.
Proof.
  intros V. destruct stop.
  - exists p, n. rewrite insert_filters_stop. unfold rewritten. auto.
  - destruct (insert_filters_ok accept p V n) as (p' & n' & E & _). exists p', n'. unfold rewritten. eauto.
Qed.

Lemma always_build_rewritten p n :
  plan_valid p → ∃ p' n', always_build p n = Some (Ok (p', n')) ∧ rewritten p p' n n'.
Proof.
  intros V. unfold always_build, insert_bloom_filters. case_bool_decide.
  - exists p, n. unfold rewritten. auto.
  - by apply insert_filters_rewritten.
Qed.

Lemma knapsack_returns cs budget : (0 <= budget)%Z → is_Some (knapsack_select cs budget).
Proof.
  intros Hb. destruct (Z.eq_dec budget 0) as [->|Hne].
  - exists ∅. unfold knapsack_select. by rewrite (bool_decide_true (0 = 0)%Z), orb_true_r.
  - rewrite knapsack_select_eq by lia. by eexists.
Qed.

Lemma ml_rewritten env opens fs p model budget n :
  plan_valid p → Gbt.model_wf model = true → (0 <= budget)%Z →
  ∃ p' log n', insert_bloom_filters_ml node_num_rows f64_exp env opens fs p model budget n =
                 Some (Ok ((p', log), n')) ∧ rewritten p p' n n'.
Proof.
  intros V Hwf Hb. unfold insert_bloom_filters_ml.
  destruct (collect_ml_candidates_total node_num_rows f64_exp model p [] Hwf) as [cs ->].
  unfold mbind at 1, M_bind at 1, returns, fallible. cbn [fmap option_fmap option_map].
  case_bool_decide; [exists p, None, n; unfold rewritten; auto|].
  destruct (knapsack_returns cs budget Hb) as [keys ->]. unfold mbind at 1, M_bind at 1. cbn [fmap option_fmap option_map].
  destruct (insert_filters_rewritten (bool_decide (selected_pairs cs keys = ∅))
              (λ pair, bool_decide (pair ∈ selected_pairs cs keys)) p n V) as (p' & n' & E & HR).
  unfold insert_bloom_filters_selected. rewrite (bind_ok _ _ _ _ _ E).
  eexists p', _, n'. split; [done|done].
Qed.

Lemma memory_budget_nonneg env : (0 <= memory_budget env)%Z.
Proof.
  unfold memory_budget. destruct (env "BF_MEMORY_BUDGET" ≫= Text.parse_usize) as [v|] eqn:E; cbn; [|lia].
  apply bind_Some in E as (s & _ & Hs). by eapply Text.parse_usize_nonneg.
Qed.

Lemma optimize_rewritten env opens fs from_str c p n :
  plan_valid p →
  (∀ m, (Gbt.load_model_once fs from_str (default "ml/bf_model.json" (env "BF_MODEL_PATH")) c).1 = Some m →
        Gbt.model_wf m = true) →
  ∃ p' n', (optimize node_num_rows f64_exp env opens fs from_str c p).1 n = Some (Ok (p', n')) ∧
           rewritten p p' n n'.
Proof.
  intros V Hm. unfold optimize. case_bool_decide; [|by apply always_build_rewritten].
  destruct (Gbt.load_model_once _ _ _ _) as [[model|] c']; cbn [fst] in *; [|by apply always_build_rewritten].
  destruct (ml_rewritten env opens fs p model (memory_budget env) n V (Hm model eq_refl) (memory_budget_nonneg env))
    as (p' & log & n' & E & HR).
  exists p', n'. by rewrite (bind_ok _ _ _ _ _ E).
Qed.

Lemma no_edges_no_pairs p : collect_recursive p = [] → key_pairs p = [].
Proof.
  induction p as [j l r IHl IHr|input k c IH|input k c IH|m inputs IH] using plan_ind';
    cbn [collect_recursive key_pairs]; auto.
  - intros [Hj [Hl Hr]%app_eq_nil]%app_eq_nil. rewrite IHl, IHr by done. cbn [app].
    case_bool_decide; [|done]. apply map_eq_nil in Hj. by rewrite Hj.
  - induction IH as [|p ps Hp _ IHps]; cbn [map concat]; [done|].
    intros [H1 H2]%app_eq_nil. by rewrite Hp, IHps.
Qed.

(** ** Properties *)

(** [always_build] (and the fallback of the ML policy) succeeds on every
    valid plan, keeps its schema, and puts one build node and one probe node for
    every resolvable key pair of every inner join, in traversal order, each pair
    on a channel of its own; nothing else is inserted. *)
Theorem always_build_inserts p n :
  plan_valid p →
  ∃ p' n', always_build p n = Some (Ok (p', n')) ∧ schema p' = schema p ∧
    inserted (key_pairs p) (builds p) (builds p') (probes p) (probes p') n n'.
Proof.
  intros V. unfold always_build, insert_bloom_filters, collect_join_edges.
  case_bool_decide as He.
  - apply nil_length_inv in He. rewrite (no_edges_no_pairs p He).
    exists p, n. split_and!; [done|done|apply inserted_nil].
  - destruct (insert_filters_ok (λ _, true) p V n) as (p' & n' & E & Hs & I).
    exists p', n'. by rewrite filter_all in I.
Qed.

(** The candidates of the ML policy are exactly the key pairs that
    [always_build] filters, in the same order, and their keys are pairwise
    distinct (the position is part of the key), so the set of keys the knapsack
    returns identifies a selection.  On a well-formed model collecting them
    returns. *)
Theorem ml_candidates_complete model p :
  (Gbt.model_wf model = true → is_Some (collect_ml_candidates node_num_rows f64_exp model p [])) ∧
  ∀ cs, collect_ml_candidates node_num_rows f64_exp model p [] = Some cs →
    map (λ c, (build_col c, probe_col c)) cs = key_pairs p ∧ NoDup (map key cs).
Proof.
  split; [apply collect_ml_candidates_total|]. intros cs E.
  destruct (collect_ml_candidates_ok node_num_rows f64_exp model p [] cs E) as [HP HK].
  split; [done|]. apply keyed_nodup, HK. by intros i c ?.
Qed.

(** C26. When no two candidates have the same pair of columns, the ML policy
    inserts exactly the filters of the candidates whose keys [knapsack_select]
    returns, one build and one probe node each, and their sizes fit the budget in
    whole kilobytes. *)
Theorem ml_inserts_selection env opens fs p model budget n cs :
  plan_valid p → collect_ml_candidates node_num_rows f64_exp model p [] = Some cs →
  (0 < budget)%Z → NoDup (key_pairs p) →
  ∃ keys p' log n', knapsack_select cs budget = Some keys ∧
    let selected := filter (λ c, key c ∈ keys) cs in
    sum_list_with (λ c, to_kb (weight_bytes c)) selected ≤ to_kb budget ∧
    insert_bloom_filters_ml node_num_rows f64_exp env opens fs p model budget n =
      Some (Ok ((p', log), n')) ∧
    inserted (map (λ c, (build_col c, probe_col c)) selected)
             (builds p) (builds p') (probes p) (probes p') n n'.
Proof.
  intros V E Hb Hnd. destruct (collect_ml_candidates_ok node_num_rows f64_exp model p [] cs E) as [HP HK].
  cbn [map app] in HP. assert (Hk : keyed cs) by (apply HK; by intros i c ?).
  pose proof (length_selection cs budget) as Hlen. pose proof (knapsack_select_eq cs budget Hb) as Hsel.
  exists (selected_keys cs (selection cs budget)). cbv zeta.
  enough (∃ p' log n', insert_bloom_filters_ml node_num_rows f64_exp env opens fs p model budget n = Some (Ok ((p', log), n')) ∧
    inserted (map (λ c, (build_col c, probe_col c)) (marked cs (selection cs budget)))
      (builds p) (builds p') (probes p) (probes p') n n') as (p' & log & n' & ? & ?).
  { exists p', log, n'. rewrite selected_marked, total_kb_marked by done. split_and!; [done|apply selection_fits|done|done]. }
  unfold insert_bloom_filters_ml. rewrite E. unfold mbind at 1, M_bind at 1, returns, fallible.
  cbn [fmap option_fmap option_map]. rewrite Hsel. case_bool_decide as He.
  { apply nil_length_inv in He as ->. exists p, None, n. split; [done|apply inserted_nil]. }
  unfold mbind at 1, M_bind at 1. cbn [fmap option_fmap option_map].
  rewrite selected_pairs_marked by done. rewrite HP, map_marked, HP.
  destruct (insert_marked p (selection cs budget) n V Hnd) as (p' & n' & E' & I);
    [by rewrite Hlen, <- HP, length_map|].
  rewrite (bind_ok _ _ _ _ _ E'). eexists p', _, n'. done.
Qed.

Context `{BloomLib, !BloomLibOk}.

(** C1. The rule is semantically transparent on plans that run in one partition: for
    any environment, model file, cached model and statistics, [optimize] succeeds on
    a valid plan, and the plan it returns has the same schema and, executed on one
    partition with the build side of each hash join read to its end before its probe
    side, computes the same rows in the same order, if every resolved key names its
    own column, nulls match nothing in inner joins, and the model's trees are well
    formed.  With several partitions that share the channel of a filter rows can be
    lost, see [other_partition_filter_loses_rows]. *)
Theorem optimize_preserves_results env opens fs from_str c p n ch rs o :
  plan_valid p → plan_safe p → below n p →
  (∀ m, (Gbt.load_model_once fs from_str (default "ml/bf_model.json" (env "BF_MODEL_PATH")) c).1 = Some m →
        Gbt.model_wf m = true) →
  eval p ch = Some (rs, o) →
  ∃ p' n' o', (optimize node_num_rows f64_exp env opens fs from_str c p).1 n = Some (Ok (p', n')) ∧
    schema p' = schema p ∧ eval p' ch = Some (rs, o').
Proof.
  intros V S Hb Hm Ev.
  destruct (optimize_rewritten env opens fs from_str c p n V Hm) as (p' & n' & E & [[-> ->]|[accept Hacc]]).
  { by exists p, n, o. }
  destruct (insert_filters_ok accept p V n) as (p'' & n'' & E' & Hs & _).
  rewrite Hacc in E'. injection E' as <- <-.
  destruct (insert_filters_rows accept n p V S Hb n p' n' ltac:(lia) Hacc ch ch rs o) as (o' & Ev' & _);
    [done|done|]. by exists p', n', o'.
Qed.

End Policy.

(** ** Examples *)

Section Examples.

#[local] Existing Instances scans scans_ok toy_bloom toy_bloom_ok.

Definition scan (names : list string) (rows : list (list Z)) : plan :=
  OtherExec (map int_field names, map (map (λ z, Some (VInt64 z))) rows) [].

Definition inner_on (keys : list (PhysicalExpr * PhysicalExpr)) : HashJoin :=
  {| on := keys; join_type := Inner; null_equality := NullEqualsNothing; null_aware := false;
     projection := None; join_filter := None; join_fetch := None |}.

Definition no_env : string → option string := λ _, None.
Definition no_rows_stat : plan → Result (Precision Z) := λ _, Ok Absent.
Definition exp_one : f64 → f64 := λ _, f64_one.

(** [select * from c join o on c.ck = o.ok] *)
Definition two_tables : plan :=
  HashJoinExec (inner_on [(Column "ck" 0, Column "ok" 1)])
    (scan ["ck"; "seg"] [[1; 7]; [2; 8]]%Z) (scan ["id"; "ok"] [[10; 2]; [11; 5]; [12; 1]]%Z).

Lemma two_tables_valid : plan_valid two_tables.
Proof. split_and!; [by split|by split|by eexists]. Qed.

Lemma two_tables_safe : plan_safe two_tables.
Proof.
  split_and!; [done|done|]. intros _. split; [done|]. apply Forall_singleton.
  exists 0, 1. by split_and!.
Qed.

Definition after_optimize (p : plan) : option plan :=
  match (optimize no_rows_stat exp_one no_env (λ _, false) no_env (λ _, None) None p).1 0 with
  | Some (Ok (p', _)) => Some p'
  | _ => None
  end.

Definition rows_of (p : plan) : option (list row) := fst <$> eval p (λ _, None).

Lemma optimize_preserves_results_witness :
  ∃ p' n' o', (optimize no_rows_stat exp_one no_env (λ _, false) no_env (λ _, None) None two_tables).1 0
      = Some (Ok (p', n')) ∧ schema p' = schema two_tables ∧
    eval p' (λ _, None) = Some (map (map (λ z, Some (VInt64 z))) [[2; 8; 10; 2]; [1; 7; 12; 1]]%Z, o').
Proof.
  eapply (optimize_preserves_results no_rows_stat exp_one no_env (λ _, false) no_env (λ _, None) None
            two_tables 0 (λ _, None)).
  - exact two_tables_valid.
  - exact two_tables_safe.
  - intros c Hc. by apply elem_of_nil in Hc.
  - intros m Hm. discriminate Hm.
  - reflexivity.
Defined.

Lemma always_build_inserts_witness :
  ∃ p' n', always_build two_tables 0 = Some (Ok (p', n')) ∧ schema p' = schema two_tables ∧
    inserted [("ck", "ok")] [] (builds p') [] (probes p') 0 n'.
Proof. apply (always_build_inserts two_tables 0 two_tables_valid). Defined.

Definition no_trees : Gbt.GbtModel :=
  {| Gbt.feature_names := []; Gbt.n_estimators := 0; Gbt.learning_rate := f64_lit 1 1;
     Gbt.init_score := f64_zero; Gbt.trees := [] |}.

Lemma ml_candidates_complete_witness :
  is_Some (collect_ml_candidates no_rows_stat exp_one no_trees two_tables []) ∧
  ∃ cs, map (λ c, (build_col c, probe_col c)) cs = [("ck", "ok")] ∧ NoDup (map key cs).
Proof.
  destruct (ml_candidates_complete no_rows_stat exp_one no_trees two_tables) as [Ht Hc].
  destruct (Ht eq_refl) as [cs Hcs]. split; [by exists cs|]. exists cs. apply (Hc cs Hcs).
Defined.

Lemma ml_inserts_selection_witness :
  ∃ cs keys p' log n', knapsack_select cs 25000 = Some keys ∧
    let selected := filter (λ c, key c ∈ keys) cs in
    sum_list_with (λ c, to_kb (weight_bytes c)) selected ≤ to_kb 25000 ∧
    insert_bloom_filters_ml no_rows_stat exp_one no_env (λ _, false) no_env two_tables no_trees 25000 0 =
      Some (Ok ((p', log), n')) ∧
    inserted (map (λ c, (build_col c, probe_col c)) selected) [] (builds p') [] (probes p') 0 n'.
Proof.
  eexists. eapply (ml_inserts_selection no_rows_stat exp_one no_env (λ _, false) no_env two_tables no_trees 25000 0).
  - exact two_tables_valid.
  - reflexivity.
  - lia.
  - apply NoDup_singleton.
Defined.

(** C33. Key columns are found by substring: a key [k2] also contains the name
    [k], so with a column [k] before it the filter is built on [k], and rows of
    the join are lost. *)
Theorem substring_key_loses_rows :
  let p := HashJoinExec (inner_on [(Column "k2" 1, Column "x" 0)])
             (scan ["k"; "k2"] [[1; 5]]%Z) (scan ["x"] [[5]]%Z) in
  resolve (map int_field ["k"; "k2"]) (map int_field ["x"]) (Column "k2" 1, Column "x" 0) = Some ("k", "x") ∧
  rows_of p = Some [map (λ z, Some (VInt64 z)) [1; 5; 5]%Z] ∧
  (after_optimize p ≫= rows_of) = Some [].
Proof. split_and!; vm_compute; reflexivity. Qed.

(** A key that is an expression is filtered on the column it mentions, not
    on its value: joining on [k + 1 = x] loses its rows. *)
Theorem expression_key_loses_rows :
  let succ := λ r, match cell 0 r with Some (VInt64 z) => Some (VInt64 (z + 1)) | v => v end in
  let p := HashJoinExec (inner_on [(OtherExpr "k@0 + 1" DInt64 [("k", 0)] succ, Column "x" 0)])
             (scan ["k"] [[4]]%Z) (scan ["x"] [[5]]%Z) in
  rows_of p = Some [map (λ z, Some (VInt64 z)) [4; 5]%Z] ∧
  (after_optimize p ≫= rows_of) = Some [].
Proof. split_and!; vm_compute; reflexivity. Qed.

(** Two joins with the same pair of column names. *)
Definition same_names : plan :=
  HashJoinExec (inner_on [(Column "k" 0, Column "x" 0)])
    (HashJoinExec (inner_on [(Column "k" 0, Column "x" 0)]) (scan ["k"] [[1]]%Z) (scan ["x"] [[1]]%Z))
    (scan ["x"] [[1]]%Z).

(** The ML policy turns the selected keys back into column-name pairs, so a
    candidate that was not selected is filtered too if its pair was: here the
    budget holds one filter, the knapsack selects one, and two are built. *)
Theorem ml_pairs_exceed_budget :
  let rows1024 := λ _ : plan, Ok (Exact 1024%Z) in
  ∃ cs keys, collect_ml_candidates rows1024 exp_one no_trees same_names [] = Some cs ∧
    map weight_bytes cs = [2048; 2048]%Z ∧
    knapsack_select cs 2048 = Some keys ∧ size keys = 1 ∧
    (match insert_bloom_filters_ml rows1024 exp_one no_env (λ _, false) no_env same_names no_trees 2048 0 with
     | Some (Ok ((p', _), _)) => Some (length (builds p'))
     | _ => None
     end) = Some 2.
Proof. eexists _, _. split_and!; [reflexivity|reflexivity|reflexivity|reflexivity|vm_compute; reflexivity]. Qed.

End Examples.
End Rule.
